(* ===== verification/_CoqProject ===== *)
-Q . S2P
Prelude.v
RustStr.v
Paths.v
JsonValue.v
SqlTable.v
GuidanceTypes.v
Store.v
Topic.v
GuidanceQueue.v
GuidanceRows.v
GuidanceSystem.v
GuidanceClaim.v
GuidanceLifecycle.v
GuidanceEnqueue.v
GuidanceShadow.v
Inbox.v
InboxSpec.v
GuidanceSpec.v
GuidanceReplay.v
GuidanceReplaySpec.v
TransportCache.v
TransportCacheSpec.v
TransportRebuild.v
MutexRegistry.v
EventQueue.v
Ledger.v
LedgerSpec.v
EventLog.v
Retention.v
ExpectedEvents.v
ExpectedEventsSpec.v
Publication.v
PublicationSpec.v
PublicationProps.v
PublicationOwnership.v
ReviewTypes.v
ReviewEvents.v
ReviewWatcher.v
ReviewEventsSpec.v
ReviewWatcherSpec.v
Effects.v
CleanupDecision.v
CleanupCalls.v
CleanupInspect.v
CleanupReceipts.v
CleanupDiscover.v
CleanupCandidate.v
CleanupExec.v
CleanupService.v
CleanupChecks.v
CleanupDiscoverSpec.v
CleanupSteps.v
CleanupSpec.v
GitEvidence.v
GitPoll.v
GitLedger.v
GitMutation.v
GitOwner.v
GitRecovery.v
GitLegacy.v
GitChecks.v
GitRecoverySpec.v
GitSpec.v
GitLegacySpec.v
GitTermination.v
Lineage.v
ReviewPolicy.v
Repo.v
Resilience.v
ApprovalReceipt.v
Approval.v
ApprovalSpec.v
MergePr.v
MergeSpec.v
GuidanceScenario.v
TransportScenario.v
ReviewScenario.v
CleanupScenario.v
GitScenario.v
MergeScenario.v
