(* ===== verification/Prelude.v ===== *)
(** * ExoMonad: a verification development

    ExoMonad runs coding agents in worktrees of one repository and keeps the
    state they coordinate by in files under [.exo/]: a durable queue of
    guidance, inboxes, a registry of published pull requests, an event ledger.
    This library models the services of
    [src/rust/exomonad-core/src/services/] that keep that state or decide on it,
    with the merge handler of [handlers/], as functions on explicit stores or
    programs of calls, and proves what each promises.  This root file holds the
    vocabulary all files share.

    ** The parts and their files

    Libraries: [Prelude] (results, widths, lists), [RustStr] (byte strings as
    Rust's [str]), [Paths] ([std::path] on Unix), [JsonValue] ([serde_json]
    values), [SqlTable] (the SQL statements the sources spell out, as functions
    on row lists; [SqlEngine] is SQLite's choice of the visiting order),
    [Effects] (programs as trees of calls, their runs and traces).

    - Guidance queue ([guidance_queue.rs], [guidance_adapters.rs]): types in
      [GuidanceTypes], tables in [Store], operations in [GuidanceQueue].  Rows
      and their life cycle: [GuidanceRows].  The store invariant over every
      sequence of operations: [GuidanceSystem], [GuidanceSpec].  What each
      operation does on each branch: [GuidanceClaim], [GuidanceLifecycle],
      [GuidanceEnqueue].  Comparison with the legacy message
      ([guidance_shadow.rs]): [GuidanceShadow].  Replay from the ledger
      ([guidance_replay.rs]) and its refinement theorem: [GuidanceReplay],
      [GuidanceReplaySpec].
    - Inbox ([inbox_store.rs], [state_mirror.rs]): [Store], [Inbox], [InboxSpec].
    - Topics ([topic_vocabulary.rs]): [Topic].
    - Transport cache ([agent_inbox.rs], the consumer loop of [delivery.rs],
      classes of [tmux_events.rs]): [TransportCache]; its interleavings in
      [TransportCacheSpec]; rebuilding from the queue and a consumer on its own
      in [TransportRebuild].
    - Named locks ([mutex_registry.rs]): [MutexRegistry].  Session events
      ([event_queue.rs]): [EventQueue].  Both as critical sections interleaved
      by a step relation.
    - Event ledger ([immutable_ledger.rs]): [Ledger], [LedgerSpec].  Event log
      and the health of its sink ([event_log.rs], [sink_health.rs]): [EventLog].
      Retention ([ledger_retention.rs]): [Retention].
    - Expected events ([expected_events.rs] and its contract under
      [docs/observability/]): [ExpectedEvents], [ExpectedEventsSpec].
    - Publications ([pr_registry.rs]): [Publication], with [PublicationSpec],
      [PublicationProps] and [PublicationOwnership].
    - Review watcher ([worktree_event_watcher.rs]): data in [ReviewTypes], the
      state machine of a pull request, its events and what agents are told in
      [ReviewEvents], the poll cycle in [ReviewWatcher]; theorems in
      [ReviewEventsSpec] and [ReviewWatcherSpec].
    - Verified cleanup ([cleanup/]): data and decision in [CleanupDecision], calls
      in [CleanupCalls];
      discovery and recovery in [CleanupDiscover], inspection in
      [CleanupInspect], receipts in [CleanupReceipts], the checks before an
      action in [CleanupCandidate], the actions in [CleanupExec], plan and apply
      in [CleanupService].  What a check shows: [CleanupChecks],
      [CleanupDiscoverSpec]; what a step needs: [CleanupSteps]; the theorems:
      [CleanupSpec].
    - Git locks: data, calls and the evidence in the log ([GitEvidence]), waiting
      ([GitPoll]), reading the ledger ([git_recovery_ledger.rs]: [GitLedger]),
      paths and leases ([git_mutation.rs]: [GitMutation]), snapshots, processes
      and proofs of ownership ([git_lock_owner.rs]: [GitOwner]), quarantine of a
      lock with a proof ([git_lock_recovery.rs]: [GitRecovery]) and of one without
      ([git_legacy_lock.rs]: [GitLegacy]).  Which calls a program makes and what a
      check shows: [GitChecks]; the theorems: [GitSpec], [GitRecoverySpec],
      [GitLegacySpec], [GitTermination].
    - Merges ([services/merge_pr.rs], [handlers/merge_pr.rs]): [MergePr].  The
      approval of an aggregate by its parent ([handlers/merge_pr/]): receipts and
      their canonical text in [ApprovalReceipt], scopes, plan, candidate and the
      scan for aggregates in [Approval]; the lineage of its commits
      ([aggregate_lineage.rs]) in [Lineage].  Theorems: [ApprovalSpec], [MergeSpec].
    - Review policy ([review_policy.rs], [complexity_classifier.rs]):
      [ReviewPolicy].  Retries and health ([resilience.rs]): [Resilience].
      Supervisors ([supervisor_registry.rs]): the Module [Supervisor] there.
    - Repository addresses ([repo.rs]): [Repo].

    The [Scenario] files run the definitions on concrete stores and instantiate
    the theorems there.

    ** How they interact

    The queue and the inbox share one database ([Store]); every change of it is
    mirrored into the ledger ([append_state_change]), from which
    [GuidanceReplay] rebuilds the queue.  The transport cache is rebuilt from the
    queue ([rebuild_from_durable_at]) and hands messages to consumers.  The log
    writes through the ledger ([EventLog.append_with_seq] calls
    [Ledger.append]), retention audits through the log, and the expected events
    are counted in what the ledger replays.  The watcher reads the publication
    registry and decides with its ownership check on whom it acts.  A cleanup
    rebuilds lost identities from the ledger and the registry and takes its lock
    in the mutex registry.  The Git lock services record proofs, intents and
    receipts in the event log and decide on what they read back from its ledger.  A
    merge asks [PublicationOwnership]'s check for the owner of the head, the approval
    for its parent's word and the lineage for the commits, and the forge last.

    ** What the theorems show

    Queue: acknowledgement is an exact compare-and-set and the only way to
    acceptance; one active batch per agent; claim order; idempotent keys; lease
    recovery; terminal stability; the ledger determines the queue.  Inbox: each
    message is drained once, reminders back off.  Cache: bounded, in order, no
    message stranded, the consumer ends.  Ledger and log: replay returns exactly
    what was appended or committed whatever failed; retention loses exactly the
    audited segments; the reconciliation computes a maximum matching.
    Publications: consistent registry, fail-closed ownership, succession is
    reachability.  Watcher: it acts only on heads with a verified owner, announces
    each event of a head once, stays quiet on what it knows, also after a
    restart.  Cleanup: in every run, whatever the world answers, each call that
    removes something was asked for, is covered by checks made in the same run
    and was recorded in a stored receipt before; the decision is cleanable exactly
    when its conditions hold; a resumed receipt loses nothing; a rebuilt identity
    has all its witnesses.  Git locks: whatever the world answers, a lock is moved
    only on a proof, or on the word of an operator, that is in the log, with the
    lock, the paths and the end of the recorded processes seen again after the
    intent was written; what is reported as recovered is in the log and was seen in
    the quarantine; the evidence is read back as it was written; leases are taken in
    one order; every wait ends.  Merges: whatever files, Git and the forge answer,
    a merge is asked for only with an owner, with the evidence the caller expects, and
    for an aggregate with an approval that is proven twice, is the last of its
    history, has an id that its content determines, descends from the root scope and
    covers every commit of a child; a merge without one has looked at every
    checkpoint.  Addresses: the canonical form is stable, has no user, query or
    credential name, and is the same for every user and case of the scheme.  Policy: when a second reviewer is asked for, and which names count.
    Retries are bounded, and recovery follows failures in a row under every
    interleaving; a lookup of a supervisor is the last registration.  Some theorems state what the code does where it departs from what
    it means to do: a claim that blocks itself, waiters that are dropped, a block
    forgotten by a restart, a timed out head that is never taken up again, a
    merged sibling nobody hears of, a lock that all cleanups share, a claim of
    trust that a refused deletion loses, an interrupted quarantine that an older
    receipt hides, patterns that only match themselves, declarations that count only
    where nothing changed.

    ** Bounds and fuel

    [i64], [u64] and [u32] values are [Z]; where the source saturates, checks or
    casts, the definition does ([i64_saturating_add], [i64_checked_add],
    [as_i64_cast]).  A counter that is bounded by the number of records in memory
    is not wrapped.  Segment numbers are taken below 10^12, the width the file
    names are padded to.  Fuel: [reach_fuel] is the number of succession edges
    plus two (each round visits an invocation of the table or ends), [blank_fuel]
    gets the length of the text (a character has at least a byte),
    [run_inbox_consumer] one more than the queue (each round removes its head);
    the loops that wait ([retry_until]) get a round for each interval of the wait
    and one more, and make the marker call [Exhausted] if those were not enough,
    which [waiting_ends] excludes for a clock that does not go back and sleeps that
    last; the scan of scopes gets one round more than the directories it may visit
    ([SCAN_FUEL]), a retry one more than its attempts, a count of occurrences one
    more than the length of the text.  The theorems prove the fuel sufficient.

    ** Parameters and assumptions

    Code outside the repository is an argument: [SqlEngine] (the order in which
    SQLite visits rows), the text of a JSON value and its parser, SHA-256, what
    the log accepts, what a runtime answers to an injection, an agent's recorded
    identity and invocation, Forgejo's answers ([ReviewWatcher.Env]).  A failing
    file operation leaves the file as it was.  A database transaction or a body
    under one mutex is one step; where the source leaves a mutex in between, the
    definitions are split there.  Hash maps are finite maps, visited in the order
    of [map_to_list].  A poll of the watcher sees one state of
    the agents' files and of Forgejo.  A cleanup assumes nothing of the world: its
    calls are the nodes of a tree and every answer has a branch, so files, git and
    Forgejo may change between any two calls; so do the Git lock services, where the
    reads of one open file until its end are one call, paths are normal and UTF-8,
    and the platform is Linux.  A merge reads the publications at one time; Git, the
    agent resolver, the address and name of the repository and the forge are calls,
    and its JSON numbers are integers; [ApprovalReceipt.pointer] is RFC 6901.  The
    keys of a policy file are what the TOML parser makes of it ([PolicyToml]), the text
    of an IPv6 address is what [Ipv6Addr] prints, and what the [url] crate parses is
    [UrlCrate].

    ** Not modelled

    Process, git and terminal handling ([agent_control], the server and the
    command line), hooks and plugins: they are I/O around the services above.
    Generated protocol buffers.  The team inboxes of [claude-teams-bridge]: files
    of another program behind advisory locks.  Of the watcher: the capture of
    memories, the calls of WebAssembly plugins, what it writes to [watcher.log] and
    about itself, and the loop of inbox reminders.  Of delivery: Teams, HTTP and
    tmux.  Of Forgejo: the client, its pagination and its decoding of answers.
    Of cleanup: what git, Forgejo, tmux, the file system, the release of hook
    trust and the team registries do inside one call, and names that are not
    UTF-8.  Of Git locks: what one call does in the kernel, and the release of a
    lease when its handle is dropped.  Of merges: the agent resolver behind its call,
    and the memory store; the address of a repository is a call there, which [Repo]
    models on its own. *)

From stdpp Require Export base tactics option list sets relations numbers strings.
From Stdlib Require Export ZArith Lia.

(** ** Results

    The source's fallible functions return [anyhow::Result<T>] or a
    [Result<T, E>] with a typed error.  [result A E] is that type; an
    [anyhow] error is its outermost message. *)

Inductive result (A E : Type) : Type :=
| Ok (a : A)
| Err (e : E).
Arguments Ok {A E} a.
Arguments Err {A E} e.

Declare Scope exo_scope.
Delimit Scope exo_scope with exo.
Open Scope exo_scope.

(** The [?] operator: stop at the first error. *)
Notation "'let?' x ':=' c 'in' k" :=
  (match c with Ok x => k | Err err => Err err end)
  (at level 10, x name, c at level 100, k at level 200) : exo_scope.
Notation "'let?' ' x ':=' c 'in' k" :=
  (match c with Ok x => k | Err err => Err err end)
  (at level 10, x strict pattern, c at level 100, k at level 200) : exo_scope.

(** [bail!] under a condition: [guard b msg] continues only if [b]. *)
Definition ensure {E} (b : bool) (e : E) : result unit E :=
  if b then Ok tt else Err e.

Definition is_ok {A E} (r : result A E) : bool :=
  match r with Ok _ => true | Err _ => false end.

Definition result_to_option {A E} (r : result A E) : option A :=
  match r with Ok a => Some a | Err _ => None end.

Definition option_context {A E} (o : option A) (e : E) : result A E :=
  match o with Some a => Ok a | None => Err e end.

(** [iter().map(f).collect::<Result<Vec<_>>>()]: left to right, first
    error wins. *)
Fixpoint collect {A B E} (f : A -> result B E) (l : list A) : result (list B) E :=
  match l with
  | [] => Ok []
  | x :: l' =>
      let? y := f x in
      let? ys := collect f l' in
      Ok (y :: ys)
  end.

(** A loop whose body may bail: [for x in l { f(acc, x)?; }]. *)
Fixpoint try_fold {A B E} (f : B -> A -> result B E) (acc : B) (l : list A) : result B E :=
  match l with
  | [] => Ok acc
  | x :: l' => let? acc' := f acc x in try_fold f acc' l'
  end.

(** ** Machine integers *)

Definition i64_max : Z := 2 ^ 63 - 1.
Definition i64_min : Z := - 2 ^ 63.
Definition u64_max : Z := 2 ^ 64 - 1.
Definition u32_max : Z := 2 ^ 32 - 1.

Definition in_i64 (z : Z) : Prop := (i64_min <= z <= i64_max)%Z.

(** [i64::saturating_add] and [i64::saturating_mul]. *)
Definition i64_clamp (z : Z) : Z := Z.max i64_min (Z.min i64_max z).
Definition i64_saturating_add (a b : Z) : Z := i64_clamp (a + b).
Definition i64_saturating_mul (a b : Z) : Z := i64_clamp (a * b).

(** [i64::checked_add]. *)
Definition i64_checked_add (a b : Z) : option Z :=
  if ((i64_min <=? a + b) && (a + b <=? i64_max))%Z then Some (a + b)%Z else None.

(** [i64::try_from(n: u64).unwrap_or(i64::MAX)]. *)
Definition i64_of_u64_or_max (n : Z) : Z := Z.min n i64_max.

Lemma i64_clamp_range z : in_i64 (i64_clamp z).
Proof. unfold in_i64, i64_clamp, i64_min, i64_max. lia. Qed.

Lemma i64_clamp_id z : in_i64 z -> i64_clamp z = z.
Proof. unfold in_i64, i64_clamp. lia. Qed.

Lemma i64_saturating_add_range a b : in_i64 (i64_saturating_add a b).
Proof. apply i64_clamp_range. Qed.

Lemma i64_saturating_mul_range a b : in_i64 (i64_saturating_mul a b).
Proof. apply i64_clamp_range. Qed.

(** A saturated sum of an in-range value and a non-negative delay never goes
    below the value, and is strictly above it unless the clock is pinned. *)
Lemma i64_saturating_add_ge a b :
  in_i64 a -> (0 <= b)%Z -> (a <= i64_saturating_add a b)%Z.
Proof. unfold in_i64, i64_saturating_add, i64_clamp, i64_min, i64_max. lia. Qed.

Lemma i64_saturating_add_gt a b :
  in_i64 a -> (a < i64_max)%Z -> (0 < b)%Z -> (a < i64_saturating_add a b)%Z.
Proof. unfold in_i64, i64_saturating_add, i64_clamp, i64_min, i64_max. lia. Qed.

Lemma i64_checked_add_Some a b c :
  i64_checked_add a b = Some c -> c = (a + b)%Z /\ in_i64 c.
Proof.
  unfold i64_checked_add, in_i64. intros H.
  destruct (andb _ _) eqn:E; [|done]. injection H as <-.
  apply andb_true_iff in E as [E1%Z.leb_le E2%Z.leb_le]. lia.
Qed.

(** ** Results: lemmas *)

Lemma collect_Forall2 {A B E} (f : A -> result B E) l ys :
  collect f l = Ok ys <-> Forall2 (fun x y => f x = Ok y) l ys.
Proof.
  revert ys. induction l as [|x l IH]; intros ys; cbn.
  - split; [intros [= <-]; constructor | by inversion 1].
  - split.
    + destruct (f x) as [y|] eqn:E1; [|done].
      destruct (collect f l) as [ys'|] eqn:E2; [|done].
      intros [= <-]. constructor; [done|]. by apply IH.
    + inversion 1 as [|? y ? ys' Hx Hl]; subst.
      rewrite Hx. apply IH in Hl. by rewrite Hl.
Qed.

Lemma collect_length {A B E} (f : A -> result B E) l ys :
  collect f l = Ok ys -> length ys = length l.
Proof. intros H%collect_Forall2. symmetry. by eapply Forall2_length. Qed.

Lemma collect_ext {A B E} (f g : A -> result B E) l :
  (forall x, x ∈ l -> f x = g x) -> collect f l = collect g l.
Proof.
  induction l as [|x l IH]; intros H; [done|]. cbn.
  rewrite H by set_solver. rewrite IH by set_solver. done.
Qed.

Lemma try_fold_app {A B E} (f : B -> A -> result B E) acc l1 l2 :
  try_fold f acc (l1 ++ l2)
  = match try_fold f acc l1 with Ok a => try_fold f a l2 | Err e => Err e end.
Proof.
  revert acc. induction l1 as [|x l1 IH]; intros acc; [done|]. cbn.
  destruct (f acc x); [apply IH|done].
Qed.

Lemma ensure_Ok {E} b (e : E) u : ensure b e = Ok u <-> b = true.
Proof. unfold ensure. destruct b, u; split; congruence. Qed.

(** ** Lists *)

Lemma filter_negb_nil {A} (p : A -> bool) l :
  existsb p l = false <-> List.filter p l = [].
Proof.
  induction l as [|x l IH]; cbn; [done|].
  destruct (p x); cbn; [split; congruence | apply IH].
Qed.

Lemma existsb_elem {A} (p : A -> bool) l :
  existsb p l = true <-> exists x, x ∈ l /\ p x = true.
Proof.
  rewrite existsb_exists. split; intros (x & Hin & Hp); exists x;
    (split; [by apply list_elem_of_In|done]).
Qed.

Lemma existsb_false {A} (p : A -> bool) l :
  existsb p l = false <-> forall x, x ∈ l -> p x = false.
Proof.
  split.
  - intros H x Hin. destruct (p x) eqn:E; [|done].
    rewrite <- H. symmetry. apply existsb_elem. eauto.
  - intros H. destruct (existsb p l) eqn:E; [|done].
    apply existsb_elem in E as (x & Hin & Hp). rewrite H in Hp; done.
Qed.

Lemma forallb_elem {A} (p : A -> bool) l :
  forallb p l = true <-> forall x, x ∈ l -> p x = true.
Proof.
  rewrite forallb_forall. split; intros H x Hin; apply H; by apply list_elem_of_In.
Qed.

Lemma elem_of_lfilter {A} (p : A -> bool) l x :
  x ∈ List.filter p l <-> x ∈ l /\ p x = true.
Proof. rewrite !list_elem_of_In. apply filter_In. Qed.

Lemma lookup_map {A B} (f : A -> B) l i : map f l !! i = f <$> l !! i.
Proof. apply list_lookup_fmap. Qed.

(** Rows with distinct keys are identified by their key. *)
Lemma NoDup_map_inj {A B} (f : A -> B) l x y :
  NoDup (map f l) -> x ∈ l -> y ∈ l -> f x = f y -> x = y.
Proof.
  intros Hnd [i Hi]%list_elem_of_lookup [j Hj]%list_elem_of_lookup E.
  assert (i = j) as ->; [|congruence].
  eapply (NoDup_lookup _ i j (f x) Hnd); rewrite lookup_map.
  - by rewrite Hi.
  - rewrite Hj. cbn. by rewrite E.
Qed.

(** ** Automation *)

Create HintDb exo.
#[export] Hint Resolve i64_saturating_add_range i64_saturating_mul_range
  i64_clamp_range : exo.

(** Case analysis on every [let?] and [if] on the path to a known result. *)
Ltac result_cases :=
  repeat match goal with
  | H : Ok _ = Ok _ |- _ => injection H as H; subst
  | H : Err _ = Err _ |- _ => injection H as H; subst
  | H : Ok _ = Err _ |- _ => discriminate H
  | H : Err _ = Ok _ |- _ => discriminate H
  | H : ensure _ _ = Ok _ |- _ => apply ensure_Ok in H
  | H : context [match ?c with Ok _ => _ | Err _ => _ end] |- _ =>
      let E := fresh "E" in destruct c eqn:E
  end.

(** Turn boolean tests of the code into the facts they decide. *)
Ltac bool_facts :=
  repeat match goal with
  | H : (_ && _) = true |- _ => apply andb_true_iff in H as [? ?]
  | H : (_ || _) = false |- _ => apply orb_false_iff in H as [? ?]
  | H : negb _ = true |- _ => apply negb_true_iff in H
  | H : negb _ = false |- _ => apply negb_false_iff in H
  | H : (_ <=? _)%Z = true |- _ => apply Z.leb_le in H
  | H : (_ <=? _)%Z = false |- _ => apply Z.leb_gt in H
  | H : (_ <? _)%Z = true |- _ => apply Z.ltb_lt in H
  | H : (_ <? _)%Z = false |- _ => apply Z.ltb_ge in H
  | H : (_ =? _)%Z = true |- _ => apply Z.eqb_eq in H
  | H : (_ =? _)%Z = false |- _ => apply Z.eqb_neq in H
  | H : String.eqb _ _ = true |- _ => apply String.eqb_eq in H
  | H : String.eqb _ _ = false |- _ => apply String.eqb_neq in H
  | H : bool_decide _ = true |- _ => apply bool_decide_eq_true in H
  | H : bool_decide _ = false |- _ => apply bool_decide_eq_false in H
  end.

(** Tests that came out true. *)
Ltac bools :=
  repeat match goal with
  | H : bool_decide _ = true |- _ => apply bool_decide_eq_true in H
  | H : (_ && _)%bool = true |- _ => apply andb_true_iff in H as [? ?]
  | H : negb _ = true |- _ => apply negb_true_iff in H
  | H : (_ =? _)%Z = true |- _ => apply Z.eqb_eq in H
  | H : String.eqb _ _ = true |- _ => apply String.eqb_eq in H
  end; subst.
