(* ===== verification/RustStr.v ===== *)
(** * Rust strings

    A Rust [str] is a UTF-8 byte sequence; it is modelled as the byte string
    [string], so [str::len] is [String.length] and every test the source makes
    on an ASCII character is a test on a byte (an ASCII byte never occurs
    inside a multi-byte character).  [str::trim] is the exception: it removes
    characters of the Unicode property White_Space, listed here by their UTF-8
    encodings. *)

From Stdlib Require Export Ascii.
From stdpp Require Import pretty.
From Stdlib Require OrderedTypeEx.
From S2P Require Import Prelude.

(** The hexadecimal SHA-256 digest of a byte string ([sha2] crate). *)
Class Sha256 := { sha256_hex : string -> string }.

(** [str::len], in bytes. *)
Definition str_len (s : string) : Z := Z.of_nat (String.length s).

Definition bytes_str (l : list nat) : string :=
  fold_right (fun n s => String (ascii_of_nat n) s) EmptyString l.

(** The UTF-8 encodings of the White_Space characters. *)
Definition white_space : list string :=
  map bytes_str
    ([ [9]; [10]; [11]; [12]; [13]; [32]; [194; 133]; [194; 160];
       [225; 154; 128]; [226; 128; 168]; [226; 128; 169]; [226; 128; 175];
       [226; 129; 159]; [227; 128; 128] ]
     ++ map (fun n => [226; 128; n]) (seq 128 11)).

(** [str::strip_prefix]. *)
Fixpoint strip_prefix (p s : string) : option string :=
  match p, s with
  | EmptyString, _ => Some s
  | String a p', String b s' =>
      if Ascii.eqb a b then strip_prefix p' s' else None
  | String _ _, EmptyString => None
  end.

Definition strip_white_space (s : string) : option string :=
  fold_right (fun w acc => match strip_prefix w s with
                           | Some s' => Some s'
                           | None => acc
                           end) None white_space.

Fixpoint blank_fuel (fuel : nat) (s : string) : bool :=
  match fuel, s with
  | _, EmptyString => true
  | O, _ => false
  | S fuel', _ =>
      match strip_white_space s with
      | Some s' => blank_fuel fuel' s'
      | None => false
      end
  end.

(** [value.trim().is_empty()]. *)
Definition is_blank (s : string) : bool := blank_fuel (String.length s) s.

(** [str::is_empty]. *)
Definition str_is_empty (s : string) : bool := String.eqb s "".

(** [s.contains(c)] for an ASCII character. *)
Fixpoint str_contains (c : ascii) (s : string) : bool :=
  match s with
  | EmptyString => false
  | String a s' => Ascii.eqb a c || str_contains c s'
  end.

(** [s.rsplit_once(c)]: split at the last occurrence. *)
Fixpoint rsplit_once (c : ascii) (s : string) : option (string * string) :=
  match s with
  | EmptyString => None
  | String a s' =>
      match rsplit_once c s' with
      | Some (l, r) => Some (String a l, r)
      | None => if Ascii.eqb a c then Some (EmptyString, s') else None
      end
  end.

(** [s.split(c)]: never empty, [n] separators give [n + 1] pieces. *)
Fixpoint split_char (c : ascii) (s : string) : list string :=
  match s with
  | EmptyString => [EmptyString]
  | String a s' =>
      if Ascii.eqb a c then EmptyString :: split_char c s'
      else match split_char c s' with
           | p :: ps => String a p :: ps
           | [] => [String a EmptyString]
           end
  end.

(** [pieces.join(c)]. *)
Fixpoint join_char (c : ascii) (l : list string) : string :=
  match l with
  | [] => EmptyString
  | [p] => p
  | p :: ps => (p ++ String c (join_char c ps))%string
  end.

(** ** Lemmas *)

#[local] Arguments String.append !_ _ / : simpl nomatch.

Lemma rsplit_once_Some c s l r :
  rsplit_once c s = Some (l, r) ->
  s = (l ++ String c r)%string /\ str_contains c r = false.
Proof.
  revert l. induction s as [|a s IH]; cbn; intros l H; [done|].
  destruct (rsplit_once c s) as [[l' r']|] eqn:E.
  - injection H as <- <-. destruct (IH l' eq_refl) as [-> ?]. done.
  - destruct (Ascii.eqb a c) eqn:Eac; [|done].
    injection H as <- <-. apply Ascii.eqb_eq in Eac as ->. split; [done|].
    clear IH. induction s as [|b s IH]; [done|]. cbn in *.
    destruct (rsplit_once c s) as [[??]|]; [done|].
    destruct (Ascii.eqb b c); [done|]. auto.
Qed.

Lemma rsplit_once_None c s :
  rsplit_once c s = None <-> str_contains c s = false.
Proof.
  induction s as [|a s IH]; cbn; [done|].
  destruct (rsplit_once c s) as [[l r]|] eqn:E.
  - split; [done|]. intros [_ H]%orb_false_iff. apply IH in H. done.
  - destruct (Ascii.eqb a c); cbn; [split; done|].
    split; [intros _; by apply IH | done].
Qed.

Lemma str_contains_app c s t :
  str_contains c (s ++ t) = str_contains c s || str_contains c t.
Proof. induction s as [|a s IH]; cbn; [done|]. by rewrite IH, orb_assoc. Qed.

Lemma split_char_ne c s : split_char c s <> [].
Proof.
  destruct s as [|a s]; cbn; [done|].
  destruct (Ascii.eqb a c); [done|]. by destruct (split_char c s).
Qed.

Lemma split_char_no_sep c s :
  str_contains c s = false -> split_char c s = [s].
Proof.
  induction s as [|a s IH]; cbn; [done|].
  intros [Ha Hs]%orb_false_iff. rewrite Ha, (IH Hs). done.
Qed.

Lemma split_char_app c s t :
  str_contains c s = false ->
  split_char c (s ++ String c t) = s :: split_char c t.
Proof.
  induction s as [|a s IH]; cbn.
  - rewrite Ascii.eqb_refl. done.
  - intros [Ha Hs]%orb_false_iff. rewrite Ha, (IH Hs). done.
Qed.

Lemma str_cons_app a s t : (String a s ++ t = String a (s ++ t))%string.
Proof. reflexivity. Qed.
Lemma str_app_assoc (a b c : string) : ((a ++ b) ++ c = a ++ b ++ c)%string.
Proof. induction a as [|x a IH]; [done|]. cbn. by rewrite IH. Qed.
Lemma str_length_app (a b : string) : String.length (a ++ b)%string = String.length a + String.length b.
Proof. induction a as [|c a IH]; cbn; [done|]. by rewrite IH. Qed.
Lemma str_app_nil_r (a : string) : (a ++ "")%string = a.
Proof. induction a as [|c a IH]; cbn; [done|]. by rewrite IH. Qed.

(** Joining separator-free pieces and splitting again is the identity. *)
Lemma split_join_char c l :
  l <> [] -> Forall (fun p => str_contains c p = false) l ->
  split_char c (join_char c l) = l.
Proof.
  intros Hne Hl. induction Hl as [|p ps Hp Hps IH]; [done|].
  destruct ps as [|q ps].
  - cbn. by apply split_char_no_sep.
  - change (join_char c (p :: q :: ps))
      with (p ++ String c (join_char c (q :: ps)))%string.
    rewrite split_char_app by done. f_equal. by apply IH.
Qed.

Lemma join_split_char c s : join_char c (split_char c s) = s.
Proof.
  induction s as [|a s IH]; [done|]. cbn.
  pose proof (split_char_ne c s) as Hne.
  destruct (Ascii.eqb a c) eqn:E.
  - apply Ascii.eqb_eq in E as ->.
    destruct (split_char c s) as [|p ps]; [done|]. cbn in *. by rewrite IH.
  - destruct (split_char c s) as [|p [|q ps]]; [done| |]; cbn in *; by rewrite IH.
Qed.

Lemma split_char_pieces c s :
  Forall (fun p => str_contains c p = false) (split_char c s).
Proof.
  induction s as [|a s IH]; cbn; [by repeat constructor|].
  destruct (Ascii.eqb a c) eqn:E; [by constructor|].
  destruct (split_char c s) as [|p ps]; [by repeat constructor; cbn; rewrite E|].
  inversion_clear IH. constructor; [cbn; by rewrite E|done].
Qed.

Lemma is_blank_empty : is_blank "" = true.
Proof. done. Qed.

(** Only the empty string is blank among strings with no leading space. *)
Lemma is_blank_nonempty s : is_blank s = false -> s <> ""%string.
Proof. by intros H ->. Qed.

Example blank_tab : is_blank (bytes_str [9; 32; 194; 160]) = true.
Proof. vm_compute. reflexivity. Qed.
Example blank_letter : is_blank " a" = false.
Proof. vm_compute. reflexivity. Qed.

(** * Decimal numerals and trimming

    [str::parse::<u64>], [u64::to_string] (as [pretty]) and [str::trim]: the
    text form of the counters and sizes that several services keep in files. *)

Local Open Scope string_scope.

Definition digit_value (c : ascii) : option Z :=
  let n := nat_of_ascii c in
  if (48 <=? n)%nat && (n <=? 57)%nat then Some (Z.of_nat (n - 48)) else None.

(** [str::parse::<u64>]. *)
Fixpoint parse_digits (acc : Z) (s : string) : option Z :=
  match s with
  | EmptyString => Some acc
  | String c s' =>
      match digit_value c with
      | None => None
      | Some d =>
          let acc' := (acc * 10 + d)%Z in
          if (acc' <=? u64_max)%Z then parse_digits acc' s' else None
      end
  end.
Definition parse_u64 (s : string) : option Z :=
  match s with
  | EmptyString => None
  | String c rest =>
      if Ascii.eqb c "+" then (if str_is_empty rest then None else parse_digits 0 rest)
      else parse_digits 0 s
  end.

(** [str::trim_start]; [String.length s] removals are enough. *)
Fixpoint trim_start_fuel (fuel : nat) (s : string) : string :=
  match fuel with
  | O => s
  | S fuel' =>
      match strip_white_space s with
      | Some s' => trim_start_fuel fuel' s'
      | None => s
      end
  end.
Definition trim_start (s : string) : string := trim_start_fuel (String.length s) s.

(** [str::trim_end]: cut where only white space is left. *)
Fixpoint trim_end (s : string) : string :=
  if is_blank s then EmptyString
  else match s with
       | EmptyString => EmptyString
       | String c s' => String c (trim_end s')
       end.

Definition str_trim (s : string) : string := trim_end (trim_start s).

(** [str::split_whitespace]: the pieces between characters of White_Space. *)
Fixpoint white_pieces (fuel : nat) (s : string) : string * list string :=
  match fuel, s with
  | S fuel, String c s' =>
      match strip_white_space s with
      | Some rest => let '(piece, pieces) := white_pieces fuel rest in ("", piece :: pieces)
      | None => let '(piece, pieces) := white_pieces fuel s' in (String c piece, pieces)
      end
  | _, _ => ("", [])
  end.
Definition split_whitespace (s : string) : list string :=
  let '(piece, pieces) := white_pieces (String.length s) s in
  List.filter (fun p => negb (str_is_empty p)) (piece :: pieces).

(** ** Numerals are trimmed and parse back *)

Definition is_digit (c : ascii) : bool :=
  match digit_value c with Some _ => true | None => false end.

Fixpoint all_digits (s : string) : bool :=
  match s with
  | EmptyString => true
  | String c s' => is_digit c && all_digits s'
  end.

Lemma digit_cases c :
  is_digit c = true ->
  c = "0"%char \/ c = "1"%char \/ c = "2"%char \/ c = "3"%char \/ c = "4"%char \/
  c = "5"%char \/ c = "6"%char \/ c = "7"%char \/ c = "8"%char \/ c = "9"%char.
Proof.
  destruct c as [[] [] [] [] [] [] [] []]; vm_compute; intros H; try discriminate; tauto.
Qed.

Lemma digit_not_space c s : is_digit c = true -> strip_white_space (String c s) = None.
Proof.
  intros H%digit_cases. destruct_or!; subst c; reflexivity.
Qed.

Lemma digits_not_blank c s : is_digit c = true -> is_blank (String c s) = false.
Proof.
  intros H. unfold is_blank. cbn [String.length blank_fuel]. by rewrite digit_not_space.
Qed.

Lemma trim_digits s : all_digits s = true -> str_trim s = s.
Proof.
  unfold str_trim, trim_start. intros H.
  assert (trim_start_fuel (String.length s) s = s) as ->.
  { destruct s as [|c s]; [done|]. cbn in *. apply andb_true_iff in H as [Hc _].
    pose proof (digit_not_space c s Hc) as D. cbn in D. by rewrite D. }
  induction s as [|c s IH]; [done|]. cbn [all_digits] in H. apply andb_true_iff in H as [Hc Hs].
  cbn [trim_end]. rewrite digits_not_blank by done. by rewrite IH.
Qed.

Lemma digit_value_char n :
  (n < 10)%N -> digit_value (pretty_N_char n) = Some (Z.of_N n).
Proof.
  intros H. rewrite <- (N2Nat.id n).
  assert (F : Forall (fun k => digit_value (pretty_N_char (N.of_nat k)) = Some (Z.of_N (N.of_nat k)))
                (seq 0 10)) by (repeat constructor).
  eapply Forall_forall in F; [exact F|]. apply elem_of_seq. lia.
Qed.

Lemma parse_pretty_go n s :
  (Z.of_N n <= u64_max)%Z -> parse_digits 0 (pretty_N_go n s) = parse_digits (Z.of_N n) s.
Proof.
  revert s. induction n as [n IH] using (well_founded_induction N.lt_wf_0). intros s Hn.
  destruct (decide (n = 0)%N) as [->|Hne]; [by rewrite pretty_N_go_0|].
  rewrite pretty_N_go_step by lia.
  assert (D : (n `div` 10 < n)%N) by (apply N.div_lt; lia).
  rewrite IH by lia. cbn [parse_digits].
  rewrite digit_value_char by (apply N.mod_lt; lia).
  assert ((Z.of_N (n `div` 10) * 10 + Z.of_N (n `mod` 10))%Z = Z.of_N n) as ->.
  { pose proof (N.div_mod n 10 ltac:(lia)). lia. }
  by rewrite (proj2 (Z.leb_le _ _)) by lia.
Qed.

Lemma pretty_go_digits n s : all_digits s = true -> all_digits (pretty_N_go n s) = true.
Proof.
  revert s. induction n as [n IH] using (well_founded_induction N.lt_wf_0). intros s Hs.
  destruct (decide (n = 0)%N) as [->|Hne]; [by rewrite pretty_N_go_0|].
  rewrite pretty_N_go_step by lia. apply IH; [apply N.div_lt; lia|].
  cbn. unfold is_digit. by rewrite digit_value_char by (apply N.mod_lt; lia).
Qed.

Lemma pretty_Z_nat z : (0 <= z)%Z -> pretty z = pretty (Z.to_N z).
Proof. by destruct z. Qed.

Lemma pretty_digits z : (0 <= z)%Z -> all_digits (pretty z) = true.
Proof.
  intros H. rewrite pretty_Z_nat by done. unfold pretty, pretty_N.
  destruct (decide _); [done|]. by apply pretty_go_digits.
Qed.

Lemma parse_u64_digits s : all_digits s = true -> s <> "" -> parse_u64 s = parse_digits 0 s.
Proof.
  destruct s as [|c s]; [done|]. cbn [all_digits parse_u64]. intros [Hc _]%andb_true_iff _.
  apply digit_cases in Hc. by destruct_or!; subst c.
Qed.

Lemma parse_u64_pretty z : (0 <= z <= u64_max)%Z -> parse_u64 (pretty z) = Some z.
Proof.
  intros Hz. rewrite parse_u64_digits; [|apply pretty_digits; lia|].
  - rewrite pretty_Z_nat by lia. unfold pretty, pretty_N. destruct (decide _) as [E|E].
    + assert (z = 0%Z) as -> by lia. reflexivity.
    + rewrite parse_pretty_go by (rewrite Z2N.id; lia). cbn. by rewrite Z2N.id by lia.
  - rewrite pretty_Z_nat by lia. unfold pretty, pretty_N. destruct (decide _) as [E|E]; [done|].
    intros X. pose proof (parse_pretty_go (Z.to_N z) "") as P. rewrite X in P. cbn in P.
    rewrite Z2N.id in P by lia. specialize (P ltac:(lia)). injection P. lia.
Qed.

(** [value.trim().parse::<u64>()] of a written counter. *)
Lemma parse_trim_pretty z : (0 <= z <= u64_max)%Z -> parse_u64 (str_trim (pretty z)) = Some z.
Proof.
  intros Hz. rewrite trim_digits by (apply pretty_digits; lia). by apply parse_u64_pretty.
Qed.

(** * Searching in strings

    [str::contains], [str::split_once] and [str::lines] with a string pattern,
    and the run of leading ASCII digits several parsers take. *)

Local Open Scope string_scope.

(** [s.split_once(pat)]: before and after the first occurrence. *)
Fixpoint split_once_str (pat s : string) : option (string * string) :=
  match strip_prefix pat s with
  | Some after => Some (EmptyString, after)
  | None =>
      match s with
      | EmptyString => None
      | String c s' => '(before, after) ← split_once_str pat s'; Some (String c before, after)
      end
  end.

(** [s.contains(pat)]. *)
Definition contains_str (pat s : string) : bool :=
  match split_once_str pat s with Some _ => true | None => false end.

(** [s.chars().take_while(char::is_ascii_digit)]. *)
Fixpoint leading_digits (s : string) : string :=
  match s with
  | EmptyString => EmptyString
  | String c s' => if is_digit c then String c (leading_digits s') else EmptyString
  end.

(** [s.ends_with(suffix)]. *)
Fixpoint ends_with (suffix s : string) : bool :=
  String.eqb suffix s
  || match s with
     | EmptyString => false
     | String _ s' => ends_with suffix s'
     end.

(** [str::strip_suffix]. *)
Fixpoint strip_suffix (suffix s : string) : option string :=
  if String.eqb suffix s then Some ""
  else match s with
       | EmptyString => None
       | String c s => option_map (String c) (strip_suffix suffix s)
       end.

(** [str::to_ascii_lowercase]. *)
Definition ascii_lower (c : ascii) : ascii :=
  let n := nat_of_ascii c in
  if (65 <=? n)%nat && (n <=? 90)%nat then ascii_of_nat (n + 32) else c.
Fixpoint to_ascii_lowercase (s : string) : string :=
  match s with
  | EmptyString => EmptyString
  | String c s' => String (ascii_lower c) (to_ascii_lowercase s')
  end.

Definition LF : ascii := ascii_of_nat 10.
Definition CR : ascii := ascii_of_nat 13.

(** [BufRead::lines] and [str::lines]: split at line feeds, a carriage return before one is
    dropped, a last piece without one is a line unless it is empty. *)
Definition strip_cr (s : string) : string :=
  match rsplit_once CR s with Some (l, "") => l | _ => s end.

Fixpoint terminated (pieces : list string) : list string :=
  match pieces with
  | [] => []
  | [p] => if str_is_empty p then [] else [p]
  | p :: ps => strip_cr p :: terminated ps
  end.

Definition lines (content : string) : list string := terminated (split_char LF content).

(** [s.trim_start_matches(c)]. *)
Fixpoint trim_start_char (c : ascii) (s : string) : string :=
  match s with
  | String a s' => if Ascii.eqb a c then trim_start_char c s' else s
  | EmptyString => EmptyString
  end.

(** [strs.join(sep)]. *)
Definition join_str (sep : string) (l : list string) : string :=
  match l with
  | [] => ""
  | p :: ps => fold_left (fun acc p => acc ++ sep ++ p) ps p
  end.

(** [char::is_ascii_hexdigit], and [all] over the bytes. *)
Definition is_hex_digit (c : ascii) : bool :=
  let n := nat_of_ascii c in
  (48 <=? n)%nat && (n <=? 57)%nat || (65 <=? n)%nat && (n <=? 70)%nat
  || (97 <=? n)%nat && (n <=? 102)%nat.
Fixpoint all_chars (f : ascii -> bool) (s : string) : bool :=
  match s with EmptyString => true | String c s => f c && all_chars f s end.

(** [u8::is_ascii_graphic]. *)
Definition is_ascii_graphic (c : ascii) : bool :=
  let n := nat_of_ascii c in (33 <=? n)%nat && (n <=? 126)%nat.

(** [{:?}] of a text of printable characters and line breaks. *)
Definition quote_char : ascii := ascii_of_nat 34.
Definition escape_char (c : ascii) : string :=
  if Ascii.eqb c quote_char || Ascii.eqb c "\" then String "\" (String c EmptyString)
  else if Ascii.eqb c LF then "\n"
  else if Ascii.eqb c CR then "\r"
  else if Ascii.eqb c (ascii_of_nat 9) then "\t"
  else String c EmptyString.
Fixpoint escape_str (s : string) : string :=
  match s with EmptyString => EmptyString | String c s => escape_char c ++ escape_str s end.
Definition debug_str (s : string) : string :=
  String quote_char (escape_str s ++ String quote_char EmptyString).

(** ** Lemmas *)

Lemma strip_prefix_Some p s after : strip_prefix p s = Some after -> s = p ++ after.
Proof.
  revert s. induction p as [|a p IH]; intros s; [by intros [= ->]|].
  destruct s as [|b s]; [done|]. cbn. destruct (Ascii.eqb_spec a b) as [->|]; [|done].
  intros E. change (String b (p ++ after)) with (String b (p ++ after)). by rewrite (IH s E).
Qed.

Lemma split_once_str_Some pat s before after :
  split_once_str pat s = Some (before, after) -> s = before ++ (pat ++ after).
Proof.
  revert before. induction s as [|c s IH]; intros before; cbn [split_once_str].
  - destruct (strip_prefix pat "") as [a|] eqn:E; [|done]. intros [= <- <-].
    by apply strip_prefix_Some in E.
  - destruct (strip_prefix pat (String c s)) as [a|] eqn:E.
    + intros [= <- <-]. by apply strip_prefix_Some in E.
    + destruct (split_once_str pat s) as [[b a]|]; cbn; [|done]. intros [= <- <-].
      change (String c s = String c (b ++ (pat ++ a))). by rewrite (IH b).
Qed.

Lemma graphic_not_space c s : is_ascii_graphic c = true -> strip_white_space (String c s) = None.
Proof.
  destruct c as [[] [] [] [] [] [] [] []]; intros E; try (exfalso; vm_compute in E; discriminate E);
    reflexivity.
Qed.

(** The last separator of a text that has one. *)
Lemma rsplit_once_app c s t :
  rsplit_once c (s ++ String c t)
  = match rsplit_once c t with Some (l, r) => Some (s ++ String c l, r) | None => Some (s, t) end.
Proof.
  induction s as [|a s IH].
  - change ("" ++ String c t) with (String c t). cbn [rsplit_once]. rewrite Ascii.eqb_refl.
    by destruct (rsplit_once c t) as [[l r]|].
  - rewrite str_cons_app. cbn [rsplit_once]. rewrite IH. by destruct (rsplit_once c t) as [[l r]|].
Qed.

Lemma rsplit_once_last c l r :
  str_contains c r = false -> rsplit_once c (l ++ String c r) = Some (l, r).
Proof. intros Hr%rsplit_once_None. by rewrite rsplit_once_app, Hr. Qed.

(** ** The order of strings *)

Lemma str_compare_refl s : String.compare s s = Eq.
Proof.
  induction s as [|a s IH]; [done|]. cbn. unfold Ascii.compare. by rewrite N.compare_refl.
Qed.

Lemma leb_trans a b c : String.leb a b = true -> String.leb b c = true -> String.leb a c = true.
Proof.
  assert (C : forall a b, String.leb a b = true <-> a = b \/ String.compare a b = Lt).
  { intros x y. unfold String.leb. pose proof (String.compare_eq_iff x y) as E.
    split.
    - destruct (String.compare x y); [left; by apply E|by right|done].
    - intros [->| ->]; [by rewrite str_compare_refl|done]. }
  rewrite !C. intros [->|L1]; [done|]. intros [<-|L2]; [by right|]. right.
  apply OrderedTypeEx.String_as_OT.cmp_lt in L1, L2. apply OrderedTypeEx.String_as_OT.cmp_lt.
  by eapply OrderedTypeEx.String_as_OT.lt_trans.
Qed.
