(* ===== verification/Paths.v ===== *)
(** * Paths

    [std::path] on Unix: a path is its components, as comparison sees it; the
    printed form is the normal one, without repeated separators.  Components are
    UTF-8, so [to_string_lossy] is the text. *)

From S2P Require Import Prelude RustStr.
Local Open Scope string_scope.

Record PathBuf := { pb_absolute : bool; pb_components : list string }.
#[export] Instance PathBuf_eq_dec : EqDecision PathBuf.
Proof. solve_decision. Defined.

Definition slash : ascii := "/"%char.

(** Empty components vanish, and [.] except in front of a relative path. *)
Definition keep_component (c : string) : bool := negb (str_is_empty c || String.eqb c ".").
Definition parse_path (text : string) : PathBuf :=
  let parts := split_char slash text in
  match text with
  | String c _ =>
      if Ascii.eqb c slash then {| pb_absolute := true; pb_components := List.filter keep_component parts |}
      else {| pb_absolute := false;
              pb_components :=
                match parts with
                | first :: rest => first :: List.filter keep_component rest
                | [] => []
                end |}
  | EmptyString => {| pb_absolute := false; pb_components := [] |}
  end.

Definition display (p : PathBuf) : string :=
  (if pb_absolute p then "/" else "") ++ join_char slash (pb_components p).

(** [Path::join]. *)
Definition path_join (base : PathBuf) (p : PathBuf) : PathBuf :=
  if pb_absolute p then p
  else {| pb_absolute := pb_absolute base;
          pb_components := (pb_components base ++ List.filter keep_component (pb_components p))%list |}.
(** [Path::join] with plain names. *)
Definition path_sub (base : PathBuf) (names : list string) : PathBuf :=
  {| pb_absolute := pb_absolute base; pb_components := (pb_components base ++ names)%list |}.

Definition path_parent (p : PathBuf) : option PathBuf :=
  match pb_components p with
  | [] => None
  | cs => Some {| pb_absolute := pb_absolute p; pb_components := removelast cs |}
  end.

Definition path_file_name (p : PathBuf) : option string :=
  match List.rev (pb_components p) with
  | name :: _ => if String.eqb name ".." || String.eqb name "." then None else Some name
  | [] => None
  end.

(** [Path::starts_with], component by component. *)
Fixpoint prefix_of_list (l l' : list string) : bool :=
  match l, l' with
  | [], _ => true
  | x :: l, y :: l' => String.eqb x y && prefix_of_list l l'
  | _ :: _, [] => false
  end.
Definition path_starts_with (p base : PathBuf) : bool :=
  Bool.eqb (pb_absolute p) (pb_absolute base)
  && prefix_of_list (pb_components base) (pb_components p).

(** The text of the path with a suffix. *)
Definition append_suffix (p : PathBuf) (suffix : string) : PathBuf :=
  {| pb_absolute := pb_absolute p;
     pb_components :=
       match List.rev (pb_components p) with
       | name :: front => (List.rev front ++ [(name ++ suffix)%string])%list
       | [] => [suffix]
       end |}.

(** ** Lemmas *)

Lemma parent_of_sub p names name : path_parent (path_sub p (names ++ [name])%list) = Some (path_sub p names).
Proof.
  unfold path_parent, path_sub. cbn [pb_components]. rewrite app_assoc.
  pose proof (removelast_last (pb_components p ++ names)%list name) as E.
  destruct ((pb_components p ++ names) ++ [name])%list eqn:En; [by destruct (pb_components p ++ names)%list|].
  by rewrite E.
Qed.

Lemma name_of_sub p names name :
  name <> ".." -> name <> "." -> path_file_name (path_sub p (names ++ [name])%list) = Some name.
Proof.
  intros H1%String.eqb_neq H2%String.eqb_neq. unfold path_file_name, path_sub. cbn.
  by rewrite app_assoc, rev_app_distr; cbn; rewrite H1, H2.
Qed.

Lemma path_split p d name :
  path_parent p = Some d -> path_file_name p = Some name -> p = path_sub d [name].
Proof.
  destruct p as [a cs]. unfold path_parent, path_file_name, path_sub.
  cbn [pb_components pb_absolute].
  destruct cs as [|x cs _] using rev_ind; [done|]. rewrite rev_app_distr. cbn [List.rev app].
  pose proof (removelast_last cs x) as E.
  destruct (cs ++ [x])%list eqn:En; [by destruct cs|]. cbv zeta. rewrite E.
  intros [= <-]. cbn [pb_components pb_absolute]. rewrite <- En. case_match; [done|]. by intros [= ->].
Qed.

(** A path is its parent and its name. *)
Lemma parent_and_name p p' d name :
  path_parent p = Some d -> path_file_name p = Some name ->
  path_parent p' = Some d -> path_file_name p' = Some name -> p = p'.
Proof. intros H1 H2 H3 H4. by rewrite (path_split p d name), (path_split p' d name). Qed.

(** A path as [canonicalize] returns it: absolute, of plain components. *)
Definition plain_component (c : string) : Prop :=
  c <> "" /\ c <> "." /\ str_contains slash c = false.
Definition normal_path (p : PathBuf) : Prop :=
  pb_absolute p = true /\ Forall plain_component (pb_components p).

Lemma keep_plain cs : Forall plain_component cs -> List.filter keep_component cs = cs.
Proof.
  induction 1 as [|c cs (H1 & H2 & _) _ IH]; [done|]. cbn. unfold keep_component at 1.
  destruct c as [|a c]; [done|]. cbn [str_is_empty orb]. apply String.eqb_neq in H2. rewrite H2. cbn.
  by rewrite IH.
Qed.

Lemma parse_display p : normal_path p -> parse_path (display p) = p.
Proof.
  intros [Ha Hc]. destruct p as [a cs]. cbn in Ha, Hc. subst a. unfold parse_path, display. cbn.
  f_equal. destruct cs as [|c cs]; [done|].
  change (split_char slash _) with ("" :: split_char slash (join_char slash (c :: cs))).
  cbn [List.filter]. change (keep_component "") with false. cbv iota. rewrite split_join_char; [by apply keep_plain|done|].
  eapply Forall_impl; [exact Hc|]. by intros x (_ & _ & H).
Qed.
