(* ===== verification/JsonValue.v ===== *)
(** * JSON values

    The shape of [serde_json::Value] and the accessors the source calls on it.
    An object keeps its members sorted by key with one value per key, as
    [serde_json::Map] does.  Numbers are the integers the source writes
    ([i64] and [u64]); it writes no fractional number in the modelled events.
    The text form is a parameter: the class [JsonText] states the round trip
    of [serde_json::to_string] and [serde_json::from_str] that the durable
    queue relies on. *)

From stdpp Require Import countable.
From S2P Require Import Prelude RustStr.

#[warnings="-register-all"]
Inductive json : Type :=
| JNull
| JBool (b : bool)
| JNum (n : Z)
| JStr (s : string)
| JArr (l : list json)
| JObj (m : list (string * json)).

(** [Map::get]. *)
Fixpoint obj_get (k : string) (m : list (string * json)) : option json :=
  match m with
  | [] => None
  | (k', v) :: m' => if String.eqb k k' then Some v else obj_get k m'
  end.

(** [Map::insert]: replace, or insert in key order. *)
Fixpoint obj_insert (k : string) (v : json) (m : list (string * json))
  : list (string * json) :=
  match m with
  | [] => [(k, v)]
  | (k', v') :: m' =>
      if String.eqb k k' then (k, v) :: m'
      else if String.ltb k k' then (k, v) :: (k', v') :: m'
      else (k', v') :: obj_insert k v m'
  end.

(** [if let Some(value) = value { object.insert(name, value) }]. *)
Definition obj_insert_opt (k : string) (v : option json) (m : list (string * json))
  : list (string * json) :=
  match v with Some v => obj_insert k v m | None => m end.

(** [json!({ k: v, ... })]. *)
Definition jobj (l : list (string * json)) : json :=
  JObj (fold_left (fun m kv => obj_insert kv.1 kv.2 m) l []).

Definition as_object (j : json) : option (list (string * json)) :=
  match j with JObj m => Some m | _ => None end.
Definition as_str (j : json) : option string :=
  match j with JStr s => Some s | _ => None end.
Definition as_array (j : json) : option (list json) :=
  match j with JArr l => Some l | _ => None end.
Definition as_u64 (j : json) : option Z :=
  match j with
  | JNum n => if ((0 <=? n) && (n <=? u64_max))%Z then Some n else None
  | _ => None
  end.
Definition as_i64 (j : json) : option Z :=
  match j with
  | JNum n => if ((i64_min <=? n) && (n <=? i64_max))%Z then Some n else None
  | _ => None
  end.

(** Serialisation of the optional fields the source passes to [json!]. *)
Definition jopt {A} (f : A -> json) (o : option A) : json :=
  match o with Some a => f a | None => JNull end.

(** ** Lemmas *)

Lemma obj_get_insert k k' v m :
  obj_get k (obj_insert k' v m) = if String.eqb k k' then Some v else obj_get k m.
Proof.
  induction m as [|[k0 v0] m IH]; cbn.
  - by destruct (String.eqb k k').
  - destruct (String.eqb k' k0) eqn:E1; cbn.
    + apply String.eqb_eq in E1 as ->. by destruct (String.eqb k k0).
    + destruct (String.ltb k' k0); cbn; [by destruct (String.eqb k k')|].
      rewrite IH. destruct (String.eqb k k0) eqn:E2; [|done].
      apply String.eqb_eq in E2 as ->.
      rewrite String.eqb_sym in E1. by rewrite E1.
Qed.

Lemma obj_get_insert_opt k k' v m :
  obj_get k (obj_insert_opt k' v m)
  = if String.eqb k k' then match v with Some _ => v | None => obj_get k m end
    else obj_get k m.
Proof.
  destruct v as [v|]; cbn.
  - apply obj_get_insert.
  - by destruct (String.eqb k k').
Qed.

Create Rewrite HintDb json.
#[export] Hint Rewrite obj_get_insert obj_get_insert_opt : json.

(** Read one field of an object built by [json!] and [Map::insert]. *)
Ltac json_get :=
  autorewrite with json; cbn [String.eqb Ascii.eqb Bool.eqb].

(** ** Decidable equality, through an encoding as a labelled tree *)

Fixpoint json_tree (j : json) : gen_tree (Z + string) :=
  match j with
  | JNull => GenNode 0 []
  | JBool b => GenNode 1 [GenLeaf (inl (if b then 1%Z else 0%Z))]
  | JNum n => GenNode 2 [GenLeaf (inl n)]
  | JStr s => GenNode 3 [GenLeaf (inr s)]
  | JArr l => GenNode 4 (map json_tree l)
  | JObj m => GenNode 5 (map (fun kv => GenNode 6 [GenLeaf (inr kv.1); json_tree kv.2]) m)
  end.

Fixpoint tree_json (t : gen_tree (Z + string)) : json :=
  match t with
  | GenNode 1 [GenLeaf (inl n)] => JBool (Z.eqb n 1)
  | GenNode 2 [GenLeaf (inl n)] => JNum n
  | GenNode 3 [GenLeaf (inr s)] => JStr s
  | GenNode 4 l => JArr (map tree_json l)
  | GenNode 5 l =>
      JObj (map (fun t => match t with
                          | GenNode 6 [GenLeaf (inr k); v] => (k, tree_json v)
                          | _ => (""%string, JNull)
                          end) l)
  | _ => JNull
  end.

(** Structural induction that reaches the members of arrays and objects. *)
Section JsonInd.
Context (P : json -> Prop).
Hypotheses (Hnull : P JNull) (Hbool : forall b, P (JBool b))
  (Hnum : forall n, P (JNum n)) (Hstr : forall s, P (JStr s))
  (Harr : forall l, Forall P l -> P (JArr l))
  (Hobj : forall m, Forall (fun kv => P kv.2) m -> P (JObj m)).

Fixpoint json_ind' (j : json) : P j :=
  match j with
  | JNull => Hnull
  | JBool b => Hbool b
  | JNum n => Hnum n
  | JStr s => Hstr s
  | JArr l =>
      Harr l ((fix go l := match l return Forall P l with
                           | [] => List.Forall_nil _
                           | x :: l' => List.Forall_cons _ _ _ (json_ind' x) (go l')
                           end) l)
  | JObj m =>
      Hobj m ((fix go m := match m return Forall (fun kv => P kv.2) m with
                           | [] => List.Forall_nil _
                           | kv :: m' => List.Forall_cons _ _ _ (json_ind' kv.2) (go m')
                           end) m)
  end.
End JsonInd.

Lemma tree_json_tree j : tree_json (json_tree j) = j.
Proof.
  induction j as [|b|n|s|l IH|m IH] using json_ind'; cbn; try done.
  - by destruct b.
  - f_equal. induction IH as [|x l Hx _ IH]; cbn; [done|]. by rewrite Hx, IH.
  - f_equal. induction IH as [|[k x] m Hx _ IH]; cbn in *; [done|]. by rewrite Hx, IH.
Qed.

#[export] Instance json_tree_inj : Inj (=) (=) json_tree.
Proof. intros j1 j2 H. rewrite <- (tree_json_tree j1), H. apply tree_json_tree. Qed.

#[export] Instance json_eq_dec : EqDecision json.
Proof. refine (inj_eq_dec json_tree). Defined.

#[export] Instance json_countable : Countable json :=
  inj_countable' json_tree tree_json tree_json_tree.

(** ** The text codec *)

Class JsonText := {
  json_to_string : json -> string;
  json_from_string : string -> option json;
  json_text_roundtrip : forall j, json_from_string (json_to_string j) = Some j
}.

(** A concrete codec with the round-trip law, for evaluating the model. *)
Fixpoint bits_of_pos (p : positive) : string :=
  match p with
  | xH => EmptyString
  | xO p => String "0" (bits_of_pos p)
  | xI p => String "1" (bits_of_pos p)
  end.

Fixpoint pos_of_bits (s : string) : positive :=
  match s with
  | EmptyString => xH
  | String c s => if Ascii.eqb c "1" then xI (pos_of_bits s) else xO (pos_of_bits s)
  end.

Lemma pos_of_bits_of_pos p : pos_of_bits (bits_of_pos p) = p.
Proof. induction p as [p IH|p IH|]; cbn; by rewrite ?IH. Qed.

Definition bits_json_text : JsonText.
Proof.
  refine {| json_to_string j := bits_of_pos (encode j);
            json_from_string s := decode (pos_of_bits s) |}.
  intros j. rewrite pos_of_bits_of_pos. apply decode_encode.
Defined.
