(* ===== verification/SqlTable.v ===== *)
(** * SQL statements over in-memory tables

    The source keeps its durable queue and inbox in SQLite and spells every
    statement out as SQL text.  A table is modelled as the list of its rows and
    a statement as the list operation its text denotes: [WHERE] is a filter,
    [UPDATE ... SET ... WHERE] a conditional map, [ORDER BY] a sort.  What the
    text leaves to the engine is a parameter, the class [SqlEngine]: the order
    in which rows of a query without [ORDER BY] arrive, the rowid of a new row,
    and the conversion of a [u64] parameter to SQLite's signed integers. *)

From S2P Require Import Prelude.
From Stdlib Require Import Sorting.Sorted.

Class SqlEngine := {
  (** Row order of a query that does not fix one: some permutation. *)
  sql_scan : forall {A : Type}, list A -> list A;
  sql_scan_perm : forall A (l : list A), sql_scan l ≡ₚ l;
  (** The rowid given to a row inserted into an [INTEGER PRIMARY KEY] table
      whose rowids are the argument: above all of them while there is room. *)
  sql_new_rowid : list Z -> Z;
  sql_new_rowid_above : forall ids,
    Forall (fun i => i < i64_max)%Z ids ->
    (1 <= sql_new_rowid ids)%Z /\ Forall (fun i => i < sql_new_rowid ids)%Z ids;
  (** Binding a [u64]: refused above [i64::MAX], unchanged below. *)
  sql_bind_u64 : Z -> option Z;
  sql_bind_u64_ok : forall n, (n <= i64_max)%Z -> sql_bind_u64 n = Some n;
  sql_bind_u64_over : forall n, (i64_max < n)%Z -> sql_bind_u64 n = None
}.

(** An engine that scans in rowid order: the one SQLite uses for a plain scan. *)
Definition rowid_engine : SqlEngine.
Proof.
  refine {| sql_scan A l := l;
            sql_new_rowid ids := 1 + fold_right Z.max 0 ids;
            sql_bind_u64 n := if (n <=? i64_max)%Z then Some n else None |}%Z.
  - done.
  - intros ids _. assert (H : Forall (fun i => i <= fold_right Z.max 0 ids)%Z ids
                              /\ (0 <= fold_right Z.max 0 ids)%Z).
    { induction ids as [|i ids [IH1 IH2]]; cbn; [done|]. split; [|lia].
      constructor; [lia|]. eapply Forall_impl; [exact IH1|]. cbn. lia. }
    destruct H as [H ?]. split; [lia|].
    eapply Forall_impl; [exact H|]. cbn. lia.
  - intros n H. apply Z.leb_le in H. by rewrite H.
  - intros n H. apply Z.leb_gt in H. by rewrite H.
Defined.

Definition sql_where {A} (p : A -> bool) (t : list A) : list A := List.filter p t.
Definition sql_exists {A} (p : A -> bool) (t : list A) : bool := existsb p t.
Definition sql_count {A} (p : A -> bool) (t : list A) : Z :=
  Z.of_nat (length (List.filter p t)).
Definition sql_delete {A} (p : A -> bool) (t : list A) : list A :=
  List.filter (fun r => negb (p r)) t.

(** [UPDATE t SET f WHERE p], and the number of rows it changed. *)
Definition sql_update {A} (p : A -> bool) (f : A -> A) (t : list A) : list A :=
  map (fun r => if p r then f r else r) t.

(** [SELECT MAX(k)]: [NULL] on an empty selection. *)
Definition sql_max {A} (k : A -> Z) (t : list A) : option Z :=
  fold_right (fun r acc => Some (match acc with
                                 | Some m => Z.max (k r) m
                                 | None => k r
                                 end)) None t.

(** [ORDER BY] a Boolean order: insertion sort of the scanned rows. *)
Fixpoint sorted_insert {A} (le : A -> A -> bool) (x : A) (l : list A) : list A :=
  match l with
  | [] => [x]
  | y :: l' => if le x y then x :: y :: l' else y :: sorted_insert le x l'
  end.

Definition insertion_sort {A} (le : A -> A -> bool) (l : list A) : list A :=
  fold_right (sorted_insert le) [] l.

Definition sql_order_by `{SqlEngine} {A} (le : A -> A -> bool) (l : list A) : list A :=
  insertion_sort le (sql_scan l).

(** [query_row(..).optional()]: the first row of the result. *)
Definition sql_first `{SqlEngine} {A} (l : list A) : option A := head (sql_scan l).

(** [SELECT DISTINCT k ... ORDER BY k]. *)
Fixpoint dedup_keys (l : list string) : list string :=
  match l with
  | [] => []
  | x :: l' => if existsb (String.eqb x) l' then dedup_keys l' else x :: dedup_keys l'
  end.

(** ** Lemmas *)

Section Update.
Context {A : Type}.
Implicit Types (p : A -> bool) (f : A -> A) (t : list A).

Lemma sql_update_length p f t : length (sql_update p f t) = length t.
Proof. apply length_map. Qed.

Lemma sql_update_none p f t :
  (forall r, r ∈ t -> p r = false) -> sql_update p f t = t.
Proof.
  intros H. induction t as [|r t IH]; [done|]. cbn.
  rewrite H by set_solver. f_equal. apply IH. set_solver.
Qed.

(** A column the update does not write keeps its values, in order. *)
Lemma sql_update_column {B} (k : A -> B) p f t :
  (forall r, k (f r) = k r) -> map k (sql_update p f t) = map k t.
Proof.
  intros H. unfold sql_update. rewrite map_map. apply map_ext.
  intros r. destruct (p r); auto.
Qed.

Lemma elem_of_sql_update p f t r' :
  r' ∈ sql_update p f t <->
  exists r, r ∈ t /\ r' = if p r then f r else r.
Proof.
  unfold sql_update. rewrite list_elem_of_In, in_map_iff.
  split; intros (r & H1 & H2); exists r.
  - split; [by apply list_elem_of_In|done].
  - split; [done|by apply list_elem_of_In].
Qed.

(** An update moves every row along a reflexive relation. *)
Lemma sql_update_Forall2 (R : A -> A -> Prop) p f t :
  (forall r, R r r) -> (forall r, r ∈ t -> p r = true -> R r (f r)) ->
  Forall2 R t (sql_update p f t).
Proof.
  intros Hrefl Hf. induction t as [|r t IH]; cbn; constructor.
  - destruct (p r) eqn:E; [apply Hf; [set_solver|done]|done].
  - apply IH. intros r' Hin. apply Hf. set_solver.
Qed.

Lemma sql_update_Forall (P : A -> Prop) p f t :
  Forall P t -> (forall r, r ∈ t -> P r -> p r = true -> P (f r)) ->
  Forall P (sql_update p f t).
Proof.
  intros HP Hf. apply Forall_forall. intros r' Hin.
  apply elem_of_sql_update in Hin as (r & Hr & ->).
  rewrite Forall_forall in HP. destruct (p r) eqn:E; auto.
Qed.
End Update.

Section Order.
Context {A : Type} (le : A -> A -> bool).

Lemma sorted_insert_perm x l : sorted_insert le x l ≡ₚ x :: l.
Proof.
  induction l as [|y l IH]; cbn; [done|].
  destruct (le x y); [done|]. rewrite IH. apply Permutation_swap.
Qed.

Lemma insertion_sort_perm l : insertion_sort le l ≡ₚ l.
Proof.
  induction l as [|x l IH]; cbn; [done|]. by rewrite sorted_insert_perm, IH.
Qed.

Context (le_trans : forall x y z, le x y = true -> le y z = true -> le x z = true)
        (le_total : forall x y, le x y = true \/ le y x = true).

Lemma sorted_insert_sorted x l :
  StronglySorted (fun a b => le a b = true) l ->
  StronglySorted (fun a b => le a b = true) (sorted_insert le x l).
Proof.
  induction 1 as [|y l Hs IH Hy]; cbn; [by repeat constructor|].
  destruct (le x y) eqn:E.
  - constructor; [by constructor|]. constructor; [done|].
    eapply Forall_impl; [exact Hy|]. cbn. intros z Hz. by eapply le_trans.
  - constructor; [done|]. rewrite sorted_insert_perm. constructor; [|done].
    destruct (le_total x y); [congruence|done].
Qed.

Lemma insertion_sort_sorted l :
  StronglySorted (fun a b => le a b = true) (insertion_sort le l).
Proof. induction l; cbn; [constructor|by apply sorted_insert_sorted]. Qed.

(** The first row of a sorted result is a least one. *)
Lemma insertion_sort_head l x :
  head (insertion_sort le l) = Some x ->
  x ∈ l /\ forall y, y ∈ l -> le x y = true.
Proof.
  intros Hx. pose proof (insertion_sort_perm l) as Hp.
  pose proof (insertion_sort_sorted l) as Hs.
  destruct (insertion_sort le l) as [|z s]; [done|]. injection Hx as ->.
  split; [rewrite <- Hp; set_solver|].
  intros y. rewrite <- Hp. intros [->|Hy]%elem_of_cons.
  - by destruct (le_total x x).
  - inversion Hs as [|? ? _ Hall]; subst. rewrite Forall_forall in Hall. auto.
Qed.

Lemma insertion_sort_nil l : head (insertion_sort le l) = None -> l = [].
Proof.
  intros H. pose proof (insertion_sort_perm l) as Hp.
  destruct (insertion_sort le l); [|done]. by apply Permutation_nil_l in Hp.
Qed.
End Order.

Section Scan.
Context `{SqlEngine} {A : Type}.
Implicit Types (l : list A).

Lemma elem_of_sql_scan l x : x ∈ sql_scan l <-> x ∈ l.
Proof. by rewrite sql_scan_perm. Qed.

Lemma sql_order_by_perm (le : A -> A -> bool) l : sql_order_by le l ≡ₚ l.
Proof. unfold sql_order_by. by rewrite insertion_sort_perm, sql_scan_perm. Qed.

Lemma sql_first_Some l x : sql_first l = Some x -> x ∈ l.
Proof.
  unfold sql_first. intros Hx. apply elem_of_sql_scan.
  destruct (sql_scan l); [done|]. injection Hx as ->. set_solver.
Qed.

Lemma sql_first_None l : sql_first l = None -> l = [].
Proof.
  unfold sql_first. intros Hx. pose proof (sql_scan_perm A l) as Hp.
  destruct (sql_scan l); [|done]. by apply Permutation_nil_l in Hp.
Qed.

Lemma sql_first_singleton (x : A) : sql_first [x] = Some x.
Proof.
  unfold sql_first. pose proof (sql_scan_perm A [x]) as Hp.
  apply Permutation_singleton_r in Hp. by rewrite Hp.
Qed.
End Scan.

(** [MAX] bounds every row, and is one of them. *)
Lemma sql_max_spec {A} (k : A -> Z) t m :
  sql_max k t = Some m ->
  (exists r, r ∈ t /\ k r = m) /\ forall r, r ∈ t -> (k r <= m)%Z.
Proof.
  revert m. induction t as [|r t IH]; intros m H; [done|].
  change (sql_max k (r :: t))
    with (Some (match sql_max k t with Some m => Z.max (k r) m | None => k r end)) in H.
  injection H as <-. destruct (sql_max k t) as [m|] eqn:E.
  - destruct (IH m eq_refl) as [(r' & Hin & Hr') Hle]. clear IH. split.
    + destruct (Z.le_ge_cases (k r) m) as [?|?].
      * exists r'. split; [set_solver|lia].
      * exists r. split; [set_solver|lia].
    + intros r0 [->|Hin0]%elem_of_cons; [lia|]. specialize (Hle _ Hin0). lia.
  - destruct t; [|done]. split; [set_solver|].
    intros r0 [->|?]%elem_of_cons; [lia|set_solver].
Qed.

Lemma sql_max_None {A} (k : A -> Z) t : sql_max k t = None -> t = [].
Proof. by destruct t. Qed.

Lemma dedup_keys_elem x l : x ∈ dedup_keys l <-> x ∈ l.
Proof.
  induction l as [|y l IH]; cbn; [done|].
  destruct (existsb (String.eqb y) l) eqn:E; [|set_solver].
  apply existsb_elem in E as (z & Hz & ->%String.eqb_eq). set_solver.
Qed.

Lemma dedup_keys_NoDup l : NoDup (dedup_keys l).
Proof.
  induction l as [|y l IH]; cbn; [constructor|].
  destruct (existsb (String.eqb y) l) eqn:E; [done|].
  constructor; [|done]. rewrite dedup_keys_elem. intros Hin.
  rewrite existsb_false in E. specialize (E _ Hin).
  by rewrite String.eqb_refl in E.
Qed.

(** A permutation of a list with strictly increasing keys sorts back to it. *)
Section SortUnique.
Context {A : Type} (key : A -> Z).
Let le (a b : A) : bool := (key a <=? key b)%Z.

Lemma sorted_perm_eq (l1 l2 : list A) :
  StronglySorted (fun a b => le a b = true) l1 ->
  StronglySorted (fun a b => le a b = true) l2 ->
  NoDup (map key l1) -> l1 ≡ₚ l2 -> l1 = l2.
Proof.
  intros S1. revert l2. induction S1 as [|x l1 S1 IH Hx]; intros l2 S2 Hnd Hp.
  { by apply Permutation_nil_l in Hp. }
  destruct S2 as [|y l2 S2 Hy]; [by apply Permutation_nil_r in Hp|].
  assert (x = y) as ->.
  { eapply (NoDup_map_inj key (x :: l1)); [done|set_solver| |].
    - rewrite Hp. set_solver.
    - rewrite Forall_forall in Hx, Hy.
      assert (x ∈ y :: l2) as [->|Hin2]%elem_of_cons by (rewrite <- Hp; set_solver); [done|].
      assert (y ∈ x :: l1) as [->|Hin1]%elem_of_cons by (rewrite Hp; set_solver); [done|].
      specialize (Hx _ Hin1). specialize (Hy _ Hin2). unfold le in *. bool_facts. lia. }
  f_equal. cbn in Hnd. apply NoDup_cons in Hnd as [_ Hnd].
  apply IH; [done|done|]. by apply Permutation_cons_inv in Hp.
Qed.

Lemma sql_order_by_sorted `{SqlEngine} l :
  StronglySorted (fun a b => le a b = true) l -> NoDup (map key l) ->
  sql_order_by le l = l.
Proof.
  intros Hs Hnd. symmetry. apply sorted_perm_eq; [done| |done|by rewrite sql_order_by_perm].
  apply insertion_sort_sorted; unfold le.
  - intros x y z H1 H2. bool_facts. apply Z.leb_le. lia.
  - intros x y. destruct (Z.le_ge_cases (key x) (key y));
      [left|right]; apply Z.leb_le; lia.
Qed.
End SortUnique.
