(* ===== verification/GuidanceTypes.v ===== *)
(** * Data types of the durable guidance queue

    The types of [services/guidance_queue.rs] and
    [services/guidance_adapters.rs]: queue classes, batch states, the identity
    captured with a batch, boundary and acceptance evidence.  Field names carry
    a short prefix of their struct ([gi_], [req_], [gb_], ...). *)

From S2P Require Import Prelude RustStr JsonValue.
Local Open Scope string_scope.

Definition MAX_BATCH_ITEMS : Z := 32.
Definition MAX_CONTENT_BYTES : Z := 64 * 1024.
Definition MAX_SUMMARY_BYTES : Z := 4 * 1024.
Definition MAX_ID_BYTES : Z := 256.
Definition MAX_REASON_BYTES : Z := 512.
Definition MAX_LEASE_SECONDS : Z := 300.
Definition MAX_RETRY_ATTEMPTS : Z := 8.
Definition MAX_RETRY_BACKOFF_SECONDS : Z := 300.

Inductive QueueClass := Steering | FollowUp.

Module QueueClass.
Definition as_str (c : QueueClass) : string :=
  match c with Steering => "steering" | FollowUp => "follow_up" end.

Definition parse (value : string) : result QueueClass string :=
  if String.eqb value "steering" then Ok Steering
  else if String.eqb value "follow_up" then Ok FollowUp
  else Err ("unsupported guidance queue class `" ++ value ++ "`").
End QueueClass.

Inductive GuidanceState :=
| Pending | Leased | Submitted | Accepted | Abandoned | Cancelled.

Module GuidanceState.
Definition as_str (s : GuidanceState) : string :=
  match s with
  | Pending => "pending"
  | Leased => "leased"
  | Submitted => "submitted"
  | Accepted => "accepted"
  | Abandoned => "abandoned"
  | Cancelled => "cancelled"
  end.

Definition parse (value : string) : result GuidanceState string :=
  if String.eqb value "pending" then Ok Pending
  else if String.eqb value "leased" then Ok Leased
  else if String.eqb value "submitted" then Ok Submitted
  else if String.eqb value "accepted" then Ok Accepted
  else if String.eqb value "abandoned" then Ok Abandoned
  else if String.eqb value "cancelled" then Ok Cancelled
  else Err ("unsupported guidance state `" ++ value ++ "`").

Definition is_terminal (s : GuidanceState) : bool :=
  match s with Accepted | Abandoned | Cancelled => true | _ => false end.
End GuidanceState.

#[export] Instance QueueClass_eq_dec : EqDecision QueueClass.
Proof. solve_decision. Defined.
#[export] Instance GuidanceState_eq_dec : EqDecision GuidanceState.
Proof. solve_decision. Defined.

Record GuidanceIdentity := {
  gi_run_id : option string;
  gi_session_id : option string;
  gi_invocation_id : option string;
  gi_generation : option Z;
  gi_runtime : option string;
  gi_harness : option string;
  gi_role : option string
}.

Record GuidanceItemInput := {
  in_from_agent : string;
  in_content : string;
  in_summary : option string;
  in_injection_options : json
}.

Record GuidanceBatchRequest := {
  req_agent_id : string;
  req_queue_class : QueueClass;
  req_items : list GuidanceItemInput;
  req_identity : GuidanceIdentity;
  req_idempotency_key : option string;
  req_source_message_id : option Z
}.

Record GuidanceConsumer := {
  gc_consumer_id : string;
  gc_invocation_id : option string;
  gc_generation : option Z
}.

Record GuidanceItem := {
  it_item_id : string;
  it_position : Z;
  it_from_agent : string;
  it_content : string;
  it_summary : option string;
  it_injection_options : json
}.

(** ** Boundary and acceptance evidence *)

Inductive BoundaryPhase := TurnFinished | WouldStop | ToolExecuting | HardStopped.

Module BoundaryPhase.
Definition can_offer_steering (p : BoundaryPhase) : bool :=
  match p with TurnFinished | WouldStop => true | _ => false end.
Definition can_offer_follow_up (p : BoundaryPhase) : bool :=
  match p with WouldStop => true | _ => false end.
(** The [snake_case] name serde writes. *)
Definition serde_name (p : BoundaryPhase) : string :=
  match p with
  | TurnFinished => "turn_finished"
  | WouldStop => "would_stop"
  | ToolExecuting => "tool_executing"
  | HardStopped => "hard_stopped"
  end.
End BoundaryPhase.

Record BoundaryEvidence := {
  be_agent_id : string;
  be_phase : BoundaryPhase;
  be_invocation_id : option string;
  be_generation : option Z;
  be_correlation_id : option string
}.

Inductive TransportOutcome := Success | Failed.

Definition TransportOutcome_serde_name (o : TransportOutcome) : string :=
  match o with Success => "success" | Failed => "failed" end.

Record TransportAttempt := {
  ta_method : string;
  ta_outcome : TransportOutcome;
  ta_detail : option string
}.

Inductive AcceptanceKind := MailboxRead | RuntimeHook | RuntimeBoundary | PluginSession.

Definition AcceptanceKind_serde_name (k : AcceptanceKind) : string :=
  match k with
  | MailboxRead => "mailbox_read"
  | RuntimeHook => "runtime_hook"
  | RuntimeBoundary => "runtime_boundary"
  | PluginSession => "plugin_session"
  end.

Inductive AcceptanceConfidence := Exact | Inferred | Unknown.

#[export] Instance AcceptanceConfidence_eq_dec : EqDecision AcceptanceConfidence.
Proof. solve_decision. Defined.

Definition AcceptanceConfidence_serde_name (c : AcceptanceConfidence) : string :=
  match c with Exact => "exact" | Inferred => "inferred" | Unknown => "unknown" end.

Record RuntimeAcceptanceEvidence := {
  ev_batch_id : string;
  ev_agent_id : string;
  ev_queue_class : string;
  ev_item_ids : list string;
  ev_consumer_id : string;
  ev_invocation_id : option string;
  ev_generation : option Z;
  ev_evidence_kind : AcceptanceKind;
  ev_confidence : AcceptanceConfidence;
  ev_correlation_id : option string
}.

(** A durable batch with its items, as [load_batch] returns it. *)
Record GuidanceBatch := {
  gb_batch_id : string;
  gb_agent_id : string;
  gb_queue_class : QueueClass;
  gb_queue_seq : Z;
  gb_state : GuidanceState;
  gb_acceptance_confidence : AcceptanceConfidence;
  gb_created_at : Z;
  gb_available_at : Z;
  gb_lease_owner : option string;
  gb_lease_expires_at : option Z;
  gb_attempt_count : Z;
  gb_accepted_at : option Z;
  gb_terminal_at : option Z;
  gb_terminal_reason : option string;
  gb_identity : GuidanceIdentity;
  gb_source_message_id : option Z;
  gb_idempotency_key : option string;
  gb_items : list GuidanceItem
}.

Record GuidanceEnqueueResult := { er_batch : GuidanceBatch; er_created : bool }.

Inductive GuidanceAckResult :=
| AckAccepted
| AckAlreadyAccepted
| AckRejected (reason : string).

(** ** Lemmas *)

Lemma QueueClass_parse_as_str c : QueueClass.parse (QueueClass.as_str c) = Ok c.
Proof. by destruct c. Qed.

Lemma QueueClass_parse_Ok v c : QueueClass.parse v = Ok c -> v = QueueClass.as_str c.
Proof.
  unfold QueueClass.parse. intros H.
  destruct (String.eqb v "steering") eqn:E1; [bool_facts; by result_cases|].
  destruct (String.eqb v "follow_up") eqn:E2; [bool_facts; by result_cases|done].
Qed.

Lemma GuidanceState_parse_as_str s : GuidanceState.parse (GuidanceState.as_str s) = Ok s.
Proof. by destruct s. Qed.

Lemma GuidanceState_parse_Ok v s :
  GuidanceState.parse v = Ok s -> v = GuidanceState.as_str s.
Proof.
  unfold GuidanceState.parse. intros H.
  repeat match goal with
  | H : (if String.eqb v ?t then _ else _) = Ok _ |- _ =>
      let E := fresh "E" in
      destruct (String.eqb v t) eqn:E;
      [apply String.eqb_eq in E as ->; injection H as <-; reflexivity|]
  end.
  done.
Qed.

#[export] Hint Rewrite QueueClass_parse_as_str GuidanceState_parse_as_str : json.
