(* ===== verification/Store.v ===== *)
(** * The inbox database and its event mirror

    The tables [InboxStore] owns ([services/inbox_store.rs], schema in
    [migrate] there and in [services/guidance_queue.rs]) and the best-effort
    mirror of every state change into the event log
    ([services/state_mirror.rs]).  The wall clock ([now_epoch_secs]) and the
    random identifiers ([Uuid::new_v4]) are arguments of the operations that
    read them.  An operation takes a store and returns the new store with its
    result; a transaction that ends in an error is rolled back, so the store
    of an [Err] result is the initial one. *)

From S2P Require Import Prelude RustStr JsonValue SqlTable GuidanceTypes.
Local Open Scope string_scope.

(** A row of [messages]. *)
Record InboxMessageRecord := {
  msg_id : Z;
  msg_from_agent : string;
  msg_to_agent : string;
  msg_content : string;
  msg_summary : option string;
  msg_created_at : Z;
  msg_notified_at : option Z;
  msg_read_at : option Z
}.

(** A row of [agent_inbox_meta]. *)
Record InboxMeta := {
  meta_agent_id : string;
  meta_last_check_inbox_at : option Z;
  meta_last_poke_at : option Z;
  meta_last_poke_message_id : option Z;
  meta_poke_backoff_secs : option Z
}.

(** A row of [guidance_batches].  The [CHECK] constraints on [queue_class]
    and [state] make the enumerations exact images of the stored text. *)
Record BatchRow := {
  row_batch_id : string;
  row_agent_id : string;
  row_queue_class : QueueClass;
  row_queue_seq : Z;
  row_state : GuidanceState;
  row_created_at : Z;
  row_available_at : Z;
  row_lease_owner : option string;
  row_lease_expires_at : option Z;
  row_attempt_count : Z;
  row_accepted_at : option Z;
  row_terminal_at : option Z;
  row_terminal_reason : option string;
  row_identity : GuidanceIdentity;
  row_source_message_id : option Z;
  row_idempotency_key : option string
}.

(** A row of [guidance_items]; [injection_options] is JSON text. *)
Record ItemRow := {
  irow_batch_id : string;
  irow_position : Z;
  irow_item_id : string;
  irow_from_agent : string;
  irow_content : string;
  irow_summary : option string;
  irow_injection_options : string
}.

(** The fields of a ledger event the guidance code writes and reads. *)
Record LedgerEvent := { le_event_type : string; le_data : json }.

(** [db_path] is the list of its path components. *)
Record InboxStore := {
  db_path : list string;
  messages : list InboxMessageRecord;
  agent_inbox_meta : list InboxMeta;
  guidance_batches : list BatchRow;
  guidance_items : list ItemRow;
  ledger : list LedgerEvent
}.

Definition set_messages (s : InboxStore) t := {|
  db_path := db_path s; messages := t; agent_inbox_meta := agent_inbox_meta s;
  guidance_batches := guidance_batches s; guidance_items := guidance_items s;
  ledger := ledger s |}.
Definition set_meta (s : InboxStore) t := {|
  db_path := db_path s; messages := messages s; agent_inbox_meta := t;
  guidance_batches := guidance_batches s; guidance_items := guidance_items s;
  ledger := ledger s |}.
Definition set_batches (s : InboxStore) t := {|
  db_path := db_path s; messages := messages s; agent_inbox_meta := agent_inbox_meta s;
  guidance_batches := t; guidance_items := guidance_items s; ledger := ledger s |}.
Definition set_items (s : InboxStore) t := {|
  db_path := db_path s; messages := messages s; agent_inbox_meta := agent_inbox_meta s;
  guidance_batches := guidance_batches s; guidance_items := t; ledger := ledger s |}.
Definition set_ledger (s : InboxStore) t := {|
  db_path := db_path s; messages := messages s; agent_inbox_meta := agent_inbox_meta s;
  guidance_batches := guidance_batches s; guidance_items := guidance_items s;
  ledger := t |}.

(** A store with empty tables, as [open_path] leaves a new database. *)
Definition empty_store (path : list string) : InboxStore := {|
  db_path := path; messages := []; agent_inbox_meta := [];
  guidance_batches := []; guidance_items := []; ledger := [] |}.

(** ** Recipient keys *)

(** The last dot-segment of a branch-qualified name. *)
Definition normalize_agent_id (agent_id : string) : string :=
  match rsplit_once "." agent_id with
  | Some (_, bare) => if str_is_empty bare then agent_id else bare
  | None => agent_id
  end.

(** ** The event mirror *)

(** Whether [EventLog::open] and [EventLog::append] succeed is decided by the
    file system: a parameter. *)
Class EventSink := { sink_accepts : list LedgerEvent -> LedgerEvent -> bool }.

(** [Path::parent] and [Path::file_name] on a component list. *)
Definition path_parent (p : list string) : option (list string) :=
  match p with [] => None | _ => Some (removelast p) end.
Definition path_file_name (p : list string) : option string := last p.

(** The mirror only writes beside a database kept in a [.exo] directory. *)
Definition mirror_enabled (s : InboxStore) : bool :=
  match path_parent (db_path s) with
  | Some exo_dir =>
      match path_file_name exo_dir with
      | Some name => String.eqb name ".exo"
      | None => false
      end
  | None => false
  end.

Definition append_state_change `{EventSink} (event_type : string) (data : json)
    (s : InboxStore) : InboxStore :=
  if mirror_enabled s then
    let event := {| le_event_type := event_type; le_data := data |} in
    if sink_accepts (ledger s) event then set_ledger s (ledger s ++ [event])%list else s
  else s.

(** ** Lemmas *)

Lemma normalize_agent_id_bare a :
  str_contains "." a = false -> normalize_agent_id a = a.
Proof. intros H%rsplit_once_None. unfold normalize_agent_id. by rewrite H. Qed.

(** A normalised key is a fixed point. *)
Lemma normalize_agent_id_idem a :
  normalize_agent_id (normalize_agent_id a) = normalize_agent_id a.
Proof.
  unfold normalize_agent_id at 2 3.
  destruct (rsplit_once "." a) as [[l r]|] eqn:E.
  - destruct (str_is_empty r) eqn:Er.
    + unfold normalize_agent_id. by rewrite E, Er.
    + apply rsplit_once_Some in E as [_ Hr]. by apply normalize_agent_id_bare.
  - apply normalize_agent_id_bare. by apply rsplit_once_None.
Qed.

Section Mirror.
Context `{EventSink}.
Implicit Types (s : InboxStore).

(** The mirror writes no table. *)
Lemma append_messages t d s : messages (append_state_change t d s) = messages s.
Proof. unfold append_state_change. by repeat case_match. Qed.
Lemma append_meta t d s :
  agent_inbox_meta (append_state_change t d s) = agent_inbox_meta s.
Proof. unfold append_state_change. by repeat case_match. Qed.
Lemma append_batches t d s :
  guidance_batches (append_state_change t d s) = guidance_batches s.
Proof. unfold append_state_change. by repeat case_match. Qed.
Lemma append_items t d s :
  guidance_items (append_state_change t d s) = guidance_items s.
Proof. unfold append_state_change. by repeat case_match. Qed.
Lemma append_db_path t d s : db_path (append_state_change t d s) = db_path s.
Proof. unfold append_state_change. by repeat case_match. Qed.

(** What it appends when the log accepts every event. *)
Lemma append_ledger t d s :
  mirror_enabled s = true -> (forall l e, sink_accepts l e = true) ->
  ledger (append_state_change t d s)
  = (ledger s ++ [{| le_event_type := t; le_data := d |}])%list.
Proof. unfold append_state_change. by intros -> ->. Qed.

Lemma append_mirror_enabled t d s :
  mirror_enabled (append_state_change t d s) = mirror_enabled s.
Proof. unfold mirror_enabled. by rewrite append_db_path. Qed.
End Mirror.

Create Rewrite HintDb store.
#[export] Hint Rewrite @append_messages @append_meta @append_batches @append_items
  @append_db_path @append_mirror_enabled : store.
