(* ===== verification/Topic.v ===== *)
(** * Topic vocabulary

    Verb-first topics ([services/topic_vocabulary.rs]): percent-encoding of
    one segment, the grammar of a serialized topic, and the three addressing
    views ([InTopic], [ObsTopic], [ParkSignal]). *)

From S2P Require Import Prelude RustStr JsonValue GuidanceTypes.
Local Open Scope string_scope.

Definition IN_VERB : string := "in".
Definition NUL : ascii := ascii_of_nat 0.

Definition validate_decoded_segment (segment : string) : result unit string :=
  if str_is_empty segment || String.eqb segment "." || String.eqb segment ".." then
    Err "topic segments must be non-empty and not path navigation"
  else if str_contains "/" segment || str_contains NUL segment then
    Err "topic segments must not contain slash or NUL"
  else Ok tt.

(** The character a two-character escape stands for. *)
Definition decode_escape (first second : option ascii) : result ascii string :=
  match first, second with
  | Some a, Some b =>
      if Ascii.eqb a "2" && Ascii.eqb b "3" then Ok "#"%char
      else if Ascii.eqb a "2" && Ascii.eqb b "5" then Ok "%"%char
      else if Ascii.eqb a "2" && Ascii.eqb b "B" then Ok "+"%char
      else Err "topic percent escape must be one of %23, %25, or %2B"
  | _, _ => Err "topic percent escape must be one of %23, %25, or %2B"
  end.

(** The decoding loop over the characters of a segment. *)
Fixpoint decode_chars (encoded : string) : result string string :=
  match encoded with
  | EmptyString => Ok ""
  | String c rest =>
      if Ascii.eqb c "+" || Ascii.eqb c "#" then
        Err "topic wildcard must be percent-encoded"
      else if Ascii.eqb c "%" then
        match rest with
        | String a (String b rest') =>
            let? d := decode_escape (Some a) (Some b) in
            let? ds := decode_chars rest' in
            Ok (String d ds)
        | String a EmptyString =>
            let? d := decode_escape (Some a) None in Ok (String d "")
        | EmptyString =>
            let? d := decode_escape None None in Ok (String d "")
        end
      else if Ascii.eqb c NUL then Err "topic segments must not contain NUL"
      else
        let? ds := decode_chars rest in
        Ok (String c ds)
  end.

Definition decode_segment (encoded : string) : result string string :=
  if str_is_empty encoded then Err "topic segments must not be empty"
  else
    let? decoded := decode_chars encoded in
    let? _ := validate_decoded_segment decoded in
    Ok decoded.

Fixpoint encode_chars (raw : string) : string :=
  match raw with
  | EmptyString => ""
  | String c rest =>
      (if Ascii.eqb c "+" then "%2B"
       else if Ascii.eqb c "#" then "%23"
       else if Ascii.eqb c "%" then "%25"
       else String c "") ++ encode_chars rest
  end.

Definition encode_segment (raw : string) : result string string :=
  let? _ := validate_decoded_segment raw in
  Ok (encode_chars raw).

Definition is_topic_verb (v : string) : bool :=
  String.eqb v "in" || String.eqb v "obs" || String.eqb v "signal".

(** [segments[i]] after the length check. *)
Definition seg (segments : list string) (i : nat) : string :=
  default "" (segments !! i).

Definition parse_topic (topic : string) : result (list string) string :=
  let? segments := collect decode_segment (split_char "/" topic) in
  if (length segments <? 3)%nat then Err "topic must contain verb, category, and noun"
  else if negb (is_topic_verb (seg segments 0)) then
    Err ("unsupported topic verb `" ++ seg segments 0 ++ "`")
  else Ok segments.

Definition serialize_topic (segments : list string) : result string string :=
  if (length segments <? 3)%nat then Err "topic must contain verb, category, and noun"
  else if negb (is_topic_verb (seg segments 0)) then
    Err ("unsupported topic verb `" ++ seg segments 0 ++ "`")
  else
    let? encoded := collect encode_segment segments in
    Ok (join_char "/" encoded).

(** ** Durable guidance destinations *)

Record InTopic := { itp_agent_id : string; itp_queue_class : QueueClass }.

Module InTopic.
Definition parse (topic : string) : result InTopic string :=
  let? segments := parse_topic topic in
  if negb (length segments =? 4)%nat || negb (String.eqb (seg segments 0) IN_VERB)
     || negb (String.eqb (seg segments 1) "agent") then
    Err "in topic must be in/agent/<agent_id>/{steering|follow_up}"
  else
    let? queue_class := QueueClass.parse (seg segments 3) in
    Ok {| itp_agent_id := seg segments 2; itp_queue_class := queue_class |}.

Definition topic (t : InTopic) : result string string :=
  serialize_topic
    [IN_VERB; "agent"; itp_agent_id t; QueueClass.as_str (itp_queue_class t)].

Definition into_request (t : InTopic) (items : list GuidanceItemInput)
    (identity : GuidanceIdentity) (idempotency_key : option string)
    (source_message_id : option Z) : GuidanceBatchRequest := {|
  req_agent_id := itp_agent_id t;
  req_queue_class := itp_queue_class t;
  req_items := items;
  req_identity := identity;
  req_idempotency_key := idempotency_key;
  req_source_message_id := source_message_id |}.
End InTopic.

(** ** Observation topics *)

Record ObsTopic := { obs_event_type : string }.

Module ObsTopic.
Definition parse (topic : string) : result ObsTopic string :=
  let? segments := parse_topic topic in
  if negb (length segments =? 3)%nat || negb (String.eqb (seg segments 0) "obs")
     || negb (String.eqb (seg segments 1) "event") then
    Err "obs topic must be obs/event/<event_type>"
  else Ok {| obs_event_type := seg segments 2 |}.

Definition topic (t : ObsTopic) : result string string :=
  serialize_topic ["obs"; "event"; obs_event_type t].
End ObsTopic.

(** ** Park signals *)

Definition PARK_CAUSES : list string :=
  ["retries_exhausted"; "budget_exhausted"; "no_capable_harness";
   "schedule_deadlock"; "review_stuck"; "review_rounds_exhausted";
   "harness_switch_requested"; "stall_detected"].

Record ParkSignal := { ps_run_id : string; ps_cause : string }.

Module ParkSignal.
Definition parse (topic : string) : result ParkSignal string :=
  let? segments := parse_topic topic in
  if negb (length segments =? 4)%nat || negb (String.eqb (seg segments 0) "signal")
     || negb (String.eqb (seg segments 1) "park") then
    Err "park signal must be signal/park/<run_id>/<cause>"
  else if negb (existsb (String.eqb (seg segments 3)) PARK_CAUSES) then
    Err ("unsupported park cause `" ++ seg segments 3 ++ "`")
  else Ok {| ps_run_id := seg segments 2; ps_cause := seg segments 3 |}.

Definition topic (t : ParkSignal) : result string string :=
  serialize_topic ["signal"; "park"; ps_run_id t; ps_cause t].
End ParkSignal.

(** ** Lemmas *)

#[local] Arguments String.append !_ _ / : simpl nomatch.

(** Escape characters and separators never survive encoding. *)
Lemma encode_chars_contains c raw :
  Ascii.eqb c "2" = false -> Ascii.eqb c "3" = false -> Ascii.eqb c "5" = false ->
  Ascii.eqb c "B" = false -> Ascii.eqb c "%" = false ->
  str_contains c raw = false -> str_contains c (encode_chars raw) = false.
Proof.
  intros H2 H3 H5 HB Hp. rewrite Ascii.eqb_sym in H2, H3, H5, HB, Hp.
  induction raw as [|a raw IH]; [done|]. cbn [str_contains encode_chars].
  intros [Ha Hr]%orb_false_iff. rewrite str_contains_app, (IH Hr), orb_false_r.
  destruct (Ascii.eqb a "+"); [cbn [str_contains]; by rewrite Hp, H2, HB|].
  destruct (Ascii.eqb a "#"); [cbn [str_contains]; by rewrite Hp, H2, H3|].
  destruct (Ascii.eqb a "%"); cbn [str_contains]; [by rewrite Hp, H2, H5|].
  by rewrite Ha.
Qed.

Lemma encode_chars_nonempty raw : raw <> "" -> str_is_empty (encode_chars raw) = false.
Proof.
  destruct raw as [|a raw]; [done|]. intros _. cbn.
  destruct (Ascii.eqb a "+"), (Ascii.eqb a "#"), (Ascii.eqb a "%"); done.
Qed.

(** Decoding inverts encoding, character by character. *)
Lemma decode_encode_chars raw :
  str_contains NUL raw = false -> decode_chars (encode_chars raw) = Ok raw.
Proof.
  induction raw as [|a raw IH]; [done|].
  intros [Ha Hr]%orb_false_iff. specialize (IH Hr). cbn [encode_chars].
  destruct (Ascii.eqb a "+") eqn:E1.
  { apply Ascii.eqb_eq in E1 as ->. cbn. by rewrite IH. }
  destruct (Ascii.eqb a "#") eqn:E2.
  { apply Ascii.eqb_eq in E2 as ->. cbn. by rewrite IH. }
  destruct (Ascii.eqb a "%") eqn:E3.
  { apply Ascii.eqb_eq in E3 as ->. cbn. by rewrite IH. }
  cbn [String.append decode_chars]. rewrite E1, E2, E3, Ha. cbn. by rewrite IH.
Qed.

Lemma validate_decoded_segment_Ok s u :
  validate_decoded_segment s = Ok u ->
  s <> "" /\ str_contains "/" s = false /\ str_contains NUL s = false.
Proof.
  unfold validate_decoded_segment, str_is_empty.
  destruct (String.eqb s "") eqn:E1; [done|]. cbn.
  destruct (String.eqb s ".") eqn:E2; [done|].
  destruct (String.eqb s "..") eqn:E3; [done|]. cbn.
  destruct (str_contains "/" s) eqn:E4; [done|].
  destruct (str_contains NUL s) eqn:E5; [done|].
  intros _. bool_facts. done.
Qed.

Lemma decode_encode_segment raw e :
  encode_segment raw = Ok e ->
  decode_segment e = Ok raw /\ str_contains "/" e = false.
Proof.
  unfold encode_segment. destruct (validate_decoded_segment raw) as [[]|] eqn:V; [|done].
  intros [= <-]. pose proof (validate_decoded_segment_Ok _ _ V) as (Hne & Hs & Hn).
  split; [|by apply encode_chars_contains].
  unfold decode_segment. rewrite encode_chars_nonempty by done.
  rewrite decode_encode_chars by done. by rewrite V.
Qed.

Lemma collect_decode_encode segs es :
  collect encode_segment segs = Ok es ->
  collect decode_segment es = Ok segs /\
  Forall (fun p => str_contains "/" p = false) es.
Proof.
  rewrite !collect_Forall2. intros H.
  induction H as [|s e ss es Hs Hss [IH1 IH2]]; [by split; constructor|].
  apply decode_encode_segment in Hs as [??]. split; by constructor.
Qed.

Lemma parse_serialized segs t : serialize_topic segs = Ok t -> parse_topic t = Ok segs.
Proof.
  unfold serialize_topic. destruct (length segs <? 3)%nat eqn:L; [done|].
  destruct (is_topic_verb (seg segs 0)) eqn:V; [|done]. cbn [negb].
  destruct (collect encode_segment segs) as [es|] eqn:C; [|done]. intros [= <-].
  pose proof (collect_length _ _ _ C) as Hlen.
  apply collect_decode_encode in C as [C Hes].
  unfold parse_topic. rewrite split_join_char; [|by intros ->; destruct segs|done].
  by rewrite C, L, V.
Qed.

(** Every accepted segment of a parsed topic is itself canonical: it is
    non-empty, no path navigation, and free of separators and NUL. *)
Lemma decode_segment_valid e s :
  decode_segment e = Ok s -> validate_decoded_segment s = Ok tt.
Proof.
  unfold decode_segment. destruct (str_is_empty e); [done|].
  destruct (decode_chars e) as [d|]; [|done].
  destruct (validate_decoded_segment d) as [[]|] eqn:V; [|done].
  by intros [= <-].
Qed.

Lemma collect_decode_valid ps segs :
  collect decode_segment ps = Ok segs ->
  exists es, collect encode_segment segs = Ok es.
Proof.
  rewrite collect_Forall2. induction 1 as [|e s es ss Hs _ [es' IH]]; [by exists []|].
  apply decode_segment_valid in Hs. exists (encode_chars s :: es'). cbn.
  unfold encode_segment at 1. by rewrite Hs, IH.
Qed.

Lemma parsed_serializes t segs :
  parse_topic t = Ok segs -> exists t', serialize_topic segs = Ok t'.
Proof.
  unfold parse_topic. destruct (collect decode_segment (split_char "/" t)) as [ss|] eqn:C; [|done].
  destruct (length ss <? 3)%nat eqn:L; [done|].
  destruct (is_topic_verb (seg ss 0)) eqn:V; [|done]. intros [= <-].
  apply collect_decode_valid in C as [es Hes].
  unfold serialize_topic. rewrite L, V, Hes. cbn. eauto.
Qed.

Lemma segs_3 (l : list string) : length l = 3 -> l = [seg l 0; seg l 1; seg l 2].
Proof. by destruct l as [|? [|? [|? [|]]]]. Qed.
Lemma segs_4 (l : list string) : length l = 4 -> l = [seg l 0; seg l 1; seg l 2; seg l 3].
Proof. by destruct l as [|? [|? [|? [|? [|]]]]]. Qed.

Lemma class_as_str_parse v c : QueueClass.parse v = Ok c -> v = QueueClass.as_str c.
Proof.
  unfold QueueClass.parse. destruct (String.eqb v "steering") eqn:E1; bool_facts; [by intros [= <-]|].
  destruct (String.eqb v "follow_up") eqn:E2; bool_facts; [by intros [= <-]|done].
Qed.

Lemma class_parse_as_str c : QueueClass.parse (QueueClass.as_str c) = Ok c.
Proof. by destruct c. Qed.

(** A printed typed topic parses back. *)
Lemma in_topic_printed d t : InTopic.topic d = Ok t -> InTopic.parse t = Ok d.
Proof.
  intros E%parse_serialized. unfold InTopic.parse. rewrite E. cbn.
  rewrite class_parse_as_str. by destruct d.
Qed.

Lemma obs_topic_printed d t : ObsTopic.topic d = Ok t -> ObsTopic.parse t = Ok d.
Proof. intros E%parse_serialized. unfold ObsTopic.parse. rewrite E. by destruct d. Qed.

Lemma park_signal_printed d t :
  ps_cause d ∈ PARK_CAUSES -> ParkSignal.topic d = Ok t -> ParkSignal.parse t = Ok d.
Proof.
  intros Hc E%parse_serialized. unfold ParkSignal.parse. rewrite E. cbn [length Nat.eqb negb orb seg].
  replace (existsb _ _) with true; [by destruct d|].
  symmetry. apply existsb_elem. exists (ps_cause d). split; [done|]. apply String.eqb_refl.
Qed.

(** A topic that parses is printable from the parsed value. *)
Lemma in_topic_parsed t d : InTopic.parse t = Ok d -> exists t', InTopic.topic d = Ok t'.
Proof.
  unfold InTopic.parse. destruct (parse_topic t) as [segs|] eqn:P; [|done].
  destruct (_ || _) eqn:E; [done|]. bool_facts. apply Nat.eqb_eq in H.
  destruct (QueueClass.parse _) as [c|] eqn:Q; [|done]. intros [= <-].
  apply class_as_str_parse in Q. destruct (parsed_serializes _ _ P) as [t' S].
  rewrite (segs_4 _ H), H0, H1, Q in S. by exists t'.
Qed.

Lemma obs_topic_parsed t d : ObsTopic.parse t = Ok d -> exists t', ObsTopic.topic d = Ok t'.
Proof.
  unfold ObsTopic.parse. destruct (parse_topic t) as [segs|] eqn:P; [|done].
  destruct (_ || _) eqn:E; [done|]. bool_facts. apply Nat.eqb_eq in H. intros [= <-].
  destruct (parsed_serializes _ _ P) as [t' S].
  rewrite (segs_3 _ H), H0, H1 in S. by exists t'.
Qed.

Lemma park_signal_parsed t d :
  ParkSignal.parse t = Ok d -> ps_cause d ∈ PARK_CAUSES /\ exists t', ParkSignal.topic d = Ok t'.
Proof.
  unfold ParkSignal.parse. destruct (parse_topic t) as [segs|] eqn:P; [|done].
  destruct (_ || _) eqn:E; [done|]. destruct (existsb _ _) eqn:C; [|done].
  bool_facts. apply Nat.eqb_eq in H. intros [= <-]. split.
  - apply existsb_elem in C as (x & Hx & Ex%String.eqb_eq). cbn. by rewrite Ex.
  - destruct (parsed_serializes _ _ P) as [t' S].
    rewrite (segs_4 _ H), H0, H1 in S. by exists t'.
Qed.

(** ** Properties *)

(**  Round trip of the topic grammar: whatever list of segments the
    serializer accepts (any Unicode segments, wildcards and percent signs
    included), the parser reads the serialized topic back as exactly those
    segments.  Separators inside the encoding can never be confused with the
    separators of the topic. *)
Theorem parse_serialize_topic segs t :
  serialize_topic segs = Ok t -> parse_topic t = Ok segs.
Proof. apply parse_serialized. Qed.

Lemma parse_serialize_topic_witness :
  serialize_topic ["in"; "agent"; "a+b%#"; "steering"] = Ok "in/agent/a%2Bb%25%23/steering"
  /\ parse_topic "in/agent/a%2Bb%25%23/steering"
     = Ok ["in"; "agent"; "a+b%#"; "steering"].
Proof.
  split; [vm_compute; reflexivity|].
  apply (parse_serialize_topic _ "in/agent/a%2Bb%25%23/steering").
  vm_compute. reflexivity.
Defined.

(** The parser accepts nothing the serializer cannot print: a topic that
    parses has a canonical serialization, and that serialization parses to
    the same segments, so parsing is idempotent up to the canonical form. *)
Theorem parse_topic_canonical t segs :
  parse_topic t = Ok segs ->
  exists t', serialize_topic segs = Ok t' /\ parse_topic t' = Ok segs.
Proof.
  intros P. destruct (parsed_serializes _ _ P) as [t' S].
  exists t'. split; [done|by apply parse_serialized].
Qed.

Lemma parse_topic_canonical_witness :
  exists t', serialize_topic ["obs"; "event"; "a#b"] = Ok t' /\
             parse_topic t' = Ok ["obs"; "event"; "a#b"].
Proof.
  apply (parse_topic_canonical "obs/event/a%23b"). vm_compute. reflexivity.
Defined.

(**  Typed topics.  Guidance destinations, observation topics and park
    signals: a topic one of the three parsers accepts prints back from the
    parsed value, and what is printed parses to that value again; a parsed park
    signal names a listed cause. *)
Theorem typed_topics_roundtrip t :
  (forall d, InTopic.parse t = Ok d ->
     exists t', InTopic.topic d = Ok t' /\ InTopic.parse t' = Ok d) /\
  (forall d, ObsTopic.parse t = Ok d ->
     exists t', ObsTopic.topic d = Ok t' /\ ObsTopic.parse t' = Ok d) /\
  (forall d, ParkSignal.parse t = Ok d -> ps_cause d ∈ PARK_CAUSES /\
     exists t', ParkSignal.topic d = Ok t' /\ ParkSignal.parse t' = Ok d).
Proof.
  split; [|split].
  - intros d P. destruct (in_topic_parsed _ _ P) as [t' E]. eauto using in_topic_printed.
  - intros d P. destruct (obs_topic_parsed _ _ P) as [t' E]. eauto using obs_topic_printed.
  - intros d P. destruct (park_signal_parsed _ _ P) as [C [t' E]].
    eauto using park_signal_printed.
Qed.
