(* ===== verification/GuidanceQueue.v ===== *)
(** * The durable guidance queue: operations

    [services/guidance_queue.rs], one definition per function.  Every SQL
    statement of the source is one [sql_...] application; every ledger event
    one [append_queue_event].  [transaction] commits the store of an [Ok] and
    rolls an [Err] back.  The one place where the connection mutex is taken
    twice is modelled: [Blocks] is a call that never returns. *)

From stdpp Require Import pretty.
From S2P Require Import Prelude RustStr JsonValue SqlTable GuidanceTypes Store Topic.
Local Open Scope string_scope.

(** Commit on success, roll back on error. *)
Definition transaction {X} (s : InboxStore) (r : result (InboxStore * X) string)
  : InboxStore * result X string :=
  match r with
  | Ok (s', x) => (s', Ok x)
  | Err e => (s, Err e)
  end.

(** Every operation runs with the connection mutex held.  [std::sync::Mutex] is
    not re-entrant: a call that locks it a second time does not come back. *)
Inductive call (A : Type) : Type :=
| Returns (a : A)
| Blocks.
Arguments Returns {A} a.
Arguments Blocks {A}.

(** ** Validation *)

Definition validate_identity (value field : string) : result unit string :=
  if is_blank (normalize_agent_id value) then Err (field ++ " must not be empty")
  else Ok tt.

Definition validate_id (value field : string) : result unit string :=
  if is_blank value || (MAX_ID_BYTES <? str_len value)%Z then
    Err (field ++ " must be non-empty and at most " ++ pretty MAX_ID_BYTES ++ " bytes")
  else Ok tt.

Definition validate_text (value : string) (max_bytes : Z) (field : string)
  : result unit string :=
  if str_is_empty value || (max_bytes <? str_len value)%Z then
    Err (field ++ " must be non-empty and at most " ++ pretty max_bytes ++ " bytes")
  else Ok tt.

Definition validate_opt_id (f : string * option string) : result unit string :=
  match f.2 with Some value => validate_id value f.1 | None => Ok tt end.

Definition validate_identity_fields (identity : GuidanceIdentity) : result unit string :=
  let? _ := collect validate_opt_id
    [("run id", gi_run_id identity); ("session id", gi_session_id identity);
     ("invocation id", gi_invocation_id identity); ("runtime", gi_runtime identity);
     ("harness", gi_harness identity); ("role", gi_role identity)] in
  Ok tt.

Definition validate_item_input (item : GuidanceItemInput) : result unit string :=
  let? _ := validate_identity (in_from_agent item) "sender agent" in
  let? _ := validate_text (in_content item) MAX_CONTENT_BYTES "guidance content" in
  match in_summary item with
  | Some summary => validate_text summary MAX_SUMMARY_BYTES "guidance summary"
  | None => Ok tt
  end.

Definition validate_batch_request (request : GuidanceBatchRequest) : result unit string :=
  let? _ := validate_identity (req_agent_id request) "target agent" in
  let n := Z.of_nat (List.length (req_items request)) in
  if (n =? 0)%Z || (MAX_BATCH_ITEMS <? n)%Z then
    Err ("guidance batch must contain between 1 and " ++ pretty MAX_BATCH_ITEMS ++ " items")
  else
    let? _ := match req_idempotency_key request with
              | Some key => validate_id key "idempotency key"
              | None => Ok tt
              end in
    let? _ := collect validate_item_input (req_items request) in
    validate_identity_fields (req_identity request).

(** [1 << clamp(attempt_count, 0, 8)] seconds, capped. *)
Definition retry_backoff_seconds (attempt_count : Z) : Z :=
  let exponent := Z.max 0 (Z.min 8 attempt_count) in
  Z.min (Z.shiftl 1 exponent) MAX_RETRY_BACKOFF_SECONDS.

Definition opt_eqb (a b : option string) : bool := bool_decide (a = b).

(** Positions are contiguous from zero. *)
Fixpoint positions_from (expected : Z) (items : list GuidanceItem) : bool :=
  match items with
  | [] => true
  | item :: rest => (it_position item =? expected)%Z && positions_from (expected + 1) rest
  end.

Definition validate_item_positions (items : list GuidanceItem) : result unit string :=
  ensure (positions_from 0 items) "guidance item positions must be contiguous from zero".

(** The compare of the compare-and-set: every identity the claim captured. *)
Definition evidence_matches_batch (batch : GuidanceBatch)
    (evidence : RuntimeAcceptanceEvidence) : bool :=
  String.eqb (gb_agent_id batch) (normalize_agent_id (ev_agent_id evidence))
  && String.eqb (QueueClass.as_str (gb_queue_class batch)) (ev_queue_class evidence)
  && match gb_lease_owner batch with
     | Some owner => String.eqb owner (ev_consumer_id evidence)
     | None => true
     end
  && opt_eqb (gi_invocation_id (gb_identity batch)) (ev_invocation_id evidence)
  && bool_decide (gi_generation (gb_identity batch) = ev_generation evidence)
  && bool_decide (map it_item_id (gb_items batch) = ev_item_ids evidence).

(** ** Ledger data *)

Definition with_batch_identity (data : json) (batch : GuidanceBatch) : json :=
  match as_object data with
  | None => data
  | Some object =>
      let ids := map it_item_id (gb_items batch) in
      let identity := gb_identity batch in
      JObj
        (obj_insert_opt "generation" (JNum <$> gi_generation identity)
        (obj_insert_opt "role" (JStr <$> gi_role identity)
        (obj_insert_opt "harness" (JStr <$> gi_harness identity)
        (obj_insert_opt "runtime" (JStr <$> gi_runtime identity)
        (obj_insert_opt "invocation_id" (JStr <$> gi_invocation_id identity)
        (obj_insert_opt "session_id" (JStr <$> gi_session_id identity)
        (obj_insert_opt "run_id" (JStr <$> gi_run_id identity)
        (obj_insert "queue_seq" (JNum (gb_queue_seq batch))
        (obj_insert "queue_class" (JStr (QueueClass.as_str (gb_queue_class batch)))
        (obj_insert "agent_id" (JStr (gb_agent_id batch))
        (obj_insert_opt "item_id" (match ids with [i] => Some (JStr i) | _ => None end)
        (obj_insert "item_ids" (JArr (map JStr ids))
        (obj_insert "batch_id" (JStr (gb_batch_id batch)) object)))))))))))))
  end.

(** ** UPDATE ... SET clauses *)

Definition set_leased (owner : string) (expires : Z) (invocation : option string)
    (generation : option Z) (r : BatchRow) : BatchRow := {|
  row_batch_id := row_batch_id r; row_agent_id := row_agent_id r;
  row_queue_class := row_queue_class r; row_queue_seq := row_queue_seq r;
  row_state := Leased; row_created_at := row_created_at r;
  row_available_at := row_available_at r; row_lease_owner := Some owner;
  row_lease_expires_at := Some expires; row_attempt_count := row_attempt_count r;
  row_accepted_at := row_accepted_at r; row_terminal_at := row_terminal_at r;
  row_terminal_reason := row_terminal_reason r;
  row_identity := {|
    gi_run_id := gi_run_id (row_identity r);
    gi_session_id := gi_session_id (row_identity r);
    gi_invocation_id := match invocation with
                        | Some i => Some i
                        | None => gi_invocation_id (row_identity r)
                        end;
    gi_generation := match generation with
                     | Some g => Some g
                     | None => gi_generation (row_identity r)
                     end;
    gi_runtime := gi_runtime (row_identity r);
    gi_harness := gi_harness (row_identity r);
    gi_role := gi_role (row_identity r) |};
  row_source_message_id := row_source_message_id r;
  row_idempotency_key := row_idempotency_key r |}.

Definition set_submitted (attempt expires : Z) (r : BatchRow) : BatchRow := {|
  row_batch_id := row_batch_id r; row_agent_id := row_agent_id r;
  row_queue_class := row_queue_class r; row_queue_seq := row_queue_seq r;
  row_state := Submitted; row_created_at := row_created_at r;
  row_available_at := row_available_at r; row_lease_owner := row_lease_owner r;
  row_lease_expires_at := Some expires; row_attempt_count := attempt;
  row_accepted_at := row_accepted_at r; row_terminal_at := row_terminal_at r;
  row_terminal_reason := row_terminal_reason r; row_identity := row_identity r;
  row_source_message_id := row_source_message_id r;
  row_idempotency_key := row_idempotency_key r |}.

Definition set_accepted (now : Z) (r : BatchRow) : BatchRow := {|
  row_batch_id := row_batch_id r; row_agent_id := row_agent_id r;
  row_queue_class := row_queue_class r; row_queue_seq := row_queue_seq r;
  row_state := Accepted; row_created_at := row_created_at r;
  row_available_at := row_available_at r; row_lease_owner := None;
  row_lease_expires_at := None; row_attempt_count := row_attempt_count r;
  row_accepted_at := Some now; row_terminal_at := row_terminal_at r;
  row_terminal_reason := row_terminal_reason r; row_identity := row_identity r;
  row_source_message_id := row_source_message_id r;
  row_idempotency_key := row_idempotency_key r |}.

(** Shared by retry, lease recovery and (with [available_at] kept) cancel. *)
Definition set_released (st : GuidanceState) (available : Z) (terminal_at : option Z)
    (reason : option string) (r : BatchRow) : BatchRow := {|
  row_batch_id := row_batch_id r; row_agent_id := row_agent_id r;
  row_queue_class := row_queue_class r; row_queue_seq := row_queue_seq r;
  row_state := st; row_created_at := row_created_at r;
  row_available_at := available; row_lease_owner := None;
  row_lease_expires_at := None; row_attempt_count := row_attempt_count r;
  row_accepted_at := row_accepted_at r; row_terminal_at := terminal_at;
  row_terminal_reason := reason; row_identity := row_identity r;
  row_source_message_id := row_source_message_id r;
  row_idempotency_key := row_idempotency_key r |}.

Definition set_cancelled (now : Z) (reason : string) (r : BatchRow) : BatchRow :=
  set_released Cancelled (row_available_at r) (Some now) (Some reason) r.

(** ** WHERE clauses *)

Definition has_id (id : string) (r : BatchRow) : bool := String.eqb (row_batch_id r) id.
Definition for_agent (a : string) (r : BatchRow) : bool := String.eqb (row_agent_id r) a.
Definition in_state (st : GuidanceState) (r : BatchRow) : bool :=
  bool_decide (row_state r = st).
Definition is_active (r : BatchRow) : bool := in_state Leased r || in_state Submitted r.
Definition owned_by (c : string) (r : BatchRow) : bool :=
  bool_decide (row_lease_owner r = Some c).
Definition lease_expired (now : Z) (r : BatchRow) : bool :=
  match row_lease_expires_at r with Some e => (e <=? now)%Z | None => false end.
Definition lease_live (now : Z) (r : BatchRow) : bool :=
  match row_lease_expires_at r with Some e => (now <? e)%Z | None => false end.
Definition available (now : Z) (r : BatchRow) : bool :=
  in_state Pending r && (row_available_at r <=? now)%Z.
Definition in_class (c : QueueClass) (r : BatchRow) : bool :=
  bool_decide (row_queue_class r = c).

(** [ORDER BY CASE queue_class WHEN 'steering' THEN 0 ELSE 1 END, queue_seq]. *)
Definition class_rank (c : QueueClass) : Z :=
  match c with Steering => 0 | FollowUp => 1 end.
Definition claim_le (a b : BatchRow) : bool :=
  let ra := class_rank (row_queue_class a) in
  let rb := class_rank (row_queue_class b) in
  (ra <? rb)%Z || ((ra =? rb)%Z && (row_queue_seq a <=? row_queue_seq b)%Z).
Definition seq_le (a b : BatchRow) : bool := (row_queue_seq a <=? row_queue_seq b)%Z.

(** ** Statements *)

Section Queue.
Context `{SqlEngine} `{JsonText} `{EventSink}.
Implicit Types (s : InboxStore).

Definition append_queue_event (event_type : string) (data : json) (s : InboxStore)
  : InboxStore := append_state_change event_type data s.

Definition decode_item (r : ItemRow) : result GuidanceItem string :=
  match json_from_string (irow_injection_options r) with
  | Some options => Ok {|
      it_item_id := irow_item_id r; it_position := irow_position r;
      it_from_agent := irow_from_agent r; it_content := irow_content r;
      it_summary := irow_summary r; it_injection_options := options |}
  | None => Err "failed to decode guidance items"
  end.

Definition position_le (a b : ItemRow) : bool := (irow_position a <=? irow_position b)%Z.

(** [SELECT ... FROM guidance_items WHERE batch_id = ?1 ORDER BY position]. *)
Definition load_items (t : list ItemRow) (batch_id : string)
  : result (list GuidanceItem) string :=
  let? items := collect decode_item
      (sql_order_by position_le
         (sql_where (fun i => String.eqb (irow_batch_id i) batch_id) t)) in
  let? _ := validate_item_positions items in
  Ok items.

Definition batch_of_row (row : BatchRow) (items : list GuidanceItem) : GuidanceBatch := {|
    gb_batch_id := row_batch_id row; gb_agent_id := row_agent_id row;
    gb_queue_class := row_queue_class row; gb_queue_seq := row_queue_seq row;
    gb_state := row_state row;
    gb_acceptance_confidence :=
      if bool_decide (row_state row = Accepted) then Exact else Unknown;
    gb_created_at := row_created_at row; gb_available_at := row_available_at row;
    gb_lease_owner := row_lease_owner row;
    gb_lease_expires_at := row_lease_expires_at row;
    gb_attempt_count := row_attempt_count row;
    gb_accepted_at := row_accepted_at row; gb_terminal_at := row_terminal_at row;
    gb_terminal_reason := row_terminal_reason row; gb_identity := row_identity row;
    gb_source_message_id := row_source_message_id row;
    gb_idempotency_key := row_idempotency_key row; gb_items := items |}.

Definition load_batch (s : InboxStore) (batch_id : string)
  : result GuidanceBatch string :=
  let? row := option_context (sql_first (sql_where (has_id batch_id) (guidance_batches s)))
                "failed to load guidance batch" in
  let? items := load_items (guidance_items s) batch_id in
  Ok (batch_of_row row items).

Definition load_batch_optional (s : InboxStore) (batch_id : string)
  : result (option GuidanceBatch) string :=
  match sql_first (sql_where (has_id batch_id) (guidance_batches s)) with
  | None => Ok None
  | Some row => let? batch := load_batch s (row_batch_id row) in Ok (Some batch)
  end.

Definition load_batch_by_source_message_id (s : InboxStore) (source_message_id : Z)
  : result (option GuidanceBatch) string :=
  match sql_first (sql_where (fun r => bool_decide
          (row_source_message_id r = Some source_message_id)) (guidance_batches s)) with
  | None => Ok None
  | Some row => let? batch := load_batch s (row_batch_id row) in Ok (Some batch)
  end.

Definition inspect_batch (s : InboxStore) (batch_id : string)
  : result (option GuidanceBatch) string :=
  let? _ := validate_id batch_id "batch id" in
  load_batch_optional s batch_id.

Definition find_idempotent_batch (s : InboxStore) (agent_id key : string)
    (queue_class : QueueClass) : result (option string) string :=
  match sql_first (sql_where (fun r => for_agent agent_id r
          && opt_eqb (row_idempotency_key r) (Some key)) (guidance_batches s)) with
  | None => Ok None
  | Some r =>
      if bool_decide (row_queue_class r = queue_class) then Ok (Some (row_batch_id r))
      else Err "idempotency key already belongs to another queue class"
  end.

(** [SELECT COALESCE(MAX(queue_seq), -1) + 1]: beyond [i64::MAX] the sum is
    no longer an integer and the row does not decode. *)
Definition next_queue_seq (s : InboxStore) (agent_id : string) : result Z string :=
  let next := (default (-1) (sql_max row_queue_seq
                 (sql_where (for_agent agent_id) (guidance_batches s))) + 1)%Z in
  if (next <=? i64_max)%Z then Ok next
  else Err "failed to allocate guidance queue sequence".

(** The constraints of [guidance_batches]. *)
Definition batch_conflict (row r : BatchRow) : bool :=
  String.eqb (row_batch_id r) (row_batch_id row)
  || (for_agent (row_agent_id row) r && (row_queue_seq r =? row_queue_seq row)%Z)
  || (for_agent (row_agent_id row) r
      && match row_idempotency_key row with
         | Some key => opt_eqb (row_idempotency_key r) (Some key)
         | None => false
         end).

Definition insert_batch_row (s : InboxStore) (row : BatchRow) : result InboxStore string :=
  if sql_exists (batch_conflict row) (guidance_batches s)
     || (row_queue_seq row <? 0)%Z || (row_attempt_count row <? 0)%Z
  then Err "failed to insert guidance batch"
  else Ok (set_batches s (guidance_batches s ++ [row])%list).

(** The constraints of [guidance_items]. *)
Definition item_conflict (row r : ItemRow) : bool :=
  String.eqb (irow_item_id r) (irow_item_id row)
  || (String.eqb (irow_batch_id r) (irow_batch_id row)
      && (irow_position r =? irow_position row)%Z).

Definition insert_item_row (s : InboxStore) (row : ItemRow) : result InboxStore string :=
  if sql_exists (item_conflict row) (guidance_items s) || (irow_position row <? 0)%Z
     || negb (sql_exists (has_id (irow_batch_id row)) (guidance_batches s))
  then Err "failed to insert guidance item"
  else Ok (set_items s (guidance_items s ++ [row])%list).

(** The insertion loop: [u] supplies the random item identifiers. *)
Fixpoint insert_items (u : nat -> string) (batch_id : string) (position : nat)
    (items : list GuidanceItemInput) (s : InboxStore) : result InboxStore string :=
  match items with
  | [] => Ok s
  | item :: rest =>
      let? s' := insert_item_row s {|
          irow_batch_id := batch_id; irow_position := Z.of_nat position;
          irow_item_id := u position; irow_from_agent := in_from_agent item;
          irow_content := in_content item; irow_summary := in_summary item;
          irow_injection_options := json_to_string (in_injection_options item) |} in
      insert_items u batch_id (S position) rest s'
  end.

Definition bind_opt_u64 (o : option Z) (e : string) : result (option Z) string :=
  match o with
  | None => Ok None
  | Some n => match sql_bind_u64 n with Some m => Ok (Some m) | None => Err e end
  end.

Definition set_generation (i : GuidanceIdentity) (g : option Z) : GuidanceIdentity := {|
  gi_run_id := gi_run_id i; gi_session_id := gi_session_id i;
  gi_invocation_id := gi_invocation_id i; gi_generation := g;
  gi_runtime := gi_runtime i; gi_harness := gi_harness i; gi_role := gi_role i |}.

Definition new_batch_row (now : Z) (batch_id agent_id : string) (queue_seq : Z)
    (identity : GuidanceIdentity) (request : GuidanceBatchRequest) : BatchRow := {|
  row_batch_id := batch_id; row_agent_id := agent_id;
  row_queue_class := req_queue_class request; row_queue_seq := queue_seq;
  row_state := Pending; row_created_at := now; row_available_at := now;
  row_lease_owner := None; row_lease_expires_at := None; row_attempt_count := 0;
  row_accepted_at := None; row_terminal_at := None; row_terminal_reason := None;
  row_identity := identity; row_source_message_id := req_source_message_id request;
  row_idempotency_key := req_idempotency_key request |}.

(** [u] supplies the batch identifier at 0 and the item identifiers after it. *)
Definition enqueue_new (now : Z) (u : nat -> string) (request : GuidanceBatchRequest)
    (agent_id : string) (s : InboxStore)
  : result (InboxStore * GuidanceEnqueueResult) string :=
  let? queue_seq := next_queue_seq s agent_id in
  let batch_id := u 0 in
  let? generation := bind_opt_u64 (gi_generation (req_identity request))
                       "failed to insert guidance batch" in
  let? s1 := insert_batch_row s (new_batch_row now batch_id agent_id queue_seq
               (set_generation (req_identity request) generation) request) in
  let? s2 := insert_items (fun i => u (S i)) batch_id 0 (req_items request) s1 in
  let? batch := load_batch s2 batch_id in
  Ok (s2, {| er_batch := batch; er_created := true |}).

Definition enqueue_batch_in_transaction (now : Z) (u : nat -> string)
    (request : GuidanceBatchRequest) (agent_id : string) (s : InboxStore)
  : result (InboxStore * GuidanceEnqueueResult) string :=
  let? existing := match req_idempotency_key request with
                   | Some key => find_idempotent_batch s agent_id key (req_queue_class request)
                   | None => Ok None
                   end in
  match existing with
  | Some batch_id =>
      let? batch := load_batch s batch_id in
      Ok (s, {| er_batch := batch; er_created := false |})
  | None => enqueue_new now u request agent_id s
  end.

Definition enqueue_data (batch : GuidanceBatch) : json :=
  with_batch_identity
    (jobj [("operation", JStr "enqueue");
           ("idempotency_key", jopt JStr (gb_idempotency_key batch))]) batch.

Definition append_enqueue_event (result : GuidanceEnqueueResult) (s : InboxStore)
  : InboxStore :=
  if er_created result then
    append_queue_event "inbox.state_changed" (enqueue_data (er_batch result)) s
  else s.

Definition enqueue_batch (now : Z) (u : nat -> string) (request : GuidanceBatchRequest)
    (s : InboxStore) : InboxStore * result GuidanceEnqueueResult string :=
  transaction s
    (let? _ := validate_batch_request request in
     let agent_id := normalize_agent_id (req_agent_id request) in
     let? ' (s', result) := enqueue_batch_in_transaction now u request agent_id s in
     Ok (append_enqueue_event result s', result)).

Definition enqueue_in_topic (now : Z) (u : nat -> string) (topic : string)
    (items : list GuidanceItemInput) (identity : GuidanceIdentity)
    (idempotency_key : option string) (source_message_id : option Z) (s : InboxStore)
  : InboxStore * result GuidanceEnqueueResult string :=
  match InTopic.parse topic with
  | Err e => (s, Err e)
  | Ok destination =>
      enqueue_batch now u
        (InTopic.into_request destination items identity idempotency_key source_message_id) s
  end.

(** ** Lease recovery *)

Definition recovery_state (attempt_count : Z) : GuidanceState :=
  if (MAX_RETRY_ATTEMPTS <=? attempt_count)%Z then Abandoned else Pending.

(** The [UPDATE] of one expired row. *)
Definition recover_row (now attempt_count : Z) : BatchRow -> BatchRow :=
  let abandon := (MAX_RETRY_ATTEMPTS <=? attempt_count)%Z in
  set_released (recovery_state attempt_count)
    (if abandon then now else i64_saturating_add now (retry_backoff_seconds attempt_count))
    (if abandon then Some now else None)
    (if abandon then Some "lease_expired_retry_budget" else None).

Definition expired_row (now : Z) (r : BatchRow) : bool := is_active r && lease_expired now r.

Definition recover_expired_in_tx (now : Z) (s : InboxStore)
  : InboxStore * list (string * GuidanceState) :=
  let rows := sql_scan (sql_where (expired_row now) (guidance_batches s)) in
  fold_left
    (fun '(s, recovered) r =>
       (set_batches s
          (sql_update (fun r' => has_id (row_batch_id r) r' && expired_row now r')
             (recover_row now (row_attempt_count r)) (guidance_batches s)),
        recovered ++ [(row_batch_id r, recovery_state (row_attempt_count r))])%list)
    rows (s, []).

Definition recovery_data (batch : option GuidanceBatch) (data : json) : json :=
  match batch with Some b => with_batch_identity data b | None => data end.

Definition emit_recovery_event (s : InboxStore) (entry : string * GuidanceState)
  : InboxStore :=
  let '(batch_id, state) := entry in
  let batch := match inspect_batch s batch_id with Ok b => b | Err _ => None end in
  let s1 := append_queue_event "inbox.state_changed"
      (recovery_data batch
         (jobj [("operation", JStr "lease_expired"); ("batch_id", JStr batch_id);
                ("state", JStr (GuidanceState.as_str state))])) s in
  if bool_decide (state = Abandoned) then
    append_queue_event "agent_inbox.messages_abandoned"
      (recovery_data batch
         (jobj [("batch_id", JStr batch_id);
                ("reason", JStr "lease_expired_retry_budget")])) s1
  else s1.

Definition emit_recovery_events (recovered : list (string * GuidanceState))
    (s : InboxStore) : InboxStore := fold_left emit_recovery_event recovered s.

(** The same loop called with the connection held: [inspect_batch] validates the
    identifier and then locks the connection again.  [false]: it never comes
    back. *)
Fixpoint emit_recovery_events_held (recovered : list (string * GuidanceState))
    (s : InboxStore) : InboxStore * bool :=
  match recovered with
  | [] => (s, true)
  | entry :: rest =>
      if is_ok (validate_id entry.1 "batch id") then (s, false)
      else emit_recovery_events_held rest (emit_recovery_event s entry)
  end.

Definition recover_expired_leases (now : Z) (s : InboxStore)
  : InboxStore * result (list string) string :=
  let '(s', recovered) := recover_expired_in_tx now s in
  (emit_recovery_events recovered s', Ok (map fst recovered)).

(** ** Claim *)

Definition has_active_lease (now : Z) (agent_id : string) (s : InboxStore) : bool :=
  sql_exists (fun r => for_agent agent_id r && is_active r && lease_live now r)
    (guidance_batches s).

(** At a stop boundary, a steering batch that waits for its backoff blocks
    follow-up work. *)
Definition steering_blocks (now : Z) (agent_id : string) (s : InboxStore) : bool :=
  sql_exists (fun r => for_agent agent_id r && in_class Steering r && in_state Pending r)
    (guidance_batches s)
  && negb (sql_exists (fun r => for_agent agent_id r && in_class Steering r && available now r)
             (guidance_batches s)).

Definition class_filter (phase : BoundaryPhase) (r : BatchRow) : bool :=
  match phase with TurnFinished => in_class Steering r | _ => true end.

Definition claimable (now : Z) (agent_id : string) (phase : BoundaryPhase) (r : BatchRow)
  : bool := for_agent agent_id r && available now r && class_filter phase r.

Definition select_next (now : Z) (agent_id : string) (phase : BoundaryPhase)
    (s : InboxStore) : option BatchRow :=
  head (sql_order_by claim_le
          (sql_where (claimable now agent_id phase) (guidance_batches s))).

Definition claim_data (phase : BoundaryPhase) (consumer_id : string)
    (batch : GuidanceBatch) : json :=
  with_batch_identity
    (jobj [("operation", JStr "claim"); ("consumer", JStr consumer_id);
           ("boundary", JStr (BoundaryPhase.serde_name phase));
           ("lease_expires_at", jopt JNum (gb_lease_expires_at batch))]) batch.

(** Lease the selected batch and load it back. *)
Definition lease_batch (now lease_expires_at : Z) (consumer : GuidanceConsumer)
    (batch_id : string) (s : InboxStore) : result (InboxStore * GuidanceBatch) string :=
  let? generation := bind_opt_u64 (gc_generation consumer) "failed to lease guidance batch" in
  let target := fun r => has_id batch_id r && available now r in
  let changed := sql_count target (guidance_batches s) in
  let s' := set_batches s (sql_update target
      (set_leased (gc_consumer_id consumer) lease_expires_at
         (gc_invocation_id consumer) generation) (guidance_batches s)) in
  if negb (changed =? 1)%Z then Err "guidance batch became unavailable during claim"
  else let? batch := load_batch s' batch_id in Ok (s', batch).

(** The transaction of a claim, after lease recovery. *)
Definition claim_in_tx (now : Z) (agent_id : string) (phase : BoundaryPhase)
    (consumer : GuidanceConsumer) (lease_expires_at : Z) (s : InboxStore)
  : result (InboxStore * option GuidanceBatch) string :=
  if has_active_lease now agent_id s then Ok (s, None)
  else if (match phase with WouldStop => true | _ => false end)
          && steering_blocks now agent_id s then Ok (s, None)
  else
    match select_next now agent_id phase s with
    | None => Ok (s, None)
    | Some row =>
        let? ' (s', batch) :=
          lease_batch now lease_expires_at consumer (row_batch_id row) s in
        Ok (s', Some batch)
    end.

(** After the commit.  A claim that found a batch drops its connection before
    it emits the recovery events; the other three exits still hold it. *)
Definition finish_claim (phase : BoundaryPhase) (consumer_id : string)
    (recovered : list (string * GuidanceState)) (found : option GuidanceBatch)
    (s : InboxStore) : InboxStore * call (result (option GuidanceBatch) string) :=
  match found with
  | Some batch =>
      (append_queue_event "inbox.state_changed" (claim_data phase consumer_id batch)
         (emit_recovery_events recovered s),
       Returns (Ok (Some batch)))
  | None =>
      let '(s', back) := emit_recovery_events_held recovered s in
      (s', if back then Returns (Ok None) else Blocks)
  end.

Definition claim_next (now : Z) (boundary : BoundaryEvidence) (consumer : GuidanceConsumer)
    (lease_seconds : Z) (s : InboxStore)
  : InboxStore * call (result (option GuidanceBatch) string) :=
  match validate_identity (be_agent_id boundary) "boundary agent" with
  | Err e => (s, Returns (Err e))
  | Ok _ =>
      match validate_id (gc_consumer_id consumer) "consumer id" with
      | Err e => (s, Returns (Err e))
      | Ok _ =>
          let phase := be_phase boundary in
          if negb (BoundaryPhase.can_offer_steering phase) then (s, Returns (Ok None))
          else if (match phase with WouldStop => true | _ => false end)
                  && negb (BoundaryPhase.can_offer_follow_up phase)
          then (s, Returns (Ok None))
          else
            let agent_id := normalize_agent_id (be_agent_id boundary) in
            let lease_seconds := Z.max 1 (Z.min MAX_LEASE_SECONDS lease_seconds) in
            let lease_expires_at :=
              i64_saturating_add now (i64_of_u64_or_max lease_seconds) in
            let '(s1, recovered) := recover_expired_in_tx now s in
            match claim_in_tx now agent_id phase consumer lease_expires_at s1 with
            | Err e => (s, Returns (Err e))
            | Ok (s2, found) =>
                finish_claim phase (gc_consumer_id consumer) recovered found s2
            end
      end
  end.

(** ** Queries for the transport cache *)

Definition pending_batches_for_agent (s : InboxStore) (agent_id : string) (now : Z)
  : result (list GuidanceBatch) string :=
  let agent_id := normalize_agent_id agent_id in
  collect (fun r => load_batch s (row_batch_id r))
    (sql_order_by seq_le
       (sql_where (fun r => for_agent agent_id r && available now r) (guidance_batches s))).

Definition pending_agent_ids (s : InboxStore) (now : Z) : list string :=
  sql_order_by (fun a b => negb (String.ltb b a))
    (dedup_keys (map row_agent_id (sql_where (available now) (guidance_batches s)))).

(** ** Transport *)

Definition transport_data (consumer_id : string) (attempt : TransportAttempt)
    (next_attempt : Z) (batch : GuidanceBatch) : json :=
  with_batch_identity
    (jobj [("consumer", JStr consumer_id); ("attempt", JNum next_attempt);
           ("method", JStr (ta_method attempt));
           ("outcome", JStr (TransportOutcome_serde_name (ta_outcome attempt)));
           ("acceptance", JStr "unknown"); ("confidence", JStr "unknown");
           ("detail", jopt JStr (ta_detail attempt))]) batch.

Definition submitted_data (consumer_id : string) (next_attempt : Z)
    (batch : GuidanceBatch) : json :=
  with_batch_identity
    (jobj [("operation", JStr "transport_submitted"); ("consumer", JStr consumer_id);
           ("attempt", JNum next_attempt);
           ("state", JStr (GuidanceState.as_str Submitted));
           ("acceptance", JStr "unknown"); ("confidence", JStr "unknown")]) batch.

Definition record_transport_attempt (now : Z) (batch_id consumer_id : string)
    (attempt : TransportAttempt) (s : InboxStore) : InboxStore * result Z string :=
  transaction s
    (let? _ := validate_id batch_id "batch id" in
     let? _ := validate_id consumer_id "consumer id" in
     let? _ := validate_id (ta_method attempt) "transport method" in
     let? _ := match ta_detail attempt with
               | Some detail => validate_text detail MAX_REASON_BYTES "transport detail"
               | None => Ok tt
               end in
     let? row := option_context
         (sql_first (sql_where (has_id batch_id) (guidance_batches s)))
         "guidance batch not found" in
     if negb (in_state Leased row) || negb (owned_by consumer_id row) then
       Err "guidance batch is not leased by this consumer"
     else
       let? next_attempt := option_context (i64_checked_add (row_attempt_count row) 1)
                              "guidance attempt count overflow" in
       let lease_expires_at := i64_saturating_add now MAX_RETRY_BACKOFF_SECONDS in
       let s1 := set_batches s (sql_update
           (fun r => has_id batch_id r && in_state Leased r && owned_by consumer_id r)
           (set_submitted next_attempt lease_expires_at) (guidance_batches s)) in
       let? batch := load_batch s1 batch_id in
       Ok (append_queue_event "inbox.state_changed"
             (submitted_data consumer_id next_attempt batch)
             (append_queue_event "message.delivery"
                (transport_data consumer_id attempt next_attempt batch) s1),
           next_attempt)).

(** ** Acknowledgement *)

Definition unproven_data (evidence : RuntimeAcceptanceEvidence) (batch : GuidanceBatch)
  : json :=
  with_batch_identity
    (jobj [("operation", JStr "acknowledgement_unproven");
           ("consumer", JStr (ev_consumer_id evidence));
           ("state", JStr (GuidanceState.as_str (gb_state batch)));
           ("acceptance", JStr "unknown");
           ("confidence", JStr (AcceptanceConfidence_serde_name (ev_confidence evidence)));
           ("evidence_kind",
             JStr (AcceptanceKind_serde_name (ev_evidence_kind evidence)))]) batch.

Definition acknowledge_data (evidence : RuntimeAcceptanceEvidence) (batch : GuidanceBatch)
  : json :=
  with_batch_identity
    (jobj [("operation", JStr "acknowledge");
           ("consumer", JStr (ev_consumer_id evidence));
           ("evidence_kind",
             JStr (AcceptanceKind_serde_name (ev_evidence_kind evidence)));
           ("acceptance", JStr "exact");
           ("confidence",
             JStr (AcceptanceConfidence_serde_name (ev_confidence evidence)))]) batch.

Definition consumed_data (evidence : RuntimeAcceptanceEvidence) (batch : GuidanceBatch)
  : json :=
  with_batch_identity
    (jobj [("consumer", JStr (ev_consumer_id evidence));
           ("ack_kind", JStr "runtime_accepted");
           ("confidence",
             JStr (AcceptanceConfidence_serde_name (ev_confidence evidence)));
           ("item_count", JNum (Z.of_nat (List.length (ev_item_ids evidence))))]) batch.

(** The compare-and-set itself, once the identity has matched. *)
Definition accept_batch (now : Z) (evidence : RuntimeAcceptanceEvidence)
    (batch : GuidanceBatch) (s : InboxStore) : InboxStore * GuidanceAckResult :=
  let target := fun r => has_id (ev_batch_id evidence) r && is_active r
                         && owned_by (ev_consumer_id evidence) r in
  if negb (sql_count target (guidance_batches s) =? 1)%Z then
    (s, AckRejected "guidance batch changed before acknowledgement")
  else
    (append_queue_event "message.consumed" (consumed_data evidence batch)
       (append_queue_event "inbox.state_changed" (acknowledge_data evidence batch)
          (set_batches s (sql_update target (set_accepted now) (guidance_batches s)))),
     AckAccepted).

Definition acknowledge_runtime (now : Z) (evidence : RuntimeAcceptanceEvidence)
    (s : InboxStore) : InboxStore * result GuidanceAckResult string :=
  transaction s
    (let? _ := validate_id (ev_batch_id evidence) "batch id" in
     let? _ := validate_id (ev_agent_id evidence) "evidence agent" in
     let? _ := validate_id (ev_consumer_id evidence) "consumer id" in
     let agent_id := normalize_agent_id (ev_agent_id evidence) in
     let? found := load_batch_optional s (ev_batch_id evidence) in
     match found with
     | None => Ok (s, AckRejected "unknown guidance batch")
     | Some batch =>
         if negb (String.eqb (gb_agent_id batch) agent_id) then
           Ok (s, AckRejected "guidance target does not match evidence target")
         else if bool_decide (gb_state batch = Accepted) then
           Ok (s, if evidence_matches_batch batch evidence then AckAlreadyAccepted
                  else AckRejected "duplicate acknowledgement identity mismatch")
         else if negb (bool_decide (gb_state batch = Leased)
                       || bool_decide (gb_state batch = Submitted)) then
           Ok (s, AckRejected ("guidance batch is " ++ GuidanceState.as_str (gb_state batch)))
         else if negb (evidence_matches_batch batch evidence) then
           Ok (s, AckRejected "acknowledgement identity does not match claimed batch")
         else if negb (bool_decide (ev_confidence evidence = Exact)) then
           Ok (append_queue_event "inbox.state_changed" (unproven_data evidence batch) s,
               AckRejected "non-exact runtime evidence cannot accept a guidance batch")
         else Ok (accept_batch now evidence batch s)
     end).

(** ** Retry and cancellation *)

Definition release_data (terminal : bool) (consumer_id reason : string)
    (new_state : GuidanceState) (next_attempt_at attempt_count : Z)
    (batch : GuidanceBatch) : json :=
  with_batch_identity
    (jobj [("operation", JStr (if terminal then "abandon" else "release_for_retry"));
           ("consumer", JStr consumer_id);
           ("state", JStr (GuidanceState.as_str new_state));
           ("reason", JStr reason); ("available_at", JNum next_attempt_at);
           ("attempt", JNum attempt_count)]) batch.

Definition abandoned_data (consumer_id reason : string) (attempt_count : Z)
    (batch : GuidanceBatch) : json :=
  with_batch_identity
    (jobj [("consumer", JStr consumer_id); ("reason", JStr reason);
           ("attempt", JNum attempt_count)]) batch.

Definition release_for_retry (now : Z) (batch_id consumer_id reason : string)
    (next_attempt_at : Z) (s : InboxStore) : InboxStore * result GuidanceState string :=
  transaction s
    (let? _ := validate_id batch_id "batch id" in
     let? _ := validate_id consumer_id "consumer id" in
     let? _ := validate_text reason MAX_REASON_BYTES "retry reason" in
     let next_attempt_at := Z.max next_attempt_at now in
     let? row := option_context
         (sql_first (sql_where (has_id batch_id) (guidance_batches s)))
         "guidance batch not found" in
     if negb (is_active row) || negb (owned_by consumer_id row) then
       Err "guidance batch is not retryable for this consumer"
     else
       let attempt_count := row_attempt_count row in
       let terminal := (MAX_RETRY_ATTEMPTS <=? attempt_count)%Z in
       let new_state := if terminal then Abandoned else Pending in
       let? batch := load_batch s batch_id in
       let s1 := set_batches s (sql_update
           (fun r => has_id batch_id r && is_active r && owned_by consumer_id r)
           (set_released new_state next_attempt_at
              (if terminal then Some now else None)
              (if terminal then Some reason else None)) (guidance_batches s)) in
       let s2 := append_queue_event "inbox.state_changed"
           (release_data terminal consumer_id reason new_state next_attempt_at
              attempt_count batch) s1 in
       let s3 := if terminal then
                   append_queue_event "agent_inbox.messages_abandoned"
                     (abandoned_data consumer_id reason attempt_count batch) s2
                 else s2 in
       Ok (s3, new_state)).

Definition cancel_data (reason : string) (batch : GuidanceBatch) : json :=
  with_batch_identity
    (jobj [("operation", JStr "cancel");
           ("state", JStr (GuidanceState.as_str Cancelled)); ("reason", JStr reason);
           ("consumer", jopt JStr (gb_lease_owner batch));
           ("attempt", JNum (gb_attempt_count batch))]) batch.

Definition cancel_batch (now : Z) (batch_id reason : string) (s : InboxStore)
  : InboxStore * result GuidanceState string :=
  transaction s
    (let? _ := validate_id batch_id "batch id" in
     let? _ := validate_text reason MAX_REASON_BYTES "cancel reason" in
     let? row := option_context
         (sql_first (sql_where (has_id batch_id) (guidance_batches s)))
         "guidance batch not found" in
     let current := row_state row in
     if GuidanceState.is_terminal current then Ok (s, current)
     else
       let? batch := load_batch s batch_id in
       let s1 := set_batches s (sql_update
           (fun r => has_id batch_id r && (in_state Pending r || is_active r))
           (set_cancelled now reason) (guidance_batches s)) in
       Ok (append_queue_event "inbox.state_changed" (cancel_data reason batch) s1,
           Cancelled)).
End Queue.
