(* ===== verification/GuidanceRows.v ===== *)
(** * Life cycle of a guidance row

    The step relation of one row of [guidance_batches], the invariant of a row
    and of the table, and the lemmas by which every [UPDATE] and [INSERT] of
    the queue preserves them.  The queue operations are composed from these in
    [GuidanceSystem]. *)

From S2P Require Import Prelude RustStr JsonValue SqlTable GuidanceTypes Store GuidanceQueue.
From Stdlib Require Import Sorting.Sorted.
Local Open Scope string_scope.

(** The columns no [UPDATE] writes. *)
Definition row_key (r : BatchRow) :=
  (row_batch_id r, row_agent_id r, row_queue_class r, row_queue_seq r,
   row_created_at r, row_source_message_id r, row_idempotency_key r).

(** ** WHERE clauses as propositions *)

Lemma has_id_true id r : has_id id r = true <-> row_batch_id r = id.
Proof. unfold has_id. apply String.eqb_eq. Qed.
Lemma for_agent_true a r : for_agent a r = true <-> row_agent_id r = a.
Proof. unfold for_agent. apply String.eqb_eq. Qed.
Lemma in_state_true st r : in_state st r = true <-> row_state r = st.
Proof. unfold in_state. apply bool_decide_eq_true. Qed.
Lemma owned_by_true c r : owned_by c r = true <-> row_lease_owner r = Some c.
Proof. unfold owned_by. apply bool_decide_eq_true. Qed.
Lemma in_class_true c r : in_class c r = true <-> row_queue_class r = c.
Proof. unfold in_class. apply bool_decide_eq_true. Qed.
Lemma is_active_true r :
  is_active r = true <-> row_state r = Leased \/ row_state r = Submitted.
Proof. unfold is_active. rewrite orb_true_iff, !in_state_true. done. Qed.
Lemma available_true now r :
  available now r = true <-> row_state r = Pending /\ (row_available_at r <= now)%Z.
Proof. unfold available. rewrite andb_true_iff, in_state_true, Z.leb_le. done. Qed.

(** Turn the WHERE tests in the context into equations on columns. *)
Ltac where_facts :=
  repeat match goal with
  | H : (_ && _) = true |- _ => apply andb_true_iff in H as [? ?]
  | H : has_id _ _ = true |- _ => apply has_id_true in H
  | H : for_agent _ _ = true |- _ => apply for_agent_true in H
  | H : in_state _ _ = true |- _ => apply in_state_true in H
  | H : owned_by _ _ = true |- _ => apply owned_by_true in H
  | H : in_class _ _ = true |- _ => apply in_class_true in H
  | H : available _ _ = true |- _ => apply available_true in H as [? ?]
  end.

(** The steps are relative to the rows an operation may accept: only an
    acknowledgement accepts, and only under the evidence it was given. *)
Section Steps.
Context (may_accept : BatchRow -> Prop).

(** What one statement may do to one row. *)
Inductive row_step : BatchRow -> BatchRow -> Prop :=
| step_lease r owner expires inv gen :
    row_state r = Pending ->
    row_step r (set_leased owner expires inv gen r)
| step_submit r expires :
    row_state r = Leased ->
    row_step r (set_submitted (row_attempt_count r + 1) expires r)
| step_accept r now :
    is_active r = true -> may_accept r -> row_step r (set_accepted now r)
| step_retry r at_ :
    is_active r = true -> (row_attempt_count r < MAX_RETRY_ATTEMPTS)%Z ->
    row_step r (set_released Pending at_ None None r)
| step_abandon r at_ now reason :
    is_active r = true -> (MAX_RETRY_ATTEMPTS <= row_attempt_count r)%Z ->
    row_step r (set_released Abandoned at_ (Some now) (Some reason) r)
| step_cancel r now reason :
    GuidanceState.is_terminal (row_state r) = false ->
    row_step r (set_cancelled now reason r).

(** A row as [INSERT] creates it. *)
Definition fresh_row (r : BatchRow) : Prop :=
  row_state r = Pending /\ row_lease_owner r = None /\ row_lease_expires_at r = None
  /\ row_attempt_count r = 0%Z /\ row_accepted_at r = None /\ row_terminal_at r = None
  /\ row_terminal_reason r = None /\ (0 <= row_queue_seq r <= i64_max)%Z.

(** The columns that must agree with the state of a row. *)
Definition row_ok (r : BatchRow) : Prop :=
  (0 <= row_queue_seq r <= i64_max)%Z /\
  match row_state r with
  | Pending =>
      row_lease_owner r = None /\ row_lease_expires_at r = None
      /\ row_accepted_at r = None /\ row_terminal_at r = None
      /\ row_terminal_reason r = None
      /\ (0 <= row_attempt_count r < MAX_RETRY_ATTEMPTS)%Z
  | Leased =>
      is_Some (row_lease_owner r) /\ is_Some (row_lease_expires_at r)
      /\ row_accepted_at r = None /\ row_terminal_at r = None
      /\ row_terminal_reason r = None
      /\ (0 <= row_attempt_count r < MAX_RETRY_ATTEMPTS)%Z
  | Submitted =>
      is_Some (row_lease_owner r) /\ is_Some (row_lease_expires_at r)
      /\ row_accepted_at r = None /\ row_terminal_at r = None
      /\ row_terminal_reason r = None
      /\ (0 < row_attempt_count r <= MAX_RETRY_ATTEMPTS)%Z
  | Accepted =>
      row_lease_owner r = None /\ row_lease_expires_at r = None
      /\ is_Some (row_accepted_at r) /\ row_terminal_at r = None
      /\ row_terminal_reason r = None
      /\ (0 <= row_attempt_count r <= MAX_RETRY_ATTEMPTS)%Z
  | Abandoned | Cancelled =>
      row_lease_owner r = None /\ row_lease_expires_at r = None
      /\ row_accepted_at r = None /\ is_Some (row_terminal_at r)
      /\ is_Some (row_terminal_reason r)
      /\ (0 <= row_attempt_count r <= MAX_RETRY_ATTEMPTS)%Z
  end.

(** The table invariant. *)
Record rows_ok (t : list BatchRow) : Prop := {
  ok_rows : Forall row_ok t;
  ok_ids : NoDup (map row_batch_id t);
  ok_seqs : NoDup (map (fun r => (row_agent_id r, row_queue_seq r)) t);
  ok_keys : forall r1 r2 key, r1 ∈ t -> r2 ∈ t -> row_agent_id r1 = row_agent_id r2 ->
    row_idempotency_key r1 = Some key -> row_idempotency_key r2 = Some key ->
    row_batch_id r1 = row_batch_id r2;
  ok_lease : forall r1 r2, r1 ∈ t -> r2 ∈ t -> row_agent_id r1 = row_agent_id r2 ->
    is_active r1 = true -> is_active r2 = true -> row_batch_id r1 = row_batch_id r2
}.

(** How a table evolves: old rows take steps, new rows are born pending. *)
Definition born (r : BatchRow) : Prop := exists r0, fresh_row r0 /\ rtc row_step r0 r.
Definition evolves (t t' : list BatchRow) : Prop :=
  exists t1 t2, t' = (t1 ++ t2)%list /\ Forall2 (rtc row_step) t t1 /\ Forall born t2.

(** ** Steps of one row *)

Lemma row_step_key r r' : row_step r r' -> row_key r' = row_key r.
Proof. by destruct 1. Qed.

Lemma row_steps_key r r' : rtc row_step r r' -> row_key r' = row_key r.
Proof.
  induction 1 as [|x y z Hxy _ IH]; [done|].
  rewrite IH. by apply row_step_key.
Qed.

(** Close the column equations of a row invariant. *)
Ltac split_row :=
  unfold MAX_RETRY_ATTEMPTS in *; destruct_and?; repeat split; eauto; lia.

Lemma row_step_ok r r' : row_step r r' -> row_ok r -> row_ok r'.
Proof.
  unfold row_ok.
  destruct 1 as [r owner expires inv gen St | r expires St | r now Ac _ | r at_ Ac Lt
                |r at_ now reason Ac Ge | r now reason Te]; cbn; intros [Hseq Hr].
  - rewrite St in Hr. split_row.
  - rewrite St in Hr. split_row.
  - apply is_active_true in Ac as [St|St]; rewrite St in Hr; split_row.
  - apply is_active_true in Ac as [St|St]; rewrite St in Hr; split_row.
  - apply is_active_true in Ac as [St|St]; rewrite St in Hr; split_row.
  - destruct (row_state r); try done; split_row.
Qed.

Lemma row_steps_ok r r' : rtc row_step r r' -> row_ok r -> row_ok r'.
Proof. induction 1; eauto using row_step_ok. Qed.

Lemma fresh_row_ok r : fresh_row r -> row_ok r.
Proof.
  intros (St & Ow & Ex & At & Ac & Te & Re & Sq). unfold row_ok. rewrite St.
  unfold MAX_RETRY_ATTEMPTS. rewrite Ow, Ex, At, Ac, Te, Re. repeat split; lia.
Qed.

(** A terminal row takes no step. *)
Lemma row_step_terminal r r' :
  GuidanceState.is_terminal (row_state r) = true -> ~ row_step r r'.
Proof.
  intros T S. destruct S as [r ? ? ? ? St | r ? St | r ? Ac _ | r ? Ac ? | r ? ? ? Ac ? | r ? ? Te].
  - by rewrite St in T.
  - by rewrite St in T.
  - apply is_active_true in Ac as [St|St]; by rewrite St in T.
  - apply is_active_true in Ac as [St|St]; by rewrite St in T.
  - apply is_active_true in Ac as [St|St]; by rewrite St in T.
  - congruence.
Qed.

Lemma row_steps_terminal r r' :
  GuidanceState.is_terminal (row_state r) = true -> rtc row_step r r' -> r' = r.
Proof.
  intros T S. inversion S as [|? y ? Hy]; subst; [done|].
  by destruct (row_step_terminal _ _ T Hy).
Qed.

(** Only an authorised row is ever accepted. *)
Lemma row_step_accepted r r' :
  row_step r r' -> row_state r' = Accepted -> is_active r = true /\ may_accept r.
Proof. by destruct 1. Qed.

Lemma row_step_attempts r r' :
  row_step r r' -> (row_attempt_count r <= row_attempt_count r')%Z.
Proof. destruct 1; cbn; lia. Qed.

(** ** Evolution of the table *)

Lemma evolves_refl t : evolves t t.
Proof.
  exists t, []. rewrite app_nil_r. split; [done|]. split; [|constructor].
  induction t; constructor; [apply rtc_refl|done].
Qed.

Lemma Forall2_rtc_trans t1 t2 t3 :
  Forall2 (rtc row_step) t1 t2 -> Forall2 (rtc row_step) t2 t3 ->
  Forall2 (rtc row_step) t1 t3.
Proof.
  intros H. revert t3. induction H as [|x y l k Hxy _ IH]; intros t3 H'.
  - by apply Forall2_nil_inv_l in H' as ->.
  - apply Forall2_cons_inv_l in H' as (z & k' & Hyz & Hk & ->).
    constructor; [by etrans|auto].
Qed.

Lemma born_steps r r' : born r -> rtc row_step r r' -> born r'.
Proof. intros (r0 & F & S) S'. exists r0. split; [done|]. by etrans. Qed.

Lemma evolves_trans t1 t2 t3 : evolves t1 t2 -> evolves t2 t3 -> evolves t1 t3.
Proof.
  intros (a & b & -> & Ha & Hb) (c & d & -> & Hc & Hd).
  apply Forall2_app_inv_l in Hc as (c1 & c2 & Hc1 & Hc2 & ->).
  exists c1, (c2 ++ d)%list. rewrite app_assoc. split; [done|]. split.
  - by eapply Forall2_rtc_trans.
  - apply Forall_app. split; [|done]. clear -Hb Hc2. revert Hb.
    induction Hc2 as [|x y b c2 Hxy _ IH]; intros Hb; [constructor|].
    inversion_clear Hb. constructor; [by eapply born_steps|auto].
Qed.

Lemma evolves_update p f t :
  (forall r, r ∈ t -> p r = true -> row_step r (f r)) -> evolves t (sql_update p f t).
Proof.
  intros Hf. exists (sql_update p f t), []. rewrite app_nil_r.
  split; [done|]. split; [|constructor].
  apply sql_update_Forall2; [intros; apply rtc_refl|].
  intros r Hr Hp. apply rtc_once. auto.
Qed.

Lemma evolves_insert t r : fresh_row r -> evolves t (t ++ [r])%list.
Proof.
  intros F. exists t, [r]. split; [done|]. split.
  - induction t; constructor; [apply rtc_refl|done].
  - repeat constructor. exists r. split; [done|apply rtc_refl].
Qed.

(** A row of an evolved table descends from an old row or is newly born. *)
Lemma evolves_elem t t' r' :
  evolves t t' -> r' ∈ t' -> (exists r, r ∈ t /\ rtc row_step r r') \/ born r'.
Proof.
  intros (a & b & -> & Ha & Hb). rewrite elem_of_app. intros [Hin|Hin].
  - left. apply list_elem_of_lookup in Hin as [i Hi].
    destruct (Forall2_lookup_r _ _ _ _ _ Ha Hi) as (r & Hr & S).
    exists r. split; [by eapply list_elem_of_lookup_2|done].
  - right. rewrite Forall_forall in Hb. auto.
Qed.

Lemma evolves_elem_fwd t t' r :
  evolves t t' -> r ∈ t -> exists r', r' ∈ t' /\ rtc row_step r r'.
Proof.
  intros (a & b & -> & Ha & Hb) [i Hi]%list_elem_of_lookup.
  destruct (Forall2_lookup_l _ _ _ _ _ Ha Hi) as (r' & Hr' & S).
  exists r'. split; [|done]. apply elem_of_app. left. by eapply list_elem_of_lookup_2.
Qed.

Lemma evolves_rows_ok t t' : Forall row_ok t -> evolves t t' -> Forall row_ok t'.
Proof.
  intros H E. apply Forall_forall. intros r' Hin.
  destruct (evolves_elem _ _ _ E Hin) as [(r & Hr & S)|(r0 & F & S)].
  - rewrite Forall_forall in H. eauto using row_steps_ok.
  - eauto using row_steps_ok, fresh_row_ok.
Qed.

(** ** Table invariant: rows with one identifier are one row *)

Lemma rows_ok_same t r1 r2 :
  rows_ok t -> r1 ∈ t -> r2 ∈ t -> row_batch_id r1 = row_batch_id r2 -> r1 = r2.
Proof. intros Hok. apply NoDup_map_inj, Hok. Qed.

Lemma rows_ok_seq t r1 r2 :
  rows_ok t -> r1 ∈ t -> r2 ∈ t -> row_agent_id r1 = row_agent_id r2 ->
  row_queue_seq r1 = row_queue_seq r2 -> r1 = r2.
Proof.
  intros Hok H1 H2 Ea Eq.
  eapply (NoDup_map_inj (fun r => (row_agent_id r, row_queue_seq r)));
    [apply Hok|done|done|]. cbn. congruence.
Qed.

Lemma sql_first_id `{SqlEngine} t id r :
  sql_first (sql_where (has_id id) t) = Some r -> r ∈ t /\ row_batch_id r = id.
Proof. intros [? ?%has_id_true]%sql_first_Some%elem_of_lfilter. done. Qed.

(** With unique identifiers a lookup by identifier finds the row. *)
Lemma where_id t r :
  rows_ok t -> r ∈ t -> sql_where (has_id (row_batch_id r)) t = [r].
Proof.
  intros [_ Hid _ _ _]. induction t as [|x t IH]; [by intros ?%elem_of_nil|].
  cbn in Hid. apply NoDup_cons in Hid as [Hx Hid].
  assert (Hnone : forall y, y ∈ t -> row_batch_id y <> row_batch_id x).
  { intros y Hy Eq. apply Hx. rewrite <- Eq. apply list_elem_of_fmap. eauto. }
  intros [->|Hin]%elem_of_cons; cbn.
  - unfold has_id at 1. rewrite String.eqb_refl. f_equal.
    apply filter_negb_nil, existsb_false. intros y Hy.
    apply String.eqb_neq. auto.
  - destruct (has_id (row_batch_id r) x) eqn:E.
    + apply has_id_true in E. by destruct (Hnone r Hin).
    + by apply IH.
Qed.

Lemma sql_first_where_id `{SqlEngine} t r :
  rows_ok t -> r ∈ t -> sql_first (sql_where (has_id (row_batch_id r)) t) = Some r.
Proof. intros Hok Hin. rewrite where_id by done. apply sql_first_singleton. Qed.

(** A selection by identifier with more guards that hold of the named row. *)
Lemma where_only t r p :
  rows_ok t -> r ∈ t -> p r = true -> (forall r', p r' = true -> row_batch_id r' = row_batch_id r) ->
  sql_where p t = [r].
Proof.
  intros Hok Hr Hp Hid. rewrite <- (where_id t r Hok Hr). unfold sql_where.
  apply List.filter_ext_in. intros r' Hr'%list_elem_of_In.
  destruct (has_id (row_batch_id r) r') eqn:E.
  - apply has_id_true in E. by assert (r' = r) as -> by by eapply rows_ok_same.
  - destruct (p r') eqn:P; [|done]. apply Hid, has_id_true in P. congruence.
Qed.

Lemma update_only t r p f :
  rows_ok t -> r ∈ t -> p r = true -> (forall r', p r' = true -> row_batch_id r' = row_batch_id r) ->
  sql_update p f t = sql_update (has_id (row_batch_id r)) f t.
Proof.
  intros Hok Hr Hp Hid. unfold sql_update. apply map_ext_in. intros r' Hr'%list_elem_of_In.
  destruct (has_id (row_batch_id r) r') eqn:E.
  - apply has_id_true in E. assert (r' = r) as -> by by eapply rows_ok_same. by rewrite Hp.
  - destruct (p r') eqn:P; [|done]. apply Hid, has_id_true in P. congruence.
Qed.

(** The row an update by identifier wrote. *)
Lemma where_id_updated t r f :
  rows_ok t -> r ∈ t -> (forall r', row_batch_id (f r') = row_batch_id r') ->
  sql_where (has_id (row_batch_id r)) (sql_update (has_id (row_batch_id r)) f t) = [f r].
Proof.
  intros Hok Hr Hf. transitivity (map f (sql_where (has_id (row_batch_id r)) t));
    [|by rewrite where_id]. clear Hok Hr. unfold sql_where, sql_update.
  induction t as [|x t IH]; [done|]. cbn [map List.filter].
  destruct (has_id (row_batch_id r) x) eqn:E; cbn [map].
  - replace (has_id (row_batch_id r) (f x)) with true; [by rewrite IH|].
    symmetry. apply has_id_true. rewrite Hf. by apply has_id_true.
  - by rewrite E.
Qed.

(** ** Preservation by statements *)

(** A statement that writes no key column and activates no row. *)
Lemma rows_ok_update p f t :
  rows_ok t ->
  (forall r, r ∈ t -> row_ok r -> p r = true ->
     row_step r (f r) /\ (is_active (f r) = true -> is_active r = true)) ->
  rows_ok (sql_update p f t).
Proof.
  intros Hok Hf. pose proof (ok_rows _ Hok) as Hrows. rewrite Forall_forall in Hrows.
  assert (Hkey : forall r, r ∈ t -> row_key (if p r then f r else r) = row_key r).
  { intros r Hin. destruct (p r) eqn:E; [|done].
    apply row_step_key. apply Hf; auto. }
  assert (Hcol : forall B (k : BatchRow -> B) (g : _ -> B), (forall r, k r = g (row_key r)) ->
            map k (sql_update p f t) = map k t).
  { intros B k g Hk. unfold sql_update. rewrite map_map. apply map_ext_in.
    intros r Hin%list_elem_of_In. by rewrite !Hk, Hkey. }
  assert (Hold : forall r', r' ∈ sql_update p f t -> exists r, r ∈ t /\
            row_key r' = row_key r /\ (is_active r' = true -> is_active r = true)).
  { intros r' (r & Hin & ->)%elem_of_sql_update. exists r. split; [done|].
    split; [auto|]. destruct (p r) eqn:E; [|done]. apply Hf; auto. }
  constructor.
  - apply sql_update_Forall; [by apply Hok|]. intros r Hin Hr Hp.
    eapply row_step_ok; [apply Hf; auto|done].
  - rewrite (Hcol _ _ (fun k => k.1.1.1.1.1.1)); [apply Hok|done].
  - rewrite (Hcol _ _ (fun k => (k.1.1.1.1.1.2, k.1.1.1.2))); [apply Hok|done].
  - intros r1' r2' key (r1 & H1 & K1 & _)%Hold (r2 & H2 & K2 & _)%Hold.
    unfold row_key in K1, K2. injection K1 as -> -> _ _ _ _ ->.
    injection K2 as -> -> _ _ _ _ ->. by apply (ok_keys _ Hok).
  - intros r1' r2' (r1 & H1 & K1 & A1)%Hold (r2 & H2 & K2 & A2)%Hold.
    unfold row_key in K1, K2. injection K1 as -> -> _ _ _ _ _.
    injection K2 as -> -> _ _ _ _ _. intros E B1 B2.
    apply (ok_lease _ Hok); auto.
Qed.

End Steps.

(** The claim: the one statement that activates a row, and only for an agent
    without an active one. *)
Lemma rows_ok_lease p t a id owner expires inv gen :
  rows_ok t ->
  (forall r, r ∈ t -> row_agent_id r = a -> is_active r = false) ->
  (forall r, r ∈ t -> p r = true ->
     row_batch_id r = id /\ row_agent_id r = a /\ row_state r = Pending) ->
  rows_ok (sql_update p (set_leased owner expires inv gen) t).
Proof.
  intros Hok Hidle Hp. set (f := set_leased owner expires inv gen).
  assert (Hold : forall r', r' ∈ sql_update p f t -> exists r, r ∈ t /\
            row_key r' = row_key r /\
            (is_active r' = true -> is_active r = true
               \/ (row_batch_id r = id /\ row_agent_id r = a))).
  { intros r' (r & Hin & ->)%elem_of_sql_update. exists r. split; [done|].
    destruct (p r) eqn:E; [|by auto]. split; [done|].
    intros _. right. by destruct (Hp r Hin E) as (? & ? & ?). }
  constructor.
  - apply sql_update_Forall; [by apply Hok|]. intros r Hin Hr E.
    apply (row_step_ok (fun _ => False) r); [|done]. constructor. by apply Hp.
  - rewrite sql_update_column; [apply Hok|done].
  - rewrite sql_update_column; [apply Hok|done].
  - intros r1' r2' key (r1 & H1 & K1 & _)%Hold (r2 & H2 & K2 & _)%Hold.
    unfold row_key in K1, K2. injection K1 as -> -> _ _ _ _ ->.
    injection K2 as -> -> _ _ _ _ ->. by apply (ok_keys _ Hok).
  - intros r1' r2' (r1 & H1 & K1 & A1)%Hold (r2 & H2 & K2 & A2)%Hold.
    unfold row_key in K1, K2. injection K1 as -> -> _ _ _ _ _.
    injection K2 as -> -> _ _ _ _ _. intros E B1 B2.
    destruct (A1 B1) as [C1|[C1 D1]], (A2 B2) as [C2|[C2 D2]].
    + by apply (ok_lease _ Hok).
    + rewrite (Hidle r1) in C1; [done|done|congruence].
    + rewrite (Hidle r2) in C2; [done|done|congruence].
    + congruence.
Qed.

Lemma batch_conflict_false row r :
  batch_conflict row r = false ->
  row_batch_id r <> row_batch_id row /\
  (row_agent_id r = row_agent_id row -> row_queue_seq r <> row_queue_seq row) /\
  (row_agent_id r = row_agent_id row -> forall key,
     row_idempotency_key row = Some key -> row_idempotency_key r <> Some key).
Proof.
  unfold batch_conflict. intros [[H1 H2]%orb_false_iff H3]%orb_false_iff.
  apply String.eqb_neq in H1. split; [done|]. split.
  - intros Ea. apply for_agent_true in Ea. rewrite Ea in H2. cbn in H2.
    by apply Z.eqb_neq in H2.
  - intros Ea key Ek. apply for_agent_true in Ea. rewrite Ea, Ek in H3. cbn in H3.
    unfold opt_eqb in H3. by apply bool_decide_eq_false in H3.
Qed.

(** [INSERT] of a fresh row that meets the constraints. *)
Lemma rows_ok_insert t row :
  rows_ok t -> fresh_row row -> sql_exists (batch_conflict row) t = false ->
  rows_ok (t ++ [row])%list.
Proof.
  intros Hok F C. unfold sql_exists in C. rewrite existsb_false in C.
  assert (Hc : forall r, r ∈ t -> _) by (intros r Hr; exact (batch_conflict_false _ _ (C r Hr))).
  assert (Hidle : is_active row = false).
  { destruct (is_active row) eqn:E; [|done]. apply is_active_true in E.
    destruct F as [St _]. destruct E; congruence. }
  constructor.
  - apply Forall_app. split; [apply Hok|]. repeat constructor; by apply fresh_row_ok.
  - rewrite map_app. apply NoDup_app. split; [apply Hok|].
    split; [|cbn; apply NoDup_singleton].
    intros x Hx. cbn. rewrite list_elem_of_singleton. intros ->.
    apply list_elem_of_fmap in Hx as (r & E & Hr).
    destruct (Hc r Hr) as [? _]. congruence.
  - rewrite map_app. apply NoDup_app. split; [apply Hok|].
    split; [|cbn; apply NoDup_singleton].
    intros x Hx. cbn. rewrite list_elem_of_singleton. intros ->.
    apply list_elem_of_fmap in Hx as (r & E & Hr). injection E as E1 E2.
    destruct (Hc r Hr) as (_ & Hs & _). by apply Hs.
  - intros r1 r2 key. rewrite !elem_of_app, !list_elem_of_singleton.
    intros [H1| ->] [H2| ->] Ea K1 K2; [by eapply (ok_keys _ Hok)| | |done].
    + destruct (Hc r1 H1) as (_ & _ & Hk). by destruct (Hk Ea key K2).
    + destruct (Hc r2 H2) as (_ & _ & Hk). by destruct (Hk (eq_sym Ea) key K1).
  - intros r1 r2. rewrite !elem_of_app, !list_elem_of_singleton.
    intros [H1| ->] [H2| ->] Ea A1 A2; [by eapply (ok_lease _ Hok)| | |done]; congruence.
Qed.
