(* ===== verification/GuidanceSystem.v ===== *)
(** * The durable guidance queue: the store invariant

    Every operation of [GuidanceQueue] moves the store along [quiet] (rows
    step, keys and items stay) or inserts one fresh batch with its items; both
    preserve [store_ok]. *)

From S2P Require Import Prelude RustStr JsonValue SqlTable GuidanceTypes Store GuidanceQueue.
From S2P Require Import GuidanceRows.
Local Open Scope string_scope.

(** ** The set-at-a-time reference of lease recovery *)

Definition recover_rows (now : Z) (t : list BatchRow) : list BatchRow :=
  sql_update (expired_row now) (fun r => recover_row now (row_attempt_count r) r) t.

(** ** Invariants *)

Section System.
Context `{SqlEngine} `{JsonText} `{EventSink}.
Implicit Types (s : InboxStore) (r : BatchRow).

Record store_ok s : Prop := {
  so_rows : rows_ok (guidance_batches s);
  so_items : forall r, r ∈ guidance_batches s -> exists items,
    load_items (guidance_items s) (row_batch_id r) = Ok items /\
    (1 <= Z.of_nat (List.length items) <= MAX_BATCH_ITEMS)%Z;
  so_fk : forall i, i ∈ guidance_items s -> exists r,
    r ∈ guidance_batches s /\ row_batch_id r = irow_batch_id i;
  so_agents : forall r, r ∈ guidance_batches s ->
    normalize_agent_id (row_agent_id r) = row_agent_id r
}.

(** ** Lease recovery *)

Lemma expired_row_active now r : expired_row now r = true -> is_active r = true.
Proof. unfold expired_row. by intros [? _]%andb_true_iff. Qed.

Lemma recover_row_step may_accept now r :
  is_active r = true -> row_step may_accept r (recover_row now (row_attempt_count r) r).
Proof.
  intros Ac. unfold recover_row, recovery_state.
  destruct (MAX_RETRY_ATTEMPTS <=? row_attempt_count r)%Z eqn:E; bool_facts.
  - by apply step_abandon.
  - by apply step_retry.
Qed.

Lemma recover_row_inactive now n r : is_active (recover_row now n r) = false.
Proof.
  unfold recover_row, recovery_state, is_active, in_state.
  by destruct (MAX_RETRY_ATTEMPTS <=? n)%Z.
Qed.

(** The source's loop: one [UPDATE] per selected row. *)
Definition recover_loop now rows (acc : InboxStore * list (string * GuidanceState)) :=
  fold_left
    (fun '(s, recovered) r =>
       (set_batches s
          (sql_update (fun r' => has_id (row_batch_id r) r' && expired_row now r')
             (recover_row now (row_attempt_count r)) (guidance_batches s)),
        recovered ++ [(row_batch_id r, recovery_state (row_attempt_count r))])%list)
    rows acc.

Lemma recover_loop_spec now rows s acc :
  rows_ok (guidance_batches s) ->
  NoDup (map row_batch_id rows) ->
  (forall r, r ∈ rows -> r ∈ guidance_batches s) ->
  recover_loop now rows (s, acc)
  = (set_batches s
       (sql_update (fun r' => existsb (fun r => has_id (row_batch_id r) r') rows
                              && expired_row now r')
          (fun r' => recover_row now (row_attempt_count r') r') (guidance_batches s)),
     acc ++ map (fun r => (row_batch_id r, recovery_state (row_attempt_count r))) rows)%list.
Proof.
  revert s acc. induction rows as [|r rows IH]; intros s acc Hok Hnd Hin; cbn.
  { rewrite app_nil_r. f_equal. rewrite sql_update_none by done. by destruct s. }
  apply NoDup_cons in Hnd as [Hr Hnd].
  set (p := fun r' => has_id (row_batch_id r) r' && expired_row now r').
  assert (Hr0 : r ∈ guidance_batches s) by (apply Hin; set_solver).
  assert (Hother : forall r2, r2 ∈ rows -> row_batch_id r2 <> row_batch_id r).
  { intros r2 H2 E. apply Hr. rewrite <- E. apply list_elem_of_fmap. eauto. }
  unfold recover_loop in IH. rewrite IH; clear IH.
  - cbn. f_equal; [|by rewrite <- app_assoc].
    f_equal. unfold sql_update. rewrite map_map. apply map_ext_in.
    intros r' Hr'%list_elem_of_In. unfold p.
    destruct (has_id (row_batch_id r) r') eqn:Eid; cbn [andb orb].
    + apply has_id_true in Eid.
      assert (r' = r) as -> by by eapply rows_ok_same.
      destruct (expired_row now r) eqn:Ex; cbn.
      * replace (expired_row now (recover_row now (row_attempt_count r) r)) with false;
          [by rewrite andb_false_r|].
        unfold expired_row. by rewrite recover_row_inactive.
      * by rewrite Ex, andb_false_r.
    + done.
  - apply (rows_ok_update (fun _ => False)); [done|]. intros r' Hr' _ [E1 E2]%andb_true_iff.
    apply has_id_true in E1.
    assert (r' = r) as -> by by eapply rows_ok_same.
    split; [by eapply recover_row_step, expired_row_active|].
    by rewrite recover_row_inactive.
  - done.
  - intros r2 H2. apply elem_of_sql_update. exists r2. split; [apply Hin; set_solver|].
    unfold p. destruct (has_id (row_batch_id r) r2) eqn:E; [|done].
    apply has_id_true in E. by destruct (Hother r2 H2).
Qed.

(** The rows the recovery query selects. *)
Definition expired_rows now (t : list BatchRow) : list BatchRow :=
  sql_scan (sql_where (expired_row now) t).

Lemma elem_of_expired_rows now t r :
  r ∈ expired_rows now t <-> r ∈ t /\ expired_row now r = true.
Proof. unfold expired_rows. rewrite elem_of_sql_scan. apply elem_of_lfilter. Qed.

Lemma expired_rows_ids now t : NoDup (map row_batch_id t) -> NoDup (map row_batch_id (expired_rows now t)).
Proof.
  unfold expired_rows. rewrite sql_scan_perm. intros Hnd.
  induction t as [|x t IH]; cbn; [constructor|].
  cbn in Hnd. apply NoDup_cons in Hnd as [Hx Hnd].
  destruct (expired_row now x); [|auto]. cbn. constructor; [|auto].
  intros Hin. apply Hx. apply list_elem_of_fmap in Hin as (y & E & Hy).
  apply list_elem_of_fmap. exists y. split; [done|]. by apply elem_of_lfilter in Hy as [? _].
Qed.

(** Updating the selected identifiers updates the expired rows. *)
Lemma recover_selected now t :
  sql_update (fun r' => existsb (fun r => has_id (row_batch_id r) r') (expired_rows now t)
                        && expired_row now r')
    (fun r' => recover_row now (row_attempt_count r') r') t
  = recover_rows now t.
Proof.
  unfold recover_rows, sql_update. apply map_ext_in.
  intros r Hr%list_elem_of_In. destruct (expired_row now r) eqn:E; [|by rewrite andb_false_r].
  replace (existsb (fun r0 => has_id (row_batch_id r0) r) (expired_rows now t)) with true; [done|].
  symmetry. apply existsb_elem. exists r. split; [by apply elem_of_expired_rows|].
  by apply has_id_true.
Qed.

Lemma recover_expired_spec now s :
  rows_ok (guidance_batches s) ->
  recover_expired_in_tx now s
  = (set_batches s (recover_rows now (guidance_batches s)),
     map (fun r => (row_batch_id r, recovery_state (row_attempt_count r)))
       (expired_rows now (guidance_batches s))).
Proof.
  intros Hok. change (recover_loop now (expired_rows now (guidance_batches s)) (s, [])
    = (set_batches s (recover_rows now (guidance_batches s)),
       map (fun r => (row_batch_id r, recovery_state (row_attempt_count r)))
         (expired_rows now (guidance_batches s)))).
  rewrite recover_loop_spec; [by rewrite recover_selected|done| |].
  - apply expired_rows_ids, Hok.
  - intros r Hr. by apply elem_of_expired_rows in Hr as [? _].
Qed.

Lemma emit_recovery_batches l s :
  guidance_batches (emit_recovery_events l s) = guidance_batches s.
Proof.
  unfold emit_recovery_events. revert s.
  induction l as [|[id st] l IH]; intros s; cbn [fold_left]; [done|]. rewrite IH.
  unfold emit_recovery_event, append_queue_event.
  case_bool_decide; by rewrite ?append_batches.
Qed.

(** After recovery every active lease is in the future. *)
Lemma recover_rows_live now t r :
  rows_ok t -> r ∈ recover_rows now t -> is_active r = true -> lease_live now r = true.
Proof.
  intros Hok (r0 & Hin & ->)%elem_of_sql_update Ac.
  destruct (expired_row now r0) eqn:E; [by rewrite recover_row_inactive in Ac|].
  pose proof (ok_rows _ Hok) as Hr. rewrite Forall_forall in Hr. specialize (Hr _ Hin).
  unfold expired_row in E. rewrite Ac in E. unfold lease_expired in E. unfold lease_live.
  assert (is_Some (row_lease_expires_at r0)) as [e He].
  { apply is_active_true in Ac as [St|St]; destruct Hr as [_ Hr]; rewrite St in Hr; apply Hr. }
  rewrite He in *. cbn in E. bool_facts. apply Z.ltb_lt. lia.
Qed.

Lemma select_next_Some now a phase s r :
  select_next now a phase s = Some r ->
  r ∈ guidance_batches s /\ claimable now a phase r = true.
Proof.
  unfold select_next. intros Hr.
  assert (r ∈ sql_order_by claim_le (sql_where (claimable now a phase) (guidance_batches s))) as Hin.
  { destruct (sql_order_by _ _); [done|]. injection Hr as ->. set_solver. }
  rewrite sql_order_by_perm in Hin. by apply elem_of_lfilter in Hin.
Qed.

Lemma idle_without_lease now a s :
  rows_ok (guidance_batches s) ->
  has_active_lease now a (set_batches s (recover_rows now (guidance_batches s))) = false ->
  forall r, r ∈ recover_rows now (guidance_batches s) -> row_agent_id r = a ->
  is_active r = false.
Proof.
  intros Hok Hl r Hr Ha. destruct (is_active r) eqn:Ac; [|done].
  unfold has_active_lease, sql_exists in Hl. rewrite existsb_false in Hl.
  specialize (Hl r Hr). rewrite Ac, (recover_rows_live now _ r Hok Hr Ac) in Hl.
  apply for_agent_true in Ha. by rewrite Ha in Hl.
Qed.

Lemma load_batch_optional_Some s id b :
  load_batch_optional s id = Ok (Some b) ->
  exists r items, r ∈ guidance_batches s /\ row_batch_id r = id /\
    load_items (guidance_items s) id = Ok items /\ b = batch_of_row r items.
Proof.
  unfold load_batch_optional, load_batch.
  destruct (sql_first (sql_where (has_id id) _)) as [r0|] eqn:F0; [|done].
  apply sql_first_id in F0 as [_ E0]. rewrite E0.
  destruct (sql_first (sql_where (has_id id) _)) as [r|] eqn:F; [|done]. cbn.
  apply sql_first_id in F as [Hr E].
  destruct (load_items _ _) as [items|] eqn:L; [|done]. cbn. intros [= <-].
  eauto 10.
Qed.

(** ** Loading a row of a well-formed store *)

(** One row written, nothing else. *)
Definition write_row (id : string) (f : BatchRow -> BatchRow) s : InboxStore :=
  set_batches s (sql_update (has_id id) f (guidance_batches s)).

Lemma load_batch_written s r f :
  store_ok s -> r ∈ guidance_batches s ->
  (forall r', row_batch_id (f r') = row_batch_id r') ->
  exists items, load_items (guidance_items s) (row_batch_id r) = Ok items /\
    load_batch (write_row (row_batch_id r) f s) (row_batch_id r) = Ok (batch_of_row (f r) items).
Proof.
  intros Hs Hr Hf. destruct (so_items _ Hs r Hr) as (its & L & _). exists its.
  split; [done|]. unfold load_batch, write_row. cbn [guidance_batches set_batches].
  rewrite where_id_updated by (done || apply Hs). rewrite sql_first_singleton. cbn.
  by rewrite L.
Qed.

Lemma load_batch_row s r :
  store_ok s -> r ∈ guidance_batches s ->
  exists items, load_items (guidance_items s) (row_batch_id r) = Ok items /\
    load_batch s (row_batch_id r) = Ok (batch_of_row r items) /\
    load_batch_optional s (row_batch_id r) = Ok (Some (batch_of_row r items)).
Proof.
  intros Hs Hr. destruct (so_items _ Hs r Hr) as (its & L & _). exists its.
  unfold load_batch_optional, load_batch. pose proof (so_rows _ Hs) as Hok.
  rewrite sql_first_where_id by done. cbn. rewrite sql_first_where_id by done. cbn.
  by rewrite L.
Qed.

Lemma write_row_elem s r f r' :
  rows_ok (guidance_batches s) -> r ∈ guidance_batches s ->
  r' ∈ guidance_batches (write_row (row_batch_id r) f s) <->
  r' = f r \/ (r' ∈ guidance_batches s /\ row_batch_id r' <> row_batch_id r).
Proof.
  intros Hok Hr. unfold write_row. cbn. rewrite elem_of_sql_update. split.
  - intros (r0 & Hr0 & ->). destruct (has_id (row_batch_id r) r0) eqn:E.
    + apply has_id_true in E. left. f_equal. by eapply rows_ok_same.
    + right. split; [done|]. intros Eq. apply has_id_true in Eq. congruence.
  - intros [->|[Hr' Hne]].
    + exists r. split; [done|]. by replace (has_id _ r) with true by (symmetry; by apply has_id_true).
    + exists r'. split; [done|]. destruct (has_id (row_batch_id r) r') eqn:E; [|done].
      by apply has_id_true in E.
Qed.

(** The authority an acknowledgement needs to accept a row: exact evidence
    from the lease owner that names the row, its class, the identity captured
    by the claim, and all its items in order. *)
Definition ack_authorises (ev : RuntimeAcceptanceEvidence) s r : Prop :=
  row_batch_id r = ev_batch_id ev /\ is_active r = true
  /\ row_lease_owner r = Some (ev_consumer_id ev)
  /\ row_agent_id r = normalize_agent_id (ev_agent_id ev)
  /\ QueueClass.as_str (row_queue_class r) = ev_queue_class ev
  /\ gi_invocation_id (row_identity r) = ev_invocation_id ev
  /\ gi_generation (row_identity r) = ev_generation ev
  /\ ev_confidence ev = Exact
  /\ exists items, load_items (guidance_items s) (row_batch_id r) = Ok items
      /\ map it_item_id items = ev_item_ids ev.

Lemma evidence_matches_authorises ev s r items row :
  rows_ok (guidance_batches s) -> row ∈ guidance_batches s -> r ∈ guidance_batches s ->
  row_batch_id row = ev_batch_id ev ->
  load_items (guidance_items s) (ev_batch_id ev) = Ok items ->
  evidence_matches_batch (batch_of_row row items) ev = true ->
  ev_confidence ev = Exact ->
  (has_id (ev_batch_id ev) r && is_active r && owned_by (ev_consumer_id ev) r) = true ->
  ack_authorises ev s r.
Proof.
  intros Hok Hrow Hr Hid L M C E. unfold evidence_matches_batch in M. cbn in M.
  where_facts.
  assert (r = row) as -> by (eapply rows_ok_same; [done..|congruence]).
  bool_facts. unfold opt_eqb in *. bool_facts.
  repeat split; try done. exists items. split; [congruence|done].
Qed.

End System.

(** ** Operations that insert nothing *)

Section Quiet.
Context `{SqlEngine} `{JsonText} `{EventSink}.
Context (may_accept : BatchRow -> Prop).
Implicit Types (s : InboxStore) (r : BatchRow).

(** A change that inserts and deletes nothing. *)
Record quiet s s' : Prop := {
  q_path : db_path s' = db_path s;
  q_items : guidance_items s' = guidance_items s;
  q_keys : map row_key (guidance_batches s') = map row_key (guidance_batches s);
  q_ok : rows_ok (guidance_batches s');
  q_evolves : evolves may_accept (guidance_batches s) (guidance_batches s')
}.

Lemma quiet_refl s : rows_ok (guidance_batches s) -> quiet s s.
Proof. constructor; auto using evolves_refl. Qed.

Lemma quiet_trans s1 s2 s3 : quiet s1 s2 -> quiet s2 s3 -> quiet s1 s3.
Proof.
  intros [P1 I1 K1 O1 E1] [P2 I2 K2 O2 E2].
  constructor; [congruence..|done|by eapply evolves_trans].
Qed.

(** The mirror is quiet. *)
Lemma quiet_append t d s :
  rows_ok (guidance_batches s) -> quiet s (append_state_change t d s).
Proof.
  intros Hok. constructor; autorewrite with store; auto using evolves_refl.
Qed.

Lemma quiet_append_r t d s s' : quiet s s' -> quiet s (append_state_change t d s').
Proof. intros Q. eapply quiet_trans; [done|]. apply quiet_append, Q. Qed.

Lemma quiet_update s p f :
  rows_ok (guidance_batches s) ->
  (forall r, r ∈ guidance_batches s -> row_ok r -> p r = true ->
     row_step may_accept r (f r) /\ (is_active (f r) = true -> is_active r = true)) ->
  quiet s (set_batches s (sql_update p f (guidance_batches s))).
Proof.
  intros Hok Hf. pose proof (ok_rows _ Hok) as Hr. rewrite Forall_forall in Hr.
  constructor; cbn; [done|done| |by eapply (rows_ok_update may_accept)|].
  - unfold sql_update. rewrite map_map. apply map_ext_in.
    intros r Hin%list_elem_of_In. destruct (p r) eqn:E; [|done].
    eapply row_step_key. apply Hf; auto.
  - apply evolves_update. intros r Hin E. apply Hf; auto.
Qed.

Lemma quiet_elem s s' r' :
  quiet s s' -> r' ∈ guidance_batches s' ->
  exists r, r ∈ guidance_batches s /\ row_key r = row_key r'.
Proof.
  intros Q Hin. assert (row_key r' ∈ map row_key (guidance_batches s)) as Hk.
  { rewrite <- (q_keys _ _ Q). apply list_elem_of_fmap. eauto. }
  apply list_elem_of_fmap in Hk as (r & E & Hr). eauto.
Qed.

Lemma quiet_elem_fwd s s' r :
  quiet s s' -> r ∈ guidance_batches s ->
  exists r', r' ∈ guidance_batches s' /\ row_key r' = row_key r.
Proof.
  intros Q Hin. assert (row_key r ∈ map row_key (guidance_batches s')) as Hk.
  { rewrite (q_keys _ _ Q). apply list_elem_of_fmap. eauto. }
  apply list_elem_of_fmap in Hk as (r' & E & Hr). eauto.
Qed.

Lemma row_key_fields r r' :
  row_key r = row_key r' ->
  row_batch_id r = row_batch_id r' /\ row_agent_id r = row_agent_id r'
  /\ row_queue_class r = row_queue_class r' /\ row_queue_seq r = row_queue_seq r'.
Proof. unfold row_key. by intros [= -> -> -> -> _ _ _]. Qed.

Lemma store_ok_quiet s s' : store_ok s -> quiet s s' -> store_ok s'.
Proof.
  intros [Hr Hi Hf Ha] Q. constructor.
  - apply Q.
  - intros r' Hin. destruct (quiet_elem _ _ _ Q Hin) as (r & Hin' & E).
    apply row_key_fields in E as (E & _). rewrite <- E, (q_items _ _ Q). auto.
  - intros i Hin. rewrite (q_items _ _ Q) in Hin. destruct (Hf i Hin) as (r & Hr' & E).
    destruct (quiet_elem_fwd _ _ _ Q Hr') as (r' & Hin' & E').
    apply row_key_fields in E' as (E' & _). exists r'. split; [done|congruence].
  - intros r' Hin. destruct (quiet_elem _ _ _ Q Hin) as (r & Hin' & E).
    apply row_key_fields in E as (_ & <- & _). auto.
Qed.

Lemma transaction_quiet {X} s (res : result (InboxStore * X) string) :
  rows_ok (guidance_batches s) ->
  (forall s' x, res = Ok (s', x) -> quiet s s') -> quiet s (transaction s res).1.
Proof.
  intros Hok Hres. destruct res as [[s' x]|e]; cbn; [by eapply Hres|by apply quiet_refl].
Qed.

Lemma recover_quiet now s :
  rows_ok (guidance_batches s) ->
  quiet s (set_batches s (recover_rows now (guidance_batches s))).
Proof.
  intros Hok. apply quiet_update; [done|]. intros r Hr _ E.
  split; [by eapply recover_row_step, expired_row_active|].
  by rewrite recover_row_inactive.
Qed.

Lemma emit_recovery_quiet l s :
  rows_ok (guidance_batches s) -> quiet s (emit_recovery_events l s).
Proof.
  unfold emit_recovery_events. revert s.
  induction l as [|[id st] l IH]; intros s Hok; cbn [fold_left]; [by apply quiet_refl|].
  assert (quiet s (emit_recovery_event s (id, st))) as Q.
  { unfold emit_recovery_event, append_queue_event.
    case_bool_decide; repeat apply quiet_append_r; by apply quiet_refl. }
  eapply quiet_trans; [exact Q|]. apply IH, Q.
Qed.

Lemma recover_expired_leases_quiet now s :
  rows_ok (guidance_batches s) -> quiet s (recover_expired_leases now s).1.
Proof.
  intros Hok. unfold recover_expired_leases. rewrite recover_expired_spec by done. cbn.
  pose proof (recover_quiet now s Hok) as Q.
  eapply quiet_trans; [exact Q|]. apply emit_recovery_quiet, Q.
Qed.

(** ** Claim *)

Lemma lease_batch_quiet now e consumer s r s' batch a :
  rows_ok (guidance_batches s) -> r ∈ guidance_batches s -> row_agent_id r = a ->
  (forall r, r ∈ guidance_batches s -> row_agent_id r = a -> is_active r = false) ->
  lease_batch now e consumer (row_batch_id r) s = Ok (s', batch) -> quiet s s'.
Proof.
  intros Hok Hr Ha Hidle. unfold lease_batch.
  destruct (bind_opt_u64 _ _) as [gen|]; [|done].
  destruct (negb _); [done|]. destruct (load_batch _ _) as [b|]; [|done].
  intros [= <- <-].
  assert (Ht : forall x, x ∈ guidance_batches s ->
    (has_id (row_batch_id r) x && available now x) = true ->
    row_batch_id x = row_batch_id r /\ row_agent_id x = a /\ row_state x = Pending).
  { intros x Hx E. where_facts. split; [done|]. split; [|done].
    assert (x = r) as -> by by eapply rows_ok_same. done. }
  constructor; cbn; [done|done| | |].
  - by apply sql_update_column.
  - by eapply rows_ok_lease.
  - apply evolves_update. intros x Hx E. apply step_lease. by apply Ht.
Qed.

(** With the connection held only a prefix of the events is emitted. *)
Lemma emit_held_prefix (l : list (string * GuidanceState)) s :
  exists k, (emit_recovery_events_held l s).1 = emit_recovery_events (take k l) s.
Proof.
  revert s. induction l as [|e l IH]; intros s; [by exists 0|]. cbn.
  destruct (is_ok _); [by exists 0|].
  destruct (IH (emit_recovery_event s e)) as [k ->]. by exists (S k).
Qed.

Lemma emit_held_back (l : list (string * GuidanceState)) s :
  (emit_recovery_events_held l s).2 = true ->
  (emit_recovery_events_held l s).1 = emit_recovery_events l s.
Proof.
  revert s. induction l as [|e l IH]; intros s; [done|]. cbn.
  destruct (is_ok _); [done|]. intros E. by rewrite IH.
Qed.

(** It blocks on the first identifier that passes validation. *)
Lemma emit_held_blocks (l : list (string * GuidanceState)) s :
  (emit_recovery_events_held l s).2 = false <->
  exists e, e ∈ l /\ is_ok (validate_id e.1 "batch id") = true.
Proof.
  revert s. induction l as [|e l IH]; intros s; cbn [emit_recovery_events_held].
  - split; [done|]. by intros (? & ?%elem_of_nil & _).
  - destruct (is_ok (validate_id e.1 "batch id")) eqn:V.
    + split; [|done]. intros _. exists e. split; [left|done].
    + rewrite IH. split; intros (e' & He & V'); exists e'; (split; [|done]).
      * by right.
      * apply elem_of_cons in He as [->|He]; [congruence|done].
Qed.

Lemma emit_held_quiet l s :
  rows_ok (guidance_batches s) -> quiet s (emit_recovery_events_held l s).1.
Proof. intros Hok. destruct (emit_held_prefix l s) as [k ->]. by apply emit_recovery_quiet. Qed.

Lemma claim_in_tx_quiet now a phase consumer e s s' found :
  rows_ok (guidance_batches s) ->
  let s1 := set_batches s (recover_rows now (guidance_batches s)) in
  claim_in_tx now a phase consumer e s1 = Ok (s', found) -> quiet s1 s'.
Proof.
  intros Hok s1 Hx. unfold claim_in_tx in Hx.
  pose proof (q_ok _ _ (recover_quiet now s Hok)) as Hok1. fold s1 in Hok1.
  destruct (has_active_lease now _ s1) eqn:Hl; [injection Hx as <- _; by apply quiet_refl|].
  destruct (_ && steering_blocks _ _ _); [injection Hx as <- _; by apply quiet_refl|].
  destruct (select_next _ _ _ s1) as [row|] eqn:Sel;
    [|injection Hx as <- _; by apply quiet_refl].
  destruct (lease_batch _ _ _ _ s1) as [[s2 b]|] eqn:L; [|done]. injection Hx as <- _.
  apply select_next_Some in Sel as [Hin Hc]. unfold claimable in Hc. where_facts.
  eapply lease_batch_quiet; [done|exact Hin|done| |exact L]. by eapply idle_without_lease.
Qed.

Lemma finish_claim_quiet phase c l found s :
  rows_ok (guidance_batches s) -> quiet s (finish_claim phase c l found s).1.
Proof.
  intros Hok. unfold finish_claim. destruct found as [b|].
  - apply quiet_append_r. by apply emit_recovery_quiet.
  - pose proof (emit_held_quiet l s Hok) as Q.
    by destruct (emit_recovery_events_held l s).
Qed.

Lemma claim_next_quiet now boundary consumer lease s :
  rows_ok (guidance_batches s) -> quiet s (claim_next now boundary consumer lease s).1.
Proof.
  intros Hok. unfold claim_next.
  destruct (validate_identity _ _); [|by apply quiet_refl].
  destruct (validate_id _ _); [|by apply quiet_refl]. cbv zeta.
  destruct (negb _); [by apply quiet_refl|]. destruct (_ && negb _); [by apply quiet_refl|].
  rewrite recover_expired_spec by done.
  pose proof (recover_quiet now s Hok) as Q.
  destruct (claim_in_tx _ _ _ _ _ _) as [[s2 found]|] eqn:C; [|by apply quiet_refl].
  apply claim_in_tx_quiet in C; [|done].
  eapply quiet_trans; [exact Q|]. eapply quiet_trans; [exact C|].
  apply finish_claim_quiet, C.
Qed.

(** ** Transport, acknowledgement, retry, cancellation *)

Lemma record_transport_attempt_quiet now id c attempt s :
  rows_ok (guidance_batches s) ->
  quiet s (record_transport_attempt now id c attempt s).1.
Proof.
  intros Hok. apply transaction_quiet; [done|]. intros s' x Hx. cbv zeta in Hx.
  destruct (validate_id id _); [|done]. destruct (validate_id c _); [|done].
  destruct (validate_id (ta_method attempt) _); [|done].
  destruct (match ta_detail attempt with Some _ => _ | None => _ end); [|done].
  destruct (sql_first _) as [row|] eqn:F; [|done]. cbn in Hx.
  apply sql_first_id in F as [Hrow Hid].
  destruct (_ || _); [done|].
  destruct (i64_checked_add _ _) as [n|] eqn:N; [|done]. cbn in Hx.
  apply i64_checked_add_Some in N as [-> _].
  destruct (load_batch _ _); [|done]. injection Hx as <- _.
  unfold append_queue_event. do 2 apply quiet_append_r.
  apply quiet_update; [done|]. intros r Hr _ E. where_facts.
  assert (r = row) as -> by (eapply rows_ok_same; [done..|congruence]).
  split; [by apply step_submit|]. intros _. apply is_active_true. auto.
Qed.

Lemma acknowledge_runtime_quiet now ev s :
  rows_ok (guidance_batches s) ->
  (forall r, r ∈ guidance_batches s -> ack_authorises ev s r -> may_accept r) ->
  quiet s (acknowledge_runtime now ev s).1.
Proof.
  intros Hok Hacc. apply transaction_quiet; [done|]. intros s' x Hx. cbv zeta in Hx.
  destruct (validate_id (ev_batch_id ev) _); [|done].
  destruct (validate_id (ev_agent_id ev) _); [|done].
  destruct (validate_id (ev_consumer_id ev) _); [|done].
  destruct (load_batch_optional _ _) as [[b|]|] eqn:L; [| |done].
  2:{ injection Hx as <- _. by apply quiet_refl. }
  apply load_batch_optional_Some in L as (row & items & Hrow & Hid & L & ->).
  destruct (negb (String.eqb _ _)); [injection Hx as <- _; by apply quiet_refl|].
  destruct (bool_decide (_ = Accepted)); [injection Hx as <- _; by apply quiet_refl|].
  destruct (negb (_ || _)); [injection Hx as <- _; by apply quiet_refl|].
  destruct (evidence_matches_batch _ _) eqn:M; cbn [negb] in Hx;
    [|injection Hx as <- _; by apply quiet_refl].
  destruct (bool_decide (ev_confidence ev = Exact)) eqn:C; cbn [negb] in Hx;
    [|injection Hx as <- _; by apply quiet_append].
  bool_facts. unfold accept_batch in Hx.
  destruct (negb _); injection Hx as <- _; [by apply quiet_refl|].
  do 2 apply quiet_append_r. apply quiet_update; [done|]. intros r Hr _ E.
  split; [|done]. apply step_accept; [by where_facts|].
  apply Hacc; [done|]. eapply evidence_matches_authorises; [done|exact Hrow|done|exact Hid|exact L|exact M|done|exact E].
Qed.

Lemma release_for_retry_quiet now id c reason at_ s :
  rows_ok (guidance_batches s) ->
  quiet s (release_for_retry now id c reason at_ s).1.
Proof.
  intros Hok. apply transaction_quiet; [done|]. intros s' x Hx. cbv zeta in Hx.
  destruct (validate_id id _); [|done]. destruct (validate_id c _); [|done].
  destruct (validate_text reason _ _); [|done].
  destruct (sql_first _) as [row|] eqn:F; [|done]. cbn in Hx.
  apply sql_first_id in F as [Hrow Hid].
  destruct (_ || _) eqn:Ac; [done|].
  destruct (load_batch _ _); [|done]. injection Hx as <- _.
  assert (Q : quiet s (set_batches s (sql_update
     (fun r => has_id id r && is_active r && owned_by c r)
     (set_released (if (MAX_RETRY_ATTEMPTS <=? row_attempt_count row)%Z then Abandoned else Pending)
        (Z.max at_ now)
        (if (MAX_RETRY_ATTEMPTS <=? row_attempt_count row)%Z then Some now else None)
        (if (MAX_RETRY_ATTEMPTS <=? row_attempt_count row)%Z then Some reason else None))
     (guidance_batches s)))).
  { apply quiet_update; [done|]. intros r Hr _ E. where_facts.
    assert (r = row) as -> by (eapply rows_ok_same; [done..|congruence]).
    destruct (MAX_RETRY_ATTEMPTS <=? row_attempt_count row)%Z eqn:T; bool_facts.
    - split; [by apply step_abandon|done].
    - split; [by apply step_retry|done]. }
  unfold append_queue_event.
  destruct (MAX_RETRY_ATTEMPTS <=? row_attempt_count row)%Z;
    repeat apply quiet_append_r; exact Q.
Qed.

Lemma cancel_batch_quiet now id reason s :
  rows_ok (guidance_batches s) -> quiet s (cancel_batch now id reason s).1.
Proof.
  intros Hok. apply transaction_quiet; [done|]. intros s' x Hx. cbv zeta in Hx.
  destruct (validate_id id _); [|done]. destruct (validate_text reason _ _); [|done].
  destruct (sql_first _) as [row|] eqn:F; [|done]. cbn in Hx.
  destruct (GuidanceState.is_terminal _).
  { injection Hx as <- _. by apply quiet_refl. }
  destruct (load_batch _ _); [|done]. injection Hx as <- _.
  apply quiet_append_r, quiet_update; [done|].
  intros r Hr _ [_ [E|E]%orb_true_iff]%andb_true_iff; (split; [|done]); apply step_cancel.
  - apply in_state_true in E. by rewrite E.
  - apply is_active_true in E as [E|E]; by rewrite E.
Qed.
End Quiet.
