(* ===== verification/GuidanceClaim.v ===== *)
(** * Claiming guidance

    What [claim_next] may hand out: the functional behaviour of a successful
    claim, when a claim succeeds at all, the order of the queue, and lease
    exclusion. *)

From S2P Require Import Prelude RustStr JsonValue SqlTable GuidanceTypes Store GuidanceQueue.
From S2P Require Import GuidanceRows GuidanceSystem.
Local Open Scope string_scope.

Section Claim.
Context `{SqlEngine} `{JsonText} `{EventSink}.
Implicit Types (s : InboxStore).

Lemma finish_claim_Some phase c l found s s' batch :
  finish_claim phase c l found s = (s', Returns (Ok (Some batch))) ->
  found = Some batch /\
  s' = append_queue_event "inbox.state_changed" (claim_data phase c batch)
         (emit_recovery_events l s).
Proof.
  unfold finish_claim. destruct found as [b|]; [by intros [= <- ->]|].
  by destruct (emit_recovery_events_held l s) as [? []].
Qed.

(** What a successful claim did. *)
Lemma claim_next_Some now boundary consumer lease s s' batch :
  store_ok s -> claim_next now boundary consumer lease s = (s', Returns (Ok (Some batch))) ->
  let a := normalize_agent_id (be_agent_id boundary) in
  let t := recover_rows now (guidance_batches s) in
  exists r gen,
    r ∈ t /\ claimable now a (be_phase boundary) r = true /\
    (forall r', r' ∈ t -> claimable now a (be_phase boundary) r' = true ->
       claim_le r r' = true) /\
    (be_phase boundary = WouldStop -> steering_blocks now a (set_batches s t) = false) /\
    (forall r', r' ∈ t -> row_agent_id r' = a -> is_active r' = false) /\
    guidance_batches s' = sql_update (fun r' => has_id (row_batch_id r) r' && available now r')
      (set_leased (gc_consumer_id consumer)
         (i64_saturating_add now (Z.max 1 (Z.min MAX_LEASE_SECONDS lease)))
         (gc_invocation_id consumer) gen) t /\
    (exists items, load_items (guidance_items s) (row_batch_id r) = Ok items /\
       batch = batch_of_row (set_leased (gc_consumer_id consumer)
         (i64_saturating_add now (Z.max 1 (Z.min MAX_LEASE_SECONDS lease)))
         (gc_invocation_id consumer) gen r) items).
Proof.
  intros Hs E. pose proof (so_rows _ Hs) as Hok. cbv zeta.
  unfold claim_next in E.
  destruct (validate_identity _ _); [|done]. destruct (validate_id _ _); [|done].
  cbv zeta in E. destruct (negb _); [done|]. destruct (_ && negb _); [done|].
  rewrite recover_expired_spec in E by done.
  set (s1 := set_batches s _) in *.
  set (ag := normalize_agent_id (be_agent_id boundary)) in *.
  destruct (claim_in_tx _ _ _ _ _ _) as [[s2 found]|] eqn:Tx; [|done].
  apply finish_claim_Some in E as [-> ->]. unfold claim_in_tx in Tx.
  destruct (has_active_lease now ag s1) eqn:Hl; [done|].
  destruct (_ && steering_blocks now ag s1) eqn:Sb; [done|].
  destruct (select_next now ag _ s1) as [row|] eqn:Sel; [|done].
  destruct (lease_batch _ _ _ _ s1) as [[s2' b]|] eqn:L; [|done].
  injection Tx as <- <-.
  pose proof (select_next_Some _ _ _ _ _ Sel) as [Hin Hc].
  unfold lease_batch in L. destruct (bind_opt_u64 _ _) as [gen|]; [|done].
  destruct (negb _); [done|].
  assert (HE : i64_of_u64_or_max (Z.max 1 (Z.min MAX_LEASE_SECONDS lease))
               = Z.max 1 (Z.min MAX_LEASE_SECONDS lease)).
  { unfold i64_of_u64_or_max, MAX_LEASE_SECONDS, i64_max. lia. }
  rewrite HE in L. clear HE.
  destruct (load_batch _ _) as [b'|] eqn:Ld; [|done]. injection L as <- ->.
  exists row, gen. split; [done|]. split; [done|]. split; [|split; [|split; [|split]]].
  - intros r' Hr' Hc'. unfold select_next, sql_order_by in Sel.
    eapply insertion_sort_head in Sel as [_ Hmin].
    + apply Hmin. rewrite elem_of_sql_scan. by apply elem_of_lfilter.
    + intros x y z H3 H4. unfold claim_le in *. rewrite orb_true_iff, andb_true_iff in *.
      rewrite Z.ltb_lt, Z.eqb_eq, Z.leb_le in *. lia.
    + intros x y. unfold claim_le. rewrite !orb_true_iff, !andb_true_iff,
        !Z.ltb_lt, !Z.eqb_eq, !Z.leb_le. lia.
  - intros P. rewrite P in Sb. exact Sb.
  - by eapply idle_without_lease.
  - unfold append_queue_event. rewrite append_batches.
    by rewrite emit_recovery_batches.
  - unfold load_batch in Ld.
    destruct (sql_first _) as [r0|] eqn:F; [|done]. cbn in Ld.
    destruct (load_items _ _) as [items|] eqn:Li; [|done]. injection Ld as <-.
    exists items. split; [done|]. f_equal.
    apply sql_first_Some, elem_of_lfilter in F as [F Fid].
    apply elem_of_sql_update in F as (r1 & Hr1 & ->).
    assert (row_batch_id r1 = row_batch_id row) as Eid.
    { apply has_id_true in Fid. by destruct (_ && _) in Fid. }
    assert (r1 = row) as ->.
    { eapply rows_ok_same; [|done|done|done]. apply (q_ok _ _ _ (recover_quiet (fun _ => False) now s Hok)). }
    unfold claimable in Hc. apply andb_true_iff in Hc as [Hc _].
    apply andb_true_iff in Hc as [_ Hc]. rewrite Hc.
    replace (has_id (row_batch_id row) row) with true by (symmetry; by apply has_id_true).
    done.
Qed.

(** The parts of a claimable row. *)
Lemma claimable_true now a phase r :
  claimable now a phase r = true <->
  row_agent_id r = a /\ available now r = true /\
  (phase = TurnFinished -> row_queue_class r = Steering).
Proof.
  unfold claimable, class_filter. rewrite !andb_true_iff, for_agent_true.
  destruct phase; rewrite ?in_class_true; intuition congruence.
Qed.

Lemma steering_blocks_false now a s :
  steering_blocks now a s = false <->
  forall r, r ∈ guidance_batches s -> row_agent_id r = a -> row_queue_class r = Steering ->
  row_state r = Pending ->
  exists r', r' ∈ guidance_batches s /\ row_agent_id r' = a /\
    row_queue_class r' = Steering /\ available now r' = true.
Proof.
  unfold steering_blocks, sql_exists. rewrite andb_false_iff, negb_false_iff, existsb_false,
    existsb_elem.
  split.
  - intros [Hn|(r' & Hr' & E)] r Hr Ha Hc Hp.
    + specialize (Hn r Hr). apply for_agent_true in Ha. apply in_class_true in Hc.
      apply in_state_true in Hp. by rewrite Ha, Hc, Hp in Hn.
    + exists r'. rewrite !andb_true_iff, for_agent_true, in_class_true in E. naive_solver.
  - intros Hall.
    destruct (existsb (fun r => for_agent a r && in_class Steering r && in_state Pending r)
                (guidance_batches s)) eqn:E.
    + apply existsb_elem in E as (r & Hr & E). where_facts.
      destruct (Hall r) as (r' & Hr' & Ha' & Hc' & Av); [done..|].
      right. exists r'. apply for_agent_true in Ha'. apply in_class_true in Hc'.
      by rewrite Ha', Hc', Av.
    + left. by apply existsb_false.
Qed.

(** ** When a claim succeeds *)

(** The conditions of a claim, on the table after lease recovery. *)
Definition claim_ready now a (phase : BoundaryPhase) (t : list BatchRow) : Prop :=
  (phase = TurnFinished \/ phase = WouldStop) /\
  (forall r, r ∈ t -> row_agent_id r = a -> is_active r = false) /\
  (phase = WouldStop -> forall r, r ∈ t -> row_agent_id r = a ->
     row_queue_class r = Steering -> row_state r = Pending ->
     exists r', r' ∈ t /\ row_agent_id r' = a /\ row_queue_class r' = Steering /\
       available now r' = true) /\
  exists r, r ∈ t /\ claimable now a phase r = true.

Lemma has_active_lease_idle now a s :
  (forall r, r ∈ guidance_batches s -> row_agent_id r = a -> is_active r = false) ->
  has_active_lease now a s = false.
Proof.
  intros Hn. apply existsb_false. intros r Hr.
  destruct (for_agent a r) eqn:E; [|done]. apply for_agent_true in E.
  by rewrite (Hn r Hr E).
Qed.

Lemma select_next_total now a phase s r :
  r ∈ guidance_batches s -> claimable now a phase r = true ->
  exists r', select_next now a phase s = Some r'.
Proof.
  intros Hr Hc. unfold select_next, sql_order_by.
  destruct (head _) eqn:E; [eauto|]. apply insertion_sort_nil in E.
  assert (r ∈ sql_scan (sql_where (claimable now a phase) (guidance_batches s))) as Hin.
  { apply elem_of_sql_scan, elem_of_lfilter. done. }
  rewrite E in Hin. by apply elem_of_nil in Hin.
Qed.

(** Leasing an available row of a well-formed store succeeds. *)
Lemma lease_batch_total now e consumer r s :
  store_ok s -> r ∈ guidance_batches s -> available now r = true ->
  (forall g, gc_generation consumer = Some g -> (g <= i64_max)%Z) ->
  exists s' b, lease_batch now e consumer (row_batch_id r) s = Ok (s', b).
Proof.
  intros Hs Hr Av Hg. pose proof (so_rows _ Hs) as Hok. unfold lease_batch, bind_opt_u64.
  assert (exists g, (match gc_generation consumer with
     | Some n => match sql_bind_u64 n with
                 | Some m => Ok (Some m) | None => Err "failed to lease guidance batch" end
     | None => Ok None end) = Ok g) as [g ->].
  { destruct (gc_generation consumer) as [n|]; [|eauto].
    rewrite sql_bind_u64_ok by auto. eauto. }
  unfold sql_count. change (List.filter ?q ?l) with (sql_where q l).
  set (p := fun r' => has_id (row_batch_id r) r' && available now r').
  assert (Hp : p r = true).
  { unfold p. rewrite Av. by replace (has_id _ r) with true by (symmetry; by apply has_id_true). }
  assert (Hid : forall r', p r' = true -> row_batch_id r' = row_batch_id r)
    by (intros r' E; unfold p in E; by where_facts).
  rewrite (where_only _ r) by done. cbn [List.length]. cbn [negb Z.eqb Z.of_nat Pos.eqb Pos.of_succ_nat].
  rewrite (update_only _ r) by done. set (f := set_leased _ _ _ _).
  destruct (load_batch_written s r f) as (its & _ & E); [done..|].
  unfold write_row in E. rewrite E. eauto.
Qed.

(** The expiry a claim writes: the requested lease clamped to 1..300 s. *)
Definition claim_expiry (now lease : Z) : Z :=
  i64_saturating_add now (Z.max 1 (Z.min MAX_LEASE_SECONDS lease)).

Definition valid_claim (boundary : BoundaryEvidence) (consumer : GuidanceConsumer) : Prop :=
  validate_identity (be_agent_id boundary) "boundary agent" = Ok tt /\
  validate_id (gc_consumer_id consumer) "consumer id" = Ok tt /\
  (forall g, gc_generation consumer = Some g -> (g <= i64_max)%Z).

Lemma claim_next_ready now boundary consumer lease s :
  store_ok s -> valid_claim boundary consumer ->
  claim_ready now (normalize_agent_id (be_agent_id boundary)) (be_phase boundary)
    (recover_rows now (guidance_batches s)) ->
  exists batch, (claim_next now boundary consumer lease s).2 = Returns (Ok (Some batch)).
Proof.
  intros Hs (V1 & V2 & Vg) (Ph & Idle & Blk & r & Hr & Hc).
  unfold claim_next. rewrite V1, V2. cbv zeta.
  rewrite recover_expired_spec by apply Hs. unfold claim_in_tx.
  set (s1 := set_batches s _). set (a := normalize_agent_id _) in *.
  rewrite has_active_lease_idle by done.
  replace ((match be_phase boundary with WouldStop => true | _ => false end)
           && steering_blocks now a s1) with false.
  2:{ symmetry. destruct (be_phase boundary); try done. cbn.
      apply steering_blocks_false. by apply Blk. }
  destruct (select_next_total now a (be_phase boundary) s1 r Hr Hc) as [r' Sel].
  rewrite Sel. apply select_next_Some in Sel as [Hr' Hc'].
  apply claimable_true in Hc' as (_ & Av & _).
  assert (store_ok s1) as Hs1.
  { eapply store_ok_quiet; [exact Hs|]. apply (recover_quiet (fun _ => False)), Hs. }
  edestruct (lease_batch_total now) as (s2 & b & ->); [exact Hs1|exact Hr'|exact Av|exact Vg|].
  exists b. by destruct Ph as [-> | ->].
Qed.

Lemma expired_ids_elem now t :
  (exists e, e ∈ map (fun r => (row_batch_id r, recovery_state (row_attempt_count r)))
                   (expired_rows now t) /\
             is_ok (validate_id e.1 "batch id") = true) <->
  exists r, r ∈ t /\ expired_row now r = true /\
    validate_id (row_batch_id r) "batch id" = Ok tt.
Proof.
  split.
  - intros (e & (r & -> & Hr)%list_elem_of_fmap & V). exists r.
    apply elem_of_expired_rows in Hr as [Hr X]. split; [done|]. split; [done|].
    cbn in V. by destruct (validate_id _ _) as [[]|].
  - intros (r & Hr & X & V). eexists. split.
    + apply list_elem_of_fmap. exists r. split; [done|]. by apply elem_of_expired_rows.
    + cbn. by rewrite V.
Qed.

(** A valid claim at an offering boundary that hands nothing out ends with the
    recovery events, the connection still held. *)
Lemma claim_next_empty now boundary consumer lease s :
  store_ok s -> valid_claim boundary consumer ->
  BoundaryPhase.can_offer_steering (be_phase boundary) = true ->
  (exists batch, (claim_next now boundary consumer lease s).2 = Returns (Ok (Some batch))) \/
  claim_next now boundary consumer lease s
  = let '(s', back) := emit_recovery_events_held
        (map (fun r => (row_batch_id r, recovery_state (row_attempt_count r)))
           (expired_rows now (guidance_batches s)))
        (set_batches s (recover_rows now (guidance_batches s))) in
    (s', if back then Returns (Ok None) else Blocks).
Proof.
  intros Hs (V1 & V2 & Vg) Ph. unfold claim_next. rewrite V1, V2, Ph. cbv zeta.
  replace (_ && negb _) with false by (by destruct (be_phase boundary)).
  cbn [negb]. rewrite recover_expired_spec by apply Hs. set (s1 := set_batches s _).
  destruct (claim_in_tx _ _ _ _ _ _) as [[s2 [b|]]|e] eqn:C.
  - left. by exists b.
  - right. unfold claim_in_tx in C. cbn [finish_claim].
    assert (s2 = s1) as ->; [|done].
    destruct (has_active_lease _ _ _); [by injection C as <-|].
    destruct (_ && steering_blocks _ _ _); [by injection C as <-|].
    destruct (select_next _ _ _ _); [|by injection C as <-].
    by destruct (lease_batch _ _ _ _ _) as [[? ?]|].
  - exfalso. unfold claim_in_tx in C. destruct (has_active_lease _ _ _); [done|].
    destruct (_ && steering_blocks _ _ _); [done|].
    destruct (select_next _ _ _ s1) as [r|] eqn:Sel; [|done].
    apply select_next_Some in Sel as [Hr (_ & Av & _)%claimable_true].
    assert (store_ok s1) as Hs1.
    { eapply store_ok_quiet; [exact Hs|]. apply (recover_quiet (fun _ => False)), Hs. }
    edestruct (lease_batch_total now) as (s2 & b & E); [exact Hs1|exact Hr|exact Av|exact Vg|].
    by rewrite E in C.
Qed.

Lemma claim_next_only_ready now boundary consumer lease s batch :
  store_ok s -> (claim_next now boundary consumer lease s).2 = Returns (Ok (Some batch)) ->
  claim_ready now (normalize_agent_id (be_agent_id boundary)) (be_phase boundary)
    (recover_rows now (guidance_batches s)).
Proof.
  intros Hs E. destruct (claim_next now boundary consumer lease s) as [s' res] eqn:C.
  cbn in E. subst res.
  pose proof (claim_next_Some _ _ _ _ _ _ _ Hs C)
    as (r & g & Hr & Hc & _ & Blk & Idle & _).
  split; [|split; [exact Idle|split; [|by exists r]]].
  - unfold claim_next in C.
    destruct (validate_identity _ _); [|done]. destruct (validate_id _ _); [|done].
    cbv zeta in C. destruct (be_phase boundary); cbn in C; auto; done.
  - intros P r0. exact (proj1 (steering_blocks_false _ _ _) (Blk P) r0).
Qed.

(** ** Properties *)

(**  When a claim hands out work.  On a well-formed store and valid
    arguments, [claim_next] returns a batch exactly when the boundary may offer
    guidance (a finished turn or a stop), the agent holds no unexpired lease
    after recovery, at a stop no steering batch is waiting out its backoff
    unless another one is due, and some batch of an offered class is due.  It
    never returns an error then. *)
Theorem claim_succeeds_iff_ready now boundary consumer lease s :
  store_ok s -> valid_claim boundary consumer ->
  (exists batch, (claim_next now boundary consumer lease s).2 = Returns (Ok (Some batch))) <->
  claim_ready now (normalize_agent_id (be_agent_id boundary)) (be_phase boundary)
    (recover_rows now (guidance_batches s)).
Proof.
  intros Hs V. split.
  - intros [batch E]. by eapply claim_next_only_ready.
  - by apply claim_next_ready.
Qed.

(** C13.  Queue order.  The batch a claim returns belongs to the boundary's
    agent and was due; a finished turn only receives steering; within its class
    it has the smallest sequence number of the due batches of the agent; and a
    follow-up batch is only handed out when the agent has no pending steering
    batch at all, not even one that is waiting for a retry. *)
Theorem claim_respects_queue_order now boundary consumer lease s s' batch :
  store_ok s -> claim_next now boundary consumer lease s = (s', Returns (Ok (Some batch))) ->
  let a := normalize_agent_id (be_agent_id boundary) in
  let due r := r ∈ recover_rows now (guidance_batches s) /\ row_agent_id r = a /\
               row_state r = Pending /\ (row_available_at r <= now)%Z in
  exists r, due r /\ gb_batch_id batch = row_batch_id r /\ gb_agent_id batch = a /\
    gb_queue_class batch = row_queue_class r /\ gb_queue_seq batch = row_queue_seq r /\
    (be_phase boundary = TurnFinished -> gb_queue_class batch = Steering) /\
    (forall r', due r' -> row_queue_class r' = row_queue_class r ->
       (row_queue_seq r <= row_queue_seq r')%Z) /\
    (gb_queue_class batch = FollowUp ->
     forall r', r' ∈ recover_rows now (guidance_batches s) -> row_agent_id r' = a ->
       row_queue_class r' = Steering -> row_state r' <> Pending).
Proof.
  intros Hs C. pose proof (claim_next_Some _ _ _ _ _ _ _ Hs C)
    as (r & g & Hr & Hc & Hmin & Blk & _ & _ & items & _ & ->). cbv zeta.
  assert (Hready : claim_ready now (normalize_agent_id (be_agent_id boundary))
            (be_phase boundary) (recover_rows now (guidance_batches s))).
  { eapply claim_next_only_ready; [done|]. by rewrite C. }
  destruct Hready as (Ph & _ & Hb & _).
  pose proof Hc as (Ha & [Hp Hav]%available_true & Hcl)%claimable_true.
  exists r. split; [done|]. split; [done|]. split; [exact Ha|]. split; [done|].
  split; [done|]. split; [exact Hcl|]. split.
  - intros r' (Hr' & Ha' & Hp' & Hav') Ec. specialize (Hmin r' Hr').
    rewrite claimable_true in Hmin. unfold claim_le in Hmin. rewrite Ec in Hmin.
    rewrite Z.ltb_irrefl, Z.eqb_refl in Hmin. cbn [orb andb] in Hmin. apply Z.leb_le, Hmin.
    split; [done|]. split; [by apply available_true|]. intros P. by apply Hcl.
  - cbn. intros F r' Hr' Ha' Ec Hp'.
    assert (P : be_phase boundary = WouldStop).
    { destruct Ph as [P|P]; [|done]. apply Hcl in P. congruence. }
    destruct (Hb P r' Hr' Ha' Ec Hp') as (r2 & Hr2 & Ha2 & Ec2 & Av2).
    specialize (Hmin r2 Hr2). rewrite claimable_true in Hmin.
    unfold claim_le in Hmin. rewrite F, Ec2 in Hmin. cbn in Hmin.
    assert (false = true) by (apply Hmin; repeat split; congruence). done.
Qed.

(** C14.  Lease exclusion.  After a successful claim the returned batch is
    leased to the consumer until [now] plus a lease between 1 and 300 seconds
    (at most [i64::MAX]); it is the agent's only leased or submitted batch; and
    every other row of the table is what lease recovery left. *)
Theorem claim_is_exclusive now boundary consumer lease s s' batch :
  store_ok s -> claim_next now boundary consumer lease s = (s', Returns (Ok (Some batch))) ->
  (exists r, r ∈ guidance_batches s' /\ row_batch_id r = gb_batch_id batch /\
     row_state r = Leased /\ row_lease_owner r = Some (gc_consumer_id consumer) /\
     row_lease_expires_at r = Some (claim_expiry now lease)) /\
  gb_state batch = Leased /\ gb_lease_owner batch = Some (gc_consumer_id consumer) /\
  gb_lease_expires_at batch = Some (claim_expiry now lease) /\
  (forall r, r ∈ guidance_batches s' ->
     row_agent_id r = normalize_agent_id (be_agent_id boundary) ->
     is_active r = true -> row_batch_id r = gb_batch_id batch) /\
  (forall r, row_batch_id r <> gb_batch_id batch ->
     r ∈ guidance_batches s' <-> r ∈ recover_rows now (guidance_batches s)).
Proof.
  intros Hs C. pose proof (claim_next_Some _ _ _ _ _ _ _ Hs C)
    as (r & g & Hr & Hc & _ & _ & Idle & Hs' & items & _ & ->).
  pose proof Hc as (Ha & Hav & _)%claimable_true.
  assert (Hid : has_id (row_batch_id r) r && available now r = true).
  { rewrite Hav. by replace (has_id _ r) with true by (symmetry; by apply has_id_true). }
  cbn. split; [|split; [done|split; [done|split; [done|split]]]].
  - eexists. split; [|split; [|split; [|split]]].
    + rewrite Hs'. apply elem_of_sql_update. exists r. split; [done|].
      by rewrite Hid.
    + done.
    + done.
    + done.
    + done.
  - intros r' Hr' Ha' Ac. rewrite Hs' in Hr'. apply elem_of_sql_update in Hr' as (r0 & Hr0 & ->).
    destruct (has_id (row_batch_id r) r0 && available now r0) eqn:E; where_facts; [done|].
    by rewrite (Idle r0 Hr0 Ha') in Ac.
  - intros r' Hne. rewrite Hs', elem_of_sql_update. split.
    + intros (r0 & Hr0 & ->). destruct (has_id (row_batch_id r) r0 && available now r0) eqn:E;
        [|done]. where_facts. cbn in Hne. congruence.
    + intros Hr'. exists r'. split; [done|].
      destruct (has_id (row_batch_id r) r' && available now r') eqn:E; [|done]. by where_facts.
Qed.
(** C23.  A claim after an expired lease can hang.  A claim that finds nothing to
    hand out emits the recovery events while it still holds the connection
    mutex that reading each recovered batch locks again.  So at an offering
    boundary, with valid arguments, the call never returns exactly when lease
    recovery moved at least one batch (of any agent) and the boundary's agent
    is not ready to claim; otherwise it returns, and without an error. *)
Theorem claim_blocks_after_recovery now boundary consumer lease s :
  store_ok s -> valid_claim boundary consumer ->
  BoundaryPhase.can_offer_steering (be_phase boundary) = true ->
  ((claim_next now boundary consumer lease s).2 = Blocks <->
   ~ claim_ready now (normalize_agent_id (be_agent_id boundary)) (be_phase boundary)
       (recover_rows now (guidance_batches s)) /\
   exists r, r ∈ guidance_batches s /\ expired_row now r = true /\
     validate_id (row_batch_id r) "batch id" = Ok tt) /\
  forall e, (claim_next now boundary consumer lease s).2 <> Returns (Err e).
Proof.
  intros Hs V Ph.
  pose proof (claim_next_ready now boundary consumer lease s Hs V) as Ready.
  pose proof (claim_next_only_ready now boundary consumer lease s) as Only.
  pose proof (emit_held_blocks
    (map (fun r => (row_batch_id r, recovery_state (row_attempt_count r)))
       (expired_rows now (guidance_batches s)))
    (set_batches s (recover_rows now (guidance_batches s)))) as Held.
  destruct (claim_next_empty now boundary consumer lease s Hs V Ph) as [[b E]|E].
  - split; [|intros e; by rewrite E]. rewrite E. split; [done|].
    intros [No _]. by destruct No; eapply Only.
  - rewrite E in *. destruct (emit_recovery_events_held _ _) as [s' back]. cbn in *.
    split; [|by destruct back].
    assert (No : ~ claim_ready now (normalize_agent_id (be_agent_id boundary))
                     (be_phase boundary) (recover_rows now (guidance_batches s))).
    { intros C. destruct (Ready C) as [b Eb]. by destruct back. }
    rewrite (expired_ids_elem now (guidance_batches s)) in Held.
    destruct back; split; try done.
    + intros [_ X]. by apply Held in X.
    + intros _. split; [done|]. by apply Held.
Qed.
End Claim.
