(* ===== verification/GuidanceLifecycle.v ===== *)
(** * Acknowledgement, transport, retry, cancellation and recovery

    The functional behaviour of the operations that move a leased batch: each
    succeeds exactly under its compare-and-set condition, writes exactly one
    row, and leaves every table alone otherwise. *)

From S2P Require Import Prelude RustStr JsonValue SqlTable GuidanceTypes Store GuidanceQueue.
From S2P Require Import GuidanceRows GuidanceSystem.
Local Open Scope string_scope.

Section Lifecycle.
Context `{SqlEngine} `{JsonText} `{EventSink}.
Implicit Types (s : InboxStore) (r : BatchRow).

(** The queue tables of two stores agree. *)
Definition same_queue s s' : Prop :=
  guidance_batches s' = guidance_batches s /\ guidance_items s' = guidance_items s.

Lemma same_queue_append t d s s' :
  same_queue s s' -> same_queue s (append_state_change t d s').
Proof. intros [??]. split; by autorewrite with store. Qed.

Lemma same_queue_refl s : same_queue s s.
Proof. done. Qed.

(** The row a batch identifier names in a well-formed store. *)
Lemma first_row s r :
  store_ok s -> r ∈ guidance_batches s ->
  sql_first (sql_where (has_id (row_batch_id r)) (guidance_batches s)) = Some r.
Proof. intros Hs Hr. apply sql_first_where_id; [apply Hs|done]. Qed.

(** ** Acknowledgement *)

Definition valid_evidence (ev : RuntimeAcceptanceEvidence) : Prop :=
  validate_id (ev_batch_id ev) "batch id" = Ok tt /\
  validate_id (ev_agent_id ev) "evidence agent" = Ok tt /\
  validate_id (ev_consumer_id ev) "consumer id" = Ok tt.

Lemma ack_authorises_matches ev s r items :
  ack_authorises ev s r -> load_items (guidance_items s) (row_batch_id r) = Ok items ->
  evidence_matches_batch (batch_of_row r items) ev = true.
Proof.
  intros (_ & _ & Ow & Ag & Cl & Inv & Gen & _ & its & L & Ids) L'.
  assert (items = its) as -> by congruence.
  unfold evidence_matches_batch, opt_eqb. cbn.
  rewrite Ow, Ag, Cl, Inv, Gen, Ids, !String.eqb_refl, !bool_decide_eq_true_2 by done. done.
Qed.

(** The evidence still matches after the acceptance cleared the lease. *)
Lemma accepted_matches now ev r items :
  evidence_matches_batch (batch_of_row r items) ev = true ->
  evidence_matches_batch (batch_of_row (set_accepted now r) items) ev = true.
Proof.
  unfold evidence_matches_batch. cbn. rewrite !andb_true_iff. destruct (row_lease_owner r); tauto.
Qed.

Lemma acknowledge_accepts now ev s r :
  store_ok s -> valid_evidence ev -> r ∈ guidance_batches s -> ack_authorises ev s r ->
  exists s', acknowledge_runtime now ev s = (s', Ok AckAccepted) /\
    same_queue (write_row (ev_batch_id ev) (set_accepted now) s) s'.
Proof.
  intros Hs (V1 & V2 & V3) Hr Au. pose proof Au as (Id & Ac & Ow & Ag & _ & _ & _ & Ex & _).
  destruct (load_batch_row s r Hs Hr) as (items & Li & _ & Lo).
  unfold acknowledge_runtime. rewrite V1, V2, V3. cbv zeta. rewrite <- Id, Lo.
  cbn [gb_agent_id gb_state batch_of_row]. rewrite Ag, String.eqb_refl. cbn [negb].
  rewrite (ack_authorises_matches _ _ _ _ Au Li), Ex. cbn [negb].
  rewrite bool_decide_eq_false_2 by (intros St; apply is_active_true in Ac as [?|?]; congruence).
  assert (bool_decide (row_state r = Leased) || bool_decide (row_state r = Submitted) = true) as ->.
  { apply is_active_true in Ac as [-> | ->]; done. }
  rewrite bool_decide_eq_true_2 by done. cbn [negb].
  unfold accept_batch, sql_count. rewrite <- Id.
  change (List.filter ?p ?t) with (sql_where p t).
  set (p := fun r' => has_id (row_batch_id r) r' && is_active r'
                      && owned_by (ev_consumer_id ev) r').
  assert (Hp : p r = true).
  { unfold p. rewrite Ac. apply owned_by_true in Ow. rewrite Ow.
    by replace (has_id _ r) with true by (symmetry; by apply has_id_true). }
  assert (Hid : forall r', p r' = true -> row_batch_id r' = row_batch_id r)
    by (intros r' E; unfold p in E; by where_facts).
  rewrite (where_only _ r), (update_only _ r) by (done || apply Hs).
  cbn [List.length negb Z.eqb Z.of_nat Pos.eqb Pos.of_succ_nat transaction].
  eexists. split; [done|]. by do 2 apply same_queue_append.
Qed.

(** Every other outcome leaves the queue alone. *)
Lemma acknowledge_cases now ev s s' res :
  store_ok s -> acknowledge_runtime now ev s = (s', res) ->
  (res <> Ok AckAccepted /\ same_queue s s') \/
  (res = Ok AckAccepted /\ exists r, r ∈ guidance_batches s /\ ack_authorises ev s r).
Proof.
  intros Hs E. pose proof (so_rows _ Hs) as Hok. unfold acknowledge_runtime, transaction in E.
  destruct (validate_id (ev_batch_id ev) _); [|left; by injection E as <- <-].
  destruct (validate_id (ev_agent_id ev) _); [|left; by injection E as <- <-].
  destruct (validate_id (ev_consumer_id ev) _); [|left; by injection E as <- <-].
  cbv zeta in E. destruct (load_batch_optional _ _) as [[b|]|] eqn:L;
    [|left; by injection E as <- <-|left; by injection E as <- <-].
  apply load_batch_optional_Some in L as (row & items & Hrow & Hid & L & ->).
  destruct (negb (String.eqb _ _)); [left; by injection E as <- <-|].
  destruct (bool_decide (_ = Accepted)).
  { left. injection E as <- <-. by destruct (evidence_matches_batch _ _). }
  destruct (negb (_ || _)); [left; by injection E as <- <-|].
  destruct (evidence_matches_batch _ _) eqn:M; cbn [negb] in E; [|left; by injection E as <- <-].
  destruct (bool_decide (ev_confidence ev = Exact)) eqn:C; cbn [negb] in E.
  2:{ left. injection E as <- <-. split; [done|]. by apply same_queue_append. }
  unfold accept_batch in E. bool_facts.
  destruct (negb _) eqn:N; [left; by injection E as <- <-|].
  right. injection E as _ <-. split; [done|]. bool_facts. unfold sql_count in N.
  destruct (List.filter _ _) as [|r l] eqn:F; [done|].
  assert (r ∈ List.filter (fun r => has_id (ev_batch_id ev) r && is_active r
                  && owned_by (ev_consumer_id ev) r) (guidance_batches s)) as [Hr E]%elem_of_lfilter
    by (rewrite F; set_solver).
  exists r. split; [done|].
  eapply evidence_matches_authorises; [exact Hok|exact Hrow|done|exact Hid|exact L|exact M|done|exact E].
Qed.

Lemma write_row_ok A s r f :
  store_ok s -> r ∈ guidance_batches s -> row_step A r (f r) ->
  (is_active (f r) = true -> is_active r = true) -> store_ok (write_row (row_batch_id r) f s).
Proof.
  intros Hs Hr St Ac. eapply store_ok_quiet; [exact Hs|]. apply (quiet_update A); [apply Hs|].
  intros r' Hr' _ E. apply has_id_true in E.
  by assert (r' = r) as -> by (eapply rows_ok_same; [apply Hs|done..]).
Qed.

Lemma same_queue_ok s s' : same_queue s s' -> store_ok s -> store_ok s'.
Proof. intros [Eb Ei] [Hr Hi Hf Ha]. constructor; rewrite ?Eb, ?Ei; auto. Qed.

(** A repeated acknowledgement. *)
Lemma acknowledge_again now now' ev s s' :
  store_ok s -> acknowledge_runtime now ev s = (s', Ok AckAccepted) ->
  acknowledge_runtime now' ev s' = (s', Ok AckAlreadyAccepted).
Proof.
  intros Hs E. assert (V : valid_evidence ev).
  { unfold acknowledge_runtime, transaction in E. unfold valid_evidence.
    destruct (validate_id (ev_batch_id ev) _) as [[]|]; [|done].
    destruct (validate_id (ev_agent_id ev) _) as [[]|]; [|done].
    by destruct (validate_id (ev_consumer_id ev) _) as [[]|]. }
  destruct (acknowledge_cases _ _ _ _ _ Hs E) as [[? _]|(_ & r & Hr & Au)]; [done|].
  destruct (acknowledge_accepts now _ _ _ Hs V Hr Au) as (s2 & E2 & Q).
  rewrite E in E2. injection E2 as <-.
  pose proof Au as (Id & Ac & _ & Ag & _).
  assert (Hs' : store_ok s').
  { eapply same_queue_ok; [exact Q|]. rewrite <- Id.
    apply (write_row_ok (fun _ => True)); [done|done|by apply step_accept|done]. }
  assert (Hr' : set_accepted now r ∈ guidance_batches s').
  { destruct Q as [-> _]. rewrite <- Id. apply write_row_elem; [apply Hs|done|by left]. }
  destruct (load_batch_row _ _ Hs' Hr') as (items & Li & _ & Lo).
  destruct V as (V1 & V2 & V3). unfold acknowledge_runtime. rewrite V1, V2, V3. cbv zeta.
  cbn [row_batch_id set_accepted] in Lo, Li. rewrite <- Id, Lo.
  cbn [gb_agent_id gb_state batch_of_row set_accepted row_agent_id row_state].
  rewrite Ag, String.eqb_refl. cbn [negb]. rewrite bool_decide_eq_true_2 by done.
  destruct Q as [_ Qi]. rewrite Qi in Li.
  rewrite accepted_matches; [done|]. eapply ack_authorises_matches; [exact Au|exact Li].
Qed.

(** ** Transport, retry, cancellation: the outcome on a known row *)

Definition valid_attempt (id c : string) (attempt : TransportAttempt) : Prop :=
  validate_id id "batch id" = Ok tt /\ validate_id c "consumer id" = Ok tt /\
  validate_id (ta_method attempt) "transport method" = Ok tt /\
  forall d, ta_detail attempt = Some d -> validate_text d MAX_REASON_BYTES "transport detail" = Ok tt.

Lemma leased_attempts s r :
  store_ok s -> r ∈ guidance_batches s -> row_state r = Leased ->
  (0 <= row_attempt_count r < MAX_RETRY_ATTEMPTS)%Z.
Proof.
  intros Hs Hr St. pose proof (ok_rows _ (so_rows _ Hs)) as Hrow.
  rewrite Forall_forall in Hrow. destruct (Hrow _ Hr) as [_ Hst].
  rewrite St in Hst. apply Hst.
Qed.

Lemma transport_leased now c attempt s r :
  store_ok s -> r ∈ guidance_batches s -> valid_attempt (row_batch_id r) c attempt ->
  row_state r = Leased -> row_lease_owner r = Some c ->
  exists s', record_transport_attempt now (row_batch_id r) c attempt s
               = (s', Ok (row_attempt_count r + 1)%Z) /\
    same_queue (write_row (row_batch_id r)
      (set_submitted (row_attempt_count r + 1) (i64_saturating_add now MAX_RETRY_BACKOFF_SECONDS)) s) s'.
Proof.
  intros Hs Hr (V1 & V2 & V3 & V4) St Ow. pose proof (leased_attempts _ _ Hs Hr St) as Hn.
  unfold record_transport_attempt. rewrite V1, V2, V3. cbv zeta.
  assert ((match ta_detail attempt with
           | Some detail => validate_text detail MAX_REASON_BYTES "transport detail"
           | None => Ok tt end) = Ok tt) as -> by (destruct (ta_detail attempt); auto).
  rewrite first_row by done. cbn [option_context].
  rewrite (proj2 (in_state_true _ _) St), (proj2 (owned_by_true _ _) Ow). cbn [negb orb].
  assert (i64_checked_add (row_attempt_count r) 1 = Some (row_attempt_count r + 1)%Z) as ->.
  { unfold i64_checked_add, i64_min, i64_max. unfold MAX_RETRY_ATTEMPTS in Hn.
    destruct (andb _ _) eqn:E; [done|]. rewrite andb_false_iff, !Z.leb_gt in E. lia. }
  cbn [option_context]. set (f := set_submitted _ _).
  rewrite (update_only _ r); [|apply Hs|done| |].
  - destruct (load_batch_written s r f) as (items & _ & L); [done..|].
    unfold write_row in L. rewrite L. cbn [transaction]. eexists. split; [done|].
    by do 2 apply same_queue_append.
  - rewrite !andb_true_iff. split_and!;
      [by apply has_id_true|by apply in_state_true|by apply owned_by_true].
  - intros r' E. by where_facts.
Qed.

Lemma transport_not_leased now c attempt s r :
  store_ok s -> r ∈ guidance_batches s -> valid_attempt (row_batch_id r) c attempt ->
  ~ (row_state r = Leased /\ row_lease_owner r = Some c) ->
  record_transport_attempt now (row_batch_id r) c attempt s
  = (s, Err "guidance batch is not leased by this consumer").
Proof.
  intros Hs Hr (V1 & V2 & V3 & V4) Hn.
  unfold record_transport_attempt. rewrite V1, V2, V3. cbv zeta.
  assert ((match ta_detail attempt with
           | Some detail => validate_text detail MAX_REASON_BYTES "transport detail"
           | None => Ok tt end) = Ok tt) as -> by (destruct (ta_detail attempt); auto).
  rewrite first_row by done. cbn [option_context].
  destruct (in_state Leased r) eqn:E1; [|done]. destruct (owned_by c r) eqn:E2; [|done].
  where_facts. naive_solver.
Qed.

Definition valid_release (id c reason : string) : Prop :=
  validate_id id "batch id" = Ok tt /\ validate_id c "consumer id" = Ok tt /\
  validate_text reason MAX_REASON_BYTES "retry reason" = Ok tt.

(** The row a release writes. *)
Definition released_row (now : Z) (reason : string) (at_ : Z) r : BatchRow :=
  if (MAX_RETRY_ATTEMPTS <=? row_attempt_count r)%Z
  then set_released Abandoned (Z.max at_ now) (Some now) (Some reason) r
  else set_released Pending (Z.max at_ now) None None r.

Lemma release_active now c reason at_ s r :
  store_ok s -> r ∈ guidance_batches s -> valid_release (row_batch_id r) c reason ->
  is_active r = true -> row_lease_owner r = Some c ->
  exists s', release_for_retry now (row_batch_id r) c reason at_ s
               = (s', Ok (row_state (released_row now reason at_ r))) /\
    same_queue (write_row (row_batch_id r) (fun _ => released_row now reason at_ r) s) s'.
Proof.
  intros Hs Hr (V1 & V2 & V3) Ac Ow. unfold release_for_retry. rewrite V1, V2, V3. cbv zeta.
  rewrite first_row by done. cbn [option_context].
  rewrite Ac, (proj2 (owned_by_true _ _) Ow). cbn [negb orb].
  destruct (load_batch_row s r Hs Hr) as (items & _ & -> & _).
  set (st := if (MAX_RETRY_ATTEMPTS <=? row_attempt_count r)%Z then Abandoned else Pending).
  set (f := set_released st _ _ _).
  assert (Hf : f r = released_row now reason at_ r).
  { unfold f, st, released_row. by destruct (MAX_RETRY_ATTEMPTS <=? _)%Z. }
  rewrite (update_only _ r); [|apply Hs|done| |].
  2:{ rewrite !andb_true_iff. split_and!; [by apply has_id_true|done|by apply owned_by_true]. }
  2:{ intros r' E. by where_facts. }
  assert (sql_update (has_id (row_batch_id r)) f (guidance_batches s)
          = sql_update (has_id (row_batch_id r)) (fun _ => released_row now reason at_ r)
              (guidance_batches s)) as ->.
  { unfold sql_update. apply map_ext_in. intros r' Hr'%list_elem_of_In.
    destruct (has_id (row_batch_id r) r') eqn:E; [|done]. apply has_id_true in E.
    assert (r' = r) as -> by (eapply rows_ok_same; [apply Hs|done..]). done. }
  replace (row_state (released_row now reason at_ r)) with st by by rewrite <- Hf.
  cbn [transaction]. eexists. split; [done|]. unfold append_queue_event.
  destruct (MAX_RETRY_ATTEMPTS <=? row_attempt_count r)%Z; by repeat apply same_queue_append.
Qed.

Lemma release_not_owned now c reason at_ s r :
  store_ok s -> r ∈ guidance_batches s -> valid_release (row_batch_id r) c reason ->
  ~ (is_active r = true /\ row_lease_owner r = Some c) ->
  release_for_retry now (row_batch_id r) c reason at_ s
  = (s, Err "guidance batch is not retryable for this consumer").
Proof.
  intros Hs Hr (V1 & V2 & V3) Hn. unfold release_for_retry. rewrite V1, V2, V3. cbv zeta.
  rewrite first_row by done. cbn [option_context].
  destruct (is_active r) eqn:E1; [|done]. destruct (owned_by c r) eqn:E2; [|done].
  where_facts. naive_solver.
Qed.

Lemma cancel_outcome now reason s r :
  store_ok s -> r ∈ guidance_batches s -> validate_id (row_batch_id r) "batch id" = Ok tt ->
  validate_text reason MAX_REASON_BYTES "cancel reason" = Ok tt ->
  if GuidanceState.is_terminal (row_state r)
  then cancel_batch now (row_batch_id r) reason s = (s, Ok (row_state r))
  else exists s', cancel_batch now (row_batch_id r) reason s = (s', Ok Cancelled) /\
         same_queue (write_row (row_batch_id r) (set_cancelled now reason) s) s'.
Proof.
  intros Hs Hr V1 V2. unfold cancel_batch. rewrite V1, V2. cbv zeta.
  rewrite first_row by done. cbn [option_context].
  destruct (GuidanceState.is_terminal (row_state r)) eqn:T; [done|].
  destruct (load_batch_row s r Hs Hr) as (items & _ & -> & _).
  rewrite (update_only _ r); [|apply Hs|done| |].
  - cbn [transaction]. eexists. split; [done|]. by apply same_queue_append.
  - rewrite andb_true_iff. split; [by apply has_id_true|].
    unfold is_active, in_state. by destruct (row_state r).
  - intros r' E. apply andb_true_iff in E as [E _]. by apply has_id_true.
Qed.

(** ** Lease recovery *)

Lemma emit_recovery_same_queue l s : same_queue s (emit_recovery_events l s).
Proof.
  unfold emit_recovery_events. revert s.
  assert (Htrans : forall s1 s2 s3, same_queue s1 s2 -> same_queue s2 s3 -> same_queue s1 s3).
  { intros s1 s2 s3 [? ?] [? ?]. split; congruence. }
  induction l as [|[id st] l IH]; intros s; cbn [fold_left]; [done|].
  eapply Htrans; [|apply IH]. unfold emit_recovery_event, append_queue_event.
  case_bool_decide; by repeat apply same_queue_append.
Qed.

Lemma recover_rows_none now t r :
  r ∈ recover_rows now t -> expired_row now r = false.
Proof.
  intros (r0 & Hr0 & ->)%elem_of_sql_update. destruct (expired_row now r0) eqn:E; [|done].
  unfold expired_row. by rewrite recover_row_inactive.
Qed.

(** [1 << n] with [n] clamped to 0..8 stays below the cap. *)
Lemma retry_backoff_pow n :
  (0 <= n <= 8)%Z -> retry_backoff_seconds n = (2 ^ n)%Z.
Proof.
  intros Hn. unfold retry_backoff_seconds, MAX_RETRY_BACKOFF_SECONDS.
  replace (Z.max 0 (Z.min 8 n)) with n by lia. rewrite Z.shiftl_1_l.
  assert (2 ^ n <= 2 ^ 8)%Z by (apply Z.pow_le_mono_r; lia). lia.
Qed.

Lemma retry_backoff_range n : (1 <= retry_backoff_seconds n <= 256)%Z.
Proof.
  unfold retry_backoff_seconds. set (e := Z.max 0 (Z.min 8 n)).
  assert (0 <= e <= 8)%Z as He by lia. fold (retry_backoff_seconds e).
  change (1 <= Z.min (Z.shiftl 1 e) MAX_RETRY_BACKOFF_SECONDS <= 256)%Z.
  rewrite Z.shiftl_1_l. unfold MAX_RETRY_BACKOFF_SECONDS.
  assert (2 ^ 0 <= 2 ^ e <= 2 ^ 8)%Z by (split; apply Z.pow_le_mono_r; lia). lia.
Qed.

(** C1.  Acknowledgement is an exact compare-and-set.  On a well-formed store
    [acknowledge_runtime] answers [Accepted] exactly when a leased or submitted
    row exists that the evidence names completely (batch, agent, class, item
    list, lease owner, invocation and generation as the claim captured them)
    and the confidence is exact.  Then exactly that row becomes accepted, with
    its lease cleared; under any other answer or error both queue tables are
    what they were. *)
Theorem acknowledge_is_exact_cas now ev s :
  store_ok s -> valid_evidence ev ->
  let '(s', res) := acknowledge_runtime now ev s in
  (res = Ok AckAccepted <-> exists r, r ∈ guidance_batches s /\ ack_authorises ev s r) /\
  (res = Ok AckAccepted -> same_queue (write_row (ev_batch_id ev) (set_accepted now) s) s') /\
  (res <> Ok AckAccepted -> same_queue s s').
Proof.
  intros Hs V. destruct (acknowledge_runtime now ev s) as [s' res] eqn:E.
  destruct (acknowledge_cases _ _ _ _ _ Hs E) as [[Hne Q]|(-> & r & Hr & Au)].
  - split; [|split; [done|done]]. split; [done|]. intros (r & Hr & Au).
    destruct (acknowledge_accepts now _ _ _ Hs V Hr Au) as (s2 & E2 & _). congruence.
  - destruct (acknowledge_accepts now _ _ _ Hs V Hr Au) as (s2 & E2 & Q).
    rewrite E in E2. injection E2 as <-. split; [split; eauto|]. split; [done|done].
Qed.

(** Acknowledgement is idempotent.  The acknowledgement that accepted a
    batch, delivered again at any later time, is answered [AlreadyAccepted] and
    changes nothing, neither a table nor the event ledger. *)
Theorem acknowledge_idempotent now now' ev s s' :
  store_ok s -> acknowledge_runtime now ev s = (s', Ok AckAccepted) ->
  acknowledge_runtime now' ev s' = (s', Ok AckAlreadyAccepted).
Proof. apply acknowledge_again. Qed.

(**  Transport never accepts.  On a well-formed store a recorded transport
    attempt succeeds exactly on a batch the consumer holds leased, whatever the
    transport's own outcome was; it then counts one attempt (never more than
    8, and the counter cannot overflow), leaves the batch submitted, not
    accepted, and extends the lease to 300 seconds from now.  On any other row
    it is refused and the store does not change. *)
Theorem transport_submits_leased_batch now c attempt s r :
  store_ok s -> r ∈ guidance_batches s -> valid_attempt (row_batch_id r) c attempt ->
  let n := (row_attempt_count r + 1)%Z in
  let '(s', res) := record_transport_attempt now (row_batch_id r) c attempt s in
  if bool_decide (row_state r = Leased /\ row_lease_owner r = Some c)
  then res = Ok n /\ (1 <= n <= MAX_RETRY_ATTEMPTS)%Z /\
       same_queue (write_row (row_batch_id r)
         (set_submitted n (i64_saturating_add now MAX_RETRY_BACKOFF_SECONDS)) s) s'
  else s' = s /\ res = Err "guidance batch is not leased by this consumer".
Proof.
  intros Hs Hr V n. case_bool_decide as C.
  - destruct C as [St Ow].
    destruct (transport_leased now c attempt s r Hs Hr V St Ow) as (s' & -> & Q).
    split; [done|]. pose proof (leased_attempts _ _ Hs Hr St). split; [lia|done].
  - by rewrite (transport_not_leased now c attempt s r Hs Hr V C).
Qed.

(**  Retry budget.  On a well-formed store the owner of a leased or
    submitted batch may give it back: the batch becomes pending again, due no
    earlier than now, while fewer than 8 attempts were recorded, and is
    abandoned with its reason from the eighth on; its lease is cleared and its
    attempt count kept.  Anyone else is refused and nothing changes. *)
Theorem release_spends_retry_budget now c reason at_ s r :
  store_ok s -> r ∈ guidance_batches s -> valid_release (row_batch_id r) c reason ->
  let '(s', res) := release_for_retry now (row_batch_id r) c reason at_ s in
  if bool_decide (is_active r = true /\ row_lease_owner r = Some c)
  then res = Ok (if (row_attempt_count r <? 8)%Z then Pending else Abandoned) /\
       exists r', same_queue (write_row (row_batch_id r) (fun _ => r') s) s' /\
         row_key r' = row_key r /\ Ok (row_state r') = res /\
         row_attempt_count r' = row_attempt_count r /\ row_lease_owner r' = None /\
         row_lease_expires_at r' = None /\ (now <= row_available_at r')%Z /\
         row_terminal_reason r' =
           (if (row_attempt_count r <? 8)%Z then None else Some reason)
  else s' = s /\ res = Err "guidance batch is not retryable for this consumer".
Proof.
  intros Hs Hr V. case_bool_decide as C.
  - destruct C as [Ac Ow].
    destruct (release_active now c reason at_ s r Hs Hr V Ac Ow) as (s' & -> & Q).
    assert (MAX_RETRY_ATTEMPTS <=? row_attempt_count r = negb (row_attempt_count r <? 8))%Z as E.
    { unfold MAX_RETRY_ATTEMPTS. by rewrite Z.leb_antisym. }
    split.
    + unfold released_row. rewrite E. by destruct (row_attempt_count r <? 8)%Z.
    + exists (released_row now reason at_ r). split; [exact Q|].
      unfold released_row. rewrite E.
      destruct (row_attempt_count r <? 8)%Z; cbn; repeat split; lia.
  - by rewrite (release_not_owned now c reason at_ s r Hs Hr V C).
Qed.

(** Cancellation.  On a well-formed store [cancel_batch] returns the state
    of a terminal batch without touching it, and cancels every other batch,
    leased or not, writing only its row. *)
Theorem cancel_is_final now reason s r :
  store_ok s -> r ∈ guidance_batches s -> validate_id (row_batch_id r) "batch id" = Ok tt ->
  validate_text reason MAX_REASON_BYTES "cancel reason" = Ok tt ->
  let '(s', res) := cancel_batch now (row_batch_id r) reason s in
  if GuidanceState.is_terminal (row_state r)
  then s' = s /\ res = Ok (row_state r)
  else res = Ok Cancelled /\
       same_queue (write_row (row_batch_id r) (set_cancelled now reason) s) s'.
Proof.
  intros Hs Hr V1 V2. pose proof (cancel_outcome now reason s r Hs Hr V1 V2) as Hc.
  destruct (GuidanceState.is_terminal (row_state r)).
  - by rewrite Hc.
  - destruct Hc as (s' & -> & Q). done.
Qed.

(**  Lease recovery.  The source's loop of one [UPDATE] per expired row
    computes the set-at-a-time recovery: every leased or submitted row whose
    lease has run out, and no other, is released, once; with 8 attempts it is
    abandoned with reason [lease_expired_retry_budget], with [n < 8] it is
    pending again [2^n] seconds from now.  Afterwards no expired lease is left
    and the returned identifiers are those of the recovered rows. *)
Theorem recovery_releases_expired now s :
  store_ok s ->
  let '(s', res) := recover_expired_leases now s in
  guidance_batches s' =
    map (fun r =>
      if is_active r && lease_expired now r then
        if (8 <=? row_attempt_count r)%Z
        then set_released Abandoned now (Some now) (Some "lease_expired_retry_budget") r
        else set_released Pending (i64_saturating_add now (2 ^ row_attempt_count r)) None None r
      else r) (guidance_batches s) /\
  guidance_items s' = guidance_items s /\
  (forall r, r ∈ guidance_batches s' -> is_active r && lease_expired now r = false) /\
  exists ids, res = Ok ids /\
    ids ≡ₚ map row_batch_id
             (List.filter (fun r => is_active r && lease_expired now r) (guidance_batches s)).
Proof.
  intros Hs. unfold recover_expired_leases. rewrite recover_expired_spec by apply Hs.
  set (l := map _ _).
  destruct (emit_recovery_same_queue l (set_batches s (recover_rows now (guidance_batches s))))
    as [Eb Ei].
  rewrite Eb, Ei. cbn [guidance_batches guidance_items set_batches].
  split; [|split; [done|split]].
  - unfold recover_rows, sql_update. apply map_ext_in. intros r Hr%list_elem_of_In.
    change (is_active r && lease_expired now r) with (expired_row now r).
    destruct (expired_row now r) eqn:E; [|done]. unfold recover_row, recovery_state.
    change MAX_RETRY_ATTEMPTS with 8%Z. destruct (8 <=? row_attempt_count r)%Z eqn:B; [done|].
    rewrite retry_backoff_pow; [done|]. bool_facts.
    apply expired_row_active, is_active_true in E.
    pose proof (ok_rows _ (so_rows _ Hs)) as Hrow. rewrite Forall_forall in Hrow.
    destruct (Hrow _ Hr) as [_ Hst]. destruct E as [St|St]; rewrite St in Hst;
      destruct_and?; lia.
  - apply recover_rows_none.
  - eexists. split; [done|]. unfold l, expired_rows. rewrite map_map. cbn [fst].
    by rewrite sql_scan_perm.
Qed.
End Lifecycle.
