(* ===== verification/GuidanceEnqueue.v ===== *)
(** * The durable guidance queue: enqueue

    Functional behaviour of [enqueue_batch]: what a new batch looks like, what
    an idempotent replay returns, and that a committed enqueue preserves the
    store invariant. *)

From S2P Require Import Prelude RustStr JsonValue SqlTable GuidanceTypes Store Topic.
From S2P Require Import GuidanceQueue GuidanceRows GuidanceSystem.
From Stdlib Require Import Sorting.Sorted.
Local Open Scope string_scope.

Section Enqueue.
Context `{SqlEngine} `{JsonText} `{EventSink}.
Implicit Types (s : InboxStore) (u : nat -> string).

(** The rows the insertion loop writes, and what they decode to. *)
Definition item_row u batch_id (position : nat) (item : GuidanceItemInput) : ItemRow := {|
  irow_batch_id := batch_id; irow_position := Z.of_nat position;
  irow_item_id := u position; irow_from_agent := in_from_agent item;
  irow_content := in_content item; irow_summary := in_summary item;
  irow_injection_options := json_to_string (in_injection_options item) |}.

Fixpoint item_rows u batch_id (position : nat) (items : list GuidanceItemInput)
  : list ItemRow :=
  match items with
  | [] => []
  | item :: rest => item_row u batch_id position item :: item_rows u batch_id (S position) rest
  end.

Definition loaded_item u (position : nat) (item : GuidanceItemInput) : GuidanceItem := {|
  it_item_id := u position; it_position := Z.of_nat position;
  it_from_agent := in_from_agent item; it_content := in_content item;
  it_summary := in_summary item; it_injection_options := in_injection_options item |}.

Fixpoint loaded_items u (position : nat) (items : list GuidanceItemInput)
  : list GuidanceItem :=
  match items with
  | [] => []
  | item :: rest => loaded_item u position item :: loaded_items u (S position) rest
  end.

Lemma loaded_items_length u k items :
  List.length (loaded_items u k items) = List.length items.
Proof. revert k. induction items; intros k; cbn; auto. Qed.

Lemma decode_item_rows u id k items :
  collect decode_item (item_rows u id k items) = Ok (loaded_items u k items).
Proof.
  revert k. induction items as [|i items IH]; intros k; [done|]. cbn.
  unfold decode_item at 1. cbn. by rewrite json_text_roundtrip, IH.
Qed.

Lemma loaded_positions u k items :
  positions_from (Z.of_nat k) (loaded_items u k items) = true.
Proof.
  revert k. induction items as [|i items IH]; intros k; [done|]. cbn.
  rewrite Z.eqb_refl. cbn. specialize (IH (S k)). by rewrite Nat2Z.inj_succ in IH.
Qed.

Lemma item_rows_position u id k items r :
  r ∈ item_rows u id k items -> (Z.of_nat k <= irow_position r)%Z.
Proof.
  revert k. induction items as [|i items IH]; intros k; cbn; [by intros ?%elem_of_nil|].
  intros [->|Hin]%elem_of_cons; [cbn; lia|]. apply IH in Hin. lia.
Qed.

Lemma item_rows_sorted u id k items :
  StronglySorted (fun a b => position_le a b = true) (item_rows u id k items)
  /\ NoDup (map irow_position (item_rows u id k items)).
Proof.
  revert k. induction items as [|i items IH]; intros k; cbn; [by split; constructor|].
  destruct (IH (S k)) as [IH1 IH2]. split; constructor; try done.
  - apply Forall_forall. intros r Hr%item_rows_position.
    unfold position_le. cbn. apply Z.leb_le. lia.
  - intros (r & E & Hr%item_rows_position)%list_elem_of_fmap. cbn in E. lia.
Qed.

Lemma item_rows_batch u id k items i : i ∈ item_rows u id k items -> irow_batch_id i = id.
Proof.
  revert k. induction items as [|x items IH]; intros k; cbn; [by intros ?%elem_of_nil|].
  intros [->|Hin]%elem_of_cons; eauto.
Qed.

Lemma where_batch_all (l : list ItemRow) id :
  (forall i, i ∈ l -> irow_batch_id i = id) ->
  sql_where (fun i => String.eqb (irow_batch_id i) id) l = l.
Proof.
  intros Hl. induction l as [|i l IH]; [done|]. cbn.
  rewrite Hl by set_solver. rewrite String.eqb_refl. f_equal. apply IH. set_solver.
Qed.

Lemma where_batch_none (l : list ItemRow) id :
  (forall i, i ∈ l -> irow_batch_id i <> id) ->
  sql_where (fun i => String.eqb (irow_batch_id i) id) l = [].
Proof.
  intros Hl. apply filter_negb_nil, existsb_false. intros i Hi.
  apply String.eqb_neq. auto.
Qed.

(** Items inserted for a new batch load back exactly, in order. *)
Lemma load_items_new u id t items :
  (forall i, i ∈ t -> irow_batch_id i <> id) ->
  load_items (t ++ item_rows u id 0 items)%list id = Ok (loaded_items u 0 items).
Proof.
  intros Ht. unfold load_items, sql_where. rewrite List.filter_app.
  change (List.filter ?p ?l) with (sql_where p l).
  rewrite where_batch_none by done.
  rewrite where_batch_all by apply item_rows_batch. cbn [app].
  destruct (item_rows_sorted u id 0 items) as [Hs Hnd].
  rewrite (sql_order_by_sorted irow_position) by done.
  rewrite decode_item_rows. unfold validate_item_positions, ensure.
  pose proof (loaded_positions u 0 items) as Hp. change (Z.of_nat 0) with 0%Z in Hp. by rewrite Hp.
Qed.

(** ... and do not disturb the items of other batches. *)
Lemma load_items_other u id t items id' :
  id' <> id -> load_items (t ++ item_rows u id 0 items)%list id' = load_items t id'.
Proof.
  intros Hne. unfold load_items, sql_where. rewrite List.filter_app.
  change (List.filter ?p ?l) with (sql_where p l).
  rewrite (where_batch_none (item_rows u id 0 items)).
  - by rewrite app_nil_r.
  - intros i Hi%item_rows_batch. congruence.
Qed.

Lemma insert_items_Ok u id k items s s' :
  insert_items u id k items s = Ok s' ->
  s' = set_items s (guidance_items s ++ item_rows u id k items)%list.
Proof.
  revert k s. induction items as [|i items IH]; intros k s; cbn.
  { intros [= <-]. rewrite app_nil_r. by destruct s. }
  unfold insert_item_row. destruct (_ || _); [done|].
  intros E%IH. rewrite E. cbn. by rewrite <- app_assoc.
Qed.

Lemma next_queue_seq_Ok s a q :
  rows_ok (guidance_batches s) -> next_queue_seq s a = Ok q ->
  (0 <= q <= i64_max)%Z /\
  forall r, r ∈ guidance_batches s -> row_agent_id r = a -> (row_queue_seq r < q)%Z.
Proof.
  intros Hok. unfold next_queue_seq.
  destruct (_ <=? i64_max)%Z eqn:E; [|done]. intros [= <-]. bool_facts.
  destruct (sql_max _ _) as [m|] eqn:M; cbn in *.
  - apply sql_max_spec in M as [(r0 & H0' & <-) Hle]. split.
    + apply elem_of_lfilter in H0' as [Hin _].
      pose proof (ok_rows _ Hok) as Hr. rewrite Forall_forall in Hr.
      destruct (Hr _ Hin) as [? _]. lia.
    + intros r Hr Ha. enough (row_queue_seq r <= row_queue_seq r0)%Z by lia.
      apply Hle, elem_of_lfilter. split; [done|]. by apply for_agent_true.
  - apply sql_max_None in M. split; [lia|]. intros r Hr Ha.
    assert (r ∈ sql_where (for_agent a) (guidance_batches s)) as Hin.
    { apply elem_of_lfilter. split; [done|]. by apply for_agent_true. }
    rewrite M in Hin. by apply elem_of_nil in Hin.
Qed.

(** The store a successful [enqueue_new] commits. *)
Lemma enqueue_new_Ok now u request a s s' res :
  store_ok s -> enqueue_new now u request a s = Ok (s', res) ->
  exists q row,
    next_queue_seq s a = Ok q /\ fresh_row row /\
    row = new_batch_row now (u 0%nat) a q
            (set_generation (req_identity request) (gi_generation (row_identity row))) request /\
    sql_exists (batch_conflict row) (guidance_batches s) = false /\
    s' = set_items (set_batches s (guidance_batches s ++ [row])%list)
           (guidance_items s ++ item_rows (fun i => u (S i)) (u 0%nat) 0 (req_items request))%list /\
    er_created res = true /\
    er_batch res = batch_of_row row (loaded_items (fun i => u (S i)) 0 (req_items request)).
Proof.
  intros Hs. unfold enqueue_new.
  destruct (next_queue_seq s a) as [q|] eqn:Q; [|done].
  destruct (bind_opt_u64 _ _) as [g|]; [|done].
  set (row := new_batch_row now (u 0%nat) a q _ request).
  unfold insert_batch_row. destruct (sql_exists (batch_conflict row) _) eqn:C; [done|].
  destruct (_ || _); [done|].
  destruct (insert_items _ _ _ _ _) as [s2|] eqn:I; [|done].
  apply insert_items_Ok in I. cbn in I.
  pose proof (next_queue_seq_Ok s a q (so_rows _ Hs) Q) as [Hq _].
  assert (Hnone : forall r, r ∈ guidance_batches s -> row_batch_id r <> u 0%nat).
  { intros r Hr. unfold sql_exists in C. rewrite existsb_false in C.
    by destruct (batch_conflict_false _ _ (C r Hr)). }
  assert (L : load_batch s2 (u 0%nat)
    = Ok (batch_of_row row (loaded_items (fun i => u (S i)) 0 (req_items request)))).
  { unfold load_batch. rewrite I. cbn [guidance_batches guidance_items set_items set_batches].
    unfold sql_where. rewrite List.filter_app. cbn [List.filter].
    replace (List.filter (has_id (u 0%nat)) (guidance_batches s)) with (@nil BatchRow).
    - replace (has_id (u 0%nat) row) with true by (symmetry; by apply has_id_true).
      cbn. rewrite sql_first_singleton. cbn. rewrite load_items_new; [done|].
      intros i Hi. destruct (so_fk _ Hs i Hi) as (r & Hr & <-). auto.
    - symmetry. apply filter_negb_nil, existsb_false. intros r Hr.
      apply String.eqb_neq. auto. }
  rewrite L. intros [= <- <-]. exists q, row.
  repeat split; try done; unfold row; cbn; lia.
Qed.

Lemma enqueue_batch_request_items request (v : unit) :
  validate_batch_request request = Ok v ->
  (1 <= Z.of_nat (List.length (req_items request)) <= MAX_BATCH_ITEMS)%Z.
Proof.
  unfold validate_batch_request. destruct (validate_identity _ _); [|done].
  cbv zeta. destruct (_ || _) eqn:E; [done|]. intros _. bool_facts. lia.
Qed.

(** Inserting the fresh batch preserves the store invariant. *)
Lemma enqueue_new_store_ok now u request a s s' res :
  store_ok s -> normalize_agent_id a = a ->
  (1 <= Z.of_nat (List.length (req_items request)) <= MAX_BATCH_ITEMS)%Z ->
  enqueue_new now u request a s = Ok (s', res) -> store_ok s'.
Proof.
  intros Hs Ha Hn E. pose proof (enqueue_new_Ok _ _ _ _ _ _ _ Hs E)
    as (q & row & Q & F & Hrow & C & -> & _ & _).
  assert (Hid : row_batch_id row = u 0%nat) by by rewrite Hrow.
  assert (Hag : row_agent_id row = a) by by rewrite Hrow.
  clear Hrow. constructor; cbn.
  - apply rows_ok_insert; [apply Hs|done|done].
  - intros r. rewrite elem_of_app, list_elem_of_singleton. intros [Hr| ->].
    + destruct (so_items _ Hs r Hr) as (its & L & Hl).
      exists its. split; [|done]. rewrite load_items_other; [done|].
      unfold sql_exists in C. rewrite existsb_false in C.
      destruct (batch_conflict_false _ _ (C r Hr)) as [? _]. congruence.
    + rewrite Hid. eexists. split; [apply load_items_new|by rewrite loaded_items_length].
      intros i Hi. destruct (so_fk _ Hs i Hi) as (r & Hr & <-).
      unfold sql_exists in C. rewrite existsb_false in C.
      destruct (batch_conflict_false _ _ (C r Hr)) as [? _]. congruence.
  - intros i. rewrite elem_of_app. intros [Hi|Hi%item_rows_batch].
    + destruct (so_fk _ Hs i Hi) as (r & Hr & ?). set_solver.
    + exists row. split; [set_solver|congruence].
  - intros r. rewrite elem_of_app, list_elem_of_singleton. intros [Hr| ->].
    + by apply (so_agents _ Hs).
    + congruence.
Qed.

Lemma enqueue_new_evolves A now u request a s s' res :
  store_ok s -> enqueue_new now u request a s = Ok (s', res) ->
  evolves A (guidance_batches s) (guidance_batches s').
Proof.
  intros Hs E. pose proof (enqueue_new_Ok _ _ _ _ _ _ _ Hs E)
    as (q & row & _ & F & _ & _ & -> & _). by apply evolves_insert.
Qed.

(** Appending to the mirror preserves the invariant. *)
Lemma store_ok_append t d s : store_ok s -> store_ok (append_state_change t d s).
Proof. intros Hs. eapply store_ok_quiet; [done|]. apply (quiet_append (fun _ => False)), Hs. Qed.

(** What [enqueue_batch_in_transaction] may commit. *)
Lemma enqueue_tx_cases now u request a s s' res :
  enqueue_batch_in_transaction now u request a s = Ok (s', res) ->
  (s' = s /\ er_created res = false) \/ enqueue_new now u request a s = Ok (s', res).
Proof.
  unfold enqueue_batch_in_transaction.
  destruct (match req_idempotency_key request with Some _ => _ | None => _ end) as [[id|]|];
    [|auto|done].
  destruct (load_batch s id); [|done]. intros [= <- <-]. auto.
Qed.

Lemma append_enqueue_event_ok res s : store_ok s -> store_ok (append_enqueue_event res s).
Proof.
  unfold append_enqueue_event. destruct (er_created res); [apply store_ok_append|done].
Qed.

Lemma append_enqueue_event_batches res s :
  guidance_batches (append_enqueue_event res s) = guidance_batches s.
Proof.
  unfold append_enqueue_event, append_queue_event.
  destruct (er_created res); by autorewrite with store.
Qed.

Lemma enqueue_batch_ok A now u request s :
  store_ok s ->
  store_ok (enqueue_batch now u request s).1 /\
  evolves A (guidance_batches s) (guidance_batches (enqueue_batch now u request s).1).
Proof.
  intros Hs. unfold enqueue_batch, transaction.
  destruct (validate_batch_request request) as [[]|] eqn:V; [|by split; [|apply evolves_refl]].
  apply enqueue_batch_request_items in V.
  destruct (enqueue_batch_in_transaction _ _ _ _ _) as [[s' res]|] eqn:E;
    [|by split; [|apply evolves_refl]].
  cbn. rewrite append_enqueue_event_batches.
  destruct (enqueue_tx_cases _ _ _ _ _ _ _ E) as [[-> _]|E'].
  - split; [by apply append_enqueue_event_ok|apply evolves_refl].
  - split; [|by eapply enqueue_new_evolves].
    apply append_enqueue_event_ok.
    eapply enqueue_new_store_ok; eauto using normalize_agent_id_idem.
Qed.

Lemma enqueue_batch_Ok now u request s s' res :
  enqueue_batch now u request s = (s', Ok res) ->
  validate_batch_request request = Ok tt /\
  exists s1, enqueue_batch_in_transaction now u request
               (normalize_agent_id (req_agent_id request)) s = Ok (s1, res) /\
    s' = append_enqueue_event res s1.
Proof.
  unfold enqueue_batch, transaction. destruct (validate_batch_request request) as [[]|]; [|done].
  destruct (enqueue_batch_in_transaction _ _ _ _ _) as [[s1 res1]|]; [|done].
  intros [= <- <-]. eauto.
Qed.

(** The batch an idempotency key names. *)
Definition key_row a key r : Prop :=
  row_agent_id r = a /\ row_idempotency_key r = Some key.

Lemma find_idempotent_key s a key c r :
  store_ok s -> r ∈ guidance_batches s -> key_row a key r ->
  find_idempotent_batch s a key c
  = if bool_decide (row_queue_class r = c) then Ok (Some (row_batch_id r))
    else Err "idempotency key already belongs to another queue class".
Proof.
  intros Hs Hr [Ha Hk]. pose proof (so_rows _ Hs) as Hok. unfold find_idempotent_batch.
  destruct (sql_first _) as [r0|] eqn:F.
  - apply sql_first_Some, elem_of_lfilter in F as [Hr0 E]. unfold opt_eqb in E. where_facts.
    bool_facts. assert (r0 = r) as ->; [|done].
    eapply rows_ok_same; [done..|]. eapply (ok_keys _ Hok); [done|done|congruence|done|done].
  - apply sql_first_None in F.
    assert (r ∈ sql_where (fun r => for_agent a r && opt_eqb (row_idempotency_key r) (Some key))
              (guidance_batches s)) as Hin.
    { apply elem_of_lfilter. split; [done|]. apply andb_true_iff. split.
      - by apply for_agent_true.
      - unfold opt_eqb. by apply bool_decide_eq_true_2. }
    rewrite F in Hin. by apply elem_of_nil in Hin.
Qed.

Lemma find_idempotent_Some s a key c id :
  find_idempotent_batch s a key c = Ok (Some id) ->
  exists r, r ∈ guidance_batches s /\ key_row a key r /\ row_batch_id r = id
    /\ row_queue_class r = c.
Proof.
  unfold find_idempotent_batch. destruct (sql_first _) as [r|] eqn:F; [|done].
  apply sql_first_Some, elem_of_lfilter in F as [Hr E]. unfold opt_eqb in E. where_facts.
  bool_facts. case_bool_decide; [|done]. intros [= <-]. by exists r.
Qed.

Lemma load_batch_Ok_id s id b : load_batch s id = Ok b -> gb_batch_id b = id.
Proof.
  unfold load_batch. destruct (sql_first _) as [r|] eqn:F; [|done]. cbn.
  apply sql_first_id in F as [_ F]. destruct (load_items _ _); [|done]. by intros [= <-].
Qed.

(** A keyed enqueue leaves a row that carries the key. *)
Lemma enqueue_batch_key_row now u request s s' res key :
  store_ok s -> enqueue_batch now u request s = (s', Ok res) ->
  req_idempotency_key request = Some key ->
  exists r, r ∈ guidance_batches s' /\
    key_row (normalize_agent_id (req_agent_id request)) key r /\
    row_batch_id r = gb_batch_id (er_batch res) /\ row_queue_class r = req_queue_class request.
Proof.
  intros Hs (V & s1 & E & ->)%enqueue_batch_Ok Hk. rewrite append_enqueue_event_batches.
  unfold enqueue_batch_in_transaction in E. rewrite Hk in E.
  destruct (find_idempotent_batch _ _ _ _) as [[id|]|] eqn:F; [| |done].
  - destruct (load_batch s id) as [b|] eqn:L; [|done]. injection E as <- <-.
    apply find_idempotent_Some in F as (r & Hr & Hkr & Hid & Hc).
    apply load_batch_Ok_id in L. exists r. cbn. split; [done|]. split; [done|].
    split; [congruence|done].
  - apply enqueue_new_Ok in E as (q & row & _ & _ & Hrow & _ & -> & _ & Hb); [|done].
    exists row. cbn. split; [set_solver|]. rewrite Hb. split; [|split].
    + rewrite Hrow. by split.
    + done.
    + by rewrite Hrow.
Qed.

(** Replaying a key that is in the table. *)
Lemma enqueue_batch_replay now u request s key r :
  store_ok s -> validate_batch_request request = Ok tt ->
  req_idempotency_key request = Some key -> r ∈ guidance_batches s ->
  key_row (normalize_agent_id (req_agent_id request)) key r ->
  if bool_decide (row_queue_class r = req_queue_class request)
  then exists batch, enqueue_batch now u request s
                     = (s, Ok {| er_batch := batch; er_created := false |}) /\
         gb_batch_id batch = row_batch_id r
  else enqueue_batch now u request s
       = (s, Err "idempotency key already belongs to another queue class").
Proof.
  intros Hs V Hk Hr Hkr. unfold enqueue_batch, enqueue_batch_in_transaction. rewrite V, Hk. cbv zeta.
  rewrite (find_idempotent_key _ _ _ _ r) by done.
  destruct (bool_decide _); [|done].
  destruct (load_batch_row s r Hs Hr) as (items & _ & -> & _).
  eexists. split; [done|]. done.
Qed.

(**  A new batch is appended.  When [enqueue_batch] reports a created batch,
    the table gains exactly that row and the item table exactly its items; the
    batch is pending and due now, with no attempt and no lease, its sequence
    number is above every earlier one of the agent and fits [i64], and it loads
    back with the request's items in order, positions 0, 1, ... *)
Theorem enqueue_appends_batch now u request s s' res :
  store_ok s -> enqueue_batch now u request s = (s', Ok res) -> er_created res = true ->
  let a := normalize_agent_id (req_agent_id request) in
  exists row rows,
    guidance_batches s' = (guidance_batches s ++ [row])%list /\
    guidance_items s' = (guidance_items s ++ rows)%list /\
    row_agent_id row = a /\ row_queue_class row = req_queue_class request /\
    row_state row = Pending /\ row_available_at row = now /\ row_attempt_count row = 0%Z /\
    row_lease_owner row = None /\ (0 <= row_queue_seq row <= i64_max)%Z /\
    (forall r, r ∈ guidance_batches s -> row_agent_id r = a ->
       (row_queue_seq r < row_queue_seq row)%Z) /\
    load_batch s' (row_batch_id row) = Ok (er_batch res) /\
    map (fun i => (it_from_agent i, it_content i, it_summary i, it_injection_options i))
      (gb_items (er_batch res))
    = map (fun i => (in_from_agent i, in_content i, in_summary i, in_injection_options i))
      (req_items request) /\
    map it_position (gb_items (er_batch res))
    = map Z.of_nat (seq 0 (List.length (req_items request))).
Proof.
  intros Hs E Hc. cbv zeta. pose proof (enqueue_batch_ok (fun _ => True) now u request s Hs) as [Hs' _].
  rewrite E in Hs'. cbn [fst] in Hs'.
  apply enqueue_batch_Ok in E as (V & s1 & E & ->).
  destruct (enqueue_tx_cases _ _ _ _ _ _ _ E) as [[_ ?]|E']; [congruence|].
  pose proof (enqueue_new_Ok _ _ _ _ _ _ _ Hs E')
    as (q & row & Q & F & Hrow & C & Hs1 & _ & Hb).
  pose proof (next_queue_seq_Ok _ _ _ (so_rows _ Hs) Q) as [Hq Hmax].
  assert (Hrow_seq : row_queue_seq row = q) by by rewrite Hrow.
  assert (Hag : row_agent_id row = normalize_agent_id (req_agent_id request)) by by rewrite Hrow.
  assert (Eb : guidance_batches (append_enqueue_event res s1) = (guidance_batches s ++ [row])%list).
  { by rewrite append_enqueue_event_batches, Hs1. }
  assert (Ei : guidance_items (append_enqueue_event res s1)
               = (guidance_items s ++ item_rows (fun i => u (S i)) (u 0%nat) 0 (req_items request))%list).
  { unfold append_enqueue_event, append_queue_event. rewrite Hc, append_items. by rewrite Hs1. }
  exists row. eexists. split; [exact Eb|]. split; [exact Ei|]. split; [exact Hag|].
  split; [by rewrite Hrow|]. split; [by rewrite Hrow|]. split; [by rewrite Hrow|].
  split; [by rewrite Hrow|]. split; [by rewrite Hrow|]. split; [lia|]. split.
  { intros r Hr Ha. rewrite Hrow_seq. eauto. }
  split; [|split].
  - assert (Hin : row ∈ guidance_batches (append_enqueue_event res s1)) by (rewrite Eb; set_solver).
    destruct (load_batch_row _ _ Hs' Hin) as (items & L & -> & _). rewrite Hb. do 2 f_equal.
    rewrite Ei in L. rewrite Hrow in L. cbn [row_batch_id new_batch_row] in L.
    rewrite load_items_new in L; [by injection L|].
    intros i Hi. destruct (so_fk _ Hs i Hi) as (r & Hr & <-).
    unfold sql_exists in C. rewrite existsb_false in C.
    destruct (batch_conflict_false _ _ (C r Hr)) as [Hne _]. by rewrite Hrow in Hne.
  - rewrite Hb. cbn [gb_items batch_of_row]. clear. generalize 0%nat.
    induction (req_items request) as [|i l IH]; intros k; cbn; [done|]. by rewrite IH.
  - rewrite Hb. cbn [gb_items batch_of_row]. clear. generalize 0%nat.
    induction (req_items request) as [|i l IH]; intros k; cbn; [done|]. by rewrite IH.
Qed.
End Enqueue.
