(* ===== verification/GuidanceShadow.v ===== *)
(** * Shadow comparison and the compatible enqueue

    [services/guidance_shadow.rs] compares a durable batch with its legacy
    inbox row; [enqueue_batch_with_compatibility]
    ([services/guidance_queue.rs]) writes both in one transaction.  SHA-256 is
    a parameter. *)

From S2P Require Import Prelude RustStr JsonValue SqlTable GuidanceTypes Store GuidanceQueue.
From S2P Require Import GuidanceRows GuidanceSystem GuidanceEnqueue.
Local Open Scope string_scope.

Record ShadowLegacyProjection := {
  sl_message_id : Z;
  sl_from_agent : string;
  sl_to_agent : string;
  sl_content_digest : string;
  sl_summary_digest : option string;
  sl_read : bool
}.

Record ShadowQueueProjection := {
  sq_batch_id : string;
  sq_item_ids : list string;
  sq_source_message_id : option Z;
  sq_agent_id : string;
  sq_queue_class : QueueClass;
  sq_queue_seq : Z;
  sq_state : GuidanceState;
  sq_identity : GuidanceIdentity;
  sq_item_count : Z;
  sq_item_from_agent : option string;
  sq_item_content_digest : option string;
  sq_item_summary_digest : option string
}.

Inductive ShadowDiff :=
| QueueBatchMissing | LegacySourcePointerMissing | LegacyMessageMissing
| TargetAgentMismatch | SenderMismatch | ContentMismatch | SummaryMismatch
| BatchShapeMismatch.

#[export] Instance ShadowDiff_eq_dec : EqDecision ShadowDiff.
Proof. solve_decision. Defined.

Definition ShadowDiff_serde_name (d : ShadowDiff) : string :=
  match d with
  | QueueBatchMissing => "queue_batch_missing"
  | LegacySourcePointerMissing => "legacy_source_pointer_missing"
  | LegacyMessageMissing => "legacy_message_missing"
  | TargetAgentMismatch => "target_agent_mismatch"
  | SenderMismatch => "sender_mismatch"
  | ContentMismatch => "content_mismatch"
  | SummaryMismatch => "summary_mismatch"
  | BatchShapeMismatch => "batch_shape_mismatch"
  end.

Record ShadowComparison := {
  sc_queue : option ShadowQueueProjection;
  sc_legacy : option ShadowLegacyProjection;
  sc_diffs : list ShadowDiff
}.

Definition in_sync (c : ShadowComparison) : bool :=
  match sc_diffs c with [] => true | _ => false end.
Definition diff_count (c : ShadowComparison) : Z := Z.of_nat (List.length (sc_diffs c)).

(** [if cond { diffs.push(d) }]. *)
Definition push_if (b : bool) (d : ShadowDiff) : list ShadowDiff := if b then [d] else [].

Section Shadow.
Context `{SqlEngine} `{JsonText} `{EventSink} `{Sha256}.
Implicit Types (s : InboxStore).

Definition digest (value : string) : string := "sha256:" ++ sha256_hex value.

Definition queue_projection (batch : GuidanceBatch) : ShadowQueueProjection := {|
  sq_batch_id := gb_batch_id batch;
  sq_item_ids := map it_item_id (gb_items batch);
  sq_source_message_id := gb_source_message_id batch;
  sq_agent_id := gb_agent_id batch;
  sq_queue_class := gb_queue_class batch;
  sq_queue_seq := gb_queue_seq batch;
  sq_state := gb_state batch;
  sq_identity := gb_identity batch;
  sq_item_count := Z.of_nat (List.length (gb_items batch));
  sq_item_from_agent := it_from_agent <$> head (gb_items batch);
  sq_item_content_digest := (fun i => digest (it_content i)) <$> head (gb_items batch);
  sq_item_summary_digest := i ← head (gb_items batch); digest <$> it_summary i |}.

Definition legacy_projection (m : InboxMessageRecord) : ShadowLegacyProjection := {|
  sl_message_id := msg_id m;
  sl_from_agent := msg_from_agent m;
  sl_to_agent := msg_to_agent m;
  sl_content_digest := digest (msg_content m);
  sl_summary_digest := digest <$> msg_summary m;
  sl_read := match msg_read_at m with Some _ => true | None => false end |}.

(** The field-by-field comparison of a batch with its legacy row. *)
Definition projection_diffs (legacy : ShadowLegacyProjection) (batch : GuidanceBatch)
  : list ShadowDiff :=
  (push_if (negb (String.eqb (sl_to_agent legacy) (gb_agent_id batch))) TargetAgentMismatch
   ++ match gb_items batch with
      | [item] =>
          push_if (negb (String.eqb (sl_from_agent legacy) (it_from_agent item))) SenderMismatch
          ++ push_if (negb (String.eqb (sl_content_digest legacy) (digest (it_content item))))
               ContentMismatch
          ++ push_if (negb (bool_decide (sl_summary_digest legacy = digest <$> it_summary item)))
               SummaryMismatch
      | _ => [BatchShapeMismatch]
      end)%list.

Definition compare_loaded_batch s (batch : GuidanceBatch) : ShadowComparison :=
  let queue := Some (queue_projection batch) in
  match gb_source_message_id batch with
  | None => {| sc_queue := queue; sc_legacy := None;
               sc_diffs := [LegacySourcePointerMissing] |}
  | Some source_message_id =>
      match sql_first (sql_where (fun m => (msg_id m =? source_message_id)%Z) (messages s)) with
      | None => {| sc_queue := queue; sc_legacy := None;
                   sc_diffs := [LegacyMessageMissing] |}
      | Some m =>
          let legacy := legacy_projection m in
          {| sc_queue := queue; sc_legacy := Some legacy;
             sc_diffs := projection_diffs legacy batch |}
      end
  end.

Definition compare_batch s (batch_id : string) : result ShadowComparison string :=
  let? found := inspect_batch s batch_id in
  match found with
  | None => Ok {| sc_queue := None; sc_legacy := None; sc_diffs := [QueueBatchMissing] |}
  | Some batch => Ok (compare_loaded_batch s batch)
  end.

Definition compare_data (c : ShadowComparison) : json :=
  let q {A} (f : ShadowQueueProjection -> A) := f <$> sc_queue c in
  let ident (f : GuidanceIdentity -> option string) :=
    jopt JStr (queue ← sc_queue c; f (sq_identity queue)) in
  jobj [("operation", JStr "shadow_compare");
        ("batch_id", jopt JStr (q sq_batch_id));
        ("item_ids", jopt (fun l => JArr (map JStr l)) (q sq_item_ids));
        ("item_id", jopt JStr (queue ← sc_queue c;
                               match sq_item_ids queue with [i] => Some i | _ => None end));
        ("source_message_id", jopt JNum (queue ← sc_queue c; sq_source_message_id queue));
        ("agent_id", jopt JStr (q sq_agent_id));
        ("queue_class", jopt (fun k => JStr (QueueClass.as_str k)) (q sq_queue_class));
        ("queue_seq", jopt JNum (q sq_queue_seq));
        ("run_id", ident gi_run_id); ("session_id", ident gi_session_id);
        ("invocation_id", ident gi_invocation_id);
        ("generation", jopt JNum (queue ← sc_queue c; gi_generation (sq_identity queue)));
        ("runtime", ident gi_runtime); ("harness", ident gi_harness);
        ("role", ident gi_role);
        ("in_sync", JBool (in_sync c)); ("diff_count", JNum (diff_count c));
        ("diffs", JArr (map (fun d => JStr (ShadowDiff_serde_name d)) (sc_diffs c)))].

Definition emit_comparison (c : ShadowComparison) s : InboxStore :=
  append_state_change "inbox.state_changed" (compare_data c) s.

(** ** The compatible enqueue *)

(** [INSERT INTO messages (from_agent, to_agent, content, summary, created_at)]. *)
Definition insert_message (from_agent to_agent content : string) (summary : option string)
    (created_at : Z) s : InboxStore * Z :=
  let id := sql_new_rowid (map msg_id (messages s)) in
  (set_messages s (messages s ++ [{|
     msg_id := id; msg_from_agent := from_agent; msg_to_agent := to_agent;
     msg_content := content; msg_summary := summary; msg_created_at := created_at;
     msg_notified_at := None; msg_read_at := None |}])%list, id).

Definition write_message_data (id : Z) (from_agent to_agent content : string)
    (summary : option string) (created_at : Z) : json :=
  jobj [("operation", JStr "write_message"); ("message_id", JNum id);
        ("from_agent", JStr from_agent); ("to_agent", JStr to_agent);
        ("content", JStr content); ("summary", jopt JStr summary);
        ("created_at", JNum created_at)].

Definition delivery_data (id : Z) (from_agent to_agent : string) : json :=
  jobj [("message_id", JNum id); ("from_agent", JStr from_agent);
        ("to_agent", JStr to_agent); ("attempt", JNum 1);
        ("outcome", JStr "accepted"); ("transport", JStr "durable_inbox")].

Definition with_source (request : GuidanceBatchRequest) (id : Z) : GuidanceBatchRequest := {|
  req_agent_id := req_agent_id request; req_queue_class := req_queue_class request;
  req_items := req_items request; req_identity := req_identity request;
  req_idempotency_key := req_idempotency_key request;
  req_source_message_id := Some id |}.

(** The comparison after the commit: its failure does not undo the enqueue. *)
Definition compare_and_report (batch_id : string) (result : GuidanceEnqueueResult) s
  : InboxStore * Prelude.result GuidanceEnqueueResult string :=
  match compare_batch s batch_id with
  | Ok c => (emit_comparison c s, Ok result)
  | Err _ => (s, Err "failed to compare compatibility delivery projections")
  end.

(** The transaction: the legacy row and the durable batch, or the replayed
    batch of an idempotency key. *)
Definition compatible_tx (now : Z) (u : nat -> string) (request : GuidanceBatchRequest)
    (agent_id from_agent content : string) (summary : option string) s
  : result (InboxStore * option Z * GuidanceEnqueueResult) string :=
  let? existing := match req_idempotency_key request with
                   | Some key => find_idempotent_batch s agent_id key (req_queue_class request)
                   | None => Ok None
                   end in
  match existing with
  | Some batch_id =>
      let? batch := load_batch s batch_id in
      Ok (s, None, {| er_batch := batch; er_created := false |})
  | None =>
      let '(s1, source_message_id) :=
        insert_message from_agent (normalize_agent_id agent_id) content summary now s in
      let? ' (s2, result) := enqueue_batch_in_transaction now u
                               (with_source request source_message_id) agent_id s1 in
      Ok (s2, Some source_message_id, result)
  end.

Definition enqueue_batch_with_compatibility (now : Z) (u : nat -> string)
    (request : GuidanceBatchRequest) (from_agent content : string)
    (summary : option string) s
  : InboxStore * Prelude.result GuidanceEnqueueResult string :=
  let agent_id := normalize_agent_id (req_agent_id request) in
  let to_agent := normalize_agent_id agent_id in
  match
    (let? _ := validate_batch_request request in
     let? _ := validate_identity from_agent "sender agent" in
     compatible_tx now u request agent_id from_agent content summary s)
  with
  | Err e => (s, Err e)
  | Ok (s1, None, result) => compare_and_report (gb_batch_id (er_batch result)) result s1
  | Ok (s1, Some id, result) =>
      let s2 := append_state_change "inbox.state_changed"
          (with_batch_identity
             (write_message_data id from_agent to_agent content summary now)
             (er_batch result)) s1 in
      let s3 := append_state_change "message.delivery"
          (with_batch_identity (delivery_data id from_agent to_agent) (er_batch result)) s2 in
      compare_and_report (gb_batch_id (er_batch result)) result
        (append_enqueue_event result s3)
  end.

(** ** Lemmas *)

Lemma store_ok_messages s t : store_ok s -> store_ok (set_messages s t).
Proof. intros [Hr Hi Hf Ha]. by constructor. Qed.

Lemma compare_and_report_ok id res s :
  store_ok s ->
  store_ok (compare_and_report id res s).1 /\
  guidance_batches (compare_and_report id res s).1 = guidance_batches s.
Proof.
  intros Hs. unfold compare_and_report, emit_comparison.
  destruct (compare_batch s id); cbn; [|done].
  split; [by apply store_ok_append|by autorewrite with store].
Qed.

Lemma compatible_tx_ok A now u request from_agent content summary s s1 o res :
  store_ok s ->
  (1 <= Z.of_nat (List.length (req_items request)) <= MAX_BATCH_ITEMS)%Z ->
  compatible_tx now u request (normalize_agent_id (req_agent_id request))
    from_agent content summary s = Ok (s1, o, res) ->
  store_ok s1 /\ evolves A (guidance_batches s) (guidance_batches s1).
Proof.
  intros Hs Hn. unfold compatible_tx.
  destruct (match req_idempotency_key request with Some _ => _ | None => _ end) as [[id|]|];
    [| |done].
  { destruct (load_batch s id); [|done]. intros [= <- _ _]. split; [done|apply evolves_refl]. }
  unfold insert_message. set (s0 := set_messages s _). set (id := sql_new_rowid _).
  destruct (enqueue_batch_in_transaction _ _ _ _ s0) as [[s2 res']|] eqn:E; [|done].
  intros [= <- _ _]. assert (Hs0 : store_ok s0) by by apply store_ok_messages.
  change (guidance_batches s) with (guidance_batches s0).
  destruct (enqueue_tx_cases _ _ _ _ _ _ _ E) as [[-> _]|E'].
  - split; [done|apply evolves_refl].
  - split; [|by eapply enqueue_new_evolves].
    refine (enqueue_new_store_ok _ _ _ _ _ _ _ Hs0 _ _ E'); [|exact Hn].
    apply normalize_agent_id_idem.
Qed.

Lemma enqueue_compat_ok A now u request from_agent content summary s :
  store_ok s ->
  let s' := (enqueue_batch_with_compatibility now u request from_agent content summary s).1 in
  store_ok s' /\ evolves A (guidance_batches s) (guidance_batches s').
Proof.
  intros Hs. cbv zeta. unfold enqueue_batch_with_compatibility.
  destruct (validate_batch_request request) as [[]|] eqn:V; [|by split; [|apply evolves_refl]].
  apply enqueue_batch_request_items in V.
  destruct (validate_identity _ _); [|by split; [|apply evolves_refl]].
  destruct (compatible_tx _ _ _ _ _ _ _ s) as [[[s1 o] res]|] eqn:E;
    [|by split; [|apply evolves_refl]].
  apply (compatible_tx_ok A) in E as [Hs1 Ev]; [|done|done].
  destruct o as [id|].
  - edestruct compare_and_report_ok as [Hok ->].
    { apply append_enqueue_event_ok. do 2 apply store_ok_append. exact Hs1. }
    split; [exact Hok|]. by rewrite append_enqueue_event_batches, !append_batches.
  - edestruct compare_and_report_ok as [Hok ->]; [exact Hs1|]. by split.
Qed.

(** ** The two projections of one delivery *)

Lemma compare_and_report_Ok id res s s' res' :
  compare_and_report id res s = (s', Ok res') ->
  exists c, compare_batch s id = Ok c /\ s' = emit_comparison c s /\ res' = res.
Proof.
  unfold compare_and_report. destruct (compare_batch s id) as [c|]; [|done].
  intros [= <- <-]. eauto.
Qed.

Lemma append_enqueue_event_frame res s :
  messages (append_enqueue_event res s) = messages s /\
  guidance_items (append_enqueue_event res s) = guidance_items s.
Proof.
  unfold append_enqueue_event, append_queue_event.
  destruct (er_created res); by autorewrite with store.
Qed.

(** A fresh row id finds the new message only. *)
Lemma first_new_message (t : list InboxMessageRecord) m :
  (forall x, x ∈ t -> (msg_id x < msg_id m)%Z) ->
  sql_first (sql_where (fun x => (msg_id x =? msg_id m)%Z) (t ++ [m])%list) = Some m.
Proof.
  intros Hlt. unfold sql_where. rewrite List.filter_app. cbn [List.filter].
  rewrite Z.eqb_refl.
  assert (List.filter (fun x => (msg_id x =? msg_id m)%Z) t = []) as ->.
  { apply filter_negb_nil, existsb_false. intros x Hx. apply Z.eqb_neq.
    specialize (Hlt x Hx). lia. }
  apply sql_first_singleton.
Qed.

Lemma projection_in_sync m batch i :
  msg_to_agent m = gb_agent_id batch -> gb_items batch = [i] ->
  msg_from_agent m = it_from_agent i -> msg_content m = it_content i ->
  msg_summary m = it_summary i -> projection_diffs (legacy_projection m) batch = [].
Proof.
  intros Ea Ei Ef Ec Es. unfold projection_diffs. rewrite Ei. cbn.
  rewrite Ea, Ef, Ec, Es, !String.eqb_refl, bool_decide_eq_true_2 by done. done.
Qed.

Lemma compare_and_report_messages id res s :
  messages (compare_and_report id res s).1 = messages s.
Proof.
  unfold compare_and_report, emit_comparison. destruct (compare_batch s id); cbn; [|done].
  by autorewrite with store.
Qed.

(** What a created compatible enqueue committed. *)
Lemma enqueue_compat_created now u request from_agent content summary s s' res :
  store_ok s ->
  enqueue_batch_with_compatibility now u request from_agent content summary s = (s', Ok res) ->
  er_created res = true ->
  let a := normalize_agent_id (req_agent_id request) in
  let id := sql_new_rowid (map msg_id (messages s)) in
  exists row m s3 c,
    er_batch res = batch_of_row row (loaded_items (fun i => u (S i)) 0 (req_items request)) /\
    row_agent_id row = a /\ row_source_message_id row = Some id /\
    msg_id m = id /\ msg_to_agent m = a /\ msg_from_agent m = from_agent /\
    msg_content m = content /\ msg_summary m = summary /\ msg_read_at m = None /\
    row ∈ guidance_batches s3 /\ store_ok s3 /\
    load_items (guidance_items s3) (row_batch_id row)
      = Ok (loaded_items (fun i => u (S i)) 0 (req_items request)) /\
    messages s3 = (messages s ++ [m])%list /\
    compare_batch s3 (row_batch_id row) = Ok c /\ s' = emit_comparison c s3.
Proof.
  intros Hs E Hc. cbv zeta. unfold enqueue_batch_with_compatibility in E.
  destruct (validate_batch_request request) as [[]|] eqn:V; [|done].
  apply enqueue_batch_request_items in V.
  destruct (validate_identity _ _); [|done].
  destruct (compatible_tx _ _ _ _ _ _ _ s) as [[[s1 o] res0]|] eqn:T; [|done].
  assert (er_created res0 = true) as Hc0.
  { destruct o; by apply compare_and_report_Ok in E as (c & _ & _ & <-). }
  unfold compatible_tx in T.
  destruct (match req_idempotency_key request with Some _ => _ | None => _ end) as [[id|]|];
    [| |done].
  { destruct (load_batch s id); [|done]. by injection T as <- <- <-. }
  unfold insert_message in T. set (s0 := set_messages s _) in T. set (id := sql_new_rowid _) in *.
  set (key := normalize_agent_id (req_agent_id request)) in *.
  destruct (enqueue_batch_in_transaction _ _ _ _ s0) as [[s2 res1]|] eqn:E2; [|done].
  injection T as <- <- <-.
  apply compare_and_report_Ok in E as (c & Ec & -> & ->).
  assert (Hs0 : store_ok s0) by by apply store_ok_messages.
  destruct (enqueue_tx_cases _ _ _ _ _ _ _ E2) as [[_ ?]|E3]; [congruence|].
  pose proof (enqueue_new_Ok _ _ _ _ _ _ _ Hs0 E3)
    as (q & row & _ & _ & Hrow & C & Es2 & _ & Eb).
  assert (Hid : row_batch_id row = u 0%nat) by by rewrite Hrow.
  pose proof (enqueue_new_store_ok now u (with_source request id) key s0 s2 res1 Hs0
                (normalize_agent_id_idem _) V E3) as Hs2.
  match type of Ec with compare_batch (append_enqueue_event res1 ?x) _ = _ => set (sM := x) in * end.
  set (s3 := append_enqueue_event res1 sM) in *.
  destruct (append_enqueue_event_frame res1 sM) as [Em3 Ei3]. fold s3 in Em3, Ei3.
  unfold sM in Em3, Ei3. autorewrite with store in Em3, Ei3.
  assert (Eb3 : guidance_batches s3 = guidance_batches s2).
  { unfold s3, sM. rewrite append_enqueue_event_batches. by autorewrite with store. }
  assert (Hne : forall r, r ∈ guidance_batches s0 -> row_batch_id r <> u 0%nat).
  { intros r Hr. unfold sql_exists in C. rewrite existsb_false in C.
    destruct (batch_conflict_false _ _ (C r Hr)) as [Hn _]. congruence. }
  exists row. eexists. exists s3, c. split; [exact Eb|].
  split; [by rewrite Hrow|]. split; [by rewrite Hrow|].
  split; [|split; [|split; [|split; [|split; [|split]]]]]; cycle 6.
  - split; [rewrite Eb3, Es2; cbn; set_solver|].
    split; [unfold s3, sM; apply append_enqueue_event_ok; by do 2 apply store_ok_append|].
    split; [|split; [rewrite Em3, Es2; reflexivity|split; [|done]]].
    + rewrite Ei3, Es2, Hid. cbn [guidance_items set_items].
      apply load_items_new. intros i Hi. destruct (so_fk _ Hs0 i Hi) as (r & Hr & <-). auto.
    + by rewrite Eb in Ec.
  - done.
  - cbn. apply normalize_agent_id_idem.
  - done.
  - done.
  - done.
  - done.
Qed.

(**  Compatible delivery writes both projections.  When the compatible
    enqueue reports a created batch for one item with the legacy message's
    sender, body and summary, one unread message row is added beside the batch,
    the batch points to it, and the comparison the operation reports, on the
    committed store, finds the two projections in sync. *)
Theorem compat_enqueue_in_sync now u request from_agent content summary s s' res i :
  store_ok s -> Forall (fun i => (i < i64_max)%Z) (map msg_id (messages s)) ->
  enqueue_batch_with_compatibility now u request from_agent content summary s = (s', Ok res) ->
  er_created res = true -> req_items request = [i] ->
  in_from_agent i = from_agent -> in_content i = content -> in_summary i = summary ->
  exists m c, messages s' = (messages s ++ [m])%list /\
    gb_source_message_id (er_batch res) = Some (msg_id m) /\
    msg_to_agent m = gb_agent_id (er_batch res) /\ msg_read_at m = None /\
    (forall x, x ∈ messages s -> msg_id x <> msg_id m) /\
    compare_batch s' (gb_batch_id (er_batch res)) = Ok c /\ in_sync c = true.
Proof.
  intros Hs Hids E Hc Hi Ef Econ Esum.
  destruct (enqueue_compat_created _ _ _ _ _ _ _ _ _ Hs E Hc)
    as (row & m & s3 & c & Eb & Ha & Hsrc & Hm & Hto & Hfrom & Hcon & Hsum & Hread & Hrow & Hs3
        & L & Emsg & Ec & ->).
  pose proof (sql_new_rowid_above _ Hids) as [_ Habove]. rewrite <- Hm, Forall_forall in Habove.
  assert (Hlt : forall x, x ∈ messages s -> (msg_id x < msg_id m)%Z).
  { intros x Hx. apply Habove. apply list_elem_of_fmap. eauto. }
  assert (Ecmp : compare_batch (emit_comparison c s3) (row_batch_id row) = compare_batch s3 (row_batch_id row)).
  { unfold compare_batch, inspect_batch, load_batch_optional, load_batch, emit_comparison,
      compare_loaded_batch. by autorewrite with store. }
  exists m, c. rewrite Eb. cbn [gb_source_message_id gb_agent_id gb_batch_id batch_of_row].
  split; [unfold emit_comparison; by autorewrite with store|].
  split; [congruence|]. split; [congruence|]. split; [done|].
  split; [intros x Hx; specialize (Hlt x Hx); lia|].
  split; [by rewrite Ecmp|].
  unfold compare_batch, inspect_batch in Ec. destruct (validate_id _ _); [|done].
  destruct (load_batch_row s3 row Hs3 Hrow) as (items & L' & _ & Lo). rewrite Lo in Ec.
  injection Ec as <-. unfold compare_loaded_batch.
  cbn [gb_source_message_id batch_of_row]. rewrite Hsrc, Emsg, <- Hm.
  rewrite first_new_message by done. unfold in_sync. cbn [sc_diffs].
  rewrite L in L'. injection L' as <-.
  rewrite (projection_in_sync m _ (loaded_item (fun i => u (S i)) 0 i)); [done| | | | |];
    cbn [gb_agent_id gb_items batch_of_row loaded_item it_from_agent it_content it_summary];
    rewrite ?Hi; cbn [loaded_items]; congruence.
Qed.
End Shadow.
