(* ===== verification/Inbox.v ===== *)
(** * The inbox

    [services/inbox_store.rs]: message rows, delivery marks, the poke schedule
    and the migration of recipient keys. *)

From S2P Require Import Prelude RustStr JsonValue SqlTable GuidanceTypes Store GuidanceQueue.
From S2P Require Import GuidanceRows GuidanceSystem GuidanceEnqueue GuidanceShadow.
Local Open Scope string_scope.

Record InboxPokeCandidate := {
  pc_agent_id : string;
  pc_unread_count : Z;
  pc_newest_message_id : Z
}.

(** ** Columns and clauses *)

Definition set_notified_at (now : Z) (m : InboxMessageRecord) : InboxMessageRecord := {|
  msg_id := msg_id m; msg_from_agent := msg_from_agent m; msg_to_agent := msg_to_agent m;
  msg_content := msg_content m; msg_summary := msg_summary m;
  msg_created_at := msg_created_at m; msg_notified_at := Some now;
  msg_read_at := msg_read_at m |}.

Definition set_read_at (now : Z) (m : InboxMessageRecord) : InboxMessageRecord := {|
  msg_id := msg_id m; msg_from_agent := msg_from_agent m; msg_to_agent := msg_to_agent m;
  msg_content := msg_content m; msg_summary := msg_summary m;
  msg_created_at := msg_created_at m; msg_notified_at := msg_notified_at m;
  msg_read_at := Some now |}.

Definition set_to_agent (a : string) (m : InboxMessageRecord) : InboxMessageRecord := {|
  msg_id := msg_id m; msg_from_agent := msg_from_agent m; msg_to_agent := a;
  msg_content := msg_content m; msg_summary := msg_summary m;
  msg_created_at := msg_created_at m; msg_notified_at := msg_notified_at m;
  msg_read_at := msg_read_at m |}.

Definition is_none {A} (o : option A) : bool := match o with None => true | _ => false end.

Definition to_agent_is (a : string) (m : InboxMessageRecord) : bool :=
  String.eqb (msg_to_agent m) a.
Definition unread_for (a : string) (m : InboxMessageRecord) : bool :=
  to_agent_is a m && is_none (msg_read_at m).
Definition unnotified_for (a : string) (m : InboxMessageRecord) : bool :=
  unread_for a m && is_none (msg_notified_at m).

(** [ORDER BY created_at ASC, id ASC]. *)
Definition msg_le (a b : InboxMessageRecord) : bool :=
  (msg_created_at a <? msg_created_at b)%Z
  || ((msg_created_at a =? msg_created_at b)%Z && (msg_id a <=? msg_id b)%Z).

Definition meta_for (a : string) (m : InboxMeta) : bool := String.eqb (meta_agent_id m) a.

(** [INSERT ... ON CONFLICT(agent_id) DO UPDATE]. *)
Definition upsert_meta (a : string) (fresh : InboxMeta) (update : InboxMeta -> InboxMeta)
    (t : list InboxMeta) : list InboxMeta :=
  if sql_exists (meta_for a) t then sql_update (meta_for a) update t
  else (t ++ [fresh])%list.

Definition max_option (left right : option Z) : option Z :=
  match left, right with
  | Some l, Some r => Some (Z.max l r)
  | Some l, None => Some l
  | None, Some r => Some r
  | None, None => None
  end.

Definition str_le (a b : string) : bool := negb (String.ltb b a).

Section Inbox.
Context `{SqlEngine} `{JsonText} `{EventSink} `{Sha256}.
Implicit Types (s : InboxStore).

(** ** Writing *)

Definition write_message (now : Z) (from_agent to_agent content : string)
    (summary : option string) s : InboxStore * result Z string :=
  let to_agent := normalize_agent_id to_agent in
  let '(s1, id) := insert_message from_agent to_agent content summary now s in
  (append_state_change "message.delivery" (delivery_data id from_agent to_agent)
     (append_state_change "inbox.state_changed"
        (write_message_data id from_agent to_agent content summary now) s1), Ok id).

Definition clear_all s : InboxStore * result unit string :=
  let abandoned_count := Z.of_nat (List.length (messages s)) in
  let s1 := set_meta (set_messages (set_batches (set_items s []) []) []) [] in
  let s2 :=
    if (0 <? abandoned_count)%Z then
      append_state_change "agent_inbox.messages_abandoned"
        (jobj [("operation", JStr "clear_all"); ("count", JNum abandoned_count);
               ("outcome", JStr "abandoned")]) s1
    else s1 in
  (append_state_change "inbox.state_changed" (jobj [("operation", JStr "clear_all")]) s2,
   Ok tt).

(** ** Reading *)

Definition select_messages (p : InboxMessageRecord -> bool) s : list InboxMessageRecord :=
  sql_order_by msg_le (sql_where p (messages s)).

Definition message_ids (l : list InboxMessageRecord) : json :=
  JArr (map (fun m => JNum (msg_id m)) l).

(** One [UPDATE ... WHERE id = ?2] per selected message. *)
Definition mark_notified (now : Z) (l t : list InboxMessageRecord) : list InboxMessageRecord :=
  fold_left (fun t m => sql_update (fun m' => (msg_id m' =? msg_id m)%Z)
                          (set_notified_at now) t) l t.

Definition peek_unnotified (now : Z) (agent_id : string) s
  : InboxStore * result (list InboxMessageRecord) string :=
  let a := normalize_agent_id agent_id in
  let found := select_messages (unnotified_for a) s in
  let s1 := set_messages s (mark_notified now found (messages s)) in
  match found with
  | [] => (s1, Ok found)
  | _ =>
      (append_state_change "inbox.state_changed"
         (jobj [("operation", JStr "mark_notified"); ("agent_id", JStr a);
                ("message_ids", message_ids found); ("notified_at", JNum now)]) s1,
       Ok found)
  end.

Definition consumed_event (now : Z) (consumer : string) (m : InboxMessageRecord) : json :=
  jobj [("message_id", JNum (msg_id m)); ("from_agent", JStr (msg_from_agent m));
        ("to_agent", JStr (msg_to_agent m)); ("consumer", JStr consumer);
        ("outcome", JStr "consumed"); ("ack_kind", JStr "inbox_read");
        ("confidence", JStr "unknown"); ("read_at", JNum now)].

Definition drain_unread (now : Z) (agent_id : string) s
  : InboxStore * result (list InboxMessageRecord) string :=
  let a := normalize_agent_id agent_id in
  transaction s
    (let found := select_messages (unread_for a) s in
     let? source_batches :=
       collect (fun m => load_batch_by_source_message_id s (msg_id m)) found in
     let s1 := set_messages s (sql_update (unread_for a) (set_read_at now) (messages s)) in
     let s2 := set_meta s1 (upsert_meta a
         {| meta_agent_id := a; meta_last_check_inbox_at := Some now;
            meta_last_poke_at := None; meta_last_poke_message_id := None;
            meta_poke_backoff_secs := None |}
         (fun m => {| meta_agent_id := meta_agent_id m;
                      meta_last_check_inbox_at := Some now;
                      meta_last_poke_at := meta_last_poke_at m;
                      meta_last_poke_message_id := meta_last_poke_message_id m;
                      meta_poke_backoff_secs := meta_poke_backoff_secs m |})
         (agent_inbox_meta s1)) in
     match found with
     | [] => Ok (s2, found)
     | _ =>
         let s3 := append_state_change "inbox.state_changed"
             (jobj [("operation", JStr "mark_read"); ("agent_id", JStr a);
                    ("message_ids", message_ids found); ("read_at", JNum now)]) s2 in
         Ok (fold_left
               (fun s mb => append_state_change "message.consumed"
                  (recovery_data mb.2 (consumed_event now a mb.1)) s)
               (combine found source_batches) s3, found)
     end).

Definition unread_count s (agent_id : string) : Z :=
  sql_count (unread_for (normalize_agent_id agent_id)) (messages s).

Definition has_unread s (agent_id : string) : bool := (0 <? unread_count s agent_id)%Z.

Definition last_check_inbox_at s (agent_id : string) : option Z :=
  m ← sql_first (sql_where (meta_for (normalize_agent_id agent_id)) (agent_inbox_meta s));
  meta_last_check_inbox_at m.

(** ** The poke schedule *)

(** The due time of one group of unread messages. *)
Definition poke_due_at (base_interval_secs newest_id newest_at : Z) (meta : option InboxMeta)
  : Z :=
  let last_poke_message_id := m ← meta; meta_last_poke_message_id m in
  if negb (bool_decide (last_poke_message_id = Some newest_id)) then
    i64_saturating_add newest_at base_interval_secs
  else
    let backoff_secs := default base_interval_secs (m ← meta; meta_poke_backoff_secs m) in
    i64_saturating_add (default newest_at (m ← meta; meta_last_poke_at m)) backoff_secs.

Definition poke_candidate (now base_interval_secs : Z) s (a : string)
  : option InboxPokeCandidate :=
  let unread := sql_where (unread_for a) (messages s) in
  let newest_id := default 0%Z (sql_max msg_id unread) in
  let newest_at := default 0%Z (sql_max msg_created_at unread) in
  let meta := sql_first (sql_where (meta_for a) (agent_inbox_meta s)) in
  let due_at := poke_due_at base_interval_secs newest_id newest_at meta in
  let checked_after_due :=
    match (m ← meta; meta_last_check_inbox_at m) with
    | Some checked_at => (due_at <=? checked_at)%Z
    | None => false
    end in
  if checked_after_due || (now <? due_at)%Z then None
  else Some {| pc_agent_id := a; pc_unread_count := Z.of_nat (List.length unread);
               pc_newest_message_id := newest_id |}.

(** [GROUP BY m.to_agent ORDER BY m.to_agent] over the unread messages. *)
Definition unread_agents s : list string :=
  insertion_sort str_le
    (dedup_keys (map msg_to_agent
       (sql_where (fun m => is_none (msg_read_at m)) (messages s)))).

Definition agents_needing_poke (now base_interval_secs : Z) s : list InboxPokeCandidate :=
  let base := i64_of_u64_or_max base_interval_secs in
  omap (poke_candidate now base s) (unread_agents s).

Definition next_poke_backoff (base_interval_secs max_interval_secs newest_message_id : Z)
    (meta : option InboxMeta) : Z :=
  if bool_decide ((m ← meta; meta_last_poke_message_id m) = Some newest_message_id) then
    Z.min (i64_saturating_mul
             (default base_interval_secs (m ← meta; meta_poke_backoff_secs m)) 2)
          max_interval_secs
  else base_interval_secs.

Definition record_poke (now : Z) (agent_id : string)
    (newest_message_id base_interval_secs max_interval_secs : Z) s
  : InboxStore * result unit string :=
  let a := normalize_agent_id agent_id in
  let base := i64_of_u64_or_max base_interval_secs in
  let max := i64_of_u64_or_max max_interval_secs in
  let meta := sql_first (sql_where (meta_for a) (agent_inbox_meta s)) in
  let next := next_poke_backoff base max newest_message_id meta in
  let s1 := set_meta s (upsert_meta a
      {| meta_agent_id := a; meta_last_check_inbox_at := None;
         meta_last_poke_at := Some now; meta_last_poke_message_id := Some newest_message_id;
         meta_poke_backoff_secs := Some next |}
      (fun m => {| meta_agent_id := meta_agent_id m;
                   meta_last_check_inbox_at := meta_last_check_inbox_at m;
                   meta_last_poke_at := Some now;
                   meta_last_poke_message_id := Some newest_message_id;
                   meta_poke_backoff_secs := Some next |})
      (agent_inbox_meta s)) in
  (append_state_change "inbox.state_changed"
     (jobj [("operation", JStr "record_poke"); ("agent_id", JStr a);
            ("newest_message_id", JNum newest_message_id);
            ("poke_backoff_secs", JNum next); ("last_poke_at", JNum now)]) s1, Ok tt).

(** ** Migration of recipient keys *)

(** The update list is collected first, then applied row by row. *)
Definition normalize_messages (t : list InboxMessageRecord) : list InboxMessageRecord :=
  let updates :=
    omap (fun m => let n := normalize_agent_id (msg_to_agent m) in
                   if String.eqb n (msg_to_agent m) then None else Some (msg_id m, n))
      (sql_scan t) in
  fold_left (fun t u => sql_update (fun m => (msg_id m =? u.1)%Z) (set_to_agent u.2) t)
    updates t.

(** [merged.entry(key).or_default()] of a [BTreeMap], then the four maxima. *)
Fixpoint merge_meta (m : InboxMeta) (t : list InboxMeta) : list InboxMeta :=
  match t with
  | [] => [m]
  | e :: t' =>
      if String.eqb (meta_agent_id m) (meta_agent_id e) then
        {| meta_agent_id := meta_agent_id e;
           meta_last_check_inbox_at :=
             max_option (meta_last_check_inbox_at e) (meta_last_check_inbox_at m);
           meta_last_poke_at := max_option (meta_last_poke_at e) (meta_last_poke_at m);
           meta_last_poke_message_id :=
             max_option (meta_last_poke_message_id e) (meta_last_poke_message_id m);
           meta_poke_backoff_secs :=
             max_option (meta_poke_backoff_secs e) (meta_poke_backoff_secs m) |} :: t'
      else if String.ltb (meta_agent_id m) (meta_agent_id e) then m :: e :: t'
      else e :: merge_meta m t'
  end.

Definition normalize_meta (m : InboxMeta) : InboxMeta := {|
  meta_agent_id := normalize_agent_id (meta_agent_id m);
  meta_last_check_inbox_at := meta_last_check_inbox_at m;
  meta_last_poke_at := meta_last_poke_at m;
  meta_last_poke_message_id := meta_last_poke_message_id m;
  meta_poke_backoff_secs := meta_poke_backoff_secs m |}.

Definition normalize_existing_agent_ids s : InboxStore :=
  set_meta (set_messages s (normalize_messages (messages s)))
    (fold_left (fun t m => merge_meta (normalize_meta m) t)
       (sql_scan (agent_inbox_meta s)) []).

Definition legacy_branch (a : string) : bool :=
  String.eqb a "main" || String.eqb a "master" || String.eqb a "parent".

Definition remap_legacy_branch_recipients s : InboxStore :=
  set_messages
    (set_meta s (sql_delete (fun m => legacy_branch (meta_agent_id m)) (agent_inbox_meta s)))
    (sql_update (fun m => legacy_branch (msg_to_agent m)) (set_to_agent "root") (messages s)).

(** The data part of [migrate]: the schema statements create no row. *)
Definition migrate s : InboxStore :=
  remap_legacy_branch_recipients (normalize_existing_agent_ids s).

(** ** Lemmas: operations on messages leave the queue alone *)

Record queue_untouched s s' : Prop := {
  qu_batches : guidance_batches s' = guidance_batches s;
  qu_items : guidance_items s' = guidance_items s
}.

Lemma queue_untouched_ok A s s' :
  queue_untouched s s' -> store_ok s -> store_ok s' /\
  evolves A (guidance_batches s) (guidance_batches s').
Proof.
  intros [Eb Ei] [Hr Hi Hf Ha]. split.
  - constructor; rewrite ?Eb, ?Ei; auto.
  - rewrite Eb. apply evolves_refl.
Qed.

Lemma queue_untouched_append t d s s' :
  queue_untouched s s' -> queue_untouched s (append_state_change t d s').
Proof. intros [??]. by constructor; autorewrite with store. Qed.

Lemma write_message_untouched now f t c o s :
  queue_untouched s (write_message now f t c o s).1.
Proof. unfold write_message, insert_message. cbn. by do 2 apply queue_untouched_append. Qed.

Lemma peek_untouched now a s : queue_untouched s (peek_unnotified now a s).1.
Proof.
  unfold peek_unnotified. destruct (select_messages _ _); cbn; [done|].
  by apply queue_untouched_append.
Qed.

Lemma fold_append_untouched {A} (f : A -> string) (g : A -> json) l s s' :
  queue_untouched s s' ->
  queue_untouched s (fold_left (fun s x => append_state_change (f x) (g x) s) l s').
Proof.
  revert s'. induction l as [|x l IH]; intros s' Hq; cbn; [done|].
  by apply IH, queue_untouched_append.
Qed.

Lemma drain_untouched now a s : queue_untouched s (drain_unread now a s).1.
Proof.
  unfold drain_unread. destruct (collect _ _) as [bs|]; [|done]. cbv zeta.
  destruct (select_messages _ _) as [|m l]; [done|]. cbn [transaction fst].
  apply (fold_append_untouched (fun _ => "message.consumed")
    (fun mb => recovery_data mb.2 (consumed_event now (normalize_agent_id a) mb.1))).
  by apply queue_untouched_append.
Qed.

Lemma record_poke_untouched now a n b m s : queue_untouched s (record_poke now a n b m s).1.
Proof. unfold record_poke. cbn. by apply queue_untouched_append. Qed.

Lemma fold_append_messages {A} (f : A -> string) (g : A -> json) l s :
  messages (fold_left (fun s x => append_state_change (f x) (g x) s) l s) = messages s.
Proof.
  revert s. induction l as [|x l IH]; intros s; cbn; [done|].
  by rewrite IH, append_messages.
Qed.
End Inbox.
