(* ===== verification/InboxSpec.v ===== *)
(** * Properties of the inbox

    Delivery marks, the poke schedule and the migration of recipient keys. *)

From S2P Require Import Prelude RustStr JsonValue SqlTable GuidanceTypes Store GuidanceQueue.
From S2P Require Import GuidanceRows GuidanceSystem GuidanceEnqueue GuidanceShadow Inbox.
From Stdlib Require Import Sorting.Sorted.
Local Open Scope string_scope.

Section InboxSpec.
Context `{SqlEngine} `{JsonText} `{EventSink} `{Sha256}.
Implicit Types (s : InboxStore).

(** [id] is the primary key of [messages]. *)
Definition messages_ok s : Prop := NoDup (map msg_id (messages s)).

(** ** Order *)

Lemma msg_le_trans a b c : msg_le a b = true -> msg_le b c = true -> msg_le a c = true.
Proof.
  unfold msg_le. rewrite !orb_true_iff, !andb_true_iff, !Z.ltb_lt, !Z.eqb_eq, !Z.leb_le. lia.
Qed.

Lemma msg_le_total a b : msg_le a b = true \/ msg_le b a = true.
Proof.
  unfold msg_le. rewrite !orb_true_iff, !andb_true_iff, !Z.ltb_lt, !Z.eqb_eq, !Z.leb_le. lia.
Qed.

Lemma select_messages_sorted p s :
  StronglySorted (fun a b => msg_le a b = true) (select_messages p s).
Proof. apply insertion_sort_sorted; [exact msg_le_trans|exact msg_le_total]. Qed.

Lemma select_messages_perm p s : select_messages p s ≡ₚ List.filter p (messages s).
Proof. apply sql_order_by_perm. Qed.

Lemma elem_of_select p s m : m ∈ select_messages p s <-> m ∈ messages s /\ p m = true.
Proof. rewrite select_messages_perm. apply elem_of_lfilter. Qed.

Lemma select_messages_nil p s :
  (forall m, m ∈ messages s -> p m = false) -> select_messages p s = [].
Proof.
  intros Hp. assert (List.filter p (messages s) = []) as E.
  { apply filter_negb_nil, existsb_false, Hp. }
  pose proof (select_messages_perm p s) as P. rewrite E in P. by apply Permutation_nil_r in P.
Qed.

(** ** Marks *)

(** Whether a message is among the given ones, by identifier. *)
Definition listed (l : list InboxMessageRecord) m : bool :=
  existsb (fun x => (msg_id m =? msg_id x)%Z) l.

Lemma mark_notified_spec now l t :
  mark_notified now l t
  = map (fun m => if listed l m then set_notified_at now m else m) t.
Proof.
  unfold mark_notified. revert t. induction l as [|x l IH]; intros t; cbn [fold_left].
  - cbn. by rewrite map_id.
  - rewrite IH. unfold sql_update. rewrite map_map. apply map_ext. intros m. cbn [listed existsb].
    destruct (msg_id m =? msg_id x)%Z eqn:E; cbn [orb]; [|done].
    change (listed l (set_notified_at now m)) with (listed l m). by destruct (listed l m).
Qed.

Lemma listed_elem l m : m ∈ l -> listed l m = true.
Proof. intros Hm. apply existsb_elem. exists m. split; [done|]. apply Z.eqb_refl. Qed.

Lemma listed_found s l m :
  messages_ok s -> (forall x, x ∈ l -> x ∈ messages s) -> m ∈ messages s ->
  listed l m = true -> m ∈ l.
Proof.
  intros Hok Hl Hm (x & Hx & E%Z.eqb_eq)%existsb_elem.
  assert (m = x) as ->; [|done]. eapply (NoDup_map_inj msg_id (messages s)); eauto.
Qed.

Lemma peek_tables now a s :
  messages (peek_unnotified now a s).1
  = mark_notified now (select_messages (unnotified_for (normalize_agent_id a)) s) (messages s).
Proof.
  unfold peek_unnotified. cbv zeta.
  destruct (select_messages _ _) as [|x l]; [done|]. cbn [fst]. by autorewrite with store.
Qed.

Lemma peek_result now a s :
  (peek_unnotified now a s).2 = Ok (select_messages (unnotified_for (normalize_agent_id a)) s).
Proof. unfold peek_unnotified. cbv zeta. by destruct (select_messages _ _). Qed.

(** The batch lookups of a drain succeed. *)
Lemma load_by_source_total s id :
  store_ok s -> exists b, load_batch_by_source_message_id s id = Ok b.
Proof.
  intros Hs. unfold load_batch_by_source_message_id.
  destruct (sql_first _) as [r|] eqn:F; [|eauto].
  apply sql_first_Some, elem_of_lfilter in F as [Hr _].
  destruct (load_batch_row s r Hs Hr) as (items & _ & -> & _). eauto.
Qed.

Lemma collect_total {A B} (f : A -> result B string) l :
  (forall x, x ∈ l -> exists y, f x = Ok y) -> exists ys, collect f l = Ok ys.
Proof.
  induction l as [|x l IH]; intros Hf; cbn; [eauto|].
  destruct (Hf x ltac:(set_solver)) as [y ->].
  destruct IH as [ys ->]; [|eauto]. intros z Hz. apply Hf. set_solver.
Qed.

Lemma drain_tables now a s :
  store_ok s ->
  (drain_unread now a s).2 = Ok (select_messages (unread_for (normalize_agent_id a)) s) /\
  messages (drain_unread now a s).1
  = sql_update (unread_for (normalize_agent_id a)) (set_read_at now) (messages s).
Proof.
  intros Hs. unfold drain_unread. cbv zeta.
  destruct (collect_total (fun m => load_batch_by_source_message_id s (msg_id m))
    (select_messages (unread_for (normalize_agent_id a)) s)) as [bs ->].
  { intros m _. by apply load_by_source_total. }
  destruct (select_messages _ _) as [|x l]; [done|].
  cbn [transaction fst snd]. split; [done|].
  rewrite (fold_append_messages (fun _ => "message.consumed")
    (fun mb => recovery_data mb.2 (consumed_event now (normalize_agent_id a) mb.1))).
  by autorewrite with store.
Qed.

(**  Draining an inbox.  On a well-formed store [drain_unread] succeeds: it
    returns exactly the unread messages of the (normalised) agent, oldest
    first and by identifier within a second, marks exactly those read, leaves
    every other message and every mark of delivery alone, and leaves nothing
    unread, so the next drain returns nothing. *)
Theorem drain_returns_each_message_once now now' a s :
  store_ok s ->
  let key := normalize_agent_id a in
  let s' := (drain_unread now a s).1 in
  exists found, (drain_unread now a s).2 = Ok found /\
    found ≡ₚ List.filter (unread_for key) (messages s) /\
    StronglySorted (fun x y => msg_le x y = true) found /\
    messages s' = map (fun m => if unread_for key m then set_read_at now m else m) (messages s) /\
    unread_count s' a = 0%Z /\
    (drain_unread now' a s').2 = Ok [].
Proof.
  intros Hs. cbv zeta. set (key := normalize_agent_id a).
  destruct (drain_tables now a s Hs) as [E2 E1]. fold key in E1, E2.
  assert (Hs' : store_ok (drain_unread now a s).1).
  { by apply (queue_untouched_ok (fun _ => True) s), Hs; apply drain_untouched. }
  assert (Hnone : forall m, m ∈ messages (drain_unread now a s).1 -> unread_for key m = false).
  { rewrite E1. intros m' (m & Hm & ->)%elem_of_sql_update.
    destruct (unread_for key m) eqn:U; [|done]. unfold unread_for. cbn. by rewrite andb_false_r. }
  eexists. split; [exact E2|]. split; [apply select_messages_perm|].
  split; [apply select_messages_sorted|]. split; [exact E1|]. split.
  - unfold unread_count, sql_count. fold key.
    assert (List.filter (unread_for key) (messages (drain_unread now a s).1) = []) as ->; [|done].
    by apply filter_negb_nil, existsb_false.
  - destruct (drain_tables now' a _ Hs') as [-> _]. fold key. by rewrite select_messages_nil.
Qed.

(**  Notifying once.  [peek_unnotified] returns the unread messages of the
    agent it has not returned before, oldest first, and marks exactly them
    notified; read marks, and so the unread count of every agent, do not
    change, and an immediate second peek returns nothing. *)
Theorem peek_notifies_once now now' a s :
  messages_ok s ->
  let key := normalize_agent_id a in
  let s' := (peek_unnotified now a s).1 in
  exists found, (peek_unnotified now a s).2 = Ok found /\
    found ≡ₚ List.filter (unnotified_for key) (messages s) /\
    StronglySorted (fun x y => msg_le x y = true) found /\
    messages s' = map (fun m => if unnotified_for key m then set_notified_at now m else m)
                    (messages s) /\
    (forall b, unread_count s' b = unread_count s b) /\
    (peek_unnotified now' a s').2 = Ok [].
Proof.
  intros Hok. cbv zeta. set (key := normalize_agent_id a).
  pose proof (peek_tables now a s) as E1. fold key in E1. rewrite mark_notified_spec in E1.
  assert (E : messages (peek_unnotified now a s).1
    = map (fun m => if unnotified_for key m then set_notified_at now m else m) (messages s)).
  { rewrite E1. apply map_ext_in. intros m Hm%list_elem_of_In.
    destruct (unnotified_for key m) eqn:U.
    - by rewrite listed_elem by by apply elem_of_select.
    - destruct (listed _ m) eqn:L; [|done].
      apply (listed_found s) in L; [|done|intros x Hx; by apply elem_of_select in Hx as [? _]|done].
      apply elem_of_select in L as [_ L]. congruence. }
  eexists. split; [apply peek_result|]. split; [apply select_messages_perm|].
  split; [apply select_messages_sorted|]. split; [exact E|]. split.
  - intros b. unfold unread_count, sql_count. rewrite E. f_equal. clear.
    induction (messages s) as [|m t IH]; [done|]. cbn.
    assert (unread_for (normalize_agent_id b)
              (if unnotified_for key m then set_notified_at now m else m)
            = unread_for (normalize_agent_id b) m) as -> by by destruct (unnotified_for key m).
    destruct (unread_for _ m); cbn; lia.
  - rewrite peek_result, select_messages_nil; [done|]. fold key. rewrite E.
    intros m' (m & -> & Hm)%list_elem_of_fmap. destruct (unnotified_for key m) eqn:U; [|done].
    unfold unnotified_for. cbn. by rewrite andb_false_r.
Qed.

(** ** The poke schedule *)

(** [agent_id] is the primary key of [agent_inbox_meta]. *)
Definition meta_ok s : Prop := NoDup (map meta_agent_id (agent_inbox_meta s)).

Definition meta_of s (key : string) : option InboxMeta :=
  sql_first (sql_where (meta_for key) (agent_inbox_meta s)).

Lemma meta_where key (t : list InboxMeta) :
  NoDup (map meta_agent_id t) ->
  sql_where (meta_for key) t = [] \/ exists m, sql_where (meta_for key) t = [m].
Proof.
  unfold sql_where, meta_for. induction t as [|x t IH]; cbn; [by left|].
  intros [Hx Hnd]%NoDup_cons. destruct (String.eqb (meta_agent_id x) key) eqn:E; [|auto].
  right. exists x. f_equal. apply filter_negb_nil, existsb_false. intros y Hy.
  apply String.eqb_neq. intros Ey. apply Hx. apply String.eqb_eq in E. rewrite E, <- Ey.
  apply list_elem_of_fmap. eauto.
Qed.

Lemma upsert_meta_of key fresh upd (t : list InboxMeta) :
  NoDup (map meta_agent_id t) -> meta_agent_id fresh = key ->
  (forall m, meta_agent_id (upd m) = meta_agent_id m) ->
  NoDup (map meta_agent_id (upsert_meta key fresh upd t)) /\
  sql_first (sql_where (meta_for key) (upsert_meta key fresh upd t))
  = Some (match sql_first (sql_where (meta_for key) t) with Some m => upd m | None => fresh end).
Proof.
  intros Hnd Hf Hu. unfold upsert_meta, sql_exists.
  destruct (existsb (meta_for key) t) eqn:Ex.
  - split; [by rewrite sql_update_column|].
    assert (sql_where (meta_for key) (sql_update (meta_for key) upd t)
            = map upd (sql_where (meta_for key) t)) as ->.
    { clear Hnd Ex. unfold sql_where, sql_update. induction t as [|x t IH]; [done|].
      cbn [map List.filter]. destruct (meta_for key x) eqn:E.
      - assert (meta_for key (upd x) = true) as ->; [|by rewrite IH].
        unfold meta_for in *. by rewrite Hu.
      - by rewrite E. }
    destruct (meta_where key t Hnd) as [E|[m E]]; rewrite E.
    + apply filter_negb_nil in E. congruence.
    + cbn. by rewrite !sql_first_singleton.
  - assert (E : sql_where (meta_for key) t = []) by by apply filter_negb_nil.
    assert (sql_where (meta_for key) (t ++ [fresh])%list = [fresh]) as ->.
    { unfold sql_where in *. rewrite List.filter_app, E. cbn. unfold meta_for.
      by rewrite Hf, String.eqb_refl. }
    rewrite sql_first_singleton, E. split.
    + rewrite map_app. apply NoDup_app. split; [done|]. split; [|apply NoDup_singleton].
      intros x (m & -> & Hm)%list_elem_of_fmap Hin%list_elem_of_singleton.
      rewrite existsb_false in Ex. specialize (Ex m Hm).
      apply String.eqb_neq in Ex. congruence.
    + pose proof (sql_scan_perm _ (@nil InboxMeta)) as P. apply Permutation_nil_r in P.
      unfold sql_first. by rewrite P.
Qed.

(** What one poke records. *)
Lemma record_poke_meta now a newest base max s :
  meta_ok s ->
  let key := normalize_agent_id a in
  let s' := (record_poke now a newest base max s).1 in
  meta_ok s' /\ messages s' = messages s /\
  exists m, meta_of s' key = Some m /\ meta_last_poke_at m = Some now /\
    meta_last_poke_message_id m = Some newest /\
    meta_poke_backoff_secs m
      = Some (next_poke_backoff (i64_of_u64_or_max base) (i64_of_u64_or_max max) newest
                (meta_of s key)) /\
    meta_last_check_inbox_at m = (m0 ← meta_of s key; meta_last_check_inbox_at m0).
Proof.
  intros Hok. cbv zeta. unfold record_poke, meta_ok, meta_of. cbv zeta. cbn [fst].
  autorewrite with store. set (key := normalize_agent_id a).
  destruct (upsert_meta_of key
      {| meta_agent_id := key; meta_last_check_inbox_at := None;
         meta_last_poke_at := Some now; meta_last_poke_message_id := Some newest;
         meta_poke_backoff_secs := Some (next_poke_backoff (i64_of_u64_or_max base)
           (i64_of_u64_or_max max) newest
           (sql_first (sql_where (meta_for key) (agent_inbox_meta s)))) |}
      (fun m => {| meta_agent_id := meta_agent_id m;
                   meta_last_check_inbox_at := meta_last_check_inbox_at m;
                   meta_last_poke_at := Some now;
                   meta_last_poke_message_id := Some newest;
                   meta_poke_backoff_secs := Some (next_poke_backoff (i64_of_u64_or_max base)
                     (i64_of_u64_or_max max) newest
                     (sql_first (sql_where (meta_for key) (agent_inbox_meta s)))) |})
      (agent_inbox_meta s)) as [Hnd E]; [exact Hok|done|done|].
  split; [exact Hnd|]. split; [done|]. eexists. split; [exact E|].
  by destruct (sql_first (sql_where (meta_for key) (agent_inbox_meta s))).
Qed.

Definition pokes a newest base max (nows : list Z) s : InboxStore :=
  fold_left (fun s now => (record_poke now a newest base max s).1) nows s.

Lemma pokes_snoc a newest base max nows now s :
  pokes a newest base max (nows ++ [now])%list s
  = (record_poke now a newest base max (pokes a newest base max nows s)).1.
Proof. unfold pokes. by rewrite fold_left_app. Qed.

(** The backoff after [k] repeated pokes. *)
Definition backoff_after (k : nat) (base max : Z) : Z :=
  match k with 0%nat => base | _ => Z.min (base * 2 ^ Z.of_nat k) max end.

Lemma backoff_after_step k base max m newest :
  (0 <= base <= i64_max)%Z -> (0 <= max <= i64_max)%Z ->
  meta_last_poke_message_id m = Some newest ->
  meta_poke_backoff_secs m = Some (backoff_after k base max) ->
  next_poke_backoff base max newest (Some m) = backoff_after (S k) base max.
Proof.
  intros Hb Hm Hn Hk. unfold next_poke_backoff. cbn [mbind option_bind].
  rewrite Hn, Hk, bool_decide_eq_true_2 by done. cbn [default].
  unfold i64_saturating_mul, i64_clamp, i64_min. unfold i64_max in *.
  unfold backoff_after. rewrite Nat2Z.inj_succ, Z.pow_succ_r by lia.
  destruct k as [|k]; [cbn; lia|].
  assert (0 <= 2 ^ Z.of_nat (S k))%Z by (apply Z.pow_nonneg; lia). cbn [id]. nia.
Qed.

(**  Exponential backoff of reminders.  Poking an agent about the same
    newest message [k + 1] times in a row, starting from a message it was not
    last poked about, records the backoff [base * 2^k] seconds capped at the
    maximum (the first poke always records the base), the time of the last
    poke and the message; the 64-bit saturation never shows. *)
Theorem poke_backoff_doubles a newest base max nows now s :
  meta_ok s -> (0 <= base <= u64_max)%Z -> (0 <= max <= u64_max)%Z ->
  (m ← meta_of s (normalize_agent_id a); meta_last_poke_message_id m) <> Some newest ->
  exists m, meta_of (pokes a newest base max (nows ++ [now])%list s) (normalize_agent_id a) = Some m /\
    meta_last_poke_at m = Some now /\ meta_last_poke_message_id m = Some newest /\
    meta_poke_backoff_secs m
    = Some (match List.length nows with
            | 0%nat => Z.min base i64_max
            | k => Z.min (Z.min base i64_max * 2 ^ Z.of_nat k) (Z.min max i64_max)
            end).
Proof.
  intros Hok Hb Hm Hn.
  assert (Hgen : meta_ok (pokes a newest base max (nows ++ [now])%list s) /\
    exists m, meta_of (pokes a newest base max (nows ++ [now])%list s) (normalize_agent_id a)
                = Some m /\
      meta_last_poke_at m = Some now /\ meta_last_poke_message_id m = Some newest /\
      meta_poke_backoff_secs m = Some (backoff_after (List.length nows)
        (i64_of_u64_or_max base) (i64_of_u64_or_max max))).
  { revert now. induction nows as [|now0 nows IH] using rev_ind; intros now.
    - destruct (record_poke_meta now a newest base max s Hok) as (Hok' & _ & m & E & Ea & Em & Eb & _).
      split; [exact Hok'|]. exists m. split; [exact E|]. split; [done|]. split; [done|].
      rewrite Eb. unfold next_poke_backoff. by rewrite bool_decide_eq_false_2.
    - destruct (IH now0) as [Hok' (m0 & E0 & _ & Em0 & Eb0)].
      destruct (record_poke_meta now a newest base max _ Hok')
        as (Hok'' & _ & m & E & Ea & Em & Eb & _).
      rewrite pokes_snoc. split; [exact Hok''|]. exists m. split; [exact E|].
      split; [done|]. split; [done|]. rewrite Eb, E0, length_app. f_equal.
      replace (List.length nows + List.length [now0])%nat with (S (List.length nows))
        by (cbn; lia).
      apply backoff_after_step; [| |done|exact Eb0]; unfold i64_of_u64_or_max, i64_max; lia. }
  destruct Hgen as [_ (m & E & Ea & Em & Eb)]. exists m. split; [done|]. split; [done|].
  split; [done|]. rewrite Eb. unfold backoff_after, i64_of_u64_or_max. by destruct (List.length nows).
Qed.

Lemma agents_needing_poke_elem now base s c :
  c ∈ agents_needing_poke now base s ->
  exists key, poke_candidate now (i64_of_u64_or_max base) s key = Some c.
Proof.
  unfold agents_needing_poke. cbv zeta. rewrite list_elem_of_omap. intros (key & _ & E). eauto.
Qed.

(**  A reminder is not repeated early.  After a poke about the agent's newest
    unread message, and while no newer message arrives, the scan for agents to
    poke does not name the agent before the recorded backoff has passed. *)
Theorem poke_waits_for_backoff now now' a newest base max base' s :
  meta_ok s ->
  sql_max msg_id (sql_where (unread_for (normalize_agent_id a)) (messages s)) = Some newest ->
  let s' := (record_poke now a newest base max s).1 in
  (now' < i64_saturating_add now
            (next_poke_backoff (i64_of_u64_or_max base) (i64_of_u64_or_max max) newest
               (meta_of s (normalize_agent_id a))))%Z ->
  forall c, c ∈ agents_needing_poke now' base' s' -> pc_agent_id c <> normalize_agent_id a.
Proof.
  intros Hok Hmax. cbv zeta. intros Hnow c Hc Ec.
  apply agents_needing_poke_elem in Hc as [key E].
  destruct (record_poke_meta now a newest base max s Hok) as (_ & Emsg & m & Em & Ea & En & Eb & _).
  unfold poke_candidate in E. cbv zeta in E.
  destruct (_ || _) eqn:G; [done|]. injection E as <-. cbn in Ec. subst key.
  apply orb_false_iff in G as [_ G].
  fold (meta_of (record_poke now a newest base max s).1 (normalize_agent_id a)) in G.
  rewrite Em, Emsg, Hmax in G. unfold poke_due_at in G. cbn [mbind option_bind default] in G.
  rewrite En, Ea, Eb, bool_decide_eq_true_2 in G by done. cbn in G.
  apply Z.ltb_ge in G. lia.
Qed.

(** ** Migration of recipient keys *)

Definition apply_updates (ups : list (Z * string)) (m : InboxMessageRecord) : InboxMessageRecord :=
  fold_left (fun m u => if (msg_id m =? u.1)%Z then set_to_agent u.2 m else m) ups m.

Lemma fold_updates_map ups (t : list InboxMessageRecord) :
  fold_left (fun t u => sql_update (fun m => (msg_id m =? u.1)%Z) (set_to_agent u.2) t) ups t
  = map (apply_updates ups) t.
Proof.
  revert t. induction ups as [|u ups IH]; intros t; cbn [fold_left].
  - by rewrite map_id.
  - rewrite IH. unfold sql_update. rewrite map_map. done.
Qed.

(** All updates of one identifier agree, so the last one wins harmlessly. *)
Lemma apply_updates_agree ups m n :
  (forall u, u ∈ ups -> u.1 = msg_id m -> u.2 = n) ->
  apply_updates ups m
  = if existsb (fun u => (msg_id m =? u.1)%Z) ups then set_to_agent n m else m.
Proof.
  unfold apply_updates. revert m. induction ups as [|u ups IH]; intros m Hu; [done|].
  cbn [fold_left existsb]. destruct (msg_id m =? u.1)%Z eqn:E; cbn [orb].
  - apply Z.eqb_eq in E. rewrite (Hu u) by set_solver. rewrite IH.
    + cbn. by destruct (existsb _ ups).
    + intros u' Hu' Eu. apply Hu; [set_solver|done].
  - apply IH. intros u' Hu' Eu. apply Hu; [set_solver|done].
Qed.

Lemma set_to_agent_same m : set_to_agent (msg_to_agent m) m = m.
Proof. by destruct m. Qed.

Lemma normalize_messages_spec t :
  NoDup (map msg_id t) ->
  normalize_messages t = map (fun m => set_to_agent (normalize_agent_id (msg_to_agent m)) m) t.
Proof.
  intros Hnd. unfold normalize_messages. cbv zeta. rewrite fold_updates_map.
  apply map_ext_in. intros m Hm%list_elem_of_In.
  rewrite (apply_updates_agree _ m (normalize_agent_id (msg_to_agent m))).
  - destruct (existsb _ _) eqn:E; [done|]. rewrite existsb_false in E.
    destruct (String.eqb (normalize_agent_id (msg_to_agent m)) (msg_to_agent m)) eqn:N.
    + apply String.eqb_eq in N. by rewrite N, set_to_agent_same.
    + specialize (E (msg_id m, normalize_agent_id (msg_to_agent m))). cbn in E.
      rewrite Z.eqb_refl in E. discriminate E.
      apply list_elem_of_omap. exists m. split; [by apply elem_of_sql_scan|]. by rewrite N.
  - intros u (m' & Hm' & E)%list_elem_of_omap Eu. rewrite elem_of_sql_scan in Hm'.
    destruct (String.eqb _ _); [done|]. injection E as <-. cbn [fst snd] in *.
    assert (m' = m) as ->; [|done]. by apply (NoDup_map_inj msg_id t).
Qed.

Definition migrated_key (key : string) : string :=
  let key := normalize_agent_id key in if legacy_branch key then "root" else key.

Lemma migrate_messages s :
  messages_ok s ->
  messages (migrate s) = map (fun m => set_to_agent (migrated_key (msg_to_agent m)) m) (messages s).
Proof.
  intros Hok. unfold migrate, remap_legacy_branch_recipients, normalize_existing_agent_ids.
  cbn [messages set_messages set_meta]. rewrite normalize_messages_spec by done.
  unfold sql_update. rewrite map_map. apply map_ext. intros m. unfold migrated_key. cbv zeta.
  cbn [msg_to_agent set_to_agent]. by destruct (legacy_branch _).
Qed.

Lemma migrated_key_canonical key :
  normalize_agent_id (migrated_key key) = migrated_key key /\ legacy_branch (migrated_key key) = false.
Proof.
  unfold migrated_key. cbv zeta. destruct (legacy_branch (normalize_agent_id key)) eqn:E; [done|].
  split; [apply normalize_agent_id_idem|done].
Qed.

Lemma migrated_key_idem key : migrated_key (migrated_key key) = migrated_key key.
Proof.
  destruct (migrated_key_canonical key) as [E1 E2].
  unfold migrated_key at 1. cbv zeta. by rewrite E1, E2.
Qed.

Lemma merge_meta_keys m (t : list InboxMeta) key :
  key ∈ map meta_agent_id (merge_meta m t) <-> key = meta_agent_id m \/ key ∈ map meta_agent_id t.
Proof.
  induction t as [|e t IH]; cbn [merge_meta map]; [set_solver|].
  destruct (String.eqb (meta_agent_id m) (meta_agent_id e)) eqn:E; cbn [map meta_agent_id].
  - apply String.eqb_eq in E. rewrite E. set_solver.
  - destruct (String.ltb _ _); cbn [map]; set_solver.
Qed.

Lemma fold_merge_keys (l acc : list InboxMeta) key :
  key ∈ map meta_agent_id (fold_left (fun t m => merge_meta (normalize_meta m) t) l acc) <->
  key ∈ map meta_agent_id acc \/ exists m, m ∈ l /\ key = normalize_agent_id (meta_agent_id m).
Proof.
  revert acc. induction l as [|m l IH]; intros acc; cbn [fold_left]; [set_solver|].
  rewrite IH, merge_meta_keys. cbn [normalize_meta meta_agent_id]. set_solver.
Qed.

Lemma migrate_meta_keys s key :
  key ∈ map meta_agent_id (agent_inbox_meta (migrate s)) <->
  legacy_branch key = false /\
  exists m, m ∈ agent_inbox_meta s /\ key = normalize_agent_id (meta_agent_id m).
Proof.
  unfold migrate, remap_legacy_branch_recipients, normalize_existing_agent_ids.
  cbn [agent_inbox_meta set_messages set_meta]. set (t := fold_left _ _ _).
  assert (Hk : key ∈ map meta_agent_id t <->
    exists m, m ∈ agent_inbox_meta s /\ key = normalize_agent_id (meta_agent_id m)).
  { unfold t. rewrite fold_merge_keys. setoid_rewrite elem_of_sql_scan. set_solver. }
  rewrite <- Hk. clear Hk. generalize t. clear t. intros t. unfold sql_delete.
  rewrite !list_elem_of_fmap. split.
  - intros (m & -> & Hm). apply elem_of_lfilter in Hm as [Hm E]. bool_facts. eauto.
  - intros (E & m & -> & Hm). exists m. split; [done|]. apply elem_of_lfilter.
    split; [done|]. by rewrite E.
Qed.

(**  Migration of recipient keys.  Opening a database rewrites recipients
    only: no message is lost, added or reordered and no other column changes;
    afterwards every message is addressed to the bare (last) segment of its old
    recipient, with the retired branch names [main], [master] and [parent]
    renamed to [root]; the reminder rows of those names are gone and the others
    keep their normalised key.  Migrating again changes no message. *)
Theorem migration_canonicalises_recipients s :
  messages_ok s ->
  messages (migrate s) = map (fun m => set_to_agent (migrated_key (msg_to_agent m)) m) (messages s) /\
  (forall m, m ∈ messages (migrate s) ->
     normalize_agent_id (msg_to_agent m) = msg_to_agent m /\ legacy_branch (msg_to_agent m) = false) /\
  (forall key, key ∈ map meta_agent_id (agent_inbox_meta (migrate s)) <->
     legacy_branch key = false /\
     exists m, m ∈ agent_inbox_meta s /\ key = normalize_agent_id (meta_agent_id m)) /\
  messages (migrate (migrate s)) = messages (migrate s).
Proof.
  intros Hok. pose proof (migrate_messages s Hok) as E. split; [done|]. split; [|split].
  - rewrite E. intros m' (m & -> & Hm)%list_elem_of_fmap. apply migrated_key_canonical.
  - intros key. apply migrate_meta_keys.
  - rewrite migrate_messages.
    + rewrite E, map_map. apply map_ext. intros m. cbn. by rewrite migrated_key_idem.
    + unfold messages_ok. rewrite E, map_map. exact Hok.
Qed.
End InboxSpec.
