(* ===== verification/GuidanceSpec.v ===== *)
(** * The durable guidance queue as a transition system

    The operations of the queue and the inbox as the steps of one store, and
    the properties of every store they reach: the store invariant, lease
    exclusion, claim order, acceptance authority, terminal stability and the
    retry budget. *)

From S2P Require Import Prelude RustStr JsonValue SqlTable GuidanceTypes Store Topic.
From S2P Require Import GuidanceQueue GuidanceRows GuidanceSystem GuidanceEnqueue.
From S2P Require Import GuidanceShadow Inbox.
Local Open Scope string_scope.

(** One call on the store, with the clock and identifiers it reads.  [OpReopen]
    is a restart: [open_path] migrates the existing tables. *)
Inductive queue_op :=
| OpEnqueue (now : Z) (u : nat -> string) (request : GuidanceBatchRequest)
| OpEnqueueTopic (now : Z) (u : nat -> string) (topic : string)
    (items : list GuidanceItemInput) (identity : GuidanceIdentity)
    (key : option string) (source : option Z)
| OpEnqueueCompat (now : Z) (u : nat -> string) (request : GuidanceBatchRequest)
    (from_agent content : string) (summary : option string)
| OpRecover (now : Z)
| OpClaim (now : Z) (boundary : BoundaryEvidence) (consumer : GuidanceConsumer)
    (lease_seconds : Z)
| OpTransport (now : Z) (batch_id consumer_id : string) (attempt : TransportAttempt)
| OpAck (now : Z) (evidence : RuntimeAcceptanceEvidence)
| OpRelease (now : Z) (batch_id consumer_id reason : string) (next_attempt_at : Z)
| OpCancel (now : Z) (batch_id reason : string)
| OpWrite (now : Z) (from_agent to_agent content : string) (summary : option string)
| OpPeek (now : Z) (agent_id : string)
| OpDrain (now : Z) (agent_id : string)
| OpPoke (now : Z) (agent_id : string) (newest base max : Z)
| OpReopen.

Section Spec.
Context `{SqlEngine} `{JsonText} `{EventSink} `{Sha256}.
Implicit Types (s : InboxStore).

Definition run_op (op : queue_op) s : InboxStore :=
  match op with
  | OpEnqueue now u request => (enqueue_batch now u request s).1
  | OpEnqueueTopic now u topic items identity key source =>
      (enqueue_in_topic now u topic items identity key source s).1
  | OpEnqueueCompat now u request f c o =>
      (enqueue_batch_with_compatibility now u request f c o s).1
  | OpRecover now => (recover_expired_leases now s).1
  | OpClaim now boundary consumer lease => (claim_next now boundary consumer lease s).1
  | OpTransport now id c attempt => (record_transport_attempt now id c attempt s).1
  | OpAck now evidence => (acknowledge_runtime now evidence s).1
  | OpRelease now id c reason at_ => (release_for_retry now id c reason at_ s).1
  | OpCancel now id reason => (cancel_batch now id reason s).1
  | OpWrite now f t c o => (write_message now f t c o s).1
  | OpPeek now a => (peek_unnotified now a s).1
  | OpDrain now a => (drain_unread now a s).1
  | OpPoke now a n b m => (record_poke now a n b m s).1
  | OpReopen => migrate s
  end.

Definition run_ops (ops : list queue_op) s : InboxStore := fold_left (fun s op => run_op op s) ops s.

(** The call comes back (only a claim may not). *)
Definition op_returns (op : queue_op) s : bool :=
  match op with
  | OpClaim now boundary consumer lease =>
      match (claim_next now boundary consumer lease s).2 with
      | Returns _ => true
      | Blocks => false
      end
  | _ => true
  end.

Fixpoint ops_return (ops : list queue_op) s : bool :=
  match ops with
  | [] => true
  | op :: rest => op_returns op s && ops_return rest (run_op op s)
  end.

Lemma run_ops_snoc ops op s : run_ops (ops ++ [op])%list s = run_op op (run_ops ops s).
Proof. unfold run_ops. by rewrite fold_left_app. Qed.

(** ** Preservation *)

Lemma quiet_ok A s s' :
  store_ok s -> quiet A s s' -> store_ok s' /\ evolves A (guidance_batches s) (guidance_batches s').
Proof. intros Hs Q. split; [by eapply store_ok_quiet|apply Q]. Qed.

(** The rows an operation may accept. *)
Definition op_authorises (op : queue_op) s (r : BatchRow) : Prop :=
  match op with
  | OpAck _ ev => r ∈ guidance_batches s /\ ack_authorises ev s r
  | _ => False
  end.

Lemma run_op_ok (A : BatchRow -> Prop) op s :
  store_ok s -> (forall r, op_authorises op s r -> A r) ->
  store_ok (run_op op s) /\ evolves A (guidance_batches s) (guidance_batches (run_op op s)).
Proof.
  intros Hs HA. pose proof (so_rows _ Hs) as Hr. destruct op; cbn [run_op].
  - by apply enqueue_batch_ok.
  - unfold enqueue_in_topic. destruct (InTopic.parse topic); [by apply enqueue_batch_ok|].
    split; [done|apply evolves_refl].
  - by apply enqueue_compat_ok.
  - apply quiet_ok; [done|by apply recover_expired_leases_quiet].
  - apply quiet_ok; [done|by apply claim_next_quiet].
  - apply quiet_ok; [done|by apply record_transport_attempt_quiet].
  - apply quiet_ok; [done|]. apply acknowledge_runtime_quiet; [done|].
    intros r ? ?. by apply HA.
  - apply quiet_ok; [done|by apply release_for_retry_quiet].
  - apply quiet_ok; [done|by apply cancel_batch_quiet].
  - apply queue_untouched_ok; [apply write_message_untouched|done].
  - apply queue_untouched_ok; [apply peek_untouched|done].
  - apply queue_untouched_ok; [apply drain_untouched|done].
  - apply queue_untouched_ok; [apply record_poke_untouched|done].
  - by apply queue_untouched_ok.
Qed.

Lemma run_ops_ok ops s :
  store_ok s ->
  store_ok (run_ops ops s) /\ evolves (fun _ => True) (guidance_batches s) (guidance_batches (run_ops ops s)).
Proof.
  revert s. induction ops as [|op ops IH]; intros s Hs; cbn; [by split; [|apply evolves_refl]|].
  destruct (run_op_ok (fun _ => True) op s Hs) as [Hs1 E1]; [done|].
  destruct (IH _ Hs1) as [Hs2 E2].
  split; [done|]. by eapply evolves_trans.
Qed.

Lemma empty_store_ok path : store_ok (empty_store path).
Proof.
  constructor; cbn; try by intros ? ?%elem_of_nil.
  constructor; cbn; try constructor; intros ? ? ?; by intros ?%elem_of_nil.
Qed.

Lemma reachable_ok path ops : store_ok (run_ops ops (empty_store path)).
Proof. apply run_ops_ok, empty_store_ok. Qed.


(**  Terminal states are final.  Once a batch is accepted, abandoned or
    cancelled, no later sequence of operations changes any column of its row:
    it is still in the table, byte for byte. *)
Theorem terminal_rows_stable s ops r :
  store_ok s -> r ∈ guidance_batches s ->
  GuidanceState.is_terminal (row_state r) = true ->
  r ∈ guidance_batches (run_ops ops s).
Proof.
  intros Hs Hr T. destruct (run_ops_ok ops s Hs) as [_ E].
  destruct (evolves_elem_fwd _ _ _ _ E Hr) as (r' & Hr' & S).
  by rewrite (row_steps_terminal _ _ _ T S) in Hr'.
Qed.

(** ** Acceptance *)

Lemma row_steps_accepted A r r' :
  rtc (row_step A) r r' -> row_state r' = Accepted ->
  r' = r \/ exists r1, A r1 /\ row_key r' = row_key r1.
Proof.
  induction 1 as [r|r r1 r' S S' IH]; intros Ac; [by left|].
  destruct (IH Ac) as [->|(r2 & HA & K)]; [|eauto].
  right. exists r. destruct (row_step_accepted _ _ _ S Ac) as [_ HA].
  split; [done|]. by eapply row_step_key.
Qed.

(** C2.  Only exact runtime evidence accepts.  In a well-formed store no
    operation makes a batch accepted except an acknowledgement whose evidence
    names the leased or submitted row exactly and with exact confidence: a row
    accepted after an operation was accepted before it, or the operation is
    that acknowledgement.  Enqueue, transport, delivery marks, mailbox reads,
    recovery, release and cancel never accept. *)
Theorem acceptance_needs_exact_evidence op s r' :
  store_ok s -> r' ∈ guidance_batches (run_op op s) -> row_state r' = Accepted ->
  r' ∈ guidance_batches s \/
  exists now ev r, op = OpAck now ev /\ r ∈ guidance_batches s /\ row_key r' = row_key r /\
    ack_authorises ev s r.
Proof.
  intros Hs Hr' Ac. destruct (run_op_ok (op_authorises op s) op s Hs) as [_ E]; [done|].
  assert (Hauth : forall r, op_authorises op s r -> exists now ev,
            op = OpAck now ev /\ r ∈ guidance_batches s /\ ack_authorises ev s r).
  { intros r. destruct op; cbn; try done. intros [? ?]. eauto. }
  destruct (evolves_elem _ _ _ _ E Hr') as [(r & Hr & S)|(r & F & S)];
    destruct (row_steps_accepted _ _ _ S Ac) as [->|(r1 & HA & K)].
  - by left.
  - right. destruct (Hauth _ HA) as (now & ev & ? & ? & ?). by exists now, ev, r1.
  - destruct F as [St _]. congruence.
  - right. destruct (Hauth _ HA) as (now & ev & ? & ? & ?). by exists now, ev, r1.
Qed.

(** ** Idempotent enqueue *)

Lemma row_key_key_row a key r r' : row_key r' = row_key r -> key_row a key r -> key_row a key r'.
Proof. unfold row_key, key_row. intros [= ? -> ? ? ? ? ->]. done. Qed.

(**  An idempotency key enqueues one batch.  After an enqueue with a key
    succeeded, and after any further operations, another valid request with
    the same agent and key creates nothing: in the same class it returns the
    batch the key already names, in the other class it is refused, and the
    store, ledger included, does not change. *)
Theorem enqueue_key_is_idempotent now u request s s1 res key ops now' u' request' :
  store_ok s -> enqueue_batch now u request s = (s1, Ok res) ->
  req_idempotency_key request = Some key ->
  validate_batch_request request' = Ok tt -> req_idempotency_key request' = Some key ->
  normalize_agent_id (req_agent_id request') = normalize_agent_id (req_agent_id request) ->
  let s2 := run_ops ops s1 in
  if bool_decide (req_queue_class request = req_queue_class request')
  then exists batch, enqueue_batch now' u' request' s2
                     = (s2, Ok {| er_batch := batch; er_created := false |}) /\
         gb_batch_id batch = gb_batch_id (er_batch res)
  else enqueue_batch now' u' request' s2
       = (s2, Err "idempotency key already belongs to another queue class").
Proof.
  intros Hs E Hk V' Hk' Ha s2.
  destruct (enqueue_batch_key_row _ _ _ _ _ _ _ Hs E Hk) as (r & Hr & Hkr & Hid & Hc).
  pose proof (enqueue_batch_ok (fun _ => True) now u request s Hs) as [Hs1 _].
  rewrite E in Hs1. destruct (run_ops_ok ops s1 Hs1) as [Hs2 Ev].
  destruct (evolves_elem_fwd _ _ _ _ Ev Hr) as (r2 & Hr2 & S%row_steps_key).
  rewrite <- Ha in Hkr. pose proof (row_key_key_row _ _ _ _ S Hkr) as Hkr2.
  apply row_key_fields in S as (S1 & _ & S2 & _).
  rewrite <- Hid, <- S1, <- Hc, <- S2.
  by apply (enqueue_batch_replay now' u' request' s2 key r2).
Qed.
End Spec.
