(* ===== verification/GuidanceReplay.v ===== *)
(** * Replay of the event ledger

    [services/guidance_replay.rs]: reconstruct the state of the durable queue
    from the mirrored ledger, without item bodies. *)

From stdpp Require Import gmap.
From S2P Require Import Prelude RustStr JsonValue SqlTable GuidanceTypes Store GuidanceQueue.
Local Open Scope string_scope.

Definition STATE_EVENT : string := "inbox.state_changed".

Record GuidanceReplayBatch := {
  rb_batch_id : string;
  rb_agent_id : string;
  rb_queue_class : QueueClass;
  rb_queue_seq : Z;
  rb_state : GuidanceState;
  rb_item_ids : list string;
  rb_identity : GuidanceIdentity
}.

(** [GuidanceReplayProjection::batches]. *)
Notation GuidanceReplayProjection := (gmap string GuidanceReplayBatch).

(** A JSON object as [serde_json::Map]. *)
Definition obj := list (string * json).

(** ** Field access *)

Definition optional_string (data : obj) (field : string) : option string :=
  v ← obj_get field data; as_str v.

Definition required_string (data : obj) (field : string) : result string string :=
  option_context (optional_string data field) ("guidance event lacks " ++ field).

(** [value.as_i64().or_else(|| value.as_u64().and_then(i64::try_from))]. *)
Definition optional_i64 (data : obj) (field : string) : option Z :=
  v ← obj_get field data;
  match as_i64 v with
  | Some n => Some n
  | None => n ← as_u64 v; if (n <=? i64_max)%Z then Some n else None
  end.

Definition required_i64 (data : obj) (field : string) : result Z string :=
  option_context (optional_i64 data field) ("guidance event lacks " ++ field).

Definition optional_u64 (data : obj) (field : string) : option Z :=
  v ← obj_get field data; as_u64 v.

Definition optional_item_ids (data : obj) : result (option (list string)) string :=
  match obj_get "item_ids" data with
  | None => Ok ((fun i => [i]) <$> optional_string data "item_id")
  | Some value =>
      let? items := option_context (as_array value) "guidance item_ids must be an array" in
      let? ids := collect (fun item => option_context (as_str item)
                                         "guidance item_ids must contain strings") items in
      Ok (Some ids)
  end.

Definition item_ids (data : obj) : result (list string) string :=
  let? ids := optional_item_ids data in
  option_context ids "guidance enqueue lacks item_ids".

(** ** Identity *)

Definition identity (data : obj) : GuidanceIdentity := {|
  gi_run_id := optional_string data "run_id";
  gi_session_id := optional_string data "session_id";
  gi_invocation_id := optional_string data "invocation_id";
  gi_generation := optional_u64 data "generation";
  gi_runtime := optional_string data "runtime";
  gi_harness := optional_string data "harness";
  gi_role := optional_string data "role" |}.

(** [if field.is_none() { field = read }]. *)
Definition keep_or {A} (o read : option A) : option A :=
  match o with Some _ => o | None => read end.

Definition merge_identity (i : GuidanceIdentity) (data : obj) : GuidanceIdentity := {|
  gi_run_id := keep_or (gi_run_id i) (optional_string data "run_id");
  gi_session_id := keep_or (gi_session_id i) (optional_string data "session_id");
  gi_invocation_id := keep_or (gi_invocation_id i) (optional_string data "invocation_id");
  gi_generation := keep_or (gi_generation i) (optional_u64 data "generation");
  gi_runtime := keep_or (gi_runtime i) (optional_string data "runtime");
  gi_harness := keep_or (gi_harness i) (optional_string data "harness");
  gi_role := keep_or (gi_role i) (optional_string data "role") |}.

(** ** Operations and transitions *)

Definition is_queue_state_operation (operation : string) : bool :=
  existsb (String.eqb operation)
    ["enqueue"; "claim"; "transport_submitted"; "acknowledge"; "release_for_retry";
     "abandon"; "lease_expired"; "cancel"].

Definition declared_state (data : obj) : result (option GuidanceState) string :=
  match obj_get "state" data with
  | None => Ok None
  | Some value =>
      let? text := option_context (as_str value) "guidance state must be a string" in
      let? st := GuidanceState.parse text in
      Ok (Some st)
  end.

Definition target_state (operation : string) (data : obj) : result GuidanceState string :=
  if String.eqb operation "claim" then Ok Leased
  else if String.eqb operation "transport_submitted" then Ok Submitted
  else if String.eqb operation "acknowledge" then Ok Accepted
  else if String.eqb operation "cancel" then Ok Cancelled
  else if existsb (String.eqb operation) ["release_for_retry"; "abandon"; "lease_expired"] then
    let? st := declared_state data in
    option_context st ("guidance operation " ++ operation ++ " lacks state")
  else Err ("unsupported guidance state operation " ++ operation).

Definition valid_transition (current next : GuidanceState) : bool :=
  match current, next with
  | Pending, (Leased | Cancelled) => true
  | Leased, (Submitted | Accepted | Pending | Abandoned | Cancelled) => true
  | Submitted, (Accepted | Pending | Abandoned | Cancelled) => true
  | _, _ => false
  end.

Definition validate_transition (current next : GuidanceState) (operation : string)
  : result unit string :=
  ensure (valid_transition current next)
    ("invalid guidance replay transition " ++ GuidanceState.as_str current ++ " -> "
     ++ GuidanceState.as_str next ++ " for " ++ operation).

(** ** One record *)

Definition new_batch (data : obj) (batch_id : string) : result GuidanceReplayBatch string :=
  let? ids := item_ids data in
  let? agent_id := required_string data "agent_id" in
  let? class_text := required_string data "queue_class" in
  let? queue_class := QueueClass.parse class_text in
  let? queue_seq := required_i64 data "queue_seq" in
  Ok {| rb_batch_id := batch_id; rb_agent_id := agent_id; rb_queue_class := queue_class;
        rb_queue_seq := queue_seq; rb_state := Pending; rb_item_ids := ids;
        rb_identity := identity data |}.

(** [if let Some(x) = read { if x != kept { bail!(..) } }]. *)
Definition unchanged {A} `{EqDecision A} (read : option A) (kept : A) (e : string)
  : result unit string :=
  match read with
  | Some x => ensure (bool_decide (x = kept)) e
  | None => Ok tt
  end.

Definition update_metadata (batch : GuidanceReplayBatch) (data : obj)
  : result GuidanceReplayBatch string :=
  let changed what := "guidance batch " ++ rb_batch_id batch ++ " changed " ++ what
                      ++ " during replay" in
  let? _ := unchanged (optional_string data "agent_id") (rb_agent_id batch)
              (changed "target agent") in
  let? _ := match optional_string data "queue_class" with
            | Some text =>
                let? c := QueueClass.parse text in
                unchanged (Some c) (rb_queue_class batch) (changed "queue class")
            | None => Ok tt
            end in
  let? _ := unchanged (optional_i64 data "queue_seq") (rb_queue_seq batch)
              (changed "queue sequence") in
  let? next := optional_item_ids data in
  let? ids := match next with
              | Some ids =>
                  let? _ := ensure (bool_decide (rb_item_ids batch = [])
                                    || bool_decide (ids = rb_item_ids batch))
                              (changed "item identities") in
                  Ok ids
              | None => Ok (rb_item_ids batch)
              end in
  Ok {| rb_batch_id := rb_batch_id batch; rb_agent_id := rb_agent_id batch;
        rb_queue_class := rb_queue_class batch; rb_queue_seq := rb_queue_seq batch;
        rb_state := rb_state batch; rb_item_ids := ids;
        rb_identity := merge_identity (rb_identity batch) data |}.

Definition set_rb_state (batch : GuidanceReplayBatch) (st : GuidanceState)
  : GuidanceReplayBatch := {|
  rb_batch_id := rb_batch_id batch; rb_agent_id := rb_agent_id batch;
  rb_queue_class := rb_queue_class batch; rb_queue_seq := rb_queue_seq batch;
  rb_state := st; rb_item_ids := rb_item_ids batch; rb_identity := rb_identity batch |}.

(** The loop body for an event of a known batch. *)
Definition replay_update (p : GuidanceReplayProjection) (operation batch_id : string)
    (data : obj) : result GuidanceReplayProjection string :=
  let? batch := option_context (p !! batch_id)
      ("guidance state event precedes enqueue for " ++ batch_id) in
  let? batch' := update_metadata batch data in
  let? next_state := target_state operation data in
  let? declared := declared_state data in
  let? _ := match declared with
            | Some st => ensure (bool_decide (st = next_state))
                ("guidance operation " ++ operation ++ " declares " ++ GuidanceState.as_str st
                 ++ " but replays to " ++ GuidanceState.as_str next_state)
            | None => Ok tt
            end in
  let? _ := validate_transition (rb_state batch') next_state operation in
  Ok (<[batch_id := set_rb_state batch' next_state]> p).

Definition replay_record (p : GuidanceReplayProjection) (record : LedgerEvent)
  : result GuidanceReplayProjection string :=
  if negb (String.eqb (le_event_type record) STATE_EVENT) then Ok p
  else match as_object (le_data record) with
  | None => Ok p
  | Some data =>
      match optional_string data "operation" with
      | None => Ok p
      | Some operation =>
          if negb (is_queue_state_operation operation) then Ok p
          else
            let? batch_id := required_string data "batch_id" in
            if String.eqb operation "enqueue" then
              match p !! batch_id with
              | Some _ => Ok p
              | None =>
                  let? batch := new_batch data batch_id in
                  Ok (<[batch_id := batch]> p)
              end
            else replay_update p operation batch_id data
      end
  end.

Definition replay_guidance_batches (records : list LedgerEvent)
  : result GuidanceReplayProjection string := try_fold replay_record ∅ records.
