(* ===== verification/GuidanceReplaySpec.v ===== *)
(** * The ledger determines the queue

    Every queue operation appends the events from which
    [replay_guidance_batches] reconstructs the rows it wrote. *)

From stdpp Require Import gmap.
From S2P Require Import Prelude RustStr JsonValue SqlTable GuidanceTypes Store Topic.
From S2P Require Import GuidanceQueue GuidanceRows GuidanceSystem GuidanceClaim.
From S2P Require Import GuidanceLifecycle GuidanceEnqueue GuidanceShadow Inbox GuidanceSpec.
From S2P Require Import GuidanceReplay.
Local Open Scope string_scope.

(** The identity fields captured at enqueue, which no operation rewrites. *)
Definition captured (i : GuidanceIdentity) :=
  (gi_run_id i, gi_session_id i, gi_runtime i, gi_harness i, gi_role i).

(** A replayed batch and the row it stands for. *)
Record rb_agrees (b : GuidanceReplayBatch) (r : BatchRow) (ids : list string) : Prop := {
  ra_batch_id : rb_batch_id b = row_batch_id r;
  ra_agent_id : rb_agent_id b = row_agent_id r;
  ra_queue_class : rb_queue_class b = row_queue_class r;
  ra_queue_seq : rb_queue_seq b = row_queue_seq r;
  ra_state : rb_state b = row_state r;
  ra_item_ids : rb_item_ids b = ids;
  ra_captured : captured (rb_identity b) = captured (row_identity r)
}.

(** ** Reading an event back *)

(** A field is absent or has the given value. *)
Definition absent_or {A} (o : option A) (x : A) : Prop := o = None \/ o = Some x.
Definition none_or {A} (o x : option A) : Prop := o = None \/ o = x.

(** The object names the row and contradicts none of its columns. *)
Record names_row (m : obj) (r : BatchRow) (ids : list string) : Prop := {
  nr_batch_id : required_string m "batch_id" = Ok (row_batch_id r);
  nr_agent_id : absent_or (optional_string m "agent_id") (row_agent_id r);
  nr_class : absent_or (optional_string m "queue_class") (QueueClass.as_str (row_queue_class r));
  nr_seq : absent_or (optional_i64 m "queue_seq") (row_queue_seq r);
  nr_items : optional_item_ids m = Ok None \/ optional_item_ids m = Ok (Some ids);
  nr_run : none_or (optional_string m "run_id") (gi_run_id (row_identity r));
  nr_session : none_or (optional_string m "session_id") (gi_session_id (row_identity r));
  nr_runtime : none_or (optional_string m "runtime") (gi_runtime (row_identity r));
  nr_harness : none_or (optional_string m "harness") (gi_harness (row_identity r));
  nr_role : none_or (optional_string m "role") (gi_role (row_identity r))
}.

Lemma keep_or_none_or {A} (o read x : option A) : o = x -> none_or read x -> keep_or o read = x.
Proof. intros -> [-> | ->]; by destruct x. Qed.

Lemma update_metadata_named b r ids m :
  rb_agrees b r ids -> names_row m r ids ->
  exists b', update_metadata b m = Ok b' /\ rb_agrees b' r ids.
Proof.
  intros [Ai Aa Ac Aq As Ad Ap] [Ni Na Nc Nq Nd N1 N2 N3 N4 N5]. unfold update_metadata.
  assert (forall e, unchanged (optional_string m "agent_id") (rb_agent_id b) e = Ok tt) as ->.
  { intros e. unfold unchanged, ensure. destruct Na as [-> | ->]; [done|].
    by rewrite bool_decide_eq_true_2. }
  assert (forall e, (match optional_string m "queue_class" with
            | Some text => let? c := QueueClass.parse text in
                           unchanged (Some c) (rb_queue_class b) e
            | None => Ok tt end) = Ok tt) as ->.
  { intros e. destruct Nc as [-> | ->]; [done|]. rewrite QueueClass_parse_as_str.
    unfold unchanged, ensure. by rewrite bool_decide_eq_true_2. }
  assert (forall e, unchanged (optional_i64 m "queue_seq") (rb_queue_seq b) e = Ok tt) as ->.
  { intros e. unfold unchanged, ensure. destruct Nq as [-> | ->]; [done|].
    by rewrite bool_decide_eq_true_2. }
  assert (captured (merge_identity (rb_identity b) m) = captured (row_identity r)) as Cap.
  { unfold captured in *. injection Ap as E1 E2 E3 E4 E5.
    unfold merge_identity. cbn. by erewrite !keep_or_none_or. }
  destruct Nd as [-> | ->].
  - eexists. split; [reflexivity|]. by constructor.
  - unfold ensure. rewrite (bool_decide_eq_true_2 (ids = _)) by done. rewrite orb_true_r.
    eexists. split; [reflexivity|]. by constructor.
Qed.

(** The keys [with_batch_identity] writes, besides the batch identifier. *)
Definition identity_keys : list string :=
  ["item_ids"; "item_id"; "agent_id"; "queue_class"; "queue_seq"; "run_id"; "session_id";
   "invocation_id"; "runtime"; "harness"; "role"; "generation"].

Definition plain (base : obj) : Prop :=
  forallb (fun k => match obj_get k base with None => true | _ => false end) identity_keys = true.

Lemma plain_get base k : plain base -> k ∈ identity_keys -> obj_get k base = None.
Proof.
  unfold plain. rewrite forallb_elem. intros Hp Hk. specialize (Hp k Hk). cbn in Hp.
  by destruct (obj_get k base).
Qed.

Ltac plain_field Hp k :=
  let E := fresh "P" in assert (E := plain_get _ k Hp ltac:(unfold identity_keys; set_solver)).

Lemma collect_as_str ids (e : string) :
  collect (fun item => option_context (as_str item) e) (map JStr ids) = Ok ids.
Proof. induction ids as [|i ids IH]; cbn; [done|]. by rewrite IH. Qed.

(** Reading any field of an event that carries a batch's identity. *)
Definition identity_field (b : GuidanceBatch) (base : obj) (k : string) : option json :=
  let i := gb_identity b in
  let or_base o := match o with Some v => Some v | None => obj_get k base end in
  if String.eqb k "generation" then or_base (JNum <$> gi_generation i)
  else if String.eqb k "role" then or_base (JStr <$> gi_role i)
  else if String.eqb k "harness" then or_base (JStr <$> gi_harness i)
  else if String.eqb k "runtime" then or_base (JStr <$> gi_runtime i)
  else if String.eqb k "invocation_id" then or_base (JStr <$> gi_invocation_id i)
  else if String.eqb k "session_id" then or_base (JStr <$> gi_session_id i)
  else if String.eqb k "run_id" then or_base (JStr <$> gi_run_id i)
  else if String.eqb k "queue_seq" then Some (JNum (gb_queue_seq b))
  else if String.eqb k "queue_class" then Some (JStr (QueueClass.as_str (gb_queue_class b)))
  else if String.eqb k "agent_id" then Some (JStr (gb_agent_id b))
  else if String.eqb k "item_id"
       then or_base (match map it_item_id (gb_items b) with [i] => Some (JStr i) | _ => None end)
  else if String.eqb k "item_ids" then Some (JArr (map JStr (map it_item_id (gb_items b))))
  else if String.eqb k "batch_id" then Some (JStr (gb_batch_id b))
  else obj_get k base.

Lemma with_identity_get base b : exists m,
  with_batch_identity (JObj base) b = JObj m /\ forall k, obj_get k m = identity_field b base k.
Proof.
  eexists. split; [reflexivity|]. intros k. unfold identity_field.
  repeat first [rewrite obj_get_insert_opt | rewrite obj_get_insert].
  repeat match goal with
  | |- (if String.eqb k ?key then _ else _) = (if String.eqb k ?key then _ else _) =>
      let E := fresh "E" in destruct (String.eqb k key) eqn:E;
      [apply String.eqb_eq in E as ->;
       cbn [String.eqb Ascii.eqb Bool.eqb fmap option_fmap option_map]; by repeat case_match|]
  end.
  done.
Qed.

(** Read one field of such an event. *)
Ltac identity_read Hm :=
  unfold required_string, optional_string, optional_i64, optional_item_ids;
  rewrite !Hm; unfold identity_field; cbn [String.eqb Ascii.eqb Bool.eqb];
  cbn [mbind option_bind as_array option_context as_str].

Lemma as_i64_id n : in_i64 n -> as_i64 (JNum n) = Some n.
Proof.
  unfold in_i64. cbn. intros Hn. destruct (andb _ _) eqn:E; [done|].
  rewrite andb_false_iff, !Z.leb_gt in E. lia.
Qed.

Lemma opt_str_field (o : option string) (base : obj) k :
  obj_get k base = None ->
  (v ← match JStr <$> o with Some v => Some v | None => obj_get k base end; as_str v) = o.
Proof. intros ->. by destruct o. Qed.

(** The object of an event about a loaded batch. *)
Lemma with_identity_names base b r ids :
  plain base -> in_i64 (row_queue_seq r) ->
  gb_batch_id b = row_batch_id r -> gb_agent_id b = row_agent_id r ->
  gb_queue_class b = row_queue_class r -> gb_queue_seq b = row_queue_seq r ->
  map it_item_id (gb_items b) = ids -> captured (gb_identity b) = captured (row_identity r) ->
  exists m, with_batch_identity (JObj base) b = JObj m /\ names_row m r ids /\
    optional_item_ids m = Ok (Some ids) /\
    optional_string m "agent_id" = Some (row_agent_id r) /\
    optional_string m "queue_class" = Some (QueueClass.as_str (row_queue_class r)) /\
    optional_i64 m "queue_seq" = Some (row_queue_seq r) /\
    captured (identity m) = captured (row_identity r) /\
    obj_get "operation" m = obj_get "operation" base /\
    obj_get "state" m = obj_get "state" base.
Proof.
  intros Hp Hq Ei Ea Ec Es Ed Ep. pose proof Ep as Ep'. unfold captured in Ep.
  injection Ep as E1 E2 E3 E4 E5.
  destruct (with_identity_get base b) as (m & Em & Hm). exists m. split; [done|].
  assert (F1 : optional_string m "run_id" = gi_run_id (row_identity r)).
  { plain_field Hp "run_id". identity_read Hm. by rewrite E1, opt_str_field. }
  assert (F2 : optional_string m "session_id" = gi_session_id (row_identity r)).
  { plain_field Hp "session_id". identity_read Hm. by rewrite E2, opt_str_field. }
  assert (F3 : optional_string m "runtime" = gi_runtime (row_identity r)).
  { plain_field Hp "runtime". identity_read Hm. by rewrite E3, opt_str_field. }
  assert (F4 : optional_string m "harness" = gi_harness (row_identity r)).
  { plain_field Hp "harness". identity_read Hm. by rewrite E4, opt_str_field. }
  assert (F5 : optional_string m "role" = gi_role (row_identity r)).
  { plain_field Hp "role". identity_read Hm. by rewrite E5, opt_str_field. }
  assert (F6 : optional_item_ids m = Ok (Some ids)).
  { identity_read Hm. by rewrite Ed, collect_as_str. }
  assert (F7 : optional_string m "agent_id" = Some (row_agent_id r))
    by (identity_read Hm; congruence).
  assert (F8 : optional_string m "queue_class"
               = Some (QueueClass.as_str (row_queue_class r))) by (identity_read Hm; congruence).
  assert (F9 : optional_i64 m "queue_seq" = Some (row_queue_seq r)).
  { identity_read Hm. by rewrite Es, as_i64_id. }
  split; [constructor; auto; try (by right)|split_and!; try done].
  - identity_read Hm. by rewrite Ei.
  - unfold captured, identity. cbn. by rewrite F1, F2, F3, F4, F5.
Qed.

(** ** One event *)

(** An event replay ignores. *)
Definition neutral (e : LedgerEvent) : Prop := forall p, replay_record p e = Ok p.

(** An event that moves the named batch to a state. *)
Definition transition_event (st : GuidanceState) (e : LedgerEvent) (r : BatchRow)
    (ids : list string) : Prop :=
  exists m op, e = {| le_event_type := STATE_EVENT; le_data := JObj m |} /\
    names_row m r ids /\ optional_string m "operation" = Some op /\
    is_queue_state_operation op = true /\ op <> "enqueue" /\
    target_state op m = Ok st /\ (declared_state m = Ok None \/ declared_state m = Ok (Some st)).

(** A row after a step: same key, same captured identity, new state. *)
Definition row_moved (r r' : BatchRow) : Prop :=
  row_key r' = row_key r /\ captured (row_identity r') = captured (row_identity r).

Lemma rb_agrees_moved b r r' ids :
  rb_agrees b r ids -> row_moved r r' -> rb_agrees (set_rb_state b (row_state r')) r' ids.
Proof.
  intros [Ai Aa Ac Aq As Ad Ap] [K C]. unfold row_key in K. injection K as ? ? ? ? ? ? ?.
  constructor; cbn; congruence.
Qed.

Lemma replay_transition p b r r' ids e :
  p !! row_batch_id r = Some b -> rb_agrees b r ids -> row_moved r r' ->
  transition_event (row_state r') e r ids ->
  valid_transition (row_state r) (row_state r') = true ->
  exists b', replay_record p e = Ok (<[row_batch_id r := b']> p) /\ rb_agrees b' r' ids.
Proof.
  intros Hp Ag Mv (m & op & -> & Nm & Eop & Q & Ne & T & D) V.
  destruct (update_metadata_named b r ids m Ag Nm) as (b' & U & Ag').
  exists (set_rb_state b' (row_state r')). split; [|by eapply rb_agrees_moved].
  unfold replay_record. cbn [le_event_type le_data as_object].
  rewrite String.eqb_refl. cbn [negb]. rewrite Eop, Q. cbn [negb].
  rewrite (nr_batch_id _ _ _ Nm). replace (String.eqb op "enqueue") with false
    by (symmetry; by apply String.eqb_neq).
  unfold replay_update. rewrite Hp. cbn [option_context]. rewrite U, T.
  unfold validate_transition, ensure. rewrite (ra_state _ _ _ Ag'), V.
  destruct D as [-> | ->]; [done|]. by rewrite bool_decide_eq_true_2.
Qed.

(** ** The ledger against the tables *)

Section Mirror.
Context `{SqlEngine} `{JsonText} `{EventSink} `{Sha256}.
Implicit Types (s : InboxStore) (t : list BatchRow) (i : list ItemRow) (l : list LedgerEvent).

Definition agrees (p : GuidanceReplayProjection) t i : Prop :=
  (forall r, r ∈ t -> exists b items, p !! row_batch_id r = Some b /\
     load_items i (row_batch_id r) = Ok items /\ rb_agrees b r (map it_item_id items)) /\
  (forall id b, p !! id = Some b -> exists r, r ∈ t /\ row_batch_id r = id).

Definition mirrors l t i : Prop :=
  exists p, replay_guidance_batches l = Ok p /\ agrees p t i.

Lemma mirrors_neutral l t i e : neutral e -> mirrors l t i -> mirrors (l ++ [e])%list t i.
Proof.
  intros N (p & E & A). exists p. split; [|done].
  unfold replay_guidance_batches in *. rewrite try_fold_app, E. cbn. by rewrite N.
Qed.

(** One row written, one event appended. *)
Lemma mirrors_write l t i r f e items :
  rows_ok t -> mirrors l t i -> r ∈ t -> row_moved r (f r) ->
  load_items i (row_batch_id r) = Ok items ->
  transition_event (row_state (f r)) e r (map it_item_id items) ->
  valid_transition (row_state r) (row_state (f r)) = true ->
  mirrors (l ++ [e])%list (sql_update (has_id (row_batch_id r)) f t) i.
Proof.
  intros Hok (p & E & A1 & A2) Hr Mv L T V.
  destruct (A1 r Hr) as (b & items' & Hb & L' & Ag). assert (items' = items) as -> by congruence.
  destruct (replay_transition p b r (f r) _ e Hb Ag Mv T V) as (b' & R & Ag').
  exists (<[row_batch_id r := b']> p). split.
  { unfold replay_guidance_batches in *. rewrite try_fold_app, E. cbn. by rewrite R. }
  assert (Hid : row_batch_id (f r) = row_batch_id r).
  { destruct Mv as [K _]. by apply row_key_fields in K as (K & _). }
  split.
  - intros r' (r0 & Hr0 & ->)%elem_of_sql_update.
    destruct (has_id (row_batch_id r) r0) eqn:Eid.
    + apply has_id_true in Eid. assert (r0 = r) as -> by by eapply rows_ok_same.
      exists b', items. rewrite Hid, lookup_insert_eq. done.
    + destruct (A1 r0 Hr0) as (b0 & i0 & ?). exists b0, i0.
      rewrite lookup_insert_ne; [done|]. intros Eq. symmetry in Eq. apply has_id_true in Eq.
      congruence.
  - intros id b0. destruct (decide (id = row_batch_id r)) as [->|Hne].
    + intros _. exists (f r). split; [|done]. apply elem_of_sql_update. exists r.
      split; [done|]. by replace (has_id _ r) with true by (symmetry; by apply has_id_true).
    + rewrite lookup_insert_ne by done. intros (r0 & Hr0 & Hid0)%A2. exists r0. split; [|done].
      apply elem_of_sql_update. exists r0. split; [done|].
      replace (has_id _ r0) with false; [done|]. symmetry. apply String.eqb_neq. congruence.
Qed.

(** ** Events of the queue operations *)

Lemma transition_of_row op st base r r0 items :
  plain base -> in_i64 (row_queue_seq r) -> row_moved r r0 ->
  obj_get "operation" base = Some (JStr op) -> is_queue_state_operation op = true ->
  op <> "enqueue" -> target_state op base = Ok st ->
  (declared_state base = Ok None \/ declared_state base = Ok (Some st)) ->
  transition_event st
    {| le_event_type := STATE_EVENT;
       le_data := with_batch_identity (JObj base) (batch_of_row r0 items) |} r
    (map it_item_id items).
Proof.
  intros Hp Hq [K C] Eop Q Ne T D. unfold row_key in K. injection K as K1 K2 K3 K4 _ _ _.
  destruct (with_identity_names base (batch_of_row r0 items) r (map it_item_id items))
    as (m & -> & Nm & _ & _ & _ & _ & _ & Mop & Mst); [done..|].
  assert (Dm : declared_state m = declared_state base).
  { unfold declared_state. by rewrite Mst. }
  exists m, op. split; [done|]. split; [done|]. split; [|split; [done|split; [done|split]]].
  - unfold optional_string. by rewrite Mop, Eop.
  - unfold target_state in *. by rewrite Dm.
  - by rewrite Dm.
Qed.

(** Events that are not state events, or whose operation replay skips. *)
Lemma neutral_type (ty : string) d : ty <> STATE_EVENT -> neutral {| le_event_type := ty; le_data := d |}.
Proof.
  intros Hne p. unfold replay_record. cbn [le_event_type].
  by replace (String.eqb ty STATE_EVENT) with false by (symmetry; by apply String.eqb_neq).
Qed.

Lemma neutral_operation m op :
  obj_get "operation" m = Some (JStr op) -> is_queue_state_operation op = false ->
  neutral {| le_event_type := STATE_EVENT; le_data := JObj m |}.
Proof.
  intros E Q p. unfold replay_record, optional_string.
  cbn [le_event_type le_data as_object]. rewrite E. cbn [mbind option_bind as_str].
  by rewrite Q.
Qed.

Lemma neutral_with_identity base b op :
  obj_get "operation" base = Some (JStr op) -> is_queue_state_operation op = false ->
  neutral {| le_event_type := STATE_EVENT; le_data := with_batch_identity (JObj base) b |}.
Proof.
  intros E Q. destruct (with_identity_get base b) as (m & -> & Hm).
  eapply neutral_operation; [|exact Q]. by rewrite Hm.
Qed.

Lemma load_batch_Ok s id b :
  load_batch s id = Ok b ->
  exists r items, r ∈ guidance_batches s /\ row_batch_id r = id /\
    load_items (guidance_items s) id = Ok items /\ b = batch_of_row r items.
Proof.
  unfold load_batch. destruct (sql_first _) as [r|] eqn:F; [|done]. cbn.
  apply sql_first_id in F as [Hr E].
  destruct (load_items _ _) as [items|] eqn:L; [|done]. cbn. intros [= <-]. eauto 10.
Qed.

Lemma row_seq_i64 s r : store_ok s -> r ∈ guidance_batches s -> in_i64 (row_queue_seq r).
Proof.
  intros Hs Hr. pose proof (ok_rows _ (so_rows _ Hs)) as Hrow. rewrite Forall_forall in Hrow.
  destruct (Hrow _ Hr) as [Hq _]. unfold in_i64, i64_min, i64_max in *. lia.
Qed.

Context (sink_open : forall l e, sink_accepts l e = true).

(** The mirror is on and its ledger replays to the tables. *)
Definition mirrored s : Prop :=
  mirror_enabled s = true /\ mirrors (ledger s) (guidance_batches s) (guidance_items s).

Lemma mirrored_neutral (ty : string) d s :
  neutral {| le_event_type := ty; le_data := d |} -> mirrored s ->
  mirrored (append_state_change ty d s).
Proof.
  intros N [En M]. split; [by autorewrite with store|].
  rewrite append_ledger by done. autorewrite with store. by apply mirrors_neutral.
Qed.

(** A neutral event before or after the one that accounts for a write. *)
Lemma mirrored_append (ty : string) d s :
  mirror_enabled s = true ->
  mirrors (ledger s ++ [{| le_event_type := ty; le_data := d |}])%list
    (guidance_batches s) (guidance_items s) ->
  mirrored (append_state_change ty d s).
Proof.
  intros En M. split; [by autorewrite with store|].
  rewrite append_ledger by done. by autorewrite with store.
Qed.

(** The write of one row with its event. *)
Lemma mirrored_write s r f p d items :
  store_ok s -> mirrored s -> r ∈ guidance_batches s -> p r = true ->
  (forall r', p r' = true -> row_batch_id r' = row_batch_id r) ->
  row_moved r (f r) -> load_items (guidance_items s) (row_batch_id r) = Ok items ->
  valid_transition (row_state r) (row_state (f r)) = true ->
  transition_event (row_state (f r)) {| le_event_type := STATE_EVENT; le_data := d |} r
    (map it_item_id items) ->
  mirrored (append_state_change STATE_EVENT d
              (set_batches s (sql_update p f (guidance_batches s)))).
Proof.
  intros Hs [En M] Hr Hp Hid Mv L V T. apply mirrored_append; [done|].
  cbn [ledger guidance_batches guidance_items set_batches].
  rewrite (update_only _ r) by (done || apply Hs). eapply mirrors_write; eauto. apply Hs.
Qed.

Lemma transaction_mirrored {X} s (res : result (InboxStore * X) string) :
  mirrored s -> (forall s' x, res = Ok (s', x) -> mirrored s') ->
  mirrored (transaction s res).1.
Proof. intros Hm Hres. destruct res as [[s' x]|e]; cbn; [by eapply Hres|done]. Qed.

Lemma cancel_batch_mirrored now id reason s :
  store_ok s -> mirrored s -> mirrored (cancel_batch now id reason s).1.
Proof.
  intros Hs Hm. apply transaction_mirrored; [done|]. intros s' x Hx. cbv zeta in Hx.
  destruct (validate_id id _); [|done]. destruct (validate_text reason _ _); [|done].
  destruct (sql_first _) as [r|] eqn:F; [|done]. cbn [option_context] in Hx.
  apply sql_first_id in F as [Hr <-].
  destruct (GuidanceState.is_terminal _) eqn:T; [by injection Hx as <- _|].
  destruct (load_batch_row s r Hs Hr) as (items & L & E & _). rewrite E in Hx.
  injection Hx as <- _.
  assert (V : valid_transition (row_state r) Cancelled = true) by by destruct (row_state r).
  eapply mirrored_write with (r := r); [done|done|done| | |done|exact L|exact V|].
  - apply andb_true_iff. split; [by apply has_id_true|].
    unfold is_active, in_state. by destruct (row_state r).
  - intros r' E'. apply andb_true_iff in E' as [E' _]. by apply has_id_true.
  - eapply transition_of_row with (op := "cancel");
      [reflexivity|by eapply row_seq_i64|done|reflexivity|reflexivity|done|reflexivity|].
    right. reflexivity.
Qed.

Lemma mirrored_write_after (ty : string) d0 s r f p d items :
  store_ok s -> mirrored s -> r ∈ guidance_batches s -> p r = true ->
  (forall r', p r' = true -> row_batch_id r' = row_batch_id r) ->
  row_moved r (f r) -> load_items (guidance_items s) (row_batch_id r) = Ok items ->
  valid_transition (row_state r) (row_state (f r)) = true ->
  neutral {| le_event_type := ty; le_data := d0 |} ->
  transition_event (row_state (f r)) {| le_event_type := STATE_EVENT; le_data := d |} r
    (map it_item_id items) ->
  mirrored (append_state_change STATE_EVENT d (append_state_change ty d0
              (set_batches s (sql_update p f (guidance_batches s))))).
Proof.
  intros Hs [En M] Hr Hp Hid Mv L V N T. apply mirrored_append; [by autorewrite with store|].
  rewrite append_ledger by done. autorewrite with store.
  cbn [ledger guidance_batches guidance_items set_batches].
  rewrite (update_only _ r) by (done || apply Hs).
  eapply mirrors_write; eauto; [apply Hs|by apply mirrors_neutral].
Qed.

Lemma record_transport_attempt_mirrored now id c attempt s :
  store_ok s -> mirrored s -> mirrored (record_transport_attempt now id c attempt s).1.
Proof.
  intros Hs Hm. apply transaction_mirrored; [done|]. intros s' x Hx. cbv zeta in Hx.
  destruct (validate_id id _); [|done]. destruct (validate_id c _); [|done].
  destruct (validate_id (ta_method attempt) _); [|done].
  destruct (match ta_detail attempt with Some _ => _ | None => _ end); [|done].
  destruct (sql_first _) as [r|] eqn:F; [|done]. cbn [option_context] in Hx.
  apply sql_first_id in F as [Hr <-].
  destruct (_ || _) eqn:Gd; [done|]. bool_facts.
  destruct (i64_checked_add _ _) as [n|]; [|done]. cbn [option_context] in Hx.
  set (p := fun r' => has_id (row_batch_id r) r' && in_state Leased r' && owned_by c r') in Hx.
  set (f := set_submitted n _) in Hx.
  assert (Hp : p r = true).
  { unfold p. rewrite !andb_true_iff. split_and!; [by apply has_id_true|done|done]. }
  assert (Hid : forall r', p r' = true -> row_batch_id r' = row_batch_id r)
    by (intros r' E'; unfold p in E'; by where_facts).
  destruct (load_batch_written s r f Hs Hr) as (items & L & E); [done|].
  unfold write_row in E. rewrite <- (update_only _ r p) in E by (done || apply Hs).
  rewrite E in Hx. injection Hx as <- _. where_facts.
  eapply mirrored_write_after with (r := r); [done|done|done|done|done|done|exact L| | |].
  - by replace (row_state r) with Leased.
  - by apply neutral_type.
  - eapply transition_of_row with (op := "transport_submitted");
      [reflexivity|by eapply row_seq_i64|done|reflexivity|reflexivity|done|reflexivity|].
    right. reflexivity.
Qed.

Lemma release_for_retry_mirrored now id c reason at_ s :
  store_ok s -> mirrored s -> mirrored (release_for_retry now id c reason at_ s).1.
Proof.
  intros Hs Hm. apply transaction_mirrored; [done|]. intros s' x Hx. cbv zeta in Hx.
  destruct (validate_id id _); [|done]. destruct (validate_id c _); [|done].
  destruct (validate_text reason _ _); [|done].
  destruct (sql_first _) as [r|] eqn:F; [|done]. cbn [option_context] in Hx.
  apply sql_first_id in F as [Hr <-].
  destruct (_ || _) eqn:Gd; [done|]. bool_facts.
  destruct (load_batch_row s r Hs Hr) as (items & L & E & _). rewrite E in Hx. clear E.
  set (p := fun r' => has_id (row_batch_id r) r' && is_active r' && owned_by c r') in Hx.
  assert (Hp : p r = true).
  { unfold p. rewrite !andb_true_iff. split_and!; [by apply has_id_true|done|done]. }
  assert (Hid : forall r', p r' = true -> row_batch_id r' = row_batch_id r)
    by (intros r' E'; unfold p in E'; by where_facts).
  assert (Ac : row_state r = Leased \/ row_state r = Submitted) by by apply is_active_true.
  destruct (MAX_RETRY_ATTEMPTS <=? row_attempt_count r)%Z; injection Hx as <- _;
    [apply mirrored_neutral; [by apply neutral_type|]|];
    (eapply mirrored_write with (r := r); [done|done|done|done|done|done|exact L| |];
     [by destruct Ac as [-> | ->]|]).
  - eapply transition_of_row with (op := "abandon");
      [reflexivity|by eapply row_seq_i64|done|reflexivity|reflexivity|done|reflexivity|].
    right. reflexivity.
  - eapply transition_of_row with (op := "release_for_retry");
      [reflexivity|by eapply row_seq_i64|done|reflexivity|reflexivity|done|reflexivity|].
    right. reflexivity.
Qed.

Lemma acknowledge_runtime_mirrored now ev s :
  store_ok s -> mirrored s -> mirrored (acknowledge_runtime now ev s).1.
Proof.
  intros Hs Hm. apply transaction_mirrored; [done|]. intros s' x Hx. cbv zeta in Hx.
  destruct (validate_id (ev_batch_id ev) _); [|done].
  destruct (validate_id (ev_agent_id ev) _); [|done].
  destruct (validate_id (ev_consumer_id ev) _); [|done].
  destruct (load_batch_optional _ _) as [[b|]|] eqn:L; [| |done].
  2:{ by injection Hx as <- _. }
  apply load_batch_optional_Some in L as (row & items & Hrow & Hid & L & ->).
  destruct (negb (String.eqb _ _)); [by injection Hx as <- _|].
  destruct (bool_decide (_ = Accepted)); [by injection Hx as <- _|].
  destruct (negb (_ || _)); [by injection Hx as <- _|].
  destruct (evidence_matches_batch _ _) eqn:M; cbn [negb] in Hx; [|by injection Hx as <- _].
  destruct (bool_decide (ev_confidence ev = Exact)) eqn:C; cbn [negb] in Hx.
  2:{ injection Hx as <- _. apply mirrored_neutral; [|done].
      by eapply neutral_with_identity with (op := "acknowledgement_unproven"). }
  unfold accept_batch in Hx. destruct (negb _) eqn:N; injection Hx as <- _; [done|].
  set (p := fun r' => has_id (ev_batch_id ev) r' && is_active r'
                      && owned_by (ev_consumer_id ev) r') in *.
  assert (exists r, r ∈ guidance_batches s /\ p r = true) as (r & Hr & Hp).
  { bool_facts. unfold sql_count in N.
    destruct (List.filter p (guidance_batches s)) as [|r l] eqn:E; [done|].
    exists r. apply elem_of_lfilter. rewrite E. set_solver. }
  assert (r = row) as ->.
  { pose proof Hp as Hp'. unfold p in Hp'. where_facts.
    eapply rows_ok_same; [apply Hs|done|done|congruence]. }
  assert (Ac : row_state row = Leased \/ row_state row = Submitted).
  { apply is_active_true. unfold p in Hp. by where_facts. }
  apply mirrored_neutral; [by apply neutral_type|].
  eapply mirrored_write with (r := row); [done|done|done|exact Hp| |done| | |].
  - intros r' E'. unfold p in E'. where_facts. congruence.
  - rewrite Hid. exact L.
  - by destruct Ac as [-> | ->].
  - eapply transition_of_row with (op := "acknowledge");
      [reflexivity|by eapply row_seq_i64|done|reflexivity|reflexivity|done|reflexivity|].
    left. reflexivity.
Qed.

(** ** Lease recovery *)

Lemma inspect_batch_append (ty : string) d s id :
  inspect_batch (append_state_change ty d s) id = inspect_batch s id.
Proof.
  unfold inspect_batch, load_batch_optional, load_batch. by autorewrite with store.
Qed.

(** What the store says of a recovered row when its event is written. *)
Definition inspected s i (r : BatchRow) : Prop :=
  forall b, inspect_batch s (row_batch_id r) = Ok (Some b) ->
  exists r0 items, b = batch_of_row r0 items /\ load_items i (row_batch_id r) = Ok items /\
    row_moved r r0.

Definition lease_expired_base (r : BatchRow) : obj :=
  match jobj [("operation", JStr "lease_expired"); ("batch_id", JStr (row_batch_id r));
              ("state", JStr (GuidanceState.as_str (recovery_state (row_attempt_count r))))] with
  | JObj m => m
  | _ => []
  end.

Lemma recovery_event_transition s i r items :
  in_i64 (row_queue_seq r) -> inspected s i r -> load_items i (row_batch_id r) = Ok items ->
  transition_event (recovery_state (row_attempt_count r))
    {| le_event_type := STATE_EVENT;
       le_data := recovery_data
         (match inspect_batch s (row_batch_id r) with Ok b => b | Err _ => None end)
         (JObj (lease_expired_base r)) |} r (map it_item_id items).
Proof.
  intros Hq Hin L.
  assert (Hdecl : declared_state (lease_expired_base r)
                  = Ok (Some (recovery_state (row_attempt_count r)))).
  { unfold declared_state.
    change (obj_get "state" (lease_expired_base r))
      with (Some (JStr (GuidanceState.as_str (recovery_state (row_attempt_count r))))).
    cbn [option_context as_str]. by rewrite GuidanceState_parse_as_str. }
  destruct (inspect_batch s (row_batch_id r)) as [[b|]|] eqn:E; cbn [recovery_data].
  1:{ destruct (Hin b E) as (r0 & items' & -> & L' & Mv).
      assert (items' = items) as -> by congruence.
      eapply transition_of_row with (op := "lease_expired");
        [reflexivity|done|done|reflexivity|reflexivity|done| |by right].
      unfold target_state. cbn [String.eqb Ascii.eqb Bool.eqb existsb orb]. by rewrite Hdecl. }
  all: exists (lease_expired_base r), "lease_expired"; split; [done|]; split;
    [constructor; (reflexivity || by left)|].
  all: split; [reflexivity|]; split; [reflexivity|]; split; [done|]; split;
    [|by right]; unfold target_state; cbn [String.eqb Ascii.eqb Bool.eqb existsb orb];
    by rewrite Hdecl.
Qed.

Lemma recovery_transition_valid now r :
  expired_row now r = true ->
  valid_transition (row_state r) (recovery_state (row_attempt_count r)) = true.
Proof.
  intros E%expired_row_active%is_active_true. unfold recovery_state.
  destruct (MAX_RETRY_ATTEMPTS <=? _)%Z; by destruct E as [-> | ->].
Qed.

(** The ledger after one recovery event. *)
Lemma emit_recovery_event_ledger s r :
  mirror_enabled s = true ->
  exists rest, ledger (emit_recovery_event s (row_batch_id r, recovery_state (row_attempt_count r)))
    = ((ledger s ++ [{| le_event_type := STATE_EVENT;
         le_data := recovery_data
           (match inspect_batch s (row_batch_id r) with Ok b => b | Err _ => None end)
           (JObj (lease_expired_base r)) |}]) ++ rest)%list /\ Forall neutral rest.
Proof.
  intros En. unfold emit_recovery_event, append_queue_event.
  case_bool_decide; rewrite !append_ledger by (done || by autorewrite with store).
  - eexists [_]. split; [reflexivity|]. constructor; [by apply neutral_type|constructor].
  - exists []. rewrite app_nil_r. done.
Qed.

Lemma mirrors_neutrals l t i es : Forall neutral es -> mirrors l t i -> mirrors (l ++ es)%list t i.
Proof.
  intros Hes. revert l. induction Hes as [|e es N _ IH]; intros l M.
  - by rewrite app_nil_r.
  - replace (l ++ e :: es)%list with ((l ++ [e]) ++ es)%list by by rewrite <- app_assoc.
    apply IH. by apply mirrors_neutral.
Qed.

Lemma emit_recovery_event_tables s x :
  guidance_batches (emit_recovery_event s x) = guidance_batches s /\
  guidance_items (emit_recovery_event s x) = guidance_items s /\
  mirror_enabled (emit_recovery_event s x) = mirror_enabled s /\
  forall id, inspect_batch (emit_recovery_event s x) id = inspect_batch s id.
Proof.
  destruct x as [id st]. unfold emit_recovery_event, append_queue_event.
  case_bool_decide; autorewrite with store; split_and!; try done;
    intros id'; by rewrite ?inspect_batch_append.
Qed.

(** The recovery events, one after the other, replay the recovery loop. *)
Lemma emit_recovery_mirrors now i rows : forall s t,
  mirror_enabled s = true -> rows_ok t -> NoDup (map row_batch_id rows) ->
  (forall r, r ∈ rows -> r ∈ t /\ expired_row now r = true) ->
  (forall r, r ∈ t -> in_i64 (row_queue_seq r) /\
     exists items, load_items i (row_batch_id r) = Ok items) ->
  (forall r, r ∈ rows -> inspected s i r) ->
  mirrors (ledger s) t i ->
  mirrors (ledger (emit_recovery_events
      (map (fun r => (row_batch_id r, recovery_state (row_attempt_count r))) rows) s))
    (sql_update (fun r' => existsb (fun r => has_id (row_batch_id r) r') rows
                           && expired_row now r')
       (fun r' => recover_row now (row_attempt_count r') r') t) i.
Proof.
  induction rows as [|r rows IH]; intros s t En Hok Hnd Hin Hld Hins M; cbn [map].
  { by rewrite sql_update_none by done. }
  cbn in Hnd. apply NoDup_cons in Hnd as [Hr Hnd].
  destruct (Hin r ltac:(set_solver)) as [Hrt Ex].
  set (f := recover_row now (row_attempt_count r)).
  set (t1 := sql_update (has_id (row_batch_id r)) f t).
  set (s1 := emit_recovery_event s (row_batch_id r, recovery_state (row_attempt_count r))).
  assert (Hother : forall r2, r2 ∈ rows -> row_batch_id r2 <> row_batch_id r).
  { intros r2 H3 E. apply Hr. rewrite <- E. apply list_elem_of_fmap. eauto. }
  assert (Hok1 : rows_ok t1).
  { apply (rows_ok_update (fun _ => False)); [done|]. intros r' Hr' _ E1. apply has_id_true in E1.
    assert (r' = r) as -> by by eapply rows_ok_same.
    split; [by eapply recover_row_step, expired_row_active|]. unfold f. by rewrite recover_row_inactive. }
  destruct (Hld r Hrt) as [Hq [items L]].
  assert (M1 : mirrors (ledger s1) t1 i).
  { destruct (emit_recovery_event_ledger s r En) as (rest & E & N). unfold s1. rewrite E.
    apply mirrors_neutrals; [done|].
    eapply mirrors_write; [done|exact M|done|done|exact L| |].
    - eapply recovery_event_transition; [done|apply Hins; set_solver|done].
    - by eapply recovery_transition_valid. }
  unfold emit_recovery_events in *. cbn [fold_left]. fold s1.
  destruct (emit_recovery_event_tables s (row_batch_id r, recovery_state (row_attempt_count r)))
    as (_ & _ & En1 & Hins1). fold s1 in En1, Hins1.
  assert (Hsame : sql_update (fun r' => existsb (fun r => has_id (row_batch_id r) r') (r :: rows)
                                 && expired_row now r')
       (fun r' => recover_row now (row_attempt_count r') r') t
     = sql_update (fun r' => existsb (fun r => has_id (row_batch_id r) r') rows
                                 && expired_row now r')
       (fun r' => recover_row now (row_attempt_count r') r') t1).
  { unfold t1, sql_update. rewrite map_map. apply map_ext_in. intros r' Hr'%list_elem_of_In.
    cbn [existsb]. destruct (has_id (row_batch_id r) r') eqn:Eid; cbn [orb]; [|done].
    apply has_id_true in Eid. assert (r' = r) as -> by by apply (rows_ok_same t).
    rewrite Ex. cbn [andb]. unfold f.
    replace (expired_row now (recover_row now (row_attempt_count r) r)) with false;
      [by rewrite andb_false_r|]. unfold expired_row. by rewrite recover_row_inactive. }
  rewrite Hsame. apply IH; [by rewrite En1|done|done| | | |done].
  - intros r2 H3. destruct (Hin r2 ltac:(set_solver)) as [H4 H5]. split; [|done].
    apply elem_of_sql_update. exists r2. split; [done|].
    destruct (has_id (row_batch_id r) r2) eqn:E; [|done]. apply has_id_true in E.
    by destruct (Hother r2 H3).
  - intros r2 (r0 & Hr0 & ->)%elem_of_sql_update.
    destruct (has_id (row_batch_id r) r0); exact (Hld r0 Hr0).
  - intros r2 H3 b. rewrite Hins1. apply Hins. set_solver.
Qed.

(** The recovery events are written when the table may already have moved on
    (a claim leases in between): each still names its row. *)
Lemma recovery_mirrors now s s2 :
  store_ok s -> mirrored s -> mirror_enabled s2 = true -> ledger s2 = ledger s ->
  guidance_items s2 = guidance_items s ->
  (forall r0, r0 ∈ guidance_batches s2 -> exists r, r ∈ guidance_batches s /\ row_moved r r0) ->
  mirrors (ledger (emit_recovery_events
      (map (fun r => (row_batch_id r, recovery_state (row_attempt_count r)))
         (expired_rows now (guidance_batches s))) s2))
    (recover_rows now (guidance_batches s)) (guidance_items s).
Proof.
  intros Hs [_ M] En El Ei Hmv. rewrite <- recover_selected.
  apply emit_recovery_mirrors; [done|apply Hs| | | | |by rewrite El].
  - apply expired_rows_ids, ok_ids, Hs.
  - intros r. apply elem_of_expired_rows.
  - intros r Hr. split; [by eapply row_seq_i64|].
    destruct (so_items _ Hs r Hr) as (its & L & _). by exists its.
  - intros r [Hr _]%elem_of_expired_rows b Ib. unfold inspect_batch in Ib.
    destruct (validate_id _ _); [|done].
    apply load_batch_optional_Some in Ib as (r0 & items & Hr0 & Hid & L & ->).
    exists r0, items. rewrite Ei in L. split; [done|]. split; [done|].
    destruct (Hmv r0 Hr0) as (r1 & Hr1 & Mv).
    assert (r1 = r) as ->; [|done].
    destruct Mv as [K%row_key_fields _]. eapply rows_ok_same; [apply Hs|done|done|].
    destruct K as (K & _). congruence.
Qed.

Lemma recover_rows_moved now t r0 :
  r0 ∈ recover_rows now t -> exists r, r ∈ t /\ row_moved r r0.
Proof.
  intros (r & Hr & ->)%elem_of_sql_update. exists r. split; [done|].
  by destruct (expired_row now r).
Qed.

Lemma emit_recovery_frame (l : list (string * GuidanceState)) s :
  same_queue s (emit_recovery_events l s) /\
  mirror_enabled (emit_recovery_events l s) = mirror_enabled s.
Proof.
  split; [apply emit_recovery_same_queue|]. unfold emit_recovery_events. revert s.
  induction l as [|x l IH]; intros s; cbn [fold_left]; [done|].
  rewrite IH. apply emit_recovery_event_tables.
Qed.

(** The store after the recovery of a claim or of a sweep. *)
Lemma recovered_mirrored now s :
  store_ok s -> mirrored s ->
  mirrored (emit_recovery_events
      (map (fun r => (row_batch_id r, recovery_state (row_attempt_count r)))
         (expired_rows now (guidance_batches s)))
      (set_batches s (recover_rows now (guidance_batches s)))).
Proof.
  intros Hs Hm. set (l := map _ _). set (s1 := set_batches s _).
  destruct (emit_recovery_frame l s1) as [[Eb Ei] En]. split.
  - rewrite En. apply Hm.
  - rewrite Eb, Ei. apply (recovery_mirrors now s s1); [done|done|apply Hm|done|done|].
    intros r0. apply recover_rows_moved.
Qed.

Lemma recover_expired_leases_mirrored now s :
  store_ok s -> mirrored s -> mirrored (recover_expired_leases now s).1.
Proof.
  intros Hs Hm. unfold recover_expired_leases. rewrite recover_expired_spec by apply Hs.
  by apply recovered_mirrored.
Qed.

Lemma recovered_store_ok now s :
  store_ok s -> store_ok (set_batches s (recover_rows now (guidance_batches s))).
Proof.
  intros Hs. eapply store_ok_quiet; [exact Hs|]. apply (recover_quiet (fun _ => False)), Hs.
Qed.

Lemma lease_batch_Ok now e consumer r s s' b :
  store_ok s -> r ∈ guidance_batches s -> available now r = true ->
  lease_batch now e consumer (row_batch_id r) s = Ok (s', b) ->
  exists g items, let f := set_leased (gc_consumer_id consumer) e (gc_invocation_id consumer) g in
    s' = write_row (row_batch_id r) f s /\
    load_items (guidance_items s) (row_batch_id r) = Ok items /\ b = batch_of_row (f r) items.
Proof.
  intros Hs Hr Av. unfold lease_batch. destruct (bind_opt_u64 _ _) as [g|]; [|done].
  destruct (negb _); [done|].
  set (f := set_leased _ _ _ _).
  rewrite (update_only _ r); [|apply Hs|done| |].
  2:{ rewrite Av, andb_true_r. by apply has_id_true. }
  2:{ intros r' E. by where_facts. }
  destruct (load_batch_written s r f Hs Hr) as (items & L & E); [done|].
  unfold write_row in E. rewrite E. intros [= <- <-]. by exists g, items.
Qed.

(** A claim that comes back. *)
Lemma claim_next_mirrored now boundary consumer lease s :
  store_ok s -> mirrored s -> (claim_next now boundary consumer lease s).2 <> Blocks ->
  mirrored (claim_next now boundary consumer lease s).1.
Proof.
  intros Hs Hm. unfold claim_next.
  destruct (validate_identity _ _); [|done]. destruct (validate_id _ _); [|done]. cbv zeta.
  destruct (negb _); [done|]. destruct (_ && negb _); [done|].
  rewrite recover_expired_spec by apply Hs.
  pose proof (recovered_mirrored now s Hs Hm) as Hm1.
  set (l := map _ (expired_rows now (guidance_batches s))) in *. set (s1 := set_batches s _) in *.
  assert (Empty : (finish_claim (be_phase boundary) (gc_consumer_id consumer) l None s1).2
                  <> Blocks ->
    mirrored (finish_claim (be_phase boundary) (gc_consumer_id consumer) l None s1).1).
  { unfold finish_claim. pose proof (emit_held_back l s1) as B.
    destruct (emit_recovery_events_held l s1) as [s' []]; [|done]. cbn in *.
    intros _. by rewrite B. }
  destruct (claim_in_tx _ _ _ _ _ _) as [[s2 found]|] eqn:C; [|done]. unfold claim_in_tx in C.
  destruct (has_active_lease _ _ _); [by injection C as <- <-|].
  destruct (_ && steering_blocks _ _ _); [by injection C as <- <-|].
  destruct (select_next _ _ _ s1) as [r|] eqn:Sel; [|by injection C as <- <-].
  destruct (lease_batch _ _ _ _ s1) as [[s2' b]|] eqn:L; [|done]. injection C as <- <-.
  intros _. cbn [finish_claim fst]. rename s2' into s2.
  apply select_next_Some in Sel as [Hr Hc].
  apply claimable_true in Hc as (_ & Av & _).
  pose proof (recovered_store_ok now s Hs) as Hs1.
  apply lease_batch_Ok in L as (g & items & E2 & Li & ->); [|exact Hs1|exact Hr|exact Av].
  destruct (emit_recovery_frame l s2) as [[Eb Ei] En].
  apply mirrored_append.
  { rewrite En, E2. apply Hm. }
  rewrite Eb, Ei, E2. cbn [guidance_items write_row set_batches guidance_batches].
  eapply mirrors_write; [apply Hs1| |exact Hr|done|exact Li| |].
  - rewrite <- E2. apply (recovery_mirrors now s s2); [done|done|rewrite E2; apply Hm|by rewrite E2..|].
    intros r0 Hr0. rewrite E2 in Hr0. apply elem_of_sql_update in Hr0 as (r1 & Hr1 & ->).
    apply recover_rows_moved in Hr1 as (r2 & Hr2 & K & C). exists r2. split; [done|].
    by destruct (has_id _ r1).
  - eapply transition_of_row with (op := "claim");
      [reflexivity|by eapply row_seq_i64|done|reflexivity|reflexivity|done|reflexivity|].
    by left.
  - apply available_true in Av as [-> _]. done.
Qed.

(** ** Enqueue *)

Lemma new_batch_named m r ids :
  optional_item_ids m = Ok (Some ids) -> optional_string m "agent_id" = Some (row_agent_id r) ->
  optional_string m "queue_class" = Some (QueueClass.as_str (row_queue_class r)) ->
  optional_i64 m "queue_seq" = Some (row_queue_seq r) ->
  captured (identity m) = captured (row_identity r) -> row_state r = Pending ->
  exists b, new_batch m (row_batch_id r) = Ok b /\ rb_agrees b r ids.
Proof.
  intros Fi Fa Fc Fq Fp St. unfold new_batch, item_ids, required_string, required_i64.
  rewrite Fi, Fa, Fc, Fq. cbn [option_context]. rewrite QueueClass_parse_as_str.
  eexists. split; [reflexivity|]. by constructor.
Qed.

Lemma mirrors_insert l t i row rows items base :
  mirrors l t i -> (forall r, r ∈ t -> row_batch_id r <> row_batch_id row) ->
  row_state row = Pending -> in_i64 (row_queue_seq row) ->
  load_items (i ++ rows)%list (row_batch_id row) = Ok items ->
  (forall r, r ∈ t -> load_items (i ++ rows)%list (row_batch_id r) = load_items i (row_batch_id r)) ->
  plain base -> obj_get "operation" base = Some (JStr "enqueue") ->
  mirrors (l ++ [{| le_event_type := STATE_EVENT;
                    le_data := with_batch_identity (JObj base) (batch_of_row row items) |}])%list
    (t ++ [row])%list (i ++ rows)%list.
Proof.
  intros (p & E & A1 & A2) Hnew St Hq L Lo Hp Hop.
  destruct (with_identity_names base (batch_of_row row items) row (map it_item_id items))
    as (m & Em & Nm & Fi & Fa & Fc & Fq & Fp & Fo & _); [done..|].
  destruct (new_batch_named m row _ Fi Fa Fc Fq Fp St) as (b & Nb & Ag).
  assert (Hnone : p !! row_batch_id row = None).
  { destruct (p !! row_batch_id row) as [b0|] eqn:Eb; [|done].
    apply A2 in Eb as (r & Hr & Hid). by destruct (Hnew r Hr). }
  exists (<[row_batch_id row := b]> p). split; [|split].
  - unfold replay_guidance_batches in *. rewrite try_fold_app, E. cbn [try_fold].
    unfold replay_record. cbn [le_event_type le_data]. rewrite String.eqb_refl, Em.
    cbn [negb as_object]. unfold optional_string at 1. rewrite Fo, Hop.
    cbn [mbind option_bind as_str].
    change (is_queue_state_operation "enqueue") with true. cbn [negb].
    rewrite (nr_batch_id _ _ _ Nm). cbn [String.eqb Ascii.eqb Bool.eqb].
    by rewrite Hnone, Nb.
  - intros r. rewrite elem_of_app, list_elem_of_singleton. intros [Hr| ->].
    + destruct (A1 r Hr) as (b0 & i0 & Hb & Li & Ag0). exists b0, i0.
      rewrite lookup_insert_ne by (intros Eq; by destruct (Hnew r Hr)). by rewrite Lo.
    + exists b, items. by rewrite lookup_insert_eq.
  - intros id b0. destruct (decide (id = row_batch_id row)) as [->|Hne].
    + intros _. exists row. set_solver.
    + rewrite lookup_insert_ne by done. intros (r & Hr & Hid)%A2. exists r. set_solver.
Qed.

(** The enqueue event accounts for the inserted batch. *)
Lemma append_enqueue_mirrored now u request a s s' res sM :
  store_ok s -> enqueue_new now u request a s = Ok (s', res) -> mirror_enabled sM = true ->
  guidance_batches sM = guidance_batches s' -> guidance_items sM = guidance_items s' ->
  mirrors (ledger sM) (guidance_batches s) (guidance_items s) ->
  mirrored (append_enqueue_event res sM).
Proof.
  intros Hs E En Eb Ei M.
  pose proof (enqueue_new_Ok _ _ _ _ _ _ _ Hs E)
    as (q & row & _ & F & Hrow & C & Hs' & Hc & Hb).
  assert (Hid : row_batch_id row = u 0%nat) by by rewrite Hrow.
  assert (Hne : forall r, r ∈ guidance_batches s -> row_batch_id r <> row_batch_id row).
  { intros r Hr. unfold sql_exists in C. rewrite existsb_false in C.
    by destruct (batch_conflict_false _ _ (C r Hr)). }
  unfold append_enqueue_event. rewrite Hc. apply mirrored_append; [done|].
  rewrite Eb, Ei, Hs'. unfold enqueue_data. rewrite Hb.
  cbn [guidance_batches guidance_items set_items set_batches].
  destruct F as (St & _ & _ & _ & _ & _ & _ & Hq).
  apply mirrors_insert; [done|done|done| | | |reflexivity|reflexivity].
  - unfold in_i64, i64_min. unfold i64_max in *. lia.
  - rewrite Hid. apply load_items_new. intros i Hi.
    destruct (so_fk _ Hs i Hi) as (r & Hr & <-). rewrite <- Hid. auto.
  - intros r Hr. apply load_items_other. rewrite <- Hid. auto.
Qed.

Lemma enqueue_batch_mirrored now u request s :
  store_ok s -> mirrored s -> mirrored (enqueue_batch now u request s).1.
Proof.
  intros Hs Hm. unfold enqueue_batch. apply transaction_mirrored; [done|]. intros s' x Hx.
  destruct (validate_batch_request request); [|done].
  destruct (enqueue_batch_in_transaction _ _ _ _ _) as [[s1 res]|] eqn:E; [|done].
  injection Hx as <- _. destruct (enqueue_tx_cases _ _ _ _ _ _ _ E) as [[-> Hc]|E'].
  - unfold append_enqueue_event. by rewrite Hc.
  - pose proof (enqueue_new_Ok _ _ _ _ _ _ _ Hs E') as (? & ? & _ & _ & _ & _ & Es1 & _ & _).
    eapply append_enqueue_mirrored; [exact Hs|exact E'| |done|done|]; rewrite Es1; apply Hm.
Qed.

Lemma compare_and_report_mirrored id res s :
  mirrored s -> mirrored (compare_and_report id res s).1.
Proof.
  intros Hm. unfold compare_and_report, emit_comparison. destruct (compare_batch s id); [|done].
  apply mirrored_neutral; [|done].
  by eapply (neutral_operation _ "shadow_compare").
Qed.

Lemma enqueue_compat_mirrored now u request from_agent content summary s :
  store_ok s -> mirrored s ->
  mirrored (enqueue_batch_with_compatibility now u request from_agent content summary s).1.
Proof.
  intros Hs Hm. unfold enqueue_batch_with_compatibility.
  destruct (validate_batch_request request); [|done].
  destruct (validate_identity _ _); [|done].
  destruct (compatible_tx _ _ _ _ _ _ _ s) as [[[s1 o] res]|] eqn:E; [|done].
  unfold compatible_tx in E.
  destruct (match req_idempotency_key request with Some _ => _ | None => _ end) as [[id|]|];
    [| |done].
  { destruct (load_batch s id); [|done]. injection E as <- <- <-.
    by apply compare_and_report_mirrored. }
  unfold insert_message in E. set (s0 := set_messages s _) in E. set (id := sql_new_rowid _) in E.
  destruct (enqueue_batch_in_transaction _ _ _ _ s0) as [[s2 res']|] eqn:E2; [|done].
  injection E as <- <- <-. apply compare_and_report_mirrored.
  assert (Hs0 : store_ok s0) by by apply store_ok_messages.
  assert (Hm0 : mirrored s0) by done.
  assert (N1 : forall b, neutral {| le_event_type := STATE_EVENT; le_data := with_batch_identity
     (write_message_data id from_agent
        (normalize_agent_id (normalize_agent_id (req_agent_id request))) content summary now) b |})
    by (intros b; by eapply neutral_with_identity with (op := "write_message")).
  destruct (enqueue_tx_cases _ _ _ _ _ _ _ E2) as [[-> Hc]|E'].
  - unfold append_enqueue_event. rewrite Hc.
    apply mirrored_neutral; [by apply neutral_type|]. apply mirrored_neutral; [apply N1|done].
  - pose proof (enqueue_new_Ok _ _ _ _ _ _ _ Hs0 E') as (? & ? & _ & _ & _ & _ & Es2 & _ & _).
    assert (En : mirror_enabled s2 = true) by (rewrite Es2; apply Hm0).
    assert (El : ledger s2 = ledger s0) by by rewrite Es2.
    eapply append_enqueue_mirrored; [exact Hs0|exact E'| | | |].
    + by autorewrite with store.
    + by autorewrite with store.
    + by autorewrite with store.
    + rewrite !append_ledger by (done || by autorewrite with store).
      apply mirrors_neutral; [by apply neutral_type|].
      apply mirrors_neutral; [apply N1|]. rewrite El. apply Hm0.
Qed.

(** ** The inbox *)

Lemma mirrored_untouched s s' :
  mirrored s -> mirror_enabled s' = mirror_enabled s -> ledger s' = ledger s ->
  queue_untouched s s' -> mirrored s'.
Proof. intros [En M] E1 E2 [Eb Ei]. split; [congruence|]. by rewrite E2, Eb, Ei. Qed.

Lemma write_message_mirrored now f to_agent c o s :
  mirrored s -> mirrored (write_message now f to_agent c o s).1.
Proof.
  intros Hm. unfold write_message, insert_message. cbn [fst].
  apply mirrored_neutral; [by apply neutral_type|].
  apply mirrored_neutral; [by eapply (neutral_operation _ "write_message")|done].
Qed.

Lemma peek_mirrored now a s : mirrored s -> mirrored (peek_unnotified now a s).1.
Proof.
  intros Hm. unfold peek_unnotified. destruct (select_messages _ _); [done|].
  apply mirrored_neutral; [by eapply (neutral_operation _ "mark_notified")|done].
Qed.

Lemma record_poke_mirrored now a n b m s :
  mirrored s -> mirrored (record_poke now a n b m s).1.
Proof.
  intros Hm. unfold record_poke.
  apply mirrored_neutral; [by eapply (neutral_operation _ "record_poke")|done].
Qed.

Lemma drain_mirrored now a s : mirrored s -> mirrored (drain_unread now a s).1.
Proof.
  intros Hm. unfold drain_unread. apply transaction_mirrored; [done|]. cbv zeta. intros s' x Hx.
  destruct (collect _ _) as [bs|]; [|done].
  destruct (select_messages _ _) as [|m0 l0]; [by injection Hx as <- _|]. injection Hx as <- _.
  assert (Hfold : forall (l : list (InboxMessageRecord * option GuidanceBatch)) s0, mirrored s0 ->
    mirrored (fold_left (fun s mb => append_state_change "message.consumed"
                  (recovery_data mb.2 (consumed_event now (normalize_agent_id a) mb.1)) s) l s0)).
  { induction l as [|mb l IH]; intros s0 Hm0; cbn [fold_left]; [done|].
    apply IH, mirrored_neutral; [by apply neutral_type|done]. }
  apply Hfold, mirrored_neutral; [by eapply (neutral_operation _ "mark_read")|done].
Qed.

(** ** Every operation *)

Lemma run_op_mirrored op s :
  store_ok s -> mirrored s -> op_returns op s = true -> mirrored (run_op op s).
Proof.
  intros Hs Hm R. destruct op; cbn [run_op].
  - by apply enqueue_batch_mirrored.
  - unfold enqueue_in_topic. destruct (InTopic.parse topic); [by apply enqueue_batch_mirrored|done].
  - by apply enqueue_compat_mirrored.
  - by apply recover_expired_leases_mirrored.
  - apply claim_next_mirrored; [done|done|]. cbn in R. by destruct (claim_next _ _ _ _ _) as [? []].
  - by apply record_transport_attempt_mirrored.
  - by apply acknowledge_runtime_mirrored.
  - by apply release_for_retry_mirrored.
  - by apply cancel_batch_mirrored.
  - by apply write_message_mirrored.
  - by apply peek_mirrored.
  - by apply drain_mirrored.
  - by apply record_poke_mirrored.
  - exact Hm.
Qed.

Lemma run_ops_mirrored ops s :
  store_ok s -> mirrored s -> ops_return ops s = true -> mirrored (run_ops ops s).
Proof.
  revert s. induction ops as [|op ops IH]; intros s Hs Hm R; [done|].
  cbn in *. apply andb_true_iff in R as [R1 R2].
  apply IH; [|by apply run_op_mirrored|done]. by apply (run_op_ok (fun _ => True)).
Qed.

Lemma empty_mirrored path : mirror_enabled (empty_store path) = true -> mirrored (empty_store path).
Proof.
  intros En. split; [done|]. exists ∅. split; [done|]. split.
  - intros r ?%elem_of_nil. done.
  - intros id b. by rewrite lookup_empty.
Qed.

End Mirror.
