(* ===== verification/TransportCache.v ===== *)
(** * The transport cache

    [services/agent_inbox.rs]: per-agent FIFO queues of messages waiting to be
    injected into a runtime, rebuilt from the durable guidance queue, and the
    consumer loop of [services/delivery.rs] that drains them.  Every method
    holds the [queues] mutex for its whole body, so it is a function on the
    cache.  Best-effort log lines are not modelled. *)

From stdpp Require Import gmap pretty.
From S2P Require Import Prelude RustStr JsonValue SqlTable GuidanceTypes Store.
From S2P Require Import GuidanceQueue.
Local Open Scope string_scope.

Definition DEFAULT_WARNING_THRESHOLD : Z := 8.
Definition DEFAULT_HARD_CAP : Z := 32.
Definition MAX_DELIVERY_ATTEMPTS : Z := 8.
Definition INITIAL_DELIVERY_BACKOFF : Z := 1.
Definition MAX_DELIVERY_BACKOFF : Z := 30.

Record InjectionOptions := { file_indirect : bool; submit : bool; skip_verify : bool }.
Definition claude_default : InjectionOptions :=
  {| file_indirect := true; submit := true; skip_verify := false |}.
Definition inline_submit : InjectionOptions :=
  {| file_indirect := false; submit := true; skip_verify := true |}.

Record InboxMessage := {
  im_id : Z;
  im_target : string;
  im_project_dir : string;
  im_project_root : string;
  im_from : string;
  im_recipient : string;
  im_body : string;
  im_detail : string;
  im_injection_options : InjectionOptions;
  im_cache_key : option string
}.

Definition new_message (target project_dir from recipient body detail : string) : InboxMessage := {|
  im_id := 0; im_target := target; im_project_dir := project_dir; im_project_root := project_dir;
  im_from := from; im_recipient := recipient; im_body := body; im_detail := detail;
  im_injection_options := claude_default; im_cache_key := None |}.
Definition with_id (id : Z) (m : InboxMessage) : InboxMessage := {|
  im_id := id; im_target := im_target m; im_project_dir := im_project_dir m;
  im_project_root := im_project_root m; im_from := im_from m; im_recipient := im_recipient m;
  im_body := im_body m; im_detail := im_detail m;
  im_injection_options := im_injection_options m; im_cache_key := im_cache_key m |}.
Definition with_project_root (root : string) (m : InboxMessage) : InboxMessage := {|
  im_id := im_id m; im_target := im_target m; im_project_dir := im_project_dir m;
  im_project_root := root; im_from := im_from m; im_recipient := im_recipient m;
  im_body := im_body m; im_detail := im_detail m;
  im_injection_options := im_injection_options m; im_cache_key := im_cache_key m |}.
Definition with_injection_options (o : InjectionOptions) (m : InboxMessage) : InboxMessage := {|
  im_id := im_id m; im_target := im_target m; im_project_dir := im_project_dir m;
  im_project_root := im_project_root m; im_from := im_from m; im_recipient := im_recipient m;
  im_body := im_body m; im_detail := im_detail m;
  im_injection_options := o; im_cache_key := im_cache_key m |}.
Definition with_cache_key (key : string) (m : InboxMessage) : InboxMessage := {|
  im_id := im_id m; im_target := im_target m; im_project_dir := im_project_dir m;
  im_project_root := im_project_root m; im_from := im_from m; im_recipient := im_recipient m;
  im_body := im_body m; im_detail := im_detail m;
  im_injection_options := im_injection_options m; im_cache_key := Some key |}.

(** ** Producer identities *)

Definition parse_leading_u64 (input : string) : option Z :=
  let digits := leading_digits input in
  if str_is_empty digits then None else parse_u64 digits.

Definition parse_pr_number (body : string) : option Z :=
  '(_, after) ← split_once_str "PR #" body; parse_leading_u64 after.

Definition parse_stuck_scope (body : string) : option Z :=
  '(_, after) ← split_once_str "[STUCK: " body;
  parse_leading_u64 (default after (strip_prefix "PR #" after)).

Definition structured_tags : list (string * string) :=
  [ ("[MERGE READY]", "MergeReady"); ("[PR READY]", "ReviewApproved");
    ("[FIXES PUSHED]", "FixesPushed"); ("[COMMITS PUSHED]", "CommitsPushed");
    ("[REVIEW TIMEOUT]", "ReviewTimeout"); ("[CI Status]", "CIStatus") ].

Definition structured_key (recipient event_type body : string) : string :=
  "structured:" ++ recipient ++ ":" ++ event_type ++ ":"
  ++ match parse_pr_number body with Some n => pretty n | None => "none" end.

(** [uuid] is a fresh identifier; the sender is not used. *)
Definition idempotency_key_for_message (uuid from recipient body : string) : string :=
  match List.find (fun t => contains_str t.1 body) structured_tags with
  | Some (_, event_type) => structured_key recipient event_type body
  | None =>
      if contains_str "## Review on PR #" body || contains_str "[CHANGES REQUESTED] PR #" body
      then structured_key recipient "ReviewReceived" body
      else match parse_stuck_scope body with
           | Some scope => "structured:" ++ recipient ++ ":Stuck:" ++ pretty scope
           | None => uuid
           end
  end.

(** ** The cache *)

Record EnqueueOutcome := {
  eo_depth : Z;
  eo_warning_emitted : bool;
  eo_should_start_consumer : bool;
  eo_dropped_as_duplicate : bool
}.

Record AgentQueue := {
  aq_messages : list InboxMessage;
  aq_consumer_active : bool;
  aq_cache_keys : gset string
}.

Record AgentInbox := {
  ai_queues : gmap string AgentQueue;
  ai_next_id : Z;
  ai_warning_threshold : Z;
  ai_hard_cap : Z
}.

Definition empty_queue : AgentQueue :=
  {| aq_messages := []; aq_consumer_active := false; aq_cache_keys := ∅ |}.
Definition new_inbox (warning_threshold hard_cap : Z) : AgentInbox := {|
  ai_queues := ∅; ai_next_id := 1; ai_warning_threshold := warning_threshold;
  ai_hard_cap := hard_cap |}.

Definition queue_of (agent : string) (ib : AgentInbox) : AgentQueue :=
  default empty_queue (ai_queues ib !! agent).
Definition set_queue (agent : string) (q : AgentQueue) (ib : AgentInbox) : AgentInbox := {|
  ai_queues := <[agent := q]> (ai_queues ib); ai_next_id := ai_next_id ib;
  ai_warning_threshold := ai_warning_threshold ib; ai_hard_cap := ai_hard_cap ib |}.

Definition is_empty_list {A} (l : list A) : bool := match l with [] => true | _ => false end.

(** The membership test of a cached key. *)
Definition key_queued (m : InboxMessage) (q : AgentQueue) : bool :=
  match im_cache_key m with
  | Some key => bool_decide (key ∈ aq_cache_keys q)
  | None => false
  end.

(** [AtomicU64::fetch_add] wraps. *)
Definition next_message_id (id : Z) : Z := (id + 1) mod 2 ^ 64.

Definition enqueue (agent : string) (message : InboxMessage) (ib : AgentInbox)
  : AgentInbox * result EnqueueOutcome string :=
  let queue := queue_of agent ib in
  let ib := set_queue agent queue ib in
  if key_queued message queue then
    (ib, Ok {| eo_depth := Z.of_nat (length (aq_messages queue)); eo_warning_emitted := false;
               eo_should_start_consumer :=
                 negb (aq_consumer_active queue) && negb (is_empty_list (aq_messages queue));
               eo_dropped_as_duplicate := true |})
  else if (ai_hard_cap ib <=? Z.of_nat (length (aq_messages queue)))%Z then
    (ib, Err ("agent inbox for `" ++ agent ++ "` is full ("
              ++ pretty (length (aq_messages queue)) ++ " queued, cap "
              ++ pretty (ai_hard_cap ib) ++ ")"))
  else
    let message := with_id (ai_next_id ib) message in
    let queue' := {|
      aq_messages := (aq_messages queue ++ [message])%list;
      aq_consumer_active := aq_consumer_active queue;
      aq_cache_keys := match im_cache_key message with
                       | Some key => {[ key ]} ∪ aq_cache_keys queue
                       | None => aq_cache_keys queue
                       end |} in
    let depth := Z.of_nat (length (aq_messages queue')) in
    ({| ai_queues := <[agent := queue']> (ai_queues ib);
        ai_next_id := next_message_id (ai_next_id ib);
        ai_warning_threshold := ai_warning_threshold ib; ai_hard_cap := ai_hard_cap ib |},
     Ok {| eo_depth := depth; eo_warning_emitted := (ai_warning_threshold ib <=? depth)%Z;
           eo_should_start_consumer := negb (aq_consumer_active queue);
           eo_dropped_as_duplicate := false |}).

Definition begin_delivery (agent : string) (ib : AgentInbox) : AgentInbox * option InboxMessage :=
  match ai_queues ib !! agent with
  | None => (ib, None)
  | Some queue =>
      if aq_consumer_active queue then (ib, None)
      else match aq_messages queue with
           | [] => (ib, None)
           | message :: _ =>
               (set_queue agent {| aq_messages := aq_messages queue; aq_consumer_active := true;
                                   aq_cache_keys := aq_cache_keys queue |} ib, Some message)
           end
  end.

(** The head, if it is the message, is popped and its key forgotten. *)
Definition pop_if_head (message_id : Z) (queue : AgentQueue) : AgentQueue * option InboxMessage :=
  match aq_messages queue with
  | message :: rest =>
      if (im_id message =? message_id)%Z then
        ({| aq_messages := rest; aq_consumer_active := aq_consumer_active queue;
            aq_cache_keys := match im_cache_key message with
                             | Some key => aq_cache_keys queue ∖ {[ key ]}
                             | None => aq_cache_keys queue
                             end |}, Some message)
      else (queue, None)
  | [] => (queue, None)
  end.

Definition deactivate (queue : AgentQueue) : AgentQueue := {|
  aq_messages := aq_messages queue; aq_consumer_active := false;
  aq_cache_keys := aq_cache_keys queue |}.

Definition complete_delivery (agent : string) (message_id : Z) (success : bool) (ib : AgentInbox)
  : AgentInbox :=
  match ai_queues ib !! agent with
  | None => ib
  | Some queue =>
      let queue := if success then (pop_if_head message_id queue).1 else queue in
      set_queue agent (deactivate queue) ib
  end.

Definition abandon_delivery (agent : string) (message_id : Z) (ib : AgentInbox)
  : AgentInbox * option InboxMessage :=
  match ai_queues ib !! agent with
  | None => (ib, None)
  | Some queue =>
      let '(queue, abandoned) := pop_if_head message_id queue in
      (set_queue agent (deactivate queue) ib, abandoned)
  end.

Definition queue_depth (agent : string) (ib : AgentInbox) : Z :=
  match ai_queues ib !! agent with
  | Some queue => Z.of_nat (length (aq_messages queue))
  | None => 0
  end.

Definition is_consumer_active (agent : string) (ib : AgentInbox) : bool :=
  match ai_queues ib !! agent with
  | Some queue => aq_consumer_active queue
  | None => false
  end.

(** ** Rebuilding from the durable queue *)

Definition join_paragraphs (l : list string) : string :=
  match l with
  | [] => ""
  | p :: ps => fold_left (fun acc p => acc ++ bytes_str [10; 10] ++ p) ps p
  end.

Definition message_from_batch (target project_dir : string) (options : InjectionOptions)
    (batch : GuidanceBatch) : result InboxMessage string :=
  let? first_item := option_context (head (gb_items batch)) "guidance batch has no items" in
  let body := join_paragraphs (map it_content (gb_items batch)) in
  let summary := default "durable guidance" (head (omap it_summary (gb_items batch))) in
  Ok (with_cache_key (gb_batch_id batch)
        (with_injection_options options
           (new_message target project_dir (it_from_agent first_item) (gb_agent_id batch) body
              ("durable guidance batch " ++ gb_batch_id batch ++ ": " ++ summary)))).

(** The loop over the pending batches: the number restored. *)
Fixpoint restore_batches (agent target project_dir : string) (options : InjectionOptions)
    (batches : list GuidanceBatch) (restored : Z) (ib : AgentInbox)
  : AgentInbox * result Z string :=
  match batches with
  | [] => (ib, Ok restored)
  | batch :: rest =>
      match message_from_batch target project_dir options batch with
      | Err e => (ib, Err e)
      | Ok message =>
          match enqueue agent message ib with
          | (ib, Err e) => (ib, Err e)
          | (ib, Ok outcome) =>
              restore_batches agent target project_dir options rest
                (if eo_dropped_as_duplicate outcome then restored else restored + 1) ib
          end
      end
  end.

Section Durable.
Context `{SqlEngine} `{JsonText} `{EventSink}.

Definition rebuild_from_durable_at (agent target project_dir : string)
    (options : InjectionOptions) (now : Z) (s : InboxStore) (ib : AgentInbox)
  : InboxStore * AgentInbox * result Z string :=
  match recover_expired_leases now s with
  | (s, Err e) => (s, ib, Err e)
  | (s, Ok _) =>
      match pending_batches_for_agent s agent now with
      | Err e => (s, ib, Err e)
      | Ok batches =>
          let '(ib, r) := restore_batches agent target project_dir options batches 0 ib in
          (s, ib, r)
      end
  end.
End Durable.

(** ** The consumer *)

(** [2u32.saturating_pow(attempt.saturating_sub(1))], in seconds. *)
Definition delivery_backoff (attempt : Z) : Z :=
  Z.min MAX_DELIVERY_BACKOFF
    (INITIAL_DELIVERY_BACKOFF * Z.min u32_max (2 ^ Z.max 0 (attempt - 1))).

(** The attempts of one message: [inject i] is the outcome of the [i]-th
    injection of the run, [attempt] the number made so far.  The result is
    whether one succeeded, how many were made and the pauses between them. *)
Fixpoint delivery_attempts (inject : nat -> bool) (i : nat) (budget : nat) (attempt : Z)
  : bool * Z * list Z :=
  match budget with
  | O => (false, attempt, [])
  | S budget =>
      let attempt := (attempt + 1)%Z in
      if inject i then (true, attempt, [])
      else if (MAX_DELIVERY_ATTEMPTS <=? attempt)%Z then (false, attempt, [])
      else
        let '(ok, n, pauses) := delivery_attempts inject (S i) budget attempt in
        (ok, n, delivery_backoff attempt :: pauses)
  end.

(** [run_inbox_consumer] without other tasks: [None] when the fuel runs out;
    otherwise the cache and the injections made, in order. *)
Fixpoint run_inbox_consumer (fuel : nat) (inject : nat -> bool) (i : nat) (agent : string)
    (ib : AgentInbox) : option (AgentInbox * list Z) :=
  match fuel with
  | O => None
  | S fuel =>
      match begin_delivery agent ib with
      | (ib, None) => Some (ib, [])
      | (ib, Some message) =>
          let '(ok, n, _) := delivery_attempts inject i (Z.to_nat MAX_DELIVERY_ATTEMPTS) 0 in
          let ib := if ok then complete_delivery agent (im_id message) true ib
                    else (abandon_delivery agent (im_id message) ib).1 in
          '(ib, log) ← run_inbox_consumer fuel inject (i + Z.to_nat n) agent ib;
          Some (ib, (repeat (im_id message) (Z.to_nat n) ++ log)%list)
      end
  end.
