(* ===== verification/TransportCacheSpec.v ===== *)
(** * The transport cache: properties

    The cache under any interleaving of producers, rebuilds and consumer tasks,
    and the consumer loop on its own. *)

From stdpp Require Import gmap sorting.
From S2P Require Import Prelude RustStr TransportCache.

Local Open Scope string_scope.

Implicit Types (q : AgentQueue) (ib : AgentInbox) (m : InboxMessage) (a : string).

(** ** One queue *)

Record queue_ok (cap next : Z) q : Prop := {
  qo_sorted : StronglySorted Z.lt (map im_id (aq_messages q));
  qo_below : Forall (fun m => 1 <= im_id m < next)%Z (aq_messages q);
  qo_cap : (Z.of_nat (length (aq_messages q)) <= cap)%Z;
  qo_keys : forall k, k ∈ aq_cache_keys q <-> k ∈ omap im_cache_key (aq_messages q);
  qo_once : NoDup (omap im_cache_key (aq_messages q))
}.

Lemma queue_ok_empty cap next : (0 <= cap)%Z -> queue_ok cap next empty_queue.
Proof. intros Hc. constructor; cbn; try constructor; set_solver. Qed.

Lemma queue_ok_mono cap next next' q :
  (next <= next')%Z -> queue_ok cap next q -> queue_ok cap next' q.
Proof.
  intros Hn [S B C K O]. constructor; try done. eapply Forall_impl; [exact B|]. cbn. lia.
Qed.

Lemma omap_key_cons m l :
  omap im_cache_key (m :: l)
  = match im_cache_key m with
    | Some k => k :: omap im_cache_key l
    | None => omap im_cache_key l
    end.
Proof. done. Qed.

(** The head is older than the rest. *)
Lemma queue_head_lt cap next q m rest :
  queue_ok cap next q -> aq_messages q = m :: rest ->
  forall x, x ∈ rest -> (im_id m < im_id x)%Z.
Proof.
  intros [S _ _ _ _] E x Hx. rewrite E in S. cbn in S. apply StronglySorted_inv in S as [_ F].
  eapply (proj1 (Forall_forall _ _) F). apply list_elem_of_fmap. by exists x.
Qed.

Lemma pop_head_ok cap next q m rest :
  queue_ok cap next q -> aq_messages q = m :: rest ->
  let q' := (pop_if_head (im_id m) q).1 in
  aq_messages q' = rest /\ queue_ok cap next q' /\ (pop_if_head (im_id m) q).2 = Some m.
Proof.
  intros [S B C K O] E. unfold pop_if_head. rewrite E, Z.eqb_refl. cbn [fst snd aq_messages].
  split; [done|]. split; [|done]. rewrite E in *. cbn [map] in S.
  apply StronglySorted_inv in S as [S _]. inversion_clear B as [|? ? _ B'].
  constructor; cbn [aq_messages aq_cache_keys]; [done|done|cbn [length] in C; lia| |].
  - intros k. rewrite omap_key_cons in K, O. destruct (im_cache_key m) as [k0|]; [|apply K].
    apply NoDup_cons in O as [Nk _]. rewrite elem_of_difference, elem_of_singleton, K, elem_of_cons.
    split; [tauto|]. intros Hk. split; [by right|]. by intros ->.
  - rewrite omap_key_cons in O. destruct (im_cache_key m); [by apply NoDup_cons in O as []|done].
Qed.

Lemma deactivate_ok cap next q : queue_ok cap next q -> queue_ok cap next (deactivate q).
Proof. by intros [S B C K O]. Qed.

(** ** The cache *)

Lemma queue_of_set a b q ib :
  queue_of b (set_queue a q ib) = if decide (a = b) then q else queue_of b ib.
Proof.
  unfold queue_of, set_queue. cbn. destruct (decide (a = b)) as [->|Hne].
  - by rewrite lookup_insert_eq.
  - by rewrite lookup_insert_ne.
Qed.

(** What [enqueue] does to every queue, and when it asks for a consumer. *)
Lemma enqueue_cases a m ib :
  let q := queue_of a ib in
  let '(ib', r) := enqueue a m ib in
  ai_hard_cap ib' = ai_hard_cap ib /\
  ((ai_next_id ib' = ai_next_id ib /\ (forall b, queue_of b ib' = queue_of b ib) /\
    ((exists o, r = Ok o /\ eo_dropped_as_duplicate o = true /\ key_queued m q = true /\
        eo_should_start_consumer o
        = negb (aq_consumer_active q) && negb (is_empty_list (aq_messages q))) \/
     exists e, r = Err e /\ key_queued m q = false /\
       (ai_hard_cap ib <= Z.of_nat (length (aq_messages q)))%Z)) \/
   (key_queued m q = false /\ (Z.of_nat (length (aq_messages q)) < ai_hard_cap ib)%Z /\
    ai_next_id ib' = next_message_id (ai_next_id ib) /\
    (forall b, b <> a -> queue_of b ib' = queue_of b ib) /\
    aq_messages (queue_of a ib') = (aq_messages q ++ [with_id (ai_next_id ib) m])%list /\
    aq_consumer_active (queue_of a ib') = aq_consumer_active q /\
    aq_cache_keys (queue_of a ib') = match im_cache_key m with
                                     | Some k => {[ k ]} ∪ aq_cache_keys q
                                     | None => aq_cache_keys q
                                     end /\
    exists o, r = Ok o /\ eo_dropped_as_duplicate o = false /\
      eo_should_start_consumer o = negb (aq_consumer_active q) /\
      eo_warning_emitted o = (ai_warning_threshold ib <=? eo_depth o)%Z /\
      eo_depth o = Z.of_nat (length (aq_messages q) + 1))).
Proof.
  unfold enqueue. destruct (key_queued m (queue_of a ib)) eqn:K.
  { split; [done|]. left. split; [done|]. split.
    - intros b. rewrite queue_of_set. by destruct (decide (a = b)) as [->|].
    - left. eexists. by repeat split. }
  cbn [ai_hard_cap set_queue]. destruct (_ <=? _)%Z eqn:Hc.
  { split; [done|]. left. split; [done|]. split.
    - intros b. rewrite queue_of_set. by destruct (decide (a = b)) as [->|].
    - right. eexists. split; [done|]. split; [done|]. by apply Z.leb_le. }
  split; [done|]. right. apply Z.leb_gt in Hc. split; [done|]. split; [done|]. split; [done|].
  unfold queue_of. cbn [ai_queues set_queue]. split.
  { intros b Hb. by rewrite !lookup_insert_ne by done. }
  rewrite lookup_insert_eq. cbn. split; [done|]. split; [done|]. split; [done|].
  eexists. split; [done|]. cbn. split; [done|]. split; [done|]. split; [done|].
  rewrite length_app. cbn. lia.
Qed.

(** A fresh message at the end of a queue. *)
Lemma queue_ok_push cap next q q' m :
  queue_ok cap next q -> (1 <= next)%Z -> key_queued m q = false ->
  (Z.of_nat (length (aq_messages q)) < cap)%Z ->
  aq_messages q' = (aq_messages q ++ [with_id next m])%list ->
  aq_cache_keys q' = match im_cache_key m with
                     | Some k => {[ k ]} ∪ aq_cache_keys q
                     | None => aq_cache_keys q
                     end ->
  queue_ok cap (next + 1) q'.
Proof.
  intros [S B C K O] Hn Hk Hc Em Ek.
  assert (Eo : omap im_cache_key (aq_messages q')
    = (omap im_cache_key (aq_messages q)
       ++ match im_cache_key m with Some k => [k] | None => [] end)%list).
  { rewrite Em, omap_app. reflexivity. }
  constructor.
  - rewrite Em, map_app. apply StronglySorted_app. split; [|split; [done|by repeat constructor]].
    intros i j (x & -> & Hx)%list_elem_of_fmap ->%list_elem_of_singleton. cbn.
    eapply Forall_forall in B; [|exact Hx]. cbn in B. lia.
  - rewrite Em. apply Forall_app. split; [|apply Forall_singleton; cbn; lia].
    eapply Forall_impl; [exact B|]. cbn. lia.
  - rewrite Em, length_app. cbn. lia.
  - intros k. rewrite Eo, Ek, elem_of_app. destruct (im_cache_key m) as [k0|].
    + rewrite elem_of_union, elem_of_singleton, K, list_elem_of_singleton. tauto.
    + rewrite K. set_solver.
  - rewrite Eo. unfold key_queued in Hk. destruct (im_cache_key m) as [k0|]; [|by rewrite app_nil_r].
    apply bool_decide_eq_false in Hk. apply NoDup_app. split; [done|]. split; [|apply NoDup_singleton].
    intros k Hin ->%list_elem_of_singleton. by apply Hk, K.
Qed.

(** ** Producers, rebuilds and consumers interleaved *)

(** A consumer task is at the head of its loop, or has made some attempts at
    the message it began. *)
Inductive phase :=
| AtHead
| Delivering (m : InboxMessage) (attempts : Z).

(** [w_injected] lists the injections made, newest first. *)
Record world := {
  w_inbox : AgentInbox;
  w_tasks : list (string * phase);
  w_injected : list (string * Z)
}.

Definition spawned (a : string) (r : result EnqueueOutcome string) : list (string * phase) :=
  match r with
  | Ok o => if eo_should_start_consumer o then [(a, AtHead)] else []
  | Err _ => []
  end.

Inductive step : world -> world -> Prop :=
| step_enqueue w a m ib r :
    enqueue a m (w_inbox w) = (ib, r) -> (ai_next_id (w_inbox w) < u64_max)%Z ->
    step w {| w_inbox := ib; w_tasks := spawned a r ++ w_tasks w; w_injected := w_injected w |}
| step_begin w a m ib t1 t2 :
    w_tasks w = (t1 ++ (a, AtHead) :: t2)%list -> begin_delivery a (w_inbox w) = (ib, Some m) ->
    step w {| w_inbox := ib; w_tasks := t1 ++ (a, Delivering m 0) :: t2;
              w_injected := w_injected w |}
| step_exit w a ib t1 t2 :
    w_tasks w = (t1 ++ (a, AtHead) :: t2)%list -> begin_delivery a (w_inbox w) = (ib, None) ->
    step w {| w_inbox := ib; w_tasks := t1 ++ t2; w_injected := w_injected w |}
| step_success w a m k t1 t2 :
    w_tasks w = (t1 ++ (a, Delivering m k) :: t2)%list ->
    step w {| w_inbox := complete_delivery a (im_id m) true (w_inbox w);
              w_tasks := t1 ++ (a, AtHead) :: t2; w_injected := (a, im_id m) :: w_injected w |}
| step_retry w a m k t1 t2 :
    w_tasks w = (t1 ++ (a, Delivering m k) :: t2)%list -> (k + 1 < MAX_DELIVERY_ATTEMPTS)%Z ->
    step w {| w_inbox := w_inbox w; w_tasks := t1 ++ (a, Delivering m (k + 1)) :: t2;
              w_injected := (a, im_id m) :: w_injected w |}
| step_abandon w a m k t1 t2 :
    w_tasks w = (t1 ++ (a, Delivering m k) :: t2)%list -> (MAX_DELIVERY_ATTEMPTS <= k + 1)%Z ->
    step w {| w_inbox := (abandon_delivery a (im_id m) (w_inbox w)).1;
              w_tasks := t1 ++ (a, AtHead) :: t2; w_injected := (a, im_id m) :: w_injected w |}.

(** A rebuild enqueues without starting a consumer. *)
Inductive step_or_restore : world -> world -> Prop :=
| sr_step w w' : step w w' -> step_or_restore w w'
| sr_restore w a m ib r :
    enqueue a m (w_inbox w) = (ib, r) -> (ai_next_id (w_inbox w) < u64_max)%Z ->
    step_or_restore w {| w_inbox := ib; w_tasks := w_tasks w; w_injected := w_injected w |}.

Definition init_world (warning_threshold hard_cap : Z) : world :=
  {| w_inbox := new_inbox warning_threshold hard_cap; w_tasks := []; w_injected := [] |}.

(** ** The invariant, agent by agent *)

Definition delivering_of (a : string) (t : list (string * phase)) : list (InboxMessage * Z) :=
  omap (fun x => match x.2 with
                 | Delivering m k => if decide (x.1 = a) then Some (m, k) else None
                 | AtHead => None
                 end) t.

Definition log_of (a : string) (l : list (string * Z)) : list Z :=
  omap (fun x => if decide (x.1 = a) then Some x.2 else None) l.

Definition count_in (i : Z) (l : list Z) : Z := Z.of_nat (length (List.filter (Z.eqb i) l)).

Record agent_ok (cap next : Z) q (dl : list (InboxMessage * Z)) (log : list Z) : Prop := {
  ao_queue : queue_ok cap next q;
  ao_dl : match dl with
          | [] => aq_consumer_active q = false /\
                  forall m rest, aq_messages q = m :: rest -> count_in (im_id m) log = 0%Z
          | [(m, k)] => aq_consumer_active q = true /\ head (aq_messages q) = Some m /\
                        (0 <= k < MAX_DELIVERY_ATTEMPTS)%Z /\ count_in (im_id m) log = k
          | _ => False
          end;
  ao_le : forall i m, i ∈ log -> m ∈ aq_messages q -> (i <= im_id m)%Z;
  ao_next : forall i, i ∈ log -> (i < next)%Z;
  ao_max : forall i, (count_in i log <= MAX_DELIVERY_ATTEMPTS)%Z;
  ao_sorted : StronglySorted (fun x y => y <= x)%Z log
}.

Definition world_ok (w : world) : Prop :=
  (1 <= ai_next_id (w_inbox w))%Z /\ (0 <= ai_hard_cap (w_inbox w))%Z /\
  forall a, agent_ok (ai_hard_cap (w_inbox w)) (ai_next_id (w_inbox w)) (queue_of a (w_inbox w))
              (delivering_of a (w_tasks w)) (log_of a (w_injected w)).

Lemma count_in_cons i j l : count_in i (j :: l) = ((if (i =? j)%Z then 1 else 0) + count_in i l)%Z.
Proof. unfold count_in. cbn. destruct (i =? j)%Z; cbn [length]; lia. Qed.

Lemma count_in_lt i l : (forall j, j ∈ l -> j <> i) -> count_in i l = 0%Z.
Proof.
  induction l as [|j l IH]; intros Hl; [done|]. rewrite count_in_cons, IH by set_solver.
  destruct (Z.eqb_spec i j) as [->|]; [|done]. destruct (Hl j); [by left|done].
Qed.

Lemma delivering_app a t1 t2 :
  delivering_of a (t1 ++ t2) = (delivering_of a t1 ++ delivering_of a t2)%list.
Proof. apply omap_app. Qed.

Lemma delivering_cons a b ph t :
  delivering_of a ((b, ph) :: t)
  = (match ph with
     | Delivering m k => if decide (b = a) then [(m, k)] else []
     | AtHead => []
     end ++ delivering_of a t)%list.
Proof.
  unfold delivering_of. cbn. destruct ph as [|m k]; [done|]. by destruct (decide (b = a)).
Qed.

Lemma log_cons a b i l :
  log_of a ((b, i) :: l) = if decide (b = a) then i :: log_of a l else log_of a l.
Proof. unfold log_of. cbn. by destruct (decide (b = a)). Qed.

Lemma elem_of_delivering a t m k : (m, k) ∈ delivering_of a t <-> (a, Delivering m k) ∈ t.
Proof.
  unfold delivering_of. rewrite list_elem_of_omap. split.
  - intros ([b ph] & Hx & E). cbn in E. destruct ph as [|m' k']; [done|].
    destruct (decide (b = a)) as [->|]; [|done]. by injection E as -> ->.
  - intros Hx. exists (a, Delivering m k). split; [done|]. cbn. by rewrite decide_True.
Qed.

Lemma agent_ok_mono cap next q dl log :
  agent_ok cap next q dl log -> agent_ok cap (next + 1) q dl log.
Proof.
  intros [Q D L N M S]. constructor; try done.
  - eapply queue_ok_mono; [|exact Q]. lia.
  - intros i Hi. specialize (N i Hi). lia.
Qed.

Lemma agent_ok_push cap next q q' dl log m :
  agent_ok cap next q dl log -> (1 <= next)%Z -> key_queued m q = false ->
  (Z.of_nat (length (aq_messages q)) < cap)%Z ->
  aq_messages q' = (aq_messages q ++ [with_id next m])%list ->
  aq_consumer_active q' = aq_consumer_active q ->
  aq_cache_keys q' = match im_cache_key m with
                     | Some k => {[ k ]} ∪ aq_cache_keys q
                     | None => aq_cache_keys q
                     end ->
  agent_ok cap (next + 1) q' dl log.
Proof.
  intros [Q D L N M S] Hn Hk Hc Em Ea Ek. constructor; try done.
  - by eapply queue_ok_push.
  - destruct dl as [|[x k] [|]]; [| |done].
    + rewrite Ea, Em. destruct D as [Da D0]. split; [done|]. intros x rest Ex.
      destruct (aq_messages q) as [|y ys]; cbn in Ex; injection Ex as <- _; [|by eapply D0].
      apply count_in_lt. intros j Hj. specialize (N j Hj). cbn. lia.
    + rewrite Ea, Em. destruct D as (Da & Dh & Dk & Dc). split; [done|]. split; [|done].
      by destruct (aq_messages q).
  - intros i x Hi. rewrite Em. intros [Hx| ->%list_elem_of_singleton]%elem_of_app; [by apply L|].
    specialize (N i Hi). cbn. lia.
  - intros i Hi. specialize (N i Hi). lia.
Qed.

Lemma agent_ok_begin cap next q m rest log :
  agent_ok cap next q [] log -> aq_messages q = m :: rest ->
  agent_ok cap next {| aq_messages := aq_messages q; aq_consumer_active := true;
                       aq_cache_keys := aq_cache_keys q |} [(m, 0%Z)] log.
Proof.
  intros [[S B C K O] [Da D0] L N M So] Em. constructor; try done. cbn.
  split; [done|]. split; [by rewrite Em|]. split; [unfold MAX_DELIVERY_ATTEMPTS; lia|].
  by eapply D0.
Qed.

(** One more injection of the head. *)
Lemma injected_log cap next q m k log :
  agent_ok cap next q [(m, k)] log ->
  count_in (im_id m) (im_id m :: log) = (k + 1)%Z /\
  (forall i, count_in i (im_id m :: log) <= MAX_DELIVERY_ATTEMPTS)%Z /\
  StronglySorted (fun x y => y <= x)%Z (im_id m :: log) /\
  (forall i, i ∈ im_id m :: log -> (i < next)%Z) /\
  exists rest, aq_messages q = m :: rest.
Proof.
  intros [Q (Da & Dh & Dk & Dc) L N M S].
  destruct (aq_messages q) as [|x rest] eqn:Em; [done|]. injection Dh as ->.
  assert (Hm : m ∈ m :: rest) by by left.
  split; [rewrite count_in_cons, Z.eqb_refl; lia|]. split.
  { intros i. rewrite count_in_cons. destruct (Z.eqb_spec i (im_id m)) as [->|]; [lia|].
    specialize (M i). lia. }
  split. { constructor; [done|]. apply Forall_forall. intros j Hj. by apply L. }
  split; [|by exists rest]. intros i [->|Hi]%elem_of_cons; [|by apply N].
  pose proof (qo_below _ _ _ Q) as B. rewrite Em in B. by apply Forall_cons in B as [[_ ?] _].
Qed.

Lemma agent_ok_retry cap next q m k log :
  agent_ok cap next q [(m, k)] log -> (k + 1 < MAX_DELIVERY_ATTEMPTS)%Z ->
  agent_ok cap next q [(m, (k + 1)%Z)] (im_id m :: log).
Proof.
  intros A Hk. destruct (injected_log _ _ _ _ _ _ A) as (Ec & Em & Es & En & rest & Er).
  destruct A as [Q (Da & Dh & Dk & Dc) L N M S]. constructor; try done.
  - split; [done|]. split; [done|]. split; [lia|done].
  - intros i x [->|Hi]%elem_of_cons Hx; [|by apply L]. rewrite Er in Hx.
    apply elem_of_cons in Hx as [->|Hx]; [done|]. apply Z.lt_le_incl.
    by eapply queue_head_lt.
Qed.

Lemma agent_ok_done cap next q m k log :
  agent_ok cap next q [(m, k)] log ->
  agent_ok cap next (deactivate (pop_if_head (im_id m) q).1) [] (im_id m :: log).
Proof.
  intros A. destruct (injected_log _ _ _ _ _ _ A) as (Ec & Em & Es & En & rest & Er).
  destruct A as [Q _ L _ _ _]. pose proof (queue_head_lt _ _ _ _ _ Q Er) as Hlt.
  destruct (pop_head_ok _ _ _ _ _ Q Er) as (Ep & Qp & _).
  constructor; try done.
  - by apply deactivate_ok.
  - cbn. split; [done|]. rewrite Ep. intros x rest' Ex. apply count_in_lt.
    assert (Hx : x ∈ rest) by (rewrite Ex; by left). specialize (Hlt x Hx).
    intros j [->|Hj]%elem_of_cons; [lia|]. specialize (L j m Hj). rewrite Er in L.
    specialize (L ltac:(by left)). lia.
  - intros i x Hi Hx. cbn in Hx. rewrite Ep in Hx. specialize (Hlt x Hx).
    apply elem_of_cons in Hi as [->|Hi]; [lia|]. specialize (L i x Hi). rewrite Er in L.
    apply L. by right.
Qed.

(** ** Every step keeps it *)

Lemma world_agent w a :
  world_ok w -> agent_ok (ai_hard_cap (w_inbox w)) (ai_next_id (w_inbox w))
    (queue_of a (w_inbox w)) (delivering_of a (w_tasks w)) (log_of a (w_injected w)).
Proof. intros (_ & _ & A). apply A. Qed.

Lemma enqueue_world_ok w a m ib r :
  world_ok w -> enqueue a m (w_inbox w) = (ib, r) -> (ai_next_id (w_inbox w) < u64_max)%Z ->
  world_ok {| w_inbox := ib; w_tasks := w_tasks w; w_injected := w_injected w |}.
Proof.
  intros (Hn & Hc & A) E Hm. pose proof (enqueue_cases a m (w_inbox w)) as C. cbn zeta in C.
  rewrite E in C. destruct C as [Ecap [(Enext & Eq & _)|(Hk & Hl & Enext & Eo & Em & Ea & Ek & _)]].
  - split; [cbn; lia|]. split; [cbn; by rewrite Ecap|]. intros b. cbn [w_inbox w_tasks w_injected ai_hard_cap ai_next_id set_queue].
    rewrite Ecap, Enext, Eq. apply A.
  - assert (En1 : next_message_id (ai_next_id (w_inbox w)) = (ai_next_id (w_inbox w) + 1)%Z).
    { unfold next_message_id. rewrite Z.mod_small; [done|]. unfold u64_max in Hm. lia. }
    rewrite En1 in Enext. split; [cbn; lia|]. split; [cbn; by rewrite Ecap|]. intros b. cbn [w_inbox w_tasks w_injected ai_hard_cap ai_next_id set_queue].
    rewrite Ecap, Enext. destruct (decide (b = a)) as [->|Hne].
    + eapply (agent_ok_push _ _ _ _ _ _ m); [apply A|done..].
    + rewrite Eo by done. apply agent_ok_mono, A.
Qed.

Lemma delivering_spawned b a r t : delivering_of b (spawned a r ++ t) = delivering_of b t.
Proof.
  unfold spawned. destruct r as [o|]; [|done]. destruct (eo_should_start_consumer o); [|done].
  cbn [app]. by rewrite delivering_cons.
Qed.

(** The tasks around a delivering one. *)
Lemma delivering_split w a m k t1 t2 :
  world_ok w -> w_tasks w = (t1 ++ (a, Delivering m k) :: t2)%list ->
  delivering_of a t1 = [] /\ delivering_of a t2 = [] /\
  agent_ok (ai_hard_cap (w_inbox w)) (ai_next_id (w_inbox w)) (queue_of a (w_inbox w)) [(m, k)]
    (log_of a (w_injected w)).
Proof.
  intros W E. pose proof (world_agent w a W) as A.
  rewrite E, delivering_app, delivering_cons, decide_True in A by done.
  pose proof (ao_dl _ _ _ _ _ A) as D.
  destruct (delivering_of a t1) as [|x [|]]; cbn [app] in *; [|by destruct x|by destruct x].
  destruct (delivering_of a t2) as [|y t]; [done|by destruct D].
Qed.

Lemma finish_world_ok w a m k t1 t2 ib :
  world_ok w -> w_tasks w = (t1 ++ (a, Delivering m k) :: t2)%list ->
  ib = set_queue a (deactivate (pop_if_head (im_id m) (queue_of a (w_inbox w))).1) (w_inbox w) ->
  world_ok {| w_inbox := ib; w_tasks := t1 ++ (a, AtHead) :: t2;
              w_injected := (a, im_id m) :: w_injected w |}.
Proof.
  intros W E ->. destruct (delivering_split _ _ _ _ _ _ W E) as (D1 & D2 & Aa).
  destruct W as (Hn & Hc & A). split; [done|]. split; [done|]. intros b. cbn [w_inbox w_tasks w_injected ai_hard_cap ai_next_id set_queue].
  rewrite queue_of_set, delivering_app, delivering_cons, log_cons. cbn [app].
  destruct (decide (a = b)) as [->|Hne].
  - rewrite D1, D2. by apply agent_ok_done with k.
  - specialize (A b). rewrite E, delivering_app, delivering_cons, decide_False in A by done. exact A.
Qed.

Lemma deliver_ops a m ib :
  head (aq_messages (queue_of a ib)) = Some m ->
  let q := deactivate (pop_if_head (im_id m) (queue_of a ib)).1 in
  complete_delivery a (im_id m) true ib = set_queue a q ib /\
  (abandon_delivery a (im_id m) ib).1 = set_queue a q ib.
Proof.
  unfold queue_of, complete_delivery, abandon_delivery.
  destruct (ai_queues ib !! a) as [q|]; [|intros Hh; discriminate Hh]. cbn [default id].
  intros _. split; [done|]. by destruct (pop_if_head (im_id m) q).
Qed.

Lemma step_world_ok w w' : world_ok w -> step_or_restore w w' -> world_ok w'.
Proof.
  intros W St. revert W.
  destruct St as [w0 w0' St|w0 a m ib r E Hm]; intros W; [|by apply (enqueue_world_ok w0 a m ib r)].
  revert W. destruct St as [w a m ib r E Hm|w a m ib t1 t2 E B|w a ib t1 t2 E B|w a m k t1 t2 E
    |w a m k t1 t2 E Hk|w a m k t1 t2 E Hk]; intros W.
  - destruct (enqueue_world_ok w a m ib r W E Hm) as (Hn & Hc & A).
    split; [done|]. split; [done|]. intros b. cbn [w_inbox w_tasks w_injected ai_hard_cap ai_next_id set_queue]. rewrite delivering_spawned. apply A.
  - pose proof (world_agent w a W) as Aa. destruct W as (Hn & Hc & A).
    unfold begin_delivery in B. destruct (ai_queues (w_inbox w) !! a) as [q|] eqn:Eq; [|done].
    assert (Eqo : queue_of a (w_inbox w) = q) by (unfold queue_of; by rewrite Eq).
    destruct (aq_consumer_active q) eqn:Ea; [done|].
    destruct (aq_messages q) as [|x rest] eqn:Em; [done|]. injection B as <- ->.
    split; [done|]. split; [done|]. intros b. cbn [w_inbox w_tasks w_injected ai_hard_cap ai_next_id set_queue].
    rewrite queue_of_set, delivering_app, delivering_cons. destruct (decide (a = b)) as [<-|Hne].
    + rewrite Eqo, E, delivering_app, delivering_cons in Aa. cbn [app] in Aa.
      pose proof (ao_dl _ _ _ _ _ Aa) as D.
      destruct (delivering_of a t1 ++ delivering_of a t2)%list as [|[y k] [|]] eqn:Dt.
      * apply app_eq_nil in Dt as [-> ->]. cbn [app]. rewrite <- Em. by eapply agent_ok_begin.
      * destruct D as (D & _). congruence.
      * done.
    + specialize (A b). rewrite E, delivering_app, delivering_cons in A. exact A.
  - destruct W as (Hn & Hc & A).
    assert (ib = w_inbox w) as ->.
    { unfold begin_delivery in B. repeat case_match; by simplify_eq. }
    split; [done|]. split; [done|]. intros b. cbn [w_inbox w_tasks w_injected ai_hard_cap ai_next_id set_queue]. specialize (A b).
    rewrite E, delivering_app, delivering_cons in A. by rewrite delivering_app.
  - destruct (delivering_split _ _ _ _ _ _ W E) as (_ & _ & Aa).
    apply (finish_world_ok w a m k); [done|done|].
    apply (deliver_ops a m). by destruct (ao_dl _ _ _ _ _ Aa) as (_ & ? & _).
  - destruct (delivering_split _ _ _ _ _ _ W E) as (D1 & D2 & Aa). destruct W as (Hn & Hc & A).
    split; [done|]. split; [done|]. intros b. cbn [w_inbox w_tasks w_injected ai_hard_cap ai_next_id set_queue].
    rewrite delivering_app, delivering_cons, log_cons. destruct (decide (a = b)) as [<-|Hne].
    + rewrite D1, D2. by apply agent_ok_retry.
    + specialize (A b). rewrite E, delivering_app, delivering_cons, decide_False in A by done. exact A.
  - destruct (delivering_split _ _ _ _ _ _ W E) as (_ & _ & Aa).
    apply (finish_world_ok w a m k); [done|done|].
    apply (deliver_ops a m). by destruct (ao_dl _ _ _ _ _ Aa) as (_ & ? & _).
Qed.

Lemma init_world_ok threshold cap : (0 <= cap)%Z -> world_ok (init_world threshold cap).
Proof.
  intros Hc. split; [cbn; lia|]. split; [done|]. intros a. cbn.
  unfold queue_of. cbn. rewrite lookup_empty. cbn. constructor.
  - by apply queue_ok_empty.
  - by split.
  - by intros i m ?%elem_of_nil.
  - by intros i ?%elem_of_nil.
  - intros i. unfold count_in. cbn. unfold MAX_DELIVERY_ATTEMPTS. lia.
  - constructor.
Qed.

(** * The transport cache: theorems

    Safety under interleaving, no stranded message without rebuilds, and the
    consumer loop's termination. *)

Local Open Scope string_scope.

Lemma reachable_world_ok threshold cap w :
  (0 <= cap)%Z -> rtc step_or_restore (init_world threshold cap) w -> world_ok w.
Proof.
  intros Hc R. remember (init_world threshold cap) as w0 eqn:E.
  assert (W : world_ok w0) by (subst w0; by apply init_world_ok). clear E.
  induction R as [w|w1 w2 w3 St _ IH]; [done|]. apply IH. by eapply step_world_ok.
Qed.

Lemma hard_cap_constant threshold cap w :
  rtc step_or_restore (init_world threshold cap) w -> ai_hard_cap (w_inbox w) = cap.
Proof.
  intros R. remember (init_world threshold cap) as w0 eqn:E.
  assert (W : ai_hard_cap (w_inbox w0) = cap) by (by subst w0). clear E.
  induction R as [w|w1 w2 w3 St _ IH]; [done|]. apply IH. clear IH. revert W.
  assert (En : forall a m ib ib' r, enqueue a m ib = (ib', r) -> ai_hard_cap ib' = ai_hard_cap ib).
  { intros a m ib ib' r E. pose proof (enqueue_cases a m ib) as C. cbn zeta in C. rewrite E in C.
    by destruct C. }
  assert (Bn : forall a ib, ai_hard_cap (begin_delivery a ib).1 = ai_hard_cap ib).
  { intros a ib. unfold begin_delivery. by repeat case_match. }
  destruct St as [w1 w2 St|w a m ib r E Hm]; [|intros <-; by eapply En].
  destruct St as [w a m ib r E Hm|w a m ib t1 t2 E B|w a ib t1 t2 E B|w a m k t1 t2 E
    |w a m k t1 t2 E Hk|w a m k t1 t2 E Hk]; intros <-; cbn [w_inbox].
  - by eapply En.
  - specialize (Bn a (w_inbox w)). by rewrite B in Bn.
  - specialize (Bn a (w_inbox w)). by rewrite B in Bn.
  - unfold complete_delivery. by case_match.
  - done.
  - unfold abandon_delivery. case_match; [|done]. by destruct (pop_if_head _ _).
Qed.

(** C38.  The cache under every interleaving of producers, rebuilds and consumer
    tasks: a queue never exceeds the hard cap, holds its messages in enqueue
    order and no durable batch twice, and its cache keys are exactly those of
    its messages; at most one task delivers for an agent, and it delivers the
    head; the injections for an agent are in enqueue order and no message is
    injected more than 8 times. *)
Theorem cache_serialises_delivery threshold cap w a :
  (0 <= cap)%Z -> rtc step_or_restore (init_world threshold cap) w ->
  let q := queue_of a (w_inbox w) in
  (Z.of_nat (length (aq_messages q)) <= cap)%Z /\
  StronglySorted Z.lt (map im_id (aq_messages q)) /\
  NoDup (omap im_cache_key (aq_messages q)) /\
  (forall k, k ∈ aq_cache_keys q <-> k ∈ omap im_cache_key (aq_messages q)) /\
  (length (delivering_of a (w_tasks w)) <= 1)%nat /\
  (forall m k, (a, Delivering m k) ∈ w_tasks w -> head (aq_messages q) = Some m) /\
  StronglySorted (fun x y => y <= x)%Z (log_of a (w_injected w)) /\
  forall i, (count_in i (log_of a (w_injected w)) <= MAX_DELIVERY_ATTEMPTS)%Z.
Proof.
  intros Hc R q. pose proof (reachable_world_ok _ _ _ Hc R) as W.
  pose proof (world_agent w a W) as [[S B C K O] D L N M So].
  rewrite (hard_cap_constant _ _ _ R) in C. split_and!; try done.
  - destruct (delivering_of a (w_tasks w)) as [|x [|]]; cbn; [lia|lia|by destruct x].
  - intros m k Hd%elem_of_delivering.
    destruct (delivering_of a (w_tasks w)) as [|[y j] [|]]; [by apply elem_of_nil in Hd| |done].
    apply list_elem_of_singleton in Hd as [= -> ->]. by destruct D as (_ & ? & _).
Qed.

(** ** No message is stranded *)

Definition has_task (a : string) (w : world) : Prop := exists ph, (a, ph) ∈ w_tasks w.
Definition attended (w : world) : Prop :=
  forall a, aq_messages (queue_of a (w_inbox w)) <> [] -> has_task a w.

Lemma active_has_task w a :
  world_ok w -> aq_consumer_active (queue_of a (w_inbox w)) = true ->
  exists m k, (a, Delivering m k) ∈ w_tasks w.
Proof.
  intros W Ha. pose proof (ao_dl _ _ _ _ _ (world_agent w a W)) as D.
  destruct (delivering_of a (w_tasks w)) as [|[m k] l] eqn:E; [destruct D; congruence|].
  exists m, k. apply elem_of_delivering. rewrite E. by left.
Qed.

Lemma task_moves t1 t2 (x y : string * phase) (b : string) ph :
  x.1 = y.1 -> (b, ph) ∈ (t1 ++ x :: t2)%list -> exists ph', (b, ph') ∈ (t1 ++ y :: t2)%list.
Proof.
  destruct x as [c px], y as [d py]. cbn. intros ->.
  rewrite elem_of_app, elem_of_cons. intros [Hin|[[= -> ->]|Hin]].
  - exists ph. set_solver.
  - exists py. set_solver.
  - exists ph. set_solver.
Qed.

Lemma enqueue_attended w a m ib r :
  world_ok w -> attended w -> enqueue a m (w_inbox w) = (ib, r) ->
  attended {| w_inbox := ib; w_tasks := spawned a r ++ w_tasks w; w_injected := w_injected w |}.
Proof.
  intros W A E b Hb. cbn [w_inbox w_tasks] in *.
  assert (Old : has_task b w -> has_task b {| w_inbox := ib; w_tasks := spawned a r ++ w_tasks w;
                                              w_injected := w_injected w |}).
  { intros [ph Hph]. exists ph. cbn. set_solver. }
  pose proof (enqueue_cases a m (w_inbox w)) as C. cbn zeta in C. rewrite E in C.
  destruct C as [_ [(_ & Eq & _)|(_ & _ & _ & Eo & _ & _ & _ & o & -> & _ & Eb & _)]].
  - apply Old, A. by rewrite <- Eq.
  - destruct (decide (b = a)) as [->|Hne]; [|apply Old, A; by rewrite <- Eo].
    destruct (aq_consumer_active (queue_of a (w_inbox w))) eqn:Act.
    + apply Old. destruct (active_has_task w a W Act) as (x & k & Hx). by exists (Delivering x k).
    + exists AtHead. cbn. rewrite Eb. cbn. by left.
Qed.

Lemma moved_attended w ib t1 t2 x y log :
  attended w -> w_tasks w = (t1 ++ x :: t2)%list -> x.1 = y.1 ->
  (forall b, aq_messages (queue_of b ib) <> [] -> aq_messages (queue_of b (w_inbox w)) <> []) ->
  attended {| w_inbox := ib; w_tasks := t1 ++ y :: t2; w_injected := log |}.
Proof.
  intros A E Exy Hq b Hb. destruct (A b (Hq b Hb)) as [ph Hph]. rewrite E in Hph.
  by destruct (task_moves _ _ _ _ _ _ Exy Hph) as [ph' ?]; exists ph'.
Qed.

Lemma pop_messages id q : aq_messages (pop_if_head id q).1 <> [] -> aq_messages q <> [].
Proof. unfold pop_if_head. destruct (aq_messages q) eqn:E; cbn; congruence. Qed.

Lemma finished_messages a m ib b :
  aq_messages (queue_of b (set_queue a (deactivate (pop_if_head (im_id m) (queue_of a ib)).1) ib))
  <> [] -> aq_messages (queue_of b ib) <> [].
Proof.
  rewrite queue_of_set. destruct (decide (a = b)) as [->|]; [|done]. apply pop_messages.
Qed.

Lemma step_attended w w' : world_ok w -> attended w -> step w w' -> attended w'.
Proof.
  intros W A St. revert W A.
  destruct St as [w a m ib r E Hm|w a m ib t1 t2 E B|w a ib t1 t2 E B|w a m k t1 t2 E
    |w a m k t1 t2 E Hk|w a m k t1 t2 E Hk]; intros W A.
  - by eapply enqueue_attended.
  - eapply (moved_attended w); [done|done|done|]. intros b. unfold begin_delivery in B.
    destruct (ai_queues (w_inbox w) !! a) as [q|] eqn:Eq; [|done].
    destruct (aq_consumer_active q); [done|]. destruct (aq_messages q) eqn:Em; [done|].
    injection B as <- ->. rewrite queue_of_set. destruct (decide (a = b)) as [<-|]; [|done].
    unfold queue_of. rewrite Eq. cbn. congruence.
  - assert (ib = w_inbox w) as ->.
    { unfold begin_delivery in B. repeat case_match; by simplify_eq. }
    intros b Hb. destruct (A b Hb) as [ph Hph]. rewrite E in Hph.
    apply elem_of_app in Hph as [Hin|[[= -> ->]|Hin]%elem_of_cons]; cbn [w_tasks].
    + exists ph. cbn. set_solver.
    + (* another task of this agent delivers *)
      cbn [w_inbox] in Hb. unfold begin_delivery in B. unfold queue_of in Hb.
      destruct (ai_queues (w_inbox w) !! a) as [q|] eqn:Eq; [|done].
      destruct (aq_consumer_active q) eqn:Act; [|destruct (aq_messages q) eqn:Em; [cbn in Hb; by rewrite Em in Hb|done]].
      destruct (active_has_task w a W) as (x & k & Hx); [unfold queue_of; by rewrite Eq|].
      rewrite E in Hx. exists (Delivering x k). cbn. set_solver.
    + exists ph. cbn. set_solver.
  - destruct (delivering_split _ _ _ _ _ _ W E) as (_ & _ & Aa).
    rewrite (proj1 (deliver_ops a m _ (proj1 (proj2 (ao_dl _ _ _ _ _ Aa))))).
    eapply (moved_attended w); [done|done|done|]. intros b. apply finished_messages.
  - by eapply (moved_attended w).
  - destruct (delivering_split _ _ _ _ _ _ W E) as (_ & _ & Aa).
    rewrite (proj2 (deliver_ops a m _ (proj1 (proj2 (ao_dl _ _ _ _ _ Aa))))).
    eapply (moved_attended w); [done|done|done|]. intros b. apply finished_messages.
Qed.

(** C39.  While messages only enter through producers, which start a consumer
    when [enqueue] asks for one, no message waits without a consumer task: one
    is about to begin a delivery or is delivering, and the agent's next message
    is always the one being delivered. *)
Theorem no_message_stranded threshold cap w a m rest :
  (0 <= cap)%Z -> rtc step (init_world threshold cap) w ->
  aq_messages (queue_of a (w_inbox w)) = m :: rest ->
  (a, AtHead) ∈ w_tasks w \/ exists k, (a, Delivering m k) ∈ w_tasks w.
Proof.
  intros Hc R Em.
  assert (WA : world_ok w /\ attended w).
  { clear Em. remember (init_world threshold cap) as w0 eqn:E.
    assert (I : world_ok w0 /\ attended w0).
    { subst w0. split; [by apply init_world_ok|]. intros b Hb. destruct Hb.
      unfold queue_of. cbn. by rewrite lookup_empty. }
    clear E. induction R as [w|w1 w2 w3 St _ IH]; [done|]. apply IH. destruct I as [W A].
    split; [eapply step_world_ok; [done|by constructor]|by eapply step_attended]. }
  destruct WA as [W A]. destruct (A a) as [[|x k] Ht]; [by rewrite Em|by left|]. right.
  exists k. pose proof (ao_dl _ _ _ _ _ (world_agent w a W)) as D.
  pose proof Ht as Hd%elem_of_delivering.
  destruct (delivering_of a (w_tasks w)) as [|[y j] [|]]; [by apply elem_of_nil in Hd| |done].
  apply list_elem_of_singleton in Hd as [= -> ->]. destruct D as (_ & Hh & _).
  rewrite Em in Hh. by injection Hh as <-.
Qed.
