(* ===== verification/TransportRebuild.v ===== *)
(** * The transport cache, the durable queue and the consumer

    What a rebuild copies from the durable queue, and what one consumer does
    with a queue when nothing else runs. *)

From stdpp Require Import gmap sorting.
From S2P Require Import Prelude RustStr JsonValue SqlTable GuidanceTypes Store GuidanceQueue.
From S2P Require Import GuidanceRows GuidanceSystem GuidanceLifecycle GuidanceSpec.
From S2P Require Import TransportCache TransportCacheSpec.
Local Open Scope string_scope.

Implicit Types (q : AgentQueue) (ib : AgentInbox) (m : InboxMessage) (a : string).

(** ** One message's attempts *)

Lemma delivery_attempts_spec inject i budget attempt ok n pauses :
  (0 < budget)%nat -> (attempt + Z.of_nat budget = MAX_DELIVERY_ATTEMPTS)%Z ->
  delivery_attempts inject i budget attempt = (ok, n, pauses) ->
  (attempt < n <= MAX_DELIVERY_ATTEMPTS)%Z /\ (ok = false -> n = MAX_DELIVERY_ATTEMPTS) /\
  Forall (fun p => 1 <= p <= MAX_DELIVERY_BACKOFF)%Z pauses.
Proof.
  revert i attempt ok n pauses.
  induction budget as [|budget IH]; intros i attempt ok n pauses Hb Hs; [lia|]. cbn [delivery_attempts].
  destruct (inject i); [intros [= <- <- <-]; split; [lia|by split; [|constructor]]|].
  destruct (_ <=? _)%Z eqn:E; [apply Z.leb_le in E; intros [= <- <- <-]; split; [lia|]; split;
    [lia|constructor]|]. apply Z.leb_gt in E.
  destruct (delivery_attempts _ _ _ _) as [[ok' n'] p'] eqn:D. intros [= <- <- <-].
  destruct (IH (S i) (attempt + 1)%Z ok' n' p' ltac:(lia) ltac:(lia) D) as (Hn & Hf & Hp).
  split; [lia|]. split; [done|]. constructor; [|done].
  unfold delivery_backoff, INITIAL_DELIVERY_BACKOFF, MAX_DELIVERY_BACKOFF, u32_max.
  assert (1 <= 2 ^ Z.max 0 (attempt + 1 - 1))%Z; [|lia].
  pose proof (Z.pow_pos_nonneg 2 (Z.max 0 (attempt + 1 - 1)) ltac:(lia) ltac:(lia)). lia.
Qed.

Lemma begin_delivery_head a ib q m rest :
  ai_queues ib !! a = Some q -> aq_consumer_active q = false -> aq_messages q = m :: rest ->
  exists q1, begin_delivery a ib = (set_queue a q1 ib, Some m) /\
    aq_messages q1 = aq_messages q /\ aq_cache_keys q1 = aq_cache_keys q.
Proof.
  intros Eq Ea Em. unfold begin_delivery. rewrite Eq, Ea, Em.
  eexists. by split.
Qed.

(**  A consumer that runs alone always ends, with its agent's queue empty,
    whatever the injections' outcomes: one unit of fuel more than the queue is
    long is enough.  Every message is injected between 1 and 8 times, in
    enqueue order, and no other agent's queue is touched. *)
Theorem consumer_drains_queue cap next inject i a ib :
  queue_ok cap next (queue_of a ib) -> is_consumer_active a ib = false ->
  exists ib' ns, forall fuel, (length (aq_messages (queue_of a ib)) < fuel)%nat ->
    run_inbox_consumer fuel inject i a ib
    = Some (ib', concat (zip_with (fun m n => repeat (im_id m) n)
                           (aq_messages (queue_of a ib)) ns)) /\
    length ns = length (aq_messages (queue_of a ib)) /\
    Forall (fun n => 1 <= Z.of_nat n <= MAX_DELIVERY_ATTEMPTS)%Z ns /\
    aq_messages (queue_of a ib') = [] /\ aq_cache_keys (queue_of a ib') = ∅ /\
    is_consumer_active a ib' = false /\ (forall b, b <> a -> queue_of b ib' = queue_of b ib).
Proof.
  remember (aq_messages (queue_of a ib)) as l eqn:El. revert i ib El.
  induction l as [|m rest IH]; intros i ib El Q Ea.
  { exists ib, []. intros [|fuel] Hf; [cbn in Hf; lia|]. cbn [run_inbox_consumer].
    assert (Eb : begin_delivery a ib = (ib, None)).
    { unfold begin_delivery. unfold queue_of in El. destruct (ai_queues ib !! a) as [q|]; [|done].
      destruct (aq_consumer_active q); [done|]. cbn in El. by rewrite <- El. }
    rewrite Eb. split; [done|]. split; [done|]. split; [constructor|]. split; [done|].
    split; [|by split]. apply leibniz_equiv, elem_of_equiv_empty. intros k Hk%(qo_keys _ _ _ Q).
    rewrite <- El in Hk. by apply elem_of_nil in Hk. }
  destruct (ai_queues ib !! a) as [q|] eqn:Eq; unfold queue_of in El; rewrite Eq in El; [|done].
  cbn [default id] in El. unfold is_consumer_active in Ea. rewrite Eq in Ea.
  destruct (begin_delivery_head a ib q m rest Eq Ea (eq_sym El)) as (q1 & Eb & Em & Ek).
  destruct (delivery_attempts inject i (Z.to_nat MAX_DELIVERY_ATTEMPTS) 0) as [[ok n] pauses] eqn:D.
  destruct (delivery_attempts_spec inject i 8 0 ok n pauses ltac:(lia) eq_refl D) as (Hn & _ & _).
  assert (Q1 : queue_ok cap next q1).
  { unfold queue_of in Q. rewrite Eq in Q. cbn [default id] in Q. destruct Q as [S B C K O].
    constructor; rewrite ?Em, ?Ek; done. }
  set (ib1 := set_queue a q1 ib) in *.
  assert (Eq1 : queue_of a ib1 = q1) by (unfold ib1; rewrite queue_of_set; by rewrite decide_True).
  assert (E1 : aq_messages q1 = m :: rest) by (by rewrite Em).
  destruct (pop_head_ok _ _ _ _ _ Q1 E1) as (Ep & Qp & _).
  set (ib2 := set_queue a (deactivate (pop_if_head (im_id m) q1).1) ib1).
  assert (Ed : (if ok then complete_delivery a (im_id m) true ib1
                else (abandon_delivery a (im_id m) ib1).1) = ib2).
  { destruct (deliver_ops a m ib1) as [C A]; [by rewrite Eq1, E1|]. rewrite Eq1 in C, A.
    by destruct ok. }
  assert (Eq2 : queue_of a ib2 = deactivate (pop_if_head (im_id m) q1).1).
  { unfold ib2. rewrite queue_of_set. by rewrite decide_True. }
  destruct (IH (i + Z.to_nat n)%nat ib2) as (ib' & ns & R).
  - by rewrite Eq2.
  - rewrite Eq2. by apply deactivate_ok.
  - unfold is_consumer_active, ib2. cbn. by rewrite lookup_insert_eq.
  - exists ib', (Z.to_nat n :: ns). intros [|fuel] Hf; [cbn in Hf; lia|]. cbn [length] in Hf.
    destruct (R fuel ltac:(lia)) as (Er & El' & Fn & M0 & K0 & A0 & Oth).
    cbn [run_inbox_consumer]. rewrite Eb, D, Ed, Er. cbn.
    split; [done|]. split; [by rewrite El'|]. split; [constructor; [lia|done]|].
    split; [done|]. split; [done|]. split; [done|]. intros b Hb. rewrite (Oth b Hb).
    unfold ib2, ib1. rewrite !queue_of_set. by rewrite !decide_False by done.
Qed.

(** ** What a rebuild copies *)

Section Rebuild.
Context `{SqlEngine} `{JsonText} `{EventSink} `{Sha256}.
Implicit Types (s : InboxStore).

(** The rows a rebuild looks at, in queue order. *)
Definition pending_rows (agent : string) (now : Z) (s : InboxStore) : list BatchRow :=
  sql_order_by seq_le
    (sql_where (fun r => for_agent (normalize_agent_id agent) r && available now r)
       (guidance_batches s)).

Definition uncached (keys : gset string) (ids : list string) : list string :=
  List.filter (fun id => negb (bool_decide (id ∈ keys))) ids.

Lemma pending_rows_elem agent now s r :
  r ∈ pending_rows agent now s ->
  r ∈ guidance_batches s /\ row_agent_id r = normalize_agent_id agent /\ available now r = true.
Proof.
  unfold pending_rows. rewrite sql_order_by_perm. intros [Hr Hp]%elem_of_lfilter.
  apply andb_true_iff in Hp as [Ha Hv]. split; [done|].
  split; [by apply String.eqb_eq|done].
Qed.

Lemma pending_batches_load agent now s :
  store_ok s ->
  exists batches, pending_batches_for_agent s agent now = Ok batches /\
    map gb_batch_id batches = map row_batch_id (pending_rows agent now s) /\
    Forall (fun b => gb_items b <> [] /\ gb_agent_id b = normalize_agent_id agent) batches.
Proof.
  intros Hs. unfold pending_batches_for_agent. fold (pending_rows agent now s).
  assert (G : forall l, (forall r, r ∈ l -> r ∈ pending_rows agent now s) ->
    exists batches, collect (fun r => load_batch s (row_batch_id r)) l = Ok batches /\
      map gb_batch_id batches = map row_batch_id l /\
      Forall (fun b => gb_items b <> [] /\ gb_agent_id b = normalize_agent_id agent) batches).
  { induction l as [|r l IH]; intros Hl; [by exists []|].
    destruct (pending_rows_elem agent now s r) as (Hr & Ha & _); [by apply Hl; left|].
    destruct (load_batch_row s r Hs Hr) as (items & Li & Lb & _).
    destruct (so_items _ Hs r Hr) as (items' & Li' & Hlen).
    destruct IH as (bs & Eb & Em & Fb); [intros x Hx; apply Hl; by right|].
    exists (batch_of_row r items :: bs). cbn [collect]. rewrite Lb, Eb. split; [done|].
    cbn [map]. rewrite Em. split; [done|]. constructor; [|done]. cbn. split; [|done].
    assert (items = items') as -> by congruence. intros ->. cbn in Hlen. lia. }
  by apply G.
Qed.

Lemma uncached_cons keys id ids :
  uncached keys (id :: ids)
  = if bool_decide (id ∈ keys) then uncached keys ids else id :: uncached keys ids.
Proof. unfold uncached. cbn. by destruct (bool_decide _). Qed.

Lemma uncached_insert keys id ids :
  id ∉ ids -> uncached ({[ id ]} ∪ keys) ids = uncached keys ids.
Proof.
  induction ids as [|x ids IH]; intros Hi; [done|]. rewrite !uncached_cons, IH by set_solver.
  assert (x <> id) by set_solver. rewrite (bool_decide_ext (x ∈ {[ id ]} ∪ keys) (x ∈ keys)); [done|].
  set_solver.
Qed.

Lemma elem_of_uncached keys ids id : id ∈ uncached keys ids <-> id ∈ ids /\ id ∉ keys.
Proof. unfold uncached. by rewrite elem_of_lfilter, negb_true_iff, bool_decide_eq_false. Qed.

Lemma uncached_NoDup keys ids : NoDup ids -> NoDup (uncached keys ids).
Proof. intros Hn. apply NoDup_ListNoDup, List.NoDup_filter. by apply NoDup_ListNoDup. Qed.

Lemma uncached_none keys ids : (forall id, id ∈ ids -> id ∈ keys) -> uncached keys ids = [].
Proof.
  induction ids as [|x ids IH]; intros Hi; [done|]. rewrite uncached_cons.
  rewrite bool_decide_eq_true_2 by (apply Hi; by left). apply IH. intros y Hy. apply Hi. by right.
Qed.

(** The loop appends a message for each batch that is not cached. *)
Lemma restore_ok agent target dir options batches n ib cap next :
  let q := queue_of agent ib in
  let ids := uncached (aq_cache_keys q) (map gb_batch_id batches) in
  queue_ok cap next q -> ai_hard_cap ib = cap -> ai_next_id ib = next -> (1 <= next)%Z ->
  (next + Z.of_nat (length batches) <= u64_max)%Z ->
  (Z.of_nat (length (aq_messages q) + length ids) <= cap)%Z ->
  NoDup (map gb_batch_id batches) -> Forall (fun b => gb_items b <> []) batches ->
  exists ib' msgs,
    restore_batches agent target dir options batches n ib
    = (ib', Ok (n + Z.of_nat (length ids))%Z) /\
    aq_messages (queue_of agent ib') = (aq_messages q ++ msgs)%list /\
    map im_cache_key msgs = map Some ids /\
    aq_consumer_active (queue_of agent ib') = aq_consumer_active q /\
    (forall b, b <> agent -> queue_of b ib' = queue_of b ib) /\
    queue_ok cap (next + Z.of_nat (length ids)) (queue_of agent ib') /\
    ai_hard_cap ib' = cap /\ ai_next_id ib' = (next + Z.of_nat (length ids))%Z.
Proof.
  cbn zeta. revert n ib next.
  induction batches as [|b batches IH]; intros n ib next Q Ec En Hone Hn Hl Hd Hi.
  { exists ib, []. cbn. rewrite !Z.add_0_r, app_nil_r. by repeat split; try apply Q. }
  cbn [map] in Hd, Hl |- *. apply NoDup_cons in Hd as [Nb Hd]. apply Forall_cons in Hi as [Ib Hi].
  cbn [length] in Hn. cbn [restore_batches]. unfold message_from_batch.
  destruct (gb_items b) as [|item items] eqn:Eit; [done|]. cbn [head option_context].
  set (m := with_cache_key _ _).
  pose proof (enqueue_cases agent m ib) as C. cbn zeta in C.
  destruct (enqueue agent m ib) as [ib1 r]. rewrite uncached_cons in Hl |- *.
  assert (Ek : key_queued m (queue_of agent ib)
               = bool_decide (gb_batch_id b ∈ aq_cache_keys (queue_of agent ib))) by done.
  destruct C as [Ecap [(Enext & Eq & [(o & -> & Do & Kq & _)|(e & _ & Kq & Full)])
                      |(Kq & Lt & Enext & Eo & Em & Ea & Eks & o & -> & Do & _)]];
    rewrite Ek in Kq; rewrite Kq in Hl |- *.
  - (* already cached *)
    rewrite Do. destruct (IH n ib1 next) as (ib' & msgs & R); rewrite ?Eq; try done; try congruence; [lia|].
    exists ib', msgs. rewrite Eq in R. destruct R as (R1 & R2 & R3 & R4 & R5 & R6).
    split; [exact R1|]. repeat (split; [done|]). split; [|done]. intros c Hc. by rewrite (R5 c Hc), Eq.
  - exfalso. cbn [length] in Hl. lia.
  - rewrite Do. cbn [length] in Hl |- *.
    assert (En1 : next_message_id (ai_next_id ib) = (next + 1)%Z).
    { unfold next_message_id. rewrite En, Z.mod_small; [done|]. unfold u64_max in Hn. lia. }
    assert (Q1 : queue_ok cap (next + 1) (queue_of agent ib1)).
    { eapply (queue_ok_push cap next (queue_of agent ib) _ m); rewrite ?Ek, ?Ec, ?En in *; try done; try lia. }
    assert (Eu : uncached (aq_cache_keys (queue_of agent ib1)) (map gb_batch_id batches)
                 = uncached (aq_cache_keys (queue_of agent ib)) (map gb_batch_id batches)).
    { rewrite Eks. by apply uncached_insert. }
    destruct (IH (n + 1)%Z ib1 (next + 1)%Z) as (ib' & msgs & R1 & R2 & R3 & R4 & R5 & R6 & R7 & R8);
      rewrite ?Eu, ?Em, ?length_app; cbn [length]; try done; try lia; try congruence.
    rewrite Eu in R1, R3, R6, R8. exists ib', (with_id (ai_next_id ib) m :: msgs). split_and!.
    + rewrite R1. do 2 f_equal. lia.
    + by rewrite R2, Em, <- app_assoc.
    + cbn [map]. by rewrite R3.
    + by rewrite R4.
    + intros c Hc. by rewrite (R5 c Hc), Eo.
    + by replace (next + Z.of_nat (S _))%Z with (next + 1 + Z.of_nat
        (length (uncached (aq_cache_keys (queue_of agent ib)) (map gb_batch_id batches))))%Z by lia.
    + done.
    + rewrite R8. lia.
Qed.

(** Cached batches are skipped, whatever the cap. *)
Lemma restore_cached agent target dir options batches n ib :
  Forall (fun b => gb_items b <> []) batches ->
  uncached (aq_cache_keys (queue_of agent ib)) (map gb_batch_id batches) = [] ->
  exists ib', restore_batches agent target dir options batches n ib = (ib', Ok n) /\
    forall b, queue_of b ib' = queue_of b ib.
Proof.
  revert n ib. induction batches as [|b batches IH]; intros n ib Hi Hu; [by exists ib|].
  apply Forall_cons in Hi as [Ib Hi]. cbn [map] in Hu. rewrite uncached_cons in Hu.
  destruct (bool_decide _) eqn:Kq; [|done]. cbn [restore_batches]. unfold message_from_batch.
  destruct (gb_items b) as [|item items] eqn:Eit; [done|]. cbn [head option_context].
  set (m := with_cache_key _ _). pose proof (enqueue_cases agent m ib) as C. cbn zeta in C.
  destruct (enqueue agent m ib) as [ib1 r].
  change (key_queued m (queue_of agent ib))
    with (bool_decide (gb_batch_id b ∈ aq_cache_keys (queue_of agent ib))) in C.
  rewrite Kq in C.
  destruct C as [_ [(_ & Eq & [(o & -> & Do & _)|(e & _ & Bad & _)])|(Bad & _)]]; try done.
  rewrite Do. destruct (IH n ib1 Hi) as (ib' & E & Eq'); [by rewrite Eq|].
  exists ib'. split; [done|]. intros c. by rewrite Eq', Eq.
Qed.

Lemma recover_again now s :
  store_ok s ->
  let s1 := (recover_expired_leases now s).1 in recover_expired_leases now s1 = (s1, Ok []).
Proof.
  intros Hs s1. assert (Hs1 : store_ok s1) by (by apply (proj1 (run_op_ok (fun _ => True) (OpRecover now) s Hs (fun _ _ => I)))).
  assert (None1 : forall r, r ∈ guidance_batches s1 -> expired_row now r = false).
  { intros r. subst s1. unfold recover_expired_leases. rewrite recover_expired_spec by apply Hs.
    cbn. rewrite emit_recovery_batches. apply recover_rows_none. }
  unfold recover_expired_leases at 1. rewrite recover_expired_spec by apply Hs1.
  assert (E : expired_rows now (guidance_batches s1) = []).
  { destruct (expired_rows now (guidance_batches s1)) as [|r l] eqn:X; [done|].
    assert (Hr : r ∈ expired_rows now (guidance_batches s1)) by (rewrite X; by left).
    apply elem_of_expired_rows in Hr as [Hr Ex]. by rewrite None1 in Ex. }
  rewrite E. cbn [map]. unfold emit_recovery_events. cbn [fold_left]. f_equal.
  assert (recover_rows now (guidance_batches s1) = guidance_batches s1) as ->; [|by destruct s1].
  unfold recover_rows, sql_update. rewrite <- (map_id (guidance_batches s1)) at 2.
  apply map_ext_in. intros r Hr%list_elem_of_In. by rewrite None1.
Qed.

Lemma pending_rows_NoDup agent now s :
  store_ok s -> NoDup (map row_batch_id (pending_rows agent now s)).
Proof.
  intros Hs. unfold pending_rows. rewrite sql_order_by_perm. unfold sql_where.
  pose proof (ok_ids _ (so_rows _ Hs)) as Hn. revert Hn. generalize (guidance_batches s).
  induction l as [|r l IH]; [constructor|]. cbn. intros [Nr Hn]%NoDup_cons.
  destruct (_ && _); [|by apply IH]. cbn. constructor; [|by apply IH].
  intros (x & E & Hx)%list_elem_of_fmap. apply Nr. apply list_elem_of_fmap. exists x.
  split; [done|]. by apply elem_of_lfilter in Hx as [? _].
Qed.
(** The number of pending rows is bounded by the table. *)
Lemma pending_rows_length agent now s :
  (length (pending_rows agent now s) <= length (guidance_batches s))%nat.
Proof.
  unfold pending_rows. rewrite sql_order_by_perm. unfold sql_where. apply List.filter_length_le.
Qed.

(**  Rebuilding an agent's cache from the durable queue: expired leases are
    recovered first; then exactly the available batches that the cache does not
    hold yet are appended, in queue order, and counted; the consumer flag, the
    other agents' queues and the messages already cached are untouched.  So a
    second rebuild at the same time restores nothing. *)
Theorem rebuild_restores_pending path ops agent target dir options now ib :
  let s := run_ops ops (empty_store path) in
  let q := queue_of agent ib in
  let s1 := (recover_expired_leases now s).1 in
  let ids := uncached (aq_cache_keys q) (map row_batch_id (pending_rows agent now s1)) in
  queue_ok (ai_hard_cap ib) (ai_next_id ib) q -> (1 <= ai_next_id ib)%Z ->
  (ai_next_id ib + Z.of_nat (length (guidance_batches s)) <= u64_max)%Z ->
  (Z.of_nat (length (aq_messages q) + length ids) <= ai_hard_cap ib)%Z ->
  exists ib' msgs,
    rebuild_from_durable_at agent target dir options now s ib
    = (s1, ib', Ok (Z.of_nat (length ids))) /\
    aq_messages (queue_of agent ib') = (aq_messages q ++ msgs)%list /\
    map im_cache_key msgs = map Some ids /\
    aq_consumer_active (queue_of agent ib') = aq_consumer_active q /\
    (forall b, b <> agent -> queue_of b ib' = queue_of b ib) /\
    queue_ok (ai_hard_cap ib') (ai_next_id ib') (queue_of agent ib') /\
    exists ib2, rebuild_from_durable_at agent target dir options now s1 ib' = (s1, ib2, Ok 0%Z) /\
      forall b, queue_of b ib2 = queue_of b ib'.
Proof.
  intros s q s1 ids Q Hone Hn Hcap. assert (Hs : store_ok s) by apply reachable_ok.
  assert (Hs1 : store_ok s1) by (apply (proj1 (run_op_ok (fun _ => True) (OpRecover now) s Hs (fun _ _ => I)))).
  destruct (pending_batches_load agent now s1 Hs1) as (batches & Ep & Em & Fb).
  assert (Ne : Forall (fun b => gb_items b <> []) batches) by (by eapply Forall_impl; [exact Fb|]; cbn; tauto).
  pose proof (pending_rows_NoDup agent now s1 Hs1) as Nd. rewrite <- Em in Nd.
  assert (Lb : (length batches <= length (guidance_batches s))%nat).
  { rewrite <- (length_map gb_batch_id), Em, length_map. etransitivity; [apply pending_rows_length|].
    subst s1. unfold recover_expired_leases. rewrite recover_expired_spec by apply Hs.
    cbn. rewrite emit_recovery_batches. cbn. unfold recover_rows, sql_update. by rewrite length_map. }
  assert (Ei : ids = uncached (aq_cache_keys q) (map gb_batch_id batches)) by (unfold ids; by rewrite Em).
  assert (Er : recover_expired_leases now s = (s1, Ok (map fst (recover_expired_in_tx now s).2))).
  { subst s1. unfold recover_expired_leases. by destruct (recover_expired_in_tx now s). }
  destruct (restore_ok agent target dir options batches 0 ib (ai_hard_cap ib) (ai_next_id ib))
    as (ib' & msgs & R1 & R2 & R3 & R4 & R5 & R6 & R7 & R8); rewrite <- ?Ei; try done; [lia|by fold q; rewrite <- Ei|].
  fold q in R1, R2, R3, R4, R6, R8. rewrite <- Ei in R1, R3, R6, R8. exists ib', msgs. split_and!; try done.
  - unfold rebuild_from_durable_at. rewrite Er, Ep, R1. by rewrite Z.add_0_l.
  - by rewrite R7, R8.
  - assert (Un : uncached (aq_cache_keys (queue_of agent ib')) (map gb_batch_id batches) = []).
    { apply uncached_none. intros id Hid. apply (qo_keys _ _ _ R6). rewrite R2, omap_app.
      apply elem_of_app. destruct (decide (id ∈ aq_cache_keys q)) as [Hk|Hk].
      - left. by apply (qo_keys _ _ _ Q).
      - right. apply list_elem_of_omap. assert (Hi : id ∈ ids) by (rewrite Ei; by apply elem_of_uncached).
        assert (Hm : Some id ∈ map im_cache_key msgs).
        { rewrite R3. apply list_elem_of_fmap. by exists id. }
        apply list_elem_of_fmap in Hm as (m & Ekm & Hm). by exists m. }
    destruct (restore_cached agent target dir options batches 0 ib') as (ib2 & E2 & Q2); [done|done|].
    exists ib2. split; [|done]. unfold rebuild_from_durable_at.
    pose proof (recover_again now s Hs) as Ea. cbn zeta in Ea. fold s1 in Ea. by rewrite Ea, Ep, E2.
Qed.
End Rebuild.
