(* ===== verification/MutexRegistry.v ===== *)
(** * Named locks between agents

    [services/mutex_registry.rs]: leases on named resources with a queue of
    waiters per resource.  The registry has two [tokio] mutexes, [locks] and
    [waiters]; a definition is one critical section (or the loop that holds
    [waiters]), and [acquire] and [release] are given as the critical sections
    they run in order.  Other tasks run between them: the grant loop takes the
    interference on [locks] as an argument. *)

From stdpp Require Import gmap.
From S2P Require Import Prelude.
Local Open Scope string_scope.

Record LockState := {
  lk_lock_id : string;
  lk_holder_agent : string;
  lk_intent : string;
  lk_acquired_at : Z;
  lk_expires_at : Z
}.

(** [w_tx] names the waiter's one-shot channel. *)
Record Waiter := {
  w_agent : string;
  w_intent : string;
  w_estimated_time : Z;
  w_tx : nat
}.

Record MutexRegistry := {
  locks : gmap string LockState;
  waiters : gmap string (list Waiter)
}.

Record AcquireMutexResponse := {
  am_acquired : bool;
  am_lock_id : string;
  am_holder_intent : string
}.

Definition new_registry : MutexRegistry := {| locks := ∅; waiters := ∅ |}.

(** ** Acquire *)

Definition new_lock (now : Z) (lock_id agent intent : string) (estimated_time : Z) : LockState := {|
  lk_lock_id := lock_id; lk_holder_agent := agent; lk_intent := intent;
  lk_acquired_at := now; lk_expires_at := (now + estimated_time)%Z |}.

(** The fast path, under [locks]: [None] goes on to wait. *)
Definition acquire_fast (now : Z) (uuid resource agent intent : string) (estimated_time : Z)
    (reg : MutexRegistry) : MutexRegistry * option AcquireMutexResponse :=
  match locks reg !! resource with
  | Some lock =>
      if String.eqb (lk_holder_agent lock) agent then
        (reg, Some {| am_acquired := true; am_lock_id := lk_lock_id lock;
                      am_holder_intent := lk_intent lock |})
      else (reg, None)
  | None =>
      ({| locks := <[resource := new_lock now uuid agent intent estimated_time]> (locks reg);
          waiters := waiters reg |},
       Some {| am_acquired := true; am_lock_id := uuid; am_holder_intent := intent |})
  end.

Definition current_holder_intent (resource : string) (reg : MutexRegistry) : string :=
  default "" (lk_intent <$> locks reg !! resource).

(** Registration, under [waiters]. *)
Definition push_waiter (resource : string) (w : Waiter) (reg : MutexRegistry) : MutexRegistry := {|
  locks := locks reg;
  waiters := <[resource := (default [] (waiters reg !! resource) ++ [w])%list]> (waiters reg) |}.

(** How the wait on the channel ends. *)
Inductive WaitEnd :=
| Received (resp : AcquireMutexResponse)
| ChannelClosed
| TimedOut.

Definition wait_response (holder_intent : string) (e : WaitEnd) : AcquireMutexResponse :=
  match e with
  | Received resp => resp
  | ChannelClosed | TimedOut =>
      {| am_acquired := false; am_lock_id := ""; am_holder_intent := holder_intent |}
  end.

(** ** Grant *)

(** What a popped waiter gets: the lock, nothing because its receiver is gone,
    or a closed channel because its sender is dropped with it. *)
Inductive Fate :=
| Granted (resp : AcquireMutexResponse)
| ReceiverGone
| SenderDropped.

Section Grant.
(** Channels whose receiver still waits; other tasks' changes of [locks] before
    each iteration; clock and identifiers of each iteration. *)
Context (alive : nat -> bool) (env : nat -> gmap string LockState -> gmap string LockState)
  (clock : nat -> Z) (uuid : nat -> string).

Fixpoint grant_loop (i : nat) (resource : string) (queue : list Waiter)
    (ls : gmap string LockState)
  : gmap string LockState * list Waiter * list (Waiter * Fate) :=
  match queue with
  | [] => (ls, [], [])
  | waiter :: rest =>
      let ls := env i ls in
      match ls !! resource with
      | None =>
          let lock := new_lock (clock i) (uuid i) (w_agent waiter) (w_intent waiter)
                        (w_estimated_time waiter) in
          let granted := <[resource := lock]> ls in
          if alive (w_tx waiter) then
            (granted, rest,
             [(waiter, Granted {| am_acquired := true; am_lock_id := uuid i;
                                  am_holder_intent := w_intent waiter |})])
          else
            let '(ls', q', fates) := grant_loop (S i) resource rest (delete resource granted) in
            (ls', q', (waiter, ReceiverGone) :: fates)
      | Some _ =>
          let '(ls', q', fates) := grant_loop (S i) resource rest ls in
          (ls', q', (waiter, SenderDropped) :: fates)
      end
  end.

Definition grant_next_waiter (resource : string) (reg : MutexRegistry)
  : MutexRegistry * list (Waiter * Fate) :=
  match waiters reg !! resource with
  | None => (reg, [])
  | Some queue =>
      let '(ls, rest, fates) := grant_loop 0 resource queue (locks reg) in
      ({| locks := ls; waiters := <[resource := rest]> (waiters reg) |}, fates)
  end.

(** ** Release *)

(** Under [locks]: [None] when the identifier is not the current one. *)
Definition release_lock (resource lock_id : string) (reg : MutexRegistry) : option MutexRegistry :=
  match locks reg !! resource with
  | Some lock =>
      if String.eqb (lk_lock_id lock) lock_id then
        Some {| locks := delete resource (locks reg); waiters := waiters reg |}
      else None
  | None => None
  end.

(** [between]: what other tasks do after the guard on [locks] was dropped and
    before the grant holds [waiters]. *)
Definition release (between : MutexRegistry -> MutexRegistry) (resource lock_id : string)
    (reg : MutexRegistry) : MutexRegistry * list (Waiter * Fate) * bool :=
  match release_lock resource lock_id reg with
  | None => (reg, [], false)
  | Some reg' => (grant_next_waiter resource (between reg'), true)
  end.

(** ** Expiry *)

Definition expired_resources (now : Z) (reg : MutexRegistry) : list (string * string) :=
  map (fun x => (x.1, lk_lock_id x.2))
    (List.filter (fun x => (lk_expires_at x.2 <=? now)%Z) (map_to_list (locks reg))).

(** One tick of the expiry task. *)
Definition expiry_tick (now : Z) (between : MutexRegistry -> MutexRegistry)
    (reg : MutexRegistry) : MutexRegistry :=
  fold_left (fun reg x => (release between x.1 x.2 reg).1.1) (expired_resources now reg) reg.
End Grant.

(** ** Lemmas *)

Section Lemmas.
Context (alive : nat -> bool) (clock : nat -> Z) (uuid : nat -> string).
Implicit Types (q : list Waiter) (ls : gmap string LockState).

Definition undisturbed (i : nat) ls := ls.
Notation loop := (grant_loop alive undisturbed clock uuid).

(** A held resource: every waiter loses its sender. *)
Lemma grant_loop_held i resource q ls lock :
  ls !! resource = Some lock ->
  loop i resource q ls = (ls, [], map (fun w => (w, SenderDropped)) q).
Proof.
  intros Hl. revert i. induction q as [|w q IH]; intros i; cbn; [done|].
  unfold undisturbed. rewrite Hl, IH. done.
Qed.

(** A free resource: dead waiters are skipped, the first live one gets it. *)
Lemma grant_loop_free i resource q ls :
  ls !! resource = None ->
  (Forall (fun w => alive (w_tx w) = false) q /\
   loop i resource q ls = (ls, [], map (fun w => (w, ReceiverGone)) q)) \/
  exists q1 w q2 j, q = (q1 ++ w :: q2)%list /\ j = (i + length q1)%nat /\
    Forall (fun w => alive (w_tx w) = false) q1 /\ alive (w_tx w) = true /\
    loop i resource q ls =
      (<[resource := new_lock (clock j) (uuid j) (w_agent w) (w_intent w) (w_estimated_time w)]> ls,
       q2,
       (map (fun w => (w, ReceiverGone)) q1 ++
        [(w, Granted {| am_acquired := true; am_lock_id := uuid j;
                        am_holder_intent := w_intent w |})])%list).
Proof.
  intros Hl. revert i. induction q as [|w q IH]; intros i; [left; by split|].
  cbn. change (undisturbed i ls) with ls. rewrite Hl. destruct (alive (w_tx w)) eqn:A.
  - right. exists [], w, q, i. rewrite Nat.add_0_r. split; [done|]. split; [done|].
    split; [constructor|]. by split.
  - rewrite delete_insert_id by done.
    destruct (IH (S i)) as [[F ->]|(q1 & w' & q2 & j & -> & -> & F & A' & ->)].
    + left. split; [by constructor|done].
    + right. exists (w :: q1), w', q2, (i + length (w :: q1))%nat. cbn [length].
      replace (S i + length q1)%nat with (i + S (length q1))%nat by lia.
      split; [done|]. split; [done|]. split; [by constructor|]. done.
Qed.

(** ** Properties *)

(**  Handing over a named lock.  When a release removed the lock and no
    other task interferes, the waiters of the resource are served first in
    first out: waiters whose receiver is gone are discarded, the first live one
    becomes the holder for its estimated time, and the ones behind it keep
    their places; without a live waiter the resource stays free and the queue
    is empty.  But when another agent's fast path took the resource between
    the removal and the grant, the grant loop pops every waiter of the queue
    and drops its sender: the queue is lost and each waiter is answered
    [acquired: false] before its timeout. *)
Theorem grant_serves_or_drops_queue resource reg queue :
  waiters reg !! resource = Some queue ->
  let '(reg', fates) := grant_next_waiter alive undisturbed clock uuid resource reg in
  (map fst fates ++ default [] (waiters reg' !! resource))%list = queue /\
  (forall r, r <> resource ->
     locks reg' !! r = locks reg !! r /\ waiters reg' !! r = waiters reg !! r) /\
  match locks reg !! resource with
  | Some lock => locks reg' !! resource = Some lock /\
                 fates = map (fun w => (w, SenderDropped)) queue
  | None =>
      (locks reg' !! resource = None /\ fates = map (fun w => (w, ReceiverGone)) queue /\
       forall w, w ∈ queue -> alive (w_tx w) = false) \/
      exists q1 w q2 lock resp,
        queue = (q1 ++ w :: q2)%list /\ (forall x, x ∈ q1 -> alive (w_tx x) = false) /\
        alive (w_tx w) = true /\ locks reg' !! resource = Some lock /\
        lk_holder_agent lock = w_agent w /\
        lk_expires_at lock = (lk_acquired_at lock + w_estimated_time w)%Z /\
        am_acquired resp = true /\ am_lock_id resp = lk_lock_id lock /\
        waiters reg' !! resource = Some q2 /\
        fates = (map (fun w => (w, ReceiverGone)) q1 ++ [(w, Granted resp)])%list
  end.
Proof.
  intros Hq. unfold grant_next_waiter. rewrite Hq.
  destruct (locks reg !! resource) as [lock|] eqn:Hl.
  - rewrite (grant_loop_held _ _ _ _ _ Hl). cbn. rewrite lookup_insert_eq, map_map, map_id. cbn.
    rewrite app_nil_r. split; [done|]. split; [|done].
    intros r Hr. by rewrite lookup_insert_ne by done.
  - destruct (grant_loop_free 0 resource queue _ Hl)
      as [[F ->]|(q1 & w & q2 & j & -> & _ & F & A & ->)]; cbn;
      rewrite lookup_insert_eq; cbn; (split; [|split]).
    + by rewrite map_map, map_id, app_nil_r.
    + intros r Hr. by rewrite lookup_insert_ne by done.
    + left. split; [done|]. split; [done|]. intros w Hw. by eapply Forall_forall in F.
    + rewrite map_app, map_map, map_id. cbn. by rewrite <- app_assoc.
    + intros r Hr. by rewrite !lookup_insert_ne by done.
    + right. eexists q1, w, q2, _, _. rewrite lookup_insert_eq.
      split; [done|]. split; [intros x Hx; by eapply Forall_forall in F|].
      repeat split; done.
Qed.
End Lemmas.

(** ** A run *)

Definition waiter_b : Waiter := {|
  w_agent := "b"; w_intent := "build"; w_estimated_time := 60; w_tx := 1 |}.
Definition held_by_a : MutexRegistry :=
  (acquire_fast 0 "id0" "repo" "a" "merge" 30 new_registry).1.
Definition b_waits : MutexRegistry := push_waiter "repo" waiter_b held_by_a.

Lemma grant_serves_or_drops_queue_witness :
  exists reg, locks reg !! "repo" = None /\
    (grant_next_waiter (fun _ => true) undisturbed (fun _ => 5%Z) (fun _ => "id1") "repo" reg).2
    = [(waiter_b, Granted {| am_acquired := true; am_lock_id := "id1";
                             am_holder_intent := "build" |})].
Proof.
  pose proof (grant_serves_or_drops_queue (fun _ => true) (fun _ => 5%Z) (fun _ => "id1") "repo"
    {| locks := ∅; waiters := waiters b_waits |} [waiter_b] eq_refl) as G.
  exists {| locks := ∅; waiters := waiters b_waits |}. split; [reflexivity|].
  destruct (grant_next_waiter _ _ _ _ _ _) as [reg' fates] eqn:E.
  cbn [locks] in G. rewrite lookup_empty in G.
  destruct G as (_ & _ & [(_ & _ & D)|(q1 & w & q2 & l & resp & Eq & _ & _ & _ & _ & _ & _ & _ & _ & Ef)]).
  - by specialize (D waiter_b (list_elem_of_here _ _)).
  - change fates with (reg', fates).2. rewrite <- E. vm_compute. reflexivity.
Defined.

(** [c]'s fast path runs between [a]'s release and the grant: [b] is refused. *)
Example barging_drops_waiter :
  (release (fun _ => true) undisturbed (fun _ => 5%Z) (fun _ => "id1")
     (fun reg => (acquire_fast 5 "id2" "repo" "c" "test" 30 reg).1) "repo" "id0" b_waits).1.2
  = [(waiter_b, SenderDropped)].
Proof. vm_compute. reflexivity. Qed.

(** [b] missed the fast path; [a] releases before [b] registers: nobody holds
    the resource, [b] waits for it, and no grant is due. *)
Example lost_wakeup :
  let missed := acquire_fast 1 "id1" "repo" "b" "build" 60 held_by_a in
  let released := release (fun _ => true) undisturbed (fun _ => 2%Z) (fun _ => "id2") (fun r => r)
                    "repo" "id0" missed.1 in
  let waiting := push_waiter "repo" waiter_b released.1.1 in
  missed.2 = None /\ released.2 = true /\ locks waiting !! "repo" = None /\
  waiters waiting !! "repo" = Some [waiter_b].
Proof. vm_compute. repeat split. Qed.
