(* ===== verification/EventQueue.v ===== *)
(** * Session event queue

    [services/event_queue.rs]: a bounded queue of events per session and the
    wakers of the callers that wait for one.  Three [tokio] mutexes guard the
    queues, the wakers and the identifier counter; a definition is one critical
    section, and the step relation interleaves them. *)

From stdpp Require Import gmap.
From S2P Require Import Prelude.
Local Open Scope string_scope.

Definition MAX_QUEUE_SIZE : nat := 1000.

(** The event variants the queue distinguishes, with their payload. *)
Inductive EventType :=
| AgentMessage (payload : string)
| Timeout (timeout_secs : Z)
| IssueClosed (payload : string).

Record Event := { event_id : Z; event_type : option EventType }.

(** A waker is the name of a one-shot channel. *)
Record EventQueue := {
  queues : gmap string (list Event);
  wakers : gmap string (list nat);
  next_id : Z
}.

Definition new_queue : EventQueue := {| queues := ∅; wakers := ∅; next_id := 1 |}.

Definition matches_type (event : Event) (types : list string) : bool :=
  match types with
  | [] => true
  | _ =>
      match event_type event with
      | Some (AgentMessage _) => existsb (String.eqb "agent_message") types
      | Some (Timeout _) => existsb (String.eqb "timeout") types
      | Some (IssueClosed _) => existsb (String.eqb "issue_closed") types
      | None => false
      end
  end.

Definition wanted (types : list string) (after_event_id : Z) (e : Event) : bool :=
  ((after_event_id =? 0)%Z || (after_event_id <? event_id e)%Z) && matches_type e types.

(** [position] and [remove]. *)
Fixpoint find_matching (queue : list Event) (types : list string) (after_event_id : Z)
  : option (Event * list Event) :=
  match queue with
  | [] => None
  | e :: rest =>
      if wanted types after_event_id e then Some (e, rest)
      else '(found, rest') ← find_matching rest types after_event_id; Some (found, e :: rest')
  end.

(** The first critical section of [wait_for_event], under [queues]. *)
Definition wait_check (session_id : string) (types : list string) (after_event_id : Z)
    (q : EventQueue) : EventQueue * option Event :=
  match queues q !! session_id with
  | None => (q, None)
  | Some queue =>
      match find_matching queue types after_event_id with
      | None => (q, None)
      | Some (e, rest) =>
          ({| queues := <[session_id := rest]> (queues q); wakers := wakers q;
              next_id := next_id q |}, Some e)
      end
  end.

(** The second, under [wakers]. *)
Definition wait_register (session_id : string) (tx : nat) (q : EventQueue) : EventQueue := {|
  queues := queues q;
  wakers := <[session_id := (default [] (wakers q !! session_id) ++ [tx])%list]> (wakers q);
  next_id := next_id q |}.

(** How the wait on the channel ends. *)
Inductive WaitOutcome :=
| WakerSent (e : Event)
| WakerClosed
| WaitTimedOut.

Definition timeout_event (timeout_secs : Z) : Event :=
  {| event_id := 0; event_type := Some (Timeout timeout_secs) |}.

(** [timeout.as_secs() as i32]: the low 32 bits, read as signed. *)
Definition as_i32 (n : Z) : Z :=
  let m := (n mod 2 ^ 32)%Z in if (m <? 2 ^ 31)%Z then m else (m - 2 ^ 32)%Z.

Definition wait_finish (types : list string) (after_event_id timeout_secs : Z)
    (o : WaitOutcome) : result Event string :=
  match o with
  | WakerSent e =>
      if wanted types after_event_id e then Ok e else Err "received non-matching event"
  | WaitTimedOut => Ok (timeout_event (as_i32 timeout_secs))
  | WakerClosed => Err "waker channel closed"
  end.

(** [notify_event], under [next_id]: [None] is the overflow panic. *)
Definition notify_assign (event : Event) (q : EventQueue) : option (EventQueue * Event) :=
  if (next_id q <? u64_max)%Z then
    Some ({| queues := queues q; wakers := wakers q; next_id := next_id q + 1 |},
          {| event_id := next_id q; event_type := event_type event |})
  else None.

(** [while queue.len() >= MAX_QUEUE_SIZE { queue.pop_front(); }]. *)
Definition trim (queue : list Event) : list Event :=
  drop (length queue - (MAX_QUEUE_SIZE - 1)) queue.

(** The rest of [notify_event], under [queues] and [wakers]; the second part is
    the channels the event is sent to. *)
Definition notify_append (session_id : string) (event : Event) (q : EventQueue)
  : EventQueue * list nat :=
  ({| queues := <[session_id := (trim (default [] (queues q !! session_id)) ++ [event])%list]>
                  (queues q);
      wakers := delete session_id (wakers q); next_id := next_id q |},
   default [] (wakers q !! session_id)).

Definition queue_len (session_id : string) (q : EventQueue) : nat :=
  length (default [] (queues q !! session_id)).

(** ** Interleaving *)

(** The queue, the events whose identifier is assigned but which are not
    appended yet, and the events handed out so far. *)
Record sys := {
  sys_queue : EventQueue;
  in_flight : list (string * Event);
  taken : list Event
}.

Definition init_sys : sys := {| sys_queue := new_queue; in_flight := []; taken := [] |}.

Inductive step : sys -> sys -> Prop :=
| step_assign s session event q event' :
    notify_assign event (sys_queue s) = Some (q, event') ->
    step s {| sys_queue := q; in_flight := (session, event') :: in_flight s; taken := taken s |}
| step_append s session event fl1 fl2 :
    in_flight s = (fl1 ++ (session, event) :: fl2)%list ->
    step s {| sys_queue := (notify_append session event (sys_queue s)).1;
              in_flight := fl1 ++ fl2; taken := taken s |}
| step_take s session types after q e :
    wait_check session types after (sys_queue s) = (q, Some e) ->
    step s {| sys_queue := q; in_flight := in_flight s; taken := e :: taken s |}
| step_register s session tx :
    step s {| sys_queue := wait_register session tx (sys_queue s); in_flight := in_flight s;
              taken := taken s |}.

(** ** Lemmas *)

Lemma find_matching_split queue types after e rest :
  find_matching queue types after = Some (e, rest) ->
  exists q1 q2, queue = (q1 ++ e :: q2)%list /\ rest = (q1 ++ q2)%list /\
    wanted types after e = true /\ forall x, x ∈ q1 -> wanted types after x = false.
Proof.
  revert e rest. induction queue as [|x queue IH]; intros e rest; [done|]. cbn.
  destruct (wanted types after x) eqn:W.
  - intros [= <- <-]. exists [], queue. split; [done|]. split; [done|]. split; [done|].
    by intros ? ?%elem_of_nil.
  - destruct (find_matching queue types after) as [[f r]|] eqn:F; [|done].
    cbn. intros [= <- <-]. destruct (IH _ _ eq_refl) as (q1 & q2 & -> & -> & We & Wq).
    exists (x :: q1), q2. split; [done|]. split; [done|]. split; [done|].
    intros y [->|Hy]%elem_of_cons; [done|by apply Wq].
Qed.

(** Every identifier in the system. *)
Definition queued (q : EventQueue) : list Event := concat (map snd (map_to_list (queues q))).
Definition all_ids (s : sys) : list Z :=
  map event_id (queued (sys_queue s)) ++ map (fun x => event_id x.2) (in_flight s)
  ++ map event_id (taken s).

Record sys_ok (s : sys) : Prop := {
  ok_len : forall session, (queue_len session (sys_queue s) <= MAX_QUEUE_SIZE)%nat;
  ok_ids : NoDup (all_ids s);
  ok_bound : Forall (fun i => 1 <= i < next_id (sys_queue s))%Z (all_ids s);
  ok_next : (1 <= next_id (sys_queue s) <= u64_max)%Z
}.

(** Replacing one session's queue. *)
Lemma queued_insert q session new :
  queued {| queues := <[session := new]> (queues q); wakers := wakers q; next_id := next_id q |}
  ≡ₚ (new ++ concat (map snd (map_to_list (delete session (queues q)))))%list.
Proof.
  unfold queued. cbn. rewrite <- insert_delete_eq.
  rewrite map_to_list_insert by apply lookup_delete_eq. done.
Qed.

Lemma queued_session q session :
  queued q ≡ₚ (default [] (queues q !! session)
               ++ concat (map snd (map_to_list (delete session (queues q)))))%list.
Proof.
  unfold queued. destruct (queues q !! session) as [l|] eqn:E; cbn.
  - rewrite <- (insert_delete_id _ _ _ E) at 1.
    rewrite map_to_list_insert by apply lookup_delete_eq. done.
  - by rewrite delete_id.
Qed.

Lemma all_ids_sub s s' :
  (exists k, Permutation (all_ids s) (k ++ all_ids s')) ->
  (next_id (sys_queue s') = next_id (sys_queue s)) ->
  NoDup (all_ids s) -> Forall (fun i => 1 <= i < next_id (sys_queue s))%Z (all_ids s) ->
  NoDup (all_ids s') /\ Forall (fun i => 1 <= i < next_id (sys_queue s'))%Z (all_ids s').
Proof.
  intros [k P] -> Hn Hf. rewrite P in Hn, Hf.
  apply NoDup_app in Hn as (_ & _ & Hn). by apply Forall_app in Hf as [_ Hf].
Qed.

Lemma trim_split queue :
  exists k, queue = (k ++ trim queue)%list /\ (length (trim queue) < MAX_QUEUE_SIZE)%nat.
Proof.
  exists (take (length queue - (MAX_QUEUE_SIZE - 1)) queue).
  unfold trim, MAX_QUEUE_SIZE. rewrite take_drop, length_drop. split; [done|lia].
Qed.

(** A session's queue rewritten by [f]. *)
Lemma queue_len_insert q session session' new :
  queue_len session' {| queues := <[session := new]> (queues q); wakers := wakers q;
                        next_id := next_id q |}
  = if decide (session = session') then length new else queue_len session' q.
Proof.
  unfold queue_len. cbn. destruct (decide (session = session')) as [<-|Hne].
  - by rewrite lookup_insert_eq.
  - by rewrite lookup_insert_ne.
Qed.

Lemma append_ids session event q :
  exists k, Permutation (map event_id (queued q) ++ [event_id event])
    (k ++ map event_id (queued (notify_append session event q).1)).
Proof.
  unfold notify_append. cbn [fst]. set (l := default [] (queues q !! session)).
  destruct (trim_split l) as (k & El & _). exists (map event_id k).
  change (queued {| queues := ?m; wakers := _; next_id := ?n |})
    with (queued {| queues := m; wakers := wakers q; next_id := n |}).
  rewrite queued_insert, (queued_session q session). fold l. rewrite El at 1.
  rewrite <- !map_app, <- (map_app event_id _ [event]). apply Permutation_map.
  rewrite <- !app_assoc. apply Permutation_app_head, Permutation_app_head.
  apply Permutation_app_comm.
Qed.

Lemma take_ids session types after q q' e :
  wait_check session types after q = (q', Some e) ->
  Permutation (queued q) (e :: queued q') /\ next_id q' = next_id q /\
  forall s, (queue_len s q' <= queue_len s q)%nat.
Proof.
  unfold wait_check. destruct (queues q !! session) as [l|] eqn:El; [|done].
  destruct (find_matching l types after) as [[f rest]|] eqn:F; [|done]. intros [= <- <-].
  apply find_matching_split in F as (q1 & q2 & -> & -> & _ & _).
  rewrite queued_insert, (queued_session q session), El. cbn [default]. split; [|split; [done|]].
  - unfold id. rewrite <- !app_assoc. cbn [app]. symmetry. apply Permutation_middle.
  - intros s. rewrite queue_len_insert. destruct (decide (session = s)) as [<-|]; [|done].
    unfold queue_len. rewrite El. cbn. rewrite !length_app. cbn. lia.
Qed.

Lemma step_ok s s' : sys_ok s -> step s s' -> sys_ok s'.
Proof.
  intros [Hl Hn Hf Hx] St. destruct St as [s session event q event' A|s session event fl1 fl2 E
    |s session types after q e T|s session tx].
  - unfold notify_assign in A. destruct (_ <? _)%Z eqn:L; [|done]. injection A as <- <-.
    apply Z.ltb_lt in L.
    assert (P : Permutation (all_ids {| sys_queue := {| queues := queues (sys_queue s);
        wakers := wakers (sys_queue s); next_id := next_id (sys_queue s) + 1 |};
        in_flight := (session, {| event_id := next_id (sys_queue s);
                                  event_type := event_type event |}) :: in_flight s;
        taken := taken s |}) (next_id (sys_queue s) :: all_ids s)).
    { unfold all_ids. cbn. symmetry. apply Permutation_middle. }
    constructor; [exact Hl| | |cbn; lia]; rewrite P.
    + constructor; [|done]. intros Hi. eapply Forall_forall in Hf; [|exact Hi]. lia.
    + constructor; [cbn; lia|]. eapply Forall_impl; [exact Hf|]. cbn. lia.
  - assert (Hsub : exists k, Permutation (all_ids s)
      (k ++ all_ids {| sys_queue := (notify_append session event (sys_queue s)).1;
                       in_flight := fl1 ++ fl2; taken := taken s |})).
    { destruct (append_ids session event (sys_queue s)) as [k P]. exists k.
      unfold all_ids. rewrite E. cbn [sys_queue in_flight taken]. rewrite !app_assoc, <- P.
      apply Permutation_app_tail. rewrite <- !app_assoc. apply Permutation_app_head.
      rewrite !map_app. cbn. by rewrite Permutation_middle. }
    destruct (all_ids_sub _ _ Hsub eq_refl Hn Hf) as [Hn' Hf'].
    constructor; [|exact Hn'|exact Hf'|exact Hx].
    intros session'. cbn [sys_queue]. unfold notify_append. cbn [fst].
    change (queue_len session' ?x) with (queue_len session' {| queues := queues x;
      wakers := wakers (sys_queue s); next_id := next_id (sys_queue s) |}).
    cbn [queues]. rewrite queue_len_insert. destruct (decide _); [|apply Hl].
    destruct (trim_split (default [] (queues (sys_queue s) !! session))) as (k & _ & Ht).
    rewrite length_app. cbn. lia.
  - destruct (take_ids _ _ _ _ _ _ T) as (P & En & Le).
    assert (Hsub : exists k, Permutation (all_ids s)
      (k ++ all_ids {| sys_queue := q; in_flight := in_flight s; taken := e :: taken s |})).
    { exists []. unfold all_ids. cbn [sys_queue in_flight taken app]. rewrite P. cbn [map app].
      rewrite !app_assoc. by rewrite <- Permutation_middle. }
    destruct (all_ids_sub _ _ Hsub En Hn Hf) as [Hn' Hf'].
    constructor; [|exact Hn'|exact Hf'|cbn; by rewrite En].
    intros session'. cbn. etransitivity; [apply Le|apply Hl].
  - constructor; [exact Hl|exact Hn|exact Hf|exact Hx].
Qed.

Lemma reachable_sys_ok s : rtc step init_sys s -> sys_ok s.
Proof.
  intros R. assert (H : sys_ok init_sys).
  { constructor.
    - intros session. unfold queue_len, init_sys, new_queue. cbn. rewrite lookup_empty. cbn.
      unfold MAX_QUEUE_SIZE. lia.
    - unfold all_ids, queued. cbn. rewrite map_to_list_empty. constructor.
    - unfold all_ids, queued. cbn. rewrite map_to_list_empty. constructor.
    - unfold u64_max. cbn. lia. }
  induction R as [|s1 s2 s3 St R IH]; [done|]. apply IH. by eapply step_ok.
Qed.

(** ** Properties *)

(**  The event queue under any interleaving of notifications and waits
    (each notification in its two critical sections, with any number of them
    in between): no session's queue ever holds more than 1000 events, and every
    event has its own identifier, so no event taken from a queue is still in
    one, is still to be appended, or is ever taken twice. *)
Theorem event_queue_bounded_and_unique s :
  rtc step init_sys s ->
  (forall session, (queue_len session (sys_queue s) <= MAX_QUEUE_SIZE)%nat) /\
  NoDup (map event_id (queued (sys_queue s)) ++ map (fun x => event_id x.2) (in_flight s)
         ++ map event_id (taken s)) /\
  forall session types after q e,
    wait_check session types after (sys_queue s) = (q, Some e) ->
    wanted types after e = true /\
    exists q1 q2, queues (sys_queue s) !! session = Some (q1 ++ e :: q2)%list /\
      queues q !! session = Some (q1 ++ q2)%list /\
      forall x, x ∈ q1 -> wanted types after x = false.
Proof.
  intros R. destruct (reachable_sys_ok s R) as [Hl Hn _ _].
  split; [exact Hl|]. split; [exact Hn|].
  intros session types after q e. unfold wait_check.
  destruct (queues (sys_queue s) !! session) as [l|] eqn:El; [|done].
  destruct (find_matching l types after) as [[f rest]|] eqn:F; [|done]. intros [= <- <-].
  apply find_matching_split in F as (q1 & q2 & -> & -> & W & Hq).
  split; [done|]. exists q1, q2. cbn. by rewrite lookup_insert_eq.
Qed.

(** ** A run *)

Definition msg (text : string) : Event := {| event_id := 0; event_type := Some (AgentMessage text) |}.
Definition with_id (i : Z) (e : Event) : Event := {| event_id := i; event_type := event_type e |}.

(** Two notifications are assigned in one order and appended in the other. *)
Definition swapped : EventQueue :=
  match notify_assign (msg "first") new_queue with
  | Some (q, e1) =>
      match notify_assign (msg "second") q with
      | Some (q, e2) => (notify_append "s" e1 (notify_append "s" e2 q).1).1
      | None => new_queue
      end
  | None => new_queue
  end.

Definition swapped_sys : sys := {| sys_queue := swapped; in_flight := []; taken := [] |}.

Lemma swapped_reachable : rtc step init_sys swapped_sys.
Proof.
  eapply rtc_l. { eapply (step_assign init_sys "s" (msg "first")). reflexivity. }
  eapply rtc_l. { eapply (step_assign _ "s" (msg "second")). reflexivity. }
  eapply rtc_l. { eapply (step_append _ "s" (with_id 2 (msg "second")) []). reflexivity. }
  eapply rtc_l. { eapply (step_append _ "s" (with_id 1 (msg "first")) []). reflexivity. }
  apply rtc_refl.
Qed.

Lemma event_queue_bounded_and_unique_witness :
  exists q1 q2, queues swapped !! "s" = Some (q1 ++ with_id 2 (msg "second") :: q2)%list /\
    queues (wait_check "s" [] 0 swapped).1 !! "s" = Some (q1 ++ q2)%list.
Proof.
  destruct (event_queue_bounded_and_unique swapped_sys swapped_reachable) as (_ & _ & T).
  destruct (T "s" [] 0%Z (wait_check "s" [] 0 swapped).1 (with_id 2 (msg "second")))
    as (_ & q1 & q2 & E1 & E2 & _).
  - vm_compute. reflexivity.
  - exists q1, q2. split; [exact E1|exact E2].
Defined.

(** A reader that took event 2 and asks for what came after it never sees
    event 1, which was assigned first and appended last. *)
Example swapped_event_is_skipped :
  (wait_check "s" [] 0 swapped).2 = Some (with_id 2 (msg "second")) /\
  (wait_check "s" [] 2 (wait_check "s" [] 0 swapped).1).2 = None /\
  queue_len "s" (wait_check "s" [] 0 swapped).1 = 1.
Proof. vm_compute. repeat split. Qed.

(** The event arrives between the check and the registration: it is queued,
    and the waker registered afterwards is not told. *)
Example missed_wakeup :
  let checked := wait_check "s" [] 0 new_queue in
  let notified := notify_append "s" (with_id 1 (msg "m")) checked.1 in
  checked.2 = None /\ notified.2 = [] /\
  wakers (wait_register "s" 7 notified.1) !! "s" = Some [7] /\
  queue_len "s" (wait_register "s" 7 notified.1) = 1.
Proof. vm_compute. repeat split. Qed.

(** An event sent to a waker also stays in the queue. *)
Example woken_event_is_still_queued :
  let notified := notify_append "s" (with_id 1 (msg "m")) (wait_register "s" 7 new_queue) in
  notified.2 = [7] /\
  (wait_check "s" [] 0 notified.1).2 = Some (with_id 1 (msg "m")).
Proof. vm_compute. repeat split. Qed.
