(* ===== verification/Ledger.v ===== *)
(** * The immutable ledger

    [services/immutable_ledger.rs]: events appended as JSON lines to bounded
    segment files and replayed in order.  The segment directory is a map from
    file names to contents; the advisory and in-process locks make an append a
    function on it.  The text of an event is [serde_json]'s: the class
    [LedgerText] states what the writer and the reader rely on. *)

From stdpp Require Import gmap pretty sorting.
From S2P Require Import Prelude RustStr JsonValue SqlTable.
Local Open Scope string_scope.

Definition DEFAULT_SEGMENT_MAX_BYTES : Z := 4 * 1024 * 1024.

Record LedgerEvent := {
  ev_schema_version : Z;
  ev_event_id : string;
  ev_id : string;
  ev_event_time : string;
  ev_observed_at : string;
  ev_run_seq : option Z;
  ev_event_type : string;
  ev_agent_id : option string;
  ev_run_id : option string;
  ev_session_id : option string;
  ev_invocation_id : option string;
  ev_generation : option Z;
  ev_provider : option string;
  ev_runtime : option string;
  ev_harness : option string;
  ev_role : option string;
  ev_source : string;
  ev_lifecycle_state : string;
  ev_data : json
}.

(** [LedgerEvent::new]: [uuid] and [now] are read from the environment. *)
Definition new_event (uuid now event_type : string) (agent_id : option string) (data : json)
  : LedgerEvent := {|
  ev_schema_version := 1; ev_event_id := uuid; ev_id := uuid; ev_event_time := now;
  ev_observed_at := now; ev_run_seq := None; ev_event_type := event_type;
  ev_agent_id := agent_id; ev_run_id := None; ev_session_id := None; ev_invocation_id := None;
  ev_generation := None; ev_provider := None; ev_runtime := None; ev_harness := None;
  ev_role := None; ev_source := "exomonad"; ev_lifecycle_state := "emitted"; ev_data := data |}.

Record LedgerRecord := {
  rec_segment : string;
  rec_line_number : Z;
  rec_event : LedgerEvent
}.


(** [serde_json::to_vec] and [from_str] on events: compact output is one line. *)
Class LedgerText := {
  event_line : LedgerEvent -> string;
  parse_line : string -> option LedgerEvent;
  line_roundtrip : forall e, parse_line (event_line e) = Some e;
  line_one_line : forall e, str_contains LF (event_line e) = false;
  line_no_cr : forall e, str_contains CR (event_line e) = false;
  line_not_blank : forall e, is_blank (event_line e) = false
}.

(** ** Segment names *)

(** File name to content. *)
Notation directory := (gmap string string).

(** [Path::extension] and [Path::file_stem] of a plain file name. *)
Definition split_extension (name : string) : option (string * string) :=
  match rsplit_once "." name with
  | Some (stem, ext) => if str_is_empty stem then None else Some (stem, ext)
  | None => None
  end.
Definition is_segment (name : string) : bool :=
  match split_extension name with Some (_, ext) => String.eqb ext "jsonl" | None => false end.
Definition file_stem (name : string) : string :=
  match split_extension name with Some (stem, _) => stem | None => name end.

Definition name_le (a b : string) : Prop := String.leb a b = true.

(** [paths.sort()] of the [jsonl] files. *)
Definition segments (d : directory) : list string :=
  insertion_sort String.leb (List.filter is_segment (map fst (map_to_list d))).

Definition digit (d : Z) : ascii := ascii_of_nat (48 + Z.to_nat d).
(** [k] decimal digits, most significant first. *)
Fixpoint digits (k : nat) (n : Z) : string :=
  match k with
  | O => ""
  | S k => String (digit (n / 10 ^ Z.of_nat k)) (digits k (n mod 10 ^ Z.of_nat k))
  end.

(** [{n:012}]. *)
Definition pad12 (n : Z) : string := if (n <? 10 ^ 12)%Z then digits 12 n else pretty n.

Definition segment_name (n : Z) : string := "segment-" ++ pad12 n ++ ".jsonl".

Definition segment_index (name : string) : option Z :=
  index ← strip_prefix "segment-" (file_stem name); parse_u64 index.

Definition current_segment_path (d : directory) : string :=
  default "segment-000000000000.jsonl" (last (segments d)).

Definition next_segment_path (d : directory) : string :=
  segment_name (match sql_max id (omap segment_index (segments d)) with
                | Some index => Z.min u64_max (index + 1)
                | None => 1
                end).

(** ** Writing *)

Section Ledger.
Context `{LedgerText}.

(** [segment_max_bytes] is at least 1; [age_expired] is the test of the current
    segment's modification time against the maximal age, if one is set. *)
Definition append (segment_max_bytes : Z) (age_expired : bool) (event : LedgerEvent)
    (d : directory) : directory :=
  let line := event_line event ++ String LF "" in
  let path := current_segment_path d in
  let current_size := str_len (default "" (d !! path)) in
  let target :=
    if (0 <? current_size)%Z
       && ((segment_max_bytes <? current_size + str_len line)%Z || age_expired)
    then next_segment_path d else path in
  <[target := default "" (d !! target) ++ line]> d.

(** ** Reading *)

Fixpoint read_lines (segment : string) (line_number : Z) (l : list string)
  : result (list LedgerRecord) string :=
  match l with
  | [] => Ok []
  | line :: rest =>
      if is_blank line then read_lines segment (line_number + 1) rest
      else
        let? event := option_context (parse_line line)
            ("parse " ++ segment ++ " line " ++ pretty line_number) in
        let? records := read_lines segment (line_number + 1) rest in
        Ok ({| rec_segment := segment; rec_line_number := line_number; rec_event := event |}
            :: records)
  end.

Definition read_events (d : directory) : result (list LedgerRecord) string :=
  let? records := collect (fun segment => read_lines segment 1 (lines (default "" (d !! segment))))
                    (segments d) in
  Ok (concat records).

(** ** Corrections and sequence numbers *)

Definition superseded_id (r : LedgerRecord) : option string :=
  if String.eqb (ev_event_type (rec_event r)) "event.superseded" then
    data ← as_object (ev_data (rec_event r));
    v ← match obj_get "superseded_event_id" data with
        | Some v => Some v
        | None => obj_get "old_event_id" data
        end;
    as_str v
  else None.

Definition resolve_superseded_events (records : list LedgerRecord) : list LedgerRecord :=
  let superseded := omap superseded_id records in
  List.filter (fun r => negb (existsb (String.eqb (ev_event_id (rec_event r))) superseded)) records.

Definition read_resolved_events (d : directory) : result (list LedgerRecord) string :=
  let? records := read_events d in Ok (resolve_superseded_events records).

(** [windows(2).all(|w| w[1] == w[0].saturating_add(1))]. *)
Fixpoint contiguous (l : list Z) : bool :=
  match l with
  | a :: ((b :: _) as rest) => (b =? Z.min u64_max (a + 1))%Z && contiguous rest
  | _ => true
  end.

Definition sequence_status (records : list LedgerRecord) : string :=
  let sequences := omap (fun r => ev_run_seq (rec_event r)) records in
  match sequences with
  | [] => "unknown"
  | _ => if contiguous (insertion_sort Z.leb sequences) then "complete" else "partial"
  end.
End Ledger.
