(* ===== verification/LedgerSpec.v ===== *)
(** * The immutable ledger: properties

    Segment names sort as their numbers; an append extends the replayed event
    sequence by exactly its event, touches one file, only at its end, and keeps
    segments bounded; corrections and the sequence status. *)

From stdpp Require Import gmap pretty sorting.
From Stdlib Require OrderedTypeEx.
From S2P Require Import Prelude RustStr JsonValue SqlTable Ledger.
Local Open Scope string_scope.

(** ** Decimal names *)

Lemma pow10_S k : (10 ^ Z.of_nat (S k) = 10 * 10 ^ Z.of_nat k)%Z.
Proof. rewrite Nat2Z.inj_succ, Z.pow_succ_r; lia. Qed.

Lemma pow10_pos k : (0 < 10 ^ Z.of_nat k)%Z.
Proof. apply Z.pow_pos_nonneg; lia. Qed.

(** A number below [10^(k+1)], as first digit and rest. *)
Lemma first_digit k n :
  (0 <= n < 10 ^ Z.of_nat (S k))%Z ->
  (0 <= n / 10 ^ Z.of_nat k < 10)%Z /\ (0 <= n mod 10 ^ Z.of_nat k < 10 ^ Z.of_nat k)%Z /\
  n = (n / 10 ^ Z.of_nat k * 10 ^ Z.of_nat k + n mod 10 ^ Z.of_nat k)%Z.
Proof.
  rewrite pow10_S. pose proof (pow10_pos k) as Hp. intros Hn. split; [|split].
  - split; [apply Z.div_pos; lia|]. apply Z.div_lt_upper_bound; lia.
  - apply Z.mod_pos_bound. lia.
  - rewrite (Z.div_mod n (10 ^ Z.of_nat k)) at 1; lia.
Qed.

Lemma digit_elim (P : Z -> Prop) :
  P 0%Z -> P 1%Z -> P 2%Z -> P 3%Z -> P 4%Z -> P 5%Z -> P 6%Z -> P 7%Z -> P 8%Z -> P 9%Z ->
  forall d, (0 <= d < 10)%Z -> P d.
Proof.
  intros. assert (d = 0 \/ d = 1 \/ d = 2 \/ d = 3 \/ d = 4 \/ d = 5 \/ d = 6 \/ d = 7 \/ d = 8
    \/ d = 9)%Z as D by lia.
  repeat destruct D as [->|D]; subst; done.
Qed.

Lemma digit_compare a b :
  (0 <= a < 10)%Z -> (0 <= b < 10)%Z -> Ascii.compare (digit a) (digit b) = (a ?= b)%Z.
Proof. intros Ha Hb. revert b Hb. by pattern a; apply digit_elim; try exact Ha;
  intros b Hb; pattern b; apply digit_elim. Qed.

Lemma digit_value_digit d : (0 <= d < 10)%Z -> digit_value (digit d) = Some d.
Proof. intros Hd. by pattern d; apply digit_elim. Qed.

Lemma digit_not_dot d : (0 <= d < 10)%Z -> Ascii.eqb (digit d) "." = false.
Proof. intros Hd. by pattern d; apply digit_elim. Qed.

Lemma digit_not_plus d : (0 <= d < 10)%Z -> Ascii.eqb (digit d) "+" = false.
Proof. intros Hd. by pattern d; apply digit_elim. Qed.

Lemma compare_digits k i j s :
  (0 <= i < 10 ^ Z.of_nat k)%Z -> (0 <= j < 10 ^ Z.of_nat k)%Z ->
  String.compare (digits k i ++ s) (digits k j ++ s) = (i ?= j)%Z.
Proof.
  revert i j. induction k as [|k IH]; intros i j Hi Hj.
  - cbn in Hi, Hj. replace i with 0%Z by lia. replace j with 0%Z by lia. apply str_compare_refl.
  - cbn [digits]. apply first_digit in Hi as (Di & Ri & Ei), Hj as (Dj & Rj & Ej).
    change (String ?a ?x ++ s) with (String a (x ++ s)). cbn [String.compare].
    rewrite digit_compare, IH by done. pose proof (pow10_pos k).
    destruct (Z.compare_spec (i / 10 ^ Z.of_nat k) (j / 10 ^ Z.of_nat k)) as [E|L|L].
    + rewrite E in Ei. destruct (Z.compare_spec (i mod 10 ^ Z.of_nat k) (j mod 10 ^ Z.of_nat k));
        symmetry; [apply Z.compare_eq_iff|apply Z.compare_lt_iff|apply Z.compare_gt_iff]; lia.
    + symmetry. apply Z.compare_lt_iff. nia.
    + symmetry. apply Z.compare_gt_iff. nia.
Qed.

Lemma parse_digits_digits k n acc :
  (0 <= n < 10 ^ Z.of_nat k)%Z -> (0 <= acc)%Z ->
  (acc * 10 ^ Z.of_nat k + n <= u64_max)%Z ->
  parse_digits acc (digits k n) = Some (acc * 10 ^ Z.of_nat k + n)%Z.
Proof.
  revert n acc. induction k as [|k IH]; intros n acc Hn Ha Hb; cbn [digits parse_digits].
  - cbn in *. f_equal. lia.
  - apply first_digit in Hn as (Dn & Rn & En). rewrite digit_value_digit by done.
    rewrite pow10_S in Hb |- *. pose proof (pow10_pos k).
    rewrite (proj2 (Z.leb_le _ _)) by nia.
    rewrite IH; [f_equal; lia|done|lia|nia].
Qed.

Lemma digits_no_dot k n :
  (0 <= n < 10 ^ Z.of_nat k)%Z -> str_contains "." (digits k n) = false.
Proof.
  revert n. induction k as [|k IH]; intros n Hn; [done|].
  apply first_digit in Hn as (Dn & Rn & _). cbn [digits str_contains].
  by rewrite digit_not_dot, IH.
Qed.

(** ** Segment names *)

Definition index_ok (i : Z) : Prop := (0 <= i < 10 ^ 12)%Z.

Lemma segment_name_digits i : index_ok i -> segment_name i = "segment-" ++ digits 12 i ++ ".jsonl".
Proof. intros [_ Hi]. unfold segment_name, pad12. by rewrite (proj2 (Z.ltb_lt _ _) Hi). Qed.

Lemma compare_prefix p s t : String.compare (p ++ s) (p ++ t) = String.compare s t.
Proof.
  induction p as [|c p IH]; [done|].
  change (String c p ++ s) with (String c (p ++ s)).
  change (String c p ++ t) with (String c (p ++ t)). cbn [String.compare].
  unfold Ascii.compare. rewrite N.compare_refl. exact IH.
Qed.

(** Names sort as numbers. *)
Lemma segment_name_leb i j :
  index_ok i -> index_ok j -> String.leb (segment_name i) (segment_name j) = (i <=? j)%Z.
Proof.
  intros Hi Hj. rewrite !segment_name_digits by done. unfold String.leb.
  rewrite compare_prefix, compare_digits by done. unfold Z.leb. by destruct (i ?= j)%Z.
Qed.

Lemma segment_name_inj i j : index_ok i -> index_ok j -> segment_name i = segment_name j -> i = j.
Proof.
  intros Hi Hj E. pose proof (segment_name_leb i j Hi Hj) as L1.
  pose proof (segment_name_leb j i Hj Hi) as L2. rewrite E in L1, L2.
  assert (R : String.leb (segment_name j) (segment_name j) = true)
    by (unfold String.leb; by rewrite str_compare_refl).
  rewrite R in L1, L2. symmetry in L1, L2. apply Z.leb_le in L1, L2. lia.
Qed.


Lemma split_extension_segment i :
  index_ok i -> split_extension (segment_name i) = Some ("segment-" ++ digits 12 i, "jsonl").
Proof.
  intros Hi. rewrite segment_name_digits by done. unfold split_extension.
  assert (E : "segment-" ++ digits 12 i ++ ".jsonl"
              = ("segment-" ++ digits 12 i) ++ String "." "jsonl").
  { generalize (digits 12 i). intros s. cbn. by repeat f_equal. }
  rewrite E, rsplit_once_last by done. done.
Qed.

Lemma segment_is_segment i : index_ok i -> is_segment (segment_name i) = true.
Proof. intros Hi. unfold is_segment. by rewrite split_extension_segment. Qed.

Lemma strip_prefix_app p s : strip_prefix p (p ++ s) = Some s.
Proof.
  induction p as [|a p IH]; [by destruct s|].
  change (String a p ++ s) with (String a (p ++ s)). cbn. by rewrite Ascii.eqb_refl.
Qed.

Lemma segment_index_name i : index_ok i -> segment_index (segment_name i) = Some i.
Proof.
  intros Hi. unfold segment_index, file_stem. rewrite split_extension_segment by done.
  rewrite strip_prefix_app. cbn [mbind option_bind]. unfold parse_u64.
  pose proof (parse_digits_digits 12 i 0) as P. cbn [digits] in *.
  pose proof (first_digit 11 i Hi) as (D & _ & _). rewrite digit_not_plus by done.
  rewrite P; [f_equal; lia|exact Hi|lia|]. destruct Hi. unfold u64_max. lia.
Qed.

Lemma segment_zero : "segment-000000000000.jsonl" = segment_name 0.
Proof. reflexivity. Qed.

Lemma leb_refl s : String.leb s s = true.
Proof. unfold String.leb. by rewrite str_compare_refl. Qed.

(** ** The directory as a sequence of segments *)

Section Spec.
Context `{LedgerText}.
Implicit Types (segs : list (Z * list LedgerEvent)).

Fixpoint seg_content (es : list LedgerEvent) : string :=
  match es with
  | [] => ""
  | e :: es => event_line e ++ String LF (seg_content es)
  end.

Definition dir_of segs : directory :=
  list_to_map (map (fun x => (segment_name x.1, seg_content x.2)) segs).

(** What the writer leaves: numbered non-empty segments of whole lines; only a
    segment of a single event may exceed the limit. *)
Record segs_ok (max : Z) segs : Prop := {
  sk_sorted : StronglySorted Z.lt (map fst segs);
  sk_index : Forall (fun x => index_ok x.1) segs;
  sk_size : Forall (fun x => match x.2 with
                             | [] => False
                             | [_] => True
                             | _ => (str_len (seg_content x.2) <= max)%Z
                             end) segs
}.

Definition ledger_ok max (d : directory) : Prop := exists segs, segs_ok max segs /\ d = dir_of segs.

Lemma seg_content_snoc es e :
  seg_content (es ++ [e]) = seg_content es ++ (event_line e ++ String LF "").
Proof.
  induction es as [|x es IH]; [done|]. cbn [seg_content app]. rewrite IH, str_app_assoc. done.
Qed.

Lemma str_len_app a b : str_len (a ++ b) = (str_len a + str_len b)%Z.
Proof.
  unfold str_len. induction a as [|x a IH]; [done|].
  change (String x a ++ b) with (String x (a ++ b)). cbn [String.length]. lia.
Qed.

Lemma str_len_nonneg s : (0 <= str_len s)%Z.
Proof. unfold str_len. lia. Qed.

Lemma seg_content_pos es : es <> [] -> (0 < str_len (seg_content es))%Z.
Proof.
  destruct es as [|e es]; [done|]. intros _. cbn [seg_content]. rewrite str_len_app.
  change (str_len (String LF (seg_content es))) with (Z.of_nat (S (String.length (seg_content es)))).
  pose proof (str_len_nonneg (event_line e)). lia.
Qed.

Section Segs.
Context (max : Z) segs (Hok : segs_ok max segs).

Lemma seg_index_ok x : x ∈ segs -> index_ok x.1.
Proof. intros Hx. by eapply (proj1 (Forall_forall _ _)) in Hx; [|apply Hok]. Qed.

Lemma seg_names_NoDup : NoDup (map segment_name (map fst segs)).
Proof.
  pose proof (sk_sorted _ _ Hok) as S. pose proof (sk_index _ _ Hok) as I.
  induction segs as [|x l IH]; [constructor|]. cbn in *.
  apply StronglySorted_inv in S as [S Hx]. inversion_clear I as [|? ? Ix Il].
  constructor; [|apply IH; [constructor; [done|done|]|done|done]].
  - intros (i & E & (y & -> & Hy)%list_elem_of_fmap)%list_elem_of_fmap.
    apply segment_name_inj in E; [|done|by eapply Forall_forall in Il].
    eapply Forall_forall in Hx; [|apply list_elem_of_fmap; by exists y]. lia.
  - pose proof (sk_size _ _ Hok) as Z. by inversion_clear Z.
Qed.

Lemma dir_names l :
  (map (fun x : Z * list LedgerEvent => (segment_name x.1, seg_content x.2)) l).*1
  = map segment_name (map fst l).
Proof. induction l as [|x l IH]; [done|]. cbn. f_equal. exact IH. Qed.

Lemma dir_of_lookup x : x ∈ segs -> dir_of segs !! segment_name x.1 = Some (seg_content x.2).
Proof.
  intros Hx. unfold dir_of. apply elem_of_list_to_map_1.
  - rewrite dir_names. exact seg_names_NoDup.
  - apply list_elem_of_fmap. by exists x.
Qed.

Lemma dir_of_inv name content :
  dir_of segs !! name = Some content ->
  exists x, x ∈ segs /\ name = segment_name x.1 /\ content = seg_content x.2.
Proof.
  intros E%elem_of_list_to_map_2.
  apply list_elem_of_fmap in E as (x & [= -> ->] & Hx). by exists x.
Qed.

Lemma leb_antisymm : AntiSymm (=) name_le.
Proof. intros a b. apply String.leb_antisym. Qed.

(** The sorted directory listing is the segment sequence. *)
Lemma segments_dir_of : segments (dir_of segs) = map segment_name (map fst segs).
Proof.
  unfold segments.
  assert (P : map fst (map_to_list (dir_of segs)) ≡ₚ map segment_name (map fst segs)).
  { assert (map_to_list (dir_of segs)
            ≡ₚ map (fun x => (segment_name x.1, seg_content x.2)) segs) as ->.
    { apply (map_to_list_to_map (M := gmap string)). rewrite dir_names. exact seg_names_NoDup. }
    by rewrite <- dir_names. }
  assert (F : List.filter is_segment (map fst (map_to_list (dir_of segs)))
              ≡ₚ map segment_name (map fst segs)).
  { rewrite <- P. rewrite forallb_filter_id; [done|]. apply forallb_elem. intros n.
    rewrite P. intros (i & -> & (x & -> & Hx)%list_elem_of_fmap)%list_elem_of_fmap.
    by apply segment_is_segment, seg_index_ok. }
  pose proof leb_antisymm.
  apply (StronglySorted_unique name_le).
  - apply insertion_sort_sorted; [exact leb_trans|exact String.leb_total].
  - pose proof (sk_sorted _ _ Hok) as S. pose proof (sk_index _ _ Hok) as I.
    clear -S I. induction segs as [|x l IH]; [constructor|]. cbn in *.
    apply StronglySorted_inv in S as [S Hx]. inversion_clear I as [|? ? Ix Il].
    constructor; [by apply IH|]. apply Forall_forall.
    intros n (i & -> & Hi)%list_elem_of_fmap. unfold name_le.
    pose proof (proj1 (Forall_forall _ _) Hx i Hi) as Hlt.
    apply list_elem_of_fmap in Hi as (y & -> & Hy). eapply Forall_forall in Il; [|exact Hy].
    rewrite segment_name_leb by done. apply Z.leb_le. lia.
  - by rewrite insertion_sort_perm.
Qed.
End Segs.
(** ** Appending *)

Lemma segment_indices l :
  Forall index_ok l -> omap segment_index (map segment_name l) = l.
Proof.
  induction 1 as [|i l Hi _ IH]; [done|]. cbn [map].
  change (match segment_index (segment_name i) with
          | Some y => y :: omap segment_index (map segment_name l)
          | None => omap segment_index (map segment_name l)
          end = i :: l). by rewrite segment_index_name, IH.
Qed.

Lemma max_of_sorted l i :
  StronglySorted Z.lt (l ++ [i]) -> sql_max id (l ++ [i]) = Some i.
Proof.
  intros S. destruct (sql_max id (l ++ [i])) as [m|] eqn:E.
  - apply sql_max_spec in E as [(j & Hj & Ej) Hle]. unfold id in *. subst j. f_equal.
    specialize (Hle i). assert (i ∈ (l ++ [i])%list) as Hi by set_solver. specialize (Hle Hi).
    apply elem_of_app in Hj as [Hj|Hj%list_elem_of_singleton]; [|done].
    pose proof (StronglySorted_app_1_elem_of _ _ _ m i S Hj ltac:(by left)). lia.
  - apply sql_max_None in E. by destruct l.
Qed.

Lemma current_of max segs x :
  segs_ok max (segs ++ [x]) -> current_segment_path (dir_of (segs ++ [x])) = segment_name x.1.
Proof.
  intros Hok. unfold current_segment_path. rewrite (segments_dir_of max) by done.
  rewrite !map_app. cbn [map]. by rewrite last_snoc.
Qed.

Lemma next_of max segs x :
  segs_ok max (segs ++ [x]) -> (x.1 + 1 < 10 ^ 12)%Z ->
  next_segment_path (dir_of (segs ++ [x])) = segment_name (x.1 + 1).
Proof.
  intros Hok Hr. unfold next_segment_path. rewrite (segments_dir_of max) by done.
  pose proof (sk_sorted _ _ Hok) as S. pose proof (sk_index _ _ Hok) as I.
  rewrite segment_indices.
  - rewrite map_app in S |- *. cbn [map] in S |- *. rewrite (max_of_sorted _ _ S).
    f_equal. unfold u64_max. lia.
  - apply Forall_forall. intros i (y & -> & Hy)%list_elem_of_fmap. by eapply Forall_forall in I.
Qed.

Lemma dir_of_snoc segs i es :
  segment_name i ∉ map segment_name (map fst segs) ->
  dir_of (segs ++ [(i, es)]) = <[segment_name i := seg_content es]> (dir_of segs).
Proof.
  intros Hi. unfold dir_of. rewrite map_app. cbn.
  apply (list_to_map_snoc (M := gmap string)). by rewrite dir_names.
Qed.

Lemma last_name_fresh max segs x :
  segs_ok max (segs ++ [x]) -> segment_name x.1 ∉ map segment_name (map fst segs).
Proof.
  intros Hok. pose proof (seg_names_NoDup _ _ Hok) as N.
  rewrite !map_app in N. apply NoDup_app in N as (_ & N & _). cbn in N.
  intros Hx. apply (N _ Hx). by left.
Qed.

(** The sequence after an append. *)
Definition extends segs e segs' : Prop :=
  (exists i, segs' = (segs ++ [(i, [e])])%list /\
     (forall x, x ∈ segs -> (x.1 < i)%Z) /\
     forall n, (0 <= n)%Z -> (forall x, x ∈ segs -> (x.1 < n)%Z) -> (i <= n)%Z) \/
  exists pre i es, segs = (pre ++ [(i, es)])%list /\ segs' = (pre ++ [(i, es ++ [e])])%list.

Definition room (d : directory) : Prop :=
  forall i, segment_index (current_segment_path d) = Some i -> (i + 1 < 10 ^ 12)%Z.

Lemma segs_ok_snoc max segs i e :
  segs_ok max segs -> index_ok i -> (forall x, x ∈ segs -> (x.1 < i)%Z) ->
  segs_ok max (segs ++ [(i, [e])]).
Proof.
  intros [S I Z] Hi Hlt. constructor.
  - rewrite map_app. apply StronglySorted_app. split; [|split; [done|by repeat constructor]].
    intros a b (x & -> & Hx)%list_elem_of_fmap ->%list_elem_of_singleton. by apply Hlt.
  - apply Forall_app. split; [done|by apply Forall_singleton].
  - apply Forall_app. split; [done|by apply Forall_singleton].
Qed.

Lemma segs_ok_grow max pre i es e :
  segs_ok max (pre ++ [(i, es)]) -> (str_len (seg_content (es ++ [e])) <= max)%Z ->
  segs_ok max (pre ++ [(i, (es ++ [e])%list)]).
Proof.
  intros [S I Z] Hlen. constructor.
  - rewrite map_app in *. exact S.
  - apply Forall_app in I as [I1 I2]. apply Forall_app. split; [done|].
    inversion_clear I2. by apply Forall_singleton.
  - apply Forall_app in Z as [Z1 _]. apply Forall_app. split; [done|].
    constructor; [|constructor]. cbn [snd]. by destruct es as [|? [|]].
Qed.

Lemma append_segs max age e segs :
  segs_ok max segs -> room (dir_of segs) ->
  exists segs', segs_ok max segs' /\ append max age e (dir_of segs) = dir_of segs' /\
    extends segs e segs'.
Proof.
  intros Hok Hroom. destruct (decide (segs = [])) as [->|Hne].
  - exists [(0%Z, [e])]. split; [|split].
    + apply (segs_ok_snoc max [] 0 e Hok); [done|]. by intros ? ?%elem_of_nil.
    + unfold append.
      assert (current_segment_path (dir_of []) = segment_name 0) as -> by reflexivity.
      by assert (dir_of [] !! segment_name 0 = None) as -> by reflexivity.
    + left. exists 0%Z. split; [done|]. split; [by intros ? ?%elem_of_nil|done].
  - destruct (exists_last Hne) as (pre & [i es] & ->).
    pose proof (current_of _ _ _ Hok) as C. pose proof (last_name_fresh _ _ _ Hok) as Fr.
    assert (Ii : index_ok i).
    { by apply (seg_index_ok _ _ Hok (i, es)), elem_of_app; right; left. }
    assert (Hi : (i + 1 < 10 ^ 12)%Z).
    { apply Hroom. rewrite C. by apply segment_index_name. }
    assert (Content : dir_of (pre ++ [(i, es)]) !! segment_name i = Some (seg_content es)).
    { by apply (dir_of_lookup _ _ Hok (i, es)), elem_of_app; right; left. }
    unfold append. rewrite C. cbn [fst]. rewrite Content. cbn [default id].
    assert (Hlt : forall x, x ∈ (pre ++ [(i, es)])%list -> (x.1 < i + 1)%Z).
    { intros x [Hx| ->%list_elem_of_singleton]%elem_of_app; [|cbn; lia].
      pose proof (sk_sorted _ _ Hok) as S. rewrite map_app in S.
      apply (StronglySorted_app_1_elem_of _ _ _ x.1 i) in S;
        [lia| |by left]. apply list_elem_of_fmap. by exists x. }
    destruct (_ && _) eqn:B.
    + exists ((pre ++ [(i, es)]) ++ [((i + 1)%Z, [e])])%list.
      assert (Hok' : segs_ok max ((pre ++ [(i, es)]) ++ [((i + 1)%Z, [e])])).
      { apply segs_ok_snoc; [done| |done]. destruct Ii. split; lia. }
      split; [done|]. split; [|left; exists (i + 1)%Z; split_and!; [done|done|]].
      2: { intros n _ Hn. specialize (Hn (i, es) ltac:(set_solver)). cbn in Hn. lia. }
      rewrite (next_of max) by done. cbn [fst].
      pose proof (last_name_fresh _ _ _ Hok') as Fr'. cbn [fst] in Fr'.
      rewrite (dir_of_snoc _ (i + 1)) by done. f_equal.
      assert (N : dir_of (pre ++ [(i, es)]) !! segment_name (i + 1) = None).
      { apply not_elem_of_list_to_map_1. by rewrite dir_names. }
      by rewrite N.
    + exists (pre ++ [(i, (es ++ [e])%list)])%list. split; [|split].
      * apply segs_ok_grow; [done|]. rewrite seg_content_snoc, str_len_app.
        apply andb_false_iff in B as [B|B].
        -- pose proof (sk_size _ _ Hok) as Z. apply Forall_app in Z as [_ Z].
           inversion_clear Z as [|? ? Z' _]. cbn in Z'. apply Z.ltb_ge in B.
           destruct es as [|x es]; [done|].
           pose proof (seg_content_pos (x :: es) ltac:(done)). unfold id in B. lia.
        -- apply orb_false_iff in B as [B%Z.ltb_ge _]. exact B.
      * rewrite Content. cbn [default id]. rewrite !dir_of_snoc by done.
        etrans; [apply (insert_insert_eq (M := gmap string))|]. by rewrite seg_content_snoc.
      * right. by exists pre, i, es.
Qed.

(** ** Replaying *)

Fixpoint numbered (segment : string) (n : Z) (es : list LedgerEvent) : list LedgerRecord :=
  match es with
  | [] => []
  | e :: es => {| rec_segment := segment; rec_line_number := n; rec_event := e |}
               :: numbered segment (n + 1) es
  end.

Definition records_of segs : list LedgerRecord :=
  concat (map (fun x => numbered (segment_name x.1) 1 x.2) segs).

Lemma strip_cr_line e : strip_cr (event_line e) = event_line e.
Proof.
  unfold strip_cr. pose proof (line_no_cr e) as N. apply rsplit_once_None in N. by rewrite N.
Qed.

Lemma lines_content es : lines (seg_content es) = map event_line es.
Proof.
  unfold lines. induction es as [|e es IH]; [done|]. cbn [seg_content map].
  rewrite split_char_app by apply line_one_line. rewrite <- IH.
  pose proof (split_char_ne LF (seg_content es)).
  destruct (split_char LF (seg_content es)) as [|p ps] eqn:E; [done|].
  cbn [terminated]. by rewrite strip_cr_line.
Qed.

Lemma read_lines_content segment n es :
  read_lines segment n (map event_line es) = Ok (numbered segment n es).
Proof.
  revert n. induction es as [|e es IH]; intros n; [done|]. cbn [map read_lines numbered].
  by rewrite line_not_blank, line_roundtrip, IH.
Qed.

Lemma read_events_dir max segs :
  segs_ok max segs -> read_events (dir_of segs) = Ok (records_of segs).
Proof.
  intros Hok. unfold read_events. rewrite (segments_dir_of max) by done.
  assert (E : collect (fun segment => read_lines segment 1
      (lines (default "" (dir_of segs !! segment)))) (map segment_name (map fst segs))
    = Ok (map (fun x => numbered (segment_name x.1) 1 x.2) segs)); [|by rewrite E].
  apply collect_Forall2.
  assert (G : forall l, (forall x, x ∈ l -> x ∈ segs) -> Forall2 (fun x y =>
      read_lines x 1 (lines (default "" (dir_of segs !! x))) = Ok y)
      (map segment_name (map fst l)) (map (fun x => numbered (segment_name x.1) 1 x.2) l)).
  { induction l as [|x l IH]; intros Hl; [constructor|]. cbn. constructor.
    - rewrite (dir_of_lookup _ _ Hok) by (apply Hl; by left). cbn [default id].
      by rewrite lines_content, read_lines_content.
    - apply IH. intros y Hy. apply Hl. by right. }
  by apply G.
Qed.

Lemma numbered_app segment n es es' :
  numbered segment n (es ++ es')
  = (numbered segment n es ++ numbered segment (n + Z.of_nat (length es)) es')%list.
Proof.
  revert n. induction es as [|e es IH]; intros n; cbn [numbered app].
  - f_equal. cbn. lia.
  - rewrite IH. cbn [length]. do 3 f_equal. lia.
Qed.

Lemma records_extends segs e segs' :
  extends segs e segs' ->
  exists r, rec_event r = e /\ records_of segs' = (records_of segs ++ [r])%list.
Proof.
  unfold records_of. intros [(i & -> & _ & _)|(pre & i & es & -> & ->)].
  - rewrite map_app, concat_app. cbn. eexists. split; cycle 1; reflexivity.
  - rewrite !map_app, !concat_app. cbn. rewrite !app_nil_r, numbered_app. cbn.
    eexists. rewrite app_assoc. split; cycle 1; reflexivity.
Qed.

Lemma extends_prefix max segs e segs' name content :
  segs_ok max segs -> segs_ok max segs' -> extends segs e segs' ->
  dir_of segs !! name = Some content ->
  exists suffix, dir_of segs' !! name = Some (content ++ suffix) /\
    (suffix <> "" -> name = current_segment_path (dir_of segs)).
Proof.
  intros Hok Hok' Ex (x & Hx & -> & ->)%dir_of_inv.
  assert (Nil : forall s, s ++ "" = s).
  { induction s as [|c s IH]; [done|]. change (String c (s ++ "") = String c s). by rewrite IH. }
  destruct Ex as [(i & -> & _ & _)|(pre & i & es & -> & ->)].
  - exists "". rewrite (dir_of_lookup _ _ Hok' x) by set_solver. by rewrite Nil.
  - apply elem_of_app in Hx as [Hx| ->%list_elem_of_singleton].
    + exists "". rewrite (dir_of_lookup _ _ Hok' x) by set_solver. by rewrite Nil.
    + exists (event_line e ++ String LF ""). cbn [fst snd].
      pose proof (dir_of_lookup _ _ Hok' (i, (es ++ [e])%list) ltac:(set_solver)) as L.
      cbn [fst snd] in L. rewrite L, seg_content_snoc. split; [done|]. by rewrite (current_of max).
Qed.

(** ** The contract: the ledger is the list of its events *)

(** Appending a run of events, each with the age test's outcome at that time. *)
Definition append_all (max : Z) (l : list (bool * LedgerEvent)) (d : directory) : directory :=
  foldl (fun d x => append max x.1 x.2 d) d l.

(** The event that correction [c] names, read off its payload. *)
Definition corrects (c e : LedgerEvent) : bool :=
  String.eqb (ev_event_type c) "event.superseded" &&
  match ev_data c with
  | JObj fields =>
      match obj_get "superseded_event_id" fields, obj_get "old_event_id" fields with
      | Some (JStr id), _ => String.eqb (ev_event_id e) id
      | Some _, _ => false
      | None, Some (JStr id) => String.eqb (ev_event_id e) id
      | None, _ => false
      end
  | _ => false
  end.

Lemma corrects_spec r e :
  corrects (rec_event r) e
  = match superseded_id r with Some id => String.eqb (ev_event_id e) id | None => false end.
Proof.
  unfold corrects, superseded_id. destruct (String.eqb _ _); [|done]. cbn [andb].
  destruct (ev_data (rec_event r)) as [| | | | |fields]; try done. cbn.
  destruct (obj_get "superseded_event_id" fields) as [[]|]; try done.
  by destruct (obj_get "old_event_id" fields) as [[]|].
Qed.

Lemma superseded_existsb rs e :
  existsb (String.eqb (ev_event_id e)) (omap superseded_id rs)
  = existsb (fun r => corrects (rec_event r) e) rs.
Proof.
  induction rs as [|r rs IH]; [done|]. cbn [existsb]. rewrite corrects_spec, <- IH.
  change (omap superseded_id (r :: rs)) with
    (match superseded_id r with
     | Some y => y :: omap superseded_id rs
     | None => omap superseded_id rs
     end).
  by destruct (superseded_id r).
Qed.

Lemma resolve_events rs :
  map rec_event (resolve_superseded_events rs)
  = List.filter (fun e => negb (existsb (fun c => corrects c e) (map rec_event rs)))
      (map rec_event rs).
Proof.
  assert (X : forall all l,
    map rec_event (List.filter (fun r => negb (existsb (String.eqb (ev_event_id (rec_event r)))
      (omap superseded_id all))) l)
    = List.filter (fun e => negb (existsb (fun c => corrects c e) (map rec_event all)))
        (map rec_event l)).
  { intros all. induction l as [|r l IH]; [done|]. cbn [List.filter map].
    assert (existsb (fun c => corrects c (rec_event r)) (map rec_event all)
            = existsb (fun c => corrects (rec_event c) (rec_event r)) all) as ->.
    { clear IH. induction all as [|a all IH]; [done|]. cbn. by rewrite IH. }
    rewrite superseded_existsb.
    destruct (existsb _ _); cbn [negb map]; by rewrite IH. }
  apply X.
Qed.

Lemma append_all_segs max l :
  (Z.of_nat (length l) < 10 ^ 12)%Z ->
  exists segs, segs_ok max segs /\ append_all max l ∅ = dir_of segs /\
    (forall x, x ∈ segs -> (x.1 < Z.of_nat (length l))%Z) /\
    map rec_event (records_of segs) = map snd l.
Proof.
  induction l as [|[age e] l IH] using rev_ind; intros Hl.
  { exists []. split; [by constructor; constructor|]. split; [done|].
    split; [by intros ? ?%elem_of_nil|done]. }
  rewrite length_app in Hl. cbn in Hl.
  destruct IH as (segs & Hok & E & Hlt & R); [lia|].
  assert (room (dir_of segs)) as Hr.
  { intros i Hi. destruct (decide (segs = [])) as [->|Hne].
    - assert (current_segment_path (dir_of []) = segment_name 0) as C by reflexivity.
      rewrite C, segment_index_name in Hi by done. by simplify_eq.
    - destruct (exists_last Hne) as (pre & x & ->). rewrite (current_of _ _ _ Hok) in Hi.
      assert (x ∈ (pre ++ [x])%list) as Hx by set_solver.
      rewrite segment_index_name in Hi by (by eapply (seg_index_ok _ _ Hok)).
      simplify_eq. specialize (Hlt x Hx). lia. }
  destruct (append_segs max age e segs Hok Hr) as (segs' & Hok' & E' & Ex).
  exists segs'. split; [done|]. split.
  { unfold append_all in *. rewrite foldl_app, E. cbn. exact E'. }
  destruct (records_extends _ _ _ Ex) as (r & Er & Rr). split.
  - rewrite length_app. cbn. destruct Ex as [(i & -> & _ & Hi)|(pre & i & es & -> & ->)].
    + intros x [Hx| ->%list_elem_of_singleton]%elem_of_app; [specialize (Hlt x Hx); lia|].
      specialize (Hi (Z.of_nat (length l)) ltac:(lia) Hlt). cbn. lia.
    + intros x [Hx| ->%list_elem_of_singleton]%elem_of_app.
      * specialize (Hlt x ltac:(set_solver)). lia.
      * specialize (Hlt (i, es) ltac:(set_solver)). cbn in *. lia.
  - rewrite Rr, !map_app, R. cbn. by rewrite Er.
Qed.

Lemma append_all_read max l :
  (Z.of_nat (length l) < 10 ^ 12)%Z ->
  exists rs, read_events (append_all max l ∅) = Ok rs /\ map rec_event rs = map snd l.
Proof.
  intros Hl. destruct (append_all_segs max l Hl) as (segs & Hok & -> & _ & R).
  exists (records_of segs). by rewrite (read_events_dir max).
Qed.

(** C28. Replaying a ledger that was written from the start returns exactly the
    appended events in the order they were appended, however the segment limit
    and the segment ages split them over files; the resolved replay returns
    those of them no appended correction names. *)
Theorem ledger_replays_appends max l :
  (Z.of_nat (length l) < 10 ^ 12)%Z ->
  (exists rs, read_events (append_all max l ∅) = Ok rs /\ map rec_event rs = map snd l) /\
  exists rs, read_resolved_events (append_all max l ∅) = Ok rs /\
    map rec_event rs
    = List.filter (fun e => negb (existsb (fun c => corrects c e) (map snd l))) (map snd l).
Proof.
  intros Hl. destruct (append_all_read max l Hl) as (rs & E & R).
  unfold read_resolved_events. rewrite E. split.
  - by exists rs.
  - eexists. split; [done|]. by rewrite resolve_events, R.
Qed.

(** An append keeps the ledger well formed, never rewrites a byte: every
    file keeps its content as a prefix and only the current segment may grow;
    one record with the event is added at the end of the replay. *)
Theorem ledger_append_extends_replay max age e d :
  ledger_ok max d -> room d ->
  ledger_ok max (append max age e d) /\
  (forall name content, d !! name = Some content ->
     exists suffix, append max age e d !! name = Some (content ++ suffix) /\
       (suffix <> "" -> name = current_segment_path d)) /\
  exists rs r, read_events d = Ok rs /\ rec_event r = e /\
    read_events (append max age e d) = Ok (rs ++ [r])%list.
Proof.
  intros (segs & Hok & ->) Hroom.
  destruct (append_segs max age e segs Hok Hroom) as (segs' & Hok' & -> & Ex).
  destruct (records_extends _ _ _ Ex) as (r & Er & Rr). split_and!.
  - by exists segs'.
  - intros name content. by apply (extends_prefix max _ e).
  - exists (records_of segs), r. rewrite !(read_events_dir max) by done. by rewrite Rr.
Qed.
End Spec.

(** ** A concrete text form and two witnesses *)

Definition opt_str (o : option string) : json :=
  match o with Some s => JStr s | None => JNull end.
Definition str_opt (j : json) : option string := match j with JStr s => Some s | _ => None end.
Definition opt_num (o : option Z) : json := match o with Some n => JNum n | None => JNull end.
Definition num_opt (j : json) : option Z := match j with JNum n => Some n | _ => None end.
Lemma str_opt_str o : str_opt (opt_str o) = o. Proof. by destruct o. Qed.
Lemma num_opt_num o : num_opt (opt_num o) = o. Proof. by destruct o. Qed.

Definition event_json (e : LedgerEvent) : json :=
  JArr [ JNum (ev_schema_version e); JStr (ev_event_id e); JStr (ev_id e);
    JStr (ev_event_time e); JStr (ev_observed_at e); opt_num (ev_run_seq e);
    JStr (ev_event_type e); opt_str (ev_agent_id e); opt_str (ev_run_id e);
    opt_str (ev_session_id e); opt_str (ev_invocation_id e); opt_num (ev_generation e);
    opt_str (ev_provider e); opt_str (ev_runtime e); opt_str (ev_harness e);
    opt_str (ev_role e); JStr (ev_source e); JStr (ev_lifecycle_state e); ev_data e ].
Definition json_event (j : json) : option LedgerEvent :=
  match j with
  | JArr [JNum a; JStr b; JStr c; JStr d; JStr e; f; JStr g; h; i; j; k; l; m; n; o; p;
          JStr q; JStr r; s] =>
      Some (Build_LedgerEvent a b c d e (num_opt f) g (str_opt h) (str_opt i) (str_opt j)
              (str_opt k) (num_opt l) (str_opt m) (str_opt n) (str_opt o) (str_opt p) q r s)
  | _ => None
  end.
Lemma json_event_json e : json_event (event_json e) = Some e.
Proof. destruct e. cbn. by rewrite !str_opt_str, !num_opt_num. Qed.

Lemma bits_no_char c p :
  c <> "0"%char -> c <> "1"%char -> str_contains c (bits_of_pos p) = false.
Proof.
  intros H0 H1. induction p as [p IH|p IH|]; [| |done];
    cbn [bits_of_pos str_contains]; rewrite IH, orb_false_r; by apply Ascii.eqb_neq.
Qed.

Definition bits_ledger_text : LedgerText.
Proof.
  refine {| event_line e := String "b" (bits_of_pos (encode (event_json e)));
            parse_line s := match s with
                            | String _ s => j ← decode (pos_of_bits s); json_event j
                            | EmptyString => None
                            end |}.
  - intros e. rewrite pos_of_bits_of_pos, decode_encode. apply json_event_json.
  - intros e. cbn. by apply bits_no_char.
  - intros e. cbn. by apply bits_no_char.
  - intros e. reflexivity.
Defined.

Definition ev_a := new_event "a" "t" "guidance.batch.enqueued" None JNull.
Definition ev_b := new_event "b" "t" "agent.turn" (Some "root") (JBool true).
Definition ev_fix :=
  new_event "c" "t" "event.superseded" None (jobj [("old_event_id", JStr "a")]).

Lemma ledger_replays_appends_witness :
  (Z.of_nat (length [(false, ev_a); (true, ev_b); (false, ev_fix)]) < 10 ^ 12)%Z /\
  exists rs, @read_resolved_events bits_ledger_text
      (@append_all bits_ledger_text 1 [(false, ev_a); (true, ev_b); (false, ev_fix)] ∅) = Ok rs /\
    map rec_event rs = [ev_b; ev_fix].
Proof.
  split; [reflexivity|].
  destruct (@ledger_replays_appends bits_ledger_text 1
    [(false, ev_a); (true, ev_b); (false, ev_fix)] ltac:(reflexivity)) as (_ & rs & E & R).
  exists rs. split; [exact E|]. rewrite R. vm_compute. reflexivity.
Defined.

Lemma ledger_append_extends_replay_witness :
  @ledger_ok bits_ledger_text 1 (@append bits_ledger_text 1 false ev_b
    (@append bits_ledger_text 1 false ev_a ∅)).
Proof.
  refine (proj1 (@ledger_append_extends_replay bits_ledger_text 1 false ev_b
    (@append bits_ledger_text 1 false ev_a ∅) _ _)).
  - exists [(0%Z, [ev_a])]. split.
    + split.
      * repeat constructor.
      * by apply Forall_singleton.
      * by apply Forall_singleton.
    + apply (insert_empty (M := gmap string)).
  - unfold room. intros i H. assert (i = 0%Z) as ->; [|reflexivity].
    vm_compute in H. congruence.
Defined.
