(* ===== verification/EventLog.v ===== *)
(** * The event log and its sink health

    [services/event_log.rs]: one canonical ledger event and one line of the
    per-agent compatibility view per call, numbered by a counter file;
    [services/sink_health.rs]: the durable record of how the sink fares.  The
    files of one project are a record; the advisory and in-process locks make a
    call a function on it.  A step of file I/O that can fail is an outcome in
    [Faults]: a failed step changes nothing.  Clock and identifiers are
    arguments. *)

From stdpp Require Import gmap pretty.
From stdpp Require Import gmap pretty sorting.
From S2P Require Import Prelude RustStr JsonValue SqlTable Ledger LedgerSpec.

Local Open Scope string_scope.

Record SinkHealth := {
  sh_session_id : option string;
  sh_accepted_event_count : Z;
  sh_rejected_event_count : Z;
  sh_write_failure_count : Z;
  sh_last_successful_seq : option Z;
  sh_measurement_status : string;
  sh_last_error : option string;
  sh_updated_at : string
}.

Definition default_health (now : string) : SinkHealth := {|
  sh_session_id := None; sh_accepted_event_count := 0; sh_rejected_event_count := 0;
  sh_write_failure_count := 0; sh_last_successful_seq := None;
  sh_measurement_status := "unknown"; sh_last_error := None; sh_updated_at := now |}.

(** [.exo/sink-health.json]. *)
Inductive HealthFile :=
| HealthAbsent
| HealthUnparsable
| HealthStored (health : SinkHealth).

(** The files of a project that the log reads and writes. *)
Record Project := {
  segments_dir : directory;
  run_seq_file : option string;
  views : gmap string string;
  run_id_file : option string;
  session_file : option string;
  health_file : HealthFile
}.

(** What fails in a call, with the error's text. *)
Record Faults := {
  sequence_fault : option string;
  ledger_fault : option string;
  view_fault : option string;
  health_fault : option string
}.
Definition no_faults : Faults := {|
  sequence_fault := None; ledger_fault := None; view_fault := None; health_fault := None |}.

Definition with_segments (d : directory) (p : Project) : Project := {|
  segments_dir := d; run_seq_file := run_seq_file p; views := views p;
  run_id_file := run_id_file p; session_file := session_file p; health_file := health_file p |}.
Definition with_run_seq (v : option string) (p : Project) : Project := {|
  segments_dir := segments_dir p; run_seq_file := v; views := views p;
  run_id_file := run_id_file p; session_file := session_file p; health_file := health_file p |}.
Definition with_views (v : gmap string string) (p : Project) : Project := {|
  segments_dir := segments_dir p; run_seq_file := run_seq_file p; views := v;
  run_id_file := run_id_file p; session_file := session_file p; health_file := health_file p |}.
Definition with_health (h : HealthFile) (p : Project) : Project := {|
  segments_dir := segments_dir p; run_seq_file := run_seq_file p; views := views p;
  run_id_file := run_id_file p; session_file := session_file p; health_file := h |}.

(** ** Canonical payloads *)

(** [data.entry(k).or_insert_with(|| v)]. *)
Definition entry_or_insert (k : string) (v : json) (m : list (string * json))
  : list (string * json) :=
  match obj_get k m with Some _ => m | None => obj_insert k v m end.

Definition approved_kind (m : list (string * json)) : bool :=
  match k ← obj_get "kind" m; as_str k with
  | Some kind => String.eqb kind "approved" || String.eqb kind "reviewer_approved"
  | None => false
  end.

Definition canonical_review_wakeup_data (branch : string) (pr_number : Z) (head_sha : string)
    (payload : json) : json :=
  let data := match as_object payload with
              | Some m => m
              | None => [("payload", payload)]
              end in
  let data := entry_or_insert "branch" (JStr branch) data in
  let data := entry_or_insert "pr_number" (JNum pr_number) data in
  let data := entry_or_insert "head_sha" (JStr head_sha) data in
  JObj (if approved_kind data then entry_or_insert "findings" (JArr []) data else data).

Definition canonical_sibling_merged_data (merged_pr_number : Z)
    (merged_branch parent_branch : string) (head_sha : option string) (recipient : string)
    (recipient_pr_number : Z) (payload : json) : json :=
  jobj [ ("pr_number", JNum merged_pr_number); ("branch", JStr merged_branch);
         ("parent", JStr parent_branch); ("head_sha", jopt JStr head_sha);
         ("head_sha_finding", match head_sha with
                              | Some _ => JNull
                              | None => JStr "not_available_without_verified_pr_context"
                              end);
         ("recipient", JStr recipient); ("recipient_pr_number", JNum recipient_pr_number);
         ("payload", payload) ].

(** ** Sink health *)

Definition u64_saturating_add (a b : Z) : Z := Z.min u64_max (a + b).

Definition health_succeeded (run_seq : Z) (h : SinkHealth) : SinkHealth := {|
  sh_session_id := sh_session_id h;
  sh_accepted_event_count := u64_saturating_add (sh_accepted_event_count h) 1;
  sh_rejected_event_count := sh_rejected_event_count h;
  sh_write_failure_count := sh_write_failure_count h;
  sh_last_successful_seq := Some run_seq; sh_measurement_status := "complete";
  sh_last_error := None; sh_updated_at := sh_updated_at h |}.

Definition health_failed (error_hash : string) (h : SinkHealth) : SinkHealth := {|
  sh_session_id := sh_session_id h;
  sh_accepted_event_count := sh_accepted_event_count h;
  sh_rejected_event_count := u64_saturating_add (sh_rejected_event_count h) 1;
  sh_write_failure_count := u64_saturating_add (sh_write_failure_count h) 1;
  sh_last_successful_seq := sh_last_successful_seq h; sh_measurement_status := "partial";
  sh_last_error := Some error_hash; sh_updated_at := sh_updated_at h |}.

(** [update]: a health file that does not parse, or an I/O failure, is an error
    the callers only log. *)
Definition update_health (fault : option string) (now : string) (session_id : option string)
    (mutate : SinkHealth -> SinkHealth) (p : Project) : Project * result unit string :=
  match fault, health_file p with
  | Some e, _ => (p, Err e)
  | None, HealthUnparsable => (p, Err "parse sink-health.json")
  | None, file =>
      let health := match file with HealthStored h => h | _ => default_health now end in
      let health :=
        if bool_decide (sh_session_id health = session_id) then health
        else {| sh_session_id := session_id; sh_accepted_event_count := 0;
                sh_rejected_event_count := 0; sh_write_failure_count := 0;
                sh_last_successful_seq := None; sh_measurement_status := "unknown";
                sh_last_error := None; sh_updated_at := now |} in
      let h := mutate health in
      let h := {| sh_session_id := sh_session_id h;
                  sh_accepted_event_count := sh_accepted_event_count h;
                  sh_rejected_event_count := sh_rejected_event_count h;
                  sh_write_failure_count := sh_write_failure_count h;
                  sh_last_successful_seq := sh_last_successful_seq h;
                  sh_measurement_status := sh_measurement_status h;
                  sh_last_error := sh_last_error h; sh_updated_at := now |} in
      (with_health (HealthStored h) p, Ok tt)
  end.

Definition startup_status (session_id : option string) (p : Project) : string :=
  match health_file p with
  | HealthStored h =>
      if negb (bool_decide (sh_session_id h = session_id)) then "unknown"
      else if (0 <? sh_write_failure_count h)%Z then "partial" else "complete"
  | HealthAbsent | HealthUnparsable => "unknown"
  end.

(** ** Appending *)

Section EventLog.
Context `{LedgerText} `{JsonText} `{Sha256}.

(** [hash_error]. *)
Definition hash_error (error : string) : string := sha256_hex error.

Definition run_id (p : Project) : option string :=
  value ← run_id_file p;
  let value := str_trim value in
  if str_is_empty value then None else Some value.

Definition session_id (p : Project) : option string :=
  value ← session_file p;
  value ← json_from_string value;
  members ← as_object value;
  id ← obj_get "session_id" members;
  as_str id.

Definition string_field (value : json) (name : string) : option string :=
  members ← as_object value; v ← obj_get name members; as_str v.
Definition u64_field (value : json) (name : string) : option Z :=
  members ← as_object value; v ← obj_get name members; as_u64 v.

Definition record_failure (now error : string) (fault : option string) (p : Project) : Project :=
  (update_health fault now (session_id p) (health_failed (hash_error error)) p).1.
Definition record_success (now : string) (run_seq : Z) (fault : option string) (p : Project)
  : Project := (update_health fault now (session_id p) (health_succeeded run_seq) p).1.

(** The counter file; the new value replaces it by a rename.  The text of the
    parse error is not modelled. *)
Definition allocate_sequence (fault : option string) (p : Project)
  : result (Project * Z) string :=
  match fault with
  | Some e => Err e
  | None =>
      let? current :=
        match run_seq_file p with
        | Some value => option_context (parse_u64 (str_trim value)) "invalid run_seq"
        | None => Ok 0%Z
        end in
      if (current <? u64_max)%Z then
        Ok (with_run_seq (Some (pretty (current + 1)%Z)) p, (current + 1)%Z)
      else Err "run_seq exhausted"
  end.

(** The arguments of a call with what it reads from clock and identifiers. *)
Record LogCall := {
  call_faults : Faults;
  call_uuid : string;
  call_event_now : string;
  call_observed_at : string;
  call_event_type : string;
  call_agent_id : string;
  call_data : json
}.

Definition ledger_event (c : LogCall) (run_seq : Z) (p : Project) : LedgerEvent := {|
  ev_schema_version := 1;
  ev_event_id := call_uuid c;
  ev_id := call_uuid c;
  ev_event_time := default (call_event_now c) (string_field (call_data c) "event_time");
  ev_observed_at := call_observed_at c;
  ev_run_seq := Some run_seq;
  ev_event_type := call_event_type c;
  ev_agent_id := Some (call_agent_id c);
  ev_run_id := run_id p;
  ev_session_id := session_id p;
  ev_invocation_id := string_field (call_data c) "invocation_id";
  ev_generation := u64_field (call_data c) "generation";
  ev_provider := string_field (call_data c) "provider";
  ev_runtime := string_field (call_data c) "runtime";
  ev_harness := string_field (call_data c) "harness";
  ev_role := string_field (call_data c) "role";
  ev_source := default "rust" (string_field (call_data c) "source");
  ev_lifecycle_state := default "emitted" (string_field (call_data c) "lifecycle_state");
  ev_data := call_data c |}.

(** [agent_id.replace(['/', '\\', '\0'], "_")]. *)
Fixpoint sanitize_id (s : string) : string :=
  match s with
  | EmptyString => EmptyString
  | String c s' =>
      let unsafe := Ascii.eqb c "/" || Ascii.eqb c (ascii_of_nat 92) || Ascii.eqb c zero in
      String (if unsafe then "_"%char else c) (sanitize_id s')
  end.

Definition view_line (c : LogCall) : string :=
  json_to_string (jobj [ ("ts", JStr (call_observed_at c)); ("id", JStr (call_uuid c));
    ("type", JStr (call_event_type c)); ("agent_id", JStr (call_agent_id c));
    ("data", call_data c) ]) ++ String LF "".

Definition append_view (c : LogCall) (p : Project) : Project :=
  let path := sanitize_id (call_agent_id c) ++ ".jsonl" in
  with_views (<[path := default "" (views p !! path) ++ view_line c]> (views p)) p.

(** [append_with_seq]: the identifier and the sequence number, or the error. *)
Definition append_with_seq (c : LogCall) (p : Project) : Project * result (string * Z) string :=
  let fail e p := (record_failure (call_observed_at c) e (health_fault (call_faults c)) p, Err e) in
  match allocate_sequence (sequence_fault (call_faults c)) p with
  | Err e => fail e p
  | Ok (p, run_seq) =>
      match ledger_fault (call_faults c) with
      | Some e => fail e p
      | None =>
          let event := ledger_event c run_seq p in
          let p := with_segments
                     (append DEFAULT_SEGMENT_MAX_BYTES false event (segments_dir p)) p in
          match view_fault (call_faults c) with
          | Some e => fail e p
          | None =>
              let p := append_view c p in
              (record_success (call_observed_at c) run_seq (health_fault (call_faults c)) p,
               Ok (call_uuid c, run_seq))
          end
      end
  end.

Definition log_append (c : LogCall) (p : Project) : Project * result string string :=
  let '(p, r) := append_with_seq c p in
  (p, match r with Ok (event_id, _) => Ok event_id | Err e => Err e end).

Definition log_calls (calls : list LogCall) (p : Project) : Project :=
  fold_left (fun p c => (append_with_seq c p).1) calls p.
End EventLog.

(** * The event log: properties

    The ledger the log writes is the specification's list of committed events,
    numbered by the counter. *)

Local Open Scope string_scope.

Section Spec.
Context `{LedgerText} `{JsonText} `{Sha256}.
Implicit Types (c : LogCall) (calls : list LogCall) (p : Project).

(** A project whose log was never written. *)
Definition fresh_project (run_id session : option string) : Project := {|
  segments_dir := ∅; run_seq_file := None; views := ∅; run_id_file := run_id;
  session_file := session; health_file := HealthAbsent |}.

(** ** Specification *)

(** The counter after the calls: every call that could allocate a number. *)
Fixpoint counter (calls : list LogCall) (n : Z) : Z :=
  match calls with
  | [] => n
  | c :: rest =>
      match sequence_fault (call_faults c) with
      | Some _ => counter rest n
      | None => counter rest (n + 1)
      end
  end.

(** Identifier and number of every event that reaches the ledger, in order: a
    call that fails after allocating its number leaves a gap. *)
Fixpoint committed (calls : list LogCall) (n : Z) : list (string * Z) :=
  match calls with
  | [] => []
  | c :: rest =>
      match sequence_fault (call_faults c), ledger_fault (call_faults c) with
      | Some _, _ => committed rest n
      | None, Some _ => committed rest (n + 1)
      | None, None => (call_uuid c, (n + 1)%Z) :: committed rest (n + 1)
      end
  end.

Definition identity_of (e : LedgerEvent) : string * option Z := (ev_event_id e, ev_run_seq e).
Definition numbered_id (x : string * Z) : string * option Z := (x.1, Some x.2).

(** ** Refinement *)

Definition log_ok (n : Z) (l : list LedgerEvent) (p : Project) : Prop :=
  (0 <= n)%Z /\
  match run_seq_file p with Some v => v = pretty n | None => n = 0%Z end /\
  segments_dir p = append_all DEFAULT_SEGMENT_MAX_BYTES (map (pair false) l) ∅.

Lemma health_keeps fault now session mutate p :
  let p' := (update_health fault now session mutate p).1 in
  segments_dir p' = segments_dir p /\ run_seq_file p' = run_seq_file p.
Proof.
  unfold update_health. destruct fault; [done|]. by destruct (health_file p).
Qed.

Lemma append_all_snoc max l e d :
  append_all max (map (pair false) (l ++ [e])) d
  = append max false e (append_all max (map (pair false) l) d).
Proof. unfold append_all. by rewrite map_app, foldl_app. Qed.

(** One call: the result and what it adds. *)
Lemma append_step c n l p :
  log_ok n l p -> (n < u64_max)%Z ->
  exists added,
    log_ok (counter [c] n) (l ++ added) (append_with_seq c p).1 /\
    map identity_of added = map numbered_id (committed [c] n) /\
    (forall id seq, (append_with_seq c p).2 = Ok (id, seq) -> committed [c] n = [(id, seq)]).
Proof.
  intros (Hn & Hf & Hd) Hmax. unfold append_with_seq, allocate_sequence. cbn [counter committed].
  destruct (sequence_fault (call_faults c)) as [e|] eqn:Es.
  { exists []. rewrite app_nil_r. destruct (health_keeps (health_fault (call_faults c))
      (call_observed_at c) (session_id p) (health_failed (hash_error e)) p) as [E1 E2].
    split; [|done]. unfold log_ok, record_failure. cbn [fst]. by rewrite E1, E2. }
  assert (Cur : match run_seq_file p with
      | Some value => option_context (parse_u64 (str_trim value)) "invalid run_seq"
      | None => Ok 0%Z
      end = Ok n).
  { destruct (run_seq_file p) as [v|]; [subst v|by subst n]. by rewrite parse_trim_pretty by lia. }
  rewrite Cur. rewrite (proj2 (Z.ltb_lt _ _)) by done.
  set (p1 := with_run_seq _ p).
  destruct (ledger_fault (call_faults c)) as [e|] eqn:El.
  { exists []. rewrite app_nil_r. destruct (health_keeps (health_fault (call_faults c))
      (call_observed_at c) (session_id p1) (health_failed (hash_error e)) p1) as [E1 E2].
    split; [|done]. unfold log_ok, record_failure. cbn [fst]. rewrite E1, E2.
    split; [lia|by split]. }
  exists [ledger_event c (n + 1) p1]. set (p2 := with_segments _ p1).
  assert (Ok2 : log_ok (n + 1) (l ++ [ledger_event c (n + 1) p1]) p2).
  { split; [lia|]. split; [done|]. rewrite append_all_snoc, <- Hd. done. }
  destruct (view_fault (call_faults c)) as [e|] eqn:Ev; cbn [fst snd].
  - split; [|done]. unfold log_ok, record_failure.
    destruct (health_keeps (health_fault (call_faults c)) (call_observed_at c) (session_id p2)
      (health_failed (hash_error e)) p2) as [-> ->]. exact Ok2.
  - split; [|split; [done|by intros id seq [= <- <-]]]. unfold log_ok, record_success.
    set (p3 := append_view c p2).
    destruct (health_keeps (health_fault (call_faults c)) (call_observed_at c) (session_id p3)
      (health_succeeded (n + 1)) p3) as [-> ->]. exact Ok2.
Qed.

Lemma committed_app calls1 calls2 n :
  committed (calls1 ++ calls2) n = (committed calls1 n ++ committed calls2 (counter calls1 n))%list.
Proof.
  revert n. induction calls1 as [|c calls1 IH]; intros n; [done|]. cbn.
  destruct (sequence_fault _); [apply IH|]. destruct (ledger_fault _); [apply IH|].
  cbn. by rewrite IH.
Qed.

Lemma counter_app calls1 calls2 n :
  counter (calls1 ++ calls2) n = counter calls2 (counter calls1 n).
Proof.
  revert n. induction calls1 as [|c calls1 IH]; intros n; [done|]. cbn.
  destruct (sequence_fault _); apply IH.
Qed.

Lemma counter_range calls n : (n <= counter calls n <= n + Z.of_nat (length calls))%Z.
Proof.
  revert n. induction calls as [|c calls IH]; intros n; cbn [counter length]; [lia|].
  destruct (sequence_fault _); [specialize (IH n)|specialize (IH (n + 1)%Z)]; lia.
Qed.

Lemma log_calls_ok calls run_id session :
  (Z.of_nat (length calls) < 10 ^ 12)%Z ->
  exists l, log_ok (counter calls 0) l (log_calls calls (fresh_project run_id session)) /\
    map identity_of l = map numbered_id (committed calls 0) /\ (length l <= length calls)%nat.
Proof.
  induction calls as [|c calls IH] using rev_ind; intros Hl.
  { exists []. by repeat split. }
  rewrite length_app in Hl |- *. cbn [length] in Hl |- *.
  destruct IH as (l & Hok & Hid & Hlen); [lia|].
  pose proof (counter_range calls 0) as R.
  destruct (append_step c _ _ _ Hok) as (added & Hok' & Hid' & _); [unfold u64_max; lia|].
  exists (l ++ added)%list. rewrite counter_app, committed_app. unfold log_calls.
  rewrite fold_left_app. split; [exact Hok'|]. rewrite !map_app, Hid, Hid'. split; [done|].
  rewrite length_app. apply (f_equal length) in Hid'. rewrite !length_map in Hid'.
  assert (length (committed [c] (counter calls 0)) <= 1)%nat; [|lia].
  cbn. destruct (sequence_fault _); [cbn; lia|]. destruct (ledger_fault _); cbn; lia.
Qed.

Lemma sorted_insert_le (l : list Z) x :
  (forall y, y ∈ l -> (x <= y)%Z) -> sorted_insert Z.leb x l = x :: l.
Proof.
  destruct l as [|y l]; intros Hx; [done|]. cbn. specialize (Hx y ltac:(by left)).
  by rewrite (proj2 (Z.leb_le _ _)).
Qed.

Lemma insertion_sort_sorted_id (l : list Z) :
  StronglySorted Z.lt l -> insertion_sort Z.leb l = l.
Proof.
  induction 1 as [|x l Hs IH Hx]; [done|]. cbn. unfold insertion_sort in IH. rewrite IH.
  apply sorted_insert_le. intros y Hy. pose proof (proj1 (Forall_forall _ _) Hx y Hy) as L.
  cbn in L. lia.
Qed.

Lemma committed_sorted calls n :
  StronglySorted Z.lt (map snd (committed calls n)) /\
  Forall (fun s => n < s <= counter calls n)%Z (map snd (committed calls n)).
Proof.
  revert n. induction calls as [|c calls IH]; intros n; cbn [committed counter].
  { split; constructor. }
  destruct (sequence_fault _); [apply IH|].
  destruct (IH (n + 1)%Z) as [S F]. pose proof (counter_range calls (n + 1)) as R.
  destruct (ledger_fault _).
  - split; [done|]. eapply Forall_impl; [exact F|]. cbn. lia.
  - cbn [map snd]. split.
    + constructor; [done|]. eapply Forall_impl; [exact F|]. cbn. lia.
    + constructor; [cbn; lia|]. eapply Forall_impl; [exact F|]. cbn. lia.
Qed.

Lemma committed_contiguous calls n :
  (forall c, c ∈ calls -> ledger_fault (call_faults c) = None) ->
  (0 <= n)%Z -> (n + Z.of_nat (length calls) < u64_max)%Z ->
  contiguous (map snd (committed calls n)) = true /\
  forall s, head (map snd (committed calls n)) = Some s -> s = (n + 1)%Z.
Proof.
  revert n. induction calls as [|c calls IH]; intros n Hf Hn Hm; cbn [committed]; [done|].
  cbn [length] in Hm. destruct (sequence_fault _); [apply IH; [set_solver|lia|lia]|].
  rewrite (Hf c) by set_solver. destruct (IH (n + 1)%Z) as [C Hd]; [set_solver|lia|lia|].
  cbn [map snd head]. split; [|by intros s [= <-]].
  destruct (map snd (committed calls (n + 1))) as [|s l]; [done|].
  pose proof (Hd s eq_refl) as ->.
  change ((n + 1 + 1 =? Z.min u64_max (n + 1 + 1))%Z && contiguous ((n + 1 + 1)%Z :: l) = true).
  rewrite C, andb_true_r. apply Z.eqb_eq. lia.
Qed.

Lemma log_calls_app calls1 calls2 p :
  log_calls (calls1 ++ calls2) p = log_calls calls2 (log_calls calls1 p).
Proof. apply fold_left_app. Qed.

Lemma run_seqs rs x :
  map (fun r => identity_of (rec_event r)) rs = map numbered_id x ->
  omap (fun r => ev_run_seq (rec_event r)) rs = map snd x.
Proof.
  revert x. induction rs as [|r rs IH]; intros [|y x]; cbn [map]; try done.
  unfold identity_of, numbered_id at 1. intros [= _ E R].
  change (omap (fun r => ev_run_seq (rec_event r)) (r :: rs)) with
    (match ev_run_seq (rec_event r) with
     | Some s => s :: omap (fun r => ev_run_seq (rec_event r)) rs
     | None => omap (fun r => ev_run_seq (rec_event r)) rs
     end).
  rewrite E. cbn. by rewrite (IH x).
Qed.

End Spec.

(** ** A run *)

Definition log_text_digest : Sha256 := {| sha256_hex := fun v => v |}.

Definition call_ok (uuid : string) : LogCall := {|
  call_faults := no_faults; call_uuid := uuid; call_event_now := "t"; call_observed_at := "t";
  call_event_type := "agent.spawned"; call_agent_id := "feature/a"; call_data := JObj [] |}.
Definition call_lost (uuid : string) : LogCall := {|
  call_faults := {| sequence_fault := None; ledger_fault := Some "disk full"; view_fault := None;
                    health_fault := None |};
  call_uuid := uuid; call_event_now := "t"; call_observed_at := "t";
  call_event_type := "agent.spawned"; call_agent_id := "root"; call_data := JObj [] |}.


(** A lost ledger append leaves a gap the replay reports, and the health file
    says [partial] until the next success overwrites the status. *)
Example lost_append_is_partial :
  let log := log_calls (H := bits_ledger_text) (H0 := bits_json_text) (H1 := log_text_digest) in
  let p := log [call_ok "a"; call_lost "b"] (fresh_project None None) in
  let p' := log [call_ok "c"] p in
  match read_events (H := bits_ledger_text) (segments_dir p') with
  | Ok rs => sequence_status rs
  | Err e => e
  end = "partial" /\
  startup_status None p = "partial" /\ startup_status None p' = "partial" /\
  match health_file p, health_file p' with
  | HealthStored h, HealthStored h' =>
      sh_measurement_status h = "partial" /\ sh_measurement_status h' = "complete"
  | _, _ => False
  end.
Proof.
  vm_compute. repeat split.
Qed.
