(* ===== verification/Retention.v ===== *)
(** * Ledger retention

    [services/ledger_retention.rs]: closed segments older than a cutoff are
    audited in the surviving ledger and then removed.  A file name stands for
    its path in the segment directory. *)

From stdpp Require Import gmap pretty sorting.
From S2P Require Import Prelude RustStr JsonValue SqlTable Ledger EventLog LedgerSpec.

Local Open Scope string_scope.

Record SegmentDrop := {
  drop_path : string;
  drop_bytes : Z;
  drop_sha256 : string;
  drop_reason : string;
  drop_dropped : bool
}.

Section Retention.
Context `{LedgerText} `{JsonText} `{Sha256}.

Definition fingerprint (d : directory) (path : string) : SegmentDrop :=
  let bytes := default "" (d !! path) in
  {| drop_path := path; drop_bytes := str_len bytes; drop_sha256 := sha256_hex bytes;
     drop_reason := "retention policy"; drop_dropped := false |}.

(** [SystemTime::now().checked_sub(older_than).unwrap_or(UNIX_EPOCH)], in
    seconds of an [i64]. *)
Definition retention_cutoff (now older_than : Z) : Z :=
  if (i64_min <=? now - older_than)%Z then (now - older_than)%Z else 0%Z.

(** The closed segments whose modification time, if it can be read, is not
    after the cutoff. *)
Definition candidates (modified : string -> option Z) (cutoff : Z) (d : directory)
  : list SegmentDrop :=
  let segs := segments d in
  let current := last segs in
  map (fingerprint d)
    (List.filter (fun path => match modified path with
                              | Some m => (m <=? cutoff)%Z
                              | None => false
                              end)
       (List.filter (fun path => negb (bool_decide (Some path = current))) segs)).

Definition audit_data (c : SegmentDrop) : json :=
  jobj [ ("segment_path", JStr (drop_path c)); ("segment_sha256", JStr (drop_sha256 c));
         ("bytes", JNum (drop_bytes c)); ("reason", JStr (drop_reason c));
         ("crypto_shredded", JBool false) ].

(** What one turn of the loop reads and what fails in it. *)
Record DropEnv := {
  env_faults : Faults;
  env_uuid : string;
  env_now : string;
  env_observed_at : string;
  env_remove_fault : option string
}.

Definition audit_call (env : DropEnv) (c : SegmentDrop) : LogCall := {|
  call_faults := env_faults env; call_uuid := env_uuid env; call_event_now := env_now env;
  call_observed_at := env_observed_at env; call_event_type := "ledger.segment.dropped";
  call_agent_id := "retention"; call_data := audit_data c |}.

Definition mark_dropped (c : SegmentDrop) : SegmentDrop := {|
  drop_path := drop_path c; drop_bytes := drop_bytes c; drop_sha256 := drop_sha256 c;
  drop_reason := drop_reason c; drop_dropped := true |}.

Definition remove_file (path : string) (p : Project) : Project :=
  with_segments (delete path (segments_dir p)) p.

Fixpoint drop_loop (env : nat -> DropEnv) (i : nat) (cs : list SegmentDrop) (p : Project)
  : Project * result (list SegmentDrop) string :=
  match cs with
  | [] => (p, Ok [])
  | c :: rest =>
      match segments_dir p !! drop_path c with
      | None => drop_loop env (S i) rest p
      | Some _ =>
          match log_append (audit_call (env i) c) p with
          | (p, Err e) => (p, Err e)
          | (p, Ok _) =>
              match env_remove_fault (env i) with
              | Some e => (p, Err e)
              | None =>
                  let '(p, r) := drop_loop env (S i) rest (remove_file (drop_path c) p) in
                  (p, match r with
                      | Ok dropped => Ok (mark_dropped c :: dropped)
                      | Err e => Err e
                      end)
              end
          end
      end
  end.

Definition drop_expired_segments (env : nat -> DropEnv) (modified : string -> option Z)
    (now older_than : Z) (dry_run : bool) (p : Project)
  : Project * result (list SegmentDrop) string :=
  let cs := candidates modified (retention_cutoff now older_than) (segments_dir p) in
  match dry_run, cs with
  | true, _ | _, [] => (p, Ok cs)
  | false, _ => drop_loop env 0 cs p
  end.
End Retention.

(** * Ledger retention: properties

    Retention removes whole closed segments, each after an audit record of it
    is in the ledger, and leaves every other record alone. *)

Local Open Scope string_scope.

Section Spec.
Context `{LedgerText} `{JsonText} `{Sha256}.
Implicit Types (segs : list (Z * list LedgerEvent)) (c : SegmentDrop) (p : Project).
Notation max := DEFAULT_SEGMENT_MAX_BYTES.

(** ** Removing a closed segment *)

Definition without (i : Z) segs : list (Z * list LedgerEvent) :=
  List.filter (fun x => negb (x.1 =? i)%Z) segs.

Lemma elem_of_without i segs x : x ∈ without i segs <-> x ∈ segs /\ x.1 <> i.
Proof. unfold without. by rewrite elem_of_lfilter, negb_true_iff, Z.eqb_neq. Qed.

Lemma without_ok i segs : segs_ok max segs -> segs_ok max (without i segs).
Proof.
  intros [S I Z]. constructor.
  - clear -S. induction segs as [|x l IH]; [constructor|]. cbn in *.
    apply StronglySorted_inv in S as [S Hx]. destruct (negb _); [|by apply IH].
    cbn. constructor; [by apply IH|]. apply Forall_forall. intros j Hj.
    apply list_elem_of_fmap in Hj as (y & -> & Hy%elem_of_without).
    eapply Forall_forall in Hx; [exact Hx|]. apply list_elem_of_fmap. exists y. tauto.
  - apply Forall_forall. intros x [Hx _]%elem_of_without. by eapply Forall_forall in I.
  - apply Forall_forall. intros x [Hx _]%elem_of_without. by eapply Forall_forall in Z.
Qed.

Lemma without_dir i segs :
  segs_ok max segs -> index_ok i ->
  dir_of (without i segs) = delete (segment_name i) (dir_of segs).
Proof.
  intros Hok Hi. apply map_eq. intros name.
  destruct (decide (name = segment_name i)) as [->|Hne].
  - rewrite lookup_delete_eq. apply not_elem_of_list_to_map_1.
    rewrite dir_names. intros (j & E & (x & -> & Hx)%list_elem_of_fmap)%list_elem_of_fmap.
    apply elem_of_without in Hx as [Hx Hj]. apply Hj. symmetry.
    apply segment_name_inj; [done| |done]. by eapply (seg_index_ok _ _ Hok).
  - rewrite lookup_delete_ne by done.
    destruct (dir_of segs !! name) as [content|] eqn:E.
    + apply dir_of_inv in E as (x & Hx & -> & ->). apply (dir_of_lookup max).
      { by apply without_ok. }
      apply elem_of_without. split; [done|]. by intros <-.
    + apply not_elem_of_list_to_map_1. rewrite dir_names.
      intros (j & -> & (x & -> & Hx)%list_elem_of_fmap)%list_elem_of_fmap.
      apply elem_of_without in Hx as [Hx _]. by rewrite (dir_of_lookup _ _ Hok x Hx) in E.
Qed.

Lemma numbered_segment segment n es r : r ∈ numbered segment n es -> rec_segment r = segment.
Proof.
  revert n. induction es as [|e es IH]; intros n; cbn; [by intros ?%elem_of_nil|].
  intros [->|Hr]%elem_of_cons; [done|by apply (IH (n + 1)%Z)].
Qed.

(** The records not in segment [i]. *)
Definition outside (names : list string) (rs : list LedgerRecord) : list LedgerRecord :=
  List.filter (fun r => negb (existsb (String.eqb (rec_segment r)) names)) rs.

Lemma outside_app names rs1 rs2 :
  outside names (rs1 ++ rs2) = (outside names rs1 ++ outside names rs2)%list.
Proof. apply List.filter_app. Qed.

Lemma outside_cons names r rs :
  outside names (r :: rs)
  = if existsb (String.eqb (rec_segment r)) names then outside names rs
    else r :: outside names rs.
Proof. unfold outside. cbn [List.filter]. by destruct (existsb _ names). Qed.

Lemma outside_id names rs :
  (forall r, r ∈ rs -> rec_segment r ∉ names) -> outside names rs = rs.
Proof.
  intros Hr. apply forallb_filter_id, forallb_elem. intros r Hin.
  apply negb_true_iff. destruct (existsb _ _) eqn:E; [|done].
  apply existsb_elem in E as (n & Hn & <-%String.eqb_eq). by destruct (Hr r Hin).
Qed.

Lemma outside_none name rs : (forall r, r ∈ rs -> rec_segment r = name) -> outside [name] rs = [].
Proof.
  induction rs as [|r rs IH]; intros Hr; [done|]. cbn. rewrite (Hr r) by set_solver.
  rewrite String.eqb_refl. cbn. apply IH. set_solver.
Qed.

Lemma outside_outside n names rs : outside [n] (outside names rs) = outside (n :: names) rs.
Proof.
  induction rs as [|r rs IH]; [done|]. rewrite !(outside_cons _ r rs). cbn [existsb].
  destruct (existsb _ names); [by rewrite orb_true_r|]. rewrite outside_cons, orb_false_r, IH.
  cbn [existsb]. by rewrite orb_false_r.
Qed.

Lemma records_without i segs :
  segs_ok max segs -> index_ok i ->
  records_of (without i segs) = outside [segment_name i] (records_of segs).
Proof.
  intros Hok Hi. pose proof (sk_index _ _ Hok) as I. clear Hok. unfold records_of, without.
  induction segs as [|x l IH]; [done|]. inversion_clear I as [|? ? Ix Il]. cbn [List.filter map concat].
  rewrite outside_app, <- IH by done. destruct (Z.eqb_spec x.1 i) as [<-|Hne]; cbn [negb].
  - rewrite outside_none; [done|]. intros r. apply numbered_segment.
  - cbn [map concat]. f_equal. symmetry. apply outside_id. intros r ->%numbered_segment.
    intros E%list_elem_of_singleton. apply Hne. by apply segment_name_inj in E.
Qed.

(** ** One audit *)

(** A call adds its event to the ledger or leaves the segments alone; it adds
    it when it returns an identifier. *)
Lemma append_call_segments (c : LogCall) p :
  let '(p', r) := log_append c p in
  (segments_dir p' = segments_dir p /\ is_ok r = false) \/
  exists e, segments_dir p' = append max false e (segments_dir p) /\
    ev_event_type e = call_event_type c /\ ev_data e = call_data c.
Proof.
  unfold log_append, append_with_seq. destruct (allocate_sequence _ p) as [[p1 seq]|e] eqn:A.
  - assert (S1 : segments_dir p1 = segments_dir p).
    { unfold allocate_sequence in A. destruct (sequence_fault _); [done|].
      destruct (match run_seq_file p with Some _ => _ | None => _ end); [|done].
      destruct (_ <? _)%Z; [|done]. by injection A as <- _. }
    destruct (ledger_fault _) as [e|]; [|destruct (view_fault _) as [e|]].
    + left. split; [|done]. unfold record_failure. rewrite (proj1 (health_keeps _ _ _ _ p1)). done.
    + right. exists (ledger_event c seq p1). unfold record_failure.
      rewrite (proj1 (health_keeps _ _ _ _ _)). cbn. by rewrite S1.
    + right. exists (ledger_event c seq p1). unfold record_success.
      rewrite (proj1 (health_keeps _ _ _ _ _)). cbn. by rewrite S1.
  - left. split; [|done]. unfold record_failure. by rewrite (proj1 (health_keeps _ _ _ _ p)).
Qed.

(** The last index of a non-empty sequence bounds the room of its directory. *)
Lemma room_of segs bound :
  segs_ok max segs -> (forall x, x ∈ segs -> (x.1 < bound)%Z) -> (1 <= bound < 10 ^ 12)%Z ->
  room (dir_of segs).
Proof.
  intros Hok Hlt Hb i Hi. destruct (decide (segs = [])) as [->|Hne].
  - assert (current_segment_path (dir_of []) = segment_name 0) as C by reflexivity.
    rewrite C, segment_index_name in Hi by done. simplify_eq. lia.
  - destruct (exists_last Hne) as (pre & x & ->). rewrite (current_of _ _ _ Hok) in Hi.
    assert (Hx : x ∈ (pre ++ [x])%list) by set_solver.
    rewrite segment_index_name in Hi by (by eapply (seg_index_ok _ _ Hok)).
    simplify_eq. specialize (Hlt x Hx). lia.
Qed.

(** An appended event: its record is in the last segment. *)
Lemma append_records segs e L bound :
  segs_ok max segs -> (forall x, x ∈ segs -> (x.1 < bound)%Z) -> (1 <= bound < 10 ^ 12)%Z ->
  L ∈ map fst segs ->
  exists segs' r j, segs_ok max segs' /\ append max false e (dir_of segs) = dir_of segs' /\
    records_of segs' = (records_of segs ++ [r])%list /\ rec_event r = e /\
    rec_segment r = segment_name j /\ index_ok j /\ (L <= j)%Z /\
    (forall i, i ∈ map fst segs -> i ∈ map fst segs') /\
    forall x, x ∈ segs' -> (x.1 < bound + 1)%Z.
Proof.
  intros Hok Hlt Hb HL. pose proof (room_of _ _ Hok Hlt Hb) as Hroom.
  destruct (append_segs max false e segs Hok Hroom) as (segs' & Hok' & Ea & Ex).
  apply list_elem_of_fmap in HL as (y & -> & Hy).
  destruct Ex as [(i & -> & Hi & Hle)|(pre & i & es & -> & ->)].
  - exists (segs ++ [(i, [e])])%list.
    eexists {| rec_segment := segment_name i; rec_line_number := 1; rec_event := e |}, i.
    split; [done|]. split; [done|]. split.
    { unfold records_of. by rewrite map_app, concat_app. }
    split; [done|]. split; [done|].
    split; [apply (seg_index_ok _ _ Hok' (i, [e])); set_solver|].
    split; [specialize (Hi y Hy); lia|]. split; [intros k Hk; rewrite map_app; set_solver|].
    intros x [Hx| ->%list_elem_of_singleton]%elem_of_app; [specialize (Hlt x Hx); lia|].
    specialize (Hle bound ltac:(lia) Hlt). cbn. lia.
  - exists (pre ++ [(i, (es ++ [e])%list)])%list.
    eexists {| rec_segment := segment_name i;
               rec_line_number := 1 + Z.of_nat (length es); rec_event := e |}, i.
    split; [done|]. split; [done|]. split.
    { unfold records_of. rewrite !map_app, !concat_app. cbn. rewrite !app_nil_r, numbered_app.
      cbn. by rewrite app_assoc. }
    split; [done|]. split; [done|].
    split; [apply (seg_index_ok _ _ Hok (i, es)); set_solver|].
    split.
    { apply elem_of_app in Hy as [Hy| ->%list_elem_of_singleton]; [|cbn; lia].
      pose proof (sk_sorted _ _ Hok) as S. rewrite map_app in S.
      apply (StronglySorted_app_1_elem_of _ _ _ y.1 i) in S; [lia| |by left].
      apply list_elem_of_fmap. by exists y. }
    split; [by rewrite !map_app|].
    intros x [Hx| ->%list_elem_of_singleton]%elem_of_app.
    + specialize (Hlt x ltac:(set_solver)). lia.
    + specialize (Hlt (i, es) ltac:(set_solver)). cbn in *. lia.
Qed.

(** ** The loop *)

Definition audits (c : SegmentDrop) (r : LedgerRecord) : Prop :=
  ev_event_type (rec_event r) = "ledger.segment.dropped" /\ ev_data (rec_event r) = audit_data c.

(** What holds between turns: [removed] are gone, the rest of the original
    records and the audit records are there. *)
Record loop_inv (rs : list LedgerRecord) (L : Z) (bound : Z) (cs : list SegmentDrop)
    (removed : list string) (logged : list LedgerRecord) segs : Prop := {
  li_ok : segs_ok max segs;
  li_last : L ∈ map fst segs;
  li_bound : forall x, x ∈ segs -> (x.1 < bound)%Z;
  li_room : (1 <= bound)%Z /\ (bound + Z.of_nat (length cs) < 10 ^ 12)%Z;
  li_cands : forall c, c ∈ cs -> exists i, drop_path c = segment_name i /\ index_ok i /\
               (i < L)%Z /\ i ∈ map fst segs;
  li_once : NoDup (map drop_path cs);
  li_records : records_of segs = (outside removed rs ++ logged)%list;
  li_logged : Forall (fun r => exists j, rec_segment r = segment_name j /\ index_ok j /\ (L <= j)%Z)
                logged
}.

Lemma loop_inv_logged rs L bound c cs removed logged segs e :
  loop_inv rs L bound (c :: cs) removed logged segs ->
  exists segs' r, append max false e (dir_of segs) = dir_of segs' /\ rec_event r = e /\
    loop_inv rs L (bound + 1) cs removed (logged ++ [r]) segs' /\
    (exists i, drop_path c = segment_name i /\ index_ok i /\ (i < L)%Z /\ i ∈ map fst segs') /\
    drop_path c ∉ map drop_path cs.
Proof.
  intros [Ok La Bo [R1 R2] Ca On Re Lo]. cbn [length] in R2.
  destruct (append_records segs e L bound Ok Bo ltac:(lia) La)
    as (segs' & r & j & Ok' & Ea & Er & Ee & Es & Ij & Lj & Keep & Bo').
  exists segs', r. split; [done|]. split; [done|]. cbn [map] in On. apply NoDup_cons in On as [Nc On].
  split; [constructor; try done|split; [|done]].
  - by apply Keep.
  - lia.
  - intros c' Hc'. destruct (Ca c') as (i & Ei & Ii & Li & Ki); [by right|].
    exists i. split; [done|]. split; [done|]. split; [done|by apply Keep].
  - by rewrite Er, Re, app_assoc.
  - apply Forall_app. split; [done|]. apply Forall_singleton. by exists j.
  - destruct (Ca c) as (i & Ei & Ii & Li & Ki); [by left|]. exists i. repeat split; try done;
      [by apply Ii|by apply Ii|by apply Keep].
Qed.

Lemma loop_inv_removed rs L bound cs removed logged segs i :
  loop_inv rs L bound cs removed logged segs -> index_ok i -> (i < L)%Z ->
  segment_name i ∉ map drop_path cs ->
  loop_inv rs L bound cs (segment_name i :: removed) logged (without i segs).
Proof.
  intros [Ok La Bo Ro Ca On Re Lo] Ii Li Ni. constructor; try done.
  - by apply without_ok.
  - apply list_elem_of_fmap in La as (x & -> & Hx). apply list_elem_of_fmap. exists x.
    split; [done|]. apply elem_of_without. split; [done|lia].
  - intros x [Hx _]%elem_of_without. by apply Bo.
  - intros c Hc. destruct (Ca c Hc) as (k & Ek & Ik & Lk & Kk). exists k.
    repeat split; try done; [by apply Ik|by apply Ik|].
    apply list_elem_of_fmap in Kk as (x & -> & Hx). apply list_elem_of_fmap. exists x.
    split; [done|]. apply elem_of_without. split; [done|]. intros <-. apply Ni.
    apply list_elem_of_fmap. by exists c.
  - rewrite records_without, Re, outside_app, outside_outside by done. f_equal.
    apply outside_id. intros r Hr. eapply Forall_forall in Lo as (j & Ej & Ij & Lj); [|exact Hr].
    rewrite Ej. intros E%list_elem_of_singleton. apply segment_name_inj in E; [lia|done|done].
Qed.

Lemma loop_inv_stop rs L bound cs removed logged segs :
  loop_inv rs L bound cs removed logged segs -> loop_inv rs L bound [] removed logged segs.
Proof.
  intros [Ok La Bo [R1 R2] Ca On Re Lo].
  constructor; try done; [split; [done|cbn; lia]|by intros c ?%elem_of_nil|constructor].
Qed.

Definition outcome (rs : list LedgerRecord) (L : Z) (cs : list SegmentDrop)
    (removed : list string) (logged : list LedgerRecord) (p' : Project) (r : result (list SegmentDrop) string)
  : Prop :=
  exists segs' bound' removed' new,
    loop_inv rs L bound' [] removed' (logged ++ new) segs' /\ segments_dir p' = dir_of segs' /\
    (forall name, name ∈ removed' -> name ∈ removed \/
       exists c x, c ∈ cs /\ drop_path c = name /\ x ∈ new /\ audits c x) /\
    Forall (fun x => exists c, c ∈ cs /\ audits c x) new /\
    forall dropped, r = Ok dropped ->
      dropped = map mark_dropped cs /\ (forall c, c ∈ cs -> drop_path c ∈ removed') /\
      length new = length cs /\ (forall name, name ∈ removed -> name ∈ removed').

Lemma drop_loop_ok env i cs p rs L bound removed logged segs :
  loop_inv rs L bound cs removed logged segs -> segments_dir p = dir_of segs ->
  outcome rs L cs removed logged (drop_loop env i cs p).1 (drop_loop env i cs p).2.
Proof.
  revert i p bound removed logged segs.
  induction cs as [|c cs IH]; intros i p bound removed logged segs Inv Ed.
  { exists segs, bound, removed, []. rewrite app_nil_r. split; [done|]. split; [done|].
    split; [by left|]. split; [constructor|]. intros d [= <-]. split; [done|].
    split; [by intros c ?%elem_of_nil|done]. }
  cbn [drop_loop].
  destruct (li_cands _ _ _ _ _ _ _ Inv c) as (k & Ek & Ik & Lk & Kk); [by left|].
  assert (Here : exists content, segments_dir p !! drop_path c = Some content).
  { rewrite Ed, Ek. apply list_elem_of_fmap in Kk as (x & -> & Hx). eexists.
    apply (dir_of_lookup max); [exact (li_ok _ _ _ _ _ _ _ Inv)|done]. }
  destruct Here as [content ->].
  pose proof (append_call_segments (audit_call (env i) c) p) as A.
  destruct (log_append (audit_call (env i) c) p) as [p1 [uuid|e]].
  2: { (* the audit failed: the loop stops, nothing more is removed *)
    cbn [fst snd]. destruct A as [[Es _]|(ev & Es & Ty & Da)].
    - exists segs, bound, removed, []. rewrite app_nil_r. split; [by eapply loop_inv_stop|].
      split; [congruence|]. split; [by left|]. split; [constructor|done].
    - destruct (loop_inv_logged _ _ _ _ _ _ _ _ ev Inv) as (segs' & r & Ea & Er & Inv' & _ & _).
      exists segs', (bound + 1)%Z, removed, [r]. split; [by eapply loop_inv_stop|].
      split; [by rewrite Es, Ed|]. split; [by left|]. split; [|done].
      apply Forall_singleton. exists c. split; [by left|]. unfold audits. by rewrite Er. }
  destruct A as [[_ ?]|(ev & Es & Ty & Da)]; [done|].
  destruct (loop_inv_logged _ _ _ _ _ _ _ _ ev Inv)
    as (segs' & r & Ea & Er & Inv' & (k' & Ek' & _ & _ & Kk') & Nc).
  assert (Au : audits c r) by (unfold audits; by rewrite Er).
  destruct (env_remove_fault (env i)) as [e|]; cbn [fst snd].
  { exists segs', (bound + 1)%Z, removed, [r]. split; [by eapply loop_inv_stop|].
    split; [by rewrite Es, Ed|]. split; [by left|]. split; [|done].
    apply Forall_singleton. exists c. split; [by left|done]. }
  rewrite Ek in Nc. pose proof (loop_inv_removed _ _ _ _ _ _ _ _ Inv' Ik Lk Nc) as Inv2.
  destruct (IH (S i) (remove_file (drop_path c) p1) _ _ _ _ Inv2) as
    (segs2 & bound2 & removed2 & new & Inv3 & Ed3 & Hrem & Hnew & Hok).
  { unfold remove_file. cbn. rewrite Es, Ed, Ea, Ek.
    by rewrite without_dir by (try done; exact (li_ok _ _ _ _ _ _ _ Inv')). }
  destruct (drop_loop env (S i) cs _) as [p2 r2]. cbn [fst snd] in *.
  exists segs2, bound2, removed2, (r :: new). rewrite <- app_assoc in Inv3.
  split; [exact Inv3|]. split; [exact Ed3|]. split; [|split].
  - intros name Hn. destruct (Hrem name Hn) as [[->|Hr]%elem_of_cons|(c' & x & Hc & En & Hx & Ha)].
    + right. exists c, r. split; [by left|]. split; [done|]. split; [by left|done].
    + by left.
    + right. exists c', x. split; [by right|]. split; [done|]. split; [by right|done].
  - constructor; [exists c; split; [by left|done]|].
    eapply Forall_impl; [exact Hnew|]. intros x (c' & Hc & Ha). exists c'. split; [by right|done].
  - intros d Hd. destruct r2 as [dropped|]; [|done]. injection Hd as <-.
    destruct (Hok dropped eq_refl) as (-> & Hall & Hlen & Hkeep). cbn [map length].
    split; [done|]. split; [|split; [by rewrite Hlen|]].
    + intros c' [->|Hc]%elem_of_cons; [|by apply Hall]. rewrite Ek. apply Hkeep. by left.
    + intros name Hn. apply Hkeep. by right.
Qed.

Lemma candidates_spec modified cutoff segs L es pre :
  segs_ok max segs -> segs = (pre ++ [(L, es)])%list ->
  let cs := candidates modified cutoff (dir_of segs) in
  (forall c, c ∈ cs -> exists i, drop_path c = segment_name i /\ index_ok i /\ (i < L)%Z /\
     i ∈ map fst segs) /\ NoDup (map drop_path cs).
Proof.
  intros Hok Es. unfold candidates. rewrite (segments_dir_of max) by done.
  assert (Last : last (map segment_name (map fst segs)) = Some (segment_name L)).
  { rewrite Es, !map_app. cbn [map fst]. by rewrite last_snoc. }
  rewrite Last. split.
  - intros c (name & -> & Hn)%list_elem_of_fmap. apply elem_of_lfilter in Hn as [Hn _].
    apply elem_of_lfilter in Hn as [Hn Hne]. apply negb_true_iff, bool_decide_eq_false in Hne.
    apply list_elem_of_fmap in Hn as (i & -> & Hi). exists i. cbn. split; [done|].
    pose proof Hi as (x & -> & Hx)%list_elem_of_fmap.
    split; [by apply (seg_index_ok _ _ Hok)|]. split; [|done].
    rewrite Es in Hx. apply elem_of_app in Hx as [Hx|Hx%list_elem_of_singleton].
    + pose proof (sk_sorted _ _ Hok) as S. rewrite Es, map_app in S.
      apply (StronglySorted_app_1_elem_of _ _ _ x.1 L) in S; [done| |by left].
      apply list_elem_of_fmap. by exists x.
    + subst x. by destruct Hne.
  - rewrite map_map. cbn. rewrite map_id. apply NoDup_ListNoDup.
    do 2 apply List.NoDup_filter. apply NoDup_ListNoDup. by apply (seg_names_NoDup max).
Qed.

End Spec.

(** ** A run: the older of two segments is dropped *)

Definition two_segments : list (Z * list LedgerEvent) := [(0%Z, [ev_a]); (1%Z, [ev_b])].
Definition two_segment_project : Project := {|
  segments_dir := @dir_of bits_ledger_text two_segments; run_seq_file := Some "2";
  views := ∅; run_id_file := None; session_file := None; health_file := HealthAbsent |}.
Definition drop_env : nat -> DropEnv := fun _ => {|
  env_faults := no_faults; env_uuid := "audit"; env_now := "t"; env_observed_at := "t";
  env_remove_fault := None |}.
Definition always_old : string -> option Z := fun _ => Some 0%Z.

Definition retention_run (dry_run : bool) : Project * result (list SegmentDrop) string :=
  @drop_expired_segments bits_ledger_text bits_json_text log_text_digest drop_env always_old
    100 10 dry_run two_segment_project.

Example retention_run_drops_first :
  match (retention_run false).2 with Ok l => map drop_path l | Err _ => [] end
  = ["segment-000000000000.jsonl"] /\
  segments (segments_dir (retention_run false).1) = ["segment-000000000001.jsonl"] /\
  match read_events (H := bits_ledger_text) (segments_dir (retention_run false).1) with
  | Ok rs => map (fun r => ev_event_type (rec_event r)) rs
  | Err _ => []
  end = ["agent.turn"; "ledger.segment.dropped"].
Proof. vm_compute. repeat split. Qed.

Lemma two_segments_ok : @segs_ok bits_ledger_text DEFAULT_SEGMENT_MAX_BYTES two_segments.
Proof.
  split.
  - repeat constructor.
  - constructor; [done|]. by apply Forall_singleton.
  - constructor; [done|]. by apply Forall_singleton.
Qed.

Definition two_records : list LedgerRecord := @records_of two_segments.

