(* ===== verification/ExpectedEvents.v ===== *)
(** * Denominators of expected events

    [services/expected_events.rs]: for every rule of the contract, how many
    prerequisite events the ledger holds, how many of them found a required
    event of their own, and how many are missing.  A counter is bounded by the
    number of events, so it is kept as [Z] without wrap-around. *)

From S2P Require Import Prelude RustStr JsonValue SqlTable Ledger.

(** * The expected-event contract

    [docs/observability/expected-events.v1.json], which the binary includes and
    [load_contract] of [services/expected_events.rs] parses: one definition per
    rule.  Optional members that are absent have their [serde] defaults. *)

Local Open Scope string_scope.

Record ExpectedEventRule := {
  rule_id : string;
  prerequisite_event : string;
  required_event : string;
  allowed_delay_ms : option Z;
  allowed_window : option string;
  applicable_sources : list string;
  legacy_confidence_rule : string;
  denominator_effect : string;
  prerequisite_data : list (string * string);
  required_data : list (string * string);
  correlation_fields : list string
}.

Record ExpectedEventContract := {
  contract_id : string;
  contract_version : Z;
  contract_schema_version : Z;
  contract_unit : string;
  contract_rules : list ExpectedEventRule
}.

Definition rule_spawn_requires_invocation_start
  : ExpectedEventRule := {|
  rule_id := "spawn_requires_invocation_start";
  prerequisite_event := "agent.spawned";
  required_event := "agent.invocation.started";
  allowed_delay_ms := (Some 300000%Z);
  allowed_window := None;
  applicable_sources := ["rust"; "haskell"; "lifecycle"];
  legacy_confidence_rule := "Legacy rows count as exact only when source and agent identity are explicit; otherwise mark unknown.";
  denominator_effect := "Add one expected invocation-start event for each observed spawn transition.";
  prerequisite_data := [];
  required_data := [];
  correlation_fields := [] |}.

Definition rule_invocation_requires_finish
  : ExpectedEventRule := {|
  rule_id := "invocation_requires_finish";
  prerequisite_event := "agent.invocation.started";
  required_event := "agent.invocation.finished";
  allowed_delay_ms := None;
  allowed_window := (Some "until session termination or explicit abandonment");
  applicable_sources := ["lifecycle"];
  legacy_confidence_rule := "Legacy invocation rows without a terminal marker are unknown, not successful.";
  denominator_effect := "Add one expected invocation-finished event for each observed invocation start.";
  prerequisite_data := [];
  required_data := [];
  correlation_fields := [] |}.

Definition rule_task_budget_requires_typed_failure
  : ExpectedEventRule := {|
  rule_id := "task_budget_requires_typed_failure";
  prerequisite_event := "tl.slice_parked";
  required_event := "agent.task_budget_exceeded";
  allowed_delay_ms := None;
  allowed_window := (Some "until session termination or explicit reconciliation");
  applicable_sources := ["tl_loop"; "lifecycle"];
  legacy_confidence_rule := "A budget-caused park without the typed task-level event is unknown, not safely bounded.";
  denominator_effect := "Add one expected task-budget failure event for each budget-caused slice park.";
  prerequisite_data := [("park_cause", "task_budget_exceeded")];
  required_data := [];
  correlation_fields := [] |}.

Definition rule_task_blocked_requires_recovery_start
  : ExpectedEventRule := {|
  rule_id := "task_blocked_requires_recovery_start";
  prerequisite_event := "agent.task_blocked";
  required_event := "agent.recovery.started";
  allowed_delay_ms := None;
  allowed_window := (Some "until session termination or explicit abandonment");
  applicable_sources := ["haskell"; "tl_loop"; "lifecycle"];
  legacy_confidence_rule := "A blocked task without a recovery start is unknown, not an implementation failure.";
  denominator_effect := "Add one expected recovery-start event for each typed blocked task.";
  prerequisite_data := [];
  required_data := [];
  correlation_fields := ["slice_id"; "invocation_id"; "generation"] |}.

Definition rule_recovery_start_requires_one_outcome
  : ExpectedEventRule := {|
  rule_id := "recovery_start_requires_one_outcome";
  prerequisite_event := "agent.recovery.started";
  required_event := "agent.recovery.outcome";
  allowed_delay_ms := None;
  allowed_window := (Some "until session termination or explicit abandonment");
  applicable_sources := ["tl_loop"; "lifecycle"];
  legacy_confidence_rule := "Multiple outcomes for one invocation generation are contradictory and excluded from aggregate rates.";
  denominator_effect := "Add one expected recovery outcome per invocation generation.";
  prerequisite_data := [];
  required_data := [];
  correlation_fields := ["slice_id"; "invocation_id"; "generation"] |}.

Definition rule_parent_notification_requires_delivery
  : ExpectedEventRule := {|
  rule_id := "parent_notification_requires_delivery";
  prerequisite_event := "agent.notify_parent";
  required_event := "message.delivery";
  allowed_delay_ms := (Some 300000%Z);
  allowed_window := None;
  applicable_sources := ["rust"; "haskell"];
  legacy_confidence_rule := "Legacy parent notifications without a transport outcome are unknown.";
  denominator_effect := "Add one expected delivery attempt for each observed parent notification.";
  prerequisite_data := [];
  required_data := [];
  correlation_fields := [] |}.

Definition rule_delivery_requires_consumption_observation
  : ExpectedEventRule := {|
  rule_id := "delivery_requires_consumption_observation";
  prerequisite_event := "message.delivery";
  required_event := "message.consumed";
  allowed_delay_ms := None;
  allowed_window := (Some "until inbox expiration, abandonment, or session termination");
  applicable_sources := ["rust"; "sqlite"];
  legacy_confidence_rule := "Legacy delivery rows without an inbox consumer are unknown.";
  denominator_effect := "Add one expected consumption observation for each durable delivery attempt.";
  prerequisite_data := [];
  required_data := [];
  correlation_fields := [] |}.

Definition rule_guidance_enqueue_requires_acceptance_or_abandonment
  : ExpectedEventRule := {|
  rule_id := "guidance_enqueue_requires_acceptance_or_abandonment";
  prerequisite_event := "inbox.state_changed";
  required_event := "message.consumed/agent_inbox.messages_abandoned";
  allowed_delay_ms := None;
  allowed_window := (Some "until acceptance, explicit abandonment, cancellation, or session termination");
  applicable_sources := ["rust"; "sqlite"];
  legacy_confidence_rule := "A durable guidance enqueue without same-batch acceptance or explicit abandonment remains pending or unknown; a transport write alone is not success.";
  denominator_effect := "Add one expected terminal guidance outcome for each observed durable enqueue.";
  prerequisite_data := [("operation", "enqueue")];
  required_data := [];
  correlation_fields := ["batch_id"] |}.

Definition rule_park_requires_gate_or_terminal
  : ExpectedEventRule := {|
  rule_id := "park_requires_gate_or_terminal";
  prerequisite_event := "tl.slice_parked";
  required_event := "tl.gate_opened/tl.phase_changed";
  allowed_delay_ms := None;
  allowed_window := (Some "until gate opening, terminal phase, or session termination");
  applicable_sources := ["tl_loop"];
  legacy_confidence_rule := "A parked slice without a gate opening or terminal run outcome is unknown, not safely parked.";
  denominator_effect := "Add one expected gate-opening or terminal-outcome observation for each observed slice park.";
  prerequisite_data := [];
  required_data := [];
  correlation_fields := [] |}.

Definition rule_gate_opened_requires_answer
  : ExpectedEventRule := {|
  rule_id := "gate_opened_requires_answer";
  prerequisite_event := "tl.gate_opened";
  required_event := "tl.gate_answered";
  allowed_delay_ms := None;
  allowed_window := (Some "until answer, cancellation, or session termination");
  applicable_sources := ["tl_loop"];
  legacy_confidence_rule := "An opened human gate without an answer remains pending or unknown; elapsed time is part of the denominator.";
  denominator_effect := "Add one expected gate answer for each observed gate opening and measure answer latency until resolution.";
  prerequisite_data := [];
  required_data := [];
  correlation_fields := ["gate_name"] |}.

Definition rule_merge_decision_requires_pr_outcome
  : ExpectedEventRule := {|
  rule_id := "merge_decision_requires_pr_outcome";
  prerequisite_event := "tl.merge_decided";
  required_event := "pr.merged/pr.merge_failed";
  allowed_delay_ms := None;
  allowed_window := (Some "until merge outcome, cancellation, or session termination");
  applicable_sources := ["tl_loop"; "rust"; "haskell"; "watcher"];
  legacy_confidence_rule := "A merge decision without a correlated PR outcome is unknown, not delivered.";
  denominator_effect := "Add one expected PR merge outcome for each tl.merge_decided event whose decision is merge.";
  prerequisite_data := [("decision", "merge")];
  required_data := [];
  correlation_fields := ["pr_number"] |}.

Definition rule_judgment_failure_requires_retry_or_park
  : ExpectedEventRule := {|
  rule_id := "judgment_failure_requires_retry_or_park";
  prerequisite_event := "tl.judgment";
  required_event := "tl.judgment/tl.slice_parked";
  allowed_delay_ms := None;
  allowed_window := (Some "until a further judgment attempt, park, cancellation, or session termination");
  applicable_sources := ["tl_loop"];
  legacy_confidence_rule := "A failed judgment without a subsequent attempt or explicit park is unknown, not recovered.";
  denominator_effect := "Add one expected retry-or-park outcome for each failed tl.judgment.";
  prerequisite_data := [("outcome", "failure")];
  required_data := [];
  correlation_fields := [] |}.

Definition rule_published_pr_requires_observation
  : ExpectedEventRule := {|
  rule_id := "published_pr_requires_observation";
  prerequisite_event := "pr.published";
  required_event := "watcher.pr_observation";
  allowed_delay_ms := (Some 600000%Z);
  allowed_window := None;
  applicable_sources := ["rust"; "watcher"];
  legacy_confidence_rule := "Legacy PR rows without watcher identity remain unknown.";
  denominator_effect := "Add one expected PR observation for each eligible published PR.";
  prerequisite_data := [];
  required_data := [];
  correlation_fields := [] |}.

Definition rule_published_pr_requires_review_current_head
  : ExpectedEventRule := {|
  rule_id := "published_pr_requires_review_current_head";
  prerequisite_event := "pr.published";
  required_event := "pr.review";
  allowed_delay_ms := (Some 600000%Z);
  allowed_window := None;
  applicable_sources := ["rust"; "watcher"];
  legacy_confidence_rule := "A published PR without a review carrying the same PR and verified head is unknown, not reviewed.";
  denominator_effect := "Add one expected current-head review observation for each published PR.";
  prerequisite_data := [];
  required_data := [];
  correlation_fields := ["pr_number"; "head_sha"] |}.

Definition rule_head_change_requires_ci_status_current_head
  : ExpectedEventRule := {|
  rule_id := "head_change_requires_ci_status_current_head";
  prerequisite_event := "pr.updated";
  required_event := "ci.status_changed";
  allowed_delay_ms := (Some 600000%Z);
  allowed_window := None;
  applicable_sources := ["rust"; "watcher"];
  legacy_confidence_rule := "A head update without a CI status carrying the same PR and verified head is unknown, not green.";
  denominator_effect := "Add one expected current-head CI observation for each PR head update.";
  prerequisite_data := [];
  required_data := [];
  correlation_fields := ["pr_number"; "head_sha"] |}.

Definition rule_merge_request_requires_approved_current_head
  : ExpectedEventRule := {|
  rule_id := "merge_request_requires_approved_current_head";
  prerequisite_event := "pr.merge_requested";
  required_event := "pr.review";
  allowed_delay_ms := None;
  allowed_window := (Some "until merge outcome, cancellation, or session termination");
  applicable_sources := ["rust"; "haskell"; "watcher"];
  legacy_confidence_rule := "A merge request without an approved review for the exact requested head is unknown and unsafe.";
  denominator_effect := "Add one expected exact-head approval for each merge request.";
  prerequisite_data := [];
  required_data := [("kind", "approved")];
  correlation_fields := ["pr_number"; "head_sha"] |}.

Definition rule_merge_request_requires_passing_ci_current_head
  : ExpectedEventRule := {|
  rule_id := "merge_request_requires_passing_ci_current_head";
  prerequisite_event := "pr.merge_requested";
  required_event := "ci.status_changed";
  allowed_delay_ms := None;
  allowed_window := (Some "until merge outcome, cancellation, or session termination");
  applicable_sources := ["rust"; "watcher"];
  legacy_confidence_rule := "A merge request without passing CI for the exact requested head is unknown and unsafe.";
  denominator_effect := "Add one expected passing exact-head CI observation for each merge request.";
  prerequisite_data := [];
  required_data := [("status", "success")];
  correlation_fields := ["pr_number"; "head_sha"] |}.

Definition rule_merge_request_requires_merge_outcome
  : ExpectedEventRule := {|
  rule_id := "merge_request_requires_merge_outcome";
  prerequisite_event := "pr.merge_requested";
  required_event := "pr.merged";
  allowed_delay_ms := None;
  allowed_window := (Some "until merge failure, cancellation, or session termination");
  applicable_sources := ["rust"; "haskell"; "watcher"];
  legacy_confidence_rule := "A legacy merge request without an explicit outcome is unknown.";
  denominator_effect := "Add one expected merge outcome for each observed merge request.";
  prerequisite_data := [];
  required_data := [];
  correlation_fields := [] |}.

Definition CONTRACT : ExpectedEventContract := {|
  contract_id := "exomonad.expected-events";
  contract_version := 1;
  contract_schema_version := 1;
  contract_unit := "session";
  contract_rules := [rule_spawn_requires_invocation_start;
    rule_invocation_requires_finish;
    rule_task_budget_requires_typed_failure;
    rule_task_blocked_requires_recovery_start;
    rule_recovery_start_requires_one_outcome;
    rule_parent_notification_requires_delivery;
    rule_delivery_requires_consumption_observation;
    rule_guidance_enqueue_requires_acceptance_or_abandonment;
    rule_park_requires_gate_or_terminal;
    rule_gate_opened_requires_answer;
    rule_merge_decision_requires_pr_outcome;
    rule_judgment_failure_requires_retry_or_park;
    rule_published_pr_requires_observation;
    rule_published_pr_requires_review_current_head;
    rule_head_change_requires_ci_status_current_head;
    rule_merge_request_requires_approved_current_head;
    rule_merge_request_requires_passing_ci_current_head;
    rule_merge_request_requires_merge_outcome] |}.

Local Open Scope string_scope.

Record DenominatorRow := {
  row_rule_id : string;
  row_expected : Z;
  row_observed : Z;
  row_missing : Z
}.

Record DenominatorReport := {
  report_contract_id : string;
  report_contract_version : Z;
  report_completeness_status : string;
  report_rows : list DenominatorRow
}.

Record EventObservation := {
  obs_session_id : option string;
  obs_event_type : string;
  obs_run_seq : option Z;
  obs_data : json
}.

(** [event.data.get(field)]: only an object has members. *)
Definition obs_field (e : EventObservation) (field : string) : option json :=
  members ← as_object (obs_data e); obj_get field members.

(** [required.split(['/', '|'])]. *)
Fixpoint split_alternatives (s : string) : list string :=
  match s with
  | EmptyString => [EmptyString]
  | String a s' =>
      if Ascii.eqb a "/" || Ascii.eqb a "|" then EmptyString :: split_alternatives s'
      else match split_alternatives s' with
           | p :: ps => String a p :: ps
           | [] => [String a EmptyString]
           end
  end.

Definition required_matches (required event_type : string) : bool :=
  existsb (fun candidate => String.eqb candidate event_type) (split_alternatives required).

Definition same_session (left right : EventObservation) : bool :=
  bool_decide (obs_session_id left = obs_session_id right).

(** [event.data.get(field).and_then(as_str).is_some_and(|actual| actual == value)]. *)
Definition field_is (e : EventObservation) (fv : string * string) : bool :=
  match v ← obs_field e fv.1; as_str v with
  | Some actual => String.eqb actual fv.2
  | None => false
  end.

Definition event_data_matches (e : EventObservation) (expected : list (string * string)) : bool :=
  forallb (field_is e) expected.

Definition required_data_matches (rule : ExpectedEventRule)
    (prerequisite required : EventObservation) : bool :=
  if negb (forallb (field_is required) (required_data rule)) then false
  else forallb (fun field =>
         bool_decide (is_Some (obs_field prerequisite field)) &&
         bool_decide (obs_field prerequisite field = obs_field required field))
         (correlation_fields rule).

(** The test of the inner [find], without the set of matched indices. *)
Definition satisfies (rule : ExpectedEventRule) (prerequisite required : EventObservation) : bool :=
  same_session prerequisite required
  && required_matches (required_event rule) (obs_event_type required)
  && required_data_matches rule prerequisite required.

Definition is_prerequisite (rule : ExpectedEventRule) (e : EventObservation) : bool :=
  String.eqb (obs_event_type e) (prerequisite_event rule)
  && event_data_matches e (prerequisite_data rule).

(** [events.iter().enumerate().find(..)]. *)
Fixpoint find_required (ok : EventObservation -> bool) (matched : list nat) (index : nat)
    (events : list EventObservation) : option nat :=
  match events with
  | [] => None
  | e :: rest =>
      if negb (existsb (Nat.eqb index) matched) && ok e then Some index
      else find_required ok matched (S index) rest
  end.

(** The loop over the prerequisites: expected, observed. *)
Fixpoint count_matches (rule : ExpectedEventRule) (events : list EventObservation)
    (matched : list nat) (prerequisites : list EventObservation) : Z * Z :=
  match prerequisites with
  | [] => (0, 0)%Z
  | p :: rest =>
      match find_required (satisfies rule p) matched 0 events with
      | Some index =>
          let '(expected, observed) := count_matches rule events (index :: matched) rest in
          (expected + 1, observed + 1)%Z
      | None =>
          let '(expected, observed) := count_matches rule events matched rest in
          (expected + 1, observed)%Z
      end
  end.

Definition reconcile_rule (events : list EventObservation) (rule : ExpectedEventRule)
  : DenominatorRow :=
  let prerequisites := List.filter (is_prerequisite rule) events in
  let '(expected, observed) := count_matches rule events [] prerequisites in
  {| row_rule_id := rule_id rule; row_expected := expected; row_observed := observed;
     row_missing := Z.max 0 (expected - observed) |}.

Definition sequence_status_for_events (events : list EventObservation) : string :=
  let sequences := omap obs_run_seq events in
  match sequences with
  | [] => "unknown"
  | _ => if contiguous (insertion_sort Z.leb sequences) then "complete" else "partial"
  end.

Definition completeness (sequence_status : string) (rows : list DenominatorRow) : string :=
  if String.eqb sequence_status "unknown" then "unknown"
  else if String.eqb sequence_status "partial" then "partial"
  else if String.eqb sequence_status "complete"
          && existsb (fun row => (0 <? row_missing row)%Z) rows then "partial"
  else "complete".

(** The contract parses, so [reconcile_events] returns. *)
Definition reconcile_events (events : list EventObservation) : DenominatorReport :=
  let rows := map (reconcile_rule events) (contract_rules CONTRACT) in
  {| report_contract_id := contract_id CONTRACT;
     report_contract_version := contract_version CONTRACT;
     report_completeness_status := completeness (sequence_status_for_events events) rows;
     report_rows := rows |}.

Definition observation_of (r : LedgerRecord) : EventObservation := {|
  obs_session_id := ev_session_id (rec_event r);
  obs_event_type := ev_event_type (rec_event r);
  obs_run_seq := ev_run_seq (rec_event r);
  obs_data := ev_data (rec_event r) |}.

Definition reconcile (records : list LedgerRecord) : DenominatorReport :=
  reconcile_events (map observation_of records).
