(* ===== verification/ExpectedEventsSpec.v ===== *)
(** * Denominators of expected events: properties

    The greedy search of [reconcile_events] computes a maximum matching of
    prerequisites with required events, and what that says of a rule that its
    own prerequisite satisfies. *)

From S2P Require Import Prelude RustStr JsonValue SqlTable Ledger ExpectedEvents.
Local Open Scope string_scope.

Implicit Types (events prerequisites : list EventObservation) (rule : ExpectedEventRule).

(** ** Matchings *)

(** [assignment] gives each prerequisite at most one index of [events], no index
    twice and none of [taken]. *)
Record matching (rule : ExpectedEventRule) events (taken : list nat) prerequisites
    (assignment : list (option nat)) : Prop := {
  m_ok : Forall2 (fun p o => forall j, o = Some j ->
           exists e, events !! j = Some e /\ satisfies rule p e = true) prerequisites assignment;
  m_once : NoDup (omap id assignment);
  m_free : forall j, j ∈ omap id assignment -> j ∉ taken
}.

Definition size (assignment : list (option nat)) : Z := Z.of_nat (length (omap id assignment)).

Lemma omap_id_cons (o : option nat) assignment :
  omap id (o :: assignment)
  = match o with Some j => j :: omap id assignment | None => omap id assignment end.
Proof. by destruct o. Qed.

Lemma size_le assignment : (size assignment <= Z.of_nat (length assignment))%Z.
Proof.
  unfold size. induction assignment as [|o l IH]; [done|]. rewrite omap_id_cons.
  destruct o; cbn [length]; lia.
Qed.

Lemma find_required_Some ok matched index events i :
  find_required ok matched index events = Some i ->
  exists k e, i = (index + k)%nat /\ events !! k = Some e /\ ok e = true /\ i ∉ matched.
Proof.
  revert index. induction events as [|e events IH]; intros index; [done|]. cbn.
  destruct (negb _ && ok e) eqn:B.
  - intros [= <-]. apply andb_true_iff in B as [N O]. exists 0, e.
    split; [lia|]. split; [done|]. split; [done|]. intros Hin.
    apply negb_true_iff in N. pose proof (proj1 (existsb_false _ _) N _ Hin) as Ne. cbn in Ne.
    by rewrite Nat.eqb_refl in Ne.
  - intros (k & e' & -> & L & O & F)%IH. exists (S k), e'. split; [lia|]. by split.
Qed.

Lemma find_required_None ok matched index events k e :
  find_required ok matched index events = None -> events !! k = Some e -> ok e = true ->
  (index + k)%nat ∈ matched.
Proof.
  revert index k. induction events as [|x events IH]; intros index k; [done|]. cbn.
  destruct (negb _ && ok x) eqn:B; [done|]. intros F L O. destruct k as [|k].
  - cbn in L. injection L as ->. rewrite O, andb_true_r in B.
    apply negb_false_iff in B.
    apply (proj1 (existsb_elem _ _)) in B as (i & Hi & <-%Nat.eqb_eq). by rewrite Nat.add_0_r.
  - specialize (IH _ k F L O). by replace (index + S k)%nat with (S index + k)%nat by lia.
Qed.

(** Two prerequisites that share a required event have the same ones: both
    carry its session and its correlation values. *)
Lemma satisfies_shared rule p q x y :
  satisfies rule p x = true -> satisfies rule q x = true -> satisfies rule p y = true ->
  satisfies rule q y = true.
Proof.
  unfold satisfies, same_session, required_data_matches. intros Px Qx Py.
  destruct (forallb (field_is x) (required_data rule)); cbn [negb] in *;
    [|by rewrite !andb_false_r in Px].
  destruct (forallb (field_is y) (required_data rule)); cbn [negb] in *;
    [|by rewrite !andb_false_r in Py].
  bool_facts. rewrite !andb_true_iff. split_and!.
  - apply bool_decide_eq_true. congruence.
  - done.
  - apply forallb_elem. intros f Hf.
    repeat match goal with
    | H : forallb _ (correlation_fields _) = true |- _ =>
        pose proof (proj1 (forallb_elem _ _) H f Hf); clear H
    end. cbv beta in *. bool_facts. rewrite andb_true_iff, !bool_decide_eq_true.
    split; [done|congruence].
Qed.

(** Handing index [i]'s place to [o] in an assignment. *)
Definition reassign (i : nat) (o : option nat) : list (option nat) -> list (option nat) :=
  map (fun x => if bool_decide (x = Some i) then o else x).

Lemma elem_of_omap_id (assignment : list (option nat)) j :
  j ∈ omap id assignment <-> Some j ∈ assignment.
Proof.
  rewrite list_elem_of_omap. split; [intros (o & Ho & E); unfold id in E; by subst|]. intros H. by exists (Some j).
Qed.

Lemma reassign_fresh i o assignment : i ∉ omap id assignment -> reassign i o assignment = assignment.
Proof.
  rewrite elem_of_omap_id. induction assignment as [|x l IH]; intros Hi; [done|]. cbn.
  rewrite bool_decide_eq_false_2 by set_solver. rewrite IH by set_solver. done.
Qed.

Lemma elem_of_reassign i o assignment j :
  j ∈ omap id (reassign i o assignment) ->
  (j ∈ omap id assignment /\ j <> i) \/ o = Some j.
Proof.
  rewrite !elem_of_omap_id. intros (x & E & Hx)%list_elem_of_fmap.
  cbv beta in E. case_bool_decide as Hi; [by right|]. left. rewrite E.
  split; [done|]. intros ->. by rewrite E in Hi.
Qed.

Lemma reassign_NoDup i o assignment :
  NoDup (omap id assignment) -> (forall j, o = Some j -> j ∉ omap id assignment) ->
  NoDup (omap id (reassign i o assignment)).
Proof.
  induction assignment as [|x l IH]; intros N F; [done|].
  unfold reassign. cbn [map]. fold (reassign i o l). rewrite omap_id_cons in N |- *.
  assert (Fl : forall j, o = Some j -> j ∉ omap id l).
  { intros j Hj Hin. apply (F j Hj). rewrite omap_id_cons. destruct x; set_solver. }
  case_bool_decide as Hx; [subst x|].
  - apply NoDup_cons in N as [Ni N]. destruct o as [j|].
    + apply NoDup_cons. rewrite reassign_fresh by done. split; [by apply Fl|done].
    + by rewrite reassign_fresh.
  - destruct x as [j|]; [|by apply IH]. apply NoDup_cons in N as [Nj N].
    apply NoDup_cons. split; [|by apply IH].
    intros [[Hj _]|Ho]%elem_of_reassign; [done|]. apply (F j Ho). rewrite omap_id_cons. set_solver.
Qed.

Lemma reassign_length i o assignment :
  NoDup (omap id assignment) ->
  (length (omap id assignment)
   <= length (omap id (reassign i o assignment)) + (match o with Some _ => 0 | None => 1 end))%nat.
Proof.
  induction assignment as [|x l IH]; intros N; [cbn; lia|].
  unfold reassign. cbn [map]. fold (reassign i o l). rewrite omap_id_cons in N |- *.
  case_bool_decide as Hx; [subst x|].
  - apply NoDup_cons in N as [Ni N]. rewrite omap_id_cons, reassign_fresh by done.
    destruct o; cbn [length]; lia.
  - rewrite omap_id_cons. destruct x as [j|]; [|by apply IH].
    apply NoDup_cons in N as [Nj N]. specialize (IH N). cbn [length]. lia.
Qed.

(** Removing the chosen index from a matching costs at most one. *)
Lemma matching_drop rule events taken p prerequisites o assignment i e :
  matching rule events taken (p :: prerequisites) (o :: assignment) ->
  events !! i = Some e -> satisfies rule p e = true ->
  exists assignment', matching rule events (i :: taken) prerequisites assignment' /\
    (size (o :: assignment) <= size assignment' + 1)%Z.
Proof.
  intros [Mok Monce Mfree] Le Se. inversion Mok as [|? ? ? ? Mp Mrest]; subst.
  rewrite omap_id_cons in Monce, Mfree.
  assert (Na : NoDup (omap id assignment)) by (destruct o; [by apply NoDup_cons in Monce as []|done]).
  exists (reassign i (if bool_decide (o = Some i) then None else o) assignment). split.
  - constructor.
    + (* every place still satisfies its prerequisite *)
      clear -Mrest Mp Le Se. induction Mrest as [|q x prerequisites l Mq _ IH]; [constructor|].
      cbn. constructor; [|exact IH]. intros j Hj.
      case_bool_decide as Hx; [subst x|by apply Mq].
      case_bool_decide as Ho; [done|]. destruct (Mp j Hj) as (y & Ly & Sy).
      destruct (Mq i eq_refl) as (e' & Le' & Sq). assert (e' = e) as -> by congruence.
      exists y. split; [done|]. by apply (satisfies_shared rule p q e y).
    + apply reassign_NoDup; [done|]. intros j Hj. case_bool_decide as Ho; [done|]. subst o.
      by apply NoDup_cons in Monce as [].
    + intros j [[Hj Hne]|Ho]%elem_of_reassign.
      * intros [->|Ht]%elem_of_cons; [done|]. apply (Mfree j); [|done]. destruct o; set_solver.
      * case_bool_decide as Hoi; [done|]. subst o.
        intros [->|Ht]%elem_of_cons; [done|]. apply (Mfree j); [set_solver|done].
  - unfold size. rewrite omap_id_cons. pose proof (reassign_length i
      (if bool_decide (o = Some i) then None else o) assignment Na) as L.
    case_bool_decide as Ho; [|destruct o; cbn [length] in *; lia].
    subst o. apply NoDup_cons in Monce as [Ni _]. rewrite reassign_fresh by done.
    cbn [length]. lia.
Qed.

(** The loop finds a matching of the size it reports, and no larger one exists. *)
Lemma count_matches_maximum rule events prerequisites taken expected observed :
  count_matches rule events taken prerequisites = (expected, observed) ->
  expected = Z.of_nat (length prerequisites) /\
  (exists assignment, matching rule events taken prerequisites assignment /\
     size assignment = observed) /\
  forall assignment, matching rule events taken prerequisites assignment ->
    (size assignment <= observed)%Z.
Proof.
  revert taken expected observed.
  induction prerequisites as [|p prerequisites IH]; intros taken expected observed; cbn.
  { intros [= <- <-]. split; [done|]. split.
    - exists []. split; [|done]. constructor; [constructor|constructor|by intros ? ?%elem_of_nil].
    - intros assignment [Mok _ _]. by apply Forall2_nil_inv_l in Mok as ->. }
  destruct (find_required _ _ _ _) as [i|] eqn:F.
  - destruct (count_matches _ _ _ _) as [ex ob] eqn:C. intros [= <- <-].
    destruct (IH _ _ _ C) as (-> & (assignment & [Mok Monce Mfree] & Sz) & Max).
    apply find_required_Some in F as (k & e & -> & Le & Se & Nt). cbn [Nat.add] in *.
    split; [lia|]. split.
    + exists (Some k :: assignment). split.
      * constructor; [constructor; [|done]| |].
        -- intros j [= <-]. by exists e.
        -- rewrite omap_id_cons. constructor; [|done]. intros Hk. apply (Mfree k Hk). by left.
        -- rewrite omap_id_cons. intros j [->|Hj]%elem_of_cons; [done|].
           intros Ht. apply (Mfree j Hj). by right.
      * unfold size in *. rewrite omap_id_cons. cbn [length]. lia.
    + intros [|o assignment'] M; [by inversion M as [Mo _ _]; inversion Mo|].
      destruct (matching_drop _ _ _ _ _ _ _ _ _ M Le Se) as (a' & Ma & Sa).
      specialize (Max a' Ma). lia.
  - destruct (count_matches _ _ _ _) as [ex ob] eqn:C. intros [= <- <-].
    destruct (IH _ _ _ C) as (-> & (assignment & [Mok Monce Mfree] & Sz) & Max).
    split; [lia|]. split.
    + exists (None :: assignment). split; [|exact Sz].
      constructor; [constructor; [done|done]|done|done].
    + intros [|o assignment'] [Mo Mn Mf]; [by inversion Mo|].
      inversion Mo as [|? ? ? ? Mp Mrest]; subst. rewrite omap_id_cons in Mn, Mf.
      destruct o as [j|]; [|by apply (Max assignment'); constructor]. exfalso.
      destruct (Mp j eq_refl) as (e & Le & Se). apply (Mf j ltac:(by left)).
      by apply (find_required_None _ _ _ _ _ _ F Le Se).
Qed.

Lemma completeness_complete status rows :
  status = "unknown" \/ status = "partial" \/ status = "complete" ->
  (forall row, row ∈ rows -> (0 <= row_missing row)%Z) ->
  completeness status rows = "complete" <->
  status = "complete" /\ forall row, row ∈ rows -> row_missing row = 0%Z.
Proof.
  intros [->|[->| ->]] Nn; cbn; [by split; [|intros []]..|].
  destruct (existsb _ rows) eqn:X; cbn.
  - split; [done|]. intros [_ Z]. apply existsb_elem in X as (row & Hr & M%Z.ltb_lt).
    specialize (Z row Hr). lia.
  - split; [|done]. intros _. split; [done|]. intros row Hr. specialize (Nn row Hr).
    pose proof (proj1 (existsb_false _ _) X row Hr) as M. apply Z.ltb_ge in M. lia.
Qed.

Lemma sequence_status_cases events :
  sequence_status_for_events events = "unknown" \/
  sequence_status_for_events events = "partial" \/
  sequence_status_for_events events = "complete".
Proof.
  unfold sequence_status_for_events. destruct (omap _ _); [by left|].
  destruct (contiguous _); [by right; right|by right; left].
Qed.

(** ** Properties *)


(** ** Rules that satisfy themselves *)

(** The index of every prerequisite, each in its own place. *)
Fixpoint own_places (rule : ExpectedEventRule) (k : nat) events : list (option nat) :=
  match events with
  | [] => []
  | e :: rest =>
      if is_prerequisite rule e then Some k :: own_places rule (S k) rest
      else own_places rule (S k) rest
  end.

Lemma own_places_ge rule k events j : j ∈ omap id (own_places rule k events) -> (k <= j)%nat.
Proof.
  revert k. induction events as [|e events IH]; intros k; cbn; [by intros ?%elem_of_nil|].
  destruct (is_prerequisite rule e); [|intros H%IH; lia].
  rewrite omap_id_cons. intros [->|H%IH]%elem_of_cons; lia.
Qed.

Lemma own_places_NoDup rule k events : NoDup (omap id (own_places rule k events)).
Proof.
  revert k. induction events as [|e events IH]; intros k; cbn; [constructor|].
  destruct (is_prerequisite rule e); [|apply IH]. rewrite omap_id_cons. constructor; [|apply IH].
  intros H%own_places_ge. lia.
Qed.

Lemma own_places_size rule k events :
  size (own_places rule k events)
  = Z.of_nat (length (List.filter (is_prerequisite rule) events)).
Proof.
  revert k. unfold size. induction events as [|e events IH]; intros k; cbn; [done|].
  destruct (is_prerequisite rule e); [|apply IH]. rewrite omap_id_cons. cbn [length].
  specialize (IH (S k)). lia.
Qed.

Lemma own_places_ok rule before events :
  (forall e, is_prerequisite rule e = true -> satisfies rule e e = true) ->
  Forall2 (fun p o => forall j, o = Some j ->
      exists e, (before ++ events)%list !! j = Some e /\ satisfies rule p e = true)
    (List.filter (is_prerequisite rule) events) (own_places rule (length before) events).
Proof.
  intros Self. revert before. induction events as [|e events IH]; intros before; cbn; [constructor|].
  specialize (IH (before ++ [e])%list). rewrite <- app_assoc, length_app, Nat.add_1_r in IH.
  destruct (is_prerequisite rule e) eqn:P; [|exact IH]. constructor; [|exact IH].
  intros j [= <-]. exists e. split; [by apply list_lookup_middle|by apply Self].
Qed.

Lemma self_satisfied_never_missing rule events :
  (forall e, is_prerequisite rule e = true -> satisfies rule e e = true) ->
  row_missing (reconcile_rule events rule) = 0%Z.
Proof.
  intros Self. unfold reconcile_rule. destruct (count_matches _ _ _ _) as [ex ob] eqn:C.
  destruct (count_matches_maximum _ _ _ _ _ _ C) as (-> & _ & Max). cbn.
  specialize (Max (own_places rule 0 events)). rewrite own_places_size in Max.
  assert (M : matching rule events [] (List.filter (is_prerequisite rule) events)
                (own_places rule 0 events)).
  { constructor; [by apply (own_places_ok rule [])|apply own_places_NoDup|by intros ? _ ?%elem_of_nil]. }
  specialize (Max M). lia.
Qed.

(** The rule that a failed judgment is followed by a retry or a park never
    reports a missing event, whatever the ledger holds: its prerequisite, a
    [tl.judgment] event, is itself one of the required alternatives, and the
    search excludes neither the prerequisite nor events before it. *)
Theorem judgment_rule_never_missing events :
  row_missing (reconcile_rule events rule_judgment_failure_requires_retry_or_park) = 0%Z.
Proof.
  apply self_satisfied_never_missing. intros e [Ty _]%andb_true_iff.
  apply String.eqb_eq in Ty. unfold satisfies, same_session, required_data_matches. rewrite Ty.
  by rewrite bool_decide_eq_true_2.
Qed.

(** ** A run: two gates opened, one answered; one judgment fails for good *)

Definition obs (seq : Z) (event_type : string) (data : list (string * json)) : EventObservation := {|
  obs_session_id := Some "s"; obs_event_type := event_type; obs_run_seq := Some seq;
  obs_data := jobj data |}.

Definition gate_run : list EventObservation :=
  [ obs 1 "tl.gate_opened" [("gate_name", JStr "a")];
    obs 2 "tl.gate_opened" [("gate_name", JStr "b")];
    obs 3 "tl.gate_answered" [("gate_name", JStr "b")];
    obs 4 "tl.judgment" [("outcome", JStr "failure")] ].

Example gate_run_rows :
  map (fun row => (row_rule_id row, row_expected row, row_missing row))
    (List.filter (fun row => (0 <? row_expected row)%Z) (report_rows (reconcile_events gate_run)))
  = [ ("gate_opened_requires_answer", 2%Z, 1%Z);
      ("judgment_failure_requires_retry_or_park", 1%Z, 0%Z) ].
Proof. vm_compute. reflexivity. Qed.

Example gate_run_is_partial : report_completeness_status (reconcile_events gate_run) = "partial".
Proof. vm_compute. reflexivity. Qed.

(** The search ignores order: an answer recorded before its gate opened counts. *)
Example answer_before_gate_counts :
  row_missing (reconcile_rule
    [ obs 1 "tl.gate_answered" [("gate_name", JStr "a")];
      obs 2 "tl.gate_opened" [("gate_name", JStr "a")] ] rule_gate_opened_requires_answer) = 0%Z.
Proof. vm_compute. reflexivity. Qed.
