(* ===== verification/Publication.v ===== *)
(** * Published heads

    [services/pr_registry.rs]: the registry of verified publications of a
    repository ([.exo/published-heads.json]), publication ownership, invocation
    succession and the resolution of a slice's live pull request.  The file is
    a JSON value behind the registry lock: every operation runs under it, so an
    operation is a function from the file to the file.  A struct's serde form
    is spelled out from its attributes. *)

From stdpp Require Import gmap pretty.
From S2P Require Import Prelude RustStr JsonValue.
Local Open Scope string_scope.

Definition PUBLISHED_HEADS_SCHEMA_VERSION : Z := 2.

Inductive PublicationProvenance := Legacy | LedgerOwned.
Inductive SuccessionReason := SessionRecreate.

#[export] Instance PublicationProvenance_eq_dec : EqDecision PublicationProvenance.
Proof. solve_decision. Defined.
#[export] Instance SuccessionReason_eq_dec : EqDecision SuccessionReason.
Proof. solve_decision. Defined.

Record InvocationSuccession := {
  is_from : string;
  is_to : string;
  is_reason : SuccessionReason;
  is_recorded_at : Z
}.

#[export] Instance InvocationSuccession_eq_dec : EqDecision InvocationSuccession.
Proof. solve_decision. Defined.

Record PublicationAdoption := { pa_pr_number : Z; pa_succession : InvocationSuccession }.

Record PublicationAdoptionRequest := {
  par_agent_name : string;
  par_head_branch : string;
  par_base_branch : string;
  par_slice_id : string;
  par_pr_number : option Z;
  par_head_sha : option string;
  par_from : string;
  par_to : string
}.

Inductive LivePrResolution := NeverPublished | AllAttemptsAbandoned | Live (pr : Z).

Record AbandonedAttempt := {
  aa_attempt : Z;
  aa_pr_number : option Z;
  aa_head_sha : option string;
  aa_invocation_id : option string
}.

Record PublishedHead := {
  ph_pr_number : Z;
  ph_head_branch : string;
  ph_base_branch : string;
  ph_head_sha : string;
  ph_author_agent : option string;
  ph_author_role : option string;
  ph_provenance : PublicationProvenance;
  ph_slice_id : option string;
  ph_invocation_id : option string;
  ph_invocation_trigger : option string;
  ph_invocation_runtime : option string;
  ph_succession : list InvocationSuccession
}.

#[export] Instance PublishedHead_eq_dec : EqDecision PublishedHead.
Proof. solve_decision. Defined.

Inductive PublicationOwnershipError :=
| MissingAuthor
| OwnerMismatch (owner expected : string)
| MissingIdentity (owner : string)
| BranchMismatch (publication owner : string)
| BaseBranchMismatch (publication owner : string)
| MissingSlice
| SliceMismatch (slice owner : string)
| MissingInvocationProvenance
| MissingInvocationRecord (invocation : string)
| InvocationSuccessionMissing (original current : string).

Inductive PublicationDisposition := Added | Duplicate | Replaced.

(** [value.trim().is_empty()] on an optional field that must not be blank. *)
Definition non_blank (o : option string) : option string :=
  match o with Some v => if is_blank v then None else Some v | None => None end.

Definition is_ledger_owned (h : PublishedHead) : bool :=
  bool_decide (ph_provenance h = LedgerOwned).

(** ** Invocation succession *)

(** The loop of [invocation_succession_reaches_current]: [pending] is the
    stack, its top at the head; [extend] pushes in table order, so the last
    successor is popped first. *)
Fixpoint reach_loop (fuel : nat) (table : list InvocationSuccession) (current : string)
    (seen : gset string) (pending : list string) : option bool :=
  match fuel with
  | O => None
  | S fuel =>
      match pending with
      | [] => Some false
      | candidate :: rest =>
          if String.eqb candidate current then Some true
          else if bool_decide (candidate ∈ seen) then reach_loop fuel table current seen rest
          else reach_loop fuel table current ({[candidate]} ∪ seen)
                 (rev (map is_to (List.filter (fun e => String.eqb (is_from e) candidate) table))
                  ++ rest)%list
      end
  end.

(** Every pop removes a pending entry and every successor is pushed once. *)
Definition reach_fuel (table : list InvocationSuccession) : nat := S (S (List.length table)).

Definition invocation_succession_reaches_current (publication : PublishedHead)
    (current_id : string) : bool :=
  match ph_invocation_id publication with
  | None => false
  | Some original_id =>
      default false (reach_loop (reach_fuel (ph_succession publication))
                       (ph_succession publication) current_id ∅ [original_id])
  end.

(** ** Ownership *)

Definition publication_owner_matches (publication : PublishedHead) (expected_owner : option string)
  : result string PublicationOwnershipError :=
  let? owner := option_context (non_blank (ph_author_agent publication)) MissingAuthor in
  match non_blank expected_owner with
  | Some expected =>
      if negb (String.eqb owner expected) then Err (OwnerMismatch owner expected) else Ok owner
  | None => Ok owner
  end.

Definition verify_slice (publication : PublishedHead) (owner_slice_id : option string)
  : result unit PublicationOwnershipError :=
  let? publication_slice :=
    match ph_provenance publication with
    | LedgerOwned => option_context (non_blank (ph_slice_id publication)) MissingSlice
    | Legacy => Ok (default "" (ph_slice_id publication))
    end in
  if negb (str_is_empty publication_slice)
     && negb (bool_decide (owner_slice_id = Some publication_slice))
  then Err (SliceMismatch publication_slice (default "missing" owner_slice_id))
  else Ok tt.

Definition verify_invocation (publication : PublishedHead) (current_invocation_id : option string)
  : result unit PublicationOwnershipError :=
  match ph_invocation_id publication with
  | None => if is_ledger_owned publication then Err MissingInvocationProvenance else Ok tt
  | Some original =>
      let? current := option_context current_invocation_id (MissingInvocationRecord original) in
      if negb (String.eqb current original)
         && negb (invocation_succession_reaches_current publication current)
      then Err (InvocationSuccessionMissing original current)
      else Ok tt
  end.

Definition verify_publication_ownership (publication : PublishedHead)
    (expected_owner owner_branch owner_parent_branch owner_slice_id
     current_invocation_id : option string) : result unit PublicationOwnershipError :=
  let? owner := publication_owner_matches publication expected_owner in
  match owner_branch with
  | None =>
      match ph_provenance publication, ph_slice_id publication, ph_invocation_id publication with
      | Legacy, None, None => Ok tt
      | _, _, _ => Err (MissingIdentity owner)
      end
  | Some owner_branch =>
      let? owner_parent_branch := option_context owner_parent_branch (MissingIdentity owner) in
      if negb (String.eqb owner_branch (ph_head_branch publication)) then
        Err (BranchMismatch (ph_head_branch publication) owner_branch)
      else if negb (String.eqb owner_parent_branch (ph_base_branch publication)) then
        Err (BaseBranchMismatch (ph_base_branch publication) owner_parent_branch)
      else
        let? _ := verify_slice publication owner_slice_id in
        verify_invocation publication current_invocation_id
  end.

Definition matches_current (h : PublishedHead) (pr_number : Z)
    (head_branch base_branch head_sha : string) : bool :=
  (ph_pr_number h =? pr_number)%Z && String.eqb (ph_head_branch h) head_branch
  && String.eqb (ph_base_branch h) base_branch && String.eqb (ph_head_sha h) head_sha.

(** [existing.matches_current(head.pr_number, head.head_branch, ...)]. *)
Definition same_coordinates (existing head : PublishedHead) : bool :=
  matches_current existing (ph_pr_number head) (ph_head_branch head) (ph_base_branch head)
    (ph_head_sha head).

Definition validate_field (f : string * string) : result unit string :=
  if is_blank f.2 then Err ("verified publication must include " ++ f.1) else Ok tt.

(** [PublishedHead::validate]. *)
Definition validate (h : PublishedHead) : result unit string :=
  let? _ := ensure (negb (ph_pr_number h =? 0)%Z)
              "verified publication must include a PR number" in
  let? _ := collect validate_field
      [("head_branch", ph_head_branch h); ("base_branch", ph_base_branch h);
       ("head_sha", ph_head_sha h)] in
  let? _ := ensure (match ph_slice_id h with Some v => negb (is_blank v) | None => true end)
              "verified publication must not contain an empty slice_id" in
  if is_ledger_owned h then
    let? _ := ensure (match non_blank (ph_slice_id h) with Some _ => true | None => false end)
        "ledger-owned publication must include a non-empty resolver-backed slice_id" in
    ensure (match non_blank (ph_invocation_id h) with Some _ => true | None => false end)
      "ledger-owned publication must include a non-empty invocation_id"
  else Ok tt.

(** ** The registry file *)

(** [RawPublishedHeadsFile]; [None] is a file that does not exist. *)
Record RawPublishedHeadsFile := { raw_schema_version : option Z; raw_heads : list json }.

(** The serde form of a field: absent and [null] are [None] under [default]. *)
Definition field_opt_string (m : list (string * json)) (k : string) : option (option string) :=
  match obj_get k m with
  | None | Some JNull => Some None
  | Some (JStr s) => Some (Some s)
  | Some _ => None
  end.

Definition field_string (m : list (string * json)) (k : string) : option string :=
  v ← obj_get k m; as_str v.
Definition field_u64 (m : list (string * json)) (k : string) : option Z :=
  v ← obj_get k m; as_u64 v.

Definition succession_of_json (j : json) : option InvocationSuccession :=
  m ← as_object j;
  from ← field_string m "from_invocation_id";
  to ← field_string m "to_invocation_id";
  reason ← field_string m "reason";
  recorded_at ← field_u64 m "recorded_at";
  if String.eqb reason "session_recreate" then
    Some {| is_from := from; is_to := to; is_reason := SessionRecreate;
            is_recorded_at := recorded_at |}
  else None.

Definition succession_to_json (e : InvocationSuccession) : json :=
  jobj [("from_invocation_id", JStr (is_from e)); ("to_invocation_id", JStr (is_to e));
        ("reason", JStr "session_recreate"); ("recorded_at", JNum (is_recorded_at e))].

Definition provenance_of_text (s : string) : option PublicationProvenance :=
  if String.eqb s "legacy" then Some Legacy
  else if String.eqb s "ledger_owned" then Some LedgerOwned
  else None.

Definition provenance_text (p : PublicationProvenance) : string :=
  match p with Legacy => "legacy" | LedgerOwned => "ledger_owned" end.

Definition field_succession (m : list (string * json)) : option (list InvocationSuccession) :=
  match obj_get "invocation_succession" m with
  | None => Some []
  | Some v => l ← as_array v; mapM succession_of_json l
  end.

Definition head_of_json (j : json) : option PublishedHead :=
  m ← as_object j;
  pr_number ← field_u64 m "pr_number";
  head_branch ← field_string m "head_branch";
  base_branch ← field_string m "base_branch";
  head_sha ← field_string m "head_sha";
  author_agent ← field_opt_string m "author_agent";
  author_role ← field_opt_string m "author_role";
  text ← field_string m "provenance";
  provenance ← provenance_of_text text;
  slice_id ← field_opt_string m "slice_id";
  invocation_id ← field_opt_string m "invocation_id";
  trigger ← field_opt_string m "invocation_trigger";
  runtime ← field_opt_string m "invocation_runtime";
  succession ← field_succession m;
  Some {| ph_pr_number := pr_number; ph_head_branch := head_branch;
          ph_base_branch := base_branch; ph_head_sha := head_sha;
          ph_author_agent := author_agent; ph_author_role := author_role;
          ph_provenance := provenance; ph_slice_id := slice_id;
          ph_invocation_id := invocation_id; ph_invocation_trigger := trigger;
          ph_invocation_runtime := runtime; ph_succession := succession |}.

(** [skip_serializing_if = "Option::is_none"] and ["Vec::is_empty"]. *)
Definition head_object (h : PublishedHead) : list (string * json) :=
  obj_insert_opt "invocation_succession"
    (match ph_succession h with
     | [] => None
     | l => Some (JArr (map succession_to_json l))
     end)
  (obj_insert_opt "invocation_runtime" (JStr <$> ph_invocation_runtime h)
  (obj_insert_opt "invocation_trigger" (JStr <$> ph_invocation_trigger h)
  (obj_insert_opt "invocation_id" (JStr <$> ph_invocation_id h)
  (obj_insert_opt "slice_id" (JStr <$> ph_slice_id h)
  (obj_insert "provenance" (JStr (provenance_text (ph_provenance h)))
  (obj_insert_opt "author_role" (JStr <$> ph_author_role h)
  (obj_insert_opt "author_agent" (JStr <$> ph_author_agent h)
  (obj_insert "head_sha" (JStr (ph_head_sha h))
  (obj_insert "base_branch" (JStr (ph_base_branch h))
  (obj_insert "head_branch" (JStr (ph_head_branch h))
  (obj_insert "pr_number" (JNum (ph_pr_number h)) []))))))))))).

Definition head_to_json (h : PublishedHead) : json := JObj (head_object h).

(** One raw head: a pre-provenance file (schema 0) is migrated to [legacy]. *)
Definition read_head (schema_version : Z) (value : json) : result PublishedHead string :=
  let? value :=
    (if (schema_version =? 0)%Z then
       let? object := option_context (as_object value) "head must be a JSON object" in
       Ok (JObj (obj_insert "provenance" (JStr "legacy") object))
     else Ok value) in
  option_context (head_of_json value) "failed to parse publication registry head".

(** [existing] is overwritten unless it is ledger-owned and [head] legacy. *)
Definition supersedes (head existing : PublishedHead) : bool :=
  bool_decide (ph_provenance existing = Legacy) || is_ledger_owned head.

Fixpoint dedup_push (deduplicated : list PublishedHead) (head : PublishedHead)
  : list PublishedHead :=
  match deduplicated with
  | [] => [head]
  | existing :: rest =>
      if same_coordinates existing head
      then (if supersedes head existing then head else existing) :: rest
      else existing :: dedup_push rest head
  end.

Definition deduplicate (heads : list PublishedHead) : list PublishedHead :=
  fold_left dedup_push heads [].

Definition read_published_heads (file : option RawPublishedHeadsFile)
  : result (list PublishedHead) string :=
  match file with
  | None => Ok []
  | Some raw =>
      let schema_version := default 0%Z (raw_schema_version raw) in
      if (PUBLISHED_HEADS_SCHEMA_VERSION <? schema_version)%Z then
        Err ("unsupported publication registry schema version " ++ pretty schema_version)
      else
        let? heads := collect (read_head schema_version) (raw_heads raw) in
        Ok (deduplicate heads)
  end.

Definition write_published_heads (heads : list PublishedHead) : option RawPublishedHeadsFile :=
  Some {| raw_schema_version := Some PUBLISHED_HEADS_SCHEMA_VERSION;
          raw_heads := map head_to_json heads |}.

(** ** Publishing *)

Definition ledger_owned_publications_for_pr (heads : list PublishedHead)
    (publication : PublishedHead) : result (list PublishedHead) string :=
  let same_pr := List.filter (fun head =>
      (ph_pr_number head =? ph_pr_number publication)%Z && is_ledger_owned head) heads in
  let? _ := collect (fun existing =>
      ensure (bool_decide (ph_author_agent existing = ph_author_agent publication)
              && bool_decide (ph_slice_id existing = ph_slice_id publication))
        ("verified publication changes owner identity for PR #"
         ++ pretty (ph_pr_number publication))) same_pr in
  Ok same_pr.

(** [max_by_key]: the last of the greatest. *)
Definition max_by_key {A K} (le : K -> K -> bool) (key : A -> K) (l : list A) : option A :=
  fold_left (fun acc x => match acc with
                          | Some best => if le (key best) (key x) then Some x else Some best
                          | None => Some x
                          end) l None.

Definition succession_length (h : PublishedHead) : Z := Z.of_nat (List.length (ph_succession h)).

Definition find_publication_predecessor (same_pr : list PublishedHead)
    (publication : PublishedHead) (invocation_id : string) : option PublishedHead :=
  max_by_key Z.leb succession_length
    (List.filter (fun existing =>
       String.eqb (ph_head_branch existing) (ph_head_branch publication)
       && String.eqb (ph_base_branch existing) (ph_base_branch publication)
       && (bool_decide (ph_invocation_id existing = Some invocation_id)
           || invocation_succession_reaches_current existing invocation_id)) same_pr).

Definition with_lineage (publication predecessor : PublishedHead) : PublishedHead := {|
  ph_pr_number := ph_pr_number publication; ph_head_branch := ph_head_branch publication;
  ph_base_branch := ph_base_branch publication; ph_head_sha := ph_head_sha publication;
  ph_author_agent := ph_author_agent publication; ph_author_role := ph_author_role publication;
  ph_provenance := ph_provenance publication; ph_slice_id := ph_slice_id publication;
  ph_invocation_id := ph_invocation_id predecessor;
  ph_invocation_trigger := ph_invocation_trigger predecessor;
  ph_invocation_runtime := ph_invocation_runtime predecessor;
  ph_succession := ph_succession predecessor |}.

Definition inherit_publication_invocation_lineage (heads : list PublishedHead)
    (publication : PublishedHead) : result PublishedHead string :=
  if negb (is_ledger_owned publication) then Ok publication
  else
    let? same_pr := ledger_owned_publications_for_pr heads publication in
    let? invocation_id := option_context (ph_invocation_id publication)
        "ledger-owned publication is missing its invocation ID" in
    match find_publication_predecessor same_pr publication invocation_id with
    | None =>
        match same_pr with
        | [] => Ok publication
        | _ => Err ("verified publication invocation is outside the durable owner lineage for PR #"
                    ++ pretty (ph_pr_number publication))
        end
    | Some predecessor => Ok (with_lineage publication predecessor)
    end.

(** Replace the entry at the publication's coordinates, or append. *)
Fixpoint place_head (publication : PublishedHead) (heads : list PublishedHead)
  : list PublishedHead * PublicationDisposition :=
  match heads with
  | [] => ([publication], Added)
  | existing :: rest =>
      if same_coordinates existing publication then
        if is_ledger_owned existing && negb (is_ledger_owned publication)
        then (existing :: rest, Duplicate)
        else (publication :: rest, Replaced)
      else
        let '(rest', d) := place_head publication rest in (existing :: rest', d)
  end.

(** [publish_verified_head] on the heads it read. *)
Definition publish_heads (heads : list PublishedHead) (publication : PublishedHead)
  : result (list PublishedHead * PublicationDisposition) string :=
  if existsb (fun existing =>
       (ph_pr_number existing =? ph_pr_number publication)%Z
       && (negb (String.eqb (ph_head_branch existing) (ph_head_branch publication))
           || negb (String.eqb (ph_base_branch existing) (ph_base_branch publication)))) heads
  then Err ("verified publication changes branch ownership for PR #"
            ++ pretty (ph_pr_number publication))
  else
    let? publication := inherit_publication_invocation_lineage heads publication in
    if existsb (fun existing => bool_decide (existing = publication)) heads
    then Ok (heads, Duplicate)
    else Ok (place_head publication heads).

Definition publish_verified_head (publication : PublishedHead)
    (file : option RawPublishedHeadsFile)
  : option RawPublishedHeadsFile * result PublicationDisposition string :=
  match
    (let? _ := validate publication in
     let? heads := read_published_heads file in
     publish_heads heads publication)
  with
  | Err e => (file, Err e)
  | Ok (_, Duplicate) => (file, Ok Duplicate)
  | Ok (heads, disposition) => (write_published_heads heads, Ok disposition)
  end.

(** ** Removal and adoption *)

Definition remove_published_heads_for_prs (pr_numbers : gset Z)
    (file : option RawPublishedHeadsFile) : option RawPublishedHeadsFile * result Z string :=
  if bool_decide (pr_numbers = ∅) then (file, Ok 0%Z)
  else match read_published_heads file with
  | Err e => (file, Err e)
  | Ok heads =>
      let kept := List.filter (fun h => negb (bool_decide (ph_pr_number h ∈ pr_numbers))) heads in
      let removed := (Z.of_nat (List.length heads) - Z.of_nat (List.length kept))%Z in
      if (0 <? removed)%Z then (write_published_heads kept, Ok removed) else (file, Ok removed)
  end.

(** The request names nothing blank. *)
Definition adoption_request_complete (request : PublicationAdoptionRequest) : bool :=
  negb (is_blank (par_agent_name request) || is_blank (par_head_branch request)
        || is_blank (par_base_branch request) || is_blank (par_slice_id request)
        || is_blank (par_from request) || is_blank (par_to request)
        || bool_decide (par_pr_number request = Some 0%Z)
        || match par_head_sha request with Some v => is_blank v | None => false end).

(** The identity dimensions an adopted head must match. *)
Definition adoption_matches (request : PublicationAdoptionRequest) (head : PublishedHead) : bool :=
  is_ledger_owned head
  && bool_decide (ph_author_agent head = Some (par_agent_name request))
  && String.eqb (ph_head_branch head) (par_head_branch request)
  && String.eqb (ph_base_branch head) (par_base_branch request)
  && bool_decide (ph_slice_id head = Some (par_slice_id request))
  && match par_pr_number request with
     | Some expected => (ph_pr_number head =? expected)%Z
     | None => true
     end
  && match par_head_sha request with
     | Some expected => String.eqb (ph_head_sha head) expected
     | None => true
     end.

Definition push_succession (head : PublishedHead) (e : InvocationSuccession) : PublishedHead := {|
  ph_pr_number := ph_pr_number head; ph_head_branch := ph_head_branch head;
  ph_base_branch := ph_base_branch head; ph_head_sha := ph_head_sha head;
  ph_author_agent := ph_author_agent head; ph_author_role := ph_author_role head;
  ph_provenance := ph_provenance head; ph_slice_id := ph_slice_id head;
  ph_invocation_id := ph_invocation_id head;
  ph_invocation_trigger := ph_invocation_trigger head;
  ph_invocation_runtime := ph_invocation_runtime head;
  ph_succession := (ph_succession head ++ [e])%list |}.

(** The loop body: [None] is [continue]. *)
Definition adopt_head (recorded_at : Z) (request : PublicationAdoptionRequest)
    (head : PublishedHead) : option InvocationSuccession :=
  if negb (adoption_matches request head) then None
  else
    original ← ph_invocation_id head;
    if negb (invocation_succession_reaches_current head (par_from request))
       || invocation_succession_reaches_current head (par_to request) then None
    else if existsb (fun e => String.eqb (is_from e) original
                              && String.eqb (is_to e) (par_to request)) (ph_succession head)
    then None
    else Some {| is_from := original; is_to := par_to request;
                 is_reason := SessionRecreate; is_recorded_at := recorded_at |}.

Definition adopt_heads (recorded_at : Z) (request : PublicationAdoptionRequest)
    (heads : list PublishedHead) : list PublishedHead * list PublicationAdoption :=
  (map (fun h => match adopt_head recorded_at request h with
                 | Some e => push_succession h e
                 | None => h
                 end) heads,
   omap (fun h => (fun e => {| pa_pr_number := ph_pr_number h; pa_succession := e |})
                    <$> adopt_head recorded_at request h) heads).

Definition adopt_publication_for_invocation (recorded_at : Z)
    (request : PublicationAdoptionRequest) (file : option RawPublishedHeadsFile)
  : option RawPublishedHeadsFile * result (list PublicationAdoption) string :=
  if negb (adoption_request_complete request) then (file, Ok [])
  else if String.eqb (par_from request) (par_to request) then (file, Ok [])
  else match read_published_heads file with
  | Err e => (file, Err e)
  | Ok heads =>
      let '(heads', adoptions) := adopt_heads recorded_at request heads in
      match adoptions with
      | [] => (file, Ok [])
      | _ => (write_published_heads heads', Ok adoptions)
      end
  end.

(** ** The live pull request of a slice *)

Definition publication_history_for_slice (heads : list PublishedHead) (slice_id : string)
  : list PublishedHead :=
  if is_blank slice_id then []
  else List.filter (fun head => bool_decide (ph_slice_id head = Some slice_id)) heads.

Definition none_or_eq {A} `{EqDecision A} (o : option A) (x : A) : bool :=
  match o with Some y => bool_decide (y = x) | None => true end.

Definition is_abandoned (abandoned_attempts : list AbandonedAttempt) (head : PublishedHead) : bool :=
  existsb (fun abandoned =>
    if match aa_invocation_id abandoned with
       | Some invocation_id => bool_decide (ph_invocation_id head = Some invocation_id)
       | None => false
       end then true
    else if negb (aa_attempt abandoned =? 1)%Z
            || match ph_invocation_id head with Some _ => true | None => false end then false
    else none_or_eq (aa_pr_number abandoned) (ph_pr_number head)
         && none_or_eq (aa_head_sha abandoned) (ph_head_sha head)) abandoned_attempts.

(** [Iterator::rfind] and [next_back]. *)
Definition rfind {A} (p : A -> bool) (l : list A) : option A := last (List.filter p l).

Definition resolve_live_pr_for_slice_with_abandonments (heads : list PublishedHead)
    (slice_id : string) (live_pr_numbers : gset Z) (abandoned_attempts : list AbandonedAttempt)
  : LivePrResolution :=
  match publication_history_for_slice heads slice_id with
  | [] => NeverPublished
  | history =>
      let matching := List.filter (fun head =>
          bool_decide (ph_pr_number head ∈ live_pr_numbers)
          && negb (is_abandoned abandoned_attempts head)) history in
      match rfind is_ledger_owned matching with
      | Some head => Live (ph_pr_number head)
      | None => match last matching with
                | Some head => Live (ph_pr_number head)
                | None => AllAttemptsAbandoned
                end
      end
  end.

Definition resolve_live_pr_for_slice (heads : list PublishedHead) (slice_id : string)
    (live_pr_numbers : gset Z) : LivePrResolution :=
  resolve_live_pr_for_slice_with_abandonments heads slice_id live_pr_numbers [].

(** ** The verified owner of a merge candidate *)

Record OwnerIdentity := {
  oi_birth_branch : string;
  oi_parent_branch : string;
  oi_slice_id : option string
}.

Definition ownership_error_text (e : PublicationOwnershipError) : string :=
  match e with
  | MissingAuthor => "verified publication is missing author_agent"
  | OwnerMismatch owner expected =>
      "publication owner '" ++ owner ++ "' conflicts with PR owner '" ++ expected ++ "'"
  | MissingIdentity owner => "publication owner '" ++ owner ++ "' has no identity"
  | BranchMismatch publication owner =>
      "publication branch '" ++ publication ++ "' conflicts with owner branch '" ++ owner ++ "'"
  | BaseBranchMismatch publication owner =>
      "publication base branch '" ++ publication ++ "' conflicts with owner parent branch '"
      ++ owner ++ "'"
  | MissingSlice => "ledger-owned publication is missing a non-empty resolver-backed slice"
  | SliceMismatch slice owner =>
      "publication slice '" ++ slice ++ "' conflicts with registered slice '" ++ owner ++ "'"
  | MissingInvocationProvenance =>
      "ledger-owned publication is missing invocation provenance"
  | MissingInvocationRecord invocation =>
      "publication invocation '" ++ invocation ++ "' has no durable owner record"
  | InvocationSuccessionMissing original current =>
      "publication invocation '" ++ original ++ "' conflicts with current invocation '"
      ++ current ++ "' and has no recorded succession"
  end.

(** The key [(is ledger-owned, succession length)] and its lexicographic order,
    [false] below [true]. *)
Definition publication_key (h : PublishedHead) : bool * Z :=
  (is_ledger_owned h, succession_length h).
Definition key_le (a b : bool * Z) : bool :=
  (negb a.1 && b.1) || (bool_decide (a.1 = b.1) && (a.2 <=? b.2)%Z).

Section Owner.
(** The resolver's identities and the owners' current invocation records are
    read from other files. *)
Context (resolver : string -> option OwnerIdentity) (read_invocation : string -> option string).

Definition verified_current_publication_owner (file : option RawPublishedHeadsFile)
    (pr_number : Z) (head_branch base_branch head_sha : string) : result string string :=
  let? heads := read_published_heads file in
  let candidates := List.filter (fun h => matches_current h pr_number head_branch base_branch
                                            head_sha) heads in
  let? publication := option_context (max_by_key key_le publication_key candidates)
      ("no verified publication matches PR #" ++ pretty pr_number ++ " and head " ++ head_sha) in
  match publication_owner_matches publication None with
  | Err e => Err (ownership_error_text e)
  | Ok owner =>
      if str_is_empty owner then Err ("publication owner '" ++ owner ++ "' is invalid")
      else
        let? identity := option_context (resolver owner)
            ("publication owner '" ++ owner ++ "' has no identity") in
        let current_invocation_id :=
          match ph_invocation_id publication with
          | Some _ => read_invocation owner
          | None => None
          end in
        match verify_publication_ownership publication None (Some (oi_birth_branch identity))
                (Some (oi_parent_branch identity)) (oi_slice_id identity)
                current_invocation_id with
        | Ok _ => Ok owner
        | Err e => Err (ownership_error_text e)
        end
  end.

Definition verify_current_publication_ownership (file : option RawPublishedHeadsFile)
    (pr_number : Z) (head_branch base_branch head_sha : string) : result unit string :=
  let? _ := verified_current_publication_owner file pr_number head_branch base_branch head_sha in
  Ok tt.
End Owner.
