(* ===== verification/PublicationSpec.v ===== *)
(** * Properties of the publication registry

    Succession as reachability, the registry invariant, idempotence of
    publishing and adopting, and the resolution of the live pull request. *)

From stdpp Require Import gmap.
From S2P Require Import Prelude RustStr JsonValue Publication.
Local Open Scope string_scope.

(** ** Succession is reachability *)

(** An entry of the succession table as an edge. *)
Definition succeeds (table : list InvocationSuccession) (a b : string) : Prop :=
  exists e, e ∈ table /\ is_from e = a /\ is_to e = b.

(** The entries whose source has not been expanded yet. *)
Definition unexpanded (table : list InvocationSuccession) (seen : gset string) : nat :=
  List.length (List.filter (fun e => negb (bool_decide (is_from e ∈ seen))) table).

Definition successors (table : list InvocationSuccession) (a : string) : list string :=
  rev (map is_to (List.filter (fun e => String.eqb (is_from e) a) table)).

Lemma elem_of_successors table a b : b ∈ successors table a <-> succeeds table a b.
Proof.
  unfold successors, succeeds. rewrite <- (reverse_Permutation (rev _)) at 1.
  rewrite rev_alt, <- rev_alt. rewrite elem_of_reverse, list_elem_of_In, <- in_rev, <- list_elem_of_In.
  rewrite list_elem_of_fmap. split.
  - intros (e & -> & [He E]%elem_of_lfilter). bool_facts. eauto.
  - intros (e & He & <- & <-). exists e. split; [done|]. apply elem_of_lfilter.
    split; [done|]. apply String.eqb_refl.
Qed.

Lemma unexpanded_step table seen a :
  a ∉ seen ->
  (unexpanded table ({[a]} ∪ seen) + List.length (successors table a) = unexpanded table seen)%nat.
Proof.
  intros Ha. unfold unexpanded, successors. rewrite length_rev, length_map.
  induction table as [|e t IH]; [done|]. cbn.
  destruct (String.eqb (is_from e) a) eqn:E.
  - apply String.eqb_eq in E. rewrite (bool_decide_eq_true_2 (is_from e ∈ {[a]} ∪ seen)) by set_solver.
    rewrite (bool_decide_eq_false_2 (is_from e ∈ seen)) by congruence. cbn. lia.
  - apply String.eqb_neq in E.
    destruct (decide (is_from e ∈ seen)).
    + rewrite !bool_decide_eq_true_2 by set_solver. cbn. lia.
    + rewrite !bool_decide_eq_false_2 by set_solver. cbn. lia.
Qed.

Lemma unexpanded_le table seen : (unexpanded table seen <= List.length table)%nat.
Proof. unfold unexpanded. apply List.filter_length_le. Qed.

(** Enough fuel: the loop always decides. *)
Lemma reach_loop_total table current : forall fuel seen pending,
  (List.length pending + unexpanded table seen < fuel)%nat ->
  exists b, reach_loop fuel table current seen pending = Some b.
Proof.
  induction fuel as [|fuel IH]; intros seen pending Hf; [lia|]. cbn.
  destruct pending as [|x pending]; [eauto|]. cbn in Hf.
  destruct (String.eqb x current); [eauto|].
  case_bool_decide as S; apply IH; [lia|].
  fold (successors table x). rewrite length_app.
  pose proof (unexpanded_step table seen x S). lia.
Qed.

Lemma reach_loop_sound table current : forall fuel seen pending,
  reach_loop fuel table current seen pending = Some true ->
  exists x, x ∈ pending /\ rtc (succeeds table) x current.
Proof.
  induction fuel as [|fuel IH]; intros seen pending; cbn; [done|].
  destruct pending as [|x pending]; [done|].
  destruct (String.eqb x current) eqn:E.
  { apply String.eqb_eq in E as ->. exists current. split; [set_solver|apply rtc_refl]. }
  case_bool_decide as S; intros R; apply IH in R as (y & Hy & R).
  - exists y. set_solver.
  - fold (successors table x) in Hy. apply elem_of_app in Hy as [Hy|Hy].
    + exists x. split; [set_solver|]. by eapply rtc_l; [apply elem_of_successors|].
    + exists y. set_solver.
Qed.

(** A negative answer exhibits a closed set that misses the target. *)
Lemma reach_loop_complete table current : forall fuel (seen : gset string) pending,
  (forall a b, a ∈ seen -> succeeds table a b -> b ∈ seen \/ b ∈ pending) ->
  current ∉ seen ->
  reach_loop fuel table current seen pending = Some false ->
  exists closed : gset string, current ∉ closed /\ seen ⊆ closed /\
    (forall x, x ∈ pending -> x ∈ closed) /\
    (forall a b, a ∈ closed -> succeeds table a b -> b ∈ closed).
Proof.
  induction fuel as [|fuel IH]; intros seen pending Hcl Hcur; cbn; [done|].
  destruct pending as [|x pending].
  { intros _. exists seen. set_solver. }
  destruct (String.eqb x current) eqn:E; [done|]. apply String.eqb_neq in E.
  case_bool_decide as S; intros R; apply IH in R as (cl & H1 & H2 & H3 & H4); try done.
  - exists cl. set_solver.
  - intros a b Ha Hab. destruct (Hcl a b Ha Hab) as [|[->|]%elem_of_cons]; auto.
  - exists cl. split; [done|]. split; [set_solver|]. split; [|done].
    intros y [->|Hy]%elem_of_cons; [set_solver|]. apply H3. set_solver.
  - fold (successors table x). intros a b [->%elem_of_singleton|Ha]%elem_of_union Hab.
    + right. apply elem_of_app. left. by apply elem_of_successors.
    + destruct (Hcl a b Ha Hab) as [|[->|]%elem_of_cons]; set_solver.
  - set_solver.
Qed.

Lemma closed_rtc table (cl : gset string) x y :
  (forall a b, a ∈ cl -> succeeds table a b -> b ∈ cl) ->
  rtc (succeeds table) x y -> x ∈ cl -> y ∈ cl.
Proof. intros Hcl. induction 1; eauto. Qed.

Lemma reaches_iff p current :
  invocation_succession_reaches_current p current = true <->
  exists original, ph_invocation_id p = Some original /\
    rtc (succeeds (ph_succession p)) original current.
Proof.
  unfold invocation_succession_reaches_current.
  destruct (ph_invocation_id p) as [o|]; [|split; [done|by intros (? & ? & _)]].
  destruct (reach_loop_total (ph_succession p) current (reach_fuel (ph_succession p)) ∅ [o])
    as [b R].
  { pose proof (unexpanded_le (ph_succession p) ∅). unfold reach_fuel. cbn. lia. }
  rewrite R. cbn. split.
  - intros ->. apply reach_loop_sound in R as (x & Hx & R). exists o. split; [done|].
    by apply list_elem_of_singleton in Hx as ->.
  - intros (o' & [= <-] & Hr). destruct b; [done|].
    apply reach_loop_complete in R as (cl & H1 & _ & H3 & H4); [|set_solver|set_solver].
    destruct H1. eapply closed_rtc; [exact H4|exact Hr|]. apply H3. set_solver.
Qed.

(** C26.  Succession is reachability.  The worklist search over the append-only
    succession table always terminates with an answer, on any table, cyclic or
    not, and answers yes exactly when the current invocation can be reached
    from the publication's original invocation along recorded successions. *)
Theorem succession_search_is_reachability p current :
  (forall original, ph_invocation_id p = Some original -> exists b,
     reach_loop (reach_fuel (ph_succession p)) (ph_succession p) current ∅ [original] = Some b) /\
  (invocation_succession_reaches_current p current = true <->
   exists original, ph_invocation_id p = Some original /\
     rtc (succeeds (ph_succession p)) original current).
Proof.
  split; [|apply reaches_iff]. intros o _. apply reach_loop_total.
  pose proof (unexpanded_le (ph_succession p) ∅). unfold reach_fuel. cbn. lia.
Qed.

(** ** The file format *)

Definition u64_ok (n : Z) : Prop := (0 <= n <= u64_max)%Z.

(** The numbers of a head are [u64]s, as their Rust type says. *)
Definition head_ok (h : PublishedHead) : Prop :=
  u64_ok (ph_pr_number h) /\ Forall (fun e => u64_ok (is_recorded_at e)) (ph_succession h).

Lemma as_u64_ok n : u64_ok n -> as_u64 (JNum n) = Some n.
Proof.
  unfold u64_ok. cbn. intros Hn. destruct (andb _ _) eqn:E; [done|].
  rewrite andb_false_iff, !Z.leb_gt in E. lia.
Qed.

Lemma succession_roundtrip e :
  u64_ok (is_recorded_at e) -> succession_of_json (succession_to_json e) = Some e.
Proof.
  intros Hn. unfold succession_of_json, succession_to_json, field_string, field_u64, jobj.
  cbn [as_object mbind option_bind fold_left fst snd]. json_get.
  cbn [mbind option_bind as_str]. rewrite as_u64_ok by done. cbn [mbind option_bind].
  by destruct e as [? ? [] ?].
Qed.

Lemma successions_roundtrip l :
  Forall (fun e => u64_ok (is_recorded_at e)) l ->
  mapM succession_of_json (map succession_to_json l) = Some l.
Proof.
  intros Hl. apply mapM_Some_2. induction Hl; constructor; auto using succession_roundtrip.
Qed.

Lemma provenance_roundtrip p : provenance_of_text (provenance_text p) = Some p.
Proof. by destruct p. Qed.

(** Reading one field of a serialised head. *)
Definition head_field (h : PublishedHead) (k : string) : option json :=
  if String.eqb k "invocation_succession" then
    match ph_succession h with [] => None | l => Some (JArr (map succession_to_json l)) end
  else if String.eqb k "invocation_runtime" then JStr <$> ph_invocation_runtime h
  else if String.eqb k "invocation_trigger" then JStr <$> ph_invocation_trigger h
  else if String.eqb k "invocation_id" then JStr <$> ph_invocation_id h
  else if String.eqb k "slice_id" then JStr <$> ph_slice_id h
  else if String.eqb k "provenance" then Some (JStr (provenance_text (ph_provenance h)))
  else if String.eqb k "author_role" then JStr <$> ph_author_role h
  else if String.eqb k "author_agent" then JStr <$> ph_author_agent h
  else if String.eqb k "head_sha" then Some (JStr (ph_head_sha h))
  else if String.eqb k "base_branch" then Some (JStr (ph_base_branch h))
  else if String.eqb k "head_branch" then Some (JStr (ph_head_branch h))
  else if String.eqb k "pr_number" then Some (JNum (ph_pr_number h))
  else None.

Lemma head_object_get h k : obj_get k (head_object h) = head_field h k.
Proof.
  unfold head_object, head_field.
  repeat first [rewrite obj_get_insert_opt | rewrite obj_get_insert].
  repeat match goal with
  | |- (if String.eqb k ?key then _ else _) = (if String.eqb k ?key then _ else _) =>
      let E := fresh "E" in destruct (String.eqb k key) eqn:E;
      [apply String.eqb_eq in E as ->;
       cbn [String.eqb Ascii.eqb Bool.eqb fmap option_fmap option_map obj_get]; by repeat case_match|]
  end.
  done.
Qed.

Lemma head_opt_string h k o :
  head_field h k = JStr <$> o -> field_opt_string (head_object h) k = Some o.
Proof. unfold field_opt_string. rewrite head_object_get. intros ->. by destruct o. Qed.

Lemma head_string h k v :
  head_field h k = Some (JStr v) -> field_string (head_object h) k = Some v.
Proof. unfold field_string. rewrite head_object_get. by intros ->. Qed.

Lemma head_roundtrip h : head_ok h -> head_of_json (head_to_json h) = Some h.
Proof.
  intros [Hn Hs]. unfold head_of_json, head_to_json. cbn [as_object mbind option_bind].
  unfold field_u64 at 1. rewrite head_object_get. unfold head_field at 1.
  cbn [String.eqb Ascii.eqb Bool.eqb mbind option_bind]. rewrite as_u64_ok by done.
  cbn [mbind option_bind].
  rewrite (head_string h "head_branch" (ph_head_branch h)) by reflexivity. cbn [mbind option_bind].
  rewrite (head_string h "base_branch" (ph_base_branch h)) by reflexivity. cbn [mbind option_bind].
  rewrite (head_string h "head_sha" (ph_head_sha h)) by reflexivity. cbn [mbind option_bind].
  rewrite (head_opt_string h "author_agent" (ph_author_agent h)) by reflexivity.
  cbn [mbind option_bind].
  rewrite (head_opt_string h "author_role" (ph_author_role h)) by reflexivity.
  cbn [mbind option_bind].
  rewrite (head_string h "provenance" (provenance_text (ph_provenance h))) by reflexivity.
  cbn [mbind option_bind]. rewrite provenance_roundtrip. cbn [mbind option_bind].
  rewrite (head_opt_string h "slice_id" (ph_slice_id h)) by reflexivity. cbn [mbind option_bind].
  rewrite (head_opt_string h "invocation_id" (ph_invocation_id h)) by reflexivity.
  cbn [mbind option_bind].
  rewrite (head_opt_string h "invocation_trigger" (ph_invocation_trigger h)) by reflexivity.
  cbn [mbind option_bind].
  rewrite (head_opt_string h "invocation_runtime" (ph_invocation_runtime h)) by reflexivity.
  cbn [mbind option_bind].
  assert (field_succession (head_object h) = Some (ph_succession h)) as ->; [|by destruct h].
  unfold field_succession. rewrite head_object_get. unfold head_field.
  cbn [String.eqb Ascii.eqb Bool.eqb].
  destruct (ph_succession h) as [|e l] eqn:E; [done|].
  cbn [as_array mbind option_bind]. by apply successions_roundtrip.
Qed.

(** ** The registry invariant *)

Definition coordinates (h : PublishedHead) : Z * string * string * string :=
  (ph_pr_number h, ph_head_branch h, ph_base_branch h, ph_head_sha h).

Record registry_ok (heads : list PublishedHead) : Prop := {
  ro_numbers : Forall head_ok heads;
  ro_coordinates : NoDup (map coordinates heads);
  ro_branches : forall h1 h2, h1 ∈ heads -> h2 ∈ heads -> ph_pr_number h1 = ph_pr_number h2 ->
    ph_head_branch h1 = ph_head_branch h2 /\ ph_base_branch h1 = ph_base_branch h2;
  ro_owner : forall h1 h2, h1 ∈ heads -> h2 ∈ heads -> ph_pr_number h1 = ph_pr_number h2 ->
    ph_provenance h1 = LedgerOwned -> ph_provenance h2 = LedgerOwned ->
    ph_author_agent h1 = ph_author_agent h2 /\ ph_slice_id h1 = ph_slice_id h2 /\
    ph_invocation_id h1 = ph_invocation_id h2
}.

Lemma same_coordinates_true a b : same_coordinates a b = true <-> coordinates a = coordinates b.
Proof.
  unfold same_coordinates, matches_current, coordinates.
  rewrite !andb_true_iff, Z.eqb_eq, !String.eqb_eq.
  split; [intros [[[-> ->] ->] ->]; done|intros [= -> -> -> ->]; done].
Qed.

Lemma is_ledger_owned_true h : is_ledger_owned h = true <-> ph_provenance h = LedgerOwned.
Proof. unfold is_ledger_owned. apply bool_decide_eq_true. Qed.

Lemma dedup_push_new acc h :
  coordinates h ∉ map coordinates acc -> dedup_push acc h = (acc ++ [h])%list.
Proof.
  induction acc as [|x acc IH]; cbn; [done|]. intros [Hx Hn]%not_elem_of_cons.
  destruct (same_coordinates x h) eqn:E; [apply same_coordinates_true in E; congruence|].
  by rewrite IH.
Qed.

Lemma deduplicate_id heads : NoDup (map coordinates heads) -> deduplicate heads = heads.
Proof.
  unfold deduplicate. enough (forall acc, NoDup (map coordinates (acc ++ heads)%list) ->
    fold_left dedup_push heads acc = (acc ++ heads)%list) as G by (intros; by apply (G [])).
  induction heads as [|h heads IH]; intros acc Hnd; cbn; [by rewrite app_nil_r|].
  rewrite dedup_push_new.
  - replace (acc ++ h :: heads)%list with ((acc ++ [h]) ++ heads)%list in *
      by by rewrite <- app_assoc. by apply IH.
  - rewrite map_app in Hnd. apply NoDup_app in Hnd as (_ & Hd & _). intros Hin.
    apply (Hd _ Hin). cbn. by apply list_elem_of_here.
Qed.

Lemma read_write heads :
  registry_ok heads -> read_published_heads (write_published_heads heads) = Ok heads.
Proof.
  intros [Hn Hc _ _]. unfold read_published_heads, write_published_heads.
  cbn [raw_schema_version raw_heads].
  change (default 0%Z (Some PUBLISHED_HEADS_SCHEMA_VERSION)) with PUBLISHED_HEADS_SCHEMA_VERSION.
  cbv zeta. rewrite Z.ltb_irrefl.
  assert (collect (read_head PUBLISHED_HEADS_SCHEMA_VERSION) (map head_to_json heads) = Ok heads) as ->.
  { clear Hc. induction Hn as [|h heads Hh _ IH]; [done|]. cbn [map collect].
    unfold read_head at 1. change (PUBLISHED_HEADS_SCHEMA_VERSION =? 0)%Z with false. cbv iota.
    rewrite head_roundtrip by done. cbn [option_context]. by rewrite IH. }
  by rewrite deduplicate_id.
Qed.

(** ** Publishing *)

Lemma place_head_cases p heads hs d :
  place_head p heads = (hs, d) ->
  (d = Added /\ hs = (heads ++ [p])%list /\ coordinates p ∉ map coordinates heads) \/
  exists l1 x l2, heads = (l1 ++ x :: l2)%list /\ coordinates x = coordinates p /\
    ((d = Replaced /\ hs = (l1 ++ p :: l2)%list /\
      (ph_provenance x = LedgerOwned -> ph_provenance p = LedgerOwned)) \/
     (d = Duplicate /\ hs = heads /\ ph_provenance x = LedgerOwned)).
Proof.
  revert hs d. induction heads as [|x heads IH]; intros hs d; cbn.
  { intros [= <- <-]. left. split; [done|]. split; [done|]. apply not_elem_of_nil. }
  destruct (same_coordinates x p) eqn:E.
  - apply same_coordinates_true in E. intros Hp. right. exists [], x, heads.
    split; [done|]. split; [done|].
    destruct (is_ledger_owned x && negb (is_ledger_owned p)) eqn:L; injection Hp as <- <-.
    + right. apply andb_true_iff in L as [L%is_ledger_owned_true _]. done.
    + left. split; [done|]. split; [done|]. intros Hx%is_ledger_owned_true.
      rewrite Hx in L. cbn in L. apply negb_false_iff in L. by apply is_ledger_owned_true.
  - destruct (place_head p heads) as [hs' d'] eqn:P. intros [= <- <-].
    assert (coordinates x <> coordinates p).
    { intros Hx%same_coordinates_true. congruence. }
    destruct (IH _ _ eq_refl) as [(-> & -> & Hn)|(l1 & y & l2 & -> & Ey & Hd)].
    + left. split; [done|]. split; [done|]. rewrite not_elem_of_cons. split; [congruence|done].
    + right. exists (x :: l1), y, l2. split; [done|]. split; [done|].
      destruct Hd as [(-> & -> & Hl)|(-> & -> & Hl)]; [left|right]; done.
Qed.

Lemma max_by_key_snoc {A K} le (key : A -> K) l x :
  max_by_key le key (l ++ [x])%list
  = match max_by_key le key l with
    | Some best => if le (key best) (key x) then Some x else Some best
    | None => Some x
    end.
Proof. unfold max_by_key. by rewrite fold_left_app. Qed.

Lemma max_by_key_elem {A K} le (key : A -> K) l b : max_by_key le key l = Some b -> b ∈ l.
Proof.
  revert b. induction l as [|x l IH] using rev_ind; intros b; [done|].
  rewrite max_by_key_snoc. destruct (max_by_key le key l) as [best|].
  - destruct (le _ _); intros [= <-]; apply elem_of_app; [right; by apply list_elem_of_singleton|].
    left. by apply IH.
  - intros [= <-]. apply elem_of_app. right. by apply list_elem_of_singleton.
Qed.

Lemma max_by_key_None {A K} le (key : A -> K) l : max_by_key le key l = None -> l = [].
Proof.
  destruct l as [|x l] using rev_ind; [done|]. rewrite max_by_key_snoc.
  destruct (max_by_key le key l); [by destruct (le _ _)|done].
Qed.

(** The ledger-owned heads of a publication's pull request. *)
Definition owned_for (heads : list PublishedHead) (p : PublishedHead) : list PublishedHead :=
  List.filter (fun head => (ph_pr_number head =? ph_pr_number p)%Z && is_ledger_owned head) heads.

Lemma elem_of_owned_for heads p h :
  h ∈ owned_for heads p <->
  h ∈ heads /\ ph_pr_number h = ph_pr_number p /\ ph_provenance h = LedgerOwned.
Proof.
  unfold owned_for. by rewrite elem_of_lfilter, andb_true_iff, Z.eqb_eq, is_ledger_owned_true.
Qed.

Lemma ledger_owned_publications_Ok heads p l :
  ledger_owned_publications_for_pr heads p = Ok l ->
  l = owned_for heads p /\
  forall h, h ∈ l -> ph_author_agent h = ph_author_agent p /\ ph_slice_id h = ph_slice_id p.
Proof.
  unfold ledger_owned_publications_for_pr. cbv zeta. fold (owned_for heads p).
  destruct (collect _ _) as [us|] eqn:C; [|done]. intros [= <-]. split; [done|].
  intros h Hh. apply collect_Forall2 in C.
  apply list_elem_of_lookup in Hh as [i Hi].
  destruct (Forall2_lookup_l _ _ _ _ _ C Hi) as (u & _ & E). apply ensure_Ok in E.
  apply andb_true_iff in E as [E1 E2]. bool_facts. done.
Qed.

(** What lineage inheritance may change. *)
Lemma inherit_cases heads p p' :
  inherit_publication_invocation_lineage heads p = Ok p' ->
  (ph_provenance p <> LedgerOwned /\ p' = p) \/
  (ph_provenance p = LedgerOwned /\
   (forall h, h ∈ owned_for heads p ->
      ph_author_agent h = ph_author_agent p /\ ph_slice_id h = ph_slice_id p) /\
   exists invocation, ph_invocation_id p = Some invocation /\
   ((owned_for heads p = [] /\ p' = p) \/
    exists m, find_publication_predecessor (owned_for heads p) p invocation = Some m /\
      m ∈ owned_for heads p /\ p' = with_lineage p m)).
Proof.
  unfold inherit_publication_invocation_lineage.
  destruct (is_ledger_owned p) eqn:L; cbn [negb].
  2:{ intros [= <-]. left. split; [|done]. intros E%is_ledger_owned_true. congruence. }
  apply is_ledger_owned_true in L. intros E. right. split; [done|].
  destruct (ledger_owned_publications_for_pr heads p) as [l|] eqn:Lp; [|done].
  apply ledger_owned_publications_Ok in Lp as [-> Hl]. split; [done|].
  destruct (ph_invocation_id p) as [inv|]; [|done]. cbn [option_context] in E.
  exists inv. split; [done|].
  destruct (find_publication_predecessor (owned_for heads p) p inv) as [m|] eqn:F.
  - injection E as <-. right. exists m. split; [done|]. split; [|done].
    unfold find_publication_predecessor in F. apply max_by_key_elem in F.
    by apply elem_of_lfilter in F as [F _].
  - left. destruct (owned_for heads p); [by injection E as <-|done].
Qed.

(** Columns inheritance keeps. *)
Lemma inherit_frame heads p p' :
  inherit_publication_invocation_lineage heads p = Ok p' ->
  coordinates p' = coordinates p /\ ph_provenance p' = ph_provenance p /\
  ph_author_agent p' = ph_author_agent p /\ ph_slice_id p' = ph_slice_id p.
Proof.
  intros E. destruct (inherit_cases _ _ _ E) as [(_ & ->)|(_ & _ & inv & _ & [(_ & ->)|(m & _ & _ & ->)])];
    done.
Qed.

Lemma inherit_head_ok heads p p' :
  Forall head_ok heads -> head_ok p ->
  inherit_publication_invocation_lineage heads p = Ok p' -> head_ok p'.
Proof.
  intros Hh Hp E. destruct (inherit_cases _ _ _ E)
    as [(_ & ->)|(_ & _ & inv & _ & [(_ & ->)|(m & _ & Hm & ->)])]; [done|done|].
  apply elem_of_owned_for in Hm as [Hm _]. rewrite Forall_forall in Hh.
  split; [apply Hp|]. apply (Hh m Hm).
Qed.

(** The published head agrees with the ledger-owned heads of its request. *)
Lemma inherit_owner heads p p' h :
  registry_ok heads -> inherit_publication_invocation_lineage heads p = Ok p' ->
  ph_provenance p = LedgerOwned -> h ∈ owned_for heads p ->
  ph_author_agent h = ph_author_agent p' /\ ph_slice_id h = ph_slice_id p' /\
  ph_invocation_id h = ph_invocation_id p'.
Proof.
  intros Hok E Lp Hh. destruct (inherit_frame _ _ _ E) as (_ & _ & Ea & Es).
  destruct (inherit_cases _ _ _ E) as [(? & _)|(_ & Hown & inv & _ & [(En & _)|(m & _ & Hm & ->)])];
    [done| |].
  - rewrite En in Hh. by apply elem_of_nil in Hh.
  - destruct (Hown h Hh) as [? ?]. split; [congruence|]. split; [congruence|].
    apply elem_of_owned_for in Hh as (Hh & P1 & L1), Hm as (Hm & P2 & L2).
    cbn. apply (ro_owner _ Hok h m); try done. congruence.
Qed.

Lemma branch_guard heads p :
  existsb (fun existing =>
       (ph_pr_number existing =? ph_pr_number p)%Z
       && (negb (String.eqb (ph_head_branch existing) (ph_head_branch p))
           || negb (String.eqb (ph_base_branch existing) (ph_base_branch p)))) heads = false ->
  forall h, h ∈ heads -> ph_pr_number h = ph_pr_number p ->
    ph_head_branch h = ph_head_branch p /\ ph_base_branch h = ph_base_branch p.
Proof.
  rewrite existsb_false. intros Hg h Hh E. specialize (Hg h Hh). cbn in Hg.
  apply Z.eqb_eq in E. rewrite E in Hg. cbn in Hg. bool_facts. done.
Qed.

(** The registry with one more head, or one head replaced at its coordinates. *)
Lemma registry_ok_place heads p hs :
  registry_ok heads -> head_ok p ->
  (forall h, h ∈ heads -> ph_pr_number h = ph_pr_number p ->
     ph_head_branch h = ph_head_branch p /\ ph_base_branch h = ph_base_branch p) ->
  (ph_provenance p = LedgerOwned -> forall h, h ∈ owned_for heads p ->
     ph_author_agent h = ph_author_agent p /\ ph_slice_id h = ph_slice_id p /\
     ph_invocation_id h = ph_invocation_id p) ->
  (forall h, h ∈ hs -> h = p \/ h ∈ heads) -> NoDup (map coordinates hs) ->
  registry_ok hs.
Proof.
  intros Hok Hp Hb Ho Hin Hnd. constructor; [|done| |].
  - apply Forall_forall. intros h Hh. pose proof (ro_numbers _ Hok) as Hn.
    rewrite Forall_forall in Hn. destruct (Hin h Hh) as [->|]; auto.
  - intros h1 h2 H1 H2 E.
    destruct (Hin h1 H1) as [->|I1], (Hin h2 H2) as [->|I2]; [done| | |by apply (ro_branches _ Hok)].
    + destruct (Hb h2 I2 ltac:(congruence)). done.
    + by apply Hb.
  - intros h1 h2 H1 H2 E L1 L2.
    destruct (Hin h1 H1) as [->|I1], (Hin h2 H2) as [->|I2]; [done| | |by apply (ro_owner _ Hok)].
    + destruct (Ho L1 h2) as (? & ? & ?); [by apply elem_of_owned_for|done].
    + apply Ho; [done|]. by apply elem_of_owned_for.
Qed.

Lemma publish_heads_ok heads p hs d :
  registry_ok heads -> head_ok p -> publish_heads heads p = Ok (hs, d) -> registry_ok hs.
Proof.
  intros Hok Hp. unfold publish_heads. destruct (existsb _ heads) eqn:G; [done|].
  pose proof (branch_guard _ _ G) as Hb. clear G.
  destruct (inherit_publication_invocation_lineage heads p) as [p'|] eqn:I; [|done].
  destruct (inherit_frame _ _ _ I) as (Ec & Epr & Ea & Es).
  pose proof Ec as Ec'. unfold coordinates in Ec'. injection Ec' as En Eh Eb _.
  destruct (existsb _ heads); [by intros [= <- <-]|].
  destruct (place_head p' heads) as [hs' d'] eqn:P. intros [= <- <-].
  assert (Hgen : (forall h, h ∈ hs' -> h = p' \/ h ∈ heads) -> NoDup (map coordinates hs') ->
            registry_ok hs').
  { intros Hin Hnd. eapply (registry_ok_place heads p'); try done.
    - eapply inherit_head_ok; [apply Hok|done|done].
    - intros h Hh E. rewrite Eh, Eb. apply Hb; congruence.
    - intros L h Hh. eapply inherit_owner; [done|done|congruence|].
      unfold owned_for in *. by rewrite <- En. }
  pose proof (ro_coordinates _ Hok) as Hnd.
  destruct (place_head_cases _ _ _ _ P) as [(_ & -> & Hn)|(l1 & x & l2 & -> & Ex & Hd)].
  - apply Hgen.
    + intros h. rewrite elem_of_app, list_elem_of_singleton. tauto.
    + rewrite map_app. apply NoDup_app. split; [done|]. split; [|apply NoDup_singleton].
      intros c Hc Hc'%list_elem_of_singleton. by subst c.
  - destruct Hd as [(_ & -> & _)|(_ & -> & _)]; [|done]. apply Hgen.
    + intros h. rewrite !elem_of_app, !elem_of_cons. tauto.
    + rewrite map_app in *. cbn in *. by rewrite <- Ex.
Qed.
