(* ===== verification/PublicationProps.v ===== *)
(** * The publication registry as a store

    Every operation on the registry file preserves the registry invariant;
    publishing and adopting are idempotent; ownership verification is
    fail-closed; the live pull request of a slice is well chosen. *)

From stdpp Require Import gmap.
From S2P Require Import Prelude RustStr JsonValue Publication PublicationSpec.
Local Open Scope string_scope.

(** ** The operations on the file *)

Inductive pub_op :=
| PubPublish (publication : PublishedHead)
| PubRemove (pr_numbers : gset Z)
| PubAdopt (recorded_at : Z) (request : PublicationAdoptionRequest).

Definition run_pub (op : pub_op) (file : option RawPublishedHeadsFile)
  : option RawPublishedHeadsFile :=
  match op with
  | PubPublish p => (publish_verified_head p file).1
  | PubRemove prs => (remove_published_heads_for_prs prs file).1
  | PubAdopt at_ request => (adopt_publication_for_invocation at_ request file).1
  end.

Definition run_pubs (ops : list pub_op) file := fold_left (fun f op => run_pub op f) ops file.

(** The numbers of the arguments are [u64]s, as their Rust types say. *)
Definition pub_op_ok (op : pub_op) : Prop :=
  match op with
  | PubPublish p => head_ok p
  | PubRemove _ => True
  | PubAdopt at_ _ => u64_ok at_
  end.

(** A file these operations leave. *)
Definition file_ok (file : option RawPublishedHeadsFile) : Prop :=
  file = None \/ exists heads, registry_ok heads /\ file = write_published_heads heads.

Lemma registry_ok_nil : registry_ok [].
Proof. constructor; try (intros ? ? ?%elem_of_nil; done); constructor. Qed.

Lemma file_ok_read file :
  file_ok file -> exists heads, read_published_heads file = Ok heads /\ registry_ok heads.
Proof.
  intros [->|(heads & Hok & ->)].
  - exists []. split; [done|apply registry_ok_nil].
  - exists heads. split; [by apply read_write|done].
Qed.

Lemma file_ok_write heads : registry_ok heads -> file_ok (write_published_heads heads).
Proof. right. eauto. Qed.

(** Heads that keep their coordinates, owner and provenance. *)
Lemma registry_ok_map f heads :
  registry_ok heads ->
  (forall h, h ∈ heads -> head_ok (f h)) ->
  (forall h, coordinates (f h) = coordinates h /\ ph_provenance (f h) = ph_provenance h /\
     ph_author_agent (f h) = ph_author_agent h /\ ph_slice_id (f h) = ph_slice_id h /\
     ph_invocation_id (f h) = ph_invocation_id h) ->
  registry_ok (map f heads).
Proof.
  intros Hok Hn Hf. constructor.
  - apply Forall_forall. intros h' (h & -> & Hh)%list_elem_of_fmap. auto.
  - rewrite map_map. assert (map (fun h => coordinates (f h)) heads = map coordinates heads) as ->.
    { apply map_ext. intros h. apply Hf. }
    apply Hok.
  - intros h1' h2' (h1 & -> & H1)%list_elem_of_fmap (h2 & -> & H2)%list_elem_of_fmap.
    destruct (Hf h1) as [C1 _], (Hf h2) as [C2 _]. unfold coordinates in C1, C2.
    injection C1 as -> -> -> _. injection C2 as -> -> -> _. by apply (ro_branches _ Hok).
  - intros h1' h2' (h1 & -> & H1)%list_elem_of_fmap (h2 & -> & H2)%list_elem_of_fmap.
    destruct (Hf h1) as (C1 & -> & -> & -> & ->), (Hf h2) as (C2 & -> & -> & -> & ->).
    unfold coordinates in C1, C2. injection C1 as -> _ _ _. injection C2 as -> _ _ _.
    by apply (ro_owner _ Hok).
Qed.

Lemma registry_ok_filter p heads : registry_ok heads -> registry_ok (List.filter p heads).
Proof.
  intros [Hn Hc Hb Ho]. assert (Hin : forall h, h ∈ List.filter p heads -> h ∈ heads).
  { intros h Hh. by apply elem_of_lfilter in Hh as [? _]. }
  constructor; [|clear -Hc|auto|auto].
  - rewrite Forall_forall in *. auto.
  - induction heads as [|h heads IH]; cbn in *; [constructor|].
    apply NoDup_cons in Hc as [Hh Hc]. destruct (p h); [|auto]. cbn. constructor; [|auto].
    intros (h' & E & [Hh' _]%elem_of_lfilter)%list_elem_of_fmap. apply Hh. rewrite E.
    apply list_elem_of_fmap. eauto.
Qed.

Lemma adopt_heads_ok recorded_at request heads :
  registry_ok heads -> u64_ok recorded_at ->
  registry_ok (adopt_heads recorded_at request heads).1.
Proof.
  intros Hok Hu. cbn. apply registry_ok_map; [done| |].
  - intros h Hh. pose proof (ro_numbers _ Hok) as Hn. rewrite Forall_forall in Hn.
    destruct (Hn h Hh) as [N1 N2]. destruct (adopt_head recorded_at request h) as [e|] eqn:E; [|done].
    split; [done|]. cbn. apply Forall_app. split; [done|]. constructor; [|constructor].
    unfold adopt_head in E. destruct (negb _); [done|].
    destruct (ph_invocation_id h) as [o|]; [|done]. cbn in E.
    destruct (_ || _); [done|]. destruct (existsb _ _); [done|]. by injection E as <-.
  - intros h. by destruct (adopt_head recorded_at request h).
Qed.

Lemma run_pub_ok op file : file_ok file -> pub_op_ok op -> file_ok (run_pub op file).
Proof.
  intros Hf Hop. pose proof (file_ok_read _ Hf) as (heads & R & Hok).
  destruct op as [p|prs|at_ request]; cbn [run_pub].
  - unfold publish_verified_head. rewrite R. destruct (validate p); [|done].
    destruct (publish_heads heads p) as [[hs d]|] eqn:P; [|done].
    pose proof (publish_heads_ok _ _ _ _ Hok Hop P).
    destruct d; cbn; [by apply file_ok_write|done|by apply file_ok_write].
  - unfold remove_published_heads_for_prs. case_bool_decide; [done|]. rewrite R. cbv zeta.
    destruct (0 <? _)%Z; [|done]. by apply file_ok_write, registry_ok_filter.
  - unfold adopt_publication_for_invocation. destruct (negb _); [done|].
    destruct (String.eqb _ _); [done|]. rewrite R.
    pose proof (adopt_heads_ok at_ request heads Hok Hop) as Ha.
    destruct (adopt_heads at_ request heads) as [hs l]. cbn in Ha.
    destruct l; [done|]. by apply file_ok_write.
Qed.

Lemma run_pubs_ok ops file : file_ok file -> Forall pub_op_ok ops -> file_ok (run_pubs ops file).
Proof.
  intros Hf Ho. revert file Hf. induction Ho as [|op ops Hop _ IH]; intros file Hf; [done|].
  cbn. apply IH. by apply run_pub_ok.
Qed.

(** C27.  Registry invariant.  After any sequence of publications, removals and
    adoptions on a repository without a registry file, the file reads back
    without error; no two heads have the same pull request, branches and SHA; a
    pull request never changes its branch pair; and all ledger-owned heads of
    one pull request name the same author, slice and original invocation. *)
Theorem registry_stays_consistent ops :
  Forall pub_op_ok ops ->
  exists heads, read_published_heads (run_pubs ops None) = Ok heads /\ registry_ok heads.
Proof. intros Ho. apply file_ok_read, run_pubs_ok; [by left|done]. Qed.

(**  The registry file round trip.  Reading back a consistent registry that
    was just written returns the same heads, every optional field and the whole
    succession table included. *)
Theorem registry_roundtrip heads :
  registry_ok heads -> read_published_heads (write_published_heads heads) = Ok heads.
Proof. apply read_write. Qed.

(** ** Publishing twice *)

Section MaxByKey.
Context {A : Type} (key : A -> Z).

Definition max_or (a b : option A) : option A :=
  match a, b with
  | Some x, Some y => if (key x <=? key y)%Z then Some y else Some x
  | None, b => b
  | a, None => a
  end.

Lemma max_by_key_app l1 l2 :
  max_by_key Z.leb key (l1 ++ l2)%list
  = max_or (max_by_key Z.leb key l1) (max_by_key Z.leb key l2).
Proof.
  induction l2 as [|x l2 IH] using rev_ind.
  - rewrite app_nil_r. by destruct (max_by_key Z.leb key l1).
  - rewrite app_assoc, !max_by_key_snoc, IH.
    destruct (max_by_key Z.leb key l1) as [a|], (max_by_key Z.leb key l2) as [b|]; cbn; try done.
    + destruct (key a <=? key b)%Z eqn:E1; cbn.
      * destruct (key b <=? key x)%Z eqn:E2; cbn; [|by rewrite E1].
        replace (key a <=? key x)%Z with true; [done|]. symmetry. bool_facts. apply Z.leb_le. lia.
      * destruct (key b <=? key x)%Z eqn:E2; cbn; [done|]. rewrite E1.
        replace (key a <=? key x)%Z with false; [done|]. symmetry. bool_facts. apply Z.leb_gt. lia.
Qed.

Lemma max_by_key_ge l m y : max_by_key Z.leb key l = Some m -> y ∈ l -> (key y <= key m)%Z.
Proof.
  revert m. induction l as [|x l IH] using rev_ind; intros m.
  { by intros _ ?%elem_of_nil. }
  rewrite max_by_key_snoc, elem_of_app, list_elem_of_singleton.
  destruct (max_by_key Z.leb key l) as [b|] eqn:E.
  - destruct (key b <=? key x)%Z eqn:E1; intros [= <-] [Hy| ->]; bool_facts; try lia.
    + specialize (IH b eq_refl Hy). lia.
    + by apply IH.
  - intros [= <-] [Hy| ->]; [|lia]. apply max_by_key_None in E as ->. by apply elem_of_nil in Hy.
Qed.

(** Putting an element of greatest key in the place of another (or of none). *)
Lemma max_by_key_replace l1 lx l2 m p :
  max_by_key Z.leb key (l1 ++ lx ++ l2)%list = Some m -> key p = key m ->
  max_by_key Z.leb key (l1 ++ p :: l2)%list = Some p \/
  max_by_key Z.leb key (l1 ++ p :: l2)%list = Some m.
Proof.
  intros Hm Hk. change (p :: l2) with ([p] ++ l2)%list.
  rewrite app_assoc, max_by_key_app, max_by_key_app. change (max_by_key Z.leb key [p]) with (Some p).
  assert (Hl1 : max_or (max_by_key Z.leb key l1) (Some p) = Some p).
  { destruct (max_by_key Z.leb key l1) as [a|] eqn:E; [|done]. cbn.
    replace (key a <=? key p)%Z with true; [done|]. symmetry. apply Z.leb_le. rewrite Hk.
    eapply max_by_key_ge; [exact Hm|]. apply elem_of_app. left.
    by eapply max_by_key_elem. }
  rewrite Hl1. destruct (max_by_key Z.leb key l2) as [b|] eqn:E; [|by left]. cbn.
  destruct (key p <=? key b)%Z eqn:E1; [|by left]. right. bool_facts.
  rewrite app_assoc, max_by_key_app, E in Hm.
  destruct (max_by_key Z.leb key (l1 ++ lx)%list) as [a|] eqn:Ea; [|done]. cbn in Hm.
  destruct (key a <=? key b)%Z eqn:E2; [done|]. injection Hm as ->. bool_facts. lia.
Qed.
End MaxByKey.

Lemma ledger_owned_publications_total heads p :
  (forall h, h ∈ owned_for heads p ->
     ph_author_agent h = ph_author_agent p /\ ph_slice_id h = ph_slice_id p) ->
  ledger_owned_publications_for_pr heads p = Ok (owned_for heads p).
Proof.
  intros Hown. unfold ledger_owned_publications_for_pr. cbv zeta. fold (owned_for heads p).
  set (f := fun existing : PublishedHead => ensure _ _).
  assert (exists us, collect f (owned_for heads p) = Ok us) as [us ->]; [|done].
  induction (owned_for heads p) as [|h l IH]; cbn; [eauto|].
  destruct (Hown h) as [Ea Es]; [by apply list_elem_of_here|].
  unfold f at 1, ensure. rewrite !bool_decide_eq_true_2 by done. cbn.
  destruct IH as [us ->]; [|eauto]. intros h' Hh'. apply Hown. by apply list_elem_of_further.
Qed.

Lemma owned_for_app l1 l2 p : owned_for (l1 ++ l2)%list p = (owned_for l1 p ++ owned_for l2 p)%list.
Proof. apply List.filter_app. Qed.

Lemma owned_for_self p q :
  ph_pr_number q = ph_pr_number p -> ph_provenance q = LedgerOwned -> owned_for [q] p = [q].
Proof.
  intros E L. unfold owned_for. cbn. apply is_ledger_owned_true in L.
  by rewrite E, Z.eqb_refl, L.
Qed.

(** The lineage a head took is the lineage it takes again. *)
Lemma inherit_again l1 lx l2 p p' :
  inherit_publication_invocation_lineage (l1 ++ lx ++ l2)%list p = Ok p' ->
  (forall x, x ∈ owned_for lx p -> coordinates x = coordinates p') ->
  (owned_for lx p = [] \/ exists x, owned_for lx p = [x]) ->
  inherit_publication_invocation_lineage (l1 ++ p' :: l2)%list p = Ok p'.
Proof.
  intros I Hx Hlx.
  destruct (inherit_frame _ _ _ I) as (Ec & Epr & Ea & Es).
  pose proof Ec as Ec'. unfold coordinates in Ec'. injection Ec' as En Eh Eb _.
  destruct (inherit_cases _ _ _ I) as [(L & ->)|(L & Hown & inv & Hinv & Hc)].
  { unfold inherit_publication_invocation_lineage.
    replace (is_ledger_owned p) with false; [done|]. symmetry.
    unfold is_ledger_owned. by apply bool_decide_eq_false_2. }
  set (hs := (l1 ++ p' :: l2)%list).
  assert (Ohs : owned_for hs p = (owned_for l1 p ++ p' :: owned_for l2 p)%list).
  { unfold hs. change (p' :: l2) with ([p'] ++ l2)%list. rewrite !owned_for_app.
    rewrite (owned_for_self p p'); [done|done|congruence]. }
  assert (Oheads : owned_for (l1 ++ lx ++ l2)%list p
                   = (owned_for l1 p ++ owned_for lx p ++ owned_for l2 p)%list)
    by by rewrite !owned_for_app.
  unfold inherit_publication_invocation_lineage.
  rewrite (proj2 (is_ledger_owned_true p) L). cbn [negb].
  rewrite ledger_owned_publications_total.
  2:{ intros h. rewrite Ohs, elem_of_app, elem_of_cons. intros [Hh|[->|Hh]]; [|done|];
      apply Hown; rewrite Oheads, !elem_of_app; tauto. }
  rewrite Hinv. cbn [option_context]. rewrite Ohs.
  unfold find_publication_predecessor.
  set (c := fun existing => String.eqb (ph_head_branch existing) (ph_head_branch p)
       && String.eqb (ph_base_branch existing) (ph_base_branch p)
       && (bool_decide (ph_invocation_id existing = Some inv)
           || invocation_succession_reaches_current existing inv)).
  assert (Hcp : c p' = true).
  { unfold c. rewrite Eh, Eb, !String.eqb_refl. cbn [andb].
    destruct Hc as [(_ & ->)|(m & F & _ & ->)].
    - by rewrite bool_decide_eq_true_2.
    - unfold find_publication_predecessor in F. apply max_by_key_elem, elem_of_lfilter in F as [_ F].
      apply andb_true_iff in F as [_ F]. exact F. }
  rewrite List.filter_app. cbn [List.filter]. rewrite Hcp.
  destruct Hc as [(E0 & ->)|(m & F & _ & Em)].
  - rewrite Oheads in E0. apply app_eq_nil in E0 as [-> E0]. apply app_eq_nil in E0 as [_ ->].
    cbn. by destruct p.
  - unfold find_publication_predecessor in F. fold c in F.
    rewrite Oheads, !List.filter_app in F.
    destruct (max_by_key_replace succession_length _ _ _ m p' F) as [R|R]; [by rewrite Em| |];
      rewrite R; rewrite Em; done.
Qed.

Lemma publish_heads_again heads p hs d :
  registry_ok heads -> publish_heads heads p = Ok (hs, d) ->
  publish_heads hs p = Ok (hs, Duplicate).
Proof.
  intros Hok E. pose proof E as E0. unfold publish_heads in E.
  destruct (existsb _ heads) eqn:G; [done|].
  destruct (inherit_publication_invocation_lineage heads p) as [p'|] eqn:I; [|done].
  destruct (existsb (fun existing => bool_decide (existing = p')) heads) eqn:X.
  { injection E as <- <-. done. }
  destruct (place_head p' heads) as [hs' d'] eqn:P. injection E as <- <-.
  destruct (inherit_frame _ _ _ I) as (Ec & _ & _ & _).
  assert (Hfin : (forall h, h ∈ hs' -> h = p' \/ h ∈ heads) -> p' ∈ hs' ->
            inherit_publication_invocation_lineage hs' p = Ok p' ->
            publish_heads hs' p = Ok (hs', Duplicate)).
  { intros Hin Hp' I'. unfold publish_heads.
    replace (existsb _ hs') with false.
    - rewrite I'. replace (existsb _ hs') with true; [done|]. symmetry. apply existsb_elem.
      exists p'. split; [done|]. by apply bool_decide_eq_true_2.
    - symmetry. apply existsb_false. intros h Hh. destruct (Hin h Hh) as [->|Hh'].
      + unfold coordinates in Ec. injection Ec as -> -> -> _.
        by rewrite !String.eqb_refl, andb_false_r.
      + rewrite existsb_false in G. by apply G. }
  destruct (place_head_cases _ _ _ _ P) as [(_ & -> & Hn)|(l1 & x & l2 & -> & Ex & Hd)].
  - apply Hfin.
    + intros h. rewrite elem_of_app, list_elem_of_singleton. tauto.
    + apply elem_of_app. right. by apply list_elem_of_singleton.
    + apply (inherit_again heads [] []); [by rewrite app_nil_r|intros ? ?%elem_of_nil; done|by left].
  - destruct Hd as [(_ & -> & _)|(-> & -> & _)]; [|done]. apply Hfin.
    + intros h. rewrite !elem_of_app, !elem_of_cons. tauto.
    + apply elem_of_app. right. by apply list_elem_of_here.
    + apply (inherit_again l1 [x] l2); [done| |].
      * intros y [Hy _]%elem_of_owned_for. by apply list_elem_of_singleton in Hy as ->.
      * unfold owned_for. cbn. destruct (_ && _); eauto.
Qed.

(**  Publishing is idempotent.  Once a verified head was published (added,
    replaced or already known), publishing the same head again reports a
    duplicate and does not touch the file, even though a ledger-owned head is
    rewritten with the lineage of its predecessor before it is stored. *)
Theorem publish_twice_is_duplicate ops p file' d :
  Forall pub_op_ok ops -> head_ok p ->
  publish_verified_head p (run_pubs ops None) = (file', Ok d) ->
  publish_verified_head p file' = (file', Ok Duplicate).
Proof.
  intros Ho Hp E. pose proof (run_pubs_ok ops None (or_introl eq_refl) Ho) as Hf.
  destruct (file_ok_read _ Hf) as (heads & R & Hok).
  unfold publish_verified_head in *. rewrite R in E.
  destruct (validate p); [|done].
  destruct (publish_heads heads p) as [[hs d0]|] eqn:P; [|done].
  pose proof (publish_heads_again _ _ _ _ Hok P) as A.
  pose proof (publish_heads_ok _ _ _ _ Hok Hp P) as Hok'.
  destruct d0; injection E as <- <-; rewrite ?read_write, ?R by done.
  - by rewrite A.
  - by rewrite P.
  - by rewrite A.
Qed.
