(* ===== verification/PublicationOwnership.v ===== *)
(** * Ownership, adoption and live pull requests

    What a successful ownership check means, how adoption hands a publication
    to a recreated invocation, and which pull request is a slice's live one. *)

From stdpp Require Import gmap.
From S2P Require Import Prelude RustStr JsonValue Publication PublicationSpec PublicationProps.
Local Open Scope string_scope.

(** ** Ownership *)

Lemma non_blank_Some o v : non_blank o = Some v <-> o = Some v /\ is_blank v = false.
Proof.
  unfold non_blank. destruct o as [w|]; [|by split; [|intros [? _]]].
  destruct (is_blank w) eqn:E; split; try done; [|intros [= <-]; done|intros [[= <-] ?]; done].
  intros [[= <-] ?]. congruence.
Qed.

Lemma owner_matches_Ok p expected owner :
  publication_owner_matches p expected = Ok owner <->
  ph_author_agent p = Some owner /\ is_blank owner = false /\
  (forall e, expected = Some e -> is_blank e = false -> e = owner).
Proof.
  unfold publication_owner_matches.
  destruct (non_blank (ph_author_agent p)) as [a|] eqn:A; cbn [option_context].
  - apply non_blank_Some in A as [A B]. rewrite A.
    destruct (non_blank expected) as [e|] eqn:E.
    + apply non_blank_Some in E as [-> E]. destruct (String.eqb a e) eqn:Q; cbn [negb].
      * apply String.eqb_eq in Q as <-. split; [intros [= <-]; naive_solver|].
        by intros ([= ->] & _).
      * apply String.eqb_neq in Q. split; [done|]. intros ([= <-] & _ & He).
        by destruct (He e eq_refl E).
    + split; [intros [= <-]|by intros ([= ->] & _)]. split; [done|]. split; [done|].
      intros e -> He. assert (non_blank (Some e) = Some e) by by apply non_blank_Some. congruence.
  - split; [done|]. intros (Ha & Hb & _).
    assert (non_blank (ph_author_agent p) = Some owner) by by apply non_blank_Some. congruence.
Qed.

Lemma verify_slice_Ok p owner_slice :
  verify_slice p owner_slice = Ok tt <->
  match ph_provenance p with
  | LedgerOwned => exists slice, ph_slice_id p = Some slice /\ is_blank slice = false /\
                     owner_slice = Some slice
  | Legacy => ph_slice_id p = None \/ ph_slice_id p = Some "" \/ owner_slice = ph_slice_id p
  end.
Proof.
  unfold verify_slice. destruct (ph_provenance p).
  - destruct (ph_slice_id p) as [s|]; cbn [default]; [|split; [by left|done]]. cbn [id].
    destruct (str_is_empty s) eqn:E; cbn [negb andb].
    + apply String.eqb_eq in E as ->. split; [by right; left|done].
    + apply String.eqb_neq in E. case_bool_decide; cbn [negb]; [naive_solver|].
      split; [done|]. naive_solver.
  - destruct (non_blank (ph_slice_id p)) as [s|] eqn:E; cbn [option_context].
    + apply non_blank_Some in E as [E B]. rewrite E.
      assert (str_is_empty s = false) as ->.
      { apply String.eqb_neq. intros ->. done. }
      cbn [negb andb]. case_bool_decide; cbn [negb]; [naive_solver|].
      split; [done|]. naive_solver.
    + split; [done|]. intros (s & Es & B & _).
      assert (non_blank (ph_slice_id p) = Some s) by by apply non_blank_Some. congruence.
Qed.

Lemma verify_invocation_Ok p current :
  verify_invocation p current = Ok tt <->
  match ph_invocation_id p with
  | None => ph_provenance p = Legacy
  | Some original => exists c, current = Some c /\ rtc (succeeds (ph_succession p)) original c
  end.
Proof.
  unfold verify_invocation. destruct (ph_invocation_id p) as [o|] eqn:O.
  - destruct current as [c|]; cbn [option_context]; [|split; [done|by intros (? & ? & _)]].
    assert (R : invocation_succession_reaches_current p c = true <->
                rtc (succeeds (ph_succession p)) o c).
    { rewrite reaches_iff, O. naive_solver. }
    destruct (String.eqb c o) eqn:E; cbn [negb andb].
    + apply String.eqb_eq in E as ->. split; [|done]. intros _. exists o. split; [done|apply rtc_refl].
    + destruct (invocation_succession_reaches_current p c) eqn:Q; cbn [negb].
      * split; [|done]. intros _. exists c. split; [done|]. by apply R.
      * split; [done|]. intros (c' & [= <-] & Hr). by apply R in Hr.
  - unfold is_ledger_owned. destruct (ph_provenance p); cbn; done.
Qed.

(** The evidence an ownership check demands. *)
Definition owned_by_identity (p : PublishedHead)
    (owner_branch owner_parent_branch owner_slice_id current : option string) : Prop :=
  owner_branch = Some (ph_head_branch p) /\ owner_parent_branch = Some (ph_base_branch p) /\
  match ph_provenance p with
  | LedgerOwned => exists slice, ph_slice_id p = Some slice /\ is_blank slice = false /\
                     owner_slice_id = Some slice
  | Legacy => ph_slice_id p = None \/ ph_slice_id p = Some "" \/ owner_slice_id = ph_slice_id p
  end /\
  match ph_invocation_id p with
  | None => ph_provenance p = Legacy
  | Some original => exists c, current = Some c /\ rtc (succeeds (ph_succession p)) original c
  end.

Lemma verify_Ok p expected ob opb os cur :
  verify_publication_ownership p expected ob opb os cur = Ok tt <->
  (exists owner, publication_owner_matches p expected = Ok owner) /\
  ((ob = None /\ ph_provenance p = Legacy /\ ph_slice_id p = None /\ ph_invocation_id p = None) \/
   owned_by_identity p ob opb os cur).
Proof.
  unfold verify_publication_ownership, owned_by_identity.
  destruct (publication_owner_matches p expected) as [owner|e]; [|split; [done|by intros [[? ?] _]]].
  destruct ob as [b|].
  - destruct opb as [pb|]; cbn [option_context]; [|split; [done|]; naive_solver].
    destruct (String.eqb b (ph_head_branch p)) eqn:E1; cbn [negb]; bool_facts;
      [subst b|split; [done|]; naive_solver].
    destruct (String.eqb pb (ph_base_branch p)) eqn:E2; cbn [negb]; bool_facts;
      [subst pb|split; [done|]; naive_solver].
    rewrite <- (verify_slice_Ok p os), <- (verify_invocation_Ok p cur).
    destruct (verify_slice p os) as [[]|e]; [|split; [done|]; naive_solver].
    split; [intros ->; naive_solver|]. naive_solver.
  - destruct (ph_provenance p), (ph_slice_id p), (ph_invocation_id p);
      (split; [try done; intros _|]); naive_solver.
Qed.

(**  Ownership is fail-closed.  A publication passes the ownership check
    exactly when it names a non-blank author (the expected one, if one is
    expected) and either it is a bare legacy record without an owner identity,
    or the owner's birth branch and parent branch are the publication's
    branches, its slice is the registered one (mandatory when ledger-owned),
    and the current invocation descends from the recorded one (mandatory when
    ledger-owned).  Every missing piece of evidence is a refusal. *)
Theorem ownership_check_is_fail_closed p expected ob opb os cur :
  verify_publication_ownership p expected ob opb os cur = Ok tt <->
  (exists owner, ph_author_agent p = Some owner /\ is_blank owner = false /\
     (forall e, expected = Some e -> is_blank e = false -> e = owner)) /\
  ((ob = None /\ ph_provenance p = Legacy /\ ph_slice_id p = None /\ ph_invocation_id p = None) \/
   owned_by_identity p ob opb os cur).
Proof. rewrite verify_Ok. by setoid_rewrite owner_matches_Ok. Qed.

(** The merge-time owner.  If [verified_current_publication_owner] returns
    an owner, the registry holds a head with exactly the requested pull
    request, branches and SHA whose author is that owner, the resolver knows
    the owner, and the full ownership evidence holds for the owner's registered
    branches, slice and current invocation record. *)
Theorem verified_owner_has_evidence resolver read_invocation file pr hb bb sha owner :
  verified_current_publication_owner resolver read_invocation file pr hb bb sha = Ok owner ->
  exists heads p identity, read_published_heads file = Ok heads /\ p ∈ heads /\
    coordinates p = (pr, hb, bb, sha) /\ ph_author_agent p = Some owner /\
    resolver owner = Some identity /\
    owned_by_identity p (Some (oi_birth_branch identity)) (Some (oi_parent_branch identity))
      (oi_slice_id identity)
      (match ph_invocation_id p with Some _ => read_invocation owner | None => None end).
Proof.
  unfold verified_current_publication_owner.
  destruct (read_published_heads file) as [heads|] eqn:R; [|done].
  destruct (max_by_key key_le publication_key _) as [p|] eqn:M; [|done].
  cbn [option_context]. apply max_by_key_elem, elem_of_lfilter in M as [Hp C].
  destruct (publication_owner_matches p None) as [o|e] eqn:O; [|done].
  destruct (str_is_empty o); [done|].
  destruct (resolver o) as [identity|] eqn:Rs; [|done]. cbn [option_context]. cbv zeta.
  destruct (verify_publication_ownership _ _ _ _ _ _) as [[]|] eqn:V; [|done].
  intros [= <-]. exists heads, p, identity. split; [done|]. split; [done|]. split.
  { unfold matches_current in C. unfold coordinates. bool_facts. congruence. }
  apply owner_matches_Ok in O as (O & _). split; [done|]. split; [done|].
  apply verify_Ok in V as [_ [[? _]|V]]; [done|exact V].
Qed.

(** ** Adoption *)

Lemma adopt_head_Some at_ req h e :
  adopt_head at_ req h = Some e ->
  adoption_matches req h = true /\
  invocation_succession_reaches_current h (par_from req) = true /\
  invocation_succession_reaches_current h (par_to req) = false /\
  exists o, ph_invocation_id h = Some o /\
    e = {| is_from := o; is_to := par_to req; is_reason := SessionRecreate; is_recorded_at := at_ |}.
Proof.
  unfold adopt_head. destruct (adoption_matches req h); [|done]. cbn [negb].
  destruct (ph_invocation_id h) as [o|]; [|done]. cbn [mbind option_bind].
  destruct (invocation_succession_reaches_current h (par_from req)); [|done]. cbn [negb orb].
  destruct (invocation_succession_reaches_current h (par_to req)); [done|].
  destruct (existsb _ _); [done|]. intros [= <-]. eauto 10.
Qed.

Lemma succeeds_push h e a b :
  succeeds (ph_succession h) a b -> succeeds (ph_succession (push_succession h e)) a b.
Proof. intros (x & Hx & ?). exists x. split; [|done]. apply elem_of_app. by left. Qed.

Lemma reaches_push h e x :
  invocation_succession_reaches_current h x = true ->
  invocation_succession_reaches_current (push_succession h e) x = true.
Proof.
  rewrite !reaches_iff. intros (o & Ho & R). exists o. split; [done|].
  clear Ho. induction R as [|a b c Hab _ IH]; [apply rtc_refl|].
  eapply rtc_l; [apply succeeds_push, Hab|exact IH].
Qed.

Lemma adopted_reaches at_ req h e :
  adopt_head at_ req h = Some e ->
  invocation_succession_reaches_current (push_succession h e) (par_to req) = true.
Proof.
  intros (_ & _ & _ & o & Ho & ->)%adopt_head_Some. apply reaches_iff. exists o.
  split; [done|]. eapply rtc_l; [|apply rtc_refl]. eexists. split.
  - apply elem_of_app. right. apply list_elem_of_singleton. reflexivity.
  - by split.
Qed.

(** A matching head that reaches [from] but not [to] is adopted: an edge to
    [to] that made it unreachable cannot exist, as it starts at the root. *)
Lemma adopt_head_total at_ req h :
  adoption_matches req h = true ->
  invocation_succession_reaches_current h (par_from req) = true ->
  invocation_succession_reaches_current h (par_to req) = false ->
  exists e, adopt_head at_ req h = Some e.
Proof.
  intros M F T. unfold adopt_head. rewrite M, F, T. cbn [negb orb].
  pose proof F as (o & Ho & _)%reaches_iff. rewrite Ho. cbn [mbind option_bind].
  destruct (existsb _ _) eqn:E; [|eauto].
  apply existsb_elem in E as (e & He & E). bool_facts.
  assert (invocation_succession_reaches_current h (par_to req) = true); [|congruence].
  apply reaches_iff. exists o. split; [done|]. eapply rtc_l; [|apply rtc_refl].
  exists e. split; [done|]. by split.
Qed.

Lemma adoption_matches_push req h e :
  adoption_matches req (push_succession h e) = adoption_matches req h.
Proof. done. Qed.

Lemma adopt_head_again at_ at_' req h e :
  adopt_head at_ req h = Some e -> adopt_head at_' req (push_succession h e) = None.
Proof.
  intros E. unfold adopt_head. rewrite (adopted_reaches _ _ _ _ E), orb_true_r.
  destruct (negb _); [done|]. by destruct (ph_invocation_id _).
Qed.

Lemma adopt_head_time at_ at_' req h :
  adopt_head at_ req h = None -> adopt_head at_' req h = None.
Proof.
  unfold adopt_head. destruct (negb _); [done|]. destruct (ph_invocation_id h); [|done].
  cbn [mbind option_bind]. destruct (_ || _); [done|]. by destruct (existsb _ _).
Qed.

(**  Adoption is scoped, append-only and idempotent.  Adopting leaves every
    head as it is, except that a ledger-owned head matching every identity
    dimension of the request, whose succession reaches the old invocation and
    not yet the new one, gains one edge from its original invocation to the
    new one; after it every matching head that accepted the old invocation
    accepts the new one too; and a repeated adoption, at any later time, finds
    nothing to adopt and changes nothing. *)
Theorem adoption_is_append_only at_ at_' req heads :
  let '(heads', _) := adopt_heads at_ req heads in
  Forall2 (fun h h' => h' = h \/
     (adoption_matches req h = true /\
      invocation_succession_reaches_current h (par_from req) = true /\
      invocation_succession_reaches_current h (par_to req) = false /\
      exists o, ph_invocation_id h = Some o /\
        h' = push_succession h {| is_from := o; is_to := par_to req;
               is_reason := SessionRecreate; is_recorded_at := at_ |})) heads heads' /\
  (forall h', h' ∈ heads' -> adoption_matches req h' = true ->
     invocation_succession_reaches_current h' (par_from req) = true ->
     invocation_succession_reaches_current h' (par_to req) = true) /\
  adopt_heads at_' req heads' = (heads', []).
Proof.
  unfold adopt_heads. set (f := fun h => match adopt_head at_ req h with
    | Some e => push_succession h e | None => h end).
  assert (Hnone : forall h', h' ∈ map f heads -> adopt_head at_' req h' = None).
  { intros h' (h & -> & Hh)%list_elem_of_fmap. unfold f.
    destruct (adopt_head at_ req h) as [e|] eqn:E; [by eapply adopt_head_again|].
    by eapply adopt_head_time. }
  split; [|split].
  - apply Forall2_fmap_r, Forall_Forall2_diag, Forall_forall. intros h _. unfold compose, f.
    destruct (adopt_head at_ req h) as [e|] eqn:E; [|by left]. right.
    apply adopt_head_Some in E as (M & F & T & o & Ho & ->). eauto 10.
  - intros h' Hh' M F. destruct (invocation_succession_reaches_current h' (par_to req)) eqn:T; [done|].
    destruct (adopt_head_total at_' req h' M F T) as [e E].
    by rewrite (Hnone h' Hh') in E.
  - f_equal.
    + rewrite <- (map_id (map f heads)) at 2. apply map_ext_in.
      intros h' Hh'%list_elem_of_In. by rewrite Hnone.
    + induction (map f heads) as [|h l IH]; [done|]. cbn.
      rewrite Hnone by by apply list_elem_of_here. cbn. apply IH.
      intros h' Hh'. apply Hnone. by apply list_elem_of_further.
Qed.

(** Adoption hands over ownership.  If an owner identity passes the check
    of a matching head under its old invocation, then after adoption the head
    passes it under the new invocation as well as under the old one, and under
    no evidence that differs in branch, parent or slice. *)
Theorem adoption_transfers_ownership at_ req h expected ob opb os :
  adoption_matches req h = true ->
  verify_publication_ownership h expected ob opb os (Some (par_from req)) = Ok tt ->
  exists h', (adopt_heads at_ req [h]).1 = [h'] /\
    verify_publication_ownership h' expected ob opb os (Some (par_to req)) = Ok tt /\
    verify_publication_ownership h' expected ob opb os (Some (par_from req)) = Ok tt /\
    ph_invocation_id h' = ph_invocation_id h.
Proof.
  intros M V. pose proof M as M'. unfold adoption_matches in M'. bool_facts.
  match goal with L : is_ledger_owned h = true |- _ => apply is_ledger_owned_true in L as Hl end.
  pose proof V as ([owner O] & [(_ & L & _)|I])%verify_Ok; [congruence|].
  destruct I as (Ib & Ip & Is & Ii).
  destruct (ph_invocation_id h) as [o|] eqn:Ho; [|congruence].
  destruct Ii as (c & [= <-] & Hr).
  assert (F : invocation_succession_reaches_current h (par_from req) = true).
  { apply reaches_iff. eauto. }
  assert (Hgen : forall h' c, coordinates h' = coordinates h -> ph_provenance h' = ph_provenance h ->
    ph_author_agent h' = ph_author_agent h -> ph_slice_id h' = ph_slice_id h ->
    invocation_succession_reaches_current h' c = true ->
    verify_publication_ownership h' expected ob opb os (Some c) = Ok tt).
  { intros h' c Ec Ep Ea Es (o' & Ho' & R)%reaches_iff. apply verify_Ok.
    unfold coordinates in Ec. injection Ec as _ Eh Eb _. split.
    - exists owner. unfold publication_owner_matches in *. by rewrite Ea.
    - right. unfold owned_by_identity. rewrite Eh, Eb, Ep, Es, Ho'.
      split; [done|]. split; [done|]. split; [done|]. eauto. }
  cbn. destruct (adopt_head at_ req h) as [e|] eqn:E.
  - exists (push_succession h e). split; [done|]. split; [|split; [|done]]; apply Hgen; try done.
    + by eapply adopted_reaches.
    + by apply reaches_push.
  - exists h. split; [done|]. split; [|split; [done|done]]. apply Hgen; try done.
    destruct (invocation_succession_reaches_current h (par_to req)) eqn:T; [done|].
    destruct (adopt_head_total at_ req h M F T) as [e E']. congruence.
Qed.

(** ** The live pull request *)

Lemma last_filter_Some {A} (p : A -> bool) l x :
  last (List.filter p l) = Some x ->
  exists l1 l2, l = (l1 ++ x :: l2)%list /\ p x = true /\ forall y, y ∈ l2 -> p y = false.
Proof.
  induction l as [|a l IH] using rev_ind; [done|]. rewrite List.filter_app. cbn.
  destruct (p a) eqn:E.
  - rewrite last_snoc. intros [= <-]. exists l, []. split; [done|]. split; [done|].
    by intros y ?%elem_of_nil.
  - rewrite app_nil_r. intros (l1 & l2 & -> & Hx & Hl)%IH. exists l1, (l2 ++ [a])%list.
    split; [by rewrite <- app_assoc|]. split; [done|].
    intros y [Hy|Hy%list_elem_of_singleton]%elem_of_app; [auto|congruence].
Qed.

Lemma last_filter_None {A} (p : A -> bool) l :
  last (List.filter p l) = None <-> forall y, y ∈ l -> p y = false.
Proof. by rewrite last_None, <- filter_negb_nil, existsb_false. Qed.

(** A head that may be the live one. *)
Definition live_candidate slice_id (live : gset Z) abandoned (h : PublishedHead) : bool :=
  bool_decide (ph_slice_id h = Some slice_id)
  && (bool_decide (ph_pr_number h ∈ live) && negb (is_abandoned abandoned h)).

Lemma filter_filter {A} (p q : A -> bool) l :
  List.filter p (List.filter q l) = List.filter (fun x => q x && p x) l.
Proof.
  induction l as [|x l IH]; [done|]. cbn. destruct (q x); cbn; [|done].
  by rewrite IH.
Qed.

(** The live pull request of a slice.  The resolution reports a pull request
    only if it is open and some head of the slice that was not abandoned
    published it; a ledger-owned head is preferred to a legacy one and, within
    one provenance, the most recently registered one wins.  Without such a
    head it says whether the slice was ever published. *)
Theorem live_pr_is_newest_owned heads slice_id live abandoned :
  is_blank slice_id = false ->
  match resolve_live_pr_for_slice_with_abandonments heads slice_id live abandoned with
  | NeverPublished => forall h, h ∈ heads -> ph_slice_id h <> Some slice_id
  | AllAttemptsAbandoned =>
      (exists h, h ∈ heads /\ ph_slice_id h = Some slice_id) /\
      forall h, h ∈ heads -> live_candidate slice_id live abandoned h = false
  | Live pr =>
      exists l1 h l2, heads = (l1 ++ h :: l2)%list /\ ph_pr_number h = pr /\
        live_candidate slice_id live abandoned h = true /\
        (forall x, x ∈ l2 -> live_candidate slice_id live abandoned x = true ->
           ph_provenance x <> ph_provenance h) /\
        (ph_provenance h = Legacy -> forall x, x ∈ heads ->
           live_candidate slice_id live abandoned x = true -> ph_provenance x = Legacy)
  end.
Proof.
  intros Hb. unfold resolve_live_pr_for_slice_with_abandonments, publication_history_for_slice, rfind.
  rewrite Hb. cbv zeta.
  destruct (List.filter (fun head => bool_decide (ph_slice_id head = Some slice_id)) heads)
    as [|h0 l0] eqn:Hist.
  { apply filter_negb_nil in Hist. rewrite existsb_false in Hist. intros h Hh.
    specialize (Hist h Hh). by bool_facts. }
  assert (Hh0 : exists h, h ∈ heads /\ ph_slice_id h = Some slice_id).
  { exists h0. assert (h0 ∈ h0 :: l0) as Hin by by apply list_elem_of_here.
    rewrite <- Hist in Hin. apply elem_of_lfilter in Hin as [? E]. by bool_facts. }
  rewrite <- Hist, (filter_filter (fun head => bool_decide (ph_pr_number head ∈ live)
    && negb (is_abandoned abandoned head))). clear Hist h0 l0.
  change (fun x => bool_decide (ph_slice_id x = Some slice_id)
            && (bool_decide (ph_pr_number x ∈ live) && negb (is_abandoned abandoned x)))
    with (live_candidate slice_id live abandoned).
  rewrite filter_filter.
  destruct (last (List.filter (fun x => live_candidate slice_id live abandoned x
              && is_ledger_owned x) heads)) as [h|] eqn:L.
  - apply last_filter_Some in L as (l1 & l2 & -> & C & Hl). apply andb_true_iff in C as [C O].
    apply is_ledger_owned_true in O. cbn. exists l1, h, l2. split; [done|]. split; [done|].
    split; [done|]. split; [|congruence]. intros x Hx Cx E.
    specialize (Hl x Hx). rewrite Cx in Hl. cbn in Hl.
    rewrite O in E. apply is_ledger_owned_true in E. congruence.
  - rewrite last_filter_None in L.
    assert (Hleg : forall x, x ∈ heads -> live_candidate slice_id live abandoned x = true ->
              ph_provenance x = Legacy).
    { intros x Hx Cx. specialize (L x Hx). rewrite Cx in L. cbn in L.
      unfold is_ledger_owned in L. bool_facts. by destruct (ph_provenance x). }
    destruct (last (List.filter (live_candidate slice_id live abandoned) heads)) as [h|] eqn:L2.
    + apply last_filter_Some in L2 as (l1 & l2 & -> & C & Hl). cbn. exists l1, h, l2.
      split; [done|]. split; [done|]. split; [done|]. split; [|auto].
      intros x Hx Cx. rewrite Hl in Cx by done. done.
    + split; [done|]. by apply last_filter_None.
Qed.

(** Abandonment is a set.  Replaying or reordering abandonment events does
    not change the resolution: it depends only on which attempts were
    abandoned. *)
Theorem abandonment_replay_is_harmless heads slice_id live a1 a2 :
  (forall x, x ∈ a1 <-> x ∈ a2) ->
  resolve_live_pr_for_slice_with_abandonments heads slice_id live a1
  = resolve_live_pr_for_slice_with_abandonments heads slice_id live a2.
Proof.
  intros Hset. assert (Hab : forall h, is_abandoned a1 h = is_abandoned a2 h).
  { intros h. unfold is_abandoned. apply eq_true_iff_eq. rewrite !existsb_elem.
    split; intros (x & Hx & E); exists x; (split; [apply Hset; exact Hx|exact E]). }
  unfold resolve_live_pr_for_slice_with_abandonments.
  destruct (publication_history_for_slice heads slice_id) as [|h l]; [done|]. cbv zeta.
  assert (List.filter (fun head => bool_decide (ph_pr_number head ∈ live)
            && negb (is_abandoned a1 head)) (h :: l)
          = List.filter (fun head => bool_decide (ph_pr_number head ∈ live)
            && negb (is_abandoned a2 head)) (h :: l)) as ->; [|done].
  apply List.filter_ext. intros x. by rewrite Hab.
Qed.
