(* ===== verification/ReviewTypes.v ===== *)
(** * Review watcher: data

    The records and enumerations of [services/worktree_event_watcher.rs] and
    the types it takes from [domain.rs], [services/pr_registry.rs],
    [services/forgejo.rs] and [services/agent_control].  Instants are
    nanoseconds of one monotonic clock, dates are seconds. *)

From stdpp Require Import gmap pretty.
From S2P Require Import Prelude RustStr JsonValue Publication.
Local Open Scope string_scope.

Inductive CIStatus := CIPending | CISuccess | CIFailure | CINeutral | CIUnknown.
#[export] Instance CIStatus_eq_dec : EqDecision CIStatus.
Proof. solve_decision. Defined.

(** [CIStatus::as_str]. *)
Definition ci_as_str (s : CIStatus) : string :=
  match s with
  | CIPending => "pending"
  | CISuccess => "success"
  | CIFailure => "failure"
  | CINeutral => "neutral"
  | CIUnknown => "unknown"
  end.

Inductive AgentType := Claude | Shoal | OpenCode | Codex | Process.
#[export] Instance AgentType_eq_dec : EqDecision AgentType.
Proof. solve_decision. Defined.

Definition from_dir_name (dir_name : string) : AgentType :=
  if ends_with "-claude" dir_name then Claude
  else if ends_with "-shoal" dir_name then Shoal
  else if ends_with "-opencode" dir_name then OpenCode
  else if ends_with "-codex" dir_name then Codex
  else if ends_with "-process" dir_name then Process
  else Codex.

Inductive ForgejoReviewState := PendingReview | StateCommented | StateChangesRequested | StateApproved.
#[export] Instance ForgejoReviewState_eq_dec : EqDecision ForgejoReviewState.
Proof. solve_decision. Defined.

Inductive ForgejoReviewVerdict := NoVerdict | Commented | ChangesRequested | Approved.
#[export] Instance ForgejoReviewVerdict_eq_dec : EqDecision ForgejoReviewVerdict.
Proof. solve_decision. Defined.

(** What the Forgejo API returns, as the client parses it. *)
Record ForgejoCommitStatus := { fs_status : CIStatus; fs_context : option string }.

Inductive CiFailureAttribution := HeadIntroduced | BasePreExisting | Indeterminate.
#[export] Instance CiFailureAttribution_eq_dec : EqDecision CiFailureAttribution.
Proof. solve_decision. Defined.

Record CiBlockEvidence := {
  ce_base_sha : string;
  ce_head_sha : option string;
  ce_failed_checks : list string;
  ce_attribution : CiFailureAttribution
}.

Record ForgejoReviewComment := {
  fc_body : string;
  fc_path : option string;
  fc_diff_hunk : option string;
  fc_thread_id : option string;
  fc_resolved : bool;
  fc_author_branch : option string
}.

Record ForgejoReview := {
  fr_review_id : option Z;
  fr_body : string;
  fr_state : ForgejoReviewVerdict;
  fr_author_branch : option string;
  fr_commit_id : option string;
  fr_submitted_at : option string;
  fr_author_agent_id : option string
}.

Inductive PendingAction :=
| WasmEvent (event_type : string) (payload : json)
| EmitEvent (pr_number : Z) (status message head_sha : string)
    (comments : option (list ForgejoReviewComment)) (reviews : option (list ForgejoReview))
| EmitTaskBlocked (evidence : CiBlockEvidence)
| TriggerManualCi (pr_number : Z) (branch head_sha : string).

Record PendingPrActions := {
  pp_pr_number : Z;
  pp_actions : list PendingAction;
  pp_branch : string;
  pp_agent_type : AgentType;
  pp_agent_name : string;
  pp_agent_role : string;
  pp_slice_id : option string;
  pp_head_sha : string;
  pp_issue_id : option Z
}.

Inductive ReviewerAttemptPhase :=
| PhaseClaimed | PhaseRunning | PhaseFailed | PhaseApproved | PhaseChangesRequested
| PhaseCommented | PhaseDisposed | PhaseStuck.
#[export] Instance ReviewerAttemptPhase_eq_dec : EqDecision ReviewerAttemptPhase.
Proof. solve_decision. Defined.

Record RoutingInfo := {
  window_id : option string;
  pane_id : option string;
  parent_tab : option string;
  owner_agent_id : option string;
  owner_invocation_id : option string;
  owner_generation : option Z
}.

Record ReviewerAttempt := {
  ra_pr_number : Z;
  ra_head_sha : string;
  ra_round : Z;
  ra_attempt_id : string;
  ra_phase : ReviewerAttemptPhase;
  ra_invocation_id : option string;
  ra_reviewer_agent : option string;
  ra_routing : option RoutingInfo;
  ra_claimed_at : Z;
  ra_started_at : option Z;
  ra_finished_at : option Z;
  ra_failure : option string
}.

(** The state kept in memory for one pull request. *)
Record WatchState := {
  pr_review_cycle_count : Z;
  last_ci_status : CIStatus;
  branch_name : string;
  ws_agent_type : AgentType;
  first_seen : Z;
  notified_parent_timeout : bool;
  last_review_state : ForgejoReviewVerdict;
  last_review_fingerprint : option string;
  last_sha : string;
  notified_parent_approved : bool;
  addressed_changes : bool;
  rounds : Z;
  stuck : bool;
  reviewer_spawned : bool;
  reviewer_attempt : option ReviewerAttempt;
  review_approved_at : option Z;
  ci_triggered_sha : option string;
  ci_blocked_notified : bool
}.

(** The state kept in [.exo/watcher-state.json] for one pull request. *)
Record WatcherPrState := {
  wp_rounds : Z;
  wp_stuck : bool;
  wp_needs_human_review : bool;
  wp_last_review_state : ForgejoReviewVerdict;
  wp_last_head_sha : option string;
  wp_last_review_fingerprint : option string;
  wp_notified_parent_timeout : bool;
  wp_notified_parent_approved : bool;
  wp_addressed_changes : bool;
  wp_ci_triggered_sha : option string;
  wp_ci_blocked_notified : bool;
  wp_reviewer_attempt : option ReviewerAttempt
}.

Definition default_pr_state : WatcherPrState := {|
  wp_rounds := 0; wp_stuck := false; wp_needs_human_review := false;
  wp_last_review_state := NoVerdict; wp_last_head_sha := None;
  wp_last_review_fingerprint := None; wp_notified_parent_timeout := false;
  wp_notified_parent_approved := false; wp_addressed_changes := false;
  wp_ci_triggered_sha := None; wp_ci_blocked_notified := false; wp_reviewer_attempt := None |}.

Record WatcherStateFile := {
  notification_epoch : option string;
  file_prs : gmap Z WatcherPrState
}.
Definition default_state_file : WatcherStateFile :=
  {| notification_epoch := None; file_prs := ∅ |}.

(** [PrState] and [PrEntry] of the registry the watcher builds. *)
Inductive PrState := Open | Merged | Closed | Stuck.
#[export] Instance PrState_eq_dec : EqDecision PrState.
Proof. solve_decision. Defined.

Record PrEntry := {
  pe_number : Z;
  pe_head_branch : string;
  pe_base_branch : string;
  pe_title : string;
  pe_body : string;
  pe_author_agent : string;
  pe_author_role : string;
  pe_created_at : Z;
  pe_state : PrState;
  pe_last_review_at : option Z;
  pe_last_head_sha : option string;
  pe_approved_at_sha : option string;
  pe_reviewer_agent : option string;
  pe_reviewer_birth_branch : option string;
  pe_rounds : Z;
  pe_stuck : bool;
  pe_needs_human_review : bool;
  pe_merge_blocked_on_ci : bool;
  pe_chainlink_issue_id : option Z
}.

(** What one poll observed of an open pull request. *)
Record Observation := {
  ob_publication : option PublishedHead;
  ob_head_sha : string;
  ob_review_state : ForgejoReviewState;
  ob_comments : list ForgejoReviewComment;
  ob_reviews : list ForgejoReview;
  ob_changes_requested_rounds : Z;
  ob_ci_status : CIStatus;
  ob_forgejo_review_present : bool;
  ob_ci_block_evidence : option CiBlockEvidence
}.

Inductive EventActionResponse :=
| InjectMessage (message : string)
| NotifyParent (message : string) (pr_number : Z) (status : option string)
| NoAction.

Record ReviewStallDiagnostic := {
  rd_branch : string;
  rd_head_sha : string;
  rd_last_observed_sha : string;
  rd_rounds : Z;
  rd_reviewer_registered : bool;
  rd_forgejo_review_present : bool;
  rd_last_review_state : string;
  rd_addressed_changes : bool;
  rd_wait_seconds : Z;
  rd_ci_status : string
}.

(** ** Updates of a watch state *)

Definition new_watch_state (branch : string) (agent_type : AgentType) (sha : string)
    (ci_status : CIStatus) (comment_count now : Z) : WatchState := {|
  pr_review_cycle_count := comment_count; last_ci_status := ci_status; branch_name := branch;
  ws_agent_type := agent_type; first_seen := now; notified_parent_timeout := false;
  last_review_state := NoVerdict; last_review_fingerprint := None; last_sha := sha;
  notified_parent_approved := false; addressed_changes := false; rounds := 0; stuck := false;
  reviewer_spawned := false; reviewer_attempt := None; review_approved_at := None;
  ci_triggered_sha := None; ci_blocked_notified := false |}.

(** A head the watcher has not seen. *)
Definition set_new_head (sha : string) (now : Z) (st : WatchState) : WatchState := {|
  pr_review_cycle_count := pr_review_cycle_count st; last_ci_status := last_ci_status st;
  branch_name := branch_name st; ws_agent_type := ws_agent_type st; first_seen := now;
  notified_parent_timeout := false; last_review_state := NoVerdict;
  last_review_fingerprint := last_review_fingerprint st; last_sha := sha;
  notified_parent_approved := false;
  addressed_changes := bool_decide (last_review_state st = ChangesRequested) || addressed_changes st;
  rounds := rounds st; stuck := false; reviewer_spawned := reviewer_spawned st;
  reviewer_attempt := reviewer_attempt st; review_approved_at := None; ci_triggered_sha := None;
  ci_blocked_notified := false |}.

(** [ci_blocked_notified = true]. *)
Definition set_ci_blocked (st : WatchState) : WatchState := {|
  pr_review_cycle_count := pr_review_cycle_count st; last_ci_status := last_ci_status st;
  branch_name := branch_name st; ws_agent_type := ws_agent_type st; first_seen := first_seen st;
  notified_parent_timeout := notified_parent_timeout st;
  last_review_state := last_review_state st;
  last_review_fingerprint := last_review_fingerprint st; last_sha := last_sha st;
  notified_parent_approved := notified_parent_approved st;
  addressed_changes := addressed_changes st; rounds := rounds st; stuck := stuck st;
  reviewer_spawned := reviewer_spawned st; reviewer_attempt := reviewer_attempt st;
  review_approved_at := review_approved_at st; ci_triggered_sha := ci_triggered_sha st;
  ci_blocked_notified := true |}.

(** [pr_review_cycle_count = comment_count]. *)
Definition set_cycle_count (n : Z) (st : WatchState) : WatchState := {|
  pr_review_cycle_count := n; last_ci_status := last_ci_status st; branch_name := branch_name st;
  ws_agent_type := ws_agent_type st; first_seen := first_seen st;
  notified_parent_timeout := notified_parent_timeout st;
  last_review_state := last_review_state st;
  last_review_fingerprint := last_review_fingerprint st; last_sha := last_sha st;
  notified_parent_approved := notified_parent_approved st;
  addressed_changes := addressed_changes st; rounds := rounds st; stuck := stuck st;
  reviewer_spawned := reviewer_spawned st; reviewer_attempt := reviewer_attempt st;
  review_approved_at := review_approved_at st; ci_triggered_sha := ci_triggered_sha st;
  ci_blocked_notified := ci_blocked_notified st |}.

(** An approval seen at [now]. *)
Definition set_review_approved (now : Z) (st : WatchState) : WatchState := {|
  pr_review_cycle_count := pr_review_cycle_count st; last_ci_status := last_ci_status st;
  branch_name := branch_name st; ws_agent_type := ws_agent_type st; first_seen := first_seen st;
  notified_parent_timeout := notified_parent_timeout st; last_review_state := Approved;
  last_review_fingerprint := last_review_fingerprint st; last_sha := last_sha st;
  notified_parent_approved := true; addressed_changes := addressed_changes st;
  rounds := rounds st; stuck := stuck st; reviewer_spawned := reviewer_spawned st;
  reviewer_attempt := reviewer_attempt st; review_approved_at := Some now;
  ci_triggered_sha := ci_triggered_sha st; ci_blocked_notified := ci_blocked_notified st |}.

(** [ci_triggered_sha = Some(sha)]. *)
Definition set_ci_triggered (sha : string) (st : WatchState) : WatchState := {|
  pr_review_cycle_count := pr_review_cycle_count st; last_ci_status := last_ci_status st;
  branch_name := branch_name st; ws_agent_type := ws_agent_type st; first_seen := first_seen st;
  notified_parent_timeout := notified_parent_timeout st;
  last_review_state := last_review_state st;
  last_review_fingerprint := last_review_fingerprint st; last_sha := last_sha st;
  notified_parent_approved := notified_parent_approved st;
  addressed_changes := addressed_changes st; rounds := rounds st; stuck := stuck st;
  reviewer_spawned := reviewer_spawned st; reviewer_attempt := reviewer_attempt st;
  review_approved_at := review_approved_at st; ci_triggered_sha := Some sha;
  ci_blocked_notified := ci_blocked_notified st |}.

(** Requested changes seen at [now]. *)
Definition set_changes_requested (fp : option string) (now : Z) (st : WatchState) : WatchState := {|
  pr_review_cycle_count := pr_review_cycle_count st; last_ci_status := last_ci_status st;
  branch_name := branch_name st; ws_agent_type := ws_agent_type st; first_seen := now;
  notified_parent_timeout := notified_parent_timeout st; last_review_state := ChangesRequested;
  last_review_fingerprint := fp; last_sha := last_sha st;
  notified_parent_approved := notified_parent_approved st;
  addressed_changes := addressed_changes st; rounds := rounds st; stuck := stuck st;
  reviewer_spawned := reviewer_spawned st; reviewer_attempt := reviewer_attempt st;
  review_approved_at := review_approved_at st; ci_triggered_sha := ci_triggered_sha st;
  ci_blocked_notified := ci_blocked_notified st |}.

(** Review comments. *)
Definition set_commented (fp : option string) (st : WatchState) : WatchState := {|
  pr_review_cycle_count := pr_review_cycle_count st; last_ci_status := last_ci_status st;
  branch_name := branch_name st; ws_agent_type := ws_agent_type st; first_seen := first_seen st;
  notified_parent_timeout := notified_parent_timeout st; last_review_state := Commented;
  last_review_fingerprint := fp; last_sha := last_sha st;
  notified_parent_approved := notified_parent_approved st;
  addressed_changes := addressed_changes st; rounds := rounds st; stuck := stuck st;
  reviewer_spawned := reviewer_spawned st; reviewer_attempt := reviewer_attempt st;
  review_approved_at := review_approved_at st; ci_triggered_sha := ci_triggered_sha st;
  ci_blocked_notified := ci_blocked_notified st |}.

(** [last_ci_status = s]. *)
Definition set_ci_status (s : CIStatus) (st : WatchState) : WatchState := {|
  pr_review_cycle_count := pr_review_cycle_count st; last_ci_status := s;
  branch_name := branch_name st; ws_agent_type := ws_agent_type st; first_seen := first_seen st;
  notified_parent_timeout := notified_parent_timeout st;
  last_review_state := last_review_state st;
  last_review_fingerprint := last_review_fingerprint st; last_sha := last_sha st;
  notified_parent_approved := notified_parent_approved st;
  addressed_changes := addressed_changes st; rounds := rounds st; stuck := stuck st;
  reviewer_spawned := reviewer_spawned st; reviewer_attempt := reviewer_attempt st;
  review_approved_at := review_approved_at st; ci_triggered_sha := ci_triggered_sha st;
  ci_blocked_notified := ci_blocked_notified st |}.

(** [notified_parent_timeout = true]. *)
Definition set_timed_out (st : WatchState) : WatchState := {|
  pr_review_cycle_count := pr_review_cycle_count st; last_ci_status := last_ci_status st;
  branch_name := branch_name st; ws_agent_type := ws_agent_type st; first_seen := first_seen st;
  notified_parent_timeout := true; last_review_state := last_review_state st;
  last_review_fingerprint := last_review_fingerprint st; last_sha := last_sha st;
  notified_parent_approved := notified_parent_approved st;
  addressed_changes := addressed_changes st; rounds := rounds st; stuck := stuck st;
  reviewer_spawned := reviewer_spawned st; reviewer_attempt := reviewer_attempt st;
  review_approved_at := review_approved_at st; ci_triggered_sha := ci_triggered_sha st;
  ci_blocked_notified := ci_blocked_notified st |}.

(** The reviewer of an older head is forgotten. *)
Definition clear_reviewer (st : WatchState) : WatchState := {|
  pr_review_cycle_count := pr_review_cycle_count st; last_ci_status := last_ci_status st;
  branch_name := branch_name st; ws_agent_type := ws_agent_type st; first_seen := first_seen st;
  notified_parent_timeout := notified_parent_timeout st;
  last_review_state := last_review_state st;
  last_review_fingerprint := last_review_fingerprint st; last_sha := last_sha st;
  notified_parent_approved := notified_parent_approved st;
  addressed_changes := addressed_changes st; rounds := rounds st; stuck := false;
  reviewer_spawned := false; reviewer_attempt := None;
  review_approved_at := review_approved_at st; ci_triggered_sha := ci_triggered_sha st;
  ci_blocked_notified := ci_blocked_notified st |}.

(** A reviewer attempt that ended. *)
Definition set_reviewer_attempt (a : ReviewerAttempt) (st : WatchState) : WatchState := {|
  pr_review_cycle_count := pr_review_cycle_count st; last_ci_status := last_ci_status st;
  branch_name := branch_name st; ws_agent_type := ws_agent_type st; first_seen := first_seen st;
  notified_parent_timeout := notified_parent_timeout st;
  last_review_state := last_review_state st;
  last_review_fingerprint := last_review_fingerprint st; last_sha := last_sha st;
  notified_parent_approved := notified_parent_approved st;
  addressed_changes := addressed_changes st; rounds := rounds st; stuck := stuck st;
  reviewer_spawned := false; reviewer_attempt := Some a;
  review_approved_at := review_approved_at st; ci_triggered_sha := ci_triggered_sha st;
  ci_blocked_notified := ci_blocked_notified st |}.

(** [WatchState::reset_review_cycle]. *)
Definition reset_cycle (st : WatchState) : WatchState := {|
  pr_review_cycle_count := pr_review_cycle_count st; last_ci_status := last_ci_status st;
  branch_name := branch_name st; ws_agent_type := ws_agent_type st; first_seen := first_seen st;
  notified_parent_timeout := false; last_review_state := last_review_state st;
  last_review_fingerprint := None; last_sha := last_sha st; notified_parent_approved := false;
  addressed_changes := false; rounds := 0; stuck := false; reviewer_spawned := false;
  reviewer_attempt := None; review_approved_at := None; ci_triggered_sha := None;
  ci_blocked_notified := false |}.
