(* ===== verification/ReviewEvents.v ===== *)
(** * Review watcher: events

    The pure part of [services/worktree_event_watcher.rs]: how observations of
    a pull request become events, what the events carry and what an agent
    without a plugin is told. *)

From stdpp Require Import gmap pretty.
From S2P Require Import Prelude RustStr JsonValue Publication ReviewTypes.

Local Open Scope string_scope.

Definition LF_str : string := bytes_str [10].
Definition NUL_str : string := bytes_str [0].

(** ** CI failures *)

(** Insertion into a [BTreeSet<String>]. *)
Fixpoint set_insert (x : string) (l : list string) : list string :=
  match l with
  | [] => [x]
  | y :: l' =>
      if String.eqb x y then l
      else if String.ltb x y then x :: l
      else y :: set_insert x l'
  end.

Definition failed_check_identities (statuses : list ForgejoCommitStatus) : list string :=
  fold_left (fun acc s => set_insert s acc)
    (map (fun s => default "<unnamed>" (fs_context s))
       (List.filter (fun s => bool_decide (fs_status s = CIFailure)) statuses)) [].

Definition classify_ci_failure (base_sha head_sha : option string)
    (base_statuses head_statuses : option (list ForgejoCommitStatus)) : CiBlockEvidence :=
  let failed_checks := match head_statuses with
                       | Some l => failed_check_identities l
                       | None => []
                       end in
  let attribution :=
    match base_sha, head_sha, base_statuses, head_statuses with
    | Some base, Some _, Some base_statuses, Some _ =>
        if negb (is_blank base) && negb (bool_decide (failed_checks = [])) then
          let base_failed := failed_check_identities base_statuses in
          if forallb (fun check => bool_decide (check ∈ base_failed)) failed_checks
          then BasePreExisting else HeadIntroduced
        else Indeterminate
    | _, _, _, _ => Indeterminate
    end in
  {| ce_base_sha := default "" base_sha; ce_head_sha := head_sha;
     ce_failed_checks := failed_checks; ce_attribution := attribution |}.

(** The serde name of an attribution. *)
Definition attribution_name (a : CiFailureAttribution) : string :=
  match a with
  | HeadIntroduced => "head_introduced"
  | BasePreExisting => "base_pre_existing"
  | Indeterminate => "indeterminate"
  end.

Definition inbox_poke_message (unread_count : Z) : string :=
  "You have " ++ pretty unread_count ++ " unread message(s). Call check_inbox.".

(** ** Review verdicts *)

Definition state_name (state : ForgejoReviewVerdict) : string :=
  match state with
  | NoVerdict => "none"
  | Commented => "commented"
  | ChangesRequested => "changes_requested"
  | Approved => "approved"
  end.

Definition effective_review_verdict (review : ForgejoReview) : ForgejoReviewVerdict :=
  if bool_decide (fr_state review = NoVerdict)
     && contains_str "approved" (to_ascii_lowercase (fr_body review))
  then Approved else fr_state review.

(** [iter().rev().map(f).find(p)] and [iter().rev().find(p)]. *)
Definition latest_review_verdict (reviews : list ForgejoReview) : ForgejoReviewVerdict :=
  default NoVerdict
    (List.find (fun state => negb (bool_decide (state = NoVerdict)))
       (map effective_review_verdict (rev reviews))).
Definition latest_review (state : ForgejoReviewVerdict) (reviews : list ForgejoReview)
  : option ForgejoReview :=
  List.find (fun review => bool_decide (fr_state review = state)) (rev reviews).

Definition aggregate_review_state (reviews : list ForgejoReview) : ForgejoReviewState :=
  match latest_review_verdict reviews with
  | ChangesRequested => StateChangesRequested
  | Approved => StateApproved
  | Commented => StateCommented
  | NoVerdict => PendingReview
  end.

Definition review_state_is_terminal (s : ForgejoReviewState) : bool :=
  match s with
  | StateApproved | StateChangesRequested | StateCommented => true
  | PendingReview => false
  end.

Definition review_event_kind_for_state (state : ForgejoReviewVerdict) : option string :=
  match state with
  | Approved => Some "approved"
  | ChangesRequested => Some "review_received"
  | Commented => Some "review_commented"
  | NoVerdict => None
  end.

Definition review_author_branch (reviews : list ForgejoReview) (state : ForgejoReviewVerdict)
  : option string := r ← latest_review state reviews; fr_author_branch r.

Definition review_fingerprint (comments : list ForgejoReviewComment)
    (reviews : list ForgejoReview) (state : ForgejoReviewVerdict) : option string :=
  review ← latest_review state reviews;
  let comment_fingerprint :=
    join_str NUL_str
      (map (fun c => default "" (fc_path c) ++ NUL_str ++ default "" (fc_thread_id c)
                     ++ NUL_str ++ fc_body c) comments) in
  Some (match fr_review_id review with Some id => pretty id | None => "" end ++ NUL_str
        ++ default "" (fr_commit_id review) ++ NUL_str
        ++ default "" (fr_author_branch review) ++ NUL_str
        ++ state_name (fr_state review) ++ NUL_str
        ++ fr_body review ++ NUL_str ++ comment_fingerprint).

Definition synthetic_review (body : string) (state : ForgejoReviewVerdict)
    (author_branch : option string) : ForgejoReview := {|
  fr_review_id := None; fr_body := body; fr_state := state; fr_author_branch := author_branch;
  fr_commit_id := None; fr_submitted_at := None; fr_author_agent_id := None |}.

Definition obs_to_review_parts (obs : Observation) : list ForgejoReview * ForgejoReviewVerdict :=
  let state :=
    match ob_review_state obs with
    | StateApproved => Approved
    | StateChangesRequested => ChangesRequested
    | StateCommented => Commented
    | PendingReview => match ob_comments obs with [] => NoVerdict | _ => Commented end
    end in
  match ob_reviews obs with
  | _ :: _ => (ob_reviews obs, state)
  | [] =>
      match map (fun c => synthetic_review (fc_body c) state (fc_author_branch c))
              (ob_comments obs), ob_review_state obs with
      | [], StateApproved => ([synthetic_review "Approved" Approved None], state)
      | [], StateChangesRequested =>
          ([synthetic_review "Changes requested" ChangesRequested None], state)
      | [], StateCommented => ([synthetic_review "Commented" Commented None], state)
      | reviews, _ => (reviews, state)
      end
  end.

(** ** Payload fields *)

Definition review_id_json (review : option ForgejoReview) : json :=
  jopt JNum (r ← review; fr_review_id r).

Definition attach_review_correlation_fields (object : list (string * json))
    (review : option ForgejoReview) : list (string * json) :=
  let object := obj_insert "review_id" (review_id_json review) object in
  let object := obj_insert "verdict"
                  (jopt (fun r => JStr (state_name (fr_state r))) review) object in
  let object := obj_insert "review_head_sha" (jopt JStr (r ← review; fr_commit_id r)) object in
  let object := obj_insert "review_submitted_at"
                  (jopt JStr (r ← review; fr_submitted_at r)) object in
  obj_insert "reviewer_account_authenticated"
    (JBool (bool_decide (is_Some (r ← review; fr_author_agent_id r)))) object.

Definition unresolved_reviewer (reason : string) (object : list (string * json))
  : list (string * json) :=
  obj_insert "reviewer_identity_reason" (JStr reason)
    (obj_insert "reviewer_identity_unresolved" (JBool true) object).

(** The [as_object_mut] guard of the callers: other values stay unchanged. *)
Definition map_object (f : list (string * json) -> list (string * json)) (payload : json) : json :=
  match payload with JObj m => JObj (f m) | _ => payload end.

Definition attach_review_authority (payload : json) (reviews : list ForgejoReview)
    (state : ForgejoReviewVerdict) : json :=
  map_object (fun object =>
    match latest_review state reviews with
    | None =>
        unresolved_reviewer "Forgejo review author was not observed"
          (attach_review_correlation_fields object None)
    | Some review =>
        let object := attach_review_correlation_fields object (Some review) in
        match fr_author_agent_id review with
        | Some agent_id =>
            obj_insert "reviewer_identity_unresolved" (JBool false)
              (obj_insert "reviewer_agent_id" (JStr agent_id) object)
        | None =>
            unresolved_reviewer "Forgejo review author did not resolve to a registered agent"
              object
        end
    end) payload.

Definition attach_review_correlation (payload : json) (pending : PendingPrActions) : json :=
  map_object (fun object =>
    obj_insert "head_sha" (JStr (pp_head_sha pending))
      (obj_insert "pr_number" (JNum (pp_pr_number pending))
         (obj_insert "slice_id" (jopt JStr (pp_slice_id pending)) object))) payload.

Definition payload_kind (payload : json) : option string :=
  m ← as_object payload; v ← obj_get "kind" m; as_str v.

Definition attach_evidence (evidence : CiBlockEvidence) (action : PendingAction) : PendingAction :=
  match action with
  | WasmEvent event_type payload =>
      if bool_decide (payload_kind payload = Some "ci_blocked") then
        WasmEvent event_type
          (map_object (fun object =>
             obj_insert "attribution" (JStr (attribution_name (ce_attribution evidence)))
               (obj_insert "failed_checks" (JArr (map JStr (ce_failed_checks evidence)))
                  (obj_insert "head_sha" (jopt JStr (ce_head_sha evidence))
                     (obj_insert "base_sha" (JStr (ce_base_sha evidence)) object)))) payload)
      else action
  | _ => action
  end.

Definition attach_ci_block_evidence (evidence : CiBlockEvidence) (actions : list PendingAction)
  : list PendingAction :=
  let actions := map (attach_evidence evidence) actions in
  if bool_decide (ce_attribution evidence = HeadIntroduced) then actions
  else (actions ++ [EmitTaskBlocked evidence])%list.

(** ** The state machine *)

Definition format_comment (i : nat) (c : ForgejoReviewComment) : string :=
  pretty (S i) ++ ". [" ++ default "unknown file" (fc_path c) ++ "] " ++ fc_body c ++ LF_str
  ++ match fc_diff_hunk c with
     | Some hunk => "   ```diff" ++ LF_str ++ "   " ++ hunk ++ LF_str ++ "   ```" ++ LF_str
     | None => ""
     end.

Definition format_review_message (comments : list ForgejoReviewComment)
    (reviews : list ForgejoReview) : string :=
  let bodies := List.filter (fun b => negb (str_is_empty b)) (map fr_body reviews) in
  let msg := match bodies with
             | [] => ""
             | _ => "Review summary:" ++ LF_str
                    ++ fold_right (fun b acc => b ++ LF_str ++ acc) "" bodies
             end in
  let msg := match comments with
             | [] => msg
             | _ => (if str_is_empty msg then msg else msg ++ LF_str)
                    ++ "Inline comments:" ++ LF_str
                    ++ fold_right (fun t acc => t ++ acc) "" (imap format_comment comments)
             end in
  if str_is_empty msg then "Review activity detected (no body text)" else msg.

(** What one poll passes to the state machine.  [po_now] is read at its start,
    [po_now_head] when a new head is recorded, [po_now_end] at the timeout. *)
Record Poll := {
  po_pr_number : Z;
  po_sha : string;
  po_comments : list ForgejoReviewComment;
  po_reviews : list ForgejoReview;
  po_ci_status : CIStatus;
  po_merge_blocked_on_ci : bool;
  po_reviewer_registered : bool;
  po_forgejo_review_present : bool;
  po_replay : bool;
  po_branch : string;
  po_max_wait_seconds : Z;
  po_now : Z;
  po_now_head : Z;
  po_now_end : Z
}.

Definition review_stall_diagnostic (st : WatchState) (p : Poll) : ReviewStallDiagnostic := {|
  rd_branch := po_branch p; rd_head_sha := po_sha p; rd_last_observed_sha := last_sha st;
  rd_rounds := rounds st; rd_reviewer_registered := po_reviewer_registered p;
  rd_forgejo_review_present := po_forgejo_review_present p;
  rd_last_review_state := state_name (last_review_state st);
  rd_addressed_changes := addressed_changes st; rd_wait_seconds := po_max_wait_seconds p;
  rd_ci_status := ci_as_str (po_ci_status p) |}.

Definition review_stall_observation_payload (kind : string) (pr_number : Z)
    (d : ReviewStallDiagnostic) : json :=
  jobj [ ("kind", JStr kind); ("pr_number", JNum pr_number); ("branch", JStr (rd_branch d));
         ("head_sha", JStr (rd_head_sha d)); ("last_observed_sha", JStr (rd_last_observed_sha d));
         ("rounds", JNum (rd_rounds d));
         ("reviewer_registered", JBool (rd_reviewer_registered d));
         ("forgejo_review_present", JBool (rd_forgejo_review_present d));
         ("last_review_state", JStr (rd_last_review_state d));
         ("addressed_changes", JBool (rd_addressed_changes d));
         ("wait_seconds", JNum (rd_wait_seconds d)); ("ci_status", JStr (rd_ci_status d)) ].

Definition pr_review (payload : json) : PendingAction := WasmEvent "pr_review" payload.

(** Each block of [compute_pr_actions_with_context] is a step that updates the
    state and returns the actions it pushes. *)
Definition step_of := WatchState -> WatchState * list PendingAction.

Definition seq_step (f g : step_of) : step_of := fun st =>
  let '(st, a) := f st in let '(st, b) := g st in (st, a ++ b)%list.

Definition head_step (p : Poll) : step_of := fun st =>
  if String.eqb (po_sha p) (last_sha st) then (st, [])
  else
    let st' := set_new_head (po_sha p) (po_now_head p) st in
    if bool_decide (last_review_state st = ChangesRequested) then
      (st', [pr_review (jobj [ ("kind", JStr "fixes_pushed"); ("pr_number", JNum (po_pr_number p));
                               ("ci_status", JStr (ci_as_str (po_ci_status p)));
                               ("head_sha", JStr (po_sha p)) ])])
    else
      (st', [pr_review (jobj [ ("kind", JStr "commits_pushed");
                               ("pr_number", JNum (po_pr_number p));
                               ("ci_status", JStr (ci_as_str (po_ci_status p))) ])]).

Definition ci_block_step (p : Poll) (ci_changed : bool) : step_of := fun st =>
  if ci_changed && bool_decide (po_ci_status p = CIFailure)
     && bool_decide (is_Some (review_approved_at st)) && negb (ci_blocked_notified st)
  then
    let st := set_ci_blocked st in
    (st, [pr_review (review_stall_observation_payload "ci_blocked" (po_pr_number p)
                       (review_stall_diagnostic st p))])
  else (st, []).

Definition cycle_step (p : Poll) : step_of := fun st =>
  let comment_count := Z.of_nat (length (po_comments p) + length (po_reviews p)) in
  (if (comment_count =? pr_review_cycle_count st)%Z then st
   else set_cycle_count comment_count st, []).

Definition trigger_step (p : Poll) : step_of := fun st =>
  if bool_decide (ci_triggered_sha st = Some (po_sha p)) then (st, [])
  else
    (set_ci_triggered (po_sha p) st,
     [TriggerManualCi (po_pr_number p) (po_branch p) (po_sha p);
      pr_review (jobj [ ("kind", JStr "ci_triggered"); ("pr_number", JNum (po_pr_number p));
                        ("branch", JStr (po_branch p)); ("head_sha", JStr (po_sha p)) ])]).

Definition approved_payload (p : Poll) : json :=
  attach_review_authority
    (jobj [ ("kind", JStr (default "" (review_event_kind_for_state Approved)));
            ("pr_number", JNum (po_pr_number p));
            ("ci_status", JStr (ci_as_str (po_ci_status p))); ("branch", JStr (po_branch p)) ])
    (po_reviews p) Approved.

Definition approval_step (p : Poll) (latest : ForgejoReviewVerdict) : step_of := fun st =>
  if bool_decide (latest = Approved)
     && (negb (bool_decide (last_review_state st = Approved)) || po_replay p)
  then
    let '(st, triggered) := trigger_step p (set_review_approved (po_now p) st) in
    (st, pr_review (approved_payload p) :: triggered)
  else (st, []).

Definition feedback_payload (p : Poll) (state : ForgejoReviewVerdict) : json :=
  attach_review_authority
    (jobj [ ("kind", JStr (default "" (review_event_kind_for_state state)));
            ("pr_number", JNum (po_pr_number p)); ("branch", JStr (po_branch p));
            ("comments", JStr (format_review_message (po_comments p) (po_reviews p)));
            ("author_branch", jopt JStr (review_author_branch (po_reviews p) state)) ])
    (po_reviews p) state.

Definition fresh_feedback (st : WatchState) (state : ForgejoReviewVerdict) (fp : option string)
  : bool :=
  negb (bool_decide (last_review_state st = state))
  || negb (bool_decide (last_review_fingerprint st = fp)).

Definition changes_step (p : Poll) (latest : ForgejoReviewVerdict) : step_of := fun st =>
  let fp := review_fingerprint (po_comments p) (po_reviews p) ChangesRequested in
  if bool_decide (latest = ChangesRequested) && fresh_feedback st ChangesRequested fp then
    (set_changes_requested fp (po_now p) st,
     [pr_review (feedback_payload p ChangesRequested);
      EmitEvent (po_pr_number p) "copilot_review"
        (format_review_message (po_comments p) (po_reviews p)) (po_sha p)
        (Some (po_comments p)) (Some (po_reviews p))])
  else (st, []).

Definition comment_step (p : Poll) (latest : ForgejoReviewVerdict) : step_of := fun st =>
  let fp := review_fingerprint (po_comments p) (po_reviews p) Commented in
  if bool_decide (latest = Commented) && fresh_feedback st Commented fp then
    (set_commented fp st, [pr_review (feedback_payload p Commented)])
  else (st, []).

Definition ci_step (p : Poll) (ci_changed : bool) : step_of := fun st =>
  if ci_changed then
    (set_ci_status (po_ci_status p) st,
     [WasmEvent "ci_status"
        (jobj [ ("pr_number", JNum (po_pr_number p));
                ("status", JStr (ci_as_str (po_ci_status p))); ("branch", JStr (po_branch p));
                ("merge_blocked_on_ci", JBool (po_merge_blocked_on_ci p));
                ("reviewer_approved", JBool (notified_parent_approved st)) ]);
      EmitEvent (po_pr_number p) (ci_as_str (po_ci_status p))
        ("[CI STATUS: " ++ po_branch p ++ "] " ++ ci_as_str (po_ci_status p)) (po_sha p) None None])
  else (st, []).

Definition nanos_per_second : Z := 1000000000.

Definition timeout_step (p : Poll) : step_of := fun st =>
  if (negb (notified_parent_timeout st) || po_replay p)
     && (po_max_wait_seconds p * nanos_per_second <? po_now_end p - first_seen st)%Z
  then
    let st := set_timed_out st in
    (st, [pr_review
            (map_object (obj_insert "minutes_elapsed" (JNum (po_max_wait_seconds p / 60)))
               (review_stall_observation_payload "timeout" (po_pr_number p)
                  (review_stall_diagnostic st p)))])
  else (st, []).

Definition review_steps (p : Poll) (ci_changed : bool) : step_of :=
  let latest := latest_review_verdict (po_reviews p) in
  seq_step (cycle_step p)
    (seq_step (approval_step p latest)
       (seq_step (changes_step p latest)
          (seq_step (comment_step p latest)
             (seq_step (ci_step p ci_changed) (timeout_step p))))).

Definition compute_pr_actions_with_context (p : Poll) : step_of := fun st =>
  let ci_changed := negb (bool_decide (po_ci_status p = last_ci_status st)) in
  let ci_now_mergeable := bool_decide (po_ci_status p = CISuccess)
                          || bool_decide (po_ci_status p = CINeutral) in
  let recover_after_ci_block := po_merge_blocked_on_ci p && ci_changed && ci_now_mergeable in
  let '(st, pushed) := head_step p st in
  let '(st, blocked) := ci_block_step p ci_changed st in
  if notified_parent_timeout st && negb recover_after_ci_block && negb (po_replay p) then
    (st, pushed ++ blocked)%list
  else
    let '(st, actions) := review_steps p ci_changed st in
    (st, pushed ++ blocked ++ actions)%list.

(** * Review watcher: native handlers

    What [services/worktree_event_watcher.rs] tells an agent that has no
    plugin, and the data of the events it writes to the log. *)

Local Open Scope string_scope.

Definition value (payload : json) (key : string) : option json :=
  m ← as_object payload; obj_get key m.
Definition value_u64 (payload : json) (key : string) : option Z := v ← value payload key; as_u64 v.
Definition value_i64 (payload : json) (key : string) : option Z := v ← value payload key; as_i64 v.
Definition value_str (payload : json) (key : string) : option string :=
  v ← value payload key; as_str v.
Definition value_bool (payload : json) (key : string) : option bool :=
  v ← value payload key; match v with JBool b => Some b | _ => None end.

Definition paragraphs : string := LF_str ++ LF_str.

Definition ci_status_message (pr_number : Z) (status branch : string) : string :=
  "[CI Status] PR #" ++ pretty pr_number ++ " on branch " ++ branch ++ ": " ++ status
  ++ (if String.eqb status "success" then paragraphs ++ "CI passed."
      else if String.eqb status "failure" then
        paragraphs ++ "CI failed. Check the logs and fix the issue before proceeding."
      else "").

Definition ci_blocked_message (pr_number : Z) (status branch : string) : string :=
  "[CI BLOCKED: PR #" ++ pretty pr_number ++ "] CI finished with status " ++ status ++ " on "
  ++ branch ++ ". The TL owns the next decision and may use resume_pr.".

Definition tl_ci_blocked_message (pr_number : Z) (status branch : string) : string :=
  "[CI BLOCKED] PR #" ++ pretty pr_number ++ " CI status " ++ status ++ " on " ++ branch
  ++ ". Human direction required.".

Definition sibling_merged_message (merged_branch parent_branch : string) : string :=
  "[Sibling Merged] PR on branch " ++ merged_branch ++ " was merged into " ++ parent_branch
  ++ ". Rebase your branch to pick up the changes: git fetch origin && git rebase origin/"
  ++ parent_branch.

Definition pr_ready_message (pr_number : Z) : string :=
  "[PR READY] PR #" ++ pretty pr_number
  ++ " approved by Forgejo reviewer. Merge with `merge_pr` tool.".

Definition review_timeout_message (pr_number minutes : Z) : string :=
  "[REVIEW TIMEOUT] PR #" ++ pretty pr_number ++ " - no Forgejo reviewer response after "
  ++ pretty minutes
  ++ " minutes. Review timeout parks the slice at the `tl-timeout` gate; no merge is permitted.".

Definition fixes_pushed_message (pr_number : Z) (status : string) : string :=
  "[FIXES PUSHED] PR #" ++ pretty pr_number ++ " - review comments addressed, fixes pushed."
  ++ (if String.eqb status "success" then " CI passing. Ready to merge."
      else if String.eqb status "pending" then " CI running - merge when green."
      else " CI status: " ++ status ++ ".").

Definition commits_pushed_message (pr_number : Z) (status : string) : string :=
  "[COMMITS PUSHED] PR #" ++ pretty pr_number ++ " - new commits pushed."
  ++ (if String.eqb status "success" then " CI passing."
      else if String.eqb status "pending" then " CI running."
      else if String.eqb status "failure" then " CI failing."
      else " CI status: " ++ status ++ ".").

Definition stuck_message (pr_number rounds : Z) : string :=
  "[STUCK: " ++ pretty pr_number ++ ", rounds=" ++ pretty rounds
  ++ "] Review did not converge after " ++ pretty rounds
  ++ " rounds. Dev leaf remains alive. Ask the human for clarification before continuing.".

Definition one_of (s : string) (l : list string) : bool := existsb (String.eqb s) l.

Definition native_tl_pr_review_action (payload : json) : option EventActionResponse :=
  kind ← value_str payload "kind";
  pr_number ← value_u64 payload "pr_number";
  if one_of kind ["approved"; "reviewer_approved"] then
    Some (InjectMessage (pr_ready_message pr_number))
  else if String.eqb kind "timeout" then
    minutes ← match value_u64 payload "minutes_elapsed" with
              | Some n => Some n
              | None => value_u64 payload "minutes"
              end;
    Some (InjectMessage (review_timeout_message pr_number minutes))
  else if String.eqb kind "fixes_pushed" then
    status ← value_str payload "ci_status";
    Some (InjectMessage (fixes_pushed_message pr_number status))
  else if String.eqb kind "commits_pushed" then
    status ← value_str payload "ci_status";
    Some (InjectMessage (commits_pushed_message pr_number status))
  else if String.eqb kind "ci_triggered" then
    branch ← value_str payload "branch";
    Some (InjectMessage ("[CI TRIGGERED] PR #" ++ pretty pr_number ++ " on " ++ branch ++ "."))
  else if String.eqb kind "ci_blocked" then
    status ← value_str payload "ci_status";
    branch ← value_str payload "branch";
    Some (InjectMessage (tl_ci_blocked_message pr_number status branch))
  else if String.eqb kind "stuck" then
    rounds ← value_u64 payload "rounds"; Some (InjectMessage (stuck_message pr_number rounds))
  else if String.eqb kind "dev_not_pushing" then
    Some (InjectMessage ("[DEV NOT PUSHING] PR #" ++ pretty pr_number ++ " needs TL attention."))
  else if String.eqb kind "reviewer_not_responding" then
    Some (InjectMessage ("[REVIEWER NOT RESPONDING] PR #" ++ pretty pr_number
                         ++ " needs TL attention."))
  else if String.eqb kind "reviewer_never_started" then
    Some (InjectMessage ("[REVIEWER NEVER STARTED] PR #" ++ pretty pr_number
                         ++ " needs TL attention."))
  else None.

(** [pr_number as i64]. *)
Definition as_i64_cast (n : Z) : Z := if (n <=? i64_max)%Z then n else (n - 2 ^ 64)%Z.

Definition native_leaf_pr_review_action (payload : json) : option EventActionResponse :=
  kind ← value_str payload "kind";
  if String.eqb kind "ci_triggered" then
    pr_number ← value_u64 payload "pr_number";
    branch ← value_str payload "branch";
    Some (InjectMessage ("[CI TRIGGERED] PR #" ++ pretty pr_number ++ " on " ++ branch
                         ++ ". Waiting for CI result."))
  else if String.eqb kind "ci_blocked" then
    pr_number ← value_u64 payload "pr_number";
    status ← value_str payload "ci_status";
    branch ← value_str payload "branch";
    Some (NotifyParent (ci_blocked_message pr_number status branch) (as_i64_cast pr_number)
            (Some "blocked"))
  else if String.eqb kind "stuck" then
    pr_number ← value_u64 payload "pr_number";
    rounds ← value_u64 payload "rounds";
    Some (InjectMessage ("Review loop stopped for PR #" ++ pretty pr_number ++ " after "
      ++ pretty rounds
      ++ " rounds. The TL must provide the next repair assignment through resume_pr; this invocation may exit."))
  else if one_of kind ["approved"; "reviewer_approved"; "timeout"; "fixes_pushed";
                       "commits_pushed"; "dev_not_pushing"; "reviewer_not_responding";
                       "reviewer_never_started"]
  then Some NoAction
  else None.

Definition native_pr_review_action (payload : json) (role : string) : option EventActionResponse :=
  if String.eqb role "tl" then native_tl_pr_review_action payload
  else native_leaf_pr_review_action payload.

Definition native_ci_status_action (payload : json) (role : string) : option EventActionResponse :=
  pr_number ← value_u64 payload "pr_number";
  status ← value_str payload "status";
  branch ← value_str payload "branch";
  let merge_blocked_on_ci := default false (value_bool payload "merge_blocked_on_ci") in
  if String.eqb role "tl" then Some (InjectMessage (ci_status_message pr_number status branch))
  else if merge_blocked_on_ci && String.eqb status "failure" then
    Some (NotifyParent (ci_blocked_message pr_number status branch) (as_i64_cast pr_number)
            (Some "blocked"))
  else Some (InjectMessage (ci_status_message pr_number status branch)).

Definition native_event_action (event_type : string) (payload : json) (role : string)
  : option EventActionResponse :=
  if String.eqb event_type "pr_review" then native_pr_review_action payload role
  else if String.eqb event_type "ci_status" then native_ci_status_action payload role
  else if String.eqb event_type "sibling_merged" then
    merged ← value_str payload "merged_branch";
    parent ← value_str payload "parent_branch";
    Some (InjectMessage (sibling_merged_message merged parent))
  else if String.eqb event_type "issue_closed" then
    issue ← value_i64 payload "issue_id";
    closed_by ← value_str payload "closed_by";
    Some (InjectMessage ("[ISSUE CLOSED: #" ++ pretty issue ++ " closed by " ++ closed_by
                         ++ ". Exiting; your worktree will be cleaned up.]"))
  else None.

(** Which events also go to the parent. *)
Definition review_event_dispatches_to_parent (event_type : string) (payload : json) : bool :=
  String.eqb event_type "pr_review"
  && match payload_kind payload with
     | Some kind =>
         one_of kind ["review_received"; "review_commented"; "reviewer_requested_changes"]
     | None => false
     end.

Definition canonical_parent_recipient (parent_branch : string) : string :=
  if str_contains "." parent_branch then parent_branch else "root".

(** ** Event data *)

Definition comment_json (c : ForgejoReviewComment) : json :=
  jobj [ ("body", JStr (fc_body c)); ("path", jopt JStr (fc_path c));
         ("diff_hunk", jopt JStr (fc_diff_hunk c)); ("thread_id", jopt JStr (fc_thread_id c));
         ("resolved", JBool (fc_resolved c)); ("author_branch", jopt JStr (fc_author_branch c)) ].

Definition review_json (r : ForgejoReview) : json :=
  jobj [ ("review_id", jopt JNum (fr_review_id r)); ("body", JStr (fr_body r));
         ("state", JStr (state_name (fr_state r)));
         ("author_branch", jopt JStr (fr_author_branch r));
         ("commit_id", jopt JStr (fr_commit_id r));
         ("submitted_at", jopt JStr (fr_submitted_at r));
         ("author_agent_id", jopt JStr (fr_author_agent_id r)) ].

Definition verdict_fields (review : ForgejoReview) (object : list (string * json))
  : list (string * json) :=
  let object := obj_insert "review_id" (jopt JNum (fr_review_id review)) object in
  let object := obj_insert "verdict" (JStr (state_name (fr_state review))) object in
  let object := obj_insert "review_head_sha" (jopt JStr (fr_commit_id review)) object in
  let object := obj_insert "reviewer_account_authenticated"
                  (JBool (bool_decide (is_Some (fr_author_agent_id review)))) object in
  match fr_author_agent_id review with
  | Some agent_id =>
      obj_insert "reviewer_identity_unresolved" (JBool false)
        (obj_insert "reviewer_agent_id" (JStr agent_id) object)
  | None =>
      unresolved_reviewer "Forgejo review author did not resolve to a registered agent" object
  end.

Definition canonical_watcher_event_data (agent_id branch : string) (pr_number : Z)
    (slice_id : option string) (head_sha status message : string)
    (comments : option (list ForgejoReviewComment)) (reviews : option (list ForgejoReview))
  : json :=
  let review := items ← reviews;
                List.find (fun r => negb (bool_decide (fr_state r = NoVerdict))) (rev items) in
  let slice_id := match slice_id with
                  | Some s => if is_blank s then None else Some s
                  | None => None
                  end in
  let data := jobj
    [ ("agent_id", JStr agent_id); ("owner_id", JStr agent_id); ("branch", JStr branch);
      ("pr_number", JNum pr_number); ("slice_id", jopt JStr slice_id); ("head_sha", JStr head_sha);
      ("status", JStr status); ("message", JStr message);
      ("comments", jopt (fun l => JArr (map comment_json l)) comments);
      ("reviews", jopt (fun l => JArr (map review_json l)) reviews) ] in
  match review with
  | Some review => map_object (verdict_fields review) data
  | None => data
  end.

(** The data of [agent.task_blocked], when one is written. *)
Definition task_blocked_data (pending : PendingPrActions) (evidence : CiBlockEvidence)
  : option json :=
  slice_id ← match pp_slice_id pending with
             | Some s => if str_is_empty s then None else Some s
             | None => None
             end;
  '(cause, scope, recovery) ←
    match ce_attribution evidence with
    | BasePreExisting => Some ("base_ci_unstable", "base", "await_base_ci_recovery")
    | Indeterminate => Some ("human_decision_required", "ci_attribution_indeterminate",
                             "confirm_ci_failure_scope")
    | HeadIntroduced => None
    end;
  Some (jobj
    [ ("outcome", JStr "blocked"); ("slice_id", JStr slice_id); ("cause", JStr cause);
      ("scope_attribution", JStr scope); ("needs_human", JBool true); ("retryable", JBool false);
      ("recovery_action", JStr recovery); ("declared_difficulty", JStr "standard");
      ("matched_difficulty_rule", JStr "watcher_ci_attribution"); ("attempt", JNum 1);
      ("runtime_agent_id", JStr (pp_agent_name pending)); ("branch", JStr (pp_branch pending));
      ("pr_number", JNum (pp_pr_number pending)); ("base_sha", JStr (ce_base_sha evidence));
      ("head_sha", jopt JStr (ce_head_sha evidence));
      ("failed_checks", JArr (map JStr (ce_failed_checks evidence)));
      ("attribution", JStr (attribution_name (ce_attribution evidence))) ]).

(** ** Pull request metadata *)

Record PrBodyMetadata := {
  md_author_agent : option string;
  md_author_role : option string;
  md_birth_branch : option string;
  md_reviewer_agent : option string;
  md_reviewer_birth_branch : option string;
  md_chainlink_issue_id : option Z
}.

Definition pr_body_metadata_value (body key : string) : option string :=
  value ← head (omap (fun line => rest ← strip_prefix (key ++ ":") (str_trim line);
                                  Some (str_trim rest)) (lines body));
  if str_is_empty value then None else Some value.

Definition parse_pr_body_metadata (body : string) : PrBodyMetadata := {|
  md_author_agent := pr_body_metadata_value body "Authoring-Agent";
  md_author_role := pr_body_metadata_value body "Authoring-Role";
  md_birth_branch := pr_body_metadata_value body "Birth-Branch";
  md_reviewer_agent := pr_body_metadata_value body "Reviewer-Agent";
  md_reviewer_birth_branch := pr_body_metadata_value body "Reviewer-Birth-Branch";
  md_chainlink_issue_id := v ← pr_body_metadata_value body "Chainlink-Issue";
                           parse_u64 (trim_start_char "#" v) |}.

Definition author_agent_from_branch (branch : string) : option string :=
  '(_, slug) ← rsplit_once "." branch;
  if str_is_empty slug then None else Some slug.

(** ** Review verdict names and authors *)

(** [normalize_review_verdict] of [services/forgejo.rs], as the watcher's verdict. *)
Definition review_state_from_str (state : string) : ForgejoReviewVerdict :=
  let s := to_ascii_lowercase (str_trim state) in
  if one_of s ["approved"; "approve"] then Approved
  else if one_of s ["changes_requested"; "request_changes"; "request_changes_requested"]
  then ChangesRequested
  else if one_of s ["comment"; "commented"; "forgejo/comment"] then Commented
  else NoVerdict.

(** [handlers/agent.rs]. *)
Definition trimmed_login (login : option string) : option string :=
  l ← login; let l := str_trim l in if str_is_empty l then None else Some l.
Definition review_author_matches_reviewer_login (review_login reviewer_login : option string)
  : bool :=
  match trimmed_login review_login, trimmed_login reviewer_login with
  | Some a, Some b => String.eqb (to_ascii_lowercase a) (to_ascii_lowercase b)
  | _, _ => false
  end.
