(* ===== verification/ReviewWatcher.v ===== *)
(** * Review watcher: a poll

    [WorktreeEventWatcher] of [services/worktree_event_watcher.rs]: the open
    pull requests of one poll are matched with verified publications, observed,
    turned into events, and the state is kept in memory and in
    [.exo/watcher-state.json].  What a poll reads from Forgejo, from the agents'
    files and from the clock is a record; what it writes to the log and sends to
    agents is the list of its effects.  A hash map is a finite map, iterated in
    the order of [map_to_list]; the source's order is unspecified. *)

From stdpp Require Import gmap pretty sorting.
From S2P Require Import Prelude RustStr JsonValue SqlTable Ledger EventLog.
From S2P Require Import Publication ReviewTypes ReviewEvents.
Local Open Scope string_scope.

(** ** What a poll reads *)

(** The fields of an identity record the watcher reads. *)
Record AgentIdentityRecord := {
  ar_agent_type : AgentType;
  ar_birth_branch : string;
  ar_parent_branch : string;
  ar_slice_id : option string
}.

Inductive InvocationStatus := Running | Exited | Failed | Killed | TimedOut.
#[export] Instance InvocationStatus_eq_dec : EqDecision InvocationStatus.
Proof. solve_decision. Defined.

Record InvocationRecord := {
  inv_invocation_id : string;
  inv_ended_at : option Z;
  inv_status : InvocationStatus
}.
Definition is_live (r : InvocationRecord) : bool :=
  negb (bool_decide (is_Some (inv_ended_at r))) && bool_decide (inv_status r = Running).

Record ForgejoPullRequest := {
  fp_number : Z;
  fp_title : string;
  fp_body : string;
  fp_head_ref : string;
  fp_base_ref : string;
  fp_head_sha : option string
}.

Record ForgejoPullRequestReview := {
  fv_id : option Z;
  fv_state : string;
  fv_body : string;
  fv_commit_id : option string;
  fv_submitted_at : option string;
  fv_author_login : option string;
  fv_dismissed : bool;
  fv_stale : bool
}.

Record ForgejoPullRequestReviewComment := {
  frc_body : string;
  frc_path : option string;
  frc_diff_hunk : option string;
  frc_in_reply_to : option Z
}.

(** The answers of the Forgejo API during the poll. *)
Record Forgejo := {
  fj_open_pull_requests : result (list ForgejoPullRequest) string;
  fj_reviews : Z -> result (list ForgejoPullRequestReview) string;
  fj_review_comments : Z -> Z -> result (list ForgejoPullRequestReviewComment) string;
  fj_reviewer_login : option string;
  fj_commit_status : string -> result CIStatus string;
  fj_commit_statuses : string -> option (list ForgejoCommitStatus);
  fj_base_sha : Z -> option string
}.

(** [.exo/watcher-state.json]. *)
Inductive WatcherFile := FileAbsent | FileUnparsable | FileStored (state : WatcherStateFile).

(** The instants one pull request's handling reads. *)
Record Instants := { at_new : Z; at_start : Z; at_head : Z; at_end : Z }.

Record Env := {
  env_forgejo : option Forgejo;
  env_repo_info : result unit string;
  env_published_file : option RawPublishedHeadsFile;
  env_agents : list (string * AgentIdentityRecord);
  env_read_invocation : string -> result (option InvocationRecord) string;
  env_reviewer_invocation : Z -> string -> option string;
  env_controller_epoch : option string;
  env_ci_gate_enabled : bool;
  env_max_wait_seconds : Z;
  env_instants : Z -> Instants;
  env_utc_now : Z;
  env_reconcile_fault : option string;
  env_evict_fault : option string;
  env_persist_fault : option string
}.

(** The memory and the file of the watcher. *)
Record Watcher := { wr_prs : gmap Z WatchState; wr_file : WatcherFile }.

Inductive Effect :=
| LogEvent (event_type agent_id : string) (data : json)
| NotifyEvent (branch agent_id status message : string)
| Dispatch (branch : string) (agent_type : AgentType) (role event_type : string) (payload : json).

Definition find_agent (env : Env) (name : string) : option AgentIdentityRecord :=
  snd <$> List.find (fun x => String.eqb x.1 name) (env_agents env).

(** ** The state file *)

Definition read_watcher_state (f : WatcherFile) : result WatcherStateFile string :=
  match f with
  | FileAbsent => Ok default_state_file
  | FileUnparsable => Err "failed to parse watcher-state.json"
  | FileStored st => Ok st
  end.
(** [read_watcher_state().await.unwrap_or_default()]. *)
Definition state_or_default (f : WatcherFile) : WatcherStateFile :=
  match read_watcher_state f with Ok st => st | Err _ => default_state_file end.

Definition with_file (f : WatcherFile) (w : Watcher) : Watcher :=
  {| wr_prs := wr_prs w; wr_file := f |}.
Definition with_prs (prs : gmap Z WatchState) (w : Watcher) : Watcher :=
  {| wr_prs := prs; wr_file := wr_file w |}.

(** [WatcherRuntimeState::reset_review_cycle]. *)
Definition reset_review_cycle (pr_number : Z) (w : Watcher) : Watcher * bool :=
  match wr_prs w !! pr_number with
  | None => (w, false)
  | Some st => (with_prs (<[pr_number := reset_cycle st]> (wr_prs w)) w, true)
  end.

(** ** Ownership *)

Definition validate_publication_provenance (env : Env) (publication : PublishedHead)
  : result string string :=
  match publication_owner_matches publication None with
  | Err e => Err (ownership_error_text e)
  | Ok owner =>
      if str_is_empty owner then Err ("publication owner '" ++ owner ++ "' is invalid")
      else
        let identity := find_agent env owner in
        let current_invocation_id :=
          match ph_invocation_id publication with
          | Some _ =>
              match env_read_invocation env owner with
              | Ok (Some record) => Some (inv_invocation_id record)
              | _ => None
              end
          | None => None
          end in
        match verify_publication_ownership publication None
                (ar_birth_branch <$> identity) (ar_parent_branch <$> identity)
                (i ← identity; ar_slice_id i) current_invocation_id with
        | Err e => Err (ownership_error_text e)
        | Ok _ => Ok owner
        end
  end.

Definition ownership_unresolved (number : Z) (pr : PrEntry) (publication : PublishedHead)
    (reason : string) : Effect :=
  LogEvent "watcher.ownership_unresolved" "watcher"
    (jobj [ ("pr_number", JNum number); ("branch", JStr (pe_head_branch pr));
            ("publication_owner", jopt JStr (ph_author_agent publication));
            ("registry_owner", JStr (pe_author_agent pr)); ("reason", JStr reason) ]).

(** ** The registry of open pull requests *)

(** A publication registry that does not read is taken for empty. *)
Definition published_heads (env : Env) : list PublishedHead :=
  match read_published_heads (env_published_file env) with Ok l => l | Err _ => [] end.

Definition pr_entry (env : Env) (watcher_state : WatcherStateFile) (pr : ForgejoPullRequest)
  : PrEntry :=
  let metadata := parse_pr_body_metadata (fp_body pr) in
  let number := fp_number pr in
  let persisted := default default_pr_state (file_prs watcher_state !! number) in
  let birth_branch := default (fp_head_ref pr) (md_birth_branch metadata) in
  let author_agent :=
    match md_author_agent metadata with
    | Some a => a
    | None => default (fp_head_ref pr) (author_agent_from_branch birth_branch)
    end in
  let head_sha :=
    sha ← fp_head_sha pr;
    if existsb (fun h => matches_current h number (fp_head_ref pr) (fp_base_ref pr) sha)
         (published_heads env) then Some sha else None in
  {| pe_number := number; pe_head_branch := fp_head_ref pr; pe_base_branch := fp_base_ref pr;
     pe_title := fp_title pr; pe_body := fp_body pr; pe_author_agent := author_agent;
     pe_author_role := default "dev" (md_author_role metadata); pe_created_at := env_utc_now env;
     pe_state := Open; pe_last_review_at := None; pe_last_head_sha := head_sha;
     pe_approved_at_sha := None; pe_reviewer_agent := md_reviewer_agent metadata;
     pe_reviewer_birth_branch := md_reviewer_birth_branch metadata;
     pe_rounds := wp_rounds persisted; pe_stuck := wp_stuck persisted;
     pe_needs_human_review := wp_needs_human_review persisted; pe_merge_blocked_on_ci := false;
     pe_chainlink_issue_id := md_chainlink_issue_id metadata |}.

Definition registry := gmap Z PrEntry.

Definition load_registry_from_forgejo (env : Env) (f : WatcherFile) : result registry string :=
  match env_forgejo env with
  | None => Ok ∅
  | Some forgejo =>
      let? _ := env_repo_info env in
      let watcher_state := state_or_default f in
      let? pull_requests := fj_open_pull_requests forgejo in
      Ok (fold_left (fun reg pr => <[fp_number pr := pr_entry env watcher_state pr]> reg)
            pull_requests ∅)
  end.

Definition evict_closed_prs_from_state (state : WatcherStateFile) (reg : registry)
  : WatcherStateFile * list Z :=
  ({| notification_epoch := notification_epoch state;
      file_prs := filter (fun kv => is_Some (reg !! kv.1)) (file_prs state) |},
   merge_sort Z.le (map fst (map_to_list
     (filter (fun kv => ~ is_Some (reg !! kv.1)) (file_prs state))))).

Definition evict_closed_prs_from_watcher_state (env : Env) (reg : registry) (w : Watcher)
  : Watcher * result unit string :=
  let '(state, evicted) := evict_closed_prs_from_state (state_or_default (wr_file w)) reg in
  match evicted with
  | [] => (w, Ok tt)
  | _ =>
      match env_evict_fault env with
      | Some e => (w, Err e)
      | None => (with_file (FileStored state) w, Ok tt)
      end
  end.

(** ** Observing *)

Definition observed_ci_status (env : Env) (head_sha : string) : CIStatus :=
  if negb (env_ci_gate_enabled env) then CINeutral
  else match env_forgejo env, env_repo_info env with
       | Some forgejo, Ok _ =>
           match fj_commit_status forgejo head_sha with Ok s => s | Err _ => CIUnknown end
       | _, _ => CIUnknown
       end.

Definition ci_failure_evidence (env : Env) (pr_number : Z) (head_sha : string)
  : option CiBlockEvidence :=
  forgejo ← env_forgejo env;
  _ ← result_to_option (env_repo_info env);
  let base_sha := fj_base_sha forgejo pr_number in
  let head_statuses := fj_commit_statuses forgejo head_sha in
  let base_statuses := sha ← base_sha; fj_commit_statuses forgejo sha in
  Some (classify_ci_failure base_sha (Some head_sha) base_statuses head_statuses).

Definition resolve_review_author (env : Env) (forgejo : Forgejo) (pr_number : Z)
    (head_sha : string) (login : option string) (owner_agent : string) : option string :=
  if negb (review_author_matches_reviewer_login login (fj_reviewer_login forgejo)) then None
  else
    resolved ← env_reviewer_invocation env pr_number head_sha;
    if String.eqb owner_agent resolved then None else Some resolved.

(** The reviews that count: not dismissed or stale, with a verdict, for this head. *)
Definition local_review (env : Env) (forgejo : Forgejo) (pr_number : Z) (head_sha : string)
    (owner_agent : string) (review : ForgejoPullRequestReview) : option ForgejoReview :=
  if fv_dismissed review || fv_stale review then None
  else
    let state := review_state_from_str (fv_state review) in
    if bool_decide (state = NoVerdict) then None
    else if bool_decide (fv_commit_id review = Some head_sha) then
      Some {| fr_review_id := fv_id review; fr_body := fv_body review; fr_state := state;
              fr_author_branch := None; fr_commit_id := fv_commit_id review;
              fr_submitted_at := fv_submitted_at review;
              fr_author_agent_id :=
                resolve_review_author env forgejo pr_number head_sha (fv_author_login review)
                  owner_agent |}
    else None.

Definition inline_comments (forgejo : Forgejo) (pr_number : Z) (review : ForgejoReview)
  : list ForgejoReviewComment :=
  match fr_review_id review with
  | None => []
  | Some review_id =>
      match fj_review_comments forgejo pr_number review_id with
      | Err _ => []
      | Ok comments =>
          map (fun c => {| fc_body := frc_body c; fc_path := frc_path c;
                           fc_diff_hunk := frc_diff_hunk c;
                           fc_thread_id := pretty <$> frc_in_reply_to c; fc_resolved := false;
                           fc_author_branch := None |}) comments
      end
  end.

Definition forgejo_review_parts (env : Env) (pr_number : Z) (head_sha owner_agent : string)
  : ForgejoReviewState * list ForgejoReviewComment * list ForgejoReview * bool :=
  match env_forgejo env, env_repo_info env with
  | Some forgejo, Ok _ =>
      match fj_reviews forgejo pr_number with
      | Err _ => (PendingReview, [], [], false)
      | Ok reviews =>
          let local_reviews := omap (local_review env forgejo pr_number head_sha owner_agent)
                                 reviews in
          (aggregate_review_state local_reviews,
           concat (map (inline_comments forgejo pr_number) local_reviews),
           local_reviews, negb (bool_decide (local_reviews = [])))
      end
  | _, _ => (PendingReview, [], [], false)
  end.

(** The last of the ledger-owned publications, or the last one. *)
Definition preferred_publication (l : list PublishedHead) : option PublishedHead :=
  max_by_key implb (fun h => bool_decide (ph_provenance h = LedgerOwned)) l.

Definition observe (env : Env) (number : Z) (pr : PrEntry)
  : option Observation * list Effect :=
  match pe_state pr, pe_last_head_sha pr with
  | Open, Some head_sha =>
      if is_blank head_sha then (None, [])
      else
        match preferred_publication
                (List.filter (fun h => matches_current h number (pe_head_branch pr)
                                         (pe_base_branch pr) head_sha)
                   (published_heads env)) with
        | None => (None, [])
        | Some publication =>
            match validate_publication_provenance env publication with
            | Err reason => (None, [ownership_unresolved number pr publication reason])
            | Ok owner =>
                let '(review_state, comments, reviews, present) :=
                  forgejo_review_parts env number head_sha owner in
                let ci_status := observed_ci_status env head_sha in
                (Some {| ob_publication := Some publication; ob_head_sha := head_sha;
                         ob_review_state := review_state; ob_comments := comments;
                         ob_reviews := reviews; ob_changes_requested_rounds := 0;
                         ob_ci_status := ci_status; ob_forgejo_review_present := present;
                         ob_ci_block_evidence :=
                           if bool_decide (ci_status = CIFailure)
                           then ci_failure_evidence env number head_sha else None |}, [])
            end
        end
  | _, _ => (None, [])
  end.

Definition collect_observations (env : Env) (reg : registry)
  : gmap Z Observation * list Effect :=
  (map_imap (fun number pr => (observe env number pr).1) reg,
   concat (map (fun x => (observe env x.1 x.2).2) (map_to_list reg))).

(** ** Reviewer attempts *)

Definition fail_attempt (now : Z) (a : ReviewerAttempt) : ReviewerAttempt := {|
  ra_pr_number := ra_pr_number a; ra_head_sha := ra_head_sha a; ra_round := ra_round a;
  ra_attempt_id := ra_attempt_id a; ra_phase := PhaseFailed;
  ra_invocation_id := ra_invocation_id a; ra_reviewer_agent := ra_reviewer_agent a;
  ra_routing := ra_routing a; ra_claimed_at := ra_claimed_at a; ra_started_at := ra_started_at a;
  ra_finished_at := Some now;
  ra_failure := Some "reviewer invocation exited before a verdict" |}.

Definition with_attempt (a : option ReviewerAttempt) (s : WatcherPrState) : WatcherPrState := {|
  wp_rounds := wp_rounds s; wp_stuck := wp_stuck s; wp_needs_human_review := wp_needs_human_review s;
  wp_last_review_state := wp_last_review_state s; wp_last_head_sha := wp_last_head_sha s;
  wp_last_review_fingerprint := wp_last_review_fingerprint s;
  wp_notified_parent_timeout := wp_notified_parent_timeout s;
  wp_notified_parent_approved := wp_notified_parent_approved s;
  wp_addressed_changes := wp_addressed_changes s; wp_ci_triggered_sha := wp_ci_triggered_sha s;
  wp_ci_blocked_notified := wp_ci_blocked_notified s; wp_reviewer_attempt := a |}.

(** A running attempt whose reviewer is known and whose invocation ended or is
    another one. *)
Definition attempt_exited (env : Env) (a : ReviewerAttempt) : bool :=
  bool_decide (ra_phase a = PhaseRunning)
  && match ra_reviewer_agent a with
     | None => false
     | Some agent =>
         match env_read_invocation env agent with
         | Err _ => false
         | Ok None => true
         | Ok (Some record) =>
             negb (String.eqb (inv_invocation_id record) (default "" (ra_invocation_id a))
                   && is_live record)
         end
     end.

Definition reconcile_pr (env : Env) (s : WatcherPrState) : WatcherPrState :=
  match wp_reviewer_attempt s with
  | Some a => if attempt_exited env a
              then with_attempt (Some (fail_attempt (env_utc_now env) a)) s else s
  | None => s
  end.

Definition reviewer_attempt_is_current (st : WatchState) (pr_number : Z) (head_sha attempt_id : string)
  : bool :=
  match reviewer_attempt st with
  | Some a => (ra_pr_number a =? pr_number)%Z && String.eqb (ra_head_sha a) head_sha
              && String.eqb (ra_attempt_id a) attempt_id
  | None => false
  end.

Definition adopt_failed_attempt (persisted : gmap Z WatcherPrState) (pr_number : Z) (st : WatchState)
  : WatchState :=
  match s ← persisted !! pr_number; wp_reviewer_attempt s with
  | Some a =>
      if bool_decide (ra_phase a = PhaseFailed)
         && reviewer_attempt_is_current st pr_number (ra_head_sha a) (ra_attempt_id a)
      then set_reviewer_attempt a st else st
  | None => st
  end.

Definition some_attempt_exited (env : Env) (persisted : gmap Z WatcherPrState) : bool :=
  existsb (fun x => match wp_reviewer_attempt x.2 with
                    | Some a => attempt_exited env a
                    | None => false
                    end) (map_to_list persisted).

Definition reconcile_reviewer_attempts (env : Env) (w : Watcher) : Watcher * result unit string :=
  let persisted := state_or_default (wr_file w) in
  if some_attempt_exited env (file_prs persisted) then
    let prs := reconcile_pr env <$> file_prs persisted in
    let w := with_prs (map_imap (fun n st => Some (adopt_failed_attempt prs n st)) (wr_prs w)) w in
    match env_reconcile_fault env with
    | Some e => (w, Err e)
    | None =>
        (with_file (FileStored {| notification_epoch := notification_epoch persisted;
                                  file_prs := prs |}) w, Ok tt)
    end
  else (w, Ok tt).

(** ** Processing *)

Definition review_event_target (pr : PrEntry) : string * AgentType * string :=
  (pe_head_branch pr, from_dir_name (pe_author_agent pr), pe_author_role pr).

(** The state of a pull request seen for the first time in this process. *)
Definition restored_attempt (persisted : WatcherPrState) (head_sha : string)
  : option ReviewerAttempt :=
  a ← wp_reviewer_attempt persisted;
  if String.eqb (ra_head_sha a) head_sha then Some a else None.

Definition restored_state (persisted : WatcherPrState) (branch : string) (agent_type : AgentType)
    (head_sha : string) (now : Z) : WatchState :=
  let attempt := restored_attempt persisted head_sha in
  {| pr_review_cycle_count := 0; last_ci_status := CIUnknown; branch_name := branch;
     ws_agent_type := agent_type; first_seen := now;
     notified_parent_timeout := wp_notified_parent_timeout persisted;
     last_review_state := wp_last_review_state persisted;
     last_review_fingerprint := wp_last_review_fingerprint persisted;
     last_sha := default head_sha (wp_last_head_sha persisted);
     notified_parent_approved := wp_notified_parent_approved persisted;
     addressed_changes := wp_addressed_changes persisted; rounds := wp_rounds persisted;
     stuck := wp_stuck persisted || wp_needs_human_review persisted;
     reviewer_spawned := match attempt with
                         | Some a => bool_decide (ra_phase a = PhaseClaimed)
                                     || bool_decide (ra_phase a = PhaseRunning)
                         | None => false
                         end;
     reviewer_attempt := attempt; review_approved_at := None;
     ci_triggered_sha := wp_ci_triggered_sha persisted;
     ci_blocked_notified := wp_ci_blocked_notified persisted |}.

(** The reviews of the observation that are about its head. *)
Definition local_reviews (obs : Observation) (head_sha_changed : bool) : list ForgejoReview :=
  let current_reviews :=
    List.filter (fun r => match fr_commit_id r with
                          | Some sha => String.eqb sha (ob_head_sha obs)
                          | None => true
                          end) (obs_to_review_parts obs).1 in
  let current_review_present :=
    match ob_reviews obs with
    | [] => ob_forgejo_review_present obs
    | _ => negb (bool_decide (current_reviews = []))
    end in
  if head_sha_changed && review_state_is_terminal (ob_review_state obs)
     && negb current_review_present
  then [] else current_reviews.

Definition head_sha_changed (persisted : WatcherPrState) (runtime : option WatchState)
    (pr : PrEntry) (obs : Observation) : bool :=
  match match wp_last_head_sha persisted, runtime with
        | Some sha, _ => Some sha
        | None, Some st => Some (last_sha st)
        | None, None => pe_last_head_sha pr
        end with
  | Some sha => negb (String.eqb sha (ob_head_sha obs))
  | None => false
  end.

Definition poll_of (env : Env) (replay : bool) (number : Z) (pr : PrEntry) (obs : Observation)
    (reviews : list ForgejoReview) : Poll := {|
  po_pr_number := number; po_sha := ob_head_sha obs; po_comments := ob_comments obs;
  po_reviews := reviews; po_ci_status := ob_ci_status obs;
  po_merge_blocked_on_ci := pe_merge_blocked_on_ci pr;
  po_reviewer_registered :=
    bool_decide (is_Some (env_reviewer_invocation env number (ob_head_sha obs)));
  po_forgejo_review_present := ob_forgejo_review_present obs; po_replay := replay;
  po_branch := pe_head_branch pr; po_max_wait_seconds := env_max_wait_seconds env;
  po_now := at_start (env_instants env number); po_now_head := at_head (env_instants env number);
  po_now_end := at_end (env_instants env number) |}.

(** What the loop accumulates. *)
Record Loop := {
  lp_prs : gmap Z WatchState;
  lp_pending : list PendingPrActions;
  lp_head_sha_updates : list (Z * string);
  lp_effects : list Effect
}.

(** A pull request whose observation is verified. *)
Definition process_verified (env : Env) (watcher_state : WatcherStateFile) (replay : bool)
    (number : Z) (pr : PrEntry) (obs : Observation) (publication : PublishedHead) (owner : string)
    (l : Loop) : Loop :=
  let '(branch, agent_type, agent_role) := review_event_target pr in
  let persisted := default default_pr_state (file_prs watcher_state !! number) in
  let runtime := lp_prs l !! number in
  let changed := head_sha_changed persisted runtime pr obs in
  let poll := poll_of env replay number pr obs (local_reviews obs changed) in
  let st := match runtime with
            | Some st => if changed then clear_reviewer st else st
            | None => restored_state persisted branch agent_type (ob_head_sha obs)
                        (at_new (env_instants env number))
            end in
  let '(st, actions) := compute_pr_actions_with_context poll st in
  let actions := match ob_ci_block_evidence obs with
                 | Some evidence => attach_ci_block_evidence evidence actions
                 | None => actions
                 end in
  {| lp_prs := <[number := st]> (lp_prs l);
     lp_pending := match actions with
                   | [] => lp_pending l
                   | _ => (lp_pending l ++
                           [{| pp_pr_number := number; pp_actions := actions; pp_branch := branch;
                               pp_agent_type := agent_type; pp_agent_name := owner;
                               pp_agent_role := agent_role; pp_slice_id := ph_slice_id publication;
                               pp_head_sha := ob_head_sha obs;
                               pp_issue_id := id ← pe_chainlink_issue_id pr;
                                              if (id <=? i64_max)%Z then Some id else None |}])%list
                   end;
     lp_head_sha_updates := (lp_head_sha_updates l ++ [(number, ob_head_sha obs)])%list;
     lp_effects := lp_effects l |}.

Definition log_effect (e : Effect) (l : Loop) : Loop := {|
  lp_prs := lp_prs l; lp_pending := lp_pending l;
  lp_head_sha_updates := lp_head_sha_updates l; lp_effects := (lp_effects l ++ [e])%list |}.

Definition process_one (env : Env) (reg : registry) (watcher_state : WatcherStateFile)
    (replay : bool) (l : Loop) (x : Z * Observation) : Loop :=
  let '(number, obs) := x in
  match reg !! number, ob_publication obs with
  | Some pr, Some publication =>
      match validate_publication_provenance env publication with
      | Err reason => log_effect (ownership_unresolved number pr publication reason) l
      | Ok owner =>
          if matches_current publication number (pe_head_branch pr) (pe_base_branch pr)
               (ob_head_sha obs)
          then process_verified env watcher_state replay number pr obs publication owner l
          else l
      end
  | _, _ => l
  end.

(** [persist_runtime_pr_state]. *)
Definition persisted_pr (head_sha : string) (st : option WatchState) (entry : WatcherPrState)
  : WatcherPrState :=
  match st with
  | Some st => {|
      wp_rounds := rounds st; wp_stuck := stuck st; wp_needs_human_review := stuck st;
      wp_last_review_state := last_review_state st; wp_last_head_sha := Some head_sha;
      wp_last_review_fingerprint := last_review_fingerprint st;
      wp_notified_parent_timeout := notified_parent_timeout st;
      wp_notified_parent_approved := notified_parent_approved st;
      wp_addressed_changes := addressed_changes st; wp_ci_triggered_sha := ci_triggered_sha st;
      wp_ci_blocked_notified := ci_blocked_notified st;
      wp_reviewer_attempt := reviewer_attempt st |}
  | None => {|
      wp_rounds := wp_rounds entry; wp_stuck := wp_stuck entry;
      wp_needs_human_review := wp_needs_human_review entry;
      wp_last_review_state := wp_last_review_state entry; wp_last_head_sha := Some head_sha;
      wp_last_review_fingerprint := wp_last_review_fingerprint entry;
      wp_notified_parent_timeout := wp_notified_parent_timeout entry;
      wp_notified_parent_approved := wp_notified_parent_approved entry;
      wp_addressed_changes := wp_addressed_changes entry;
      wp_ci_triggered_sha := wp_ci_triggered_sha entry;
      wp_ci_blocked_notified := wp_ci_blocked_notified entry;
      wp_reviewer_attempt := wp_reviewer_attempt entry |}
  end.

Definition persist_runtime_pr_state (env : Env) (updates : list (Z * string)) (w : Watcher)
  : Watcher * result unit string :=
  match updates with
  | [] => (w, Ok tt)
  | _ =>
      let state := state_or_default (wr_file w) in
      let prs :=
        fold_left (fun prs u =>
                     <[u.1 := persisted_pr u.2 (wr_prs w !! u.1)
                                (default default_pr_state (prs !! u.1))]> prs)
          updates (file_prs state) in
      match env_persist_fault env with
      | Some e => (w, Err e)
      | None =>
          (with_file (FileStored
             {| notification_epoch := match env_controller_epoch env with
                                      | Some epoch => Some epoch
                                      | None => notification_epoch state
                                      end;
                file_prs := prs |}) w, Ok tt)
      end
  end.

(** ** Dispatching *)

Definition parent_event_target (env : Env) (branch : string) : string * AgentType :=
  let parent_branch := match rsplit_once "." branch with Some (p, _) => p | None => branch end in
  let parent_session_id := canonical_parent_recipient parent_branch in
  let parent_agent_type :=
    match find_agent env parent_session_id with
    | Some r => ar_agent_type r
    | None =>
        match List.find (fun x => String.eqb (ar_birth_branch x.2) parent_branch)
                (env_agents env) with
        | Some x => ar_agent_type x.2
        | None => Claude
        end
    end in
  (parent_session_id, parent_agent_type).

Definition log_review_wakeup (pending : PendingPrActions) (payload : json) : Effect :=
  let data := canonical_review_wakeup_data (pp_branch pending) (pp_pr_number pending)
                (pp_head_sha pending) payload in
  let data := match native_tl_pr_review_action payload with
              | Some (InjectMessage message) =>
                  map_object (obj_insert "notification" (JStr message)) data
              | _ => data
              end in
  let event_agent :=
    match value_str payload "reviewer_agent_id" with
    | Some id => id
    | None => match value_bool payload "reviewer_identity_unresolved" with
              | Some true => "reviewer-unresolved"
              | _ => pp_agent_name pending
              end
    end in
  LogEvent "pr.review" event_agent data.

Definition emit_event (pending : PendingPrActions) (pr_number : Z) (status message head_sha : string)
    (comments : option (list ForgejoReviewComment)) (reviews : option (list ForgejoReview))
  : list Effect :=
  let event_name :=
    if String.eqb status "copilot_review" then "copilot.review"
    else if one_of status ["success"; "failure"; "pending"] then "ci.status_changed"
    else status in
  [ LogEvent event_name (pp_agent_name pending)
      (canonical_watcher_event_data (pp_agent_name pending) (pp_branch pending) pr_number
         (pp_slice_id pending) head_sha status message comments reviews);
    NotifyEvent (pp_branch pending) (pp_agent_name pending) status message ].

(** One action: what is logged and who is told. *)
Definition run_action (env : Env) (pending : PendingPrActions) (action : PendingAction)
  : list Effect :=
  match action with
  | WasmEvent event_type payload =>
      let payload := if String.eqb event_type "pr_review"
                     then attach_review_correlation payload pending else payload in
      let wakeup := if String.eqb event_type "pr_review"
                    then [log_review_wakeup pending payload] else [] in
      let owner := Dispatch (pp_branch pending) (pp_agent_type pending) (pp_agent_role pending)
                     event_type payload in
      let parent :=
        if review_event_dispatches_to_parent event_type payload then
          let '(branch, agent_type) := parent_event_target env (pp_branch pending) in
          [Dispatch branch agent_type "tl" event_type payload]
        else [] in
      (wakeup ++ owner :: parent)%list
  | EmitEvent pr_number status message head_sha comments reviews =>
      emit_event pending pr_number status message head_sha comments reviews
  | EmitTaskBlocked evidence =>
      match task_blocked_data pending evidence with
      | Some data => [LogEvent "agent.task_blocked" (pp_agent_name pending) data]
      | None => []
      end
  | TriggerManualCi _ _ _ => []
  end.

Definition run_pending (env : Env) (pending : list PendingPrActions) : list Effect :=
  concat (map (fun p => concat (map (run_action env p) (pp_actions p))) pending).

(** [process_observations]: the pull requests that are gone, or the error. *)
Definition process_observations (env : Env) (reg : registry) (observations : gmap Z Observation)
    (w : Watcher) : Watcher * list Effect * result (list Z) string :=
  match reconcile_reviewer_attempts env w with
  | (w, Err e) => (w, [], Err e)
  | (w, Ok _) =>
      let watcher_state := state_or_default (wr_file w) in
      let replay :=
        match env_controller_epoch env with
        | Some epoch => negb (bool_decide (notification_epoch watcher_state = Some epoch))
        | None => false
        end in
      let l := fold_left (process_one env reg watcher_state replay) (map_to_list observations)
                 {| lp_prs := wr_prs w; lp_pending := []; lp_head_sha_updates := [];
                    lp_effects := [] |} in
      let removed := map fst (map_to_list
                       (filter (fun kv => ~ is_Some (reg !! kv.1)) observations)) in
      let w := with_prs (fold_left (fun prs n => delete n prs) removed (lp_prs l)) w in
      match persist_runtime_pr_state env (lp_head_sha_updates l) w with
      | (w, Err e) => (w, lp_effects l, Err e)
      | (w, Ok _) => (w, lp_effects l ++ run_pending env (lp_pending l), Ok removed)%list
      end
  end.

(** ** Merged siblings *)

Definition parent_of (branch : string) : string :=
  match rsplit_once "." branch with Some (parent, _) => parent | None => "main" end.

Definition legacy_event_role_for_agent_type (agent_type : AgentType) : string :=
  match agent_type with
  | Claude => "tl"
  | Codex | Shoal | OpenCode => "dev"
  | Process => "process"
  end.

Definition sibling_merged (pr_number : Z) (st : WatchState) (sibling : Z * WatchState)
  : list Effect :=
  let parent := parent_of (branch_name st) in
  let payload := jobj [ ("merged_branch", JStr (branch_name st)); ("parent_branch", JStr parent);
                        ("sibling_pr_number", JNum sibling.1) ] in
  [ LogEvent "agent.sibling_merged" (branch_name sibling.2)
      (canonical_sibling_merged_data pr_number (branch_name st) parent (Some (last_sha st))
         (branch_name sibling.2) sibling.1 payload);
    Dispatch (branch_name sibling.2) (ws_agent_type sibling.2)
      (legacy_event_role_for_agent_type (ws_agent_type sibling.2)) "sibling_merged" payload ].

Definition detect_merged (reg : registry) (removed : list Z) (w : Watcher) : list Effect :=
  concat (map (fun number =>
    match wr_prs w !! number with
    | None => []
    | Some st =>
        concat (map (fun sibling =>
          if negb (sibling.1 =? number)%Z
             && String.eqb (parent_of (branch_name sibling.2)) (parent_of (branch_name st))
             && bool_decide (is_Some (reg !! sibling.1))
          then sibling_merged number st sibling else [])
          (map_to_list (wr_prs w)))
    end) removed).

(** [poll_cycle], up to the reminders of the inbox store.  The records it
    logs about itself are left out. *)
Definition poll_cycle (env : Env) (w : Watcher) : Watcher * list Effect * result unit string :=
  match load_registry_from_forgejo env (wr_file w) with
  | Err e => (w, [], Err e)
  | Ok reg =>
      match evict_closed_prs_from_watcher_state env reg w with
      | (w, Err e) => (w, [], Err e)
      | (w, Ok _) =>
          if bool_decide (reg = ∅) then (w, [], Ok tt)
          else
            let '(observations, seen) := collect_observations env reg in
            match process_observations env reg observations w with
            | (w, effects, Err e) => (w, seen ++ effects, Err e)%list
            | (w, effects, Ok removed) =>
                (w, seen ++ effects ++ detect_merged reg removed w, Ok tt)%list
            end
      end
  end.
