(* ===== verification/ReviewEventsSpec.v ===== *)
(** * Review watcher: the state machine's theorems

    What a sequence of polls of one pull request can announce. *)

From stdpp Require Import gmap pretty.
From S2P Require Import Prelude RustStr JsonValue Publication ReviewTypes ReviewEvents.
From S2P Require Import ReviewWatcher.

Local Open Scope string_scope.

Implicit Types (p : Poll) (st : WatchState).

(** ** The kind of an action *)

Definition kind_of (a : PendingAction) : option string :=
  match a with
  | WasmEvent "pr_review" payload => payload_kind payload
  | _ => None
  end.


Lemma kind_map_object f payload :
  (forall m, obj_get "kind" (f m) = obj_get "kind" m) ->
  payload_kind (map_object f payload) = payload_kind payload.
Proof. intros Hf. destruct payload; try done. unfold payload_kind. cbn. by rewrite Hf. Qed.

Lemma kind_authority payload reviews v :
  payload_kind (attach_review_authority payload reviews v) = payload_kind payload.
Proof.
  apply kind_map_object. intros m. unfold attach_review_correlation_fields, unresolved_reviewer.
  destruct (latest_review v reviews) as [r|]; [|by rewrite !obj_get_insert].
  destruct (fr_author_agent_id r); by rewrite !obj_get_insert.
Qed.

Lemma kind_approved p : payload_kind (approved_payload p) = Some "approved".
Proof. unfold approved_payload. by rewrite kind_authority. Qed.

Lemma kind_changes p : payload_kind (feedback_payload p ChangesRequested) = Some "review_received".
Proof. unfold feedback_payload. by rewrite kind_authority. Qed.

Lemma kind_commented p : payload_kind (feedback_payload p Commented) = Some "review_commented".
Proof. unfold feedback_payload. by rewrite kind_authority. Qed.

Lemma kind_timeout p st :
  payload_kind (map_object (obj_insert "minutes_elapsed" (JNum (po_max_wait_seconds p / 60)))
     (review_stall_observation_payload "timeout" (po_pr_number p) (review_stall_diagnostic st p)))
  = Some "timeout".
Proof. rewrite kind_map_object; [done|]. intros m. by rewrite obj_get_insert. Qed.

(** The payloads built in place. *)
Lemma kind_head_fixes p :
  payload_kind (jobj [ ("kind", JStr "fixes_pushed"); ("pr_number", JNum (po_pr_number p));
                       ("ci_status", JStr (ci_as_str (po_ci_status p)));
                       ("head_sha", JStr (po_sha p)) ]) = Some "fixes_pushed".
Proof. reflexivity. Qed.

Lemma kind_head_commits p :
  payload_kind (jobj [ ("kind", JStr "commits_pushed"); ("pr_number", JNum (po_pr_number p));
                       ("ci_status", JStr (ci_as_str (po_ci_status p))) ])
  = Some "commits_pushed".
Proof. reflexivity. Qed.

Lemma kind_stall kind n d : payload_kind (review_stall_observation_payload kind n d) = Some kind.
Proof. reflexivity. Qed.

Lemma kind_triggered p :
  payload_kind (jobj [ ("kind", JStr "ci_triggered"); ("pr_number", JNum (po_pr_number p));
                       ("branch", JStr (po_branch p)); ("head_sha", JStr (po_sha p)) ])
  = Some "ci_triggered".
Proof. reflexivity. Qed.

#[local] Opaque approved_payload feedback_payload review_stall_observation_payload jobj map_object.

(** ** Announcements per head *)

Definition announces (ks : list string) (a : PendingAction) : bool :=
  match kind_of a with Some k => existsb (String.eqb k) ks | None => false end.
Definition notices (ks : list string) (l : list PendingAction) : nat :=
  length (List.filter (announces ks) l).
Definition b2n (b : bool) : nat := if b then 1 else 0.

Lemma notices_app ks a b : notices ks (a ++ b) = (notices ks a + notices ks b)%nat.
Proof. unfold notices. by rewrite List.filter_app, length_app. Qed.

Lemma notices_cons ks a l : notices ks (a :: l) = (b2n (announces ks a) + notices ks l)%nat.
Proof. unfold notices. simpl. by destruct (announces ks a). Qed.

(** An announcement counts where its kind is listed. *)
Lemma notices_review ks payload k l :
  payload_kind payload = Some k ->
  notices ks (pr_review payload :: l) = (b2n (existsb (String.eqb k) ks) + notices ks l)%nat.
Proof. intros E. rewrite notices_cons. unfold announces, kind_of, pr_review. by rewrite E. Qed.

Ltac count_notices :=
  repeat match goal with
  | |- context [notices _ (pr_review (approved_payload _) :: _)] =>
      rewrite (notices_review _ _ _ _ (kind_approved _))
  | |- context [notices _ (pr_review (feedback_payload _ ChangesRequested) :: _)] =>
      rewrite (notices_review _ _ _ _ (kind_changes _))
  | |- context [notices _ (pr_review (feedback_payload _ Commented) :: _)] =>
      rewrite (notices_review _ _ _ _ (kind_commented _))
  | |- context [notices _ (pr_review (map_object _ (review_stall_observation_payload _ _ _)) :: _)] =>
      rewrite (notices_review _ _ _ _ (kind_timeout _ _))
  | |- context [notices _ (pr_review (review_stall_observation_payload _ _ _) :: _)] =>
      rewrite (notices_review _ _ _ _ (kind_stall _ _ _))
  | |- context [notices _ (pr_review _ :: _)] =>
      first [ rewrite (notices_review _ _ _ _ (kind_triggered _))
            | rewrite (notices_review _ _ _ _ (kind_head_fixes _))
            | rewrite (notices_review _ _ _ _ (kind_head_commits _)) ]
  | |- context [notices _ (_ :: _)] => rewrite notices_cons
  end.

(** A step that keeps the head and pays for each announcement with a flag. *)
Definition pays (sha : string) (ks : list string) (flag : WatchState -> bool) (f : step_of) : Prop :=
  forall st, last_sha st = sha ->
    last_sha (f st).1 = sha /\ (notices ks (f st).2 + b2n (flag st) <= b2n (flag (f st).1))%nat.

Lemma pays_seq sha ks flag f g :
  pays sha ks flag f -> pays sha ks flag g -> pays sha ks flag (seq_step f g).
Proof.
  intros F G st Hs. unfold seq_step. destruct (F st Hs) as [Hs1 H1].
  destruct (f st) as [st1 a]. cbn [fst snd] in *. destruct (G st1 Hs1) as [Hs2 H2].
  destruct (g st1) as [st2 b]. cbn [fst snd] in *. split; [done|]. rewrite notices_app. lia.
Qed.

(** A step that leaves the flag alone and announces nothing of the kind. *)
Lemma pays_silent sha ks flag st st' l :
  last_sha st' = sha -> flag st' = flag st -> notices ks l = 0%nat ->
  last_sha st' = sha /\ (notices ks l + b2n (flag st) <= b2n (flag st'))%nat.
Proof. intros Hs E N. rewrite E, N. by split. Qed.

(** The announcements made at most once per head, with their flags. *)
Inductive once (sha : string) : list string -> (WatchState -> bool) -> Prop :=
| once_timeout : once sha ["timeout"] notified_parent_timeout
| once_blocked : once sha ["ci_blocked"] ci_blocked_notified
| once_triggered : once sha ["ci_triggered"] (fun st => bool_decide (ci_triggered_sha st = Some sha))
| once_pushed : once sha ["fixes_pushed"; "commits_pushed"] (fun st => String.eqb sha (last_sha st)).

Lemma pays_ci_block sha p c ks flag : once sha ks flag -> pays sha ks flag (ci_block_step p c).
Proof.
  intros O st Hs. unfold ci_block_step. destruct (_ && _) eqn:E; [|by split].
  apply andb_true_iff in E as [_ E%negb_true_iff].
  destruct O; cbn [fst snd]; (split; [done|]); count_notices; try reflexivity.
  by rewrite E.
Qed.

Lemma pays_cycle sha p ks flag : once sha ks flag -> pays sha ks flag (cycle_step p).
Proof. intros O st Hs. unfold cycle_step. destruct (_ =? _)%Z; [by split|]. destruct O; by split. Qed.

Lemma pays_trigger sha p ks flag :
  once sha ks flag -> po_sha p = sha -> pays sha ks flag (trigger_step p).
Proof.
  intros O Hp st Hs. unfold trigger_step. rewrite Hp. case_bool_decide as D; [by split|].
  destruct O; cbn [fst snd]; (split; [done|]); count_notices; try reflexivity.
  cbn [ci_triggered_sha set_ci_triggered]. rewrite bool_decide_false by done.
  by rewrite bool_decide_true.
Qed.

Lemma pays_approval sha p v ks flag :
  once sha ks flag -> po_sha p = sha -> pays sha ks flag (approval_step p v).
Proof.
  intros O Hp st Hs. unfold approval_step. destruct (_ && _); [|by split].
  destruct (pays_trigger sha p ks flag O Hp (set_review_approved (po_now p) st) Hs) as [H1 H2].
  destruct (trigger_step p _) as [st' l]. cbn [fst snd] in *. split; [done|].
  etrans; [|apply H2]. clear H2. destruct O; count_notices; reflexivity.
Qed.

Lemma pays_changes sha p v ks flag : once sha ks flag -> pays sha ks flag (changes_step p v).
Proof.
  intros O st Hs. unfold changes_step. destruct (_ && _); [|by split].
  destruct O; cbn [fst snd]; (split; [done|]); count_notices; reflexivity.
Qed.

Lemma pays_comment sha p v ks flag : once sha ks flag -> pays sha ks flag (comment_step p v).
Proof.
  intros O st Hs. unfold comment_step. destruct (_ && _); [|by split].
  destruct O; cbn [fst snd]; (split; [done|]); count_notices; reflexivity.
Qed.

Lemma pays_ci sha p c ks flag : once sha ks flag -> pays sha ks flag (ci_step p c).
Proof.
  intros O st Hs. unfold ci_step. destruct c; [|by split].
  destruct O; cbn [fst snd]; (split; [done|]); count_notices; reflexivity.
Qed.

Lemma pays_timeout sha p ks flag :
  once sha ks flag -> po_replay p = false -> pays sha ks flag (timeout_step p).
Proof.
  intros O Hr st Hs. unfold timeout_step. rewrite Hr, orb_false_r.
  destruct (_ && _) eqn:E; [|by split]. apply andb_true_iff in E as [E%negb_true_iff _].
  destruct O; cbn [fst snd]; (split; [done|]); count_notices; try reflexivity.
  by rewrite E.
Qed.

Lemma pays_review sha p c ks flag :
  once sha ks flag -> po_sha p = sha -> po_replay p = false -> pays sha ks flag (review_steps p c).
Proof.
  intros O Hp Hr. unfold review_steps.
  repeat apply pays_seq; eauto using pays_cycle, pays_approval, pays_changes, pays_comment,
    pays_ci, pays_timeout.
Qed.

(** The flag of an older head counts for nothing. *)
Definition held (sha : string) (flag : WatchState -> bool) (st : WatchState) : bool :=
  String.eqb sha (last_sha st) && flag st.

Lemma held_current sha flag st : last_sha st = sha -> held sha flag st = flag st.
Proof. intros E. unfold held. by rewrite E, String.eqb_refl. Qed.

Lemma head_budget sha p ks flag st :
  once sha ks flag -> po_sha p = sha ->
  last_sha (head_step p st).1 = sha
  /\ (notices ks (head_step p st).2 + b2n (held sha flag st) <= b2n (flag (head_step p st).1))%nat.
Proof.
  intros O Hp. unfold head_step, held. rewrite Hp. destruct (String.eqb_spec sha (last_sha st)) as [E|E].
  { by rewrite andb_true_l. }
  rewrite andb_false_l. destruct (bool_decide _); cbn [fst snd]; (split; [done|]);
    rewrite Nat.add_0_r.
  all: destruct O; count_notices; try apply Nat.le_0_l.
  all: cbn [last_sha set_new_head]; by rewrite String.eqb_refl.
Qed.

Lemma compute_budget sha p ks flag st :
  once sha ks flag -> po_sha p = sha -> po_replay p = false ->
  let out := compute_pr_actions_with_context p st in
  last_sha out.1 = sha
  /\ (notices ks out.2 + b2n (held sha flag st) <= b2n (held sha flag out.1))%nat.
Proof.
  intros O Hp Hr. cbn zeta. unfold compute_pr_actions_with_context.
  set (c := negb _). destruct (head_budget sha p ks flag st O Hp) as [H1 B1].
  destruct (head_step p st) as [st1 l1]. cbn [fst snd] in *.
  destruct (pays_ci_block sha p c ks flag O st1 H1) as [H2 B2].
  destruct (ci_block_step p c st1) as [st2 l2]. cbn [fst snd] in *.
  destruct (_ && negb (po_replay p)); cbn [fst snd].
  { split; [done|]. rewrite (held_current _ _ _ H2), notices_app. lia. }
  destruct (pays_review sha p c ks flag O Hp Hr st2 H2) as [H3 B3].
  destruct (review_steps p c st2) as [st3 l3]. cbn [fst snd] in *.
  split; [done|]. rewrite (held_current _ _ _ H3), !notices_app. lia.
Qed.

(** Polls in sequence. *)
Fixpoint run_polls (ps : list Poll) (st : WatchState) : WatchState * list PendingAction :=
  match ps with
  | [] => (st, [])
  | p :: ps =>
      let '(st, a) := compute_pr_actions_with_context p st in
      let '(st, b) := run_polls ps st in (st, a ++ b)%list
  end.

Definition ordinary_poll (sha : string) (p : Poll) : Prop := po_sha p = sha /\ po_replay p = false.

Lemma polls_budget sha ps ks flag st :
  once sha ks flag -> Forall (ordinary_poll sha) ps ->
  (notices ks (run_polls ps st).2 + b2n (held sha flag st)
   <= b2n (held sha flag (run_polls ps st).1))%nat.
Proof.
  intros O Hps. revert st. induction Hps as [|p ps [Hp Hr] _ IH]; intros st; [done|].
  cbn [run_polls]. destruct (compute_budget sha p ks flag st O Hp Hr) as [_ B].
  destruct (compute_pr_actions_with_context p st) as [st1 a]. specialize (IH st1).
  destruct (run_polls ps st1) as [st2 b]. cbn [fst snd] in *. rewrite notices_app. lia.
Qed.

Lemma b2n_le_1 b : (b2n b <= 1)%nat.
Proof. destruct b; cbn; lia. Qed.

(** C36. However often one head is polled, outside a replay the watcher
    announces at most once that it was pushed, that the wait timed out, that
    continuous integration blocks the approved change and that the checks of
    an approved head were started. *)
Theorem one_notice_per_head (sha : string) (ps : list Poll) (st : WatchState)
    (H : Forall (ordinary_poll sha) ps) :
  Forall (fun ks => notices ks (run_polls ps st).2 <= 1)%nat
    [["fixes_pushed"; "commits_pushed"]; ["timeout"]; ["ci_blocked"]; ["ci_triggered"]].
Proof.
  assert (B : forall ks flag, once sha ks flag -> (notices ks (run_polls ps st).2 <= 1)%nat).
  { intros ks flag O. pose proof (polls_budget sha ps ks flag st O H).
    pose proof (b2n_le_1 (held sha flag (run_polls ps st).1)). lia. }
  repeat (apply Forall_cons_2; [eapply B; constructor|]). apply Forall_nil_2.
Qed.

(** ** Polling again *)

(** What two polls of an unchanged pull request share. *)
Record same_inputs (p p' : Poll) : Prop := {
  same_sha : po_sha p' = po_sha p;
  same_comments : po_comments p' = po_comments p;
  same_reviews : po_reviews p' = po_reviews p;
  same_ci : po_ci_status p' = po_ci_status p;
  same_gate : po_merge_blocked_on_ci p' = po_merge_blocked_on_ci p
}.

(** The state that holds all a poll's inputs. *)
Record settled (p : Poll) (st : WatchState) : Prop := {
  settled_sha : last_sha st = po_sha p;
  settled_ci : last_ci_status st = po_ci_status p;
  settled_count : pr_review_cycle_count st = Z.of_nat (length (po_comments p) + length (po_reviews p));
  settled_review :
    latest_review_verdict (po_reviews p) <> NoVerdict ->
    last_review_state st = latest_review_verdict (po_reviews p);
  settled_feedback :
    latest_review_verdict (po_reviews p) = ChangesRequested
    \/ latest_review_verdict (po_reviews p) = Commented ->
    last_review_fingerprint st
    = review_fingerprint (po_comments p) (po_reviews p) (latest_review_verdict (po_reviews p))
}.

Lemma seq_state f g st : (seq_step f g st).1 = (g (f st).1).1.
Proof. unfold seq_step. destruct (f st) as [st1 a]. cbn [fst]. by destruct (g st1). Qed.

Lemma review_settles p c st :
  last_sha st = po_sha p -> c = negb (bool_decide (po_ci_status p = last_ci_status st)) ->
  settled p (review_steps p c st).1.
Proof.
  intros Hs ->. unfold review_steps. rewrite !seq_state.
  set (st1 := (cycle_step p st).1).
  assert (E1 : last_sha st1 = po_sha p /\ last_ci_status st1 = last_ci_status st
               /\ pr_review_cycle_count st1 = Z.of_nat (length (po_comments p) + length (po_reviews p))).
  { unfold st1, cycle_step. by destruct (Z.eqb_spec (Z.of_nat (length (po_comments p) + length (po_reviews p)))
      (pr_review_cycle_count st)). }
  destruct E1 as (S1 & C1 & N1). clearbody st1.
  set (v := latest_review_verdict (po_reviews p)).
  set (st2 := (comment_step p v (changes_step p v (approval_step p v st1).1).1).1).
  assert (E2 : last_sha st2 = po_sha p /\ last_ci_status st2 = last_ci_status st
               /\ pr_review_cycle_count st2 = pr_review_cycle_count st1
               /\ (v <> NoVerdict -> last_review_state st2 = v)
               /\ (v = ChangesRequested \/ v = Commented ->
                   last_review_fingerprint st2 = review_fingerprint (po_comments p) (po_reviews p) v)).
  { unfold st2, approval_step, changes_step, comment_step, trigger_step, fresh_feedback. clearbody v.
    destruct v; cbn [bool_decide]; rewrite ?andb_false_l, ?andb_true_l; cbn [fst].
    - split_and!; try done. by intros [|].
    - repeat case_bool_decide; cbn [negb orb fst]; by split_and!.
    - repeat case_bool_decide; cbn [negb orb fst]; by split_and!.
    - destruct (_ || po_replay p) eqn:E.
      + destruct (bool_decide (ci_triggered_sha _ = _)); cbn [fst]; split_and!; try done; by intros [|].
      + apply orb_false_iff in E as [E%negb_false_iff%bool_decide_eq_true _]. cbn [fst].
        split_and!; try done; by intros [|]. }
  destruct E2 as (S2 & C2 & N2 & R2 & F2). clearbody st2.
  set (st3 := (ci_step p _ st2).1).
  assert (E3 : settled p st3).
  { unfold st3, ci_step. case_bool_decide as D; cbn [negb fst].
    - split; try done; congruence.
    - split; try done; cbn; congruence. }
  clearbody st3. unfold timeout_step. by destruct (_ && _); [destruct E3|].
Qed.

Lemma settled_same p p' st : same_inputs p p' -> settled p st -> settled p' st.
Proof. intros [E1 E2 E3 E4 E5] []. by split; rewrite ?E1, ?E2, ?E3, ?E4. Qed.

Lemma seq_skip f g st : f st = (st, []) -> seq_step f g st = g st.
Proof. intros E. unfold seq_step. rewrite E. by destruct (g st). Qed.

Lemma seq_ext f g h st : g (f st).1 = h (f st).1 -> seq_step f g st = seq_step f h st.
Proof. unfold seq_step. destruct (f st) as [st1 a]. cbn [fst]. by intros ->. Qed.

(** A settled state has nothing left to announce but the timeout. *)
Lemma settled_steps p st :
  settled p st -> po_replay p = false -> review_steps p false st = timeout_step p st.
Proof.
  intros [_ _ Hn Hv Hf] Hr. unfold review_steps.
  rewrite !seq_skip; [done|..];
    unfold ci_step, comment_step, changes_step, approval_step, cycle_step, fresh_feedback;
    rewrite ?Hr, ?Hn, ?Z.eqb_refl; try done.
  all: destruct (latest_review_verdict (po_reviews p)); try done.
  all: rewrite Hv by done; rewrite ?Hf by auto; by rewrite ?bool_decide_true by done.
Qed.

Lemma settled_quiet p st :
  settled p st -> po_replay p = false ->
  compute_pr_actions_with_context p st = timeout_step p st.
Proof.
  intros S Hr. unfold compute_pr_actions_with_context, head_step, ci_block_step.
  rewrite (settled_sha _ _ S), String.eqb_refl, (settled_ci _ _ S), bool_decide_true by done.
  cbn [negb andb]. rewrite !andb_false_r, andb_true_r, Hr. cbn [negb andb app].
  destruct (notified_parent_timeout st) eqn:T; cbn [andb].
  - unfold timeout_step. by rewrite T, Hr.
  - rewrite (settled_steps _ _ S Hr). by destruct (timeout_step p st).
Qed.

(** What decides whether a timed out head is taken up again. *)
Definition ci_moved (p : Poll) (st : WatchState) : bool :=
  negb (bool_decide (po_ci_status p = last_ci_status st)).
Definition recovers (p : Poll) (st : WatchState) : bool :=
  po_merge_blocked_on_ci p && ci_moved p st
  && (bool_decide (po_ci_status p = CISuccess) || bool_decide (po_ci_status p = CINeutral)).

(** A timed out head at which the poll stopped before the review. *)
Record parked (p : Poll) (st : WatchState) : Prop := {
  parked_sha : last_sha st = po_sha p;
  parked_timeout : notified_parent_timeout st = true;
  parked_gate : recovers p st = false;
  parked_block : ci_block_step p (ci_moved p st) st = (st, [])
}.

Lemma head_state p st :
  last_sha (head_step p st).1 = po_sha p /\ last_ci_status (head_step p st).1 = last_ci_status st.
Proof.
  unfold head_step. destruct (String.eqb_spec (po_sha p) (last_sha st)) as [E|E]; [done|].
  cbn zeta. by destruct (bool_decide (last_review_state st = _)).
Qed.

Lemma ci_block_state p c st (st' := (ci_block_step p c st).1) :
  last_sha st' = last_sha st /\ last_ci_status st' = last_ci_status st
  /\ ci_block_step p c st' = (st', []).
Proof.
  subst st'. unfold ci_block_step at 1 2 4 5. cbn zeta.
  destruct (c && _ && _ && _) eqn:B; cbn [fst]; (split; [done|split; [done|]]); unfold ci_block_step.
  - cbn [ci_blocked_notified set_ci_blocked negb]. by rewrite andb_false_r.
  - by rewrite B.
Qed.

Lemma poll_outcome p st :
  settled p (compute_pr_actions_with_context p st).1
  \/ parked p (compute_pr_actions_with_context p st).1.
Proof.
  unfold compute_pr_actions_with_context.
  pose proof (head_state p st) as [S1 C1]. destruct (head_step p st) as [st1 l1]. cbn [fst] in *.
  pose proof (ci_block_state p (ci_moved p st) st1) as (S2 & C2 & Q2).
  fold (ci_moved p st). destruct (ci_block_step p _ st1) as [st2 l2]. cbn [fst] in *.
  assert (Hc : ci_moved p st = ci_moved p st2) by (unfold ci_moved; by rewrite C2, C1).
  rewrite Hc in *. fold (recovers p st2).
  destruct (notified_parent_timeout st2 && _ && _) eqn:Ex; cbn [fst].
  - right. apply andb_true_iff in Ex as [Ex _].
    apply andb_true_iff in Ex as [Ex1 Ex2%negb_true_iff]. split; congruence.
  - left. destruct (review_steps p _ st2) as [st3 l3] eqn:E3. cbn [fst].
    change st3 with (st3, l3).1. rewrite <- E3. apply review_settles; [congruence|done].
Qed.

Lemma parked_same p p' st : same_inputs p p' -> parked p st -> parked p' st.
Proof.
  intros [E1 E2 E3 E4 E5] [Hs Ht Hg Hb]. unfold recovers, ci_moved, ci_block_step in *.
  split; rewrite ?E1; unfold recovers, ci_moved, ci_block_step; rewrite ?E4, ?E5; try done.
  revert Hb. cbn zeta. by destruct (_ && bool_decide (is_Some _) && _).
Qed.

Lemma parked_quiet p st :
  parked p st -> po_replay p = false ->
  compute_pr_actions_with_context p st = timeout_step p st.
Proof.
  intros [Hs Ht Hg Hb] Hr. unfold compute_pr_actions_with_context, head_step.
  rewrite Hs, String.eqb_refl. fold (ci_moved p st). rewrite Hb. fold (recovers p st).
  rewrite Hg, Ht, Hr. unfold timeout_step. by rewrite Ht, Hr.
Qed.

(** Polling a pull request again whose head, comments, reviews and checks
    are unchanged announces nothing, whatever the first poll did, unless the
    wait has elapsed in between: then the timeout, once. *)
Theorem unchanged_pr_stays_quiet (p p' : Poll) (st : WatchState)
    (H : same_inputs p p') (R : po_replay p' = false) :
  let st1 := (compute_pr_actions_with_context p st).1 in
  compute_pr_actions_with_context p' st1 = timeout_step p' st1.
Proof.
  destruct (poll_outcome p st) as [S|S].
  - apply settled_quiet; [by apply (settled_same p)|done].
  - apply parked_quiet; [by apply (parked_same p)|done].
Qed.

(** * Review watcher: restarts

    What a controller that starts again on the stored state announces about a
    head it had already polled. *)

Local Open Scope string_scope.

Section restart.
Context (branch : string) (agent_type : AgentType) (now : Z).

(** The state of a head stored after a poll and read by another process. *)
Definition reload (p : Poll) (entry : WatcherPrState) (st : WatchState) : WatchState :=
  restored_state (persisted_pr (po_sha p) (Some st) entry) branch agent_type (po_sha p) now.

Lemma reload_moved p p' entry st :
  same_inputs p p' ->
  ci_moved p' (reload p entry st) = negb (bool_decide (po_ci_status p = CIUnknown)).
Proof. intros S. unfold ci_moved. by rewrite (same_ci _ _ S). Qed.

(** No approval instant survives, so nothing is blocked. *)
Lemma reload_block p p' c entry st :
  ci_block_step p' c (reload p entry st) = (reload p entry st, []).
Proof. unfold ci_block_step. cbn [review_approved_at reload restored_state]. by rewrite andb_false_r. Qed.

Lemma reload_head p p' entry st :
  same_inputs p p' -> head_step p' (reload p entry st) = (reload p entry st, []).
Proof.
  intros S. unfold head_step. rewrite (same_sha _ _ S).
  change (last_sha (reload p entry st)) with (po_sha p). by rewrite String.eqb_refl.
Qed.

(** The review itself is not announced again. *)
Lemma reload_review p p' entry st c :
  settled p st -> same_inputs p p' -> po_replay p' = false ->
  review_steps p' c (reload p entry st)
  = seq_step (cycle_step p') (seq_step (ci_step p' c) (timeout_step p')) (reload p entry st).
Proof.
  intros [_ _ _ Hv Hf] [_ E2 E3 _ _] Hr.
  unfold review_steps. rewrite E3.
  assert (Q : forall n,
    let st' := set_cycle_count n (reload p entry st) in
    approval_step p' (latest_review_verdict (po_reviews p)) st' = (st', [])
    /\ changes_step p' (latest_review_verdict (po_reviews p)) st' = (st', [])
    /\ comment_step p' (latest_review_verdict (po_reviews p)) st' = (st', [])).
  { intros n. cbn zeta. unfold approval_step, changes_step, comment_step, fresh_feedback.
    rewrite Hr, E2, E3. cbn [last_review_state last_review_fingerprint set_cycle_count].
    change (last_review_state (reload p entry st)) with (last_review_state st).
    change (last_review_fingerprint (reload p entry st)) with (last_review_fingerprint st).
    destruct (latest_review_verdict (po_reviews p)); try done;
      rewrite Hv by done; rewrite ?Hf by auto; split_and!; try done;
      by rewrite ?bool_decide_true by done. }
  assert (Hc : exists n, (cycle_step p' (reload p entry st)).1 = set_cycle_count n (reload p entry st)).
  { unfold cycle_step. case_match; by eexists. }
  destruct Hc as (n & Hc). destruct (Q n) as (Q1 & Q2 & Q3). apply seq_ext. rewrite Hc.
  by rewrite (seq_skip _ _ _ Q1), (seq_skip _ _ _ Q2), (seq_skip _ _ _ Q3).
Qed.

(** A controller that starts again on the stored state and finds a pull
    request as its predecessor last polled it repeats no review, push or
    block announcement: nothing at all for a head whose wait had run out,
    otherwise only the known check status, and the timeout if the wait,
    measured from the restart, has elapsed. *)
Theorem restart_repeats_only_ci (p p' : Poll) (entry : WatcherPrState) (st : WatchState)
    (H : same_inputs p p') (R : po_replay p' = false) (G : po_merge_blocked_on_ci p = false) :
  let st1 := (compute_pr_actions_with_context p st).1 in
  compute_pr_actions_with_context p' (reload p entry st1)
  = if notified_parent_timeout st1 then (reload p entry st1, [])
    else seq_step (cycle_step p')
           (seq_step (ci_step p' (negb (bool_decide (po_ci_status p = CIUnknown))))
              (timeout_step p')) (reload p entry st1).
Proof.
  cbn zeta. destruct (poll_outcome p st) as [S|S].
  all: set (st1 := (compute_pr_actions_with_context p st).1) in *; clearbody st1.
  all: unfold compute_pr_actions_with_context; rewrite (reload_head _ _ _ _ H).
  all: fold (ci_moved p' (reload p entry st1)); rewrite (reload_moved _ _ _ _ H), reload_block.
  all: rewrite (same_gate _ _ H), G, R.
  all: change (notified_parent_timeout (reload p entry st1)) with (notified_parent_timeout st1).
  - cbn [andb negb app]. destruct (notified_parent_timeout st1); [done|]. cbn [andb].
    rewrite (reload_review _ _ _ _ _ S H R). by destruct (seq_step _ _ _).
  - by rewrite (parked_timeout _ _ S).
Qed.
End restart.

(** ** A lost approval *)

(** A state that knows of the approval but not of its instant. *)
Record approval_lost (sha : string) (st : WatchState) : Prop := {
  lost_sha : last_sha st = sha;
  lost_review : last_review_state st = Approved;
  lost_instant : review_approved_at st = None
}.

(** A poll that finds the head approved. *)
Definition approved_poll (sha : string) (p : Poll) : Prop :=
  ordinary_poll sha p /\ latest_review_verdict (po_reviews p) = Approved.

Definition keeps_lost (sha : string) (f : step_of) : Prop :=
  forall st, approval_lost sha st ->
    approval_lost sha (f st).1 /\ notices ["ci_blocked"] (f st).2 = 0%nat.

Lemma keeps_lost_seq sha f g :
  keeps_lost sha f -> keeps_lost sha g -> keeps_lost sha (seq_step f g).
Proof.
  intros F G st L. unfold seq_step. destruct (F st L) as [L1 N1].
  destruct (f st) as [st1 a]. cbn [fst snd] in *. destruct (G st1 L1) as [L2 N2].
  destruct (g st1) as [st2 b]. cbn [fst snd] in *. split; [done|]. rewrite notices_app. lia.
Qed.

Lemma keeps_lost_cycle sha p : keeps_lost sha (cycle_step p).
Proof. intros st [L1 L2 L3]. unfold cycle_step. by case_match. Qed.

Lemma keeps_lost_ci sha p c : keeps_lost sha (ci_step p c).
Proof. intros st [L1 L2 L3]. unfold ci_step. by destruct c. Qed.

Lemma keeps_lost_timeout sha p : keeps_lost sha (timeout_step p).
Proof.
  intros st [L1 L2 L3]. unfold timeout_step. destruct (_ && _); [|done]. cbn [fst snd].
  split; [done|]. by rewrite (notices_review _ _ _ _ (kind_timeout _ _)).
Qed.

Lemma lost_poll sha p st :
  approved_poll sha p -> approval_lost sha st ->
  approval_lost sha (compute_pr_actions_with_context p st).1
  /\ notices ["ci_blocked"] (compute_pr_actions_with_context p st).2 = 0%nat.
Proof.
  intros [[Hp Hr] Hv] L. unfold compute_pr_actions_with_context, head_step.
  rewrite Hp, (lost_sha _ _ L), String.eqb_refl.
  replace (ci_block_step p _ st) with (st, @nil PendingAction).
  2: { unfold ci_block_step. rewrite (lost_instant _ _ L), (bool_decide_false (is_Some None)) by apply is_Some_None.
       by rewrite andb_false_r. }
  destruct (_ && negb (po_replay p)); [done|].
  assert (K : keeps_lost sha (review_steps p (negb (bool_decide (po_ci_status p = last_ci_status st))))).
  { unfold review_steps. rewrite Hv. apply keeps_lost_seq; [apply keeps_lost_cycle|].
    intros st1 L1. rewrite seq_skip; [|unfold approval_step; by rewrite Hr, (lost_review _ _ L1)].
    rewrite !seq_skip by done. revert st1 L1.
    apply keeps_lost_seq; [apply keeps_lost_ci|apply keeps_lost_timeout]. }
  destruct (K st L) as [K1 K2]. destruct (review_steps _ _ st). cbn [fst snd app] in *. done.
Qed.

(** The instant of an approval is not stored, so after a restart the failed
    checks of an approved head are never announced as blocking it, however
    often and with whatever check results the approved head is polled. *)
Theorem restart_forgets_the_block (sha branch : string) (agent_type : AgentType) (now : Z)
    (persisted : WatcherPrState) (ps : list Poll)
    (P : wp_last_review_state persisted = Approved /\ wp_last_head_sha persisted = Some sha)
    (H : Forall (approved_poll sha) ps) :
  notices ["ci_blocked"] (run_polls ps (restored_state persisted branch agent_type sha now)).2
  = 0%nat.
Proof.
  assert (L : approval_lost sha (restored_state persisted branch agent_type sha now)).
  { destruct P as [P1 P2]. split; cbn; [by rewrite P2|done|done]. }
  revert L. generalize (restored_state persisted branch agent_type sha now).
  induction H as [|p ps Hp _ IH]; intros st L; [done|].
  cbn [run_polls]. destruct (lost_poll sha p st Hp L) as [L1 N1].
  destruct (compute_pr_actions_with_context p st) as [st1 a]. specialize (IH st1 L1).
  destruct (run_polls ps st1) as [st2 b]. cbn [fst snd] in *. rewrite notices_app. lia.
Qed.
