(* ===== verification/ReviewWatcherSpec.v ===== *)
(** * Review watcher: the theorems of a poll

    Which pull requests a poll acts on, what it cannot announce, and what the
    evidence of a failed check says. *)

From stdpp Require Import gmap pretty sorting.
From S2P Require Import Prelude RustStr JsonValue Publication.
From S2P Require Import ReviewTypes ReviewEvents ReviewWatcher ReviewEventsSpec.
Local Open Scope string_scope.

(** ** Folds *)

Lemma fold_left_keeps {A B} (P : A -> Prop) (f : A -> B -> A) (l : list B) (a : A) :
  (forall a b, b ∈ l -> P a -> P (f a b)) -> P a -> P (fold_left f l a).
Proof.
  revert a. induction l as [|b l IH]; intros a Hf Ha; [done|]. cbn [fold_left]. apply IH.
  - intros a' b' Hb. apply Hf. by right.
  - apply Hf; [by left|done].
Qed.

(** ** The gate of a registry entry *)

Lemma registry_gate env f reg n pr :
  load_registry_from_forgejo env f = Ok reg -> reg !! n = Some pr ->
  pe_merge_blocked_on_ci pr = false.
Proof.
  unfold load_registry_from_forgejo. destruct (env_forgejo env) as [forgejo|]; [|by intros [= <-]].
  destruct (env_repo_info env); [|done]. destruct (fj_open_pull_requests forgejo) as [prs|]; [|done].
  intros [= <-]. revert n pr.
  apply (fold_left_keeps (fun reg : registry => map_Forall (fun _ pr => pe_merge_blocked_on_ci pr = false) reg)).
  - intros reg pr _ HF. by apply map_Forall_insert_2.
  - apply map_Forall_empty.
Qed.

(** The registry the watcher builds never marks a merge as blocked, so the
    recovery from a check block cannot be taken: once the wait for a head ran
    out, every later poll of it outside a replay skips reviews, approvals and
    check results, and can only announce that the checks block it. *)
Theorem timed_out_head_stays_silent (env : Env) (f : WatcherFile) (reg : registry) (n : Z)
    (pr : PrEntry) (obs : Observation) (reviews : list ForgejoReview) (st : WatchState)
    (L : load_registry_from_forgejo env f = Ok reg) (E : reg !! n = Some pr)
    (T : notified_parent_timeout st = true) (S : last_sha st = ob_head_sha obs) :
  let p := poll_of env false n pr obs reviews in
  compute_pr_actions_with_context p st = ci_block_step p (ci_moved p st) st.
Proof.
  cbn zeta. unfold compute_pr_actions_with_context, head_step.
  change (po_sha (poll_of env false n pr obs reviews)) with (ob_head_sha obs).
  rewrite S, String.eqb_refl. fold (ci_moved (poll_of env false n pr obs reviews) st).
  assert (B : po_merge_blocked_on_ci (poll_of env false n pr obs reviews) = false)
    by by apply (registry_gate env f reg n).
  rewrite B. destruct (ci_block_step _ _ st) as [st1 l] eqn:Q.
  replace (notified_parent_timeout st1) with true; [done|].
  revert Q. unfold ci_block_step. cbn zeta. rewrite <- T.
  by destruct (ci_moved _ _ && _ && _ && _); intros [= <- _].
Qed.

(** ** The events of a pull request *)

(** The events the state machine can push. *)
Definition watched_action (a : PendingAction) : Prop :=
  match a with
  | WasmEvent t _ => t = "pr_review" \/ t = "ci_status"
  | EmitEvent _ status _ _ _ _ => status = "copilot_review" \/ exists s, status = ci_as_str s
  | EmitTaskBlocked _ | TriggerManualCi _ _ _ => True
  end.

Definition watched_step (f : step_of) : Prop := forall st, Forall watched_action (f st).2.

Lemma watched_seq f g : watched_step f -> watched_step g -> watched_step (seq_step f g).
Proof.
  intros F G st. unfold seq_step. specialize (F st). destruct (f st) as [st1 a].
  specialize (G st1). destruct (g st1) as [st2 b]. by apply Forall_app_2.
Qed.

Ltac watched := intros st; cbn zeta; repeat case_match; simplify_eq; cbn [snd];
  repeat (apply Forall_cons_2; [cbn; eauto|]); try apply Forall_nil_2.

Lemma watched_head p : watched_step (head_step p).
Proof. unfold head_step, pr_review. watched. Qed.
Lemma watched_block p c : watched_step (ci_block_step p c).
Proof. unfold ci_block_step, pr_review. watched. Qed.
Lemma watched_cycle p : watched_step (cycle_step p).
Proof. intros st. apply Forall_nil_2. Qed.
Lemma watched_trigger p : watched_step (trigger_step p).
Proof. unfold trigger_step, pr_review. watched. Qed.
Lemma watched_approval p v : watched_step (approval_step p v).
Proof.
  intros st. unfold approval_step. destruct (_ && _); [|apply Forall_nil_2].
  pose proof (watched_trigger p (set_review_approved (po_now p) st)) as T.
  destruct (trigger_step p _). apply Forall_cons_2; [by left|done].
Qed.
Lemma watched_changes p v : watched_step (changes_step p v).
Proof. unfold changes_step, pr_review. watched. Qed.
Lemma watched_comment p v : watched_step (comment_step p v).
Proof. unfold comment_step, pr_review. watched. Qed.
Lemma watched_ci p c : watched_step (ci_step p c).
Proof. unfold ci_step. watched. Qed.
Lemma watched_timeout p : watched_step (timeout_step p).
Proof. unfold timeout_step, pr_review. watched. Qed.

Lemma watched_compute p : watched_step (compute_pr_actions_with_context p).
Proof.
  intros st. unfold compute_pr_actions_with_context.
  pose proof (watched_head p st) as W1. destruct (head_step p st) as [st1 l1].
  set (c := negb _). pose proof (watched_block p c st1) as W2.
  destruct (ci_block_step p c st1) as [st2 l2].
  destruct (_ && negb (po_replay p)); [by apply Forall_app_2|].
  assert (W3 : watched_step (review_steps p c)).
  { unfold review_steps. repeat apply watched_seq;
      auto using watched_cycle, watched_approval, watched_changes, watched_comment, watched_ci,
        watched_timeout. }
  specialize (W3 st2). destruct (review_steps p c st2) as [st3 l3].
  by repeat apply Forall_app_2.
Qed.

Lemma watched_evidence evidence l :
  Forall watched_action l -> Forall watched_action (attach_ci_block_evidence evidence l).
Proof.
  intros W. unfold attach_ci_block_evidence.
  assert (M : Forall watched_action (map (attach_evidence evidence) l)).
  { apply Forall_map. eapply Forall_impl; [exact W|]. intros [] Ha; try done. cbn.
    by case_bool_decide. }
  case_bool_decide; [done|]. apply Forall_app_2; [done|]. by apply Forall_singleton.
Qed.

(** ** Verified heads *)

Section poll.
Context (env : Env) (reg : registry) (observations : gmap Z Observation).

(** The registry entry of the pull request, its observation and a verified
    publication of the observed head agree. *)
Inductive verified_head (number : Z) : string -> string -> string -> Prop :=
| verified_head_intro pr obs publication owner :
    reg !! number = Some pr -> observations !! number = Some obs ->
    ob_publication obs = Some publication ->
    validate_publication_provenance env publication = Ok owner ->
    matches_current publication number (pe_head_branch pr) (pe_base_branch pr)
      (ob_head_sha obs) = true ->
    verified_head number (pe_head_branch pr) (ob_head_sha obs) owner.

Definition verified_pending (p : PendingPrActions) : Prop :=
  verified_head (pp_pr_number p) (pp_branch p) (pp_head_sha p) (pp_agent_name p).

(** What a poll may do: report an owner it could not verify, or act on a
    verified head. *)
Inductive accounted : Effect -> Prop :=
| accounted_unresolved number pr publication reason :
    reg !! number = Some pr ->
    validate_publication_provenance env publication = Err reason ->
    accounted (ownership_unresolved number pr publication reason)
| accounted_action pending action effect :
    verified_pending pending -> watched_action action ->
    effect ∈ run_action env pending action -> accounted effect.

(** The loop's invariant; [prs] is the memory it started with. *)
Record loop_ok (prs : gmap Z WatchState) (l : Loop) : Prop := {
  lo_pending : Forall (fun p => verified_pending p /\ Forall watched_action (pp_actions p))
                 (lp_pending l);
  lo_effects : Forall accounted (lp_effects l);
  lo_kept : forall n, is_Some (prs !! n) -> is_Some (lp_prs l !! n);
  lo_new : forall n, is_Some (lp_prs l !! n) ->
    is_Some (prs !! n) \/ exists branch sha owner, verified_head n branch sha owner
}.

Lemma process_verified_ok prs watcher_state replay number pr obs publication owner l :
  reg !! number = Some pr -> observations !! number = Some obs ->
  ob_publication obs = Some publication ->
  validate_publication_provenance env publication = Ok owner ->
  matches_current publication number (pe_head_branch pr) (pe_base_branch pr)
    (ob_head_sha obs) = true ->
  loop_ok prs l ->
  loop_ok prs (process_verified env watcher_state replay number pr obs publication owner l).
Proof.
  intros E1 E2 E3 E4 E5 [P F K N]. pose proof (verified_head_intro _ _ _ _ _ E1 E2 E3 E4 E5) as V.
  unfold process_verified, review_event_target. set (p := poll_of _ _ _ _ _ _).
  match goal with |- context [compute_pr_actions_with_context p ?s] =>
    pose proof (watched_compute p s) as W; destruct (compute_pr_actions_with_context p s) as [st acts]
  end.
  cbn [snd] in W. set (acts' := match ob_ci_block_evidence obs with Some _ => _ | None => _ end).
  assert (W' : Forall watched_action acts')
    by (unfold acts'; destruct (ob_ci_block_evidence obs); [by apply watched_evidence|done]).
  clearbody acts'. split; cbn [lp_pending lp_effects lp_prs].
  - destruct acts'; [done|]. apply Forall_app_2; [done|]. by apply Forall_singleton.
  - done.
  - intros n Hn. destruct (decide (n = number)) as [->|D]; simplify_map_eq; [by eexists|by apply K].
  - intros n Hn. destruct (decide (n = number)) as [->|D]; simplify_map_eq; [|by apply N].
    right. by do 3 eexists.
Qed.

Lemma process_one_ok prs watcher_state replay l x :
  observations !! x.1 = Some x.2 -> loop_ok prs l ->
  loop_ok prs (process_one env reg watcher_state replay l x).
Proof.
  destruct x as [number obs]. cbn [fst snd]. intros E2 L. unfold process_one.
  destruct (reg !! number) as [pr|] eqn:E1; [|done].
  destruct (ob_publication obs) as [publication|] eqn:E3; [|done].
  destruct (validate_publication_provenance env publication) as [owner|reason] eqn:E4.
  - destruct (matches_current _ _ _ _ _) eqn:E5; [|done]. by apply process_verified_ok.
  - destruct L as [P F K N]. split; try done. cbn [log_effect lp_effects].
    apply Forall_app_2; [done|]. apply Forall_singleton. by constructor.
Qed.

Lemma run_pending_accounted pending :
  Forall (fun p => verified_pending p /\ Forall watched_action (pp_actions p)) pending ->
  Forall accounted (run_pending env pending).
Proof.
  intros HF. apply Forall_forall. intros e He. unfold run_pending in He.
  apply list_elem_of_In, in_concat in He as (es & Hes & He).
  apply in_map_iff in Hes as (p & <- & Hp%list_elem_of_In).
  apply in_concat in He as (es & Hes & He). apply in_map_iff in Hes as (a & <- & Ha%list_elem_of_In).
  rewrite Forall_forall in HF. destruct (HF p Hp) as [V W]. rewrite Forall_forall in W.
  eapply accounted_action; [exact V|by apply W|by apply list_elem_of_In].
Qed.

Lemma removed_spec n :
  n ∈ map fst (map_to_list (filter (fun kv => ~ is_Some (reg !! kv.1)) observations)) ->
  reg !! n = None /\ is_Some (observations !! n).
Proof.
  intros Hn. apply list_elem_of_In, in_map_iff in Hn as ([k o] & <- & Hk%list_elem_of_In).
  apply elem_of_map_to_list, map_lookup_filter_Some in Hk as [Ho Hr]. cbn in *.
  split; [by apply eq_None_not_Some|by eexists].
Qed.

Lemma reconcile_keys w n :
  is_Some (wr_prs (reconcile_reviewer_attempts env w).1 !! n) <-> is_Some (wr_prs w !! n).
Proof.
  unfold reconcile_reviewer_attempts. destruct (some_attempt_exited _ _); [|done].
  destruct (env_reconcile_fault env); cbn; rewrite map_lookup_imap;
    destruct (wr_prs w !! n); cbn; split; intros []; eauto; done.
Qed.

Lemma persist_prs updates w : wr_prs (persist_runtime_pr_state env updates w).1 = wr_prs w.
Proof. unfold persist_runtime_pr_state. destruct updates; [done|]. by destruct (env_persist_fault env). Qed.

Lemma delete_all_keys (l : list Z) (prs : gmap Z WatchState) n :
  fold_left (fun prs n => delete n prs) l prs !! n
  = if bool_decide (n ∈ l) then None else prs !! n.
Proof.
  revert prs. induction l as [|m l IH]; intros prs; [done|]. cbn [fold_left]. rewrite IH.
  repeat case_bool_decide; set_unfold; try naive_solver.
  all: destruct (decide (n = m)); simplify_map_eq; naive_solver.
Qed.

(** What [process_observations] does when every observed pull request is open. *)
Record processed (w w' : Watcher) (effects : list Effect) : Prop := {
  pr_effects : Forall accounted effects;
  pr_kept : (forall n, is_Some (observations !! n) -> is_Some (reg !! n)) ->
    forall n, is_Some (wr_prs w !! n) -> is_Some (wr_prs w' !! n);
  pr_new : forall n, is_Some (wr_prs w' !! n) ->
    is_Some (wr_prs w !! n) \/ exists branch sha owner, verified_head n branch sha owner
}.

Lemma process_observations_ok w :
  let out := process_observations env reg observations w in processed w out.1.1 out.1.2.
Proof.
  cbn zeta. unfold process_observations. pose proof (reconcile_keys w) as RK.
  destruct (reconcile_reviewer_attempts env w) as [w1 [u|e]]; cbn [fst snd] in *.
  2: { split; [by apply Forall_nil_2|intros _ n; apply RK|]. intros n Hn. left. by apply RK. }
  set (l := fold_left _ _ _).
  assert (L : loop_ok (wr_prs w1) l).
  { apply fold_left_keeps.
    - intros l' x Hx. apply process_one_ok. destruct x. by apply elem_of_map_to_list.
    - split; cbn; [by apply Forall_nil_2..|done|by left]. }
  clearbody l. destruct L as [P F K N]. set (removed := map fst _).
  set (w2 := with_prs _ w1).
  assert (PP : processed w w2 (lp_effects l ++ run_pending env (lp_pending l))).
  { split.
    - apply Forall_app_2; [done|by apply run_pending_accounted].
    - intros Ho n Hn. cbn. rewrite delete_all_keys, bool_decide_false; [by apply K, RK|].
      intros [Hr Hs]%removed_spec. destruct (Ho n Hs). congruence.
    - intros n Hn. cbn in Hn. rewrite delete_all_keys in Hn. case_bool_decide; [by destruct Hn|].
      destruct (N n Hn) as [Hw|Hv]; [left; by apply RK|by right]. }
  pose proof (persist_prs (lp_head_sha_updates l) w2) as E.
  destruct (persist_runtime_pr_state env _ w2) as [w3 r]. cbn [fst] in E.
  destruct PP as [P1 P2 P3]. destruct r; cbn [fst snd]; split; rewrite ?E; try done.
Qed.

(** The pull requests found missing are no longer in memory. *)
Lemma removed_forgotten w w' effects removed n :
  process_observations env reg observations w = (w', effects, Ok removed) ->
  n ∈ removed -> wr_prs w' !! n = None /\ reg !! n = None /\ is_Some (observations !! n).
Proof.
  unfold process_observations.
  destruct (reconcile_reviewer_attempts env w) as [w1 [u|e]]; [|done].
  set (l := fold_left _ _ _). set (gone := map fst _). set (w2 := with_prs _ w1).
  pose proof (persist_prs (lp_head_sha_updates l) w2) as E.
  destruct (persist_runtime_pr_state env _ w2) as [w3 [v|e]]; [|done]. cbn [fst] in E.
  intros [= <- <- <-] Hn. split; [|by apply removed_spec].
  rewrite E. cbn. rewrite delete_all_keys. by rewrite bool_decide_true.
Qed.

Lemma detect_merged_nil w removed :
  (forall n, n ∈ removed -> wr_prs w !! n = None) -> detect_merged reg removed w = [].
Proof.
  intros Hn. unfold detect_merged. induction removed as [|n removed IH]; [done|].
  cbn [map concat]. rewrite (Hn n) by by left. apply IH. intros m Hm. apply Hn. by right.
Qed.
End poll.

(** ** A poll *)

Lemma observe_effects env reg number pr :
  reg !! number = Some pr ->
  Forall (accounted env reg (collect_observations env reg).1) (observe env number pr).2.
Proof.
  intros E. unfold observe. destruct (pe_state pr); try apply Forall_nil_2.
  destruct (pe_last_head_sha pr) as [sha|]; [|apply Forall_nil_2].
  destruct (is_blank sha); [apply Forall_nil_2|].
  destruct (preferred_publication _) as [publication|]; [|apply Forall_nil_2].
  destruct (validate_publication_provenance env publication) as [owner|reason] eqn:V.
  - by destruct (forgejo_review_parts _ _ _ _) as [[[? ?] ?] ?].
  - apply Forall_singleton. by constructor.
Qed.

Lemma collect_effects env reg :
  Forall (accounted env reg (collect_observations env reg).1) (collect_observations env reg).2.
Proof.
  apply Forall_forall. intros e He. cbn in He.
  apply list_elem_of_In, in_concat in He as (es & Hes & He%list_elem_of_In).
  apply in_map_iff in Hes as ([n pr] & <- & Hn%list_elem_of_In%elem_of_map_to_list).
  pose proof (observe_effects env reg n pr Hn) as HF. rewrite Forall_forall in HF. by apply HF.
Qed.

(** Only open pull requests are observed. *)
Lemma collect_open env reg n :
  is_Some ((collect_observations env reg).1 !! n) -> is_Some (reg !! n).
Proof.
  unfold registry in *. cbn. rewrite map_lookup_imap.
  destruct (reg !! n); [by eexists|by intros [? ?]].
Qed.

Lemma evict_prs env reg w : wr_prs (evict_closed_prs_from_watcher_state env reg w).1 = wr_prs w.
Proof.
  unfold evict_closed_prs_from_watcher_state.
  destruct (evict_closed_prs_from_state _ _) as [state [|n l]]; [done|].
  by destruct (env_evict_fault env).
Qed.

Record polled (env : Env) (reg : registry) (w w' : Watcher) (effects : list Effect) : Prop := {
  pl_effects : Forall (accounted env reg (collect_observations env reg).1) effects;
  pl_kept : forall n, is_Some (wr_prs w !! n) -> is_Some (wr_prs w' !! n);
  pl_new : forall n, is_Some (wr_prs w' !! n) ->
    is_Some (wr_prs w !! n)
    \/ exists branch sha owner, verified_head env reg (collect_observations env reg).1 n branch sha owner
}.

Lemma polled_refl env reg w w' : wr_prs w' = wr_prs w -> polled env reg w w' [].
Proof. intros E. split; rewrite ?E; auto. Qed.

Lemma poll_cycle_polled env w reg :
  load_registry_from_forgejo env (wr_file w) = Ok reg ->
  polled env reg w (poll_cycle env w).1.1 (poll_cycle env w).1.2.
Proof.
  intros L. unfold poll_cycle. rewrite L. pose proof (evict_prs env reg w) as EV.
  destruct (evict_closed_prs_from_watcher_state env reg w) as [w1 [u|e]]; cbn [fst] in EV;
    [|by apply polled_refl].
  case_bool_decide; [by apply polled_refl|].
  pose proof (collect_effects env reg) as CE. pose proof (collect_open env reg) as CO.
  destruct (collect_observations env reg) as [observations seen] eqn:C. cbn [fst snd] in *.
  pose proof (process_observations_ok env reg observations w1) as P. cbn zeta in P.
  destruct (process_observations env reg observations w1) as [[w2 effects] [removed|e]] eqn:PE.
  all: destruct P as [P1 P2 P3]; cbn [fst snd] in *; rewrite EV in *.
  - rewrite (detect_merged_nil reg w2 removed), app_nil_r.
    2: { intros n Hn. by eapply removed_forgotten. }
    split; rewrite ?C; auto using Forall_app_2.
  - split; rewrite ?C; auto using Forall_app_2.
Qed.


(** ** Merged siblings *)

Definition about_sibling (e : Effect) : bool :=
  match e with
  | LogEvent t _ _ => String.eqb t "agent.sibling_merged"
  | Dispatch _ _ _ t _ => String.eqb t "sibling_merged"
  | NotifyEvent _ _ _ _ => false
  end.

Lemma watched_not_sibling env pending action :
  watched_action action -> Forall (fun e => about_sibling e = false) (run_action env pending action).
Proof.
  unfold run_action, log_review_wakeup, ownership_unresolved.
  destruct action as [t payload|n status m sha c r|evidence|n b s]; intros W.
  - cbn zeta. assert (T : String.eqb t "sibling_merged" = false) by by destruct W as [-> | ->].
    apply Forall_app_2.
    { destruct (String.eqb t "pr_review"); [by apply Forall_singleton|constructor]. }
    apply Forall_cons_2; [done|].
    destruct (review_event_dispatches_to_parent _ _); [|constructor].
    destruct (parent_event_target _ _). by apply Forall_singleton.
  - apply Forall_cons_2; [|by apply Forall_singleton]. cbn [about_sibling].
    destruct W as [-> |[[] ->]]; reflexivity.
  - destruct (task_blocked_data _ _); [by apply Forall_singleton|constructor].
  - constructor.
Qed.

Lemma accounted_not_sibling env reg observations e :
  accounted env reg observations e -> about_sibling e = false.
Proof.
  intros [n pr pub reason _ _|pending action effect _ W He]; [done|].
  pose proof (watched_not_sibling env pending action W) as HF.
  rewrite Forall_forall in HF. by apply HF.
Qed.

(** That a sibling's pull request was merged is never announced: a poll
    logs and sends no such event, it forgets no pull request of its memory
    however long it is gone from Forgejo, and the pull requests
    [process_observations] does find missing it has already forgotten when
    [detect_merged] looks for their branches. *)
Theorem merged_sibling_goes_unnoticed :
  (forall env w,
     Forall (fun e => about_sibling e = false) (poll_cycle env w).1.2
     /\ forall n, is_Some (wr_prs w !! n) -> is_Some (wr_prs (poll_cycle env w).1.1 !! n))
  /\ forall env reg observations w w' effects removed,
       process_observations env reg observations w = (w', effects, Ok removed) ->
       detect_merged reg removed w' = [].
Proof.
  split.
  - intros env w. destruct (load_registry_from_forgejo env (wr_file w)) as [reg|e] eqn:L.
    + destruct (poll_cycle_polled env w reg L) as [P1 P2 _]. split; [|done].
      eapply Forall_impl; [exact P1|]. intros e. apply accounted_not_sibling.
    + unfold poll_cycle. rewrite L. by split.
  - intros env reg observations w w' effects removed P. apply detect_merged_nil.
    intros n Hn. by eapply removed_forgotten.
Qed.

(** ** Failed checks *)

(** The check [x] failed among [l]. *)
Definition fails (l : list ForgejoCommitStatus) (x : string) : Prop :=
  exists s, s ∈ l /\ fs_status s = CIFailure /\ default "<unnamed>" (fs_context s) = x.

Lemma set_insert_elem x y l : x ∈ set_insert y l <-> x = y \/ x ∈ l.
Proof.
  induction l as [|z l IH]; cbn [set_insert]; [set_solver|].
  destruct (String.eqb_spec y z) as [-> |D]; [set_solver|].
  destruct (String.ltb y z); set_solver.
Qed.

Lemma set_inserts_elem x l acc :
  x ∈ fold_left (fun acc s => set_insert s acc) l acc <-> x ∈ l \/ x ∈ acc.
Proof.
  revert acc. induction l as [|y l IH]; intros acc; cbn [fold_left]; [set_solver|].
  rewrite IH, set_insert_elem. set_solver.
Qed.

Lemma failed_check_elem l x : x ∈ failed_check_identities l <-> fails l x.
Proof.
  unfold failed_check_identities, fails. rewrite set_inserts_elem.
  split.
  - intros [H|H%not_elem_of_nil]; [|done]. apply list_elem_of_In, in_map_iff in H as (s & <- & Hs).
    apply filter_In in Hs as [Hs Hf%bool_decide_eq_true]. exists s.
    by rewrite list_elem_of_In.
  - intros (s & Hs & Hf & <-). left. apply list_elem_of_In, in_map_iff. exists s. split; [done|].
    apply filter_In. split; [by apply list_elem_of_In|by apply bool_decide_eq_true].
Qed.

(** What the attribution compares is known. *)
Record comparable (base_sha head_sha : option string)
    (base_statuses head_statuses : option (list ForgejoCommitStatus))
    (base head : list ForgejoCommitStatus) : Prop := {
  cm_base : exists sha, base_sha = Some sha /\ is_blank sha = false;
  cm_head : is_Some head_sha;
  cm_base_statuses : base_statuses = Some base;
  cm_head_statuses : head_statuses = Some head
}.

Lemma failed_checks_none l : failed_check_identities l = [] <-> ~ exists x, fails l x.
Proof.
  split.
  - intros E (x & F%failed_check_elem). rewrite E in F. by apply not_elem_of_nil in F.
  - intros N. destruct (failed_check_identities l) as [|x k] eqn:E; [done|]. destruct N. exists x.
    apply failed_check_elem. rewrite E. by left.
Qed.

Definition covered (base head : list ForgejoCommitStatus) : bool :=
  forallb (fun check => bool_decide (check ∈ failed_check_identities base))
    (failed_check_identities head).

Lemma covered_true base head : covered base head = true <-> forall x, fails head x -> fails base x.
Proof.
  unfold covered. rewrite forallb_elem. split; intros Hx x.
  - intros F%failed_check_elem. apply failed_check_elem. by eapply bool_decide_eq_true, Hx.
  - intros F. apply bool_decide_eq_true, failed_check_elem, Hx. by apply failed_check_elem.
Qed.

Lemma covered_false base head : covered base head = false <-> exists x, fails head x /\ ~ fails base x.
Proof.
  split.
  - unfold covered. intros E. assert (X : Exists (fun c => c ∉ failed_check_identities base)
                                            (failed_check_identities head)).
    { apply not_Forall_Exists; [apply _|]. intros FA. apply not_true_iff_false in E. destruct E.
      apply forallb_elem. intros x Hx. rewrite Forall_forall in FA.
      by apply bool_decide_eq_true, FA. }
    apply Exists_exists in X as (x & Hx & Hb). exists x. by rewrite <- !failed_check_elem.
  - intros (x & F & NF). destruct (covered base head) eqn:E; [|done].
    destruct (NF (proj1 (covered_true base head) E x F)).
Qed.

(** Comparable statuses are attributed by the checks, others to nobody. *)
Section classify.
Context (base_sha head_sha : option string).
Context (base_statuses head_statuses : option (list ForgejoCommitStatus)).
Let evidence := classify_ci_failure base_sha head_sha base_statuses head_statuses.
Let known := comparable base_sha head_sha base_statuses head_statuses.

Lemma classify_comparable base head :
  known base head ->
  ce_attribution evidence
  = if bool_decide (failed_check_identities head = []) then Indeterminate
    else if covered base head then BasePreExisting else HeadIntroduced.
Proof.
  intros [(sha & -> & B) [h ->] -> ->]. unfold evidence, classify_ci_failure. cbn [ce_attribution].
  rewrite B. by destruct (bool_decide (failed_check_identities head = [])).
Qed.

Lemma classify_attributed :
  ce_attribution evidence <> Indeterminate -> exists base head, known base head.
Proof.
  unfold evidence, classify_ci_failure. cbn [ce_attribution].
  destruct base_sha as [sha|], head_sha, base_statuses as [base|], head_statuses as [head|];
    try done.
  destruct (is_blank sha) eqn:B; [done|]. intros _. exists base, head. split; eauto.
Qed.

Lemma classify_base base head :
  known base head ->
  ce_attribution evidence = BasePreExisting
  <-> (exists x, fails head x) /\ forall x, fails head x -> fails base x.
Proof.
  intros C. rewrite (classify_comparable _ _ C), <- covered_true.
  case_bool_decide as Z.
  - apply failed_checks_none in Z. naive_solver.
  - destruct (covered base head); [|naive_solver]. split; [|done]. intros _. split; [|done].
    destruct (failed_check_identities head) as [|x k] eqn:EF; [done|]. exists x.
    apply failed_check_elem. rewrite EF. by left.
Qed.

Lemma classify_head base head :
  known base head ->
  ce_attribution evidence = HeadIntroduced <-> exists x, fails head x /\ ~ fails base x.
Proof.
  intros C. rewrite (classify_comparable _ _ C), <- covered_false.
  case_bool_decide as Z; [|by destruct (covered base head)].
  split; [done|]. intros (x & F & _)%covered_false. apply failed_checks_none in Z. destruct Z. eauto.
Qed.

Lemma classify_checks x :
  x ∈ ce_failed_checks evidence <-> exists head, head_statuses = Some head /\ fails head x.
Proof.
  unfold evidence, classify_ci_failure. cbn [ce_failed_checks]. destruct head_statuses as [head|].
  - rewrite failed_check_elem. split; [by eauto|]. by intros (? & [= ->] & F).
  - split; [by intros ?%not_elem_of_nil|by intros (? & ? & _)].
Qed.
End classify.

(** The evidence of a failed check lists exactly the checks that failed on
    the head; it blames the base where the base and both results are known and
    each check that failed on the head failed on the base, the head where one
    of them did not, and nobody otherwise. *)
Theorem ci_failure_attribution base_sha head_sha base_statuses head_statuses :
  let evidence := classify_ci_failure base_sha head_sha base_statuses head_statuses in
  let known := comparable base_sha head_sha base_statuses head_statuses in
  (ce_attribution evidence = BasePreExisting <->
     exists base head, known base head /\ (exists x, fails head x)
                       /\ forall x, fails head x -> fails base x)
  /\ (ce_attribution evidence = HeadIntroduced <->
        exists base head, known base head /\ exists x, fails head x /\ ~ fails base x)
  /\ forall x, x ∈ ce_failed_checks evidence <-> exists head, head_statuses = Some head /\ fails head x.
Proof.
  cbn zeta. split; [|split]; [split|split|apply classify_checks].
  - intros E. destruct (classify_attributed base_sha head_sha base_statuses head_statuses)
      as (base & head & C); [by rewrite E|].
    exists base, head. split; [done|]. by eapply classify_base.
  - intros (base & head & C & F). by eapply classify_base.
  - intros E. destruct (classify_attributed base_sha head_sha base_statuses head_statuses)
      as (base & head & C); [by rewrite E|].
    exists base, head. split; [done|]. by eapply classify_head.
  - intros (base & head & C & F). by eapply classify_head.
Qed.
