(* ===== verification/Effects.v ===== *)
(** * Programs that call the outside world

    A program is a tree of calls with the answers it may get: what the source's
    [async] functions do between their file, git and network operations.  A run
    is a program with the answers the world gave; the world is arbitrary, so it
    may change between any two calls.  [always] is the weakest precondition of a
    property of every call of a run, given the calls before it.  The second half is
    what the components with calls share: what a trace has seen, and the inversion
    of runs along the structure of a program. *)

From S2P Require Import Prelude.

Section effects.
Context {call : Type} {reply : call -> Type}.

Inductive prog (A : Type) : Type :=
| Ret (a : A)
| Act (c : call) (k : reply c -> prog A).
Arguments Ret {A} a.
Arguments Act {A} c k.

Fixpoint pbind {A B} (p : prog A) (f : A -> prog B) : prog B :=
  match p with
  | Ret a => f a
  | Act c k => Act c (fun r => pbind (k r) f)
  end.

Definition perform (c : call) : prog (reply c) := Act c (fun r => Ret r).

(** A call with its answer. *)
Definition event : Type := {c : call & reply c}.
Definition did (c : call) (r : reply c) : event := existT c r.

(** The runs of a program. *)
Inductive runs {A} : prog A -> list event -> A -> Prop :=
| run_ret a : runs (Ret a) [] a
| run_act c k r t a : runs (k r) t a -> runs (Act c k) (did c r :: t) a.

(** The run against a world that answers by what was done before. *)
Fixpoint answer {A} (world : list event -> forall c, reply c) (past : list event) (p : prog A)
  : list event * A :=
  match p with
  | Ret a => (past, a)
  | Act c k =>
      let r := world past c in
      answer world (past ++ [did c r])%list (k r)
  end.

(** Every call of every run satisfies [ok] with the calls before it, and every
    result satisfies [Q] with all of them. *)
Fixpoint always {A} (ok : list event -> event -> Prop) (past : list event) (p : prog A)
    (Q : list event -> A -> Prop) : Prop :=
  match p with
  | Ret a => Q past a
  | Act c k => forall r, ok past (did c r) /\ always ok (past ++ [did c r])%list (k r) Q
  end.

Lemma always_bind {A B} ok past (p : prog A) (f : A -> prog B) Q :
  always ok past (pbind p f) Q <-> always ok past p (fun past a => always ok past (f a) Q).
Proof.
  revert past. induction p as [a|c k IH]; intros past; [done|]. cbn.
  split; intros H r; (split; [apply H|apply IH, H]).
Qed.

Lemma always_mono {A} ok past (p : prog A) (Q Q' : list event -> A -> Prop) :
  (forall past a, Q past a -> Q' past a) -> always ok past p Q -> always ok past p Q'.
Proof.
  intros HQ. revert past. induction p as [a|c k IH]; intros past H; [by apply HQ|].
  intros r. split; [apply H|by apply IH, H].
Qed.

Lemma always_strengthen {A} (ok ok' : list event -> event -> Prop) past (p : prog A) Q :
  (forall past e, ok past e -> ok' past e) -> always ok past p Q -> always ok' past p Q.
Proof.
  intros Ho. revert past. induction p as [a|c k IH]; intros past H; [done|].
  intros r. split; [by apply Ho, H|by apply IH, H].
Qed.

(** What [always] says of a run. *)
Lemma always_runs {A} ok past (p : prog A) Q t a :
  always ok past p Q -> runs p t a ->
  Q (past ++ t)%list a /\ forall t1 e t2, t = (t1 ++ e :: t2)%list -> ok (past ++ t1)%list e.
Proof.
  intros H R. revert past H. induction R as [a|c k r t a R IH]; intros past H.
  - rewrite app_nil_r. split; [done|]. by intros [|x t1] e t2.
  - destruct (H r) as [Ho Hk]. destruct (IH _ Hk) as [HQ He]. rewrite <- app_assoc in HQ.
    split; [done|]. intros [|e' t1] e t2 E; cbn in E; simplify_eq.
    + by rewrite app_nil_r.
    + specialize (He t1 e t2 eq_refl). by rewrite <- app_assoc in He.
Qed.

Lemma answer_runs {A} world past (p : prog A) :
  exists t, (answer world past p).1 = (past ++ t)%list /\ runs p t (answer world past p).2.
Proof.
  revert past. induction p as [a|c k IH]; intros past; cbn.
  - exists []. rewrite app_nil_r. split; [done|constructor].
  - destruct (IH (world past c) (past ++ [did c (world past c)])%list) as (t & E & R).
    exists (did c (world past c) :: t). rewrite E, <- app_assoc. split; [done|by constructor].
Qed.

(** A program that only makes calls of one kind. *)
Fixpoint only {A} (kind : call -> bool) (p : prog A) : Prop :=
  match p with
  | Ret _ => True
  | Act c k => kind c = true /\ forall r, only kind (k r)
  end.

Lemma only_bind {A B} kind (p : prog A) (f : A -> prog B) :
  only kind p -> (forall a, only kind (f a)) -> only kind (pbind p f).
Proof. intros Hp Hf. induction p as [a|c k IH]; cbn in *; [done|]. naive_solver. Qed.

Lemma only_runs {A} kind (p : prog A) t a e :
  only kind p -> runs p t a -> In e t -> kind (projT1 e) = true.
Proof.
  intros H R. revert H. induction R as [a|c k r t a R IH]; intros H; [done|].
  intros [<-|Hin]; [apply H|]. by apply IH; [apply H|].
Qed.

(** A program whose calls are all harmless is known by its runs. *)
Lemma always_only {A} ok kind past (p : prog A) Q :
  (forall past e, kind (projT1 e) = true -> ok past e) -> only kind p ->
  (forall t a, runs p t a -> Q (past ++ t)%list a) -> always ok past p Q.
Proof.
  intros Hok. revert past. induction p as [a|c k IH]; intros past Hp HQ.
  - rewrite <- (app_nil_r past). apply HQ. constructor.
  - intros r. split; [by apply Hok, Hp|]. apply IH; [apply Hp|]. intros t a R.
    rewrite <- app_assoc. apply HQ. by constructor.
Qed.

Lemma runs_inv {A} (p : prog A) t a :
  runs p t a ->
  match p with
  | Ret b => t = [] /\ a = b
  | Act c k => exists r t', t = did c r :: t' /\ runs (k r) t' a
  end.
Proof. destruct 1; eauto. Qed.

Lemma runs_bind_inv {A B} (p : prog A) (f : A -> prog B) t b :
  runs (pbind p f) t b -> exists t1 a t2, t = (t1 ++ t2)%list /\ runs p t1 a /\ runs (f a) t2 b.
Proof.
  revert t. induction p as [a|c k IH]; intros t H; cbn in H.
  - exists [], a, t. split; [done|]. split; [constructor|done].
  - apply runs_inv in H as (r & t' & -> & H). apply IH in H as (t1 & a & t2 & -> & H1 & H2).
    exists (did c r :: t1), a, t2. split; [done|]. split; [by constructor|done].
Qed.

(** Programs on a state. *)
Definition sprog (S A : Type) : Type := S -> prog (S * A).
Definition sret {S A} (a : A) : sprog S A := fun s => Ret (s, a).
Definition sbind {S A B} (m : sprog S A) (f : A -> sprog S B) : sprog S B :=
  fun s => pbind (m s) (fun sa => f sa.2 sa.1).
Definition slift {S A} (p : prog A) : sprog S A := fun s => pbind p (fun a => Ret (s, a)).
Definition sget {S} : sprog S S := fun s => Ret (s, s).
Definition sput {S} (s : S) : sprog S unit := fun _ => Ret (s, tt).

(** The [?] operator. *)
Definition pbind_ok {A B E} (p : prog (result A E)) (f : A -> prog (result B E))
  : prog (result B E) :=
  pbind p (fun r => match r with Ok a => f a | Err e => Ret (Err e) end).
(** The [?] operator on options. *)
Definition pbind_some {A B} (p : prog (option A)) (f : A -> prog (option B)) : prog (option B) :=
  pbind p (fun r => match r with Some a => f a | None => Ret None end).
(** [bail!] with a condition, inside a program. *)
Definition require {A E} (b : bool) (error : E) (k : prog (result A E)) : prog (result A E) :=
  if b then k else Ret (Err error).
(** A check that may end the function with an entry. *)
Definition check_then {E} (p k : prog (option E)) : prog (option E) :=
  pbind p (fun r => match r with Some e => Ret (Some e) | None => k end).
(** [Result::ok]. *)
Definition ok_or_none {A E} (p : prog (result A E)) : prog (option A) :=
  pbind p (fun r => Ret (result_to_option r)).
(** [Result::map_err], and a pure result among calls. *)
Definition map_error {A E E'} (f : E -> E') (p : prog (result A E)) : prog (result A E') :=
  pbind p (fun r => Ret (match r with Ok a => Ok a | Err e => Err (f e) end)).
Definition lift {A E} (r : result A E) : prog (result A E) := Ret r.
Definition assuming {A} (b : bool) (k : prog (option A)) : prog (option A) :=
  if b then k else Ret None.

Definition sbind_ok {S A B E} (m : sprog S (result A E)) (f : A -> sprog S (result B E))
  : sprog S (result B E) :=
  sbind m (fun r => match r with Ok a => f a | Err e => sret (Err e) end).
End effects.

Arguments prog {call} reply A : assert.
Arguments Ret {call reply A} a.
Arguments Act {call reply A} c k.
Arguments event {call} reply.
Arguments did {call reply} c r.
Arguments sprog {call} reply S A.

Declare Scope prog_scope.
Delimit Scope prog_scope with prog.
Notation "'do' x '<-' p ';' k" := (pbind p (fun x => k))
  (at level 10, x pattern, p at level 100, k at level 200) : prog_scope.
Notation "'do?' x '<-' p ';' k" := (pbind_ok p (fun x => k))
  (at level 10, x pattern, p at level 100, k at level 200) : prog_scope.
Notation "'do!' x '<-' p ';' k" := (pbind_some p (fun x => k))
  (at level 10, x pattern, p at level 100, k at level 200) : prog_scope.

Declare Scope sprog_scope.
Delimit Scope sprog_scope with sprog.
Notation "'do' x '<-' p ';' k" := (sbind p (fun x => k))
  (at level 10, x pattern, p at level 100, k at level 200) : sprog_scope.
Notation "'do?' x '<-' p ';' k" := (sbind_ok p (fun x => k))
  (at level 10, x pattern, p at level 100, k at level 200) : sprog_scope.

(** * Traces of programs

    What a run has seen, and the inversion of runs along the structure of a
    program: the lemmas and tactics the components with calls share. *)

Section traces.
Context {call : Type} {reply : call -> Type}.
Implicit Types t : list (event reply).

(** A call and its answer are in the trace. *)
Definition seen t (c : call) (r : reply c) : Prop := In (did c r) t.

Lemma seen_app t t' c r : seen (t ++ t')%list c r <-> seen t c r \/ seen t' c r.
Proof. apply in_app_iff. Qed.
Lemma seen_l t t' c r : seen t c r -> seen (t ++ t')%list c r.
Proof. rewrite seen_app. auto. Qed.
Lemma seen_r t t' c r : seen t' c r -> seen (t ++ t')%list c r.
Proof. rewrite seen_app. auto. Qed.
Lemma seen_cons e t c r : seen t c r -> seen (e :: t) c r.
Proof. apply (seen_r [e]). Qed.
Lemma seen_here c r t : seen (did c r :: t) c r.
Proof. by left. Qed.

(** A trace that has seen at least as much. *)
Definition extends t t' : Prop := forall c r, seen t c r -> seen t' c r.

Lemma extends_refl t : extends t t.
Proof. by intros c r. Qed.
Lemma extends_l t t1 t2 : extends t t1 -> extends t (t1 ++ t2)%list.
Proof. intros H c r Hs. by apply seen_l, H. Qed.
Lemma extends_r t t1 t2 : extends t t2 -> extends t (t1 ++ t2)%list.
Proof. intros H c r Hs. by apply seen_r, H. Qed.
Lemma extends_app_inv t t' t0 : extends (t ++ t')%list t0 -> extends t t0 /\ extends t' t0.
Proof. intros H. split; intros c r Hs; apply H; [by apply seen_l|by apply seen_r]. Qed.

(** A program was run to its end within the trace. *)
Definition performed {A} t (p : prog reply A) (a : A) : Prop :=
  exists t1 t2 t3, t = (t1 ++ t2 ++ t3)%list /\ runs p t2 a.

Lemma performed_here {A} t (p : prog reply A) a : runs p t a -> performed t p a.
Proof. exists [], t, []. by rewrite app_nil_r. Qed.
Lemma performed_l {A} t t' (p : prog reply A) a : performed t p a -> performed (t ++ t')%list p a.
Proof. intros (t1 & t2 & t3 & -> & R). exists t1, t2, (t3 ++ t')%list. by rewrite <- !app_assoc. Qed.
Lemma performed_r {A} t t' (p : prog reply A) a : performed t' p a -> performed (t ++ t')%list p a.
Proof. intros (t1 & t2 & t3 & -> & R). exists (t ++ t1)%list, t2, t3. by rewrite <- !app_assoc. Qed.
Lemma performed_cons {A} e t (p : prog reply A) a : performed t p a -> performed (e :: t) p a.
Proof. apply (performed_r [e]). Qed.
Lemma performed_seen {A} t (p : prog reply A) a (P : list (event reply) -> Prop) :
  (forall t1 t2, P t1 -> P (t1 ++ t2)%list) -> (forall t1 t2, P t2 -> P (t1 ++ t2)%list) ->
  (forall t', runs p t' a -> P t') -> performed t p a -> P t.
Proof. intros Hl Hr HP (t1 & t2 & t3 & -> & R). by apply Hr, Hl, HP. Qed.

(** ** Runs of programs *)

Lemma runs_ret {A} (a b : A) t : runs (Ret a : prog reply A) t b -> t = [] /\ a = b.
Proof. by intros [-> ->]%runs_inv. Qed.

Lemma runs_call c t (r : reply c) : runs (perform c) t r -> t = [did c r].
Proof. intros (r' & t' & -> & [-> ->]%runs_inv)%runs_inv. done. Qed.

Lemma runs_call_inv {B} c (f : reply c -> prog reply B) t b :
  runs (pbind (perform c) f) t b -> exists r t', t = did c r :: t' /\ runs (f r) t' b.
Proof. by intros (r & t' & -> & H)%runs_inv; exists r, t'. Qed.

Lemma runs_bind_ok_inv {A B E} (p : prog reply (result A E)) (f : A -> prog reply (result B E)) t b :
  runs (pbind_ok p f) t b ->
  exists t1 r t2, t = (t1 ++ t2)%list /\ runs p t1 r /\
    match r with Ok a => runs (f a) t2 b | Err e => t2 = [] /\ b = Err e end.
Proof.
  intros (t1 & [a|e] & t2 & -> & H1 & H2)%runs_bind_inv; [by exists t1, (Ok a), t2|].
  apply runs_inv in H2 as [-> ->]. by exists t1, (Err e), [].
Qed.

(** A program with another continuation that has the same runs. *)
Lemma runs_bind_mono {A B} (p : prog reply A) (f g : A -> prog reply B) t b :
  (forall a t', runs (f a) t' b -> runs (g a) t' b) -> runs (pbind p f) t b -> runs (pbind p g) t b.
Proof.
  intros Hfg. revert t. induction p as [a|c k IH]; intros t; cbn; [apply Hfg|].
  intros (r & t' & -> & R)%runs_inv. constructor. by apply IH.
Qed.
Lemma runs_bind_ok_mono {A B E} (p : prog reply (result A E)) (f g : A -> prog reply (result B E)) t b :
  (forall a t', runs (f a) t' b -> runs (g a) t' b) -> runs (pbind_ok p f) t b -> runs (pbind_ok p g) t b.
Proof. intros Hfg. apply runs_bind_mono. intros [a|e] t'; [apply Hfg|done]. Qed.

Lemma runs_map_error_ok {A E E'} (f : E -> E') (p : prog reply (result A E)) t a :
  runs (map_error f p) t (Ok a) -> runs p t (Ok a).
Proof.
  intros (t1 & [x|e] & t2 & -> & H1 & [-> ?]%runs_ret)%runs_bind_inv; simplify_eq.
  by rewrite app_nil_r.
Qed.
Lemma runs_lift {A E} (r r' : result A E) t : runs (lift r : prog reply _) t r' -> t = [] /\ r = r'.
Proof. by intros [-> ->]%runs_ret. Qed.

Lemma runs_require_inv {A E} b (e : E) (k : prog reply (result A E)) t r :
  runs (require b e k) t r -> b = true /\ runs k t r \/ b = false /\ t = [] /\ r = Err e.
Proof. destruct b; [by left|]. intros [-> ->]%runs_inv. by right. Qed.

Lemma runs_check_then_inv {E} (p k : prog reply (option E)) t r :
  runs (check_then p k) t r ->
  exists t1 o t2, t = (t1 ++ t2)%list /\ runs p t1 o /\
    match o with Some e => t2 = [] /\ r = Some e | None => runs k t2 r end.
Proof.
  intros (t1 & [e|] & t2 & -> & H1 & H2)%runs_bind_inv; [|by exists t1, None, t2].
  apply runs_inv in H2 as [-> ->]. by exists t1, (Some e), [].
Qed.

Lemma runs_bind_some_inv {A B} (p : prog reply (option A)) (f : A -> prog reply (option B)) t b :
  runs (pbind_some p f) t (Some b) ->
  exists t1 a t2, t = (t1 ++ t2)%list /\ runs p t1 (Some a) /\ runs (f a) t2 (Some b).
Proof.
  intros (t1 & [a|] & t2 & -> & H1 & H2)%runs_bind_inv; [by exists t1, a, t2|].
  by apply runs_ret in H2 as [_ ?].
Qed.
Lemma runs_ok_or_none_inv {A E} (p : prog reply (result A E)) t a :
  runs (ok_or_none p) t (Some a) -> runs p t (Ok a).
Proof.
  intros (t1 & [x|e] & t2 & -> & H1 & [-> ?]%runs_ret)%runs_bind_inv; [|done].
  rewrite app_nil_r. by simplify_eq/=.
Qed.
Lemma runs_assuming_inv {A} b (k : prog reply (option A)) t a :
  runs (assuming b k) t (Some a) -> b = true /\ runs k t (Some a).
Proof. destruct b; [done|]. by intros [_ ?]%runs_ret. Qed.

(** Calls that are allowed one by one. *)
Definition allowed {A} (ok : list (event reply) -> event reply -> Prop) t (p : prog reply A) : Prop :=
  always ok t p (fun _ _ => True).

Lemma allowed_bind {A B} ok t (p : prog reply A) (f : A -> prog reply B) :
  allowed ok t p -> (forall t a, allowed ok t (f a)) -> allowed ok t (pbind p f).
Proof.
  intros Hp Hf. apply always_bind. eapply always_mono; [|exact Hp]. intros t' a _. apply Hf.
Qed.
Lemma allowed_bind_ok {A B E} ok t (p : prog reply (result A E)) (f : A -> prog reply (result B E)) :
  allowed ok t p -> (forall t a, allowed ok t (f a)) -> allowed ok t (pbind_ok p f).
Proof. intros Hp Hf. apply allowed_bind; [done|]. intros t' [a|e]; [apply Hf|exact I]. Qed.

(** ** Programs of harmless calls *)

Section harmless.
Context (kind : call -> bool).

Lemma only_bind_ok {A B E} (p : prog reply (result A E)) (f : A -> prog reply (result B E)) :
  only kind p -> (forall a, only kind (f a)) -> only kind (pbind_ok p f).
Proof. intros ? Hf. apply only_bind; [done|]. intros [a|e]; [apply Hf|exact I]. Qed.
Lemma only_bind_some {A B} (p : prog reply (option A)) (f : A -> prog reply (option B)) :
  only kind p -> (forall a, only kind (f a)) -> only kind (pbind_some p f).
Proof. intros ? Hf. apply only_bind; [done|]. intros [a|]; [apply Hf|exact I]. Qed.
Lemma only_map_error {A E E'} (f : E -> E') (p : prog reply (result A E)) :
  only kind p -> only kind (map_error f p).
Proof. intros Hp. by apply only_bind. Qed.
Lemma only_require {A E} b (e : E) (k : prog reply (result A E)) :
  only kind k -> only kind (require b e k).
Proof. by destruct b. Qed.
Lemma only_check_then {E} (p k : prog reply (option E)) :
  only kind p -> only kind k -> only kind (check_then p k).
Proof. intros ? Hk. apply only_bind; [done|]. intros [e|]; [exact I|apply Hk]. Qed.
Lemma only_ok_or_none {A E} (p : prog reply (result A E)) : only kind p -> only kind (ok_or_none p).
Proof. intros ?. by apply only_bind. Qed.
Lemma only_assuming {A} b (k : prog reply (option A)) : only kind k -> only kind (assuming b k).
Proof. by destruct b. Qed.
Lemma only_mono (kind' : call -> bool) {A} (p : prog reply A) :
  (forall c, kind c = true -> kind' c = true) -> only kind p -> only kind' p.
Proof.
  intros Hk. induction p as [a|c k IH]; [done|]. intros [Hc H]. split; [by apply Hk|]. intros r. by apply IH.
Qed.
Lemma only_call (c : call) : kind c = true -> only kind (perform c : prog reply _).
Proof. by split. Qed.

(** Harmless calls, and harmless calls first. *)
Context (ok : list (event reply) -> event reply -> Prop)
  (harmless : forall t e, kind (projT1 e) = true -> ok t e).

Lemma allowed_only {A} t (p : prog reply A) : only kind p -> allowed ok t p.
Proof. intros Hp. by eapply always_only. Qed.
Lemma allowed_after {A B} t (p : prog reply A) (f : A -> prog reply B) :
  only kind p -> (forall t' a, runs p t' a -> allowed ok (t ++ t')%list (f a)) ->
  allowed ok t (pbind p f).
Proof. intros Hp Hf. apply always_bind. by eapply always_only. Qed.
Lemma allowed_after_ok {A B E} t (p : prog reply (result A E)) (f : A -> prog reply (result B E)) :
  only kind p -> (forall t' a, runs p t' (Ok a) -> allowed ok (t ++ t')%list (f a)) ->
  allowed ok t (pbind_ok p f).
Proof. intros Hp Hf. apply allowed_after; [done|]. intros t' [a|e] R; [by apply Hf|exact I]. Qed.
End harmless.
End traces.

Create HintDb seen discriminated.
#[export] Hint Resolve performed_here performed_l performed_r performed_cons seen_cons : seen.
#[export] Hint Resolve extends_refl extends_l extends_r seen_l seen_r seen_here : seen.

(** Through the structure of a program that was run. *)
Ltac runs_calls :=
  repeat match goal with
  | H : runs ?p _ _ |- _ => lazymatch p with @perform ?c ?r ?k => apply (@runs_call c r k) in H; subst end
  end.
Ltac runs_step :=
  runs_calls;
  match goal with
  | H : runs (Ret _) _ _ |- _ => apply runs_ret in H as [? ?]; simplify_eq
  | H : runs (pbind _ _) _ _ |- _ => apply runs_bind_inv in H as (? & ? & ? & ? & ? & H); subst
  | H : runs (pbind_ok _ _) _ _ |- _ =>
      apply runs_bind_ok_inv in H as (? & [?|?] & ? & ? & ? & H); subst; [|destruct H; simplify_eq]
  | H : runs (map_error _ _) _ (Ok _) |- _ => apply runs_map_error_ok in H; runs_calls
  | H : runs (lift _) _ _ |- _ => apply runs_lift in H as [-> H]
  | H : runs (require _ _ _) _ _ |- _ =>
      apply runs_require_inv in H as [[? H]|(? & ? & ?)]; [|simplify_eq]
  | H : runs (check_then _ _) _ _ |- _ =>
      apply runs_check_then_inv in H as (? & [?|] & ? & ? & ? & H); subst; [destruct H; simplify_eq|]
  | H : runs (if negb ?x then _ else _) _ _ |- _ => destruct x eqn:?; cbn [negb] in H
  | H : runs (match ?x with _ => _ end) _ _ |- _ => destruct x eqn:?; simplify_eq
  end; runs_calls.
Ltac case_result :=
  match goal with
  | H : match ?x with _ => _ end = _ |- _ => destruct x eqn:?; simplify_eq
  end.
Ltac runs_solve := repeat first [runs_step | case_result].
Ltac some_step :=
  match goal with
  | H : runs (pbind_some _ _) _ (Some _) |- _ =>
      apply runs_bind_some_inv in H as (? & ? & ? & ? & ? & H); subst
  | H : runs (assuming _ _) _ (Some _) |- _ => apply runs_assuming_inv in H as [? H]
  | H : runs (ok_or_none (perform _)) _ _ |- _ => apply runs_ok_or_none_inv in H; runs_calls
  end.

(** Down the structure of a program to its calls; [calls] discharges a call. *)
Ltac only_step :=
  match goal with
  | |- only _ (pbind _ _) => apply only_bind; [|intros ?]
  | |- only _ (pbind_ok _ _) => apply only_bind_ok; [|intros ?]
  | |- only _ (pbind_some _ _) => apply only_bind_some; [|intros ?]
  | |- only _ (require _ _ _) => apply only_require
  | |- only _ (check_then _ _) => apply only_check_then
  | |- only _ (ok_or_none _) => apply only_ok_or_none
  | |- only _ (assuming _ _) => apply only_assuming
  | |- only _ (map_error _ _) => apply only_map_error
  | |- only _ (lift _) => exact I
  | |- only _ (Ret _) => exact I
  | |- only ?kd (@perform ?c ?r ?k) => by apply (@only_call c r kd k)
  | |- only _ (match ?x with _ => _ end) => destruct x
  end.
