(* ===== verification/CleanupDecision.v ===== *)
(** * Verified cleanup: data and decisions

    The data of the component, and which managed resources may be disposed of: [services/cleanup/decision.rs],
    the observations of [inspection_*.rs] the decision is made from, and how
    [inspection_build.rs] turns them into a candidate. *)

From stdpp Require Import gmap pretty.
From S2P Require Import Prelude RustStr ReviewTypes.

(** * Verified cleanup: data

    The types of [services/cleanup/types.rs] and of the observations the other
    files of that directory collect.  An absolute path is the list of its
    components; what a path of an identity record is relative to is kept. *)

Local Open Scope string_scope.

(** ** Paths *)

Definition path := list string.
Inductive WorkDir := Absolute (p : path) | Relative (p : path).
#[export] Instance WorkDir_eq_dec : EqDecision WorkDir.
Proof. solve_decision. Defined.

Definition resolve_path (project_dir : path) (d : WorkDir) : path :=
  match d with
  | Absolute p => p
  | Relative p => (project_dir ++ p)%list
  end.

Fixpoint path_within (parent child : path) : bool :=
  match parent, child with
  | [], _ => true
  | x :: parent, y :: child => String.eqb x y && path_within parent child
  | _ :: _, [] => false
  end.

Definition worktrees_dir (project_dir : path) : path :=
  (project_dir ++ [".exo"; "worktrees"])%list.
Definition agents_dir (project_dir : path) : path := (project_dir ++ [".exo"; "agents"])%list.

(** [Path::display] of an absolute path. *)
Definition display_path (p : path) : string :=
  match p with [] => "/" | _ => String.concat "/" ("" :: p) end.

(** ** Agents, repositories and pull requests *)

Inductive Topology := Unspecified | WorktreePerAgent | SharedDir.
#[export] Instance Topology_eq_dec : EqDecision Topology.
Proof. solve_decision. Defined.

Record AgentIdentityRecord := {
  ai_agent_name : string;
  ai_slug : string;
  ai_agent_type : AgentType;
  ai_birth_branch : string;
  ai_parent_branch : string;
  ai_working_dir : WorkDir;
  ai_display_name : string;
  ai_topology : Topology;
  ai_model : option string;
  ai_effort : option string;
  ai_ledger_owned : bool;
  ai_slice_id : option string
}.
#[export] Instance AgentIdentityRecord_eq_dec : EqDecision AgentIdentityRecord.
Proof. solve_decision. Defined.

Record RepositoryIdentity := {
  ri_owner : string;
  ri_repo : string;
  ri_base_branch : string;
  ri_forge_host : string;
  ri_remote_url : string;
  ri_remote_name : string
}.

Record CleanupPullRequest := {
  cp_number : Z;
  cp_head_ref : string;
  cp_base_ref : string;
  cp_state : string;
  cp_merged : bool;
  cp_head_sha : option string;
  cp_merge_commit_sha : option string;
  cp_authoring_agent : option string;
  cp_birth_branch : option string
}.
#[export] Instance CleanupPullRequest_eq_dec : EqDecision CleanupPullRequest.
Proof. solve_decision. Defined.

Definition pr_metadata_value (body key : string) : option string :=
  value ← head (omap (fun line => rest ← strip_prefix (key ++ ":") (str_trim line);
                                  Some (str_trim rest)) (lines body));
  if str_is_empty value then None else Some value.

(** ** Requests *)

Definition MAX_CLEANUP_TARGET_BYTES : Z := 256.
Definition MAX_CLEANUP_REASON_BYTES : Z := 1024.

Record CleanupRequest := {
  cr_target : option string;
  cr_sweep : bool;
  cr_apply : bool;
  cr_delete_remote_branch : bool;
  cr_reason : option string;
  cr_allow_no_pr : bool;
  cr_discard_dirty : bool;
  cr_preserve_unique_commits : bool
}.

Definition default_request : CleanupRequest := {|
  cr_target := None; cr_sweep := true; cr_apply := false; cr_delete_remote_branch := false;
  cr_reason := None; cr_allow_no_pr := false; cr_discard_dirty := false;
  cr_preserve_unique_commits := false |}.

Definition named (target : string) : CleanupRequest := {|
  cr_target := Some target; cr_sweep := false; cr_apply := false;
  cr_delete_remote_branch := false; cr_reason := None; cr_allow_no_pr := false;
  cr_discard_dirty := false; cr_preserve_unique_commits := false |}.

Definition validate_reason (reason : string) : result unit string :=
  let? _ := ensure (negb (is_blank reason)) "cleanup reason cannot be empty" in
  ensure (str_len reason <=? MAX_CLEANUP_REASON_BYTES)%Z "cleanup reason exceeds the maximum length".

Definition validate_target (target : string) : result unit string :=
  let? _ := ensure (negb (is_blank target)) "cleanup target cannot be empty" in
  let? _ := ensure (str_len target <=? MAX_CLEANUP_TARGET_BYTES)%Z
              "cleanup target exceeds the maximum length" in
  ensure (negb (str_contains "/" target || str_contains "\" target))
    "cleanup target must be an agent name or slug, not a path".

(** [CleanupRequest::validate]. *)
Definition validate (r : CleanupRequest) : result unit string :=
  let has_target := bool_decide (is_Some (cr_target r)) in
  let? _ := ensure (negb (has_target && cr_sweep r))
              "cleanup target and sweep cannot be requested together" in
  let? _ := ensure (cr_sweep r || has_target) "cleanup requires a named target or sweep=true" in
  let? _ := ensure (negb ((cr_allow_no_pr r || cr_discard_dirty r || cr_preserve_unique_commits r
                           || cr_delete_remote_branch r) && cr_sweep r))
              "cleanup overrides require a named target" in
  let? _ := ensure (negb (cr_discard_dirty r && negb (cr_apply r)))
              "discard_dirty requires apply=true" in
  let? _ := match cr_reason r with Some reason => validate_reason reason | None => Ok tt end in
  match cr_target r with Some target => validate_target target | None => Ok tt end.

(** ** Decisions and branches *)

Inductive CleanupLiveness := Live | Dead | UnknownLiveness.
#[export] Instance CleanupLiveness_eq_dec : EqDecision CleanupLiveness.
Proof. solve_decision. Defined.

Inductive CleanupDecision := Cleanable | RefusedDecision (reason : string).
#[export] Instance CleanupDecision_eq_dec : EqDecision CleanupDecision.
Proof. solve_decision. Defined.

Definition is_cleanable (d : CleanupDecision) : bool :=
  match d with Cleanable => true | RefusedDecision _ => false end.
Definition decision_reason (d : CleanupDecision) : option string :=
  match d with Cleanable => None | RefusedDecision reason => Some reason end.

Inductive CleanupBranchActionStatus :=
| NotRequested | WouldDelete | DeletePending | Deleted | AlreadyAbsent | SkippedAction
| RefusedAction.
#[export] Instance CleanupBranchActionStatus_eq_dec : EqDecision CleanupBranchActionStatus.
Proof. solve_decision. Defined.

Record CleanupBranchAction := {
  ba_status : CleanupBranchActionStatus;
  ba_reason : option string
}.
#[export] Instance CleanupBranchAction_eq_dec : EqDecision CleanupBranchAction.
Proof. solve_decision. Defined.

Record CleanupDirtyEvidence := {
  de_porcelain : list string;
  de_tracked_paths : list string;
  de_untracked_paths : list string;
  de_truncated : bool;
  de_worktree_path : option path;
  de_branch : option string;
  de_head_sha : option string
}.
#[export] Instance CleanupDirtyEvidence_eq_dec : EqDecision CleanupDirtyEvidence.
Proof. solve_decision. Defined.

Record CleanupRecoveredProvenance := {
  rp_identity_sources : list string;
  rp_branch_sources : list string;
  rp_pull_request_sources : list string;
  rp_liveness_sources : list string
}.
#[export] Instance CleanupRecoveredProvenance_eq_dec : EqDecision CleanupRecoveredProvenance.
Proof. solve_decision. Defined.

Record CleanupBranchEvidence := {
  be_branch : option string;
  be_local_head_sha : option string;
  be_remote_name : option string;
  be_remote_branch : option string;
  be_remote_head_sha : option string;
  be_target_branch : option string;
  be_target_head_sha : option string;
  be_merge_commit_reachable : option bool;
  be_local : CleanupBranchAction;
  be_remote : CleanupBranchAction
}.
#[export] Instance CleanupBranchEvidence_eq_dec : EqDecision CleanupBranchEvidence.
Proof. solve_decision. Defined.

Definition with_local (a : CleanupBranchAction) (e : CleanupBranchEvidence)
  : CleanupBranchEvidence := {|
  be_branch := be_branch e; be_local_head_sha := be_local_head_sha e;
  be_remote_name := be_remote_name e; be_remote_branch := be_remote_branch e;
  be_remote_head_sha := be_remote_head_sha e; be_target_branch := be_target_branch e;
  be_target_head_sha := be_target_head_sha e;
  be_merge_commit_reachable := be_merge_commit_reachable e; be_local := a;
  be_remote := be_remote e |}.
Definition with_remote (a : CleanupBranchAction) (e : CleanupBranchEvidence)
  : CleanupBranchEvidence := {|
  be_branch := be_branch e; be_local_head_sha := be_local_head_sha e;
  be_remote_name := be_remote_name e; be_remote_branch := be_remote_branch e;
  be_remote_head_sha := be_remote_head_sha e; be_target_branch := be_target_branch e;
  be_target_head_sha := be_target_head_sha e;
  be_merge_commit_reachable := be_merge_commit_reachable e; be_local := be_local e;
  be_remote := a |}.

(** ** Candidates and plans *)

Record CleanupTargetBranch := {
  tb_remote_name : string;
  tb_branch : string;
  tb_head_sha : string
}.

Record CleanupCandidate := {
  cn_id : string;
  cn_managed : bool;
  cn_resolver_only : bool;
  cn_recovery_receipt : bool;
  cn_recovered_provenance : option CleanupRecoveredProvenance;
  cn_agent_name : string;
  cn_issue : option string;
  cn_agent_dir : path;
  cn_worktree_path : option path;
  cn_local_branch : option string;
  cn_local_head_sha : option string;
  cn_remote_branch : option string;
  cn_remote_head_sha : option string;
  cn_pull_request : option CleanupPullRequest;
  cn_liveness : CleanupLiveness;
  cn_dirty : option bool;
  cn_dirty_evidence : option CleanupDirtyEvidence;
  cn_protected : bool;
  cn_identity_drift : bool;
  cn_identity_error : option string;
  cn_head_matches_pull_request : option bool;
  cn_remote_head_matches_pull_request : option bool;
  cn_identity : option AgentIdentityRecord;
  cn_branch : option CleanupBranchEvidence;
  cn_delete_remote_branch : bool;
  cn_allow_no_pr : bool;
  cn_discard_dirty : bool;
  cn_preserve_unique_commits : bool;
  cn_decision : CleanupDecision
}.

(** The two updates [plan] makes to a candidate. *)
Definition with_refusal (reason : string) (c : CleanupCandidate) (b : option CleanupBranchEvidence)
  : CleanupCandidate := {|
  cn_id := cn_id c; cn_managed := cn_managed c; cn_resolver_only := cn_resolver_only c;
  cn_recovery_receipt := cn_recovery_receipt c;
  cn_recovered_provenance := cn_recovered_provenance c; cn_agent_name := cn_agent_name c;
  cn_issue := cn_issue c; cn_agent_dir := cn_agent_dir c; cn_worktree_path := cn_worktree_path c;
  cn_local_branch := cn_local_branch c; cn_local_head_sha := cn_local_head_sha c;
  cn_remote_branch := cn_remote_branch c; cn_remote_head_sha := cn_remote_head_sha c;
  cn_pull_request := cn_pull_request c; cn_liveness := cn_liveness c; cn_dirty := cn_dirty c;
  cn_dirty_evidence := cn_dirty_evidence c; cn_protected := cn_protected c;
  cn_identity_drift := cn_identity_drift c; cn_identity_error := cn_identity_error c;
  cn_head_matches_pull_request := cn_head_matches_pull_request c;
  cn_remote_head_matches_pull_request := cn_remote_head_matches_pull_request c;
  cn_identity := cn_identity c; cn_branch := b;
  cn_delete_remote_branch := cn_delete_remote_branch c; cn_allow_no_pr := cn_allow_no_pr c;
  cn_discard_dirty := cn_discard_dirty c;
  cn_preserve_unique_commits := cn_preserve_unique_commits c;
  cn_decision := RefusedDecision reason |}.

Record CleanupPlan := {
  pl_plan_id : string;
  pl_generated_at : Z;
  pl_project_dir : path;
  pl_repository : option RepositoryIdentity;
  pl_repository_error : option string;
  pl_operator_reason : option string;
  pl_preserve_unique_commits : bool;
  pl_candidates : list CleanupCandidate;
  pl_fetched_target : option CleanupTargetBranch
}.

(** ** Receipts *)

Inductive CleanupReceiptStatus := WouldClean | InProgress | Cleaned | Skipped | Refused | Failed.
#[export] Instance CleanupReceiptStatus_eq_dec : EqDecision CleanupReceiptStatus.
Proof. solve_decision. Defined.

(** A claimed hook trust; its keys are opaque here. *)
Record CapturedCodexTrust := {
  ct_agent_dir : path;
  ct_config_path : path;
  ct_user_config_path : option path;
  ct_owned_keys : list string
}.
#[export] Instance CapturedCodexTrust_eq_dec : EqDecision CapturedCodexTrust.
Proof. solve_decision. Defined.

Record CleanupReceiptEntry := {
  re_candidate_id : string;
  re_agent_name : string;
  re_agent_slug : string;
  re_identity_snapshot : option AgentIdentityRecord;
  re_recovered_provenance : option CleanupRecoveredProvenance;
  re_pull_request : option CleanupPullRequest;
  re_branch : option CleanupBranchEvidence;
  re_status : CleanupReceiptStatus;
  re_actions : list string;
  re_reason : option string;
  re_dirty_evidence : option CleanupDirtyEvidence;
  re_codex_trust : option (list CapturedCodexTrust)
}.
#[export] Instance CleanupReceiptEntry_eq_dec : EqDecision CleanupReceiptEntry.
Proof. solve_decision. Defined.

Record CleanupReceipt := {
  rc_operation_id : string;
  rc_plan_id : string;
  rc_started_at : Z;
  rc_finished_at : Z;
  rc_dry_run : bool;
  rc_operator_reason : option string;
  rc_preserve_unique_commits : bool;
  rc_entries : list CleanupReceiptEntry
}.

(** Updates of the fields the source assigns. *)
Definition with_entries (l : list CleanupReceiptEntry) (r : CleanupReceipt) : CleanupReceipt := {|
  rc_operation_id := rc_operation_id r; rc_plan_id := rc_plan_id r;
  rc_started_at := rc_started_at r; rc_finished_at := rc_finished_at r;
  rc_dry_run := rc_dry_run r; rc_operator_reason := rc_operator_reason r;
  rc_preserve_unique_commits := rc_preserve_unique_commits r; rc_entries := l |}.
Definition with_finished_at (t : Z) (r : CleanupReceipt) : CleanupReceipt := {|
  rc_operation_id := rc_operation_id r; rc_plan_id := rc_plan_id r;
  rc_started_at := rc_started_at r; rc_finished_at := t; rc_dry_run := rc_dry_run r;
  rc_operator_reason := rc_operator_reason r;
  rc_preserve_unique_commits := rc_preserve_unique_commits r; rc_entries := rc_entries r |}.

Definition entry_with_branch (b : option CleanupBranchEvidence) (e : CleanupReceiptEntry)
  : CleanupReceiptEntry := {|
  re_candidate_id := re_candidate_id e; re_agent_name := re_agent_name e;
  re_agent_slug := re_agent_slug e; re_identity_snapshot := re_identity_snapshot e;
  re_recovered_provenance := re_recovered_provenance e; re_pull_request := re_pull_request e;
  re_branch := b; re_status := re_status e; re_actions := re_actions e; re_reason := re_reason e;
  re_dirty_evidence := re_dirty_evidence e; re_codex_trust := re_codex_trust e |}.
Definition entry_with_actions (l : list string) (e : CleanupReceiptEntry)
  : CleanupReceiptEntry := {|
  re_candidate_id := re_candidate_id e; re_agent_name := re_agent_name e;
  re_agent_slug := re_agent_slug e; re_identity_snapshot := re_identity_snapshot e;
  re_recovered_provenance := re_recovered_provenance e; re_pull_request := re_pull_request e;
  re_branch := re_branch e; re_status := re_status e; re_actions := l; re_reason := re_reason e;
  re_dirty_evidence := re_dirty_evidence e; re_codex_trust := re_codex_trust e |}.
Definition entry_with_trust (t : option (list CapturedCodexTrust)) (e : CleanupReceiptEntry)
  : CleanupReceiptEntry := {|
  re_candidate_id := re_candidate_id e; re_agent_name := re_agent_name e;
  re_agent_slug := re_agent_slug e; re_identity_snapshot := re_identity_snapshot e;
  re_recovered_provenance := re_recovered_provenance e; re_pull_request := re_pull_request e;
  re_branch := re_branch e; re_status := re_status e; re_actions := re_actions e;
  re_reason := re_reason e; re_dirty_evidence := re_dirty_evidence e; re_codex_trust := t |}.
Definition entry_with_snapshot (i : option AgentIdentityRecord) (e : CleanupReceiptEntry)
  : CleanupReceiptEntry := {|
  re_candidate_id := re_candidate_id e; re_agent_name := re_agent_name e;
  re_agent_slug := re_agent_slug e; re_identity_snapshot := i;
  re_recovered_provenance := re_recovered_provenance e; re_pull_request := re_pull_request e;
  re_branch := re_branch e; re_status := re_status e; re_actions := re_actions e;
  re_reason := re_reason e; re_dirty_evidence := re_dirty_evidence e;
  re_codex_trust := re_codex_trust e |}.

Local Open Scope string_scope.

(** ** Observations *)

Record DiscoveredResource := {
  dr_id : string;
  dr_agent_dir : path;
  dr_worktree_path : option path;
  dr_identity : option AgentIdentityRecord;
  dr_identity_error : option string;
  dr_resolver_only : bool;
  dr_recovery_receipt : bool;
  dr_recovered_provenance : option CleanupRecoveredProvenance
}.

Record WorktreeObservation := {
  wo_worktree_path : option path;
  wo_branch_name : option string;
  wo_dirty : option bool;
  wo_dirty_evidence : option CleanupDirtyEvidence;
  wo_identity_drift : bool
}.

Record ObservedResource := {
  or_id : string;
  or_agent_dir : path;
  or_identity : option AgentIdentityRecord;
  or_identity_error : option string;
  or_resolver_only : bool;
  or_recovery_receipt : bool;
  or_recovered_provenance : option CleanupRecoveredProvenance;
  or_worktree : WorktreeObservation;
  or_issue : option string
}.

Record LocalBranchObservation := {
  lo_identity_error : option string;
  lo_local_branch : option string;
  lo_local_head_sha : option string
}.
Definition without_branch (identity_error : option string) : LocalBranchObservation :=
  {| lo_identity_error := identity_error; lo_local_branch := None; lo_local_head_sha := None |}.

Record RemoteBranchObservation := {
  ro_branch : option string;
  ro_head_sha : option string;
  ro_error : option string
}.
Definition default_remote : RemoteBranchObservation :=
  {| ro_branch := None; ro_head_sha := None; ro_error := None |}.

Record PullRequestObservation := {
  po_request : option CleanupPullRequest;
  po_error : option string;
  po_head_matches : option bool;
  po_remote_head_matches : option bool;
  po_merge_commit_reachable : option (result bool string)
}.

Record InspectionContext := {
  ic_repository : option RepositoryIdentity;
  ic_repository_error : option string;
  ic_current_branch : option string;
  ic_fetched_target : option CleanupTargetBranch;
  ic_target_error : option string;
  ic_delete_remote_branch : bool;
  ic_allow_no_pr : bool;
  ic_discard_dirty : bool;
  ic_preserve_unique_commits : bool
}.

(** The heads as the pull request has them. *)
Definition head_matches (head_sha : option string) (pull_request : option CleanupPullRequest)
  : option bool :=
  match head_sha, pull_request with
  | Some head, Some pr => Some (bool_decide (cp_head_sha pr = Some head))
  | _, _ => None
  end.
Definition pull_request_head_matches (local_head_sha remote_head_sha : option string)
    (pull_request : option CleanupPullRequest) : option bool * option bool :=
  (head_matches local_head_sha pull_request, head_matches remote_head_sha pull_request).

(** ** The decision *)

Record DecisionContext := {
  dc_identity : option AgentIdentityRecord;
  dc_identity_error : option string;
  dc_liveness : CleanupLiveness;
  dc_dirty : option bool;
  dc_protected : bool;
  dc_identity_drift : bool;
  dc_repository : option RepositoryIdentity;
  dc_repository_error : option string;
  dc_remote_error : option string;
  dc_pull_request : option CleanupPullRequest;
  dc_pr_error : option string;
  dc_head_matches_pull_request : option bool;
  dc_remote_head_matches_pull_request : option bool;
  dc_merge_commit_reachable : option (result bool string);
  dc_target_error : option string;
  dc_resolver_only : bool;
  dc_recovery_receipt : bool;
  dc_allow_no_pr : bool;
  dc_discard_dirty : bool
}.

Definition reject_identity (c : DecisionContext) : option CleanupDecision :=
  match dc_identity_error c with
  | Some error => Some (RefusedDecision error)
  | None =>
      ident ← dc_identity c;
      if ai_ledger_owned ident then
        Some (RefusedDecision "ledger-owned agent requires controller reconciliation")
      else if bool_decide (ai_topology ident = Unspecified) then
        Some (RefusedDecision "agent topology is unspecified")
      else if dc_identity_drift c then
        Some (RefusedDecision "agent identity or worktree path drifted")
      else None
  end.

Definition reject_liveness (c : DecisionContext) : option CleanupDecision :=
  match dc_liveness c with
  | Live => Some (RefusedDecision "agent is live")
  | UnknownLiveness => Some (RefusedDecision "agent liveness is unknown")
  | Dead => None
  end.

Definition reject_dirty (c : DecisionContext) : option CleanupDecision :=
  match dc_dirty c with
  | Some false => None
  | Some true =>
      if dc_discard_dirty c then None
      else Some (RefusedDecision "worktree is dirty; discard_dirty authorization is required")
  | None => Some (RefusedDecision "worktree is dirty or unavailable")
  end.

Definition reject_candidate_state (c : DecisionContext) : option CleanupDecision :=
  match reject_dirty c with
  | Some d => Some d
  | None =>
      if dc_protected c then
        Some (RefusedDecision "branch is protected or is the current/base branch")
      else if dc_resolver_only c && negb (dc_recovery_receipt c) then
        Some (RefusedDecision "resolver-only cleanup lacks a matching in-progress receipt")
      else None
  end.

Definition reject_head_mismatch (c : DecisionContext) : option CleanupDecision :=
  if bool_decide (dc_head_matches_pull_request c = Some false) then
    Some (RefusedDecision "managed branch head differs from the pull-request head")
  else if bool_decide (dc_remote_head_matches_pull_request c = Some false) then
    Some (RefusedDecision "configured remote branch head differs from the pull-request head")
  else None.

Definition is_closed (state : string) : bool := String.eqb (to_ascii_lowercase state) "closed".

Definition closed_unmerged (pr : CleanupPullRequest) : bool :=
  negb (cp_merged pr) && is_closed (cp_state pr).

Definition pull_request_safety_decision (c : DecisionContext) (ident : AgentIdentityRecord)
    (repository : RepositoryIdentity) (pr : CleanupPullRequest) (recovered_provenance : bool)
  : CleanupDecision :=
  if negb (cp_merged pr || recovered_provenance && closed_unmerged pr) then
    RefusedDecision ("pull request #" ++ pretty (cp_number pr) ++ " is "
                     ++ (if str_is_empty (cp_state pr) then "closed" else cp_state pr)
                     ++ " and not merged")
  else if negb (String.eqb (cp_base_ref pr) (ri_base_branch repository)) then
    RefusedDecision "pull request targets a different base branch"
  else if negb (String.eqb (cp_head_ref pr) (ai_birth_branch ident)) then
    RefusedDecision "pull request head does not match the managed branch"
  else if match cp_head_sha pr with None => true | Some sha => str_is_empty sha end then
    RefusedDecision "pull request head SHA is unavailable"
  else
    match dc_target_error c with
    | Some error => RefusedDecision ("configured target branch is unavailable: " ++ error)
    | None =>
        if closed_unmerged pr then default Cleanable (reject_head_mismatch c)
        else
          match dc_merge_commit_reachable c with
          | Some (Ok true) => default Cleanable (reject_head_mismatch c)
          | Some (Ok false) =>
              RefusedDecision "pull request merge commit is not reachable from the fetched target branch"
          | Some (Err error) =>
              RefusedDecision ("pull request merge reachability is unverifiable: " ++ error)
          | None => RefusedDecision "pull request merge commit reachability is unavailable"
          end
    end.

Definition pull_request_decision (c : DecisionContext) (recovered_provenance : bool)
  : CleanupDecision :=
  match dc_identity c with
  | None => RefusedDecision "managed identity is missing or malformed"
  | Some ident =>
      if negb (bool_decide (ai_topology ident = WorktreePerAgent)) then Cleanable
      else
        match dc_repository c with
        | None =>
            RefusedDecision (default "repository identity is unavailable" (dc_repository_error c))
        | Some repository =>
            match dc_remote_error c, dc_pr_error c with
            | Some error, _ => RefusedDecision ("configured remote is unavailable: " ++ error)
            | None, Some error =>
                RefusedDecision ("pull-request ownership is not verified: " ++ error)
            | None, None =>
                match dc_pull_request c with
                | None => if dc_allow_no_pr c then Cleanable
                          else RefusedDecision "pull-request ownership is not verified"
                | Some pr =>
                    pull_request_safety_decision c ident repository pr recovered_provenance
                end
            end
        end
  end.

Definition candidate_decision_for_recovery (c : DecisionContext) (recovered_provenance : bool)
  : CleanupDecision :=
  match reject_identity c with
  | Some d => d
  | None =>
      match reject_liveness c with
      | Some d => d
      | None =>
          match reject_candidate_state c with
          | Some d => d
          | None => if dc_resolver_only c then Cleanable
                    else pull_request_decision c recovered_provenance
          end
      end
  end.

(** ** From observations to a candidate *)

Definition protected_name (branch : string) : bool :=
  existsb (String.eqb branch) ["main"; "master"; "trunk"; "develop"].

Definition protected_branch (branch current_branch : option string)
    (repository : option RepositoryIdentity) : bool :=
  match branch with
  | None => false
  | Some branch =>
      String.eqb branch (default "" current_branch)
      || match repository with
         | Some repository => String.eqb branch (ri_base_branch repository)
         | None => false
         end
      || protected_name branch
  end.

Definition decision_context (observed : ObservedResource) (local : LocalBranchObservation)
    (remote : RemoteBranchObservation) (pull_request : PullRequestObservation)
    (liveness : CleanupLiveness) (protected : bool) (ic : InspectionContext) : DecisionContext := {|
  dc_identity := or_identity observed; dc_identity_error := lo_identity_error local;
  dc_liveness := liveness; dc_dirty := wo_dirty (or_worktree observed); dc_protected := protected;
  dc_identity_drift := wo_identity_drift (or_worktree observed);
  dc_repository := ic_repository ic; dc_repository_error := ic_repository_error ic;
  dc_remote_error := ro_error remote; dc_pull_request := po_request pull_request;
  dc_pr_error := po_error pull_request;
  dc_head_matches_pull_request := po_head_matches pull_request;
  dc_remote_head_matches_pull_request := po_remote_head_matches pull_request;
  dc_merge_commit_reachable := po_merge_commit_reachable pull_request;
  dc_target_error := ic_target_error ic; dc_resolver_only := or_resolver_only observed;
  dc_recovery_receipt := or_recovery_receipt observed; dc_allow_no_pr := ic_allow_no_pr ic;
  dc_discard_dirty := ic_discard_dirty ic |}.

Definition decision_for (observed : ObservedResource) (local : LocalBranchObservation)
    (remote : RemoteBranchObservation) (pull_request : PullRequestObservation)
    (liveness : CleanupLiveness) (protected : bool) (ic : InspectionContext) : CleanupDecision :=
  let decision :=
    candidate_decision_for_recovery
      (decision_context observed local remote pull_request liveness protected ic)
      (bool_decide (is_Some (or_recovered_provenance observed))) in
  let branch_evidence_available :=
    bool_decide (is_Some (lo_local_branch local))
    || match po_request pull_request with
       | Some pr => negb (str_is_empty (cp_head_ref pr))
       | None => false
       end in
  if ic_delete_remote_branch ic && is_cleanable decision && negb branch_evidence_available
  then RefusedDecision "remote deletion requested but verified branch evidence is unavailable"
  else decision.

Definition action (status : CleanupBranchActionStatus) (reason : option string)
  : CleanupBranchAction := {| ba_status := status; ba_reason := reason |}.

Definition planned_local_action (local : LocalBranchObservation) (ic : InspectionContext)
  : CleanupBranchAction :=
  if ic_preserve_unique_commits ic then
    action SkippedAction (Some "unique commits preserved by explicit operator request")
  else match lo_local_branch local with
       | Some _ => action WouldDelete None
       | None => action AlreadyAbsent (Some "managed local branch is already absent")
       end.

Definition planned_remote_action (remote : RemoteBranchObservation) (ic : InspectionContext)
  : CleanupBranchAction :=
  if negb (ic_delete_remote_branch ic) then
    action NotRequested (Some "remote branch deletion was not requested")
  else match ro_error remote, ro_head_sha remote with
       | Some error, _ => action RefusedAction (Some error)
       | None, Some _ => action WouldDelete None
       | None, None => action AlreadyAbsent (Some "managed remote branch is already absent")
       end.

Definition branch_evidence (local : LocalBranchObservation) (remote : RemoteBranchObservation)
    (pull_request : PullRequestObservation) (ic : InspectionContext) (decision : CleanupDecision)
  : option CleanupBranchEvidence :=
  branch ← match lo_local_branch local with
           | Some b => Some b
           | None => cp_head_ref <$> po_request pull_request
           end;
  let evidence := {|
    be_branch := Some branch; be_local_head_sha := lo_local_head_sha local;
    be_remote_name := tb_remote_name <$> ic_fetched_target ic;
    be_remote_branch := ro_branch remote; be_remote_head_sha := ro_head_sha remote;
    be_target_branch := tb_branch <$> ic_fetched_target ic;
    be_target_head_sha := tb_head_sha <$> ic_fetched_target ic;
    be_merge_commit_reachable := r ← po_merge_commit_reachable pull_request; result_to_option r;
    be_local := planned_local_action local ic; be_remote := planned_remote_action remote ic |} in
  Some (match decision_reason decision with
        | None => evidence
        | Some reason =>
            let evidence := with_local (action RefusedAction (Some reason)) evidence in
            if ic_delete_remote_branch ic
            then with_remote (action RefusedAction (Some reason)) evidence else evidence
        end).

(** [CandidateFacts::from_observations] and [into_candidate]. *)
Definition from_observations (observed : ObservedResource) (local : LocalBranchObservation)
    (remote : RemoteBranchObservation) (pull_request : PullRequestObservation)
    (liveness : CleanupLiveness) (ic : InspectionContext) : CleanupCandidate :=
  let worktree := or_worktree observed in
  let protected := protected_branch (wo_branch_name worktree) (ic_current_branch ic)
                     (ic_repository ic) in
  let decision := decision_for observed local remote pull_request liveness protected ic in
  {| cn_id := or_id observed; cn_managed := true; cn_resolver_only := or_resolver_only observed;
     cn_recovery_receipt := or_recovery_receipt observed;
     cn_recovered_provenance := or_recovered_provenance observed;
     cn_agent_name := match or_identity observed with
                      | Some ident => ai_agent_name ident
                      | None => or_id observed
                      end;
     cn_issue := or_issue observed; cn_agent_dir := or_agent_dir observed;
     cn_worktree_path := wo_worktree_path worktree; cn_local_branch := lo_local_branch local;
     cn_local_head_sha := lo_local_head_sha local; cn_remote_branch := ro_branch remote;
     cn_remote_head_sha := ro_head_sha remote; cn_pull_request := po_request pull_request;
     cn_liveness := liveness; cn_dirty := wo_dirty worktree;
     cn_dirty_evidence := wo_dirty_evidence worktree; cn_protected := protected;
     cn_identity_drift := wo_identity_drift worktree; cn_identity_error := lo_identity_error local;
     cn_head_matches_pull_request := po_head_matches pull_request;
     cn_remote_head_matches_pull_request := po_remote_head_matches pull_request;
     cn_identity := or_identity observed;
     cn_branch := branch_evidence local remote pull_request ic decision;
     cn_delete_remote_branch := ic_delete_remote_branch ic; cn_allow_no_pr := ic_allow_no_pr ic;
     cn_discard_dirty := ic_discard_dirty ic;
     cn_preserve_unique_commits := ic_preserve_unique_commits ic; cn_decision := decision |}.

(** ** Ambiguous branches *)

Definition branch_count (branch : string) (candidates : list CleanupCandidate) : nat :=
  length (List.filter (fun c => bool_decide (cn_local_branch c = Some branch)) candidates).

Definition refuse_duplicate (candidates : list CleanupCandidate) (c : CleanupCandidate)
  : CleanupCandidate :=
  match cn_local_branch c with
  | Some branch =>
      if (1 <? branch_count branch candidates)%nat
      then with_refusal "managed branch has ambiguous local ownership" c (cn_branch c) else c
  | None => c
  end.
Definition refuse_duplicate_branches (candidates : list CleanupCandidate)
  : list CleanupCandidate := map (refuse_duplicate candidates) candidates.

Definition requested_target_matches (target : option string) (entry_name : string)
    (ident : option AgentIdentityRecord) : bool :=
  match target with
  | None => true
  | Some target =>
      String.eqb target entry_name
      || match ident with
         | Some ident => String.eqb target (ai_agent_name ident)
                            || String.eqb target (ai_slug ident)
         | None => false
         end
  end.

Definition classify_routing_target (r : result bool string) : CleanupLiveness :=
  match r with
  | Ok true => Live
  | Ok false => Dead
  | Err _ => UnknownLiveness
  end.
