(* ===== verification/CleanupCalls.v ===== *)
(** * Verified cleanup: calls

    The calls [services/cleanup] makes: git commands with their output, file
    metadata, Forgejo, the agent resolver, tmux and the receipt directory; and
    the git helpers of [support.rs] as programs of such calls.  The output of a
    command is the text [String::from_utf8_lossy] makes of it. *)

From stdpp Require Import gmap pretty.
From S2P Require Import Prelude RustStr JsonValue Ledger Publication.
From S2P Require Import ReviewTypes MutexRegistry Effects.
From S2P Require Import CleanupDecision.
Local Open Scope string_scope.

(** ** Calls and answers *)

(** A spawned process; [status.success()] is exit code zero. *)
Inductive GitOutput :=
| GitSpawnError (error : string)
| GitExit (code : Z) (stdout stderr : string).

(** [identity.json] of an agent directory. *)
Inductive IdentityFile :=
| DirAbsent | DirNotReal | FileMissing | FileUnreadable (error : string) | FileMalformed
| FileParsed (i : AgentIdentityRecord).

(** [fs::symlink_metadata]. *)
Inductive Metadata := MetaAbsent | MetaError (error : string) | MetaRealDir | MetaOther.

(** [fs::read_dir]: the entries read before the first error; their names are
    UTF-8. *)
Inductive EntryKind := EntryDir | EntryOther | EntryTypeError (error : string).
Record DirEntry := { de_name : string; de_kind : EntryKind }.
Inductive Listing :=
| ListingAbsent | ListingError (error : string)
| Listed (entries : list DirEntry) (stopped : option string).

Inductive Removal := Removed | RemovalNotFound (error : string) | RemovalError (error : string).

(** [read_invocation] of an agent directory. *)
Inductive InvocationRead := InvocationNone | InvocationLive | InvocationEnded | InvocationUnreadable.

Inductive call :=
| Git (dir : path) (args : list string)
| RemoveWorkspace (p : path)
| RemoveDirAll (p : path)
| SymlinkMetadata (p : path)
| Exists (p : path)
| IsDir (p : path)
| Canonicalize (p : path)
| ResidualContentsSafe (p : path)
| ReadIdentityFile (agent_dir : path)
| ReadActiveIssue (agent_dir : path)
| ReadInvocation (agent_dir : path)
| ReadRouting (agent_dir : path)
| RoutingTargetAlive (session : string) (r : RoutingInfo)
| RoutingProcessAlive (session : string) (r : RoutingInfo)
| ListWindows (session : string)
| ResolverGet (name : string)
| ResolverDeregister (name : string)
| RemoveSyntheticMembers (keys : list string) (agent_name : string)
| DeregisterRegistrations (keys : list string) (birth_branch : string)
| GetRepositoryIdentity
| FindPullRequestsByHead (owner repo branch : string)
| HasGeneratedCodexConfig (dir : path)
| CaptureCodexTrust (dirs : list path)
| ReleaseCodexTrust (claims : list CapturedCodexTrust)
| PersistReceipt (r : CleanupReceipt)
| ReadReceipts
| ResolverAll
| ListDir (p : path)
| ReadIdentityJson (agent_dir : path)
| ReadLedgerEvents
| ReadPublishedHeads
| AcquireLock (resource agent intent : string)
| ReleaseLock (resource lock_id : string)
| UnixTimestamp
| NewUuid.

Definition reply (c : call) : Type :=
  match c with
  | Git _ _ => GitOutput
  | RemoveWorkspace _ => result unit string
  | RemoveDirAll _ => Removal
  | SymlinkMetadata _ => Metadata
  | Exists _ | IsDir _ | HasGeneratedCodexConfig _ => bool
  | Canonicalize _ => result path string
  | ResidualContentsSafe _ => result bool string
  | ReadIdentityFile _ => IdentityFile
  | ReadActiveIssue _ => option string
  | ReadInvocation _ => InvocationRead
  | ReadRouting _ => result RoutingInfo string
  | RoutingTargetAlive _ _ | RoutingProcessAlive _ _ => result bool string
  | ListWindows _ => result (list string) string
  | ResolverGet _ => option AgentIdentityRecord
  | ResolverDeregister _ => result unit string
  | RemoveSyntheticMembers _ _ => result unit string
  | DeregisterRegistrations _ _ => unit
  | GetRepositoryIdentity => result RepositoryIdentity string
  | FindPullRequestsByHead _ _ _ => result (list CleanupPullRequest) string
  | CaptureCodexTrust _ => result (list CapturedCodexTrust) string
  | ReleaseCodexTrust _ => list string
  | PersistReceipt _ => result unit string
  | ReadReceipts => result (list CleanupReceipt) string
  | ResolverAll => list AgentIdentityRecord
  | ListDir _ => Listing
  | ReadIdentityJson _ => option AgentIdentityRecord
  | ReadLedgerEvents => option (list LedgerRecord)
  | ReadPublishedHeads => option (list PublishedHead)
  | AcquireLock _ _ _ => AcquireMutexResponse
  | ReleaseLock _ _ => bool
  | UnixTimestamp => Z
  | NewUuid => string
  end.

Definition IO (A : Type) : Type := prog reply A.
Notation call_world := (@perform call reply).

(** What a run must not do without authority. *)
Definition destroys_files (c : call) : bool :=
  match c with RemoveWorkspace _ | RemoveDirAll _ => true | _ => false end.
Definition deletes_ref (args : list string) : bool :=
  match args with
  | "update-ref" :: _ | "push" :: _ => true
  | _ => false
  end.
Definition destructive (c : call) : bool :=
  match c with
  | Git _ args => deletes_ref args
  | RemoveWorkspace _ | RemoveDirAll _ | ResolverDeregister _ | RemoveSyntheticMembers _ _
  | DeregisterRegistrations _ _ | ReleaseCodexTrust _ => true
  | _ => false
  end.

(** ** Arguments of git commands *)

Definition bad_branch_char (s : string) : bool :=
  existsb (fun c => str_contains c s) [" "; "~"; "^"; ":"; "?"; "*"; "["; "\"]%char.

Definition valid_branch_arg (branch : string) : bool :=
  negb (str_is_empty branch
        || bool_decide (is_Some (strip_prefix "-" branch)) || ends_with "/" branch
        || ends_with "." branch || contains_str ".." branch || contains_str "@{" branch
        || contains_str "//" branch || bad_branch_char branch
        || existsb (fun part => str_is_empty part || String.eqb part "." || String.eqb part "..")
             (split_char "/" branch)
        || existsb (ends_with ".lock") (split_char "/" branch)).

Definition validate_branch_arg (branch label : string) : result unit string :=
  let? _ := ensure (negb (str_is_empty branch)) ("validate " ++ label) in
  ensure (valid_branch_arg branch) (label ++ " is not a valid Git branch name").

Definition valid_commit_arg (commit : string) : bool :=
  ((str_len commit =? 40)%Z || (str_len commit =? 64)%Z) && all_chars is_hex_digit commit.
Definition validate_commit_arg (commit : string) : result unit string :=
  ensure (valid_commit_arg commit) "commit SHA is invalid".

Definition head_ref (branch : string) : string := "refs/heads/" ++ branch.

(** ** Git helpers *)

Definition success (code : Z) : bool := (code =? 0)%Z.
Definition non_empty (s : string) : option string := if str_is_empty s then None else Some s.

Definition checked_out_branch (project_dir : path) : IO (result (option string) string) :=
  (do out <- call_world (Git project_dir ["branch"; "--show-current"]);
   Ret (match out with
        | GitSpawnError _ => Err "read checked-out branch"
        | GitExit code stdout stderr =>
            if success code then Ok (non_empty (str_trim stdout))
            else Err ("read checked-out branch: " ++ str_trim stderr)
        end))%prog.

Definition current_branch (project_dir : path) : IO (option string) :=
  (do r <- checked_out_branch project_dir;
   Ret (match r with Ok b => b | Err _ => None end))%prog.

Definition workspace_branch (worktree : path) : IO (result (option string) string) :=
  (do out <- call_world (Git worktree ["branch"; "--show-current"]);
   Ret (match out with
        | GitSpawnError _ => Err "read worktree branch"
        | GitExit code stdout _ =>
            if success code then Ok (non_empty (str_trim stdout))
            else Err "read worktree branch failed"
        end))%prog.

(** The path git prints, split at its separators. *)
Definition parse_path (s : string) : path :=
  List.filter (fun part => negb (str_is_empty part)) (split_char "/" s).

Definition workspace_git_root (worktree : path) : IO (result (option path) string) :=
  (do out <- call_world (Git worktree ["rev-parse"; "--show-toplevel"]);
   match out with
   | GitSpawnError _ => Ret (Err "read worktree git root")
   | GitExit code stdout _ =>
       if success code then
         do? p <- call_world (Canonicalize (parse_path (str_trim stdout)));
         Ret (Ok (Some p))
       else Ret (Ok None)
   end)%prog.

Definition rev_parse (project_dir : path) (ref context : string)
  : IO (result (option string) string) :=
  (do out <- call_world (Git project_dir ["rev-parse"; "--verify"; ref]);
   Ret (match out with
        | GitSpawnError _ => Err context
        | GitExit code stdout _ => Ok (if success code then Some (str_trim stdout) else None)
        end))%prog.

Definition local_ref_state (project_dir : path) (ref_name : string)
  : IO (result (option string) string) := rev_parse project_dir ref_name "read git ref".

Definition local_branch_state (project_dir : path) (branch : string)
  : IO (result (option string) string) :=
  match validate_branch_arg branch "local branch" with
  | Err e => Ret (Err e)
  | Ok _ => rev_parse project_dir (head_ref branch) "read local branch"
  end.

Definition workspace_head_sha (worktree : path) : IO (result string string) :=
  (do out <- call_world (Git worktree ["rev-parse"; "--verify"; "HEAD"]);
   Ret (match out with
        | GitSpawnError _ => Err "read worktree head"
        | GitExit code stdout _ =>
            if success code then Ok (str_trim stdout) else Err "read worktree head failed"
        end))%prog.

Definition MAX_DIRTY_EVIDENCE_BYTES : Z := 16 * 1024.
Definition MAX_DIRTY_EVIDENCE_ENTRIES : nat := 256.

Definition drop3 (line : string) : string := String.substring 3 (String.length line - 3) line.

Definition dirty_evidence (worktree : path) (branch head_sha : option string) (stdout : string)
  : CleanupDirtyEvidence :=
  let text := String.substring 0 (Z.to_nat MAX_DIRTY_EVIDENCE_BYTES) stdout in
  let kept := List.filter (fun line => (3 <=? str_len line)%Z)
                (firstn MAX_DIRTY_EVIDENCE_ENTRIES (lines text)) in
  let untracked line := bool_decide (is_Some (strip_prefix "??" line)) in
  {| de_porcelain := kept;
     de_tracked_paths := map drop3 (List.filter (fun line => negb (untracked line)) kept);
     de_untracked_paths := map drop3 (List.filter untracked kept);
     de_truncated := (MAX_DIRTY_EVIDENCE_BYTES <? str_len stdout)%Z
                     || (MAX_DIRTY_EVIDENCE_ENTRIES <? length (lines text))%nat;
     de_worktree_path := Some worktree; de_branch := branch; de_head_sha := head_sha |}.

Definition workspace_status (worktree : path) : IO (result CleanupDirtyEvidence string) :=
  (do out <- call_world (Git worktree ["status"; "--porcelain=v1"; "--untracked-files=all"]);
   match out with
   | GitSpawnError _ => Ret (Err "read worktree status")
   | GitExit code stdout _ =>
       if success code then
         do branch <- workspace_branch worktree;
         do head_sha <- workspace_head_sha worktree;
         Ret (Ok (dirty_evidence worktree (match branch with Ok b => b | Err _ => None end)
                    (result_to_option head_sha) stdout))
       else Ret (Err "read worktree status failed")
   end)%prog.

(** [split_whitespace] on the ASCII blanks of git's output. *)
Definition is_ascii_blank (c : ascii) : bool :=
  let n := nat_of_ascii c in (n =? 32)%nat || (9 <=? n)%nat && (n <=? 13)%nat.
Fixpoint blanks_to_space (s : string) : string :=
  match s with
  | EmptyString => EmptyString
  | String c s => String (if is_ascii_blank c then " "%char else c) (blanks_to_space s)
  end.
Definition split_whitespace (s : string) : list string :=
  List.filter (fun f => negb (str_is_empty f)) (split_char " " (blanks_to_space s)).

Definition parse_remote_branch_line (line : string) : option (string * string) :=
  match split_whitespace line with
  | [sha; reference] => Some (sha, reference)
  | _ => None
  end.

Fixpoint remote_heads (ref_name what : string) (l : list string) : result (list string) string :=
  match l with
  | [] => Ok []
  | line :: l =>
      match parse_remote_branch_line line with
      | None => Err ("remote branch " ++ what ++ " returned malformed evidence")
      | Some (sha, reference) =>
          if negb (String.eqb reference ref_name)
          then Err ("remote branch " ++ what ++ " returned conflicting evidence")
          else let? rest := remote_heads ref_name what l in Ok (sha :: rest)
      end
  end.

Definition remote_branch_state (project_dir : path) (remote branch : string)
  : IO (result (option string) string) :=
  let what := remote ++ "/" ++ branch in
  match validate_branch_arg branch "remote branch" with
  | Err e => Ret (Err e)
  | Ok _ =>
      (do out <- call_world (Git project_dir ["ls-remote"; "--heads"; remote; head_ref branch]);
       Ret (match out with
            | GitSpawnError _ => Err ("read remote branch " ++ what)
            | GitExit code stdout stderr =>
                if success code then
                  let? heads := remote_heads (head_ref branch) what
                                  (List.filter (fun line => negb (is_blank line)) (lines stdout)) in
                  match heads with
                  | [] => Ok None
                  | [sha] => Ok (Some sha)
                  | _ => Err ("remote branch " ++ what ++ " has ambiguous heads")
                  end
                else Err ("read remote branch " ++ what ++ ": " ++ str_trim stderr)
            end))%prog
  end.

Definition fetch_target_branch (project_dir : path) (remote branch : string)
  : IO (result CleanupTargetBranch string) :=
  let what := remote ++ "/" ++ branch in
  match validate_branch_arg branch "configured target branch" with
  | Err e => Ret (Err e)
  | Ok _ =>
      let remote_ref := "refs/remotes/" ++ what in
      (do out <- call_world (Git project_dir ["fetch"; "--no-tags"; remote;
                                              "+" ++ head_ref branch ++ ":" ++ remote_ref]);
       match out with
       | GitSpawnError _ => Ret (Err ("fetch configured target " ++ what))
       | GitExit code _ stderr =>
           if success code then
             do? head <- local_ref_state project_dir remote_ref;
             Ret (match head with
                  | None => Err ("fetched configured target " ++ what ++ " has no head")
                  | Some sha =>
                      Ok {| tb_remote_name := remote; tb_branch := branch; tb_head_sha := sha |}
                  end)
           else Ret (Err ("fetch configured target " ++ what ++ ": " ++ str_trim stderr))
       end)%prog
  end.

Definition merge_commit_reachable (project_dir : path) (merge_commit : string)
    (target : CleanupTargetBranch) : IO (result bool string) :=
  match validate_commit_arg merge_commit with
  | Err e => Ret (Err e)
  | Ok _ =>
      let target_ref := "refs/remotes/" ++ tb_remote_name target ++ "/" ++ tb_branch target in
      (do out <- call_world (Git project_dir ["merge-base"; "--is-ancestor"; merge_commit;
                                              target_ref]);
       Ret (match out with
            | GitSpawnError _ => Err "verify pull request merge reachability"
            | GitExit code _ stderr =>
                if success code then Ok true
                else if (code =? 1)%Z then Ok false
                else Err ("verify pull request merge reachability: " ++ str_trim stderr)
            end))%prog
  end.

Definition branch_checked_out_in_any_worktree (project_dir : path) (branch : string)
  : IO (result bool string) :=
  (do out <- call_world (Git project_dir ["worktree"; "list"; "--porcelain"]);
   Ret (match out with
        | GitSpawnError _ => Err "read checked-out worktree branches"
        | GitExit code stdout stderr =>
            if success code then
              Ok (existsb (String.eqb branch)
                    (omap (strip_prefix "branch refs/heads/") (lines stdout)))
            else Err ("read checked-out worktree branches: " ++ str_trim stderr)
        end))%prog.

Definition delete_local_branch (project_dir : path) (branch expected_sha : string)
  : IO (result unit string) :=
  match validate_branch_arg branch "managed local branch", validate_commit_arg expected_sha with
  | Err e, _ => Ret (Err e)
  | Ok _, Err _ => Ret (Err "validate expected local branch head")
  | Ok _, Ok _ =>
      (do? checked_out <- branch_checked_out_in_any_worktree project_dir branch;
       if checked_out then Ret (Err ("cannot delete checked-out branch " ++ branch))
       else
         do out <- call_world (Git project_dir ["update-ref"; "-d"; head_ref branch; expected_sha]);
         Ret (match out with
              | GitSpawnError _ => Err "delete managed local branch"
              | GitExit code _ stderr =>
                  if success code then Ok tt
                  else Err ("delete managed local branch " ++ branch ++ ": " ++ str_trim stderr)
              end))%prog
  end.

Definition lease_args (remote branch expected_sha : string) : list string :=
  ["push"; remote; "--force-with-lease=" ++ head_ref branch ++ ":" ++ expected_sha;
   ":" ++ head_ref branch].

Definition delete_remote_branch_with_lease (project_dir : path) (remote branch expected_sha : string)
  : IO (result unit string) :=
  match validate_branch_arg branch "managed remote branch", validate_commit_arg expected_sha with
  | Err e, _ => Ret (Err e)
  | Ok _, Err _ => Ret (Err "validate expected remote branch head")
  | Ok _, Ok _ =>
      (do out <- call_world (Git project_dir (lease_args remote branch expected_sha));
       Ret (match out with
            | GitSpawnError _ => Err ("delete remote branch " ++ remote ++ "/" ++ branch)
            | GitExit code _ stderr =>
                if success code then Ok tt
                else Err ("delete remote branch " ++ remote ++ "/" ++ branch ++ " with expected head "
                          ++ expected_sha ++ ": " ++ str_trim stderr)
            end))%prog
  end.
