(* ===== verification/CleanupInspect.v ===== *)
(** * Verified cleanup: inspection and planning

    How a discovered resource is observed ([inspection_*.rs] of
    [services/cleanup]) and how the observations become a plan
    ([service.rs]). *)

From stdpp Require Import gmap pretty.
From S2P Require Import Prelude RustStr ReviewTypes Effects.
From S2P Require Import CleanupDecision CleanupCalls.
Local Open Scope string_scope.

(** The parts of the service a function reads. *)
Record Service := {
  sv_project_dir : path;
  sv_forgejo : bool;
  sv_event_log : bool;
  sv_tmux_session : option string
}.

Section inspect.
Context (svc : Service).
Let project_dir := sv_project_dir svc.

(** ** Liveness *)

Definition has_delivery_target (r : RoutingInfo) : bool :=
  bool_decide (is_Some (window_id r)) || bool_decide (is_Some (pane_id r))
  || bool_decide (is_Some (parent_tab r)).

(** A session name that is set and not blank. *)
Definition tmux : option string :=
  session ← sv_tmux_session svc; if is_blank session then None else Some session.

Definition routed_liveness (routing : RoutingInfo) : IO CleanupLiveness :=
  if negb (has_delivery_target routing) then Ret Dead
  else
    match tmux with
    | None => Ret UnknownLiveness
    | Some session =>
        (do alive <- call_world (RoutingTargetAlive session routing);
         match classify_routing_target alive with
         | Live =>
             do process <- call_world (RoutingProcessAlive session routing);
             Ret (classify_routing_target process)
         | l => Ret l
         end)%prog
    end.

Definition marked_terminal (agent_dir : path) : IO bool :=
  (do exited <- call_world (Exists (agent_dir ++ ["exited_at"])%list);
   if exited then Ret true else call_world (Exists (agent_dir ++ ["exit_code"])%list))%prog.

(** [terminal]: a marker or the invocation record says it ended. *)
Definition recorded_liveness (terminal : bool) (agent_dir : path) : IO CleanupLiveness :=
  (do routed <- call_world (Exists (agent_dir ++ ["routing.json"])%list);
   if negb routed then Ret (if terminal then Dead else UnknownLiveness)
   else
     do routing <- call_world (ReadRouting agent_dir);
     match routing with
     | Err _ => Ret UnknownLiveness
     | Ok routing => routed_liveness routing
     end)%prog.

Definition liveness (agent_dir : path) : IO CleanupLiveness :=
  (do is_dir <- call_world (IsDir agent_dir);
   if negb is_dir then Ret UnknownLiveness
   else
     do marked <- marked_terminal agent_dir;
     do invocation <- call_world (ReadInvocation agent_dir);
     match invocation with
     | InvocationLive => Ret Live
     | InvocationUnreadable => Ret UnknownLiveness
     | InvocationEnded => recorded_liveness true agent_dir
     | InvocationNone => recorded_liveness marked agent_dir
     end)%prog.

Definition recovered_liveness (ident : AgentIdentityRecord) : IO CleanupLiveness :=
  match tmux with
  | None => Ret UnknownLiveness
  | Some session =>
      (do windows <- call_world (ListWindows session);
       Ret (match windows with
            | Err _ => UnknownLiveness
            | Ok windows =>
                if existsb (fun w => String.eqb w (ai_display_name ident)
                                     || String.eqb w (ai_agent_name ident)) windows
                then Live else Dead
            end))%prog
  end.

Definition candidate_liveness (resolver_only recovery_receipt : bool) (agent_dir : path)
    (worktree_path : option path) (ident : option AgentIdentityRecord)
    (recovered_provenance : bool) : IO CleanupLiveness :=
  if recovered_provenance then
    match ident with
    | None => Ret UnknownLiveness
    | Some ident => recovered_liveness ident
    end
  else if resolver_only && recovery_receipt then
    (do present <- call_world (Exists agent_dir);
     if present then liveness agent_dir
     else
       do worktree <- match worktree_path with
                      | None => Ret false
                      | Some p => call_world (Exists p)
                      end;
       if worktree then liveness agent_dir else Ret Dead)%prog
  else liveness agent_dir.

(** ** The worktree *)

(** The path of the worktree and whether it drifted. *)
Definition derive_worktree_path (discovered resolved : option path)
    (ident : option AgentIdentityRecord) : option path * bool :=
  let per_agent := match ident with
                   | Some ident => bool_decide (ai_topology ident = WorktreePerAgent)
                   | None => false
                   end in
  match discovered with
  | None => if per_agent then
              (resolved, match resolved with
                         | Some p => negb (path_within (worktrees_dir project_dir) p)
                         | None => false
                         end)
            else (None, false)
  | Some p => (Some p, negb (path_within (worktrees_dir project_dir) p))
  end.

Definition observe_recovered (worktree : path)
  : IO (option bool * option CleanupDirtyEvidence * bool) :=
  (do canonical <- call_world (Canonicalize worktree);
   do root <- workspace_git_root worktree;
   Ret (Some false, None,
        match canonical, root with
        | Ok p, Ok (Some root) => bool_decide (p = root)
        | _, _ => false
        end))%prog.

(** Cleanliness, its evidence and whether the worktree is not the managed one. *)
Definition observe_existing_worktree (worktree_path : option path) (expected_branch : option string)
    (recovered : bool) : IO (option bool * option CleanupDirtyEvidence * bool) :=
  match worktree_path with
  | None => Ret (Some false, None, false)
  | Some worktree =>
      (do present <- call_world (Exists worktree);
       if negb present then Ret (Some false, None, false)
       else if recovered then observe_recovered worktree
       else
         do canonical <- call_world (Canonicalize worktree);
         match canonical with
         | Err _ => Ret (None, None, true)
         | Ok canonical =>
             let drift := negb (path_within project_dir canonical)
                          || negb (path_within (worktrees_dir project_dir) canonical) in
             do root <- workspace_git_root worktree;
             let drift := drift || match root with
                                   | Ok (Some root) => negb (bool_decide (root = canonical))
                                   | _ => true
                                   end in
             do branch <- workspace_branch worktree;
             let drift := drift || match branch with
                                   | Ok (Some branch) =>
                                       match expected_branch with
                                       | Some expected => negb (String.eqb branch expected)
                                       | None => false
                                       end
                                   | _ => true
                                   end in
             do status <- workspace_status worktree;
             Ret (match status with
                  | Err _ => (None, None, drift)
                  | Ok evidence =>
                      match de_porcelain evidence with
                      | [] => (Some false, None, drift)
                      | _ => (Some true, Some evidence, drift)
                      end
                  end)
         end)%prog
  end.

Definition observe_worktree (id : string) (discovered : option path)
    (ident : option AgentIdentityRecord) (identity_error : option string)
    (recovered : option CleanupRecoveredProvenance) : IO WorktreeObservation :=
  let resolved := match ident with
                  | Some ident => Some (resolve_path project_dir (ai_working_dir ident))
                  | None => discovered
                  end in
  let drift :=
    bool_decide (is_Some identity_error) || negb (bool_decide (is_Some ident))
    || match ident with Some ident => negb (String.eqb id (ai_agent_name ident)) | None => false end
    || match resolved with Some p => negb (path_within project_dir p) | None => false end in
  let '(worktree_path, derived_drift) := derive_worktree_path discovered resolved ident in
  (do observed_branch <- match recovered, worktree_path with
                         | None, Some worktree =>
                             do b <- workspace_branch worktree;
                             Ret (match b with Ok b => b | Err _ => None end)
                         | _, _ => Ret None
                         end;
   do existing <- observe_existing_worktree worktree_path (ai_birth_branch <$> ident)
                    (bool_decide (is_Some recovered));
   let '(dirty, dirty_evidence, worktree_drift) := existing in
   Ret {| wo_worktree_path := worktree_path;
          wo_branch_name := _ ← worktree_path;
                            match ident with
                            | Some ident => Some (ai_birth_branch ident)
                            | None => observed_branch
                            end;
          wo_dirty := dirty; wo_dirty_evidence := dirty_evidence;
          wo_identity_drift := drift || derived_drift || worktree_drift |})%prog.

Definition observe_resource (r : DiscoveredResource) : IO ObservedResource :=
  (do worktree <- observe_worktree (dr_id r) (dr_worktree_path r) (dr_identity r)
                    (dr_identity_error r) (dr_recovered_provenance r);
   do issue <- call_world (ReadActiveIssue (dr_agent_dir r));
   Ret {| or_id := dr_id r; or_agent_dir := dr_agent_dir r; or_identity := dr_identity r;
          or_identity_error := dr_identity_error r; or_resolver_only := dr_resolver_only r;
          or_recovery_receipt := dr_recovery_receipt r;
          or_recovered_provenance := dr_recovered_provenance r; or_worktree := worktree;
          or_issue := issue |})%prog.

(** ** Branches and the pull request *)

Definition inspect_local_branch (resolver_only : bool) (branch identity_error : option string)
  : IO LocalBranchObservation :=
  match resolver_only, branch with
  | false, Some branch =>
      (do state <- local_branch_state project_dir branch;
       Ret (match state with
            | Ok (Some sha) => {| lo_identity_error := identity_error;
                                  lo_local_branch := Some branch; lo_local_head_sha := Some sha |}
            | Ok None => without_branch identity_error
            | Err error => without_branch (Some ("read local branch: " ++ error))
            end))%prog
  | _, _ => Ret (without_branch identity_error)
  end.

Definition inspect_remote_branch (resolver_only : bool) (repository : option RepositoryIdentity)
    (branch : option string) : IO RemoteBranchObservation :=
  match resolver_only, repository, branch with
  | false, Some repository, Some branch =>
      (do state <- remote_branch_state project_dir (ri_remote_name repository) branch;
       Ret (match state with
            | Ok head_sha => {| ro_branch := _ ← head_sha; Some branch; ro_head_sha := head_sha;
                                ro_error := None |}
            | Err error => {| ro_branch := None; ro_head_sha := None; ro_error := Some error |}
            end))%prog
  | _, _, _ => Ret default_remote
  end.

Definition pull_request_state (branch_name : option string) (is_worktree : bool)
    (repository : option RepositoryIdentity) (repository_error : option string)
  : IO (option CleanupPullRequest * option string) :=
  if negb is_worktree then Ret (None, None)
  else
    match branch_name, repository with
    | None, _ => Ret (None, Some "managed worktree branch is unavailable")
    | Some _, None => Ret (None, repository_error)
    | Some branch, Some repository =>
        if negb (sv_forgejo svc) then Ret (None, Some "Forgejo client is not configured")
        else if str_is_empty branch then Ret (None, Some "empty branch_name")
        else
          (do prs <- call_world (FindPullRequestsByHead (ri_owner repository) (ri_repo repository)
                                   branch);
           Ret (match prs with
                | Ok [pr] => (Some pr, None)
                | Ok [] => (None, None)
                | Ok prs => (None, Some (pretty (Z.of_nat (length prs))
                                         ++ " pull requests own this branch"))
                | Err error => (None, Some error)
                end))%prog
    end.

Definition inspect_merge_reachability (pull_request : option CleanupPullRequest)
    (fetched_target : option CleanupTargetBranch) (target_error : option string)
  : IO (option (result bool string)) :=
  match pr ← pull_request; cp_merge_commit_sha pr, fetched_target with
  | Some merge_commit, Some target =>
      (do r <- merge_commit_reachable project_dir merge_commit target;
       Ret (Some (match r with
                  | Ok b => Ok b
                  | Err error => Err (default error target_error)
                  end)))%prog
  | _, _ => Ret None
  end.

Definition inspect_pull_request (observed : ObservedResource) (ic : InspectionContext)
    (local : LocalBranchObservation) (remote : RemoteBranchObservation)
  : IO PullRequestObservation :=
  let worktree := or_worktree observed in
  (do state <- pull_request_state (wo_branch_name worktree)
                 (bool_decide (is_Some (wo_worktree_path worktree))
                  && negb (or_resolver_only observed))
                 (ic_repository ic) (ic_repository_error ic);
   let '(request, error) := state in
   let '(matches, remote_matches) :=
     pull_request_head_matches (lo_local_head_sha local) (ro_head_sha remote) request in
   do reachable <- inspect_merge_reachability request (ic_fetched_target ic) (ic_target_error ic);
   Ret {| po_request := request; po_error := error; po_head_matches := matches;
          po_remote_head_matches := remote_matches;
          po_merge_commit_reachable := reachable |})%prog.

Definition inspect_candidate (resource : DiscoveredResource) (ic : InspectionContext)
  : IO CleanupCandidate :=
  (do observed <- observe_resource resource;
   let worktree := or_worktree observed in
   do local <- inspect_local_branch (or_resolver_only observed) (wo_branch_name worktree)
                 (or_identity_error observed);
   do remote <- inspect_remote_branch (or_resolver_only observed) (ic_repository ic)
                  (wo_branch_name worktree);
   do pull_request <- inspect_pull_request observed ic local remote;
   do alive <- candidate_liveness (or_resolver_only observed) (or_recovery_receipt observed)
                 (or_agent_dir observed) (wo_worktree_path worktree) (or_identity observed)
                 (bool_decide (is_Some (or_recovered_provenance observed)));
   Ret (from_observations observed local remote pull_request alive ic))%prog.
End inspect.
