(* ===== verification/CleanupReceipts.v ===== *)
(** * Verified cleanup: receipts

    The entries and receipts of [receipt_support.rs] and [branch_receipts.rs],
    which fields a new record of an entry keeps, and how a run resumes the
    receipt of an interrupted one ([receipts.rs]). *)

From stdpp Require Import gmap pretty.
From S2P Require Import Prelude RustStr CleanupDecision.
Local Open Scope string_scope.

Definition DEREGISTER_PENDING : string := "deregister_identity_pending".
Definition PROGRESS_PERSISTENCE_FAILURE : string := "persist cleanup progress".
Definition CAPTURE_CODEX_TRUST : string := "capture_codex_trust".
Definition RELEASE_CODEX_TRUST : string := "release_codex_trust".
Definition CODEX_TRUST_ABSENT : string := "codex_trust_already_absent".
Definition CODEX_TRUST_CAPTURE_FAILED : string := "codex_trust_capture_failed".
Definition CODEX_TRUST_RELEASE_FAILED : string := "codex_trust_release_failed".
Definition RESUMED_CLEANUP_ACTION : string := "resumed_cleanup".

(** [Option::or]. *)
Definition or_option {A} (x y : option A) : option A :=
  match x with Some _ => x | None => y end.

Definition has_action (name : string) (actions : list string) : bool :=
  existsb (fun a => String.eqb a name) actions.
Definition push_if (b : bool) (name : string) (actions : list string) : list string :=
  if b then (actions ++ [name])%list else actions.
Definition without_action (name : string) (actions : list string) : list string :=
  List.filter (fun a => negb (String.eqb a name)) actions.

(** ** Entries *)

Definition slug_of (c : CleanupCandidate) : string := from_option ai_slug "" (cn_identity c).

Definition receipt_entry (c : CleanupCandidate) (status : CleanupReceiptStatus)
    (actions : list string) (reason : option string) : CleanupReceiptEntry := {|
  re_candidate_id := cn_id c; re_agent_name := cn_agent_name c; re_agent_slug := slug_of c;
  re_identity_snapshot := cn_identity c; re_recovered_provenance := cn_recovered_provenance c;
  re_pull_request := cn_pull_request c; re_branch := cn_branch c; re_status := status;
  re_actions := actions; re_reason := reason; re_dirty_evidence := cn_dirty_evidence c;
  re_codex_trust := None |}.

(** [actions.rs] [failed]: the branch evidence and the claim are kept. *)
Definition failed_entry (c : CleanupCandidate) (previous : CleanupReceiptEntry) (reason : string)
  : CleanupReceiptEntry :=
  entry_with_trust (re_codex_trust previous)
    (entry_with_branch (re_branch previous)
       (receipt_entry c Failed (re_actions previous) (Some reason))).

(** [support.rs] [refused_with_progress]. *)
Definition refused_with_progress (c : CleanupCandidate) (previous : CleanupReceiptEntry)
    (reason : string) : CleanupReceiptEntry := {|
  re_candidate_id := cn_id c; re_agent_name := cn_agent_name c; re_agent_slug := slug_of c;
  re_identity_snapshot := or_option (re_identity_snapshot previous) (cn_identity c);
  re_recovered_provenance :=
    or_option (re_recovered_provenance previous) (cn_recovered_provenance c);
  re_pull_request := or_option (re_pull_request previous) (cn_pull_request c);
  re_branch := or_option (re_branch previous) (cn_branch c);
  re_status := Refused; re_actions := re_actions previous; re_reason := Some reason;
  re_dirty_evidence := or_option (re_dirty_evidence previous) (cn_dirty_evidence c);
  re_codex_trust := re_codex_trust previous |}.

(** [execution.rs] [record_progress]: the entry it stores. *)
Definition progress_entry (c : CleanupCandidate) (previous : CleanupReceiptEntry)
    (actions : list string) : CleanupReceiptEntry :=
  entry_with_trust (re_codex_trust previous)
    (entry_with_branch (or_option (re_branch previous) (cn_branch c))
       (receipt_entry c InProgress actions None)).

(** ** Branch actions of an entry *)

Definition branch_action (local : bool) (e : CleanupBranchEvidence) : CleanupBranchAction :=
  if local then be_local e else be_remote e.
Definition set_branch_action (local : bool) (a : CleanupBranchAction) (e : CleanupBranchEvidence)
  : CleanupBranchEvidence := if local then with_local a e else with_remote a e.
Definition action_status (local : bool) (e : CleanupReceiptEntry)
  : option CleanupBranchActionStatus :=
  (fun b => ba_status (branch_action local b)) <$> re_branch e.

Definition pending_action_name (local : bool) : string :=
  if local then "delete_local_branch_pending" else "delete_remote_branch_pending".
Definition completed_action_name (local : bool) (status : CleanupBranchActionStatus)
  : option string :=
  match local, status with
  | true, Deleted => Some "delete_local_branch"
  | false, Deleted => Some "delete_remote_branch"
  | true, AlreadyAbsent => Some "local_branch_already_absent"
  | false, AlreadyAbsent => Some "remote_branch_already_absent"
  | _, _ => None
  end.
Definition is_branch_pending (action : string) : bool := ends_with "_branch_pending" action.

Definition branch_action_is_pending_or_planned (status : option CleanupBranchActionStatus) : bool :=
  match status with Some WouldDelete | Some DeletePending => true | _ => false end.

(** [refuse_branch]: the receipt's entry is marked, and the entry returned is
    built anew with its branch and actions. *)
Definition mark_refused (local : bool) (reason : string) (e : CleanupReceiptEntry)
  : CleanupReceiptEntry :=
  match re_branch e with
  | None => e
  | Some b =>
      entry_with_branch
        (Some (set_branch_action local {| ba_status := RefusedAction; ba_reason := Some reason |} b)) e
  end.
Definition refused_branch_entry (c : CleanupCandidate) (marked : CleanupReceiptEntry)
    (reason : string) : CleanupReceiptEntry :=
  entry_with_branch (re_branch marked)
    (receipt_entry c Refused (re_actions marked) (Some reason)).

Definition failed_branch_entry (c : CleanupCandidate) (previous : CleanupReceiptEntry)
    (reason : string) : CleanupReceiptEntry :=
  entry_with_branch (re_branch previous)
    (receipt_entry c Failed (re_actions previous) (Some reason)).

(** ** Opt-ins of the current request *)

Definition normalize_local_opt_in (c : CleanupCandidate) (e : CleanupReceiptEntry)
  : CleanupReceiptEntry :=
  match re_branch e with
  | None => e
  | Some b =>
      let local := be_local b in
      if cn_preserve_unique_commits c then
        if branch_action_is_pending_or_planned (Some (ba_status local)) then
          entry_with_branch
            (Some (with_local
                     match cn_branch c with
                     | None => {| ba_status := SkippedAction;
                                  ba_reason := Some "unique commits preserved by explicit operator request" |}
                     | Some planned => be_local planned
                     end b)) e
        else e
      else if bool_decide (ba_status local = SkippedAction) then
        match cn_branch c with
        | Some planned => entry_with_branch (Some (with_local (be_local planned) b)) e
        | None => e
        end
      else e
  end.

Definition normalize_remote_opt_in (c : CleanupCandidate) (e : CleanupReceiptEntry)
  : CleanupReceiptEntry :=
  match re_branch e with
  | None => e
  | Some b =>
      let remote := be_remote b in
      if cn_delete_remote_branch c then
        match ba_status remote, cn_branch c with
        | NotRequested, Some planned | SkippedAction, Some planned =>
            entry_with_branch (Some (with_remote (be_remote planned) b)) e
        | _, _ => e
        end
      else if branch_action_is_pending_or_planned (Some (ba_status remote)) then
        entry_with_branch
          (Some (with_remote {| ba_status := SkippedAction;
                                ba_reason := Some "remote deletion requires explicit opt-in" |} b)) e
      else e
  end.

Definition in_progress_actions (e : CleanupReceiptEntry) : list string :=
  match re_status e with InProgress | Failed => re_actions e | _ => [] end.

(** The entry [execute_plan] records before it executes a candidate. *)
Definition in_progress_entry (c : CleanupCandidate) (previous : CleanupReceiptEntry)
  : CleanupReceiptEntry :=
  normalize_remote_opt_in c
    (normalize_local_opt_in c
       (entry_with_trust (re_codex_trust previous)
          (entry_with_branch (or_option (re_branch previous) (cn_branch c))
             (entry_with_snapshot (or_option (re_identity_snapshot previous) (cn_identity c))
                (receipt_entry c InProgress (in_progress_actions previous) None))))).

Definition is_progress_persistence_failure (e : CleanupReceiptEntry) : bool :=
  bool_decide (re_status e = Failed)
  && match re_reason e with
     | Some reason => bool_decide (is_Some (strip_prefix PROGRESS_PERSISTENCE_FAILURE reason))
     | None => false
     end.

(** ** New receipts *)

Definition planned_entry (c : CleanupCandidate) : CleanupReceiptEntry :=
  receipt_entry c (if is_cleanable (cn_decision c) then InProgress else Refused) []
    (decision_reason (cn_decision c)).

Definition in_progress_receipt (operation_id : string) (plan : CleanupPlan) (started_at : Z)
  : CleanupReceipt := {|
  rc_operation_id := operation_id; rc_plan_id := pl_plan_id plan; rc_started_at := started_at;
  rc_finished_at := 0; rc_dry_run := false; rc_operator_reason := pl_operator_reason plan;
  rc_preserve_unique_commits := pl_preserve_unique_commits plan;
  rc_entries := map planned_entry (pl_candidates plan) |}.

Definition append_branch_preview (branch : option CleanupBranchEvidence) (actions : list string)
  : list string :=
  match branch with
  | None => actions
  | Some b =>
      push_if (bool_decide (ba_status (be_remote b) = WouldDelete)) "would_delete_remote_branch"
        (push_if (bool_decide (ba_status (be_local b) = WouldDelete)) "would_delete_local_branch"
           actions)
  end.

(** [trust]: one of the candidate's directories holds a generated config. *)
Definition dry_run_entry (c : CleanupCandidate) (trust : bool) : CleanupReceiptEntry :=
  let discarding := cn_discard_dirty c && bool_decide (cn_dirty c = Some true) in
  let no_pr := cn_allow_no_pr c && bool_decide (cn_pull_request c = None) in
  let removes_worktree :=
    bool_decide (is_Some (cn_worktree_path c)) && negb (cn_resolver_only c) in
  let actions :=
    if is_cleanable (cn_decision c) then
      let preview := append_branch_preview (cn_branch c) [] in
      let preview := push_if (cn_preserve_unique_commits c) "preserve_unique_commits" preview in
      let preview := push_if no_pr "allow_no_pr_override" preview in
      let preview := push_if discarding "record_dirty_evidence" preview in
      let preview := push_if (cn_delete_remote_branch c) "delete_remote_branch_override" preview in
      let preview := push_if removes_worktree "remove_worktree" preview in
      let preview := push_if (negb (cn_resolver_only c)) "remove_agent_directory" preview in
      let preview := push_if (negb (cn_resolver_only c) && trust) RELEASE_CODEX_TRUST preview in
      (preview ++ ["deregister_identity"])%list
    else [] in
  receipt_entry c (if is_cleanable (cn_decision c) then WouldClean else Refused) actions
    (decision_reason (cn_decision c)).

(** ** Resuming *)

Definition is_open (e : CleanupReceiptEntry) : bool :=
  match re_status e with InProgress | Failed => true | _ => false end.
Definition is_kept (e : CleanupReceiptEntry) : bool :=
  match re_status e with InProgress | Failed | Cleaned => true | _ => false end.

Definition receipt_snapshot_is_coherent (e : CleanupReceiptEntry) : bool :=
  match re_identity_snapshot e with
  | None => true
  | Some s => String.eqb (re_agent_name e) (ai_agent_name s)
              && String.eqb (re_agent_slug e) (ai_slug s)
  end.

Definition slug_is (slug : string) (c : CleanupCandidate) : bool :=
  match cn_identity c with Some i => String.eqb slug (ai_slug i) | None => false end.

Definition receipt_entry_matches_candidate (e : CleanupReceiptEntry) (c : CleanupCandidate)
  : bool :=
  let same_identity :=
    match re_identity_snapshot e with
    | Some s => bool_decide (cn_identity c = Some s)
    | None => String.eqb (re_candidate_id e) (cn_id c)
              || negb (str_is_empty (re_agent_name e))
                 && String.eqb (re_agent_name e) (cn_agent_name c)
              || negb (str_is_empty (re_agent_slug e)) && slug_is (re_agent_slug e) c
    end in
  let names_agree :=
    str_is_empty (re_agent_name e) || String.eqb (re_agent_name e) (cn_agent_name c) in
  let slugs_agree := str_is_empty (re_agent_slug e) || slug_is (re_agent_slug e) c in
  same_identity && names_agree && slugs_agree && receipt_snapshot_is_coherent e.

Definition receipt_entry_matches (e : CleanupReceiptEntry) (plan : CleanupPlan)
    (target : option string) : bool :=
  match target with
  | None => true
  | Some t => String.eqb (re_agent_name e) t || String.eqb (re_agent_slug e) t
              || existsb (receipt_entry_matches_candidate e) (pl_candidates plan)
  end && receipt_snapshot_is_coherent e.

(** The receipts an apply may resume, and the latest of them. *)
Definition is_resumable (plan : CleanupPlan) (target : option string) (r : CleanupReceipt) : bool :=
  negb (rc_dry_run r)
  && existsb (fun e => is_open e && receipt_entry_matches e plan target) (rc_entries r).

Definition not_later (l r : CleanupReceipt) : bool :=
  match (rc_started_at l ?= rc_started_at r)%Z with
  | Lt => true
  | Eq => negb (bool_decide (String.compare (rc_operation_id l) (rc_operation_id r) = Gt))
  | Gt => false
  end.
Definition latest_receipt (l : list CleanupReceipt) : option CleanupReceipt :=
  fold_left (fun best r => match best with
                           | Some b => if not_later b r then Some r else best
                           | None => Some r
                           end) l None.

Definition load_in_progress_receipt (receipts : list CleanupReceipt) (plan : CleanupPlan)
    (target : option string) : option CleanupReceipt :=
  latest_receipt (List.filter (is_resumable plan target) receipts).

(** The first entry a candidate continues, with its position. *)
Fixpoint find_indexed {A} (f : A -> bool) (i : nat) (l : list A) : option (nat * A) :=
  match l with
  | [] => None
  | x :: l => if f x then Some (i, x) else find_indexed f (S i) l
  end.
Definition find_previous (c : CleanupCandidate) (previous : list CleanupReceiptEntry)
  : option (nat * CleanupReceiptEntry) :=
  find_indexed (fun e => receipt_entry_matches_candidate e c && is_kept e) 0 previous.

Definition resume_entry (previous : list CleanupReceiptEntry) (c : CleanupCandidate)
  : CleanupReceiptEntry :=
  match find_previous c previous with
  | None => planned_entry c
  | Some (_, e) =>
      if is_open e && negb (has_action RESUMED_CLEANUP_ACTION (re_actions e))
      then entry_with_actions (re_actions e ++ [RESUMED_CLEANUP_ACTION])%list e
      else e
  end.

Definition is_matched (candidates : list CleanupCandidate) (previous : list CleanupReceiptEntry)
    (i : nat) : bool :=
  existsb (fun c => bool_decide (fst <$> find_previous c previous = Some i)) candidates.

(** The kept entries of a list that no candidate continues. *)
Fixpoint unmatched (matched : nat -> bool) (i : nat) (l : list CleanupReceiptEntry)
  : list CleanupReceiptEntry :=
  match l with
  | [] => []
  | e :: l => ((if negb (matched i) && is_kept e then [e] else []) ++ unmatched matched (S i) l)%list
  end.

Definition resume_receipt (plan : CleanupPlan) (previous : CleanupReceipt) : CleanupReceipt := {|
  rc_operation_id := rc_operation_id previous; rc_plan_id := rc_plan_id previous;
  rc_started_at := rc_started_at previous; rc_finished_at := 0; rc_dry_run := false;
  rc_operator_reason := or_option (pl_operator_reason plan) (rc_operator_reason previous);
  rc_preserve_unique_commits := pl_preserve_unique_commits plan;
  rc_entries :=
    (map (resume_entry (rc_entries previous)) (pl_candidates plan)
     ++ unmatched (is_matched (pl_candidates plan) (rc_entries previous)) 0 (rc_entries previous))%list
  |}.

(** ** What earlier receipts prove *)

Definition has_deregister_intent (e : CleanupReceiptEntry) : bool :=
  existsb (fun a => String.eqb a DEREGISTER_PENDING || String.eqb a "deregister_identity")
    (re_actions e).

(** An [AgentName] is any non-empty string. *)
Definition receipt_entry_agent_name (e : CleanupReceiptEntry) : option string :=
  let name := match re_identity_snapshot e with
              | Some s => ai_agent_name s
              | None => if str_is_empty (re_agent_name e) then re_candidate_id e
                        else re_agent_name e
              end in
  if str_is_empty name then None else Some name.

(** Whether [reconcile_deregistered_entries] asks the resolver about an entry,
    and the entry it leaves when the resolver knows no such agent. *)
Definition awaits_reconciliation (e : CleanupReceiptEntry) : bool :=
  is_open e && has_deregister_intent e
  && negb (has_action CODEX_TRUST_RELEASE_FAILED (re_actions e)).

Definition reconciled (e : CleanupReceiptEntry) : CleanupReceiptEntry :=
  let actions := without_action DEREGISTER_PENDING (re_actions e) in
  let actions := push_if (negb (has_action "deregister_identity" actions)) "deregister_identity"
                   actions in {|
  re_candidate_id := re_candidate_id e; re_agent_name := re_agent_name e;
  re_agent_slug := re_agent_slug e; re_identity_snapshot := re_identity_snapshot e;
  re_recovered_provenance := re_recovered_provenance e; re_pull_request := re_pull_request e;
  re_branch := re_branch e; re_status := Cleaned; re_actions := actions; re_reason := None;
  re_dirty_evidence := re_dirty_evidence e; re_codex_trust := re_codex_trust e |}.

Definition filled (o : option string) : option string :=
  s ← o; if str_is_empty s then None else Some s.

Definition receipt_entry_proves_remote_deletion (e : CleanupReceiptEntry) (c : CleanupCandidate)
    (remote_name remote_branch : string) : bool :=
  match re_branch e with
  | None => false
  | Some evidence =>
      bool_decide (ba_status (be_remote evidence) = Deleted)
      && has_action "delete_remote_branch" (re_actions e)
      && receipt_entry_matches_candidate e c
      && bool_decide (be_remote_name evidence = Some remote_name)
      && bool_decide (or_option (be_remote_branch evidence) (be_branch evidence)
                      = Some remote_branch)
      && bool_decide (is_Some (filled (be_remote_head_sha evidence)))
      && match pr ← cn_pull_request c; cp_head_sha pr with
         | None => true
         | Some head => bool_decide (be_remote_head_sha evidence = Some head)
         end
  end.

(** The remote and the branch a proof must name. *)
Definition proof_subject (c : CleanupCandidate) : option (string * string) :=
  b ← cn_branch c;
  remote_name ← filled (be_remote_name b);
  remote_branch ← filled (or_option (be_branch b) (cn_local_branch c));
  Some (remote_name, remote_branch).

Definition receipts_prove_remote_deletion (receipts : list CleanupReceipt) (c : CleanupCandidate)
    (remote_name remote_branch : string) : bool :=
  existsb (fun r => existsb (fun e => receipt_entry_proves_remote_deletion e c remote_name remote_branch)
                      (rc_entries r))
    (List.filter (fun r => negb (rc_dry_run r)) receipts).

(** The identities an interrupted run has not finished with. *)
Definition in_progress_identity_snapshots (receipts : list CleanupReceipt)
  : list AgentIdentityRecord :=
  omap re_identity_snapshot
    (List.filter (fun e => is_open e && receipt_snapshot_is_coherent e)
       (concat (map rc_entries (List.filter (fun r => negb (rc_dry_run r)) receipts)))).
Definition recoverable_receipt_entries (receipts : list CleanupReceipt)
  : list CleanupReceiptEntry :=
  List.filter (fun e => is_open e && receipt_snapshot_is_coherent e
                        && bool_decide (is_Some (re_recovered_provenance e)))
    (concat (map rc_entries (List.filter (fun r => negb (rc_dry_run r)) receipts))).
Definition target_was_cleaned (receipts : list CleanupReceipt) (target : string) : bool :=
  existsb (fun r => existsb (fun e => bool_decide (re_status e = Cleaned)
                                      && (String.eqb (re_agent_name e) target
                                          || String.eqb (re_agent_slug e) target))
                      (rc_entries r)) receipts.
