(* ===== verification/CleanupDiscover.v ===== *)
(** * Verified cleanup: discovery

    Which resources a request is about: the agent directories, the worktrees,
    the receipts of interrupted recoveries and the resolver's records
    ([discovery.rs]), and how a residual worktree directory without an identity
    is tied to its agent by the ledger, the publication registry, git and the
    pull request ([recovery.rs]). *)

From stdpp Require Import gmap pretty.
From S2P Require Import Prelude RustStr JsonValue Ledger Publication.
From S2P Require Import ReviewTypes MutexRegistry Effects.
From S2P Require Import CleanupDecision CleanupCalls CleanupInspect CleanupReceipts.
Local Open Scope string_scope.

(** ** Agent names *)

(** [AgentType::suffix], [emoji] and the [Debug] name. *)
Definition agent_suffix (t : AgentType) : string :=
  match t with
  | Claude => "claude" | Shoal => "shoal" | OpenCode => "opencode" | Codex => "codex"
  | Process => "process"
  end.
Definition agent_emoji (t : AgentType) : string :=
  match t with
  | Claude | Codex => "🤖" | Shoal => "🌊" | OpenCode => "💻" | Process => "⚙️"
  end.
Definition agent_debug_name (t : AgentType) : string :=
  match t with
  | Claude => "Claude" | Shoal => "Shoal" | OpenCode => "OpenCode" | Codex => "Codex"
  | Process => "Process"
  end.

(** [AgentIdentity::from_internal_name] and what it is asked for. *)
Record AgentIdentity := { id_slug : string; id_type : AgentType }.
Definition from_internal_name (name : string) : AgentIdentity :=
  let t := from_dir_name name in
  {| id_slug := default name (strip_suffix ("-" ++ agent_suffix t) name); id_type := t |}.
Definition internal_name (i : AgentIdentity) : string :=
  id_slug i ++ "-" ++ agent_suffix (id_type i).
Definition identity_display_name (i : AgentIdentity) : string :=
  agent_emoji (id_type i) ++ " " ++ internal_name i.

(** ** Evidence in the ledger *)

(** [data.get(key)]. *)
Definition field (data : json) (key : string) : option json := m ← as_object data; obj_get key m.
Definition str_field (data : json) (key : string) : option string := v ← field data key; as_str v.
Definition u64_field (data : json) (key : string) : option Z := v ← field data key; as_u64 v.

Definition is_spawn_of (agent_name : string) (e : LedgerEvent) : bool :=
  String.eqb (ev_event_type e) "agent.spawned"
  && bool_decide (str_field (ev_data e) "child_agent" = Some agent_name).

(** The branch and type one event gives; [None] ends the search. *)
Definition spawn_evidence (agent_name : string) (e : LedgerEvent) : option (string * AgentType) :=
  branch ← str_field (ev_data e) "branch";
  topology ← str_field (ev_data e) "topology";
  if negb (String.eqb topology "worktreeperagent" || String.eqb topology "worktree_per_agent")
  then None
  else
    let t := from_dir_name agent_name in
    event_type ← str_field (ev_data e) "agent_type";
    if negb (String.eqb event_type (agent_suffix t))
       && negb (String.eqb (to_ascii_lowercase event_type) (to_ascii_lowercase (agent_debug_name t)))
    then None else Some (branch, t).

Fixpoint agree_on (known : option (string * AgentType)) (agent_name : string)
    (l : list LedgerEvent) : option (string * AgentType) :=
  match l with
  | [] => known
  | e :: l =>
      ev ← spawn_evidence agent_name e;
      match known with
      | Some k => if bool_decide (k = ev) then agree_on known agent_name l else None
      | None => agree_on (Some ev) agent_name l
      end
  end.

Definition recovered_spawn_evidence (events : list LedgerRecord) (agent_name : string)
  : option (string * AgentType) :=
  agree_on None agent_name (List.filter (is_spawn_of agent_name) (map rec_event events)).

Definition publication_evidence (events : list LedgerRecord) (agent_name : string)
    (p : PublishedHead) : bool :=
  existsb (fun r =>
    let e := rec_event r in
    let data := ev_data e in
    String.eqb (ev_event_type e) "pr.published"
    && (bool_decide (ev_agent_id e = Some agent_name)
        || bool_decide (str_field data "agent_id" = Some agent_name))
    && bool_decide (u64_field data "pr_number" = Some (ph_pr_number p))
    && bool_decide (str_field data "head_branch" = Some (ph_head_branch p))
    && bool_decide (str_field data "base_branch" = Some (ph_base_branch p))
    && bool_decide (str_field data "head_sha" = Some (ph_head_sha p))) events.

Definition optional_string_matches (data : json) (key expected : string) : bool :=
  match str_field data key with Some v => String.eqb v expected | None => true end.
Definition optional_u64_matches (data : json) (key : string) (expected : Z) : bool :=
  match u64_field data key with Some v => (v =? expected)%Z | None => true end.

Definition finished_invocation_evidence (events : list LedgerRecord) (agent_name : string)
    (p : PublishedHead) : bool :=
  match ph_invocation_id p with
  | None => false
  | Some invocation =>
      existsb (fun r =>
        let e := rec_event r in
        let data := ev_data e in
        String.eqb (ev_event_type e) "agent.invocation.finished"
        && bool_decide (ev_agent_id e = Some agent_name)
        && bool_decide (str_field data "invocation_id" = Some invocation)
        && bool_decide (str_field data "outcome" = Some "finished")
        && negb (bool_decide (str_field data "status" = Some "running"))
        && optional_string_matches data "branch" (ph_head_branch p)
        && optional_string_matches data "head_sha" (ph_head_sha p)
        && match ph_slice_id p with
           | Some slice => optional_string_matches data "slice_id" slice
           | None => true
           end
        && optional_u64_matches data "pr_number" (ph_pr_number p)) events
  end.

(** ** A residual directory *)

Definition last_component (p : path) : option string := last p.
Definition relative_to (base p : path) : option path :=
  if path_within base p then Some (skipn (length base) p) else None.

Definition proves_deletion_of (id : string) (repository : RepositoryIdentity) (branch : string)
    (p : PublishedHead) (e : CleanupReceiptEntry) : bool :=
  bool_decide (ai_agent_name <$> re_identity_snapshot e = Some id)
  && bool_decide (is_Some (re_recovered_provenance e))
  && has_action "delete_remote_branch" (re_actions e)
  && match re_branch e with
     | None => false
     | Some evidence =>
         bool_decide (ba_status (be_remote evidence) = Deleted)
         && bool_decide (be_remote_name evidence = Some (ri_remote_name repository))
         && bool_decide (be_remote_branch evidence = Some branch)
         && bool_decide (be_remote_head_sha evidence = Some (ph_head_sha p))
     end.

Definition owned_publications (id branch : string) (l : list PublishedHead) : list PublishedHead :=
  List.filter (fun p => bool_decide (ph_provenance p = LedgerOwned)
                        && bool_decide (ph_author_agent p = Some id)
                        && String.eqb (ph_head_branch p) branch) l.

Definition recovered_pull_request (id branch : string) (p : PublishedHead)
    (pr : CleanupPullRequest) : bool :=
  (cp_merged pr || closed_unmerged pr)
  && String.eqb (cp_head_ref pr) branch && String.eqb (cp_base_ref pr) (ph_base_branch p)
  && bool_decide (cp_head_sha pr = Some (ph_head_sha p))
  && bool_decide (cp_authoring_agent pr = Some id)
  && bool_decide (cp_birth_branch pr = Some branch).

(** The identity that is rebuilt from the name and the publication. *)
Definition recovered_identity (id branch : string) (agent_type : AgentType) (working_dir : path)
    (p : PublishedHead) : option AgentIdentityRecord :=
  let parts := from_internal_name id in
  if str_is_empty id || negb (bool_decide (id_type parts = agent_type))
     || negb (String.eqb (internal_name parts) id)
     || str_is_empty (id_slug parts) || str_is_empty branch || str_is_empty (ph_base_branch p)
  then None
  else Some {|
    ai_agent_name := id; ai_slug := id_slug parts; ai_agent_type := agent_type;
    ai_birth_branch := branch; ai_parent_branch := ph_base_branch p;
    ai_working_dir := Relative working_dir; ai_display_name := identity_display_name parts;
    ai_topology := WorktreePerAgent; ai_model := None; ai_effort := None;
    ai_ledger_owned := false; ai_slice_id := ph_slice_id p |}.

Definition recovered_provenance (receipt_proves : bool) : CleanupRecoveredProvenance := {|
  rp_identity_sources :=
    ["published-heads.json:author_agent"; "ledger:agent.spawned.child_agent";
     "residual path basename"];
  rp_branch_sources :=
    push_if receipt_proves "cleanup receipt: exact remote deletion proof"
      ["ledger:agent.spawned.branch"; "published-heads.json:head_branch";
       "git:refs/heads exact head"; "git:remote exact head"];
  rp_pull_request_sources :=
    ["ledger:pr.published"; "published-heads.json";
     "Forgejo unique merged or closed-unmerged pull request"; "Forgejo PR body: Authoring-Agent";
     "Forgejo PR body: Birth-Branch"];
  rp_liveness_sources :=
    ["ledger:agent.invocation.finished"; "resolver identity absent"; "agent directory absent";
     "configured tmux session window inventory"] |}.

Section discovery.
Context (svc : Service).
Let project_dir := sv_project_dir svc.

(** A directory directly under the worktree root that is no git worktree and
    holds only ExoMonad's files, in this repository. *)
Definition residual_location (p : path) : IO (option path) :=
  (do! canonical <- ok_or_none (call_world (Canonicalize p));
   do! root <- ok_or_none (call_world (Canonicalize (worktrees_dir project_dir)));
   assuming (negb (str_is_empty (default "" (last_component canonical)))
             && bool_decide (removelast canonical = root) && path_within root canonical)
     (do git <- call_world (SymlinkMetadata (p ++ [".git"])%list);
      match git with
      | MetaRealDir | MetaOther => Ret None
      | MetaAbsent | MetaError _ =>
          do! safe <- ok_or_none (call_world (ResidualContentsSafe p));
          assuming safe
            (do! root <- ok_or_none (workspace_git_root p);
             Ret (if bool_decide (root = Some project_dir) then Some canonical else None))
      end))%prog.

(** The ledger and the publication registry agree on one branch and head. *)
Definition residual_publication (id : string)
  : IO (option (string * AgentType * PublishedHead)) :=
  assuming (sv_event_log svc)
    (do! events <- call_world ReadLedgerEvents;
     match recovered_spawn_evidence events id with
     | None => Ret None
     | Some (branch, agent_type) =>
         do! heads <- call_world ReadPublishedHeads;
         Ret (match owned_publications id branch heads with
              | [p] => if publication_evidence events id p
                          && finished_invocation_evidence events id p
                       then Some (branch, agent_type, p) else None
              | _ => None
              end)
     end)%prog.

(** Git and the pull request agree too: whether a receipt proves the remote
    deletion. *)
Definition residual_heads (id branch : string) (p : PublishedHead)
    (recovery_entries : list CleanupReceiptEntry) : IO (option bool) :=
  (do! repository <- ok_or_none (call_world GetRepositoryIdentity);
   assuming (negb (str_is_empty branch))
     (do! local <- ok_or_none (local_branch_state project_dir branch);
      match local with
      | None => Ret None
      | Some local_head =>
          do! remote_head <- ok_or_none (remote_branch_state project_dir
                                           (ri_remote_name repository) branch);
          let proved := existsb (proves_deletion_of id repository branch p) recovery_entries in
          assuming (String.eqb local_head (ph_head_sha p)
                    && (bool_decide (remote_head = Some (ph_head_sha p))
                        || bool_decide (remote_head = None) && proved))
            (assuming (sv_forgejo svc)
               (do! prs <- ok_or_none (call_world (FindPullRequestsByHead (ri_owner repository)
                                                     (ri_repo repository) branch));
                Ret (match prs with
                     | [pr] => if recovered_pull_request id branch p pr then Some proved else None
                     | _ => None
                     end)))
      end))%prog.

Definition recover_residual_resource (p : path) (resolver_records : list AgentIdentityRecord)
    (recovery_entries : list CleanupReceiptEntry) : IO (option DiscoveredResource) :=
  (do! canonical <- residual_location p;
   match last_component p with
   | None => Ret None
   | Some id =>
       assuming (negb (existsb (fun i => String.eqb (ai_agent_name i) id) resolver_records))
         (do! owned <- residual_publication id;
          let '(branch, agent_type, publication) := owned in
          do! proved <- residual_heads id branch publication recovery_entries;
          Ret (working_dir ← relative_to project_dir canonical;
               ident ← recovered_identity id branch agent_type working_dir publication;
               Some {| dr_id := id; dr_agent_dir := (agents_dir project_dir ++ [id])%list;
                       dr_worktree_path := Some p; dr_identity := Some ident;
                       dr_identity_error := None; dr_resolver_only := false;
                       dr_recovery_receipt := false;
                       dr_recovered_provenance := Some (recovered_provenance proved) |}))
   end)%prog.

(** ** Agent directories *)

Definition identity_verdict (disk canonical : option AgentIdentityRecord)
  : option AgentIdentityRecord * option string :=
  match disk, canonical with
  | Some d, Some c =>
      if bool_decide (d = c) then (Some c, None)
      else (Some c, Some "identity.json disagrees with the AgentResolver record")
  | Some _, None => (None, Some "identity is not registered in the AgentResolver")
  | None, Some c => (Some c, Some "identity.json is missing or malformed")
  | None, None => (None, Some "identity.json is missing or malformed")
  end.

Definition authoritative_identity (entry_name : string)
  : IO (option AgentIdentityRecord * option string) :=
  (do disk <- call_world (ReadIdentityJson (agents_dir project_dir ++ [entry_name])%list);
   do canonical <- (if negb (str_is_empty entry_name) then call_world (ResolverGet entry_name)
                    else match disk with
                         | Some d => call_world (ResolverGet (ai_agent_name d))
                         | None => Ret None
                         end);
   Ret (identity_verdict disk canonical))%prog.

Definition worktree_of (ident : AgentIdentityRecord) : option path :=
  if bool_decide (ai_topology ident = WorktreePerAgent)
  then Some (resolve_path project_dir (ai_working_dir ident)) else None.

Fixpoint agent_resources (l : list DirEntry) : IO (result (list DiscoveredResource) string) :=
  match l with
  | [] => Ret (Ok [])
  | e :: l =>
      match de_kind e with
      | EntryTypeError error => Ret (Err error)
      | EntryOther => agent_resources l
      | EntryDir =>
          (do verdict <- authoritative_identity (de_name e);
           do? rest <- agent_resources l;
           Ret (Ok ({| dr_id := de_name e;
                       dr_agent_dir := (agents_dir project_dir ++ [de_name e])%list;
                       dr_worktree_path := i ← verdict.1; worktree_of i;
                       dr_identity := verdict.1; dr_identity_error := verdict.2;
                       dr_resolver_only := false; dr_recovery_receipt := false;
                       dr_recovered_provenance := None |} :: rest)))%prog
      end
  end.

(** ** Worktrees *)

Definition with_worktree (p : path) (r : DiscoveredResource) : DiscoveredResource := {|
  dr_id := dr_id r; dr_agent_dir := dr_agent_dir r; dr_worktree_path := Some p;
  dr_identity := dr_identity r; dr_identity_error := dr_identity_error r;
  dr_resolver_only := dr_resolver_only r; dr_recovery_receipt := dr_recovery_receipt r;
  dr_recovered_provenance := dr_recovered_provenance r |}.

(** The first resource the worktree belongs to. *)
Fixpoint find_match (name : string) (p : path) (canonical : option path) (i : nat)
    (l : list DiscoveredResource) : IO (option nat) :=
  match l with
  | [] => Ret None
  | r :: l =>
      match dr_worktree_path r with
      | None => if String.eqb (dr_id r) name then Ret (Some i)
                else find_match name p canonical (S i) l
      | Some candidate =>
          if bool_decide (candidate = p) then Ret (Some i)
          else
            (do actual <- ok_or_none (call_world (Canonicalize candidate));
             if bool_decide (is_Some canonical) && bool_decide (actual = canonical)
             then Ret (Some i) else find_match name p canonical (S i) l)%prog
      end
  end.

Definition unbacked_resource (id : string) (p : path) (ident : option AgentIdentityRecord)
  : DiscoveredResource := {|
  dr_id := id;
  dr_agent_dir := (agents_dir project_dir ++ [from_option ai_agent_name id ident])%list;
  dr_worktree_path := Some p; dr_identity := ident;
  dr_identity_error := Some "worktree is not backed by a verified identity";
  dr_resolver_only := false; dr_recovery_receipt := false; dr_recovered_provenance := None |}.

Definition attach_worktree_resource (resources : list DiscoveredResource) (name : string)
    (resolver_records : list AgentIdentityRecord) (recovery_entries : list CleanupReceiptEntry)
  : IO (list DiscoveredResource) :=
  let p := (worktrees_dir project_dir ++ [name])%list in
  (do canonical <- ok_or_none (call_world (Canonicalize p));
   do found <- find_match name p canonical 0 resources;
   match found with
   | Some i => Ret (alter (with_worktree p) i resources)
   | None =>
       let matching := List.find (fun ident => bool_decide (worktree_of ident = Some p))
                         resolver_records in
       do recovered <- match matching with
                       | Some _ => Ret None
                       | None => recover_residual_resource p resolver_records recovery_entries
                       end;
       Ret (resources ++ [default (unbacked_resource name p matching) recovered])%list
   end)%prog.

Fixpoint attach_worktrees (resources : list DiscoveredResource) (l : list DirEntry)
    (resolver_records : list AgentIdentityRecord) (recovery_entries : list CleanupReceiptEntry)
  : IO (result (list DiscoveredResource) string) :=
  match l with
  | [] => Ret (Ok resources)
  | e :: l =>
      match de_kind e with
      | EntryTypeError error => Ret (Err error)
      | EntryOther => attach_worktrees resources l resolver_records recovery_entries
      | EntryDir =>
          (do resources <- attach_worktree_resource resources (de_name e) resolver_records
                             recovery_entries;
           attach_worktrees resources l resolver_records recovery_entries)%prog
      end
  end.

(** ** Records without a directory *)

Definition recovered_receipt_resource (e : CleanupReceiptEntry) (ident : AgentIdentityRecord)
  : DiscoveredResource := {|
  dr_id := ai_agent_name ident;
  dr_agent_dir := (agents_dir project_dir ++ [ai_agent_name ident])%list;
  dr_worktree_path := worktree_of ident; dr_identity := Some ident; dr_identity_error := None;
  dr_resolver_only := false; dr_recovery_receipt := true;
  dr_recovered_provenance := re_recovered_provenance e |}.

Definition append_recovered_receipt (resources : list DiscoveredResource)
    (e : CleanupReceiptEntry) : list DiscoveredResource :=
  match re_identity_snapshot e with
  | None => resources
  | Some ident =>
      if existsb (fun r => String.eqb (dr_id r) (ai_agent_name ident)
                           || bool_decide (dr_identity r = Some ident)) resources
      then resources else (resources ++ [recovered_receipt_resource e ident])%list
  end.

Definition represented (ident : AgentIdentityRecord) (r : DiscoveredResource) : bool :=
  String.eqb (dr_id r) (ai_agent_name ident)
  || bool_decide (dr_agent_dir r = agents_dir project_dir ++ [ai_agent_name ident])%list
  || bool_decide (dr_identity r = Some ident)
  || match dr_worktree_path r, worktree_of ident with
     | Some p, Some expected => bool_decide (p = expected)
     | _, _ => false
     end.

Definition append_resolver_only (recovery_identities : list AgentIdentityRecord)
    (resources : list DiscoveredResource) (ident : AgentIdentityRecord)
  : list DiscoveredResource :=
  if existsb (represented ident) resources then resources
  else (resources
        ++ [{| dr_id := ai_agent_name ident;
               dr_agent_dir := agents_dir project_dir ++ [ai_agent_name ident];
               dr_worktree_path := worktree_of ident; dr_identity := Some ident;
               dr_identity_error := None; dr_resolver_only := true;
               dr_recovery_receipt :=
                 existsb (fun h => bool_decide (h = ident)) recovery_identities;
               dr_recovered_provenance := None |}])%list.

(** ** The resources of a request *)

Fixpoint insert_by_id (r : DiscoveredResource) (l : list DiscoveredResource)
  : list DiscoveredResource :=
  match l with
  | [] => [r]
  | x :: l' => match String.compare (dr_id r) (dr_id x) with
               | Gt => x :: insert_by_id r l'
               | _ => r :: l
               end
  end.
Definition sort_by_id (l : list DiscoveredResource) : list DiscoveredResource :=
  foldr insert_by_id [] l.

Definition read_receipts : IO (result (list CleanupReceipt) string) := call_world ReadReceipts.

(** A directory's entries; an absent directory has none. *)
Definition list_entries {A} (dir : path) (absent : A)
    (k : list DirEntry -> IO (result A string)) : IO (result A string) :=
  (do listing <- call_world (ListDir dir);
   match listing with
   | ListingAbsent => Ret (Ok absent)
   | ListingError _ => Ret (Err ("read " ++ display_path dir))
   | Listed entries stopped =>
       do? a <- k entries;
       Ret (match stopped with Some error => Err error | None => Ok a end)
   end)%prog.

(** Whether a target that names no resource is known all the same. *)
Definition known_target (target : string) (recovery_identities : list AgentIdentityRecord) : bool :=
  existsb (fun i => String.eqb target (ai_agent_name i) || String.eqb target (ai_slug i))
    recovery_identities.

(** [Debug] of a string without special characters. *)
Definition quote : string := String (Ascii.ascii_of_nat 34) EmptyString.
Definition quoted (s : string) : string := quote ++ s ++ quote.

Definition require_target (request : CleanupRequest) (recovery_identities : list AgentIdentityRecord)
    (resources : list DiscoveredResource) : IO (result unit string) :=
  match cr_target request, resources with
  | Some target, [] =>
      if known_target target recovery_identities then Ret (Ok tt)
      else
        (do? receipts <- read_receipts;
         Ret (ensure (target_was_cleaned receipts target)
                ("managed cleanup target " ++ quoted target ++ " was not found")))%prog
  | _, _ => Ret (Ok tt)
  end.

Definition discover_resources (request : CleanupRequest)
  : IO (result (list DiscoveredResource) string) :=
  (do resolver_records <- call_world ResolverAll;
   do? receipts <- read_receipts;
   let recovery_identities := in_progress_identity_snapshots receipts in
   do? receipts <- read_receipts;
   let recovery_entries := recoverable_receipt_entries receipts in
   do? agents <- list_entries (agents_dir project_dir) [] agent_resources;
   do? attached <- list_entries (worktrees_dir project_dir) agents
                     (fun l => attach_worktrees agents l resolver_records recovery_entries);
   let resources := fold_left append_recovered_receipt recovery_entries attached in
   let resources := fold_left (append_resolver_only recovery_identities) resolver_records
                      resources in
   let resources := List.filter (fun r => requested_target_matches (cr_target request) (dr_id r)
                                            (dr_identity r)) resources in
   do? _ <- require_target request recovery_identities resources;
   Ret (Ok (sort_by_id resources)))%prog.
End discovery.
