(* ===== verification/CleanupCandidate.v ===== *)
(** * Verified cleanup: validation before an action

    What is re-read of a candidate before anything of it is removed:
    [candidate.rs], [recovery.rs] [revalidate_recovered_residual],
    [branch_validation.rs] and [branch_preparation.rs]. *)

From stdpp Require Import gmap pretty.
From S2P Require Import Prelude RustStr Effects.
From S2P Require Import CleanupDecision CleanupCalls CleanupInspect CleanupReceipts.
Local Open Scope string_scope.

Section validate.
Context (svc : Service) (c : CleanupCandidate).
Let project_dir := sv_project_dir svc.

Definition refused (reason : string) : CleanupReceiptEntry := receipt_entry c Refused [] (Some reason).
Definition skipped (reason : string) : CleanupReceiptEntry :=
  receipt_entry c Skipped ["already_absent"] (Some reason).

(** ** Identity, liveness and worktree *)

Definition load_current_identity : IO (result AgentIdentityRecord CleanupReceiptEntry) :=
  (do file <- call_world (ReadIdentityFile (cn_agent_dir c));
   Ret (match file with
        | DirAbsent => Err (skipped "agent directory is already absent")
        | DirNotReal => Err (refused "agent directory is not a real managed directory")
        | FileMissing => Err (skipped "agent identity is already absent")
        | FileUnreadable error =>
            Err (receipt_entry c Failed [] (Some ("read identity: " ++ error)))
        | FileMalformed => Err (refused "identity changed or is malformed")
        | FileParsed ident => Ok ident
        end))%prog.

Definition validate_identity_and_liveness (expected current : AgentIdentityRecord)
  : IO (option CleanupReceiptEntry) :=
  if negb (bool_decide (current = expected))
  then Ret (Some (refused "identity changed since planning"))
  else
    (do known <- call_world (ResolverGet (ai_agent_name expected));
     if negb (bool_decide (known = Some expected))
     then Ret (Some (refused "resolver identity changed since planning"))
     else
       do alive <- liveness svc (cn_agent_dir c);
       Ret (if bool_decide (alive = Dead) then None
            else Some (refused "agent is no longer provably dead")))%prog.

Definition dirty_refusal (evidence : CleanupDirtyEvidence) : option CleanupReceiptEntry :=
  match de_porcelain evidence with
  | [] => None
  | _ =>
      if negb (cn_discard_dirty c)
      then Some (refused "worktree is dirty; discard_dirty authorization is required")
      else if negb (bool_decide (cn_dirty_evidence c = Some evidence))
      then Some (refused "dirty worktree changed since planning") else None
  end.

Definition branch_refusal (expected : AgentIdentityRecord) (branch : result (option string) string)
  : option CleanupReceiptEntry :=
  match branch with
  | Ok (Some branch) =>
      if String.eqb branch (ai_birth_branch expected) then None
      else Some (refused "worktree branch changed since planning")
  | Ok None => Some (refused "worktree is detached since planning")
  | Err error => Some (refused ("read worktree branch: " ++ error))
  end.

Definition validate_worktree_contents (expected : AgentIdentityRecord) (worktree : path)
  : IO (option CleanupReceiptEntry) :=
  (do status <- workspace_status worktree;
   match status with
   | Err _ => Ret (Some (refused "worktree status is unavailable"))
   | Ok evidence =>
       match dirty_refusal evidence with
       | Some e => Ret (Some e)
       | None => do branch <- workspace_branch worktree; Ret (branch_refusal expected branch)
       end
   end)%prog.

Definition validate_worktree_location (expected : AgentIdentityRecord) (worktree : path)
  : IO (option CleanupReceiptEntry) :=
  (do canonical <- call_world (Canonicalize worktree);
   match canonical with
   | Err _ => Ret (Some (refused "worktree path changed since planning"))
   | Ok canonical =>
       if negb (path_within (worktrees_dir project_dir) canonical)
       then Ret (Some (refused "worktree path is outside the managed root"))
       else
         do expected_path <-
           call_world (Canonicalize (resolve_path project_dir (ai_working_dir expected)));
         Ret (match expected_path with
              | Err _ => Some (refused "expected worktree path is unavailable")
              | Ok expected_path =>
                  if bool_decide (canonical = expected_path) then None
                  else Some (refused "worktree path changed since planning")
              end)
   end)%prog.

Definition validate_local_branch (expected : AgentIdentityRecord)
  : IO (option CleanupReceiptEntry) :=
  (do state <- local_branch_state project_dir (ai_birth_branch expected);
   Ret (match state with
        | Ok (Some head) =>
            if bool_decide (cn_local_head_sha c = Some head) then None
            else Some (refused "local branch head changed since planning")
        | Ok None => Some (refused "local branch disappeared since planning")
        | Err error => Some (refused ("read local branch: " ++ error))
        end))%prog.

Definition validate_worktree (expected : AgentIdentityRecord) : IO (option CleanupReceiptEntry) :=
  match cn_worktree_path c with
  | None => Ret None
  | Some worktree =>
      (do present <- call_world (Exists worktree);
       if negb present then Ret None
       else check_then (validate_worktree_contents expected worktree)
              (check_then (validate_worktree_location expected worktree)
                 (validate_local_branch expected)))%prog
  end.

(** ** A recovered residual *)

Definition revalidate_recovered_liveness (ident : AgentIdentityRecord) : IO (result unit string) :=
  (do alive <- recovered_liveness svc ident;
   Ret (match alive with
        | Dead => Ok tt
        | Live => Err "recovered agent has a live tmux window"
        | UnknownLiveness => Err "recovered agent liveness is unknown"
        end))%prog.

Definition parent_is (p parent : path) : bool :=
  bool_decide (p <> [] /\ removelast p = parent).

(** [fs::symlink_metadata(..).is_ok()]. *)
Definition present (m : Metadata) : bool :=
  match m with MetaRealDir | MetaOther => true | MetaAbsent | MetaError _ => false end.
Definition path_exists (p : path) : IO bool :=
  (do m <- call_world (SymlinkMetadata p); Ret (present m))%prog.

(** The checks of a residual directory that exists. *)
Definition revalidate_residual_directory (ident : AgentIdentityRecord) (p : path)
  : IO (result unit string) :=
  (do canonical <- call_world (Canonicalize p);
   match canonical with
   | Err _ => Ret (Err "canonicalize recovered residual")
   | Ok canonical =>
       do root <- call_world (Canonicalize (worktrees_dir project_dir));
       match root with
       | Err _ => Ret (Err "canonicalize managed worktree root")
       | Ok root =>
           require (parent_is canonical root) "recovered residual path changed since planning"
             (require (bool_decide (resolve_path project_dir (ai_working_dir ident) = canonical))
                "recovered identity path changed since planning"
                (do git <- path_exists (p ++ [".git"])%list;
                 require (negb git) "recovered residual became a git worktree"
                   (do? safe <- call_world (ResidualContentsSafe p);
                    require safe "recovered residual contains non-ExoMonad files"
                      (do root <- workspace_git_root p;
                       require (match root with
                                | Ok r => bool_decide (r = Some project_dir)
                                | Err _ => false
                                end) "recovered residual repository context changed"
                         (Ret (Ok tt))))))
       end
   end)%prog.

Definition revalidate_recovered_residual : IO (result unit string) :=
  match cn_identity c with
  | None => Ret (Err "recovered identity is unavailable")
  | Some ident =>
      require (String.eqb (cn_id c) (ai_agent_name ident)
               && String.eqb (cn_agent_name c) (ai_agent_name ident))
        "recovered identity no longer matches its candidate"
        (do? _ <- revalidate_recovered_liveness ident;
         do known <- call_world (ResolverGet (ai_agent_name ident));
         require (bool_decide (known = None))
           "resolver identity appeared for recovered cleanup target"
           (do agent_dir <- path_exists (cn_agent_dir c);
            require (negb agent_dir)
              "agent identity directory appeared for recovered cleanup target"
              match cn_worktree_path c with
              | None => Ret (Err "recovered residual path is unavailable")
              | Some p =>
                  require (path_within (worktrees_dir project_dir) p)
                    "recovered residual path escaped the managed root"
                    (do m <- call_world (SymlinkMetadata p);
                     match m with
                     | MetaAbsent => Ret (Ok tt)
                     | MetaError _ => Ret (Err "inspect recovered residual path")
                     | MetaOther => Ret (Err "recovered residual path is not a real directory")
                     | MetaRealDir => revalidate_residual_directory ident p
                     end)
              end))%prog
  end.

(** ** Before a remote deletion *)

Definition revalidate_liveness_and_worktree : IO (result unit string) :=
  if bool_decide (is_Some (cn_recovered_provenance c)) then revalidate_recovered_residual
  else
    match cn_identity c with
    | None => Ret (Err "managed identity is unavailable")
    | Some expected =>
        (do current <- load_current_identity;
         match current with
         | Err e => Ret (Err (default "managed identity could not be revalidated" (re_reason e)))
         | Ok current =>
             do refusal <- validate_identity_and_liveness expected current;
             match refusal with
             | Some e => Ret (Err (default "agent liveness could not be revalidated" (re_reason e)))
             | None =>
                 do refusal <- validate_worktree expected;
                 Ret (match refusal with
                      | Some e => Err (default "worktree could not be revalidated" (re_reason e))
                      | None => Ok tt
                      end)
             end
         end)%prog
    end.

(** ** The branch *)

Record RevalidatedBranch := {
  rb_repository : RepositoryIdentity;
  rb_branch : string;
  rb_local_head : option string
}.

Definition validate_resolver_identity (expected : AgentIdentityRecord) : IO (result unit string) :=
  (do known <- call_world (ResolverGet (ai_agent_name expected));
   Ret (ensure (bool_decide (known = Some expected))
          "managed resolver identity changed since planning"))%prog.

Definition repository_agrees (evidence : CleanupBranchEvidence) (repository : RepositoryIdentity)
  : result unit string :=
  let? _ := ensure (bool_decide (be_remote_name evidence = Some (ri_remote_name repository)))
              "configured remote changed since planning" in
  let? _ := ensure (bool_decide (be_target_branch evidence = Some (ri_base_branch repository)))
              "configured target branch changed since planning" in
  ensure (match be_remote_branch evidence with
          | Some b => bool_decide (be_branch evidence = Some b)
          | None => true
          end) "managed remote branch differs from the planned branch".

Definition validate_repository (evidence : CleanupBranchEvidence)
  : IO (result RepositoryIdentity string) :=
  (do repository <- call_world GetRepositoryIdentity;
   Ret (match repository with
        | Err _ => Err "re-read configured repository identity"
        | Ok repository => let? _ := repository_agrees evidence repository in Ok repository
        end))%prog.

Definition pull_request_agrees (observed : option CleanupPullRequest * option string)
  : result (option CleanupPullRequest) string :=
  match observed with
  | (Some pr, None) =>
      match cn_pull_request c with
      | None => Err "pull request appeared after the verified no-PR observation"
      | Some expected =>
          let? _ := ensure (bool_decide (pr = expected))
                      "authoritative pull-request evidence changed since planning" in
          Ok (Some pr)
      end
  | (None, None) =>
      if cn_allow_no_pr c && bool_decide (cn_pull_request c = None) then Ok None
      else Err "authoritative pull-request evidence disappeared"
  | (None, Some error) => Err ("authoritative pull request lookup failed: " ++ error)
  | (Some _, Some _) => Err "authoritative pull-request evidence disappeared"
  end.

Definition validate_pull_request (branch : string) (repository : RepositoryIdentity)
  : IO (result (option CleanupPullRequest) string) :=
  (do observed <- pull_request_state svc (Some branch) true (Some repository) None;
   Ret (pull_request_agrees observed))%prog.

Definition validate_merge_reachability (pr : CleanupPullRequest) (target : CleanupTargetBranch)
  : IO (result unit string) :=
  match filled (cp_merge_commit_sha pr) with
  | None => Ret (Err "authoritative pull request has no merge commit")
  | Some merge_commit =>
      (do? reachable <- merge_commit_reachable project_dir merge_commit target;
       Ret (ensure reachable
              "pull request merge commit is not reachable from fetched target branch"))%prog
  end.

Definition is_protected_branch (branch base_branch : string) : bool :=
  String.eqb branch base_branch || protected_name branch.

Definition validate_current_branch (branch : string) (repository : RepositoryIdentity)
  : IO (result (option string) string) :=
  (do? current <- checked_out_branch project_dir;
   require (bool_decide (is_Some current) && negb (bool_decide (current = Some branch))
            && negb (is_protected_branch branch (ri_base_branch repository)))
     "managed branch is current or protected"
     (local_branch_state project_dir branch))%prog.

Definition needs_reachability (pr : CleanupPullRequest) : bool :=
  cp_merged pr || negb (is_closed (cp_state pr)).

Definition revalidate_identity (ident : AgentIdentityRecord) : IO (result unit string) :=
  if bool_decide (is_Some (cn_recovered_provenance c)) then revalidate_recovered_residual
  else validate_resolver_identity ident.

Definition revalidate_branch : IO (result RevalidatedBranch string) :=
  match cn_branch c with
  | None => Ret (Err "branch evidence is unavailable")
  | Some evidence =>
      match or_option (be_branch evidence) (cn_local_branch c) with
      | None => Ret (Err "managed branch name is unavailable")
      | Some branch =>
          match cn_identity c with
          | None => Ret (Err "managed identity is unavailable")
          | Some ident =>
              (do? _ <- revalidate_identity ident;
               do? repository <- validate_repository evidence;
               do? target <- fetch_target_branch project_dir (ri_remote_name repository)
                               (ri_base_branch repository);
               do? pull_request <- validate_pull_request branch repository;
               do? _ <- match pull_request with
                        | Some pr => if needs_reachability pr
                                     then validate_merge_reachability pr target
                                     else Ret (Ok tt)
                        | None => Ret (Ok tt)
                        end;
               do? local_head <- validate_current_branch branch repository;
               Ret (Ok {| rb_repository := repository; rb_branch := branch;
                          rb_local_head := local_head |}))%prog
          end
      end
  end.

(** ** Preparing a deletion *)

Inductive BranchDeletion := BranchAbsent | BranchPresent (b : RevalidatedBranch).

Definition verify_planned_heads (b : RevalidatedBranch) (expected_remote : string)
  : result unit string :=
  let? _ := ensure (bool_decide (cn_local_head_sha c = rb_local_head b))
              "managed local branch head differs from the planned head" in
  ensure (match cn_remote_head_sha c with
          | Some planned => String.eqb planned expected_remote
          | None => true
          end) "managed remote branch head differs from the planned head".

Definition prepare_remote_branch_deletion (expected : string) : IO (result BranchDeletion string) :=
  (do? b <- revalidate_branch;
   match verify_planned_heads b expected with
   | Err e => Ret (Err e)
   | Ok _ =>
       do? head <- remote_branch_state project_dir (ri_remote_name (rb_repository b)) (rb_branch b);
       Ret (match head with
            | None => Ok BranchAbsent
            | Some observed =>
                if String.eqb observed expected then Ok (BranchPresent b)
                else Err ("remote branch head conflict: expected " ++ expected ++ ", observed "
                          ++ observed)
            end)
   end)%prog.

Definition worktree_exists : IO bool :=
  match cn_worktree_path c with
  | None => Ret false
  | Some p => path_exists p
  end.

Definition prepare_local_branch_deletion (expected : string) : IO (result BranchDeletion string) :=
  (do? b <- revalidate_branch;
   do exists_ <- worktree_exists;
   Ret (if exists_ then Err "managed worktree reappeared before local branch deletion"
        else match rb_local_head b with
             | None => Ok BranchAbsent
             | Some observed =>
                 if String.eqb observed expected then Ok (BranchPresent b)
                 else Err ("local branch head conflict: expected " ++ expected ++ ", observed "
                           ++ observed)
             end))%prog.
End validate.
