(* ===== verification/CleanupExec.v ===== *)
(** * Verified cleanup: execution

    The programs that change something: [branch_actions.rs],
    [branch_receipts.rs], [actions.rs] and [execution.rs] of
    [services/cleanup].  Their state is the receipt; a function that returns
    [Some(entry)] to end the candidate returns [Err entry] here, and the
    [&mut Vec] of actions is an argument and a result. *)

From stdpp Require Import gmap pretty.
From S2P Require Import Prelude RustStr ReviewTypes Effects.
From S2P Require Import CleanupDecision CleanupCalls CleanupInspect.
From S2P Require Import CleanupReceipts CleanupCandidate.
Local Open Scope string_scope.

Definition Steps (A : Type) : Type := sprog reply CleanupReceipt A.

Definition merge_result {A} (r : result A A) : A := match r with Ok a | Err a => a end.

(** [persist_receipt]. *)
Definition persist_receipt : Steps (result unit string) :=
  (do r <- sget; slift (call_world (PersistReceipt r)))%sprog.

Section execute.
Context (svc : Service) (c : CleanupCandidate) (index : nat).
Let project_dir := sv_project_dir svc.

(** [receipt.entries[index]]: an index that is out of range panics. *)
Definition entry_at (r : CleanupReceipt) : CleanupReceiptEntry :=
  default (planned_entry c) (rc_entries r !! index).
Definition set_entry (e : CleanupReceiptEntry) (r : CleanupReceipt) : CleanupReceipt :=
  with_entries (<[index := e]> (rc_entries r)) r.

Definition get_entry : Steps CleanupReceiptEntry := (do r <- sget; sret (entry_at r))%sprog.
Definition put_entry (e : CleanupReceiptEntry) : Steps unit :=
  (do r <- sget; sput (set_entry e r))%sprog.

(** An entry that ends the candidate, made from the one in the receipt. *)
Definition stop {A} (entry : CleanupReceiptEntry -> CleanupReceiptEntry)
  : Steps (result A CleanupReceiptEntry) :=
  (do previous <- get_entry; sret (Err (entry previous)))%sprog.
Definition fail_with {A} (reason : string) : Steps (result A CleanupReceiptEntry) :=
  stop (fun previous => failed_entry c previous reason).
Definition refuse_with (reason : string) : Steps (result CleanupReceiptEntry CleanupReceiptEntry) :=
  stop (fun previous => refused_with_progress c previous reason).

(** ** Progress *)

Definition record_progress (actions : list string) : Steps (result unit string) :=
  (do previous <- get_entry;
   do _ <- put_entry (progress_entry c previous actions);
   persist_receipt)%sprog.

(** [persist_action_or_failure]; the actions are passed on. *)
Definition persist_action (actions : list string)
  : Steps (result (list string) CleanupReceiptEntry) :=
  (do r <- record_progress actions;
   match r with
   | Ok _ => sret (Ok actions)
   | Err error => fail_with (PROGRESS_PERSISTENCE_FAILURE ++ ": " ++ error)
   end)%sprog.

(** ** [branch_receipts.rs] *)

Definition fail_branch {A} (reason : string) : Steps (result A CleanupReceiptEntry) :=
  stop (fun previous => failed_branch_entry c previous reason).

Definition refuse_branch {A} (local : bool) (reason : string)
  : Steps (result A CleanupReceiptEntry) :=
  (do previous <- get_entry;
   let marked := mark_refused local reason previous in
   do _ <- put_entry marked;
   sret (Err (refused_branch_entry c marked reason)))%sprog.

Definition persist_branch_progress : Steps (result unit CleanupReceiptEntry) :=
  (do previous <- get_entry;
   do r <- record_progress (re_actions previous);
   match r with
   | Ok _ => sret (Ok tt)
   | Err error => fail_branch (PROGRESS_PERSISTENCE_FAILURE ++ ": " ++ error)
   end)%sprog.

Definition branch_action_entry (local : bool) (action : CleanupBranchAction)
    (actions : list string) (b : CleanupBranchEvidence) (e : CleanupReceiptEntry)
  : CleanupReceiptEntry :=
  entry_with_actions actions (entry_with_branch (Some (set_branch_action local action b)) e).

Definition set_branch_pending (local : bool) : Steps (result unit CleanupReceiptEntry) :=
  (do previous <- get_entry;
   match re_branch previous with
   | None => fail_branch "branch evidence is unavailable"
   | Some b =>
       do _ <- put_entry
                 (branch_action_entry local {| ba_status := DeletePending; ba_reason := None |}
                    (re_actions previous ++ [pending_action_name local])%list b previous);
       persist_branch_progress
   end)%sprog.

Definition finish_branch_action (local : bool) (status : CleanupBranchActionStatus)
    (reason : option string) : Steps (result unit CleanupReceiptEntry) :=
  (do previous <- get_entry;
   match re_branch previous with
   | None => fail_branch "branch evidence is unavailable"
   | Some b =>
       let action := {| ba_status := status; ba_reason := reason |} in
       match completed_action_name local status with
       | None =>
           do _ <- put_entry (branch_action_entry local action (re_actions previous) b previous);
           fail_branch "invalid branch action state"
       | Some name =>
           let kept := List.filter (fun a => negb (is_branch_pending a)) (re_actions previous) in
           do _ <- put_entry (branch_action_entry local action (kept ++ [name])%list b previous);
           persist_branch_progress
       end
   end)%sprog.

Definition finish_absent_branch (local : bool) : Steps (result unit CleanupReceiptEntry) :=
  finish_branch_action local AlreadyAbsent
    (Some ("managed " ++ (if local then "local" else "remote") ++ " branch is already absent")).

Definition finish_delete_result (local : bool) (r : result unit string)
  : Steps (result unit CleanupReceiptEntry) :=
  match r with
  | Ok _ => finish_branch_action local Deleted None
  | Err error => refuse_branch local error
  end.

(** ** [branch_actions.rs]: the remote branch *)

Definition remote_expected_sha : result string string :=
  let pull_request_head := filled (pr ← cn_pull_request c; cp_head_sha pr) in
  let no_pr_remote_head :=
    if cn_allow_no_pr c && bool_decide (cn_pull_request c = None)
    then filled (cn_remote_head_sha c) else None in
  option_context (or_option pull_request_head no_pr_remote_head)
    "remote deletion requires an authoritative pull-request head SHA or verified no-PR remote head".

Definition prior_deletion_identity (e : CleanupReceiptEntry) : result unit string :=
  match cn_identity c with
  | None => Err "managed identity is unavailable while verifying prior deletion"
  | Some ident =>
      ensure (bool_decide (re_identity_snapshot e = Some ident)
              && String.eqb (re_agent_name e) (cn_agent_name c)
              && String.eqb (re_agent_slug e) (ai_slug ident))
        "cleanup receipt identity differs from the current candidate"
  end.

Definition prior_deletion_branch (remote_name remote_branch expected_sha : string)
  : result unit string :=
  match cn_branch c with
  | None => Err "current candidate is missing branch evidence"
  | Some b =>
      let? _ := ensure (bool_decide (be_remote_name b = Some remote_name))
                  "cleanup receipt remote differs from the current candidate" in
      let? _ := ensure (bool_decide (or_option (be_branch b) (cn_local_branch c)
                                     = Some remote_branch))
                  "cleanup receipt ref differs from the current candidate" in
      let? _ := ensure match be_remote_branch b with
                       | Some r => String.eqb r remote_branch
                       | None => true
                       end "cleanup receipt remote ref differs from current branch evidence" in
      ensure match pr ← cn_pull_request c; cp_head_sha pr with
             | Some head => String.eqb head expected_sha
             | None => true
             end "cleanup receipt expected SHA differs from current pull-request evidence"
  end.

(** The remote name, the branch and the SHA an earlier deletion recorded. *)
Definition prior_deletion (e : CleanupReceiptEntry) : result (string * string) string :=
  match re_branch e with
  | None => Err "cleanup receipt is missing remote deletion evidence"
  | Some evidence =>
      let? _ := ensure (has_action "delete_remote_branch" (re_actions e))
                  "cleanup receipt is missing remote deletion intent" in
      let? remote_name := option_context (filled (be_remote_name evidence))
                            "cleanup receipt is missing the verified remote name" in
      let? remote_branch :=
        option_context (filled (or_option (be_remote_branch evidence) (be_branch evidence)))
          "cleanup receipt is missing the verified remote ref" in
      let? expected_sha := option_context (filled (be_remote_head_sha evidence))
                             "cleanup receipt is missing the verified remote head SHA" in
      let? _ := prior_deletion_identity e in
      let? _ := prior_deletion_branch remote_name remote_branch expected_sha in
      Ok (remote_name, remote_branch)
  end.

Definition verify_prior_remote_deletion (e : CleanupReceiptEntry) : IO (result unit string) :=
  match prior_deletion e with
  | Err error => Ret (Err error)
  | Ok (remote_name, remote_branch) =>
      (do? current <- revalidate_branch svc c;
       require (String.eqb (ri_remote_name (rb_repository current)) remote_name
                && String.eqb (rb_branch current) remote_branch)
         "configured remote or ref changed since prior deletion"
         (do? head <- remote_branch_state project_dir remote_name remote_branch;
          Ret (match head with
               | Some observed =>
                   Err ("remote branch was recreated or moved after prior deletion (observed "
                        ++ observed ++ ")")
               | None => Ok tt
               end)))%prog
  end.

Definition complete_remote_action (expected : string) (prepared : result BranchDeletion string)
  : Steps (result unit CleanupReceiptEntry) :=
  match prepared with
  | Err error => refuse_branch false error
  | Ok BranchAbsent =>
      refuse_branch false "remote branch disappeared before its exact lease could be exercised"
  | Ok (BranchPresent b) =>
      (do valid <- slift (revalidate_liveness_and_worktree svc c);
       match valid with
       | Err error => refuse_branch false ("state changed before remote deletion: " ++ error)
       | Ok _ =>
           do r <- slift (delete_remote_branch_with_lease project_dir
                            (ri_remote_name (rb_repository b)) (rb_branch b) expected);
           finish_delete_result false r
       end)%sprog
  end.

Definition remote_action_requested (e : CleanupReceiptEntry) : bool :=
  cn_delete_remote_branch c
  && match action_status false e with
     | Some WouldDelete | Some DeletePending | Some AlreadyAbsent => true
     | _ => false
     end.

Definition absent_without_proof : string :=
  "remote deletion requested but remote branch is absent and no durable receipt proves a prior deletion at the verified SHA".

(** The remote action that is not an earlier run's. *)
Definition delete_remote_action : Steps (result unit CleanupReceiptEntry) :=
  match remote_expected_sha with
  | Err error => refuse_branch false error
  | Ok expected =>
      (do e <- get_entry;
       if bool_decide (action_status false e = Some AlreadyAbsent)
       then refuse_branch false absent_without_proof
       else
         do? _ <- set_branch_pending false;
         do prepared <- slift (prepare_remote_branch_deletion svc c expected);
         complete_remote_action expected prepared)%sprog
  end.

Definition execute_remote_branch_action : Steps (result unit CleanupReceiptEntry) :=
  (if negb (cn_delete_remote_branch c) then sret (Ok tt)
   else
     do e <- get_entry;
     if bool_decide (action_status false e = Some Deleted) then
       do r <- slift (verify_prior_remote_deletion e);
       match r with
       | Ok _ => sret (Ok tt)
       | Err error => refuse_branch false error
       end
     else if negb (remote_action_requested e) then
       refuse_branch false
         "remote deletion requested but verified remote branch evidence is unavailable"
     else delete_remote_action)%sprog.

(** ** [branch_actions.rs]: the local branch *)

Definition complete_local_action (expected : string) (prepared : result BranchDeletion string)
  : Steps (result unit CleanupReceiptEntry) :=
  match prepared with
  | Err error => refuse_branch true error
  | Ok BranchAbsent => finish_absent_branch true
  | Ok (BranchPresent b) =>
      (do r <- slift (delete_local_branch project_dir (rb_branch b) expected);
       finish_delete_result true r)%sprog
  end.

Definition execute_local_branch_action : Steps (result unit CleanupReceiptEntry) :=
  (do e <- get_entry;
   if negb (branch_action_is_pending_or_planned (action_status true e)) then sret (Ok tt)
   else
     do exists_ <- slift (worktree_exists c);
     if exists_ then
       refuse_branch true "managed worktree must be removed before deleting its local branch"
     else
       match cn_local_head_sha c with
       | None => finish_absent_branch true
       | Some expected =>
           do? _ <- set_branch_pending true;
           do prepared <- slift (prepare_local_branch_deletion svc c expected);
           complete_local_action expected prepared
       end)%sprog.

(** ** [actions.rs]: hook trust *)

Definition codex_trust_candidate_dirs : list path :=
  cn_agent_dir c :: match cn_worktree_path c with
                    | Some w => if bool_decide (w = cn_agent_dir c) then [] else [w]
                    | None => []
                    end.

Fixpoint configured_dirs (dirs : list path) : IO (list path) :=
  match dirs with
  | [] => Ret []
  | d :: dirs =>
      (do generated <- call_world (HasGeneratedCodexConfig d);
       do rest <- configured_dirs dirs;
       Ret (if generated then d :: rest else rest))%prog
  end.

Definition capture_trust_claims (dirs : list path)
  : IO (result (list CapturedCodexTrust) string) :=
  match dirs with
  | [] => Ret (Ok [])
  | _ => call_world (CaptureCodexTrust dirs)
  end.

Definition claim_codex_trust (actions : list string) : Steps (list string) :=
  (do dirs <- slift (configured_dirs codex_trust_candidate_dirs);
   do claims <- slift (capture_trust_claims dirs);
   match claims with
   | Err _ => sret (actions ++ [CODEX_TRUST_CAPTURE_FAILED])%list
   | Ok [] => sret (actions ++ [CODEX_TRUST_ABSENT])%list
   | Ok claims =>
       do previous <- get_entry;
       do _ <- put_entry (entry_with_trust (Some claims) previous);
       sret (actions ++ [CAPTURE_CODEX_TRUST])%list
   end)%sprog.

Definition release_codex_trust (actions : list string)
  : Steps (result (list string) CleanupReceiptEntry) :=
  (do previous <- get_entry;
   match default [] (re_codex_trust previous) with
   | [] => sret (Ok (actions ++ [CODEX_TRUST_ABSENT])%list)
   | captured =>
       do failures <- slift (call_world (ReleaseCodexTrust captured));
       match failures with
       | [] => sret (Ok (actions ++ [RELEASE_CODEX_TRUST])%list)
       | failures =>
           do _ <- put_entry
                     (entry_with_actions (actions ++ [CODEX_TRUST_RELEASE_FAILED])%list previous);
           fail_with ("release ExoMonad Codex trust: " ++ String.concat "; " failures)
       end
   end)%sprog.

(** ** [actions.rs]: removals *)

Definition discarding : bool := cn_discard_dirty c && bool_decide (cn_dirty c = Some true).

Definition remove_recovered (worktree : path) (actions : list string)
  : Steps (result (list string) CleanupReceiptEntry) :=
  (do valid <- slift (revalidate_recovered_residual svc c);
   match valid with
   | Err error => fail_with ("revalidate recovered residual: " ++ error)
   | Ok _ =>
       do r <- slift (call_world (RemoveDirAll worktree));
       match r with
       | Removed => sret (Ok (actions ++ ["remove_recovered_residual"])%list)
       | RemovalNotFound error | RemovalError error =>
           fail_with ("remove recovered residual: " ++ error)
       end
   end)%sprog.

Definition remove_git_worktree (worktree : path) (actions : list string)
  : Steps (result (list string) CleanupReceiptEntry) :=
  (do r <- slift (call_world (RemoveWorkspace worktree));
   match r with
   | Ok _ =>
       sret (Ok (push_if (cn_delete_remote_branch c) "delete_remote_branch_override"
                   (push_if discarding "discard_dirty_changes"
                      (actions ++ ["remove_worktree"])%list)))
   | Err error => fail_with ("remove worktree: " ++ error)
   end)%sprog.

Definition remove_worktree (actions : list string)
  : Steps (result (list string) CleanupReceiptEntry) :=
  match cn_worktree_path c with
  | None => sret (Ok actions)
  | Some worktree =>
      (do exists_ <- slift (path_exists worktree);
       do? actions <-
         (if exists_ then
            if bool_decide (is_Some (cn_recovered_provenance c))
            then remove_recovered worktree actions
            else remove_git_worktree worktree actions
          else sret (Ok (actions ++ ["worktree_already_absent"])%list));
       persist_action actions)%sprog
  end.

Definition remove_agent_directory (actions : list string)
  : Steps (result (list string) CleanupReceiptEntry) :=
  (do r <- slift (call_world (RemoveDirAll (cn_agent_dir c)));
   match r with
   | Removed => persist_action (actions ++ ["remove_agent_directory"])%list
   | RemovalNotFound _ => persist_action (actions ++ ["agent_directory_already_absent"])%list
   | RemovalError error => fail_with ("remove agent directory: " ++ error)
   end)%sprog.

(** ** [actions.rs]: registrations *)

Definition registration_keys (ident : AgentIdentityRecord) : list string :=
  [ai_agent_name ident; ai_slug ident; ai_birth_branch ident; ai_parent_branch ident].

Definition cleanup_ephemeral_registrations (actions : list string)
  : Steps (result (list string) CleanupReceiptEntry) :=
  match cn_identity c with
  | None => sret (Ok actions)
  | Some ident =>
      (do r <- slift (call_world (RemoveSyntheticMembers (registration_keys ident)
                                    (ai_agent_name ident)));
       match r with
       | Err reason => fail_with reason
       | Ok _ =>
           do _ <- slift (call_world (DeregisterRegistrations (registration_keys ident)
                                        (ai_birth_branch ident)));
           persist_action (actions ++ ["remove_ephemeral_registrations"])%list
       end)%sprog
  end.

Definition with_pending (actions : list string) : list string :=
  push_if (negb (has_action DEREGISTER_PENDING actions)) DEREGISTER_PENDING actions.
Definition deregistered (actions : list string) : list string :=
  (without_action DEREGISTER_PENDING actions ++ ["deregister_identity"])%list.

Definition deregister_identity (actions : list string)
  : Steps (result (list string) CleanupReceiptEntry) :=
  (if str_is_empty (cn_agent_name c) then fail_with "agent name became invalid"
   else
     do? actions <- persist_action (with_pending actions);
     do r <- slift (call_world (ResolverDeregister (cn_agent_name c)));
     match r with
     | Err error => fail_with ("deregister identity: " ++ error)
     | Ok _ => persist_action (deregistered actions)
     end)%sprog.

(** ** [actions.rs]: the candidate *)

(** [sort] and [dedup]. *)
Fixpoint insert_sorted (x : string) (l : list string) : list string :=
  match l with
  | [] => [x]
  | y :: l' => match String.compare x y with
               | Gt => y :: insert_sorted x l'
               | _ => x :: l
               end
  end.
Definition sort_strings (l : list string) : list string := foldr insert_sorted [] l.
Fixpoint dedup (l : list string) : list string :=
  match l with
  | x :: ((y :: _) as l') => if String.eqb x y then dedup l' else x :: dedup l'
  | _ => l
  end.

Definition authorization_actions (actions : list string) : list string :=
  push_if (cn_delete_remote_branch c) "delete_remote_branch_override"
    (push_if (cn_preserve_unique_commits c) "preserve_unique_commits"
       (push_if discarding "record_dirty_evidence"
          (push_if (cn_allow_no_pr c && bool_decide (cn_pull_request c = None))
             "allow_no_pr_override" actions))).

Definition record_authorization : Steps (result (list string) CleanupReceiptEntry) :=
  (do e <- get_entry;
   do claimed <- claim_codex_trust (authorization_actions (re_actions e));
   persist_action (dedup (sort_strings claimed)))%sprog.

Definition entry_actions : Steps (result (list string) CleanupReceiptEntry) :=
  (do e <- get_entry; sret (Ok (re_actions e)))%sprog.

Definition execute_destructive_actions : Steps CleanupReceiptEntry :=
  (do r <-
     (do? _ <- record_authorization;
      do? _ <- execute_remote_branch_action;
      do? actions <- entry_actions;
      do? _ <- remove_worktree actions;
      do? _ <- execute_local_branch_action;
      do? actions <- entry_actions;
      do? actions <- remove_agent_directory actions;
      do? actions <- release_codex_trust actions;
      do? actions <- cleanup_ephemeral_registrations actions;
      do? actions <- deregister_identity actions;
      do e <- get_entry;
      sret (Ok (entry_with_trust (re_codex_trust e)
                  (entry_with_branch (re_branch e) (receipt_entry c Cleaned actions None)))));
   sret (merge_result r))%sprog.

Definition identity_is_coherent (e : CleanupReceiptEntry) (ident : AgentIdentityRecord) : bool :=
  String.eqb (re_agent_name e) (ai_agent_name ident)
  && String.eqb (re_agent_slug e) (ai_slug ident).

(** The actions of a resolver-only entry before anything is done. *)
Definition resolver_only_actions (actions : list string) : list string :=
  with_pending (match actions with [] => ["managed_resources_already_absent"] | _ => actions end).

Definition deregister_absent (expected : AgentIdentityRecord) (actions : list string)
  : Steps (result CleanupReceiptEntry CleanupReceiptEntry) :=
  (do? actions <- persist_action (resolver_only_actions actions);
   do? actions <- release_codex_trust actions;
   do? actions <- cleanup_ephemeral_registrations actions;
   do r <- slift (call_world (ResolverDeregister (ai_agent_name expected)));
   match r with
   | Err error => fail_with ("deregister identity: " ++ error)
   | Ok _ =>
       do e <- get_entry;
       sret (Ok (entry_with_trust (re_codex_trust e)
                   (receipt_entry c Cleaned (deregistered actions) None)))
   end)%sprog.

Definition resource_reappeared : IO bool :=
  (do agent_dir <- path_exists (cn_agent_dir c);
   if agent_dir then Ret true else worktree_exists c)%prog.

Definition resolver_only_steps (expected : AgentIdentityRecord)
  : Steps (result CleanupReceiptEntry CleanupReceiptEntry) :=
  (if negb (cn_recovery_receipt c) then
     refuse_with "resolver-only cleanup lacks a matching in-progress receipt"
   else
     do reappeared <- slift (resource_reappeared);
     if reappeared then refuse_with "managed resource reappeared since planning"
     else
       do known <- slift (call_world (ResolverGet (ai_agent_name expected)));
       if negb (bool_decide (known = Some expected)) then
         refuse_with "resolver identity changed since planning"
       else
         do e <- get_entry;
         if negb (bool_decide (re_identity_snapshot e = Some expected)
                  && identity_is_coherent e expected)
         then refuse_with "cleanup receipt identity differs from the resolver"
         else deregister_absent expected (re_actions e))%sprog.

Definition execute_resolver_only (expected : AgentIdentityRecord) : Steps CleanupReceiptEntry :=
  (do r <- resolver_only_steps expected; sret (merge_result r))%sprog.

(** ** [candidate.rs] [execute_candidate] *)

Definition reason_or_refused (e : CleanupReceiptEntry) : string :=
  default "cleanup was refused" (re_reason e).

(** The checks of a candidate that is neither resolver-only nor recovered. *)
Definition validate_candidate (expected : AgentIdentityRecord)
  : Steps (result unit CleanupReceiptEntry) :=
  (do current <- slift (load_current_identity c);
   match current with
   | Err e => if bool_decide (re_status e = Refused)
              then stop (fun previous => refused_with_progress c previous (reason_or_refused e))
              else sret (Err e)
   | Ok current =>
       do refusal <- slift (check_then (validate_identity_and_liveness svc c expected current)
                              (validate_worktree svc c expected));
       match refusal with
       | Some e => stop (fun previous => refused_with_progress c previous (reason_or_refused e))
       | None => sret (Ok tt)
       end
   end)%sprog.

Definition validate_recovered : Steps (result unit CleanupReceiptEntry) :=
  (do r <- slift (revalidate_recovered_residual svc c);
   match r with
   | Err error => stop (fun previous => refused_with_progress c previous error)
   | Ok _ => sret (Ok tt)
   end)%sprog.

Definition execute_candidate : Steps CleanupReceiptEntry :=
  (match cn_identity c with
   | None =>
       do previous <- get_entry;
       sret (refused_with_progress c previous "managed identity is missing or malformed")
   | Some expected =>
       if cn_resolver_only c then execute_resolver_only expected
       else
         do valid <- (if bool_decide (is_Some (cn_recovered_provenance c)) then validate_recovered
                      else validate_candidate expected);
         match valid with
         | Err e => sret e
         | Ok _ => execute_destructive_actions
         end
   end)%sprog.

(** ** [execution.rs]: one candidate of the plan *)

Definition run_candidate : Steps (result unit string) :=
  (do previous <- get_entry;
   do _ <- put_entry (in_progress_entry c previous);
   do? _ <- persist_receipt;
   do e <- execute_candidate;
   do _ <- put_entry e;
   if is_progress_persistence_failure e
   then sret (Err (default PROGRESS_PERSISTENCE_FAILURE (re_reason e)))
   else persist_receipt)%sprog.

Definition plan_candidate : Steps (result unit string) :=
  (do previous <- get_entry;
   if negb (is_cleanable (cn_decision c)) then
     do _ <- put_entry (refused_with_progress c previous
                          (default "cleanup was refused" (decision_reason (cn_decision c))));
     sret (Ok tt)
   else if bool_decide (re_status previous = Cleaned) then sret (Ok tt)
   else run_candidate)%sprog.
End execute.

(** [execute_plan]: the candidates in order. *)
Fixpoint execute_candidates (svc : Service) (index : nat) (l : list CleanupCandidate)
  : Steps (result unit string) :=
  match l with
  | [] => sret (Ok tt)
  | c :: l => (do? _ <- plan_candidate svc c index; execute_candidates svc (S index) l)%sprog
  end.
Definition execute_plan (svc : Service) (plan : CleanupPlan) : Steps (result unit string) :=
  execute_candidates svc 0 (pl_candidates plan).
