(* ===== verification/CleanupService.v ===== *)
(** * Verified cleanup: plan, dry run and apply

    [service.rs] of [services/cleanup], with the receipts [receipts.rs] reads
    and what it reconciles. *)

From stdpp Require Import gmap pretty.
From S2P Require Import Prelude RustStr ReviewTypes MutexRegistry Effects.
From S2P Require Import CleanupDecision CleanupCalls CleanupInspect.
From S2P Require Import CleanupReceipts CleanupDiscover CleanupCandidate CleanupExec.
Local Open Scope string_scope.

Section service.
Context (svc : Service).
Let project_dir := sv_project_dir svc.

(** ** The plan *)

Definition needs_remote (r : DiscoveredResource) : bool :=
  negb (dr_resolver_only r)
  && (bool_decide (is_Some (dr_worktree_path r))
      || match dr_identity r with
         | Some ident => bool_decide (ai_topology ident = WorktreePerAgent)
         | None => false
         end).

Definition observe_repository (required : bool)
  : IO (option RepositoryIdentity * option string) :=
  if required then
    (do repository <- call_world GetRepositoryIdentity;
     Ret (match repository with
          | Ok r => (Some r, None)
          | Err error => (None, Some error)
          end))%prog
  else Ret (None, None).

Definition observe_target (repository : option RepositoryIdentity)
  : IO (option CleanupTargetBranch * option string) :=
  match repository with
  | None => Ret (None, None)
  | Some r =>
      (do target <- fetch_target_branch project_dir (ri_remote_name r) (ri_base_branch r);
       Ret (match target with
            | Ok t => (Some t, None)
            | Err error => (None, Some error)
            end))%prog
  end.

Fixpoint inspect_all (ic : InspectionContext) (l : list DiscoveredResource)
  : IO (list CleanupCandidate) :=
  match l with
  | [] => Ret []
  | r :: l => (do c <- inspect_candidate svc r ic; do rest <- inspect_all ic l; Ret (c :: rest))%prog
  end.

Definition has_prior_remote_deletion_proof (c : CleanupCandidate) : IO (result bool string) :=
  match proof_subject c with
  | None => Ret (Ok false)
  | Some (remote_name, remote_branch) =>
      (do? receipts <- call_world ReadReceipts;
       Ret (Ok (receipts_prove_remote_deletion receipts c remote_name remote_branch)))%prog
  end.

Definition remote_is_absent (c : CleanupCandidate) : bool :=
  match cn_branch c with
  | Some b => bool_decide (ba_status (be_remote b) = AlreadyAbsent)
  | None => false
  end.

Definition refuse_absent_remote (c : CleanupCandidate) : CleanupCandidate :=
  with_refusal absent_without_proof c
    (with_remote {| ba_status := RefusedAction; ba_reason := Some absent_without_proof |}
     <$> cn_branch c).

Definition refuse_unproven_absent_remote (requested : bool) (c : CleanupCandidate)
  : IO (result CleanupCandidate string) :=
  if negb requested || negb (is_cleanable (cn_decision c)) || negb (remote_is_absent c)
  then Ret (Ok c)
  else
    (do? proved <- has_prior_remote_deletion_proof c;
     Ret (Ok (if proved then c else refuse_absent_remote c)))%prog.

Fixpoint refuse_all_unproven (requested : bool) (l : list CleanupCandidate)
  : IO (result (list CleanupCandidate) string) :=
  match l with
  | [] => Ret (Ok [])
  | c :: l =>
      (do? c <- refuse_unproven_absent_remote requested c;
       do? rest <- refuse_all_unproven requested l;
       Ret (Ok (c :: rest)))%prog
  end.

Definition make_plan (request : CleanupRequest) (observed : option RepositoryIdentity * option string)
    (target : option CleanupTargetBranch) (candidates : list CleanupCandidate)
    (plan_id : string) (now : Z) : CleanupPlan := {|
  pl_plan_id := plan_id; pl_generated_at := now; pl_project_dir := project_dir;
  pl_repository := observed.1; pl_repository_error := observed.2;
  pl_operator_reason := cr_reason request;
  pl_preserve_unique_commits := cr_preserve_unique_commits request;
  pl_candidates := refuse_duplicate_branches candidates; pl_fetched_target := target |}.

Definition inspection_context (request : CleanupRequest)
    (observed : option RepositoryIdentity * option string)
    (target : option CleanupTargetBranch * option string) (current : option string)
  : InspectionContext := {|
  ic_repository := observed.1; ic_repository_error := observed.2; ic_current_branch := current;
  ic_fetched_target := target.1; ic_target_error := target.2;
  ic_delete_remote_branch := cr_delete_remote_branch request;
  ic_allow_no_pr := cr_allow_no_pr request; ic_discard_dirty := cr_discard_dirty request;
  ic_preserve_unique_commits := cr_preserve_unique_commits request |}.

Definition plan (request : CleanupRequest) : IO (result CleanupPlan string) :=
  match validate request with
  | Err error => Ret (Err error)
  | Ok _ =>
      (do? resources <- discover_resources svc request;
       do observed <- observe_repository (existsb needs_remote resources);
       do target <- observe_target observed.1;
       do current <- current_branch project_dir;
       do candidates <- inspect_all (inspection_context request observed target current) resources;
       do? candidates <- refuse_all_unproven (cr_delete_remote_branch request) candidates;
       do plan_id <- call_world NewUuid;
       do now <- call_world UnixTimestamp;
       Ret (Ok (make_plan request observed target.1 candidates plan_id now)))%prog
  end.

(** ** Dry run *)

Fixpoint any_generated_config (dirs : list path) : IO bool :=
  match dirs with
  | [] => Ret false
  | d :: dirs =>
      (do generated <- call_world (HasGeneratedCodexConfig d);
       if generated then Ret true else any_generated_config dirs)%prog
  end.

Definition dry_run_candidate (c : CleanupCandidate) : IO CleanupReceiptEntry :=
  (do trust <- (if is_cleanable (cn_decision c) && negb (cn_resolver_only c)
                then any_generated_config (codex_trust_candidate_dirs c) else Ret false);
   Ret (dry_run_entry c trust))%prog.

Fixpoint dry_run_entries (l : list CleanupCandidate) : IO (list CleanupReceiptEntry) :=
  match l with
  | [] => Ret []
  | c :: l => (do e <- dry_run_candidate c; do rest <- dry_run_entries l; Ret (e :: rest))%prog
  end.

Definition dry_run_receipt (plan : CleanupPlan) : IO CleanupReceipt :=
  (do operation_id <- call_world NewUuid;
   do now <- call_world UnixTimestamp;
   do entries <- dry_run_entries (pl_candidates plan);
   Ret {| rc_operation_id := operation_id; rc_plan_id := pl_plan_id plan;
          rc_started_at := pl_generated_at plan; rc_finished_at := now; rc_dry_run := true;
          rc_operator_reason := pl_operator_reason plan;
          rc_preserve_unique_commits := pl_preserve_unique_commits plan;
          rc_entries := entries |})%prog.

(** ** The receipt of an apply *)

Definition reconcile_entry (e : CleanupReceiptEntry) : IO CleanupReceiptEntry :=
  if awaits_reconciliation e then
    match receipt_entry_agent_name e with
    | None => Ret e
    | Some name =>
        (do known <- call_world (ResolverGet name);
         Ret (if bool_decide (is_Some known) then e else reconciled e))%prog
    end
  else Ret e.

Fixpoint reconcile_entries (l : list CleanupReceiptEntry) : IO (list CleanupReceiptEntry) :=
  match l with
  | [] => Ret []
  | e :: l => (do e <- reconcile_entry e; do rest <- reconcile_entries l; Ret (e :: rest))%prog
  end.

Definition resume_or_create_receipt (plan : CleanupPlan) (target : option string)
    (started_at : Z) : IO (result CleanupReceipt string) :=
  (do? receipts <- call_world ReadReceipts;
   match load_in_progress_receipt receipts plan target with
   | None =>
       do operation_id <- call_world NewUuid;
       Ret (Ok (in_progress_receipt operation_id plan started_at))
   | Some previous =>
       let receipt := resume_receipt plan previous in
       do entries <- reconcile_entries (rc_entries receipt);
       Ret (Ok (with_entries entries receipt))
   end)%prog.

(** ** Apply *)

Definition lock_resource (project_dir : path) : string := "cleanup:" ++ display_path project_dir.
Definition LOCK_AGENT : string := "cleanup".
Definition LOCK_INTENT : string := "verified cleanup apply".
Definition LOCK_ESTIMATE : Z := 120 * 1000 * 1000 * 1000.
Definition LOCK_TIMEOUT : Z := 30 * 1000 * 1000 * 1000.

Definition execute_receipt (plan : CleanupPlan) (receipt : CleanupReceipt)
  : IO (result CleanupReceipt string) :=
  (do done <- execute_plan svc plan receipt;
   match done.2 with
   | Err error => Ret (Err error)
   | Ok _ =>
       do now <- call_world UnixTimestamp;
       let receipt := with_finished_at now done.1 in
       do? _ <- call_world (PersistReceipt receipt);
       Ret (Ok receipt)
   end)%prog.

Definition apply_locked (request : CleanupRequest) : IO (result CleanupReceipt string) :=
  (do started_at <- call_world UnixTimestamp;
   do? plan <- plan request;
   do? receipt <- resume_or_create_receipt plan (cr_target request) started_at;
   do? _ <- call_world (PersistReceipt receipt);
   execute_receipt plan receipt)%prog.

Definition apply (request : CleanupRequest) : IO (result CleanupReceipt string) :=
  match validate request with
  | Err error => Ret (Err error)
  | Ok _ =>
      let resource := lock_resource project_dir in
      (do lock <- call_world (AcquireLock resource LOCK_AGENT LOCK_INTENT);
       if negb (am_acquired lock) then
         Ret (Err ("cleanup is already in progress: "
                   ++ (if str_is_empty (am_holder_intent lock) then "lock unavailable"
                       else am_holder_intent lock)))
       else
         do r <- apply_locked request;
         do _ <- call_world (ReleaseLock resource (am_lock_id lock));
         Ret r)%prog
  end.

Definition run (request : CleanupRequest) : IO (result CleanupReceipt string) :=
  if cr_apply request then apply request
  else
    (do? plan <- plan request;
     do receipt <- dry_run_receipt plan;
     do? _ <- call_world (PersistReceipt receipt);
     Ret (Ok receipt))%prog.
End service.
