(* ===== verification/CleanupChecks.v ===== *)
(** * Verified cleanup: the evidence behind a removal

    What the trace of calls must contain for a candidate to be removed, stated
    on the answers the world gave, and the checks of [CleanupCandidate] that
    establish it: a check with a good result has made these observations. *)

From stdpp Require Import gmap pretty.
From S2P Require Import Prelude RustStr ReviewTypes Effects CleanupDecision CleanupCalls.
From S2P Require Import CleanupInspect CleanupReceipts CleanupCandidate.

(** * Verified cleanup: what the checks observe

    The observations that must be in the trace before something is removed, and
    that a run of a check of [CleanupCandidate] with a good result made them. *)

Local Open Scope string_scope.

(** ** Harmless programs *)

(** Calls that neither remove anything nor write a receipt. *)
Definition is_persist (c : call) : bool := match c with PersistReceipt _ => true | _ => false end.
Definition inert_call (c : call) : bool := negb (destructive c) && negb (is_persist c).
Notation inert p := (only inert_call p).

Create HintDb inert discriminated.

(** Down the structure of a program to its calls. *)
Ltac inert_solve := repeat first [progress (auto with inert nocore) | only_step].

Section git_inert.
Context (d : path).

Lemma checked_out_branch_inert : inert (checked_out_branch d).
Proof. unfold checked_out_branch. inert_solve. Qed.
Lemma current_branch_inert : inert (current_branch d).
Proof. unfold current_branch. apply only_bind; [apply checked_out_branch_inert|by intros]. Qed.
Lemma workspace_branch_inert : inert (workspace_branch d).
Proof. unfold workspace_branch. inert_solve. Qed.
Lemma workspace_git_root_inert : inert (workspace_git_root d).
Proof. unfold workspace_git_root. inert_solve. Qed.
Lemma rev_parse_inert ref ctx : inert (rev_parse d ref ctx).
Proof. unfold rev_parse. inert_solve. Qed.
Lemma local_branch_state_inert b : inert (local_branch_state d b).
Proof. unfold local_branch_state. destruct (validate_branch_arg _ _); [apply rev_parse_inert|done]. Qed.
Lemma workspace_status_inert : inert (workspace_status d).
Proof.
  unfold workspace_status, workspace_head_sha. pose proof workspace_branch_inert. inert_solve.
Qed.
Lemma remote_branch_state_inert r b : inert (remote_branch_state d r b).
Proof. unfold remote_branch_state. inert_solve. Qed.
Lemma fetch_target_branch_inert r b : inert (fetch_target_branch d r b).
Proof. unfold fetch_target_branch, local_ref_state, rev_parse. inert_solve. Qed.
Lemma merge_commit_reachable_inert m t : inert (merge_commit_reachable d m t).
Proof. unfold merge_commit_reachable. inert_solve. Qed.
Lemma branch_checked_out_inert b : inert (branch_checked_out_in_any_worktree d b).
Proof. unfold branch_checked_out_in_any_worktree. inert_solve. Qed.
End git_inert.

#[export] Hint Resolve checked_out_branch_inert current_branch_inert workspace_branch_inert
  workspace_git_root_inert rev_parse_inert local_branch_state_inert workspace_status_inert
  remote_branch_state_inert fetch_target_branch_inert merge_commit_reachable_inert
  branch_checked_out_inert : inert.

Section checks_inert.
Context (svc : Service) (c : CleanupCandidate).

Lemma liveness_inert d : inert (liveness svc d).
Proof. unfold liveness, marked_terminal, recorded_liveness, routed_liveness. inert_solve. Qed.
Lemma recovered_liveness_inert i : inert (recovered_liveness svc i).
Proof. unfold recovered_liveness. inert_solve. Qed.
Lemma path_exists_inert p : inert (path_exists p).
Proof. unfold path_exists. inert_solve. Qed.
Lemma worktree_exists_inert : inert (worktree_exists c).
Proof. unfold worktree_exists. pose proof path_exists_inert. inert_solve. Qed.
Lemma pull_request_state_inert b w r e : inert (pull_request_state svc b w r e).
Proof. unfold pull_request_state. inert_solve. Qed.
End checks_inert.

#[export] Hint Resolve liveness_inert recovered_liveness_inert path_exists_inert
  worktree_exists_inert pull_request_state_inert : inert.

Section candidate_inert.
Context (svc : Service) (c : CleanupCandidate).

Lemma load_current_identity_inert : inert (load_current_identity c).
Proof. unfold load_current_identity. inert_solve. Qed.
Lemma validate_identity_inert e i : inert (validate_identity_and_liveness svc c e i).
Proof. unfold validate_identity_and_liveness. inert_solve. Qed.
Lemma validate_worktree_inert e : inert (validate_worktree svc c e).
Proof.
  unfold validate_worktree, validate_worktree_contents, validate_worktree_location,
    validate_local_branch. inert_solve.
Qed.
Lemma revalidate_residual_inert : inert (revalidate_recovered_residual svc c).
Proof.
  unfold revalidate_recovered_residual, revalidate_recovered_liveness,
    revalidate_residual_directory. inert_solve.
Qed.
End candidate_inert.

#[export] Hint Resolve load_current_identity_inert validate_identity_inert validate_worktree_inert
  revalidate_residual_inert : inert.

Section branch_inert.
Context (svc : Service) (c : CleanupCandidate).

Lemma revalidate_all_inert : inert (revalidate_liveness_and_worktree svc c).
Proof. unfold revalidate_liveness_and_worktree. inert_solve. Qed.
Lemma revalidate_branch_inert : inert (revalidate_branch svc c).
Proof.
  unfold revalidate_branch, revalidate_identity, validate_resolver_identity, validate_repository,
    validate_pull_request, validate_merge_reachability, validate_current_branch. inert_solve.
Qed.
#[local] Hint Resolve revalidate_branch_inert : inert.
Lemma prepare_remote_inert e : inert (prepare_remote_branch_deletion svc c e).
Proof. unfold prepare_remote_branch_deletion. inert_solve. Qed.
Lemma prepare_local_inert e : inert (prepare_local_branch_deletion svc c e).
Proof. unfold prepare_local_branch_deletion. inert_solve. Qed.
End branch_inert.

#[export] Hint Resolve revalidate_all_inert revalidate_branch_inert prepare_remote_inert
  prepare_local_inert : inert.

Local Open Scope string_scope.

Definition trace := list (event reply).

Definition git_said (t : trace) (dir : path) (args : list string) (out : string) : Prop :=
  exists err, seen t (Git dir args) (GitExit 0 out err).

Lemma git_said_l t t' d a o : git_said t d a o -> git_said (t ++ t')%list d a o.
Proof. intros [e H]. exists e. by apply seen_l. Qed.
Lemma git_said_r t t' d a o : git_said t' d a o -> git_said (t ++ t')%list d a o.
Proof. intros [e H]. exists e. by apply seen_r. Qed.
Lemma git_said_extends t t' d a o : extends t t' -> git_said t d a o -> git_said t' d a o.
Proof. intros He [e H]. exists e. by apply He. Qed.

#[export] Hint Resolve git_said_l git_said_r git_said_extends : seen.

(** ** Git *)

Lemma success_zero code : success code = true -> code = 0%Z.
Proof. apply Z.eqb_eq. Qed.

Lemma git_ok_said t d args code out err :
  success code = true -> seen t (Git d args) (GitExit code out err) -> git_said t d args out.
Proof. intros ->%success_zero H. by exists err. Qed.

Lemma workspace_branch_said t d b :
  runs (workspace_branch d) t (Ok (Some b)) ->
  exists out, git_said t d ["branch"; "--show-current"] out /\ str_trim out = b.
Proof.
  unfold workspace_branch. intros H. runs_solve. exists stdout.
  split; [by eapply git_ok_said; [|left]|].
  match goal with H : non_empty _ = _ |- _ => unfold non_empty in H; case_match; by simplify_eq end.
Qed.

Lemma checked_out_said t d b :
  runs (checked_out_branch d) t (Ok (Some b)) ->
  exists out, git_said t d ["branch"; "--show-current"] out /\ str_trim out = b.
Proof.
  unfold checked_out_branch. intros H. runs_solve. exists stdout.
  split; [by eapply git_ok_said; [|left]|].
  match goal with H : non_empty _ = _ |- _ => unfold non_empty in H; case_match; by simplify_eq end.
Qed.

Definition branch_head (t : trace) (project_dir : path) (branch sha : string) : Prop :=
  exists out, git_said t project_dir ["rev-parse"; "--verify"; head_ref branch] out
              /\ str_trim out = sha.

Lemma local_branch_state_said t d b sha :
  runs (local_branch_state d b) t (Ok (Some sha)) -> branch_head t d b sha.
Proof.
  unfold local_branch_state, rev_parse. intros H. runs_solve.
  eexists. split; [by eapply git_ok_said; [|left]|done].
Qed.

Lemma workspace_status_said t d e :
  runs (workspace_status d) t (Ok e) ->
  exists out b h, git_said t d ["status"; "--porcelain=v1"; "--untracked-files=all"] out
                  /\ e = dirty_evidence d b h out.
Proof.
  unfold workspace_status. intros H. runs_solve. do 3 eexists.
  split; [|reflexivity]. by eapply git_ok_said; [|left].
Qed.

Definition remote_head (t : trace) (d : path) (remote branch sha : string) : Prop :=
  exists out, git_said t d ["ls-remote"; "--heads"; remote; head_ref branch] out
    /\ remote_heads (head_ref branch) (remote ++ "/" ++ branch)
         (List.filter (fun line => negb (is_blank line)) (lines out)) = Ok [sha].

Lemma remote_branch_state_said t d r b sha :
  runs (remote_branch_state d r b) t (Ok (Some sha)) -> remote_head t d r b sha.
Proof.
  unfold remote_branch_state. intros H. runs_solve.
  eexists. split; [by eapply git_ok_said; [|left]|done].
Qed.

(** ** Liveness *)

Section evidence.
Context (svc : Service) (c : CleanupCandidate).
Let project_dir := sv_project_dir svc.

Definition proven_ended (t : trace) (dir : path) : Prop :=
  seen t (Exists (dir ++ ["exited_at"])%list) true
  \/ seen t (Exists (dir ++ ["exit_code"])%list) true
  \/ seen t (ReadInvocation dir) InvocationEnded.

Definition target_gone (t : trace) (r : RoutingInfo) : Prop :=
  exists session, tmux svc = Some session
    /\ (seen t (RoutingTargetAlive session r) (Ok false)
        \/ seen t (RoutingProcessAlive session r) (Ok false)).

Definition proven_dead (t : trace) (dir : path) : Prop :=
  (exists i, seen t (ReadInvocation dir) i /\ i <> InvocationLive /\ i <> InvocationUnreadable)
  /\ (seen t (Exists (dir ++ ["routing.json"])%list) false /\ proven_ended t dir
      \/ exists r, seen t (ReadRouting dir) (Ok r)
                   /\ (has_delivery_target r = false \/ target_gone t r)).

Lemma routed_dead t r :
  runs (routed_liveness svc r) t Dead -> has_delivery_target r = false \/ target_gone t r.
Proof.
  unfold routed_liveness. intros H. destruct (has_delivery_target r) eqn:E; [|by left]. right.
  cbv [negb] in H. destruct (tmux svc) as [s|] eqn:Es; [|by runs_solve].
  exists s. split; [done|].
  apply runs_bind_inv in H as (t1 & a & t2 & -> & ->%runs_call & H).
  destruct a as [[]|]; cbv [classify_routing_target] in H.
  - right. apply seen_r. runs_solve. by left.
  - left. apply seen_l. by left.
  - by runs_solve.
Qed.

Lemma marked_said t dir :
  runs (marked_terminal dir) t true -> forall t', proven_ended (t ++ t')%list dir.
Proof.
  unfold marked_terminal. intros H t'. runs_solve; [left|right; left]; apply seen_l.
  - by left.
  - apply seen_r. by left.
Qed.

Lemma recorded_dead terminal t dir :
  runs (recorded_liveness svc terminal dir) t Dead ->
  terminal = true /\ seen t (Exists (dir ++ ["routing.json"])%list) false
  \/ exists r, seen t (ReadRouting dir) (Ok r)
               /\ (has_delivery_target r = false \/ target_gone t r).
Proof.
  unfold recorded_liveness. intros H. runs_solve.
  - right. exists a. split; [apply seen_r, seen_l; by left|].
    apply routed_dead in H as [H|(s & Hs & H)]; [by left|right].
    exists s. split; [done|]. destruct H; [left|right]; by apply seen_r, seen_r.
  - left. split; [done|]. by left.
Qed.

Lemma proven_ended_r t t' dir : proven_ended t' dir -> proven_ended (t ++ t')%list dir.
Proof. unfold proven_ended. rewrite !seen_app. naive_solver. Qed.
Lemma proven_dead_r t t' dir : proven_dead t' dir -> proven_dead (t ++ t')%list dir.
Proof.
  unfold proven_dead, proven_ended, target_gone. setoid_rewrite seen_app. naive_solver.
Qed.

Lemma recorded_proof t1 t2 terminal dir i :
  i <> InvocationLive -> i <> InvocationUnreadable ->
  (terminal = true -> proven_ended (t1 ++ [did (ReadInvocation dir) i] ++ t2)%list dir) ->
  runs (recorded_liveness svc terminal dir) t2 Dead ->
  proven_dead (t1 ++ [did (ReadInvocation dir) i] ++ t2)%list dir.
Proof.
  intros Hl Hu Ht H. split.
  - exists i. split; [apply seen_r, seen_l; by left|done].
  - apply recorded_dead in H as [[Hm H]|(r & H & Hr)]; [left|right].
    + split; [by apply seen_r, seen_r|by apply Ht].
    + exists r. split; [by apply seen_r, seen_r|].
      destruct Hr as [Hr|(s & Hs & Hr)]; [by left|right]. exists s. split; [done|].
      destruct Hr; [left|right]; by apply seen_r, seen_r.
Qed.

Lemma liveness_dead t dir : runs (liveness svc dir) t Dead -> proven_dead t dir.
Proof.
  unfold liveness. intros H. runs_step. runs_step; [|by runs_solve]. runs_step.
  apply proven_dead_r. runs_step.
  match goal with H : runs (marked_terminal _) _ _ |- _ => rename H into Hm end.
  runs_step; try by runs_solve.
  - eapply recorded_proof; try done. intros ->. by apply marked_said.
  - eapply recorded_proof; try done. intros _. right. right. apply seen_r, seen_l. by left.
Qed.

(** ** A candidate with an identity of its own *)

Definition agent_unchanged (t : trace) (ident : AgentIdentityRecord) : Prop :=
  seen t (ReadIdentityFile (cn_agent_dir c)) (FileParsed ident)
  /\ seen t (ResolverGet (ai_agent_name ident)) (Some ident)
  /\ proven_dead t (cn_agent_dir c).

Definition contents_authorised (t : trace) (w : path) : Prop :=
  exists out b h, git_said t w ["status"; "--porcelain=v1"; "--untracked-files=all"] out
    /\ (de_porcelain (dirty_evidence w b h out) = []
        \/ cn_discard_dirty c = true /\ cn_dirty_evidence c = Some (dirty_evidence w b h out)).

Definition on_branch (t : trace) (w : path) (branch : string) : Prop :=
  exists out, git_said t w ["branch"; "--show-current"] out /\ str_trim out = branch.

Definition location_managed (t : trace) (w : path) (ident : AgentIdentityRecord) : Prop :=
  exists p, seen t (Canonicalize w) (Ok p) /\ path_within (worktrees_dir project_dir) p = true
    /\ seen t (Canonicalize (resolve_path project_dir (ai_working_dir ident))) (Ok p).

Definition worktree_unchanged (t : trace) (w : path) (ident : AgentIdentityRecord) : Prop :=
  seen t (Exists w) false
  \/ contents_authorised t w /\ on_branch t w (ai_birth_branch ident)
     /\ location_managed t w ident
     /\ exists sha, branch_head t project_dir (ai_birth_branch ident) sha
                    /\ cn_local_head_sha c = Some sha.

Section growth.
Context (t t' : trace) (He : extends t t').

Lemma agent_unchanged_extends i : agent_unchanged t i -> agent_unchanged t' i.
Proof.
  unfold agent_unchanged, proven_dead, proven_ended, target_gone. pose proof He as E.
  unfold extends in E. naive_solver.
Qed.
Lemma contents_extends w : contents_authorised t w -> contents_authorised t' w.
Proof. intros (o & b & h & H & Hd). exists o, b, h. split; [by eapply git_said_extends|done]. Qed.
Lemma on_branch_extends w b : on_branch t w b -> on_branch t' w b.
Proof. intros (o & H & E). exists o. split; [by eapply git_said_extends|done]. Qed.
Lemma location_extends w i : location_managed t w i -> location_managed t' w i.
Proof. intros (p & H1 & H2 & H3). exists p. split_and!; auto. Qed.
Lemma branch_head_extends d b s : branch_head t d b s -> branch_head t' d b s.
Proof. intros (o & H & E). exists o. split; [by eapply git_said_extends|done]. Qed.
Lemma worktree_extends w i : worktree_unchanged t w i -> worktree_unchanged t' w i.
Proof.
  intros [H|(H1 & H2 & H3 & s & H4 & H5)]; [left; by apply He|right].
  split; [by apply contents_extends|]. split; [by apply on_branch_extends|].
  split; [by apply location_extends|]. exists s. split; [by apply branch_head_extends|done].
Qed.
End growth.

Lemma load_identity_said t i :
  runs (load_current_identity c) t (Ok i) ->
  seen t (ReadIdentityFile (cn_agent_dir c)) (FileParsed i).
Proof. unfold load_current_identity. intros H. runs_solve. by left. Qed.

Lemma validate_identity_said t expected current :
  runs (validate_identity_and_liveness svc c expected current) t None ->
  current = expected /\ seen t (ResolverGet (ai_agent_name expected)) (Some expected)
  /\ proven_dead t (cn_agent_dir c).
Proof.
  unfold validate_identity_and_liveness. intros H. runs_solve.
  repeat match goal with H : bool_decide _ = true |- _ => apply bool_decide_eq_true in H; subst end.
  split; [done|]. split; [by left|]. rewrite app_nil_r. by apply proven_dead_r, liveness_dead.
Qed.

Lemma contents_said t expected w :
  runs (validate_worktree_contents c expected w) t None ->
  contents_authorised t w /\ on_branch t w (ai_birth_branch expected).
Proof.
  unfold validate_worktree_contents. intros H. runs_step. runs_step; [|by runs_solve].
  runs_step; [by runs_solve|]. runs_step. apply runs_ret in H as [-> Hb]. split.
  - match goal with H : runs (workspace_status _) _ _ |- _ => apply workspace_status_said in H end.
    destruct H1 as (out & b & h & Ho & ->). exists out, b, h.
    split; [by apply git_said_l|].
    match goal with H : dirty_refusal _ _ = None |- _ => rename H into Hd end.
    unfold dirty_refusal in Hd. destruct (de_porcelain _) eqn:E; [by left|right].
    repeat case_match; try done.
    match goal with H : negb (bool_decide _) = false |- _ =>
      apply negb_false_iff, bool_decide_eq_true in H end.
    by split; [apply negb_false_iff|].
  - unfold branch_refusal in Hb. repeat case_match; try done. subst.
    match goal with H : String.eqb _ _ = true |- _ => apply String.eqb_eq in H; subst end.
    match goal with H : runs (workspace_branch _) _ _ |- _ => apply workspace_branch_said in H end.
    destruct H2 as (out & Ho & E). exists out. split; [|done]. by apply git_said_r, git_said_l.
Qed.

Lemma location_said t expected w :
  runs (validate_worktree_location svc c expected w) t None -> location_managed t w expected.
Proof.
  unfold validate_worktree_location. intros H. runs_step. runs_step; [|by runs_solve].
  runs_step; [|by runs_solve]. runs_step. apply runs_ret in H as [-> Hb]. repeat case_match; try done.
  match goal with H : bool_decide _ = true |- _ => apply bool_decide_eq_true in H; subst end.
  eexists. split; [by left|]. split; [done|]. apply seen_r. by left.
Qed.

Lemma local_head_said t expected :
  runs (validate_local_branch svc c expected) t None ->
  exists sha, branch_head t project_dir (ai_birth_branch expected) sha
              /\ cn_local_head_sha c = Some sha.
Proof.
  unfold validate_local_branch. intros H. runs_step. apply runs_ret in H as [-> Hb].
  repeat case_match; try done. subst.
  match goal with H : bool_decide _ = true |- _ => apply bool_decide_eq_true in H end.
  eexists. split; [|done]. rewrite app_nil_r. by apply local_branch_state_said.
Qed.

Lemma validate_worktree_said t expected w :
  cn_worktree_path c = Some w -> runs (validate_worktree svc c expected) t None ->
  worktree_unchanged t w expected.
Proof.
  intros Hw. unfold validate_worktree. rewrite Hw. intros H. runs_step. runs_step; [|runs_solve].
  - right. repeat runs_step.
    match goal with H : runs (validate_worktree_contents _ _ _) _ _ |- _ =>
      apply contents_said in H as [Hc Hb] end.
    match goal with H : runs (validate_worktree_location _ _ _ _) _ _ |- _ =>
      apply location_said in H as Hl end.
    match goal with H : runs (validate_local_branch _ _ _) _ _ |- _ =>
      apply local_head_said in H as (sha & Hh & Es) end.
    split; [eapply contents_extends, Hc; auto with seen|].
    split; [eapply on_branch_extends, Hb; auto with seen|].
    split; [eapply location_extends, Hl; auto with seen|].
    exists sha. split; [eapply branch_head_extends, Hh; auto with seen|done].
  - left. by left.
Qed.

(** ** A recovered residual *)

Definition absent (t : trace) (p : path) : Prop :=
  exists m, seen t (SymlinkMetadata p) m /\ present m = false.

Definition no_window (t : trace) (ident : AgentIdentityRecord) : Prop :=
  exists session windows, tmux svc = Some session
    /\ seen t (ListWindows session) (Ok windows)
    /\ existsb (fun w => String.eqb w (ai_display_name ident)
                         || String.eqb w (ai_agent_name ident)) windows = false.

(** A real directory directly under the canonical worktree root, no git
    worktree, with nothing but ExoMonad's own files in it. *)
Definition residual_directory (t : trace) (ident : AgentIdentityRecord) (w : path) : Prop :=
  exists p root,
    seen t (SymlinkMetadata w) MetaRealDir
    /\ seen t (Canonicalize w) (Ok p)
    /\ seen t (Canonicalize (worktrees_dir project_dir)) (Ok root)
    /\ parent_is p root = true /\ resolve_path project_dir (ai_working_dir ident) = p
    /\ absent t (w ++ [".git"])%list /\ seen t (ResidualContentsSafe w) (Ok true).

Definition residual_unchanged (t : trace) (ident : AgentIdentityRecord) : Prop :=
  cn_agent_name c = ai_agent_name ident /\ no_window t ident
  /\ seen t (ResolverGet (ai_agent_name ident)) None /\ absent t (cn_agent_dir c)
  /\ exists w, cn_worktree_path c = Some w /\ path_within (worktrees_dir project_dir) w = true
       /\ (seen t (SymlinkMetadata w) MetaAbsent \/ residual_directory t ident w).

Lemma absent_extends t t' p : extends t t' -> absent t p -> absent t' p.
Proof. intros He (m & H & E). exists m. split; [by apply He|done]. Qed.
Lemma no_window_extends t t' i : extends t t' -> no_window t i -> no_window t' i.
Proof. intros He (s & w & H1 & H2 & H3). exists s, w. split_and!; auto. Qed.
Lemma residual_directory_extends t t' i w :
  extends t t' -> residual_directory t i w -> residual_directory t' i w.
Proof.
  intros He (p & r & H1 & H2 & H3 & H4 & H5 & H6 & H7). exists p, r. split_and!; auto.
  by eapply absent_extends.
Qed.
Lemma residual_extends t t' i : extends t t' -> residual_unchanged t i -> residual_unchanged t' i.
Proof.
  intros He (H1 & H2 & H3 & H4 & w & H5 & H6 & H7). split; [done|].
  split; [by eapply no_window_extends|]. split; [by apply He|].
  split; [by eapply absent_extends|]. exists w. split; [done|]. split; [done|].
  destruct H7; [left; by apply He|right; by eapply residual_directory_extends].
Qed.

Lemma path_absent t p : runs (path_exists p) t false -> absent t p.
Proof.
  unfold path_exists. intros H. runs_step. apply runs_ret in H as [-> Hm].
  eexists. split; [by left|done].
Qed.

Lemma recovered_dead t i : runs (recovered_liveness svc i) t Dead -> no_window t i.
Proof.
  unfold recovered_liveness. intros H. destruct (tmux svc) as [s|] eqn:Es; [|by runs_solve].
  runs_step. apply runs_ret in H as [-> Hd]. destruct x0 as [windows|]; [|done].
  exists s, windows. split; [done|]. split; [by left|].
  destruct (existsb _ windows) eqn:E in Hd; [done|exact E].
Qed.

Lemma residual_directory_said t i w :
  seen t (SymlinkMetadata w) MetaRealDir ->
  forall t', runs (revalidate_residual_directory svc i w) t' (Ok tt) ->
  residual_directory (t ++ t')%list i w.
Proof.
  intros Hm t' H. unfold revalidate_residual_directory in H. repeat runs_step.
  match goal with H : runs (path_exists _) _ ?b |- _ => destruct b; [done|apply path_absent in H] end.
  exists a, a0. split; [by apply seen_l|].
  split; [apply seen_r, seen_l; by left|].
  split; [apply seen_r, seen_r, seen_l; by left|]. split; [done|].
  split; [by apply bool_decide_eq_true in H1|].
  split; [eapply absent_extends, H3; auto with seen|].
  do 4 apply seen_r. apply seen_l. by left.
Qed.

Lemma revalidate_residual_said t :
  runs (revalidate_recovered_residual svc c) t (Ok tt) ->
  exists i, cn_identity c = Some i /\ residual_unchanged t i.
Proof.
  unfold revalidate_recovered_residual, revalidate_recovered_liveness. intros H.
  destruct (cn_identity c) as [i|] eqn:Ei; [|by runs_solve].
  exists i. split; [done|]. runs_step. runs_step.
  match goal with H : runs (pbind (recovered_liveness _ _) _) _ _ |- _ =>
    apply runs_bind_inv in H as (t1 & l & t2 & -> & Hl & [-> Hd]%runs_ret) end.
  destruct l; try done. apply recovered_dead in Hl.
  runs_step. runs_step. runs_step. runs_step.
  match goal with H : runs (path_exists _) _ ?b |- _ =>
    destruct b; [done|apply path_absent in H as Ha] end.
  destruct (cn_worktree_path c) as [w|] eqn:Ew; [|by runs_solve].
  runs_step. runs_step.
  apply andb_true_iff in H0 as [_ En%String.eqb_eq]. apply bool_decide_eq_true in H1 as ->.
  split; [done|]. split; [eapply no_window_extends, Hl; auto with seen|].
  split; [apply seen_r, seen_l; by left|].
  split; [eapply absent_extends, Ha; auto with seen|].
  exists w. split; [done|]. split; [done|]. destruct x2; try by runs_solve.
  - left. do 3 apply seen_r. by left.
  - right. eapply residual_directory_extends;
      [|eapply (residual_directory_said [did (SymlinkMetadata w) MetaRealDir]), H; by left].
    do 3 apply extends_r. apply extends_refl.
Qed.

(** ** A candidate *)

(** What is known of a candidate that is executed destructively. *)
Definition candidate_checked (t : trace) : Prop :=
  exists ident, cn_identity c = Some ident
    /\ if bool_decide (is_Some (cn_recovered_provenance c)) then residual_unchanged t ident
       else agent_unchanged t ident
            /\ forall w, cn_worktree_path c = Some w -> worktree_unchanged t w ident.

Lemma candidate_checked_extends t t' :
  extends t t' -> candidate_checked t -> candidate_checked t'.
Proof.
  intros He (i & Hi & H). exists i. split; [done|]. case_bool_decide.
  - by eapply residual_extends.
  - destruct H as [H1 H2]. split; [by eapply agent_unchanged_extends|].
    intros w Hw. by eapply worktree_extends, H2.
Qed.

(** ** A branch *)

Definition pull_request_verified (t : trace) (repository : RepositoryIdentity) (branch : string)
  : Prop :=
  (exists pr, seen t (FindPullRequestsByHead (ri_owner repository) (ri_repo repository) branch)
                (Ok [pr])
     /\ cn_pull_request c = Some pr
     /\ (needs_reachability pr = true ->
         exists merge_commit out, filled (cp_merge_commit_sha pr) = Some merge_commit
           /\ git_said t project_dir
                ["merge-base"; "--is-ancestor"; merge_commit;
                 "refs/remotes/" ++ ri_remote_name repository ++ "/" ++ ri_base_branch repository]
                out))
  \/ seen t (FindPullRequestsByHead (ri_owner repository) (ri_repo repository) branch) (Ok [])
     /\ cn_allow_no_pr c = true /\ cn_pull_request c = None.

Definition unprotected (t : trace) (repository : RepositoryIdentity) (branch : string) : Prop :=
  is_protected_branch branch (ri_base_branch repository) = false
  /\ exists current, on_branch t project_dir current /\ current <> branch.

Definition branch_verified (t : trace) (b : RevalidatedBranch) : Prop :=
  exists evidence, cn_branch c = Some evidence
    /\ or_option (be_branch evidence) (cn_local_branch c) = Some (rb_branch b)
    /\ seen t GetRepositoryIdentity (Ok (rb_repository b))
    /\ be_remote_name evidence = Some (ri_remote_name (rb_repository b))
    /\ be_target_branch evidence = Some (ri_base_branch (rb_repository b))
    /\ pull_request_verified t (rb_repository b) (rb_branch b)
    /\ unprotected t (rb_repository b) (rb_branch b)
    /\ forall sha, rb_local_head b = Some sha -> branch_head t project_dir (rb_branch b) sha.

Lemma pull_request_extends t t' r b :
  extends t t' -> pull_request_verified t r b -> pull_request_verified t' r b.
Proof.
  intros He [(pr & H1 & H2 & H3)|(H1 & H2 & H3)]; [left|right].
  - exists pr. split; [by apply He|]. split; [done|].
    intros (m & o & E & H)%H3. exists m, o. split; [done|]. by eapply git_said_extends.
  - split_and!; auto.
Qed.
Lemma branch_verified_extends t t' b : extends t t' -> branch_verified t b -> branch_verified t' b.
Proof.
  intros He (e & H1 & H2 & H3 & H4 & H5 & H6 & (H7 & cur & H8 & H9) & H10). exists e.
  split_and!; auto; [by eapply pull_request_extends| |].
  - split; [done|]. exists cur. split; [by eapply on_branch_extends|done].
  - intros sha E. by eapply branch_head_extends, H10.
Qed.

Lemma merge_reachable_said t m target :
  runs (merge_commit_reachable project_dir m target) t (Ok true) ->
  exists out, git_said t project_dir
    ["merge-base"; "--is-ancestor"; m;
     "refs/remotes/" ++ tb_remote_name target ++ "/" ++ tb_branch target] out.
Proof.
  unfold merge_commit_reachable. intros H. runs_solve.
  eexists. by eapply git_ok_said; [|left].
Qed.

Lemma fetch_target_names t r b target :
  runs (fetch_target_branch project_dir r b) t (Ok target) ->
  tb_remote_name target = r /\ tb_branch target = b.
Proof. unfold fetch_target_branch. intros H. runs_solve; done. Qed.

Lemma pull_request_state_said t branch repository pr :
  runs (pull_request_state svc (Some branch) true (Some repository) None) t (pr, None) ->
  seen t (FindPullRequestsByHead (ri_owner repository) (ri_repo repository) branch)
    (Ok (option_list pr)).
Proof.
  unfold pull_request_state. intros H. repeat runs_step.
  match goal with H : _ = (pr, None) |- _ => repeat case_match; simplify_eq end; by left.
Qed.

(** The pull request as the branch check accepts it. *)
Lemma pull_request_said t branch repository pr :
  runs (validate_pull_request svc c branch repository) t (Ok pr) ->
  seen t (FindPullRequestsByHead (ri_owner repository) (ri_repo repository) branch)
    (Ok (option_list pr))
  /\ match pr with
     | Some p => cn_pull_request c = Some p
     | None => cn_allow_no_pr c = true /\ cn_pull_request c = None
     end.
Proof.
  unfold validate_pull_request. intros H. runs_step. apply runs_ret in H as [-> Hp].
  destruct x0 as [[p|] [e|]]; cbn in Hp; try done.
  - destruct (cn_pull_request c) as [p'|]; [|done]. case_bool_decide; simplify_eq/=.
    split; [|done]. apply seen_l. by apply (pull_request_state_said _ _ _ (Some p')).
  - destruct (cn_allow_no_pr c); cbn in Hp; [|done]. case_bool_decide; simplify_eq/=.
    split; [|done]. apply seen_l. by apply (pull_request_state_said _ _ _ None).
Qed.

Lemma repository_said t evidence repository :
  runs (validate_repository evidence) t (Ok repository) ->
  seen t GetRepositoryIdentity (Ok repository)
  /\ be_remote_name evidence = Some (ri_remote_name repository)
  /\ be_target_branch evidence = Some (ri_base_branch repository).
Proof.
  unfold validate_repository. intros H. runs_step. apply runs_ret in H as [-> Hr].
  destruct x0 as [r|]; [|done]. unfold repository_agrees in Hr. result_cases.
  split; [by left|]. split; by eapply bool_decide_eq_true_1.
Qed.

Lemma current_branch_said t branch repository local_head :
  runs (validate_current_branch svc branch repository) t (Ok local_head) ->
  unprotected t repository branch
  /\ forall sha, local_head = Some sha -> branch_head t project_dir branch sha.
Proof.
  unfold validate_current_branch. intros H. repeat runs_step.
  apply andb_true_iff in H0 as [[Hs Hn]%andb_true_iff Hp%negb_true_iff].
  destruct a as [current|]; [|done]. apply negb_true_iff, bool_decide_eq_false in Hn.
  apply checked_out_said in H1. split; [split; [done|]|].
  - exists current. split; [eapply on_branch_extends, H1; auto with seen|congruence].
  - intros sha ->. eapply branch_head_extends, local_branch_state_said, H. auto with seen.
Qed.

(** The reachability check of [revalidate_branch]. *)
Definition reachability_check (pr : option CleanupPullRequest) (target : CleanupTargetBranch)
  : IO (result unit string) :=
  match pr with
  | Some pr => if needs_reachability pr then validate_merge_reachability svc pr target
               else Ret (Ok tt)
  | None => Ret (Ok tt)
  end.

Lemma reachability_said t pr target u :
  runs (reachability_check (Some pr) target) t (Ok u) -> needs_reachability pr = true ->
  exists merge_commit out, filled (cp_merge_commit_sha pr) = Some merge_commit
    /\ git_said t project_dir
         ["merge-base"; "--is-ancestor"; merge_commit;
          "refs/remotes/" ++ tb_remote_name target ++ "/" ++ tb_branch target] out.
Proof.
  unfold reachability_check, validate_merge_reachability. intros H E. rewrite E in H.
  destruct (filled _) as [m|]; [|by runs_solve]. runs_step.
  apply runs_ret in H as [-> ->%ensure_Ok].
  match goal with H : runs (merge_commit_reachable _ _ _) _ _ |- _ =>
    apply merge_reachable_said in H as [out H]; exists m, out end.
  split; [done|]. by apply git_said_l.
Qed.

Lemma pull_request_proof t1 t2 pr target repository branch u :
  seen t1 (FindPullRequestsByHead (ri_owner repository) (ri_repo repository) branch)
    (Ok (option_list pr)) ->
  match pr with
  | Some p => cn_pull_request c = Some p
  | None => cn_allow_no_pr c = true /\ cn_pull_request c = None
  end ->
  tb_remote_name target = ri_remote_name repository ->
  tb_branch target = ri_base_branch repository ->
  runs (reachability_check pr target) t2 (Ok u) ->
  pull_request_verified (t1 ++ t2)%list repository branch.
Proof.
  intros Hs Hp Et1 Et2 Hm. destruct pr as [p|]; [left|right].
  - exists p. split; [by apply seen_l|]. split; [done|]. intros E.
    destruct (reachability_said _ _ _ _ Hm E) as (m & o & Em & Ho). exists m, o.
    split; [done|]. apply git_said_r. by rewrite <- Et1, <- Et2.
  - destruct Hp. split; [by apply seen_l|done].
Qed.

Lemma revalidate_branch_said t b :
  runs (revalidate_branch svc c) t (Ok b) -> branch_verified t b.
Proof.
  unfold revalidate_branch. intros H. destruct (cn_branch c) as [ev|] eqn:Eb; [|by runs_solve].
  destruct (or_option _ _) as [branch|] eqn:En; [|by runs_solve].
  destruct (cn_identity c) as [i|]; [|by runs_solve].
  runs_step. runs_step. runs_step. runs_step.
  match type of H with runs (pbind_ok ?p _) _ _ =>
    change p with (reachability_check a2 a1) in H end.
  runs_step. runs_step. apply runs_ret in H as [-> E]. injection E as <-.
  match goal with H : runs (validate_repository _) _ _ |- _ =>
    apply repository_said in H as (Hr1 & Hr2 & Hr3) end.
  match goal with H : runs (fetch_target_branch _ _ _) _ _ |- _ =>
    apply fetch_target_names in H as [Ht1 Ht2] end.
  match goal with H : runs (validate_pull_request _ _ _ _) _ _ |- _ =>
    apply pull_request_said in H as [Hp1 Hp2] end.
  match goal with H : runs (validate_current_branch _ _ _) _ _ |- _ =>
    apply current_branch_said in H as [Hu Hh] end.
  match goal with H : runs (reachability_check _ _) _ _ |- _ => rename H into Hm end.
  exists ev. cbn [rb_branch rb_repository rb_local_head].
  do 2 (split; [done|]). split; [by apply seen_r, seen_l|]. do 2 (split; [done|]).
  pose proof (pull_request_proof _ _ _ _ _ _ _ Hp1 Hp2 Ht1 Ht2 Hm) as Hp.
  split; [|split].
  - eapply pull_request_extends, Hp. intros k r. rewrite !seen_app. tauto.
  - destruct Hu as (Hu & cur & Hc & Hn). split; [done|]. exists cur.
    split; [eapply on_branch_extends, Hc; auto 8 with seen|done].
  - intros sha E. eapply branch_head_extends, Hh, E. auto 8 with seen.
Qed.

Lemma prepare_remote_said t b expected :
  runs (prepare_remote_branch_deletion svc c expected) t (Ok (BranchPresent b)) ->
  branch_verified t b
  /\ remote_head t project_dir (ri_remote_name (rb_repository b)) (rb_branch b) expected.
Proof.
  unfold prepare_remote_branch_deletion. intros H. runs_step.
  match goal with H : runs (revalidate_branch _ _) _ _ |- _ => apply revalidate_branch_said in H end.
  runs_step; [|by runs_solve]. runs_step. apply runs_ret in H as [-> Hr].
  repeat case_match; simplify_eq.
  match goal with H : String.eqb _ _ = true |- _ => apply String.eqb_eq in H; subst end.
  match goal with H : runs (remote_branch_state _ _ _) _ _ |- _ =>
    apply remote_branch_state_said in H as (o & Ho & E) end.
  split; [eapply branch_verified_extends, H1; auto with seen|].
  exists o. split; [eapply git_said_extends, Ho; auto with seen|done].
Qed.

Definition worktree_gone (t : trace) : Prop := forall w, cn_worktree_path c = Some w -> absent t w.

Lemma worktree_gone_said t : runs (worktree_exists c) t false -> worktree_gone t.
Proof.
  unfold worktree_exists. intros H w E. rewrite E in H. by apply path_absent.
Qed.

Lemma prepare_local_said t b expected :
  runs (prepare_local_branch_deletion svc c expected) t (Ok (BranchPresent b)) ->
  branch_verified t b /\ rb_local_head b = Some expected /\ worktree_gone t.
Proof.
  unfold prepare_local_branch_deletion. intros H. runs_step. runs_step.
  match goal with H : runs (revalidate_branch _ _) _ _ |- _ => apply revalidate_branch_said in H end.
  apply runs_ret in H as [-> Hr]. repeat case_match; simplify_eq.
  match goal with H : String.eqb _ _ = true |- _ => apply String.eqb_eq in H; subst end.
  split; [eapply branch_verified_extends, H1; auto with seen|]. split; [done|].
  intros w E. eapply absent_extends; [|eapply worktree_gone_said; done]. auto with seen.
Qed.

Definition not_checked_out (t : trace) (branch : string) : Prop :=
  exists out, git_said t project_dir ["worktree"; "list"; "--porcelain"] out
    /\ existsb (String.eqb branch) (omap (strip_prefix "branch refs/heads/") (lines out)) = false.

Lemma not_checked_out_said t branch :
  runs (branch_checked_out_in_any_worktree project_dir branch) t (Ok false) ->
  not_checked_out t branch.
Proof.
  unfold branch_checked_out_in_any_worktree. intros H. runs_solve.
  eexists. split; [by eapply git_ok_said; [|left]|done].
Qed.
End evidence.
