(* ===== verification/CleanupDiscoverSpec.v ===== *)
(** * Verified cleanup: what a discovery rests on

    Discovery reads and removes nothing; and an identity that it rebuilds for a
    residual directory has every witness the recovery asks for: the ledger, the
    publication registry, git and the pull request name the same branch and
    head. *)

From stdpp Require Import gmap pretty.
From S2P Require Import Prelude RustStr JsonValue Ledger Publication.
From S2P Require Import ReviewTypes Effects CleanupDecision CleanupCalls.
From S2P Require Import CleanupInspect CleanupReceipts CleanupDiscover CleanupCandidate.
From S2P Require Import CleanupChecks.
Local Open Scope string_scope.

(** ** Nothing is removed *)

Section inert_discovery.
Context (svc : Service).

Lemma recover_residual_inert p rs es : inert (recover_residual_resource svc p rs es).
Proof.
  unfold recover_residual_resource, residual_location, residual_publication, residual_heads.
  inert_solve.
Qed.
Lemma agent_resources_inert l : inert (agent_resources svc l).
Proof.
  induction l as [|e l IH]; cbn [agent_resources]; unfold authoritative_identity; inert_solve.
Qed.
Lemma find_match_inert name p canonical i l : inert (find_match name p canonical i l).
Proof. revert i. induction l; intros i; cbn [find_match]; inert_solve. Qed.
Lemma attach_worktrees_inert rs l records es : inert (attach_worktrees svc rs l records es).
Proof.
  pose proof recover_residual_inert. pose proof find_match_inert.
  revert rs. induction l; intros rs; cbn [attach_worktrees]; unfold attach_worktree_resource;
    inert_solve; auto.
Qed.
Lemma list_entries_inert {A} dir (absent : A) k :
  (forall l, inert (k l)) -> inert (list_entries dir absent k).
Proof. intros Hk. unfold list_entries. inert_solve; auto. Qed.
Lemma require_target_inert request ids rs : inert (require_target request ids rs).
Proof. unfold require_target, read_receipts. inert_solve. Qed.
Lemma discover_inert request : inert (discover_resources svc request).
Proof.
  unfold discover_resources, read_receipts. inert_solve;
    auto using list_entries_inert, agent_resources_inert, attach_worktrees_inert,
      require_target_inert.
Qed.
End inert_discovery.

#[export] Hint Resolve discover_inert : inert.

(** ** A recovered identity is corroborated *)

Lemma remote_head_extends t t' d remote b sha :
  extends t t' -> remote_head t d remote b sha -> remote_head t' d remote b sha.
Proof. intros He [o [H1 H2]]. exists o. eauto with seen. Qed.

(** What the ledger, the publication registry, git and the pull request say of
    one agent: its branch, and the head the branch has. *)
Record corroborated (svc : Service) (t : trace) (recovery : list CleanupReceiptEntry)
    (ident : AgentIdentityRecord) : Prop := {
  co_sources : exists events heads publication repository,
    seen t ReadLedgerEvents (Some events) /\ seen t ReadPublishedHeads (Some heads)
    /\ seen t GetRepositoryIdentity (Ok repository)
    /\ recovered_spawn_evidence events (ai_agent_name ident)
       = Some (ai_birth_branch ident, ai_agent_type ident)
    /\ owned_publications (ai_agent_name ident) (ai_birth_branch ident) heads = [publication]
    /\ publication_evidence events (ai_agent_name ident) publication = true
    /\ finished_invocation_evidence events (ai_agent_name ident) publication = true
    /\ branch_head t (sv_project_dir svc) (ai_birth_branch ident) (ph_head_sha publication)
    /\ (remote_head t (sv_project_dir svc) (ri_remote_name repository) (ai_birth_branch ident)
          (ph_head_sha publication)
        \/ existsb (proves_deletion_of (ai_agent_name ident) repository (ai_birth_branch ident)
                      publication) recovery = true)
    /\ exists pr, seen t (FindPullRequestsByHead (ri_owner repository) (ri_repo repository)
                            (ai_birth_branch ident)) (Ok [pr])
         /\ recovered_pull_request (ai_agent_name ident) (ai_birth_branch ident) publication pr
            = true;
  co_directory : exists p canonical, last p = Some (ai_agent_name ident)
    /\ seen t (Canonicalize p) (Ok canonical) /\ seen t (ResidualContentsSafe p) (Ok true)
    /\ resolve_path (sv_project_dir svc) (ai_working_dir ident) = canonical
    /\ ai_topology ident = WorktreePerAgent }.

Lemma corroborated_extends svc t t' recovery ident :
  extends t t' -> corroborated svc t recovery ident -> corroborated svc t' recovery ident.
Proof.
  intros He [(events & heads & p & repository & H1 & H2 & H3 & H4 & H5 & H6 & H7 & H8
    & H9 & pr & H10 & H11) (d & canonical & D1 & D2 & D3 & D4 & D5)].
  split; [|by exists d, canonical; eauto 10].
  exists events, heads, p, repository. split_and!; eauto.
  - by eapply branch_head_extends.
  - destruct H9; [left|by right]. by eapply remote_head_extends.
Qed.

Lemma relative_to_resolve base p rel :
  relative_to base p = Some rel -> resolve_path base (Relative rel) = p.
Proof.
  unfold relative_to. destruct (path_within base p) eqn:E; [|done]. intros [= <-]. cbn.
  revert p E. induction base as [|x base IH]; intros [|y p] E; cbn in *; try done.
  apply andb_true_iff in E as [->%String.eqb_eq E]. by rewrite IH.
Qed.

Section recovered.
Context (svc : Service).
Let project_dir := sv_project_dir svc.

Lemma residual_location_said t p canonical :
  runs (residual_location svc p) t (Some canonical) ->
  seen t (Canonicalize p) (Ok canonical) /\ seen t (ResidualContentsSafe p) (Ok true).
Proof.
  unfold residual_location. intros H. repeat some_step. runs_step.
  runs_step; try (by runs_step); repeat some_step; runs_step; case_bool_decide; simplify_eq;
    split; eauto 10 with seen.
Qed.

Lemma residual_publication_said t id branch agent_type p :
  runs (residual_publication svc id) t (Some (branch, agent_type, p)) ->
  exists events heads, seen t ReadLedgerEvents (Some events)
    /\ seen t ReadPublishedHeads (Some heads)
    /\ recovered_spawn_evidence events id = Some (branch, agent_type)
    /\ owned_publications id branch heads = [p]
    /\ publication_evidence events id p = true /\ finished_invocation_evidence events id p = true.
Proof.
  unfold residual_publication. intros H. repeat some_step. runs_calls.
  runs_step; [|by runs_step]. runs_step. some_step. runs_step.
  destruct (owned_publications _ _ _) as [|q [|? ?]] eqn:Eo; simplify_eq.
  destruct (publication_evidence _ _ _ && _) eqn:Ee; simplify_eq. apply andb_true_iff in Ee as [].
  eexists _, _. split_and!; eauto 10 with seen.
Qed.

Lemma residual_heads_said t id branch p recovery proved :
  runs (residual_heads svc id branch p recovery) t (Some proved) ->
  exists repository, seen t GetRepositoryIdentity (Ok repository)
    /\ branch_head t project_dir branch (ph_head_sha p)
    /\ (remote_head t project_dir (ri_remote_name repository) branch (ph_head_sha p)
        \/ existsb (proves_deletion_of id repository branch p) recovery = true)
    /\ exists pr, seen t (FindPullRequestsByHead (ri_owner repository) (ri_repo repository) branch)
                    (Ok [pr])
         /\ recovered_pull_request id branch p pr = true.
Proof.
  unfold residual_heads. intros H. repeat some_step. runs_step; [|by runs_step].
  repeat some_step. runs_step.
  destruct x5 as [|pr [|? ?]]; simplify_eq.
  destruct (recovered_pull_request _ _ _ _) eqn:Epr; simplify_eq.
  repeat match goal with
  | H : runs (ok_or_none _) _ _ |- _ => apply runs_ok_or_none_inv in H
  | H : _ && _ = true |- _ => apply andb_true_iff in H as [? ?]
  | H : (_ =? _) = true |- _ => apply String.eqb_eq in H; subst
  end.
  exists x0. split; [eauto with seen|]. split.
  { eapply branch_head_extends, local_branch_state_said; [|done]. auto with seen. }
  split; [|exists pr; split; [eauto 10 with seen|done]].
  match goal with H : _ || _ = true |- _ => apply orb_true_iff in H as [E|E] end.
  - left. apply bool_decide_eq_true in E as ->.
    eapply remote_head_extends, remote_branch_state_said; [|done]. auto with seen.
  - right. by apply andb_true_iff in E as [_ ?].
Qed.

Lemma recovered_identity_fields id branch agent_type d p ident :
  recovered_identity id branch agent_type d p = Some ident ->
  ai_agent_name ident = id /\ ai_birth_branch ident = branch /\ ai_agent_type ident = agent_type
  /\ ai_topology ident = WorktreePerAgent /\ ai_working_dir ident = Relative d
  /\ internal_name (from_internal_name id) = id.
Proof.
  unfold recovered_identity. destruct (_ || _) eqn:E; [done|]. intros [= <-].
  repeat match goal with H : _ || _ = false |- _ => apply orb_false_iff in H as [? ?] end.
  repeat match goal with H : negb _ = false |- _ => apply negb_false_iff in H end.
  split_and!; try done. by apply String.eqb_eq.
Qed.

Lemma recovered_is_corroborated p records recovery t r :
  runs (recover_residual_resource svc p records recovery) t (Some r) ->
  exists ident, dr_identity r = Some ident /\ dr_id r = ai_agent_name ident
    /\ corroborated svc t recovery ident
    /\ ~ In (ai_agent_name ident) (map ai_agent_name records).
Proof.
  unfold recover_residual_resource. intros H. some_step.
  destruct (last_component p) as [id|] eqn:El; [|by runs_step]. repeat some_step.
  match goal with H : context [let '_ := ?x in _] |- _ => destruct x as [[branch agent_type] pub] end.
  some_step. runs_step. match goal with H : _ = Some r |- _ => revert H end.
  destruct (relative_to _ _) as [rel|] eqn:Er; cbn [mbind option_bind]; [|done].
  destruct (recovered_identity _ _ _ _ _) as [ident|] eqn:Ei; cbn [mbind option_bind]; [|done].
  intros [= <-].
  apply recovered_identity_fields in Ei as (<- & <- & <- & Ht & Hd & _).
  exists ident. do 2 (split; [done|]). split.
  - destruct (residual_location_said _ _ _ ltac:(eassumption)) as [L1 L2].
    destruct (residual_publication_said _ _ _ _ _ ltac:(eassumption))
      as (events & heads & P1 & P2 & P3 & P4 & P5 & P6).
    destruct (residual_heads_said _ _ _ _ _ _ ltac:(eassumption))
      as (repository & G1 & G2 & G3 & pr & G4 & G5).
    split.
    + exists events, heads, pub, repository. do 2 (split; [auto 10 with seen|]).
      split; [auto 10 with seen|]. do 4 (split; [done|]). split.
      { eapply branch_head_extends, G2. auto 10 with seen. }
      split; [|exists pr; split; [auto 10 with seen|done]].
      destruct G3; [left|by right]. eapply remote_head_extends; [|done]. auto 10 with seen.
    + exists p, x0. split; [done|]. do 2 (split; [auto 10 with seen|]). split; [|done].
      rewrite Hd. by apply relative_to_resolve.
  - intros (i & Hn & Hi)%in_map_iff.
    match goal with H : negb _ = true |- _ => apply negb_true_iff in H; rewrite <- not_true_iff_false in H; apply H end.
    apply existsb_exists. exists i. by rewrite Hn, String.eqb_refl.
Qed.

(** A resource whose identity was rebuilt just now. *)
Definition rebuilt (r : DiscoveredResource) : bool :=
  bool_decide (is_Some (dr_recovered_provenance r)) && negb (dr_recovery_receipt r).
Definition accounted (t : trace) (records : list AgentIdentityRecord)
    (recovery : list CleanupReceiptEntry) (r : DiscoveredResource) : Prop :=
  rebuilt r = true ->
  exists ident, dr_identity r = Some ident /\ dr_id r = ai_agent_name ident
    /\ corroborated svc t recovery ident
    /\ ~ In (ai_agent_name ident) (map ai_agent_name records).

Lemma agent_resources_accounted t0 records recovery l t rs :
  runs (agent_resources svc l) t (Ok rs) -> Forall (accounted t0 records recovery) rs.
Proof.
  revert t rs. induction l as [|e l IH]; intros t rs H; cbn [agent_resources] in H.
  - apply runs_ret in H as [_ [= <-]]. constructor.
  - destruct (de_kind e); [|by eapply IH|by apply runs_ret in H as [_ ?]].
    runs_step. runs_step. runs_step. constructor; [done|]. by eapply IH.
Qed.

Lemma attach_accounted t0 rs name records recovery t rs' :
  extends t t0 -> Forall (accounted t0 records recovery) rs ->
  runs (attach_worktree_resource svc rs name records recovery) t rs' ->
  Forall (accounted t0 records recovery) rs'.
Proof.
  intros He Hrs H. unfold attach_worktree_resource in H. do 2 runs_step.
  match type of H with runs (match ?x with _ => _ end) _ _ => destruct x as [i|] eqn:? end.
  - apply runs_ret in H as [_ <-]. by apply Forall_alter.
  - runs_step. apply runs_ret in H as [-> <-]. apply Forall_app. split; [done|].
    apply Forall_singleton. destruct (List.find _ _); [by runs_step|].
    match goal with |- accounted _ _ _ (default _ ?o) => destruct o as [r|] end; [|by intros ?].
    intros Hb.
    destruct (recovered_is_corroborated _ _ _ _ _ ltac:(eassumption)) as (i & ? & ? & ? & ?).
    exists i. split_and!; try done. eapply corroborated_extends; [|done].
    intros c a Hs. apply He. auto 10 with seen.
Qed.

Lemma attach_all_accounted t0 l rs records recovery t rs' :
  extends t t0 -> Forall (accounted t0 records recovery) rs ->
  runs (attach_worktrees svc rs l records recovery) t (Ok rs') ->
  Forall (accounted t0 records recovery) rs'.
Proof.
  revert rs t. induction l as [|e l IH]; intros rs t He Hrs H; cbn [attach_worktrees] in H.
  - by apply runs_ret in H as [_ [= <-]].
  - destruct (de_kind e); [|by eapply IH|by apply runs_ret in H as [_ [=]]].
    runs_step. apply extends_app_inv in He as [He1 He2].
    eapply IH; [exact He2| |eassumption]. eapply attach_accounted; [exact He1|done|done].
Qed.

Lemma append_receipts_accounted t0 records recovery l rs :
  Forall (accounted t0 records recovery) rs ->
  Forall (accounted t0 records recovery) (fold_left (append_recovered_receipt svc) l rs).
Proof.
  revert rs. induction l as [|e l IH]; intros rs Hrs; [done|]. apply IH.
  unfold append_recovered_receipt. case_match; [|done]. case_match; [done|].
  apply Forall_app. split; [done|]. apply Forall_singleton. intros Hb. exfalso.
  unfold rebuilt in Hb. by rewrite andb_false_r in Hb.
Qed.

Lemma append_resolver_accounted t0 records recovery ids l rs :
  Forall (accounted t0 records recovery) rs ->
  Forall (accounted t0 records recovery) (fold_left (append_resolver_only svc ids) l rs).
Proof.
  revert rs. induction l as [|e l IH]; intros rs Hrs; [done|]. apply IH.
  unfold append_resolver_only. case_match; [done|]. apply Forall_app. split; [done|].
  by apply Forall_singleton.
Qed.

Lemma sort_by_id_In r l : In r (sort_by_id l) -> In r l.
Proof.
  assert (Hi : forall x l, In r (insert_by_id x l) -> r = x \/ In r l).
  { intros x l'. induction l' as [|y l' IH]; cbn; [intuition|].
    destruct (String.compare _ _); cbn; intuition. }
  induction l as [|x l IH]; [done|]. intros [->|H]%Hi; [by left|right; by apply IH].
Qed.

Lemma list_entries_inv {A} dir (absent a : A) k t :
  runs (list_entries dir absent k) t (Ok a) ->
  a = absent \/ exists l t1, runs (k l) t1 (Ok a) /\ extends t1 t.
Proof.
  unfold list_entries. intros H. runs_step. destruct x0 as [|error|l stopped].
  - apply runs_ret in H as [_ [= <-]]. by left.
  - by apply runs_ret in H as [_ ?].
  - right. runs_step. apply runs_ret in H as [-> H]. exists l, x. destruct stopped; simplify_eq.
    split; [done|]. auto with seen.
Qed.

End recovered.
