(* ===== verification/CleanupSteps.v ===== *)
(** * Verified cleanup: what a removal needs

    Every call that removes something is permitted: the receipt stored last
    says that the entry is in progress and names the intent, and the
    observations of [CleanupChecks] are in the trace.  Here the steps of one
    candidate are shown to make only permitted calls. *)

From stdpp Require Import gmap pretty.
From S2P Require Import Prelude RustStr ReviewTypes Effects.
From S2P Require Import CleanupDecision CleanupCalls CleanupInspect CleanupReceipts.
From S2P Require Import CleanupCandidate CleanupExec CleanupChecks.
Local Open Scope string_scope.

(** ** The receipt stored last *)

Definition persisted (e : event reply) : option (CleanupReceipt * result unit string) :=
  match e with
  | existT c r =>
      match c return reply c -> option (CleanupReceipt * result unit string) with
      | PersistReceipt receipt => fun r => Some (receipt, r)
      | _ => fun _ => None
      end r
  end.

Definition last_persist (t : trace) : option (CleanupReceipt * result unit string) :=
  foldl (fun acc e => or_option (persisted e) acc) None t.

Lemma last_persist_snoc t e : last_persist (t ++ [e])%list = or_option (persisted e) (last_persist t).
Proof. unfold last_persist. by rewrite foldl_app. Qed.

Lemma last_persist_other t c r :
  is_persist c = false -> last_persist (t ++ [did c r])%list = last_persist t.
Proof. intros H. rewrite last_persist_snoc. by destruct c. Qed.

Lemma last_persist_inert {A} t t' (p : IO A) a :
  inert p -> runs p t' a -> last_persist (t ++ t')%list = last_persist t.
Proof.
  intros Hp R. assert (Hall : forall e, In e t' -> inert_call (projT1 e) = true)
    by (intros e; exact (only_runs _ _ _ _ e Hp R)).
  clear Hp R. induction t' as [|[c r] t' IH] using rev_ind; [by rewrite app_nil_r|].
  rewrite app_assoc. change (existT c r) with (did c r).
  assert (Hc : inert_call c = true).
  { apply (Hall (existT c r)), in_app_iff. right. by left. }
  rewrite last_persist_other; [apply IH|].
  - intros e He. apply Hall, in_app_iff. by left.
  - unfold inert_call in Hc. apply andb_true_iff in Hc as [_ Hc]. by apply negb_true_iff.
Qed.

(** ** Programs on the receipt *)

Section steps.
Context (ok : trace -> event reply -> Prop).

Lemma always_sbind {A B} past (m : Steps A) (f : A -> Steps B) s Q :
  always ok past (m s) (fun past sa => always ok past (f sa.2 sa.1) Q) ->
  always ok past (sbind m f s) Q.
Proof. intros H. by apply always_bind. Qed.

Lemma always_sbind_ok {A B E} past (m : Steps (result A E)) (f : A -> Steps (result B E)) s Q :
  always ok past (m s) (fun past sa => match sa.2 with
                                       | Ok a => always ok past (f a sa.1) Q
                                       | Err e => Q past (sa.1, Err e)
                                       end) ->
  always ok past (sbind_ok m f s) Q.
Proof. intros H. apply always_sbind. eapply always_mono, H. by intros past' [s' [a|e]]. Qed.

Lemma always_call {B} past k (f : reply k -> Steps B) s Q :
  (forall r, ok past (did k r) /\ always ok (past ++ [did k r])%list (f r s) Q) ->
  always ok past (sbind (slift (call_world k)) f s) Q.
Proof. intros H r. exact (H r). Qed.

Context (ok_inert : forall past e, inert_call (projT1 e) = true -> ok past e).

Lemma always_inert {A B} past (p : IO A) (f : A -> Steps B) s Q :
  inert p -> (forall t a, runs p t a -> always ok (past ++ t)%list (f a s) Q) ->
  always ok past (sbind (slift p) f s) Q.
Proof.
  intros Hp H. apply always_sbind. unfold slift. rewrite always_bind.
  by apply (always_only _ inert_call).
Qed.
End steps.

(** ** Permission *)

(** What the entry says before a call. *)
Definition intent (k : call) (e : CleanupReceiptEntry) : Prop :=
  match k with
  | Git _ args =>
      action_status (negb (bool_decide (head args = Some "push"))) e = Some DeletePending
  | ResolverDeregister _ => has_action DEREGISTER_PENDING (re_actions e) = true
  | ReleaseCodexTrust claims => re_codex_trust e = Some claims
  | _ => True
  end.

Section candidate.
Context (svc : Service) (c : CleanupCandidate) (index : nat).
Let project_dir := sv_project_dir svc.

Definition journalled (past : trace) (k : call) : Prop :=
  exists r e, last_persist past = Some (r, Ok tt) /\ rc_entries r !! index = Some e
    /\ re_status e = InProgress /\ re_agent_name e = cn_agent_name c /\ intent k e.

Definition remote_authority (past : trace) (args : list string) : Prop :=
  cn_delete_remote_branch c = true
  /\ exists b sha,
       args = lease_args (ri_remote_name (rb_repository b)) (rb_branch b) sha
       /\ remote_expected_sha c = Ok sha /\ branch_verified svc c past b
       /\ remote_head past project_dir (ri_remote_name (rb_repository b)) (rb_branch b) sha.

Definition local_authority (past : trace) (args : list string) : Prop :=
  cn_preserve_unique_commits c = false
  /\ exists b sha,
       args = ["update-ref"; "-d"; head_ref (rb_branch b); sha]
       /\ cn_local_head_sha c = Some sha /\ rb_local_head b = Some sha
       /\ branch_verified svc c past b /\ not_checked_out svc past (rb_branch b)
       /\ worktree_gone c past.

(** A resolver record whose directories are gone. *)
Definition resolver_checked (past : trace) : Prop :=
  cn_recovery_receipt c = true /\ absent past (cn_agent_dir c) /\ worktree_gone c past
  /\ exists ident, cn_identity c = Some ident
                   /\ seen past (ResolverGet (ai_agent_name ident)) (Some ident).

Definition disposal_checked (past : trace) : Prop :=
  if cn_resolver_only c then resolver_checked past else candidate_checked svc c past.

Definition authority (past : trace) (k : call) : Prop :=
  disposal_checked past
  /\ match k with
     | Git dir args =>
         cn_resolver_only c = false /\ dir = project_dir
         /\ (remote_authority past args \/ local_authority past args)
     | RemoveWorkspace p =>
         cn_resolver_only c = false /\ cn_worktree_path c = Some p
         /\ cn_recovered_provenance c = None
     | RemoveDirAll p =>
         cn_resolver_only c = false
         /\ (p = cn_agent_dir c
             \/ cn_worktree_path c = Some p /\ is_Some (cn_recovered_provenance c))
     | ResolverDeregister name =>
         name = cn_agent_name c \/ name = from_option ai_agent_name "" (cn_identity c)
     | _ => True
     end.

Definition permitted (past : trace) (e : event reply) : Prop :=
  destructive (projT1 e) = true -> journalled past (projT1 e) /\ authority past (projT1 e).

Lemma permitted_inert past e : inert_call (projT1 e) = true -> permitted past e.
Proof. intros H Hd. unfold inert_call in H. by rewrite Hd in H. Qed.
Lemma permitted_persist past r a : permitted past (did (PersistReceipt r) a).
Proof. done. Qed.

(** ** Invariants of the receipt *)

Context (n : nat) (Hn : index < n).
(** With unique commits preserved, the plan deletes no local branch. *)
Definition preserves (e : option CleanupBranchEvidence) : Prop :=
  cn_preserve_unique_commits c = true ->
  branch_action_is_pending_or_planned ((fun b => ba_status (be_local b)) <$> e) = false.
Context (Hplan : preserves (cn_branch c)).

Definition draft (past : trace) (s : CleanupReceipt) (e : CleanupReceiptEntry) : Prop :=
  length (rc_entries s) = n /\ disposal_checked past /\ rc_entries s !! index = Some e
  /\ preserves (re_branch e).
Definition stored (past : trace) (s : CleanupReceipt) (e : CleanupReceiptEntry) : Prop :=
  draft past s e /\ last_persist past = Some (s, Ok tt) /\ re_status e = InProgress
  /\ re_agent_name e = cn_agent_name c.

(** A step that continues leaves a stored receipt; one that stops leaves its
    length. *)
Definition post {A} (past : trace) (sa : CleanupReceipt * result A CleanupReceiptEntry) : Prop :=
  length (rc_entries sa.1) = n
  /\ match sa.2 with Ok _ => exists e, stored past sa.1 e | Err _ => True end.

Lemma resolver_checked_extends t t' : extends t t' -> resolver_checked t -> resolver_checked t'.
Proof.
  intros He (H1 & H2 & H3 & i & H4 & H5). split; [done|]. split; [by eapply absent_extends|].
  split; [intros w Hw; by eapply absent_extends, H3|]. exists i. split; [done|by apply He].
Qed.
Lemma disposal_checked_extends t t' : extends t t' -> disposal_checked t -> disposal_checked t'.
Proof.
  unfold disposal_checked. destruct (cn_resolver_only c); eauto using resolver_checked_extends,
    candidate_checked_extends.
Qed.

Lemma draft_extends t t' s e : extends t t' -> draft t s e -> draft t' s e.
Proof. intros He (H1 & H2 & H3). split; [done|]. split; [by eapply disposal_checked_extends|done]. Qed.

Lemma stored_call past s e k r :
  is_persist k = false -> stored past s e -> stored (past ++ [did k r])%list s e.
Proof.
  intros Hk (H1 & H2 & H3 & H4). split; [eapply draft_extends, H1; auto with seen|].
  by rewrite last_persist_other.
Qed.
Lemma stored_inert {A} past s e (p : IO A) t a :
  inert p -> runs p t a -> stored past s e -> stored (past ++ t)%list s e.
Proof.
  intros Hp R (H1 & H2 & H3 & H4). split; [eapply draft_extends, H1; auto with seen|].
  by erewrite last_persist_inert.
Qed.
Lemma stored_entry past s e : stored past s e -> entry_at c index s = e.
Proof. intros ((_ & _ & H & _) & _). unfold entry_at. by rewrite H. Qed.
Lemma draft_entry past s e : draft past s e -> entry_at c index s = e.
Proof. intros (_ & _ & H & _). unfold entry_at. by rewrite H. Qed.

Lemma stored_draft past s e : stored past s e -> draft past s e.
Proof. by intros []. Qed.
Lemma stored_journal past s e k : stored past s e -> intent k e -> journalled past k.
Proof. intros ((_ & _ & Hl & _) & H2 & H3 & H4) Hi. by exists s, e. Qed.

Lemma set_entry_length e s : length (rc_entries (set_entry index e s)) = length (rc_entries s).
Proof. apply length_insert. Qed.
Lemma draft_set past s e e' : draft past s e -> preserves (re_branch e') ->
  draft past (set_entry index e' s) e'.
Proof.
  intros (H1 & H2 & H3 & H4) Hp. split; [by rewrite set_entry_length|]. split; [done|].
  split; [|done]. cbn. apply list_lookup_insert_eq. lia.
Qed.

Lemma preserves_progress e actions :
  preserves (re_branch e) -> preserves (re_branch (progress_entry c e actions)).
Proof. cbn. by destruct (re_branch e). Qed.

(** ** Steps every action uses *)

Lemma always_get {B} past (f : CleanupReceiptEntry -> Steps B) s Q :
  always permitted past (f (entry_at c index s) s) Q ->
  always permitted past (sbind (get_entry c index) f s) Q.
Proof. done. Qed.
Lemma always_put {B} past e (f : unit -> Steps B) s Q :
  always permitted past (f tt (set_entry index e s)) Q ->
  always permitted past (sbind (put_entry index e) f s) Q.
Proof. done. Qed.

(** A step that stops has nothing to show but the length. *)
Lemma stop_post {A} past s entry :
  length (rc_entries s) = n -> always permitted past (stop (A := A) c index entry s) post.
Proof. done. Qed.

Lemma refuse_branch_post {A} past s local reason :
  length (rc_entries s) = n -> always permitted past (refuse_branch (A := A) c index local reason s) post.
Proof. intros H. split; [|done]. cbn. by rewrite length_insert. Qed.

Lemma record_progress_step past s e actions :
  draft past s e ->
  always permitted past (record_progress c index actions s)
    (fun past sr => length (rc_entries sr.1) = n
                    /\ (sr.2 = Ok tt -> stored past sr.1 (progress_entry c e actions))).
Proof.
  intros H. pose proof (draft_entry _ _ _ H) as E.
  unfold record_progress, get_entry, put_entry, persist_receipt, sbind, sget, sput, sret, slift. cbn.
  rewrite E. intros r. split; [apply permitted_persist|].
  assert (D : draft past (set_entry index (progress_entry c e actions) s) (progress_entry c e actions)).
  { eapply draft_set; [done|]. by apply preserves_progress; destruct H as (_ & _ & _ & H). }
  split; [apply D|]. intros ->. split; [eapply draft_extends, D; auto with seen|].
  by rewrite last_persist_snoc.
Qed.

Lemma persist_action_step past s e actions :
  draft past s e ->
  always permitted past (persist_action c index actions s)
    (fun past sr => length (rc_entries sr.1) = n
       /\ match sr.2 with
          | Ok a => a = actions /\ stored past sr.1 (progress_entry c e actions)
          | Err _ => True
          end).
Proof.
  intros H. unfold persist_action. apply always_sbind.
  eapply always_mono, record_progress_step, H. intros past' [s' [[]|err]] [Hl Hs]; [|done].
  split; [done|]. split; [done|]. by apply Hs.
Qed.

(** The usual form: the actions of a stored entry change. *)
Lemma persist_action_post past s e actions :
  stored past s e -> always permitted past (persist_action c index actions s) post.
Proof.
  intros H. eapply always_mono, persist_action_step, H.
  intros past' [s' [a|err]] [Hl Hs]; (split; [done|]); [|done]. destruct Hs as [-> Hs]. by eexists.
Qed.

(** ** The branches *)

Lemma persist_branch_step past s e :
  draft past s e ->
  always permitted past (persist_branch_progress c index s)
    (fun past sr => length (rc_entries sr.1) = n
       /\ match sr.2 with
          | Ok _ => stored past sr.1 (progress_entry c e (re_actions e))
          | Err _ => True
          end).
Proof.
  intros H. unfold persist_branch_progress. apply always_get.
  rewrite (draft_entry _ _ _ H). apply always_sbind.
  eapply always_mono, record_progress_step, H. intros past' [s' [[]|err]] [Hl Hs]; [|done].
  split; [done|]. by apply Hs.
Qed.

Lemma set_branch_pending_step past s e local :
  stored past s e -> (local = true -> cn_preserve_unique_commits c = false) ->
  always permitted past (set_branch_pending c index local s)
    (fun past sr => length (rc_entries sr.1) = n
       /\ match sr.2 with
          | Ok _ => exists e, stored past sr.1 e /\ action_status local e = Some DeletePending
          | Err _ => True
          end).
Proof.
  intros H Hlocal. pose proof (stored_entry _ _ _ H) as E. unfold set_branch_pending.
  apply always_get. rewrite E. destruct (re_branch e) as [b|] eqn:Eb;
    [|change (length (rc_entries s) = n /\ True); by split; [apply H|]].
  apply always_put. set (e' := branch_action_entry _ _ _ _ _).
  assert (D : draft past (set_entry index e' s) e').
  { eapply draft_set; [apply H|]. destruct H as [(_ & _ & _ & Hp) _]. rewrite Eb in Hp. cbn.
    intros Hpr. destruct local; [|by apply Hp]. by rewrite Hlocal in Hpr. }
  eapply always_mono, persist_branch_step, D. intros past' [s' [[]|err]] [Hl Hs]; [|done].
  split; [done|]. eexists. split; [exact Hs|]. by destruct local.
Qed.

Lemma finish_branch_post past s e local status reason :
  stored past s e ->
  branch_action_is_pending_or_planned (Some status) = false ->
  always permitted past (finish_branch_action c index local status reason s) post.
Proof.
  intros H Hst. pose proof (stored_entry _ _ _ H) as E. unfold finish_branch_action.
  apply always_get. rewrite E. destruct (re_branch e) as [b|] eqn:Eb;
    [|change (length (rc_entries s) = n /\ True); by split; [apply H|]].
  assert (Hp : forall l, preserves (re_branch (branch_action_entry local
                 {| ba_status := status; ba_reason := reason |} l b e))).
  { intros l Hpr. destruct H as [(_ & _ & _ & Hp) _]. rewrite Eb in Hp.
    destruct local; [exact Hst|exact (Hp Hpr)]. }
  destruct (completed_action_name local status) as [name|].
  - apply always_put. set (e' := branch_action_entry _ _ _ _ _).
    assert (D : draft past (set_entry index e' s) e') by (eapply draft_set; [apply H|apply Hp]).
    eapply always_mono, persist_branch_step, D. intros past' [s' [[]|err]] [Hl Hs]; [|done].
    split; [done|]. eexists. exact Hs.
  - apply always_put. split; [|done]. cbn. rewrite length_insert. apply H.
Qed.

Lemma finish_delete_post past s e local r :
  stored past s e -> always permitted past (finish_delete_result c index local r s) post.
Proof.
  intros H. destruct r; cbn -[finish_branch_action refuse_branch].
  - by eapply finish_branch_post.
  - apply refuse_branch_post, H.
Qed.

(** ** Trust, directories and registrations *)

(** What is pending for the caller and in the entry stays pending. *)
Definition pending (name : string) (actions : list string) (e : CleanupReceiptEntry) : Prop :=
  has_action name actions = true /\ has_action name (re_actions e) = true.
Definition keeps_pending (actions : list string) (e : CleanupReceiptEntry) (past : trace)
    (sa : CleanupReceipt * result (list string) CleanupReceiptEntry) : Prop :=
  length (rc_entries sa.1) = n
  /\ match sa.2 with
     | Ok a => exists e', stored past sa.1 e'
                 /\ forall name, pending name actions e -> pending name a e'
     | Err _ => True
     end.

Lemma keeps_pending_post actions e past sa : keeps_pending actions e past sa -> post past sa.
Proof. destruct sa as [s [a|err]]; intros [Hl H]; (split; [done|]); [|done]. destruct H as (e' & H & _). by eexists. Qed.

Lemma has_action_app name a b : has_action name a = true -> has_action name (a ++ b)%list = true.
Proof. unfold has_action. rewrite existsb_app. by intros ->. Qed.

Lemma release_trust_step past s e actions :
  stored past s e ->
  always permitted past (release_codex_trust c index actions s) (keeps_pending actions e).
Proof.
  intros H. unfold release_codex_trust. apply always_get. rewrite (stored_entry _ _ _ H).
  assert (Hk : forall past x, stored past s e ->
            keeps_pending actions e past (s, Ok (actions ++ [x])%list)).
  { intros past' x H'. split; [apply H|]. exists e. split; [done|]. intros name [Ha He].
    split; [by apply has_action_app|done]. }
  destruct (default [] (re_codex_trust e)) as [|claim claims] eqn:Et; [by apply Hk|].
  apply always_call. intros failures. split.
  - intros _. split; [|split; [by apply H|done]]. eapply stored_journal; [done|]. cbn.
    destruct (re_codex_trust e); cbn in Et; congruence.
  - destruct failures as [|f fs]; [by apply Hk, stored_call|].
    apply always_put. split; [|done]. cbn. rewrite length_insert. apply H.
Qed.

Lemma stored_authority past s e k :
  stored past s e -> destructive k = true ->
  match k with
  | RemoveSyntheticMembers _ _ | DeregisterRegistrations _ _ => True
  | ResolverDeregister name =>
      has_action DEREGISTER_PENDING (re_actions e) = true
      /\ (name = cn_agent_name c \/ name = from_option ai_agent_name "" (cn_identity c))
  | _ => False
  end -> forall r, permitted past (did k r).
Proof.
  intros H _ Hk r _. split.
  - eapply stored_journal; [done|]. destruct k; try done. by destruct Hk.
  - split; [apply H|]. destruct k; try done. by destruct Hk.
Qed.

Lemma registrations_step past s e actions :
  stored past s e ->
  always permitted past (cleanup_ephemeral_registrations c index actions s) (keeps_pending actions e).
Proof.
  intros H. unfold cleanup_ephemeral_registrations.
  destruct (cn_identity c) as [i|]; [|split; [apply H|by exists e]].
  apply always_call. intros r. split; [by eapply stored_authority|].
  destruct r as [u|reason]; [|split; [apply H|done]].
  apply always_call. intros u'. split; [eapply stored_authority; [by apply stored_call|done|done]|].
  eapply always_mono, persist_action_step, stored_draft; [|by do 2 (apply stored_call; [done|])].
  intros past' [s' [a|err]] [Hl Hs]; (split; [done|]); [|done]. destruct Hs as [-> Hs].
  eexists. split; [exact Hs|]. intros name [Ha He]. by split; apply has_action_app.
Qed.

Lemma with_pending_has actions : has_action DEREGISTER_PENDING (with_pending actions) = true.
Proof.
  unfold with_pending, push_if. destruct (has_action DEREGISTER_PENDING actions) eqn:E; [done|].
  cbn. unfold has_action. rewrite existsb_app. cbn. by rewrite orb_true_r.
Qed.

(** The pending deregistration is stored before the resolver is asked. *)
Lemma deregister_post past s e actions :
  stored past s e -> always permitted past (deregister_identity c index actions s) post.
Proof.
  intros H. unfold deregister_identity.
  destruct (str_is_empty (cn_agent_name c)); [apply stop_post, H|].
  apply always_sbind_ok. eapply always_mono, persist_action_step; [|apply H].
  intros past' [s' [a|err]] [Hl Hs]; [|done]. destruct Hs as [-> Hs]. cbn [fst snd].
  apply always_call. intros r. split.
  - eapply stored_authority; [done|done|]. split; [apply with_pending_has|by left].
  - destruct r; [|by apply stop_post]. eapply persist_action_post. by apply stored_call.
Qed.

(** ** Removing the directories *)

Section destructive.
Context (Hr : cn_resolver_only c = false).

Lemma stored_removal past s e k :
  stored past s e ->
  match k with
  | RemoveWorkspace p => cn_worktree_path c = Some p /\ cn_recovered_provenance c = None
  | RemoveDirAll p =>
      p = cn_agent_dir c \/ cn_worktree_path c = Some p /\ is_Some (cn_recovered_provenance c)
  | _ => False
  end -> forall r, permitted past (did k r).
Proof.
  intros H Hk r _. split.
  - eapply stored_journal; [done|]. by destruct k.
  - split; [apply H|]. by destruct k.
Qed.

Lemma remove_agent_directory_post past s e actions :
  stored past s e -> always permitted past (remove_agent_directory c index actions s) post.
Proof.
  intros H. unfold remove_agent_directory. apply always_call. intros r.
  split; [eapply stored_removal; [done|by left]|].
  destruct r; [eapply persist_action_post..|]; try by apply stored_call. apply stop_post, H.
Qed.

Lemma remove_recovered_step past s e w actions :
  stored past s e -> cn_worktree_path c = Some w -> is_Some (cn_recovered_provenance c) ->
  always permitted past (remove_recovered svc c index w actions s) post.
Proof.
  intros H Hw Hp. unfold remove_recovered. apply always_inert;
    [apply permitted_inert|auto with inert|]. intros t [[]|err] R; [|apply stop_post, H].
  pose proof (stored_inert _ _ _ _ _ _ (revalidate_residual_inert svc c) R H) as H'.
  apply always_call. intros r. split; [eapply stored_removal; [exact H'|by right]|].
  destruct r; [|apply stop_post, H..]. split; [apply H|]. exists e. by apply stored_call.
Qed.

Lemma remove_git_worktree_step past s e w actions :
  stored past s e -> cn_worktree_path c = Some w -> cn_recovered_provenance c = None ->
  always permitted past (remove_git_worktree c index w actions s) post.
Proof.
  intros H Hw Hp. unfold remove_git_worktree. apply always_call. intros r.
  split; [by eapply stored_removal|]. destruct r; [|apply stop_post, H].
  split; [apply H|]. exists e. by apply stored_call.
Qed.

Lemma remove_worktree_post past s e actions :
  stored past s e -> always permitted past (remove_worktree svc c index actions s) post.
Proof.
  intros H. unfold remove_worktree.
  destruct (cn_worktree_path c) as [w|] eqn:Hw; [|split; [apply H|by eexists]].
  apply always_inert; [apply permitted_inert|auto with inert|]. intros t present R.
  pose proof (stored_inert _ _ _ _ _ _ (path_exists_inert w) R H) as H'.
  apply always_sbind_ok. eapply (always_mono _ _ _ post).
  { intros past' [s' [a|err]] [Hl Hs]; [|done]. destruct Hs as [e' Hs].
    by eapply persist_action_post. }
  destruct present; [|split; [apply H|by eexists]]. case_bool_decide as Hp.
  - by eapply remove_recovered_step.
  - eapply remove_git_worktree_step; try done. destruct (cn_recovered_provenance c); [|done].
    destruct Hp. by eexists.
Qed.

(** ** Deleting the branches *)

Lemma delete_remote_step {B} past s e b expected (f : result unit string -> Steps B) Q :
  stored past s e -> action_status false e = Some DeletePending ->
  cn_delete_remote_branch c = true -> remote_expected_sha c = Ok expected ->
  branch_verified svc c past b ->
  remote_head past project_dir (ri_remote_name (rb_repository b)) (rb_branch b) expected ->
  (forall past' r, stored past' s e -> always permitted past' (f r s) Q) ->
  always permitted past
    (sbind (slift (delete_remote_branch_with_lease project_dir (ri_remote_name (rb_repository b))
                     (rb_branch b) expected)) f s) Q.
Proof.
  intros H Ha Hd He Hb Hh Hf. apply always_sbind. unfold slift, delete_remote_branch_with_lease.
  rewrite always_bind. destruct (validate_branch_arg _ _); [|by apply Hf].
  destruct (validate_commit_arg _); [|by apply Hf].
  rewrite always_bind. intros r. split.
  - intros _. split; [by eapply stored_journal|]. split; [apply H|]. split; [done|].
    split; [done|]. left. split; [done|]. by exists b, expected.
  - destruct r as [err|code out err]; cbn; [|destruct (success code)]; apply Hf;
      by apply stored_call.
Qed.

Lemma complete_remote_post past s e expected prepared :
  stored past s e -> action_status false e = Some DeletePending ->
  cn_delete_remote_branch c = true -> remote_expected_sha c = Ok expected ->
  (forall b, prepared = Ok (BranchPresent b) -> branch_verified svc c past b
     /\ remote_head past project_dir (ri_remote_name (rb_repository b)) (rb_branch b) expected) ->
  always permitted past (complete_remote_action svc c index expected prepared s) post.
Proof.
  intros H Ha Hd He Hp. destruct prepared as [[|b]|err]; [by apply refuse_branch_post, H| |
    by apply refuse_branch_post, H]. destruct (Hp b eq_refl) as [Hb Hh].
  unfold complete_remote_action. apply always_inert; [apply permitted_inert|auto with inert|].
  intros t [[]|err] R; [|by apply refuse_branch_post, H].
  pose proof (stored_inert _ _ _ _ _ _ (revalidate_all_inert svc c) R H) as H'.
  eapply delete_remote_step; try done.
  - eapply branch_verified_extends, Hb. auto with seen.
  - destruct Hh as (o & Ho & Eo). exists o. split; [by apply git_said_l|done].
  - intros past' r Hs. by eapply finish_delete_post.
Qed.

Lemma remote_action_post past s e :
  stored past s e -> always permitted past (execute_remote_branch_action svc c index s) post.
Proof.
  intros H. unfold execute_remote_branch_action.
  destruct (cn_delete_remote_branch c) eqn:Hd; [|split; [apply H|by eexists]]. cbn [negb].
  apply always_get. rewrite (stored_entry _ _ _ H). case_bool_decide.
  { apply always_inert; [apply permitted_inert| |].
    - unfold verify_prior_remote_deletion. inert_solve.
    - intros t [[]|err] R; [|by apply refuse_branch_post, H]. split; [apply H|].
      exists e. eapply stored_inert, H; [|exact R]. unfold verify_prior_remote_deletion. inert_solve. }
  destruct (remote_action_requested c e); cbn [negb]; [|by apply refuse_branch_post, H].
  unfold delete_remote_action. destruct (remote_expected_sha c) as [expected|] eqn:He;
    [|by apply refuse_branch_post, H].
  apply always_get. case_bool_decide; [by apply refuse_branch_post, H|].
  apply always_sbind_ok. eapply always_mono, set_branch_pending_step; [|done|done].
  intros past' [s' [[]|err]] [Hl Hs]; [|done]. destruct Hs as (e' & Hs & Ha).
  apply always_inert; [apply permitted_inert|auto with inert|]. intros t prepared R.
  pose proof (stored_inert _ _ _ _ _ _ (prepare_remote_inert svc c expected) R Hs) as Hs'.
  eapply complete_remote_post; [done|done|done|done|]. intros b ->.
  apply prepare_remote_said in R as [Hb (o & Ho & Eo)].
  split; [eapply branch_verified_extends, Hb; auto with seen|].
  exists o. split; [by apply git_said_r|done].
Qed.

Lemma delete_local_step {B} past s e b expected (f : result unit string -> Steps B) Q :
  stored past s e -> action_status true e = Some DeletePending ->
  cn_preserve_unique_commits c = false -> cn_local_head_sha c = Some expected ->
  branch_verified svc c past b -> rb_local_head b = Some expected -> worktree_gone c past ->
  (forall past' r, stored past' s e -> always permitted past' (f r s) Q) ->
  always permitted past
    (sbind (slift (delete_local_branch project_dir (rb_branch b) expected)) f s) Q.
Proof.
  intros H Ha Hd He Hb Hh Hw Hf. apply always_sbind. unfold slift, delete_local_branch.
  rewrite always_bind. destruct (validate_branch_arg _ _); [|by apply Hf].
  destruct (validate_commit_arg _); [|by apply Hf].
  unfold pbind_ok. rewrite always_bind.
  apply (always_only _ inert_call); [apply permitted_inert|apply branch_checked_out_inert|].
  intros t [[]|err] R;
    pose proof (stored_inert _ _ _ _ _ _ (branch_checked_out_inert _ _) R H) as H';
    [by apply Hf| |by apply Hf].
  rewrite always_bind. intros r. split.
  - intros _. split; [by eapply stored_journal|]. split; [apply H'|]. split; [done|].
    split; [done|]. right. split; [done|]. exists b, expected. do 3 (split; [done|]).
    split; [eapply branch_verified_extends, Hb; auto with seen|].
    apply not_checked_out_said in R as (o & Ho & Eo).
    split; [exists o; split; [by apply git_said_r|done]|].
    intros w Ew. eapply absent_extends; [|by apply Hw]. auto with seen.
  - destruct r as [err|code out err]; cbn; [|destruct (success code)]; apply Hf;
      by apply stored_call.
Qed.

Lemma complete_local_post past s e expected prepared :
  stored past s e -> action_status true e = Some DeletePending ->
  cn_preserve_unique_commits c = false -> cn_local_head_sha c = Some expected ->
  (forall b, prepared = Ok (BranchPresent b) -> branch_verified svc c past b
     /\ rb_local_head b = Some expected /\ worktree_gone c past) ->
  always permitted past (complete_local_action svc c index expected prepared s) post.
Proof.
  intros H Ha Hd He Hp. destruct prepared as [[|b]|err];
    [by eapply finish_branch_post| |by apply refuse_branch_post, H].
  destruct (Hp b eq_refl) as (Hb & Hh & Hw). eapply delete_local_step; try done.
  intros past' r Hs. by eapply finish_delete_post.
Qed.

Lemma local_action_post past s e :
  stored past s e -> always permitted past (execute_local_branch_action svc c index s) post.
Proof.
  intros H. unfold execute_local_branch_action. apply always_get. rewrite (stored_entry _ _ _ H).
  destruct (branch_action_is_pending_or_planned _) eqn:Hp; cbn [negb];
    [|split; [apply H|by eexists]].
  assert (Hpr : cn_preserve_unique_commits c = false).
  { destruct (cn_preserve_unique_commits c) eqn:E; [|done].
    destruct H as [(_ & _ & _ & Hpres) _]. specialize (Hpres E). unfold action_status in Hp.
    cbn in Hp. congruence. }
  apply always_inert; [apply permitted_inert|auto with inert|]. intros t present R.
  pose proof (stored_inert _ _ _ _ _ _ (worktree_exists_inert c) R H) as H'.
  destruct present; [by apply refuse_branch_post, H|].
  destruct (cn_local_head_sha c) as [expected|] eqn:He; [|by eapply finish_branch_post].
  apply always_sbind_ok. eapply always_mono, set_branch_pending_step; [|done|done].
  intros past' [s' [[]|err]] [Hl Hs]; [|done]. destruct Hs as (e' & Hs & Ha).
  apply always_inert; [apply permitted_inert|auto with inert|]. intros t' prepared R'.
  pose proof (stored_inert _ _ _ _ _ _ (prepare_local_inert svc c expected) R' Hs) as Hs'.
  eapply complete_local_post; [done|done|done|done|]. intros b ->.
  apply prepare_local_said in R' as (Hb & Hh & Hw).
  split; [eapply branch_verified_extends, Hb; auto with seen|]. split; [done|].
  intros w Ew. eapply absent_extends; [|by apply Hw]. auto with seen.
Qed.

(** ** The candidate *)

Lemma configured_dirs_inert l : inert (configured_dirs l).
Proof. induction l; cbn [configured_dirs]; [exact I|]. inert_solve; apply IHl. Qed.
Lemma capture_trust_inert l : inert (capture_trust_claims l).
Proof. unfold capture_trust_claims. inert_solve. Qed.

Lemma record_authorization_post past s e :
  stored past s e -> always permitted past (record_authorization c index s) post.
Proof.
  intros H. unfold record_authorization. apply always_get. apply always_sbind.
  eapply (always_mono _ _ _ (fun past sa => exists e, draft past sa.1 e)).
  { intros past' [s' actions] [e' D]. eapply always_mono, persist_action_step, D.
    intros past'' [s'' [a|err]] [Hl Hs]; (split; [done|]); [|done]. destruct Hs. by eexists. }
  unfold claim_codex_trust. apply always_inert; [apply permitted_inert|apply configured_dirs_inert|].
  intros t dirs R. apply always_inert; [apply permitted_inert|apply capture_trust_inert|].
  intros t' claims R'.
  assert (D : draft ((past ++ t) ++ t')%list s e).
  { eapply draft_extends, stored_draft, H. intros k r. rewrite !seen_app. tauto. }
  destruct claims as [[|x l]|err]; [by eexists| |by eexists].
  apply always_get, always_put. eexists. rewrite (draft_entry _ _ _ D).
  eapply draft_set; [done|]. by destruct D as (_ & _ & _ & Hp).
Qed.

(** One step after another, each from a stored receipt. *)
Lemma post_chain {A} past (m : Steps (result A CleanupReceiptEntry))
    (f : A -> Steps (result CleanupReceiptEntry CleanupReceiptEntry)) s :
  always permitted past (m s) post ->
  (forall past s e a, stored past s e ->
     always permitted past (f a s) (fun _ sa => length (rc_entries sa.1) = n)) ->
  always permitted past (sbind_ok m f s) (fun _ sa => length (rc_entries sa.1) = n).
Proof.
  intros Hm Hf. apply always_sbind_ok. eapply always_mono, Hm.
  intros past' [s' [a|err]] [Hl Hs]; [|done]. destruct Hs as [e' Hs]. by eapply Hf.
Qed.

Lemma entry_actions_post past s e :
  stored past s e -> always permitted past (entry_actions c index s) post.
Proof. intros H. split; [apply H|by eexists]. Qed.

Lemma merge_step past (m : Steps (result CleanupReceiptEntry CleanupReceiptEntry)) s :
  always permitted past (m s) (fun _ sa => length (rc_entries sa.1) = n) ->
  always permitted past (sbind m (fun r => sret (merge_result r)) s)
    (fun _ sa => length (rc_entries sa.1) = n).
Proof. intros H. apply always_sbind. eapply always_mono, H. by intros past' [s' r] Hl. Qed.

Lemma execute_destructive_step past s e :
  stored past s e ->
  always permitted past (execute_destructive_actions svc c index s)
    (fun _ sa => length (rc_entries sa.1) = n).
Proof.
  intros H. unfold execute_destructive_actions. apply merge_step.
  eapply post_chain; [by eapply record_authorization_post|clear dependent past s e; intros past s e _ H].
  eapply post_chain; [by eapply remote_action_post|clear dependent past s e; intros past s e _ H].
  eapply post_chain; [by eapply entry_actions_post|clear dependent past s e; intros past s e a H].
  eapply post_chain; [by eapply remove_worktree_post|clear dependent past s e; intros past s e _ H].
  eapply post_chain; [by eapply local_action_post|clear dependent past s e; intros past s e _ H].
  eapply post_chain; [by eapply entry_actions_post|clear dependent past s e; intros past s e a2 H].
  eapply post_chain; [by eapply remove_agent_directory_post|
                      clear dependent past s e; intros past s e a3 H].
  eapply post_chain; [by eapply always_mono, release_trust_step; [apply keeps_pending_post|]|clear dependent past s e; intros past s e a4 H].
  eapply post_chain; [by eapply always_mono, registrations_step; [apply keeps_pending_post|]|clear dependent past s e; intros past s e a5 H].
  eapply post_chain; [by eapply deregister_post|clear dependent past s e; intros past s e a6 H].
  apply H.
Qed.
End destructive.

(** ** Before the checks *)

Definition begun (past : trace) (s : CleanupReceipt) (e : CleanupReceiptEntry) : Prop :=
  length (rc_entries s) = n /\ rc_entries s !! index = Some e /\ preserves (re_branch e)
  /\ last_persist past = Some (s, Ok tt) /\ re_status e = InProgress
  /\ re_agent_name e = cn_agent_name c.

Lemma begun_stored past s e : begun past s e -> disposal_checked past -> stored past s e.
Proof. intros (H1 & H2 & H3 & H4 & H5 & H6) Hd. split; [by split_and!|by split_and!]. Qed.
Lemma begun_entry past s e : begun past s e -> entry_at c index s = e.
Proof. intros (_ & H & _). unfold entry_at. by rewrite H. Qed.
Lemma begun_inert {A} past s e (p : IO A) t a :
  inert p -> runs p t a -> begun past s e -> begun (past ++ t)%list s e.
Proof.
  intros Hp R (H1 & H2 & H3 & H4 & H5 & H6). split_and!; try done. by erewrite last_persist_inert.
Qed.

Lemma validate_candidate_said past s e expected :
  cn_resolver_only c = false -> cn_recovered_provenance c = None -> cn_identity c = Some expected ->
  begun past s e ->
  always permitted past (validate_candidate svc c index expected s)
    (fun past sa => length (rc_entries sa.1) = n
       /\ match sa.2 with Ok _ => stored past sa.1 e | Err _ => True end).
Proof.
  intros Hr Hp Hi H. unfold validate_candidate.
  apply always_inert; [apply permitted_inert|auto with inert|]. intros t [current|err] R;
    [|by case_bool_decide; (split; [apply H|])].
  pose proof (begun_inert _ _ _ _ _ _ (load_current_identity_inert c) R H) as H1.
  apply always_inert; [apply permitted_inert|by inert_solve|]. intros t' [refusal|] R';
    [split; [apply H|done]|].
  split; [apply H|]. eapply begun_stored; [eapply begun_inert, H1; [|exact R']; by inert_solve|].
  unfold disposal_checked. rewrite Hr. exists expected. split; [done|].
  rewrite bool_decide_eq_false_2 by (rewrite Hp; by intros []).
  apply load_identity_said in R. apply runs_check_then_inv in R' as (t1 & [?|] & t2 & -> & R1 & R2);
    [by destruct R2|]. apply validate_identity_said in R1 as (-> & Hk & Hdead). split.
  - split; [by apply seen_l, seen_r|]. split; [by apply seen_r, seen_l|].
    assert (Ha : agent_unchanged svc c (t ++ t1)%list expected).
    { split; [by apply seen_l|]. split; [by apply seen_r|by apply proven_dead_r]. }
    eapply agent_unchanged_extends, Ha. intros k r. rewrite !seen_app. tauto.
  - intros w Hw. eapply worktree_extends, validate_worktree_said, R2; [|done]. auto with seen.
Qed.

Lemma validate_recovered_said past s e :
  cn_resolver_only c = false -> is_Some (cn_recovered_provenance c) -> begun past s e ->
  always permitted past (validate_recovered svc c index s)
    (fun past sa => length (rc_entries sa.1) = n
       /\ match sa.2 with Ok _ => stored past sa.1 e | Err _ => True end).
Proof.
  intros Hr Hp H. unfold validate_recovered.
  apply always_inert; [apply permitted_inert|auto with inert|].
  intros t [[]|err] R; [|split; [apply H|done]]. split; [apply H|].
  eapply begun_stored; [eapply begun_inert, H; [|exact R]; auto with inert|].
  apply revalidate_residual_said in R as (i & Hi & Hu). unfold disposal_checked. rewrite Hr.
  exists i. split; [done|]. rewrite bool_decide_eq_true_2 by done.
  eapply residual_extends, Hu. auto with seen.
Qed.

Lemma resource_reappeared_said t :
  runs (resource_reappeared c) t false -> absent t (cn_agent_dir c) /\ worktree_gone c t.
Proof.
  unfold resource_reappeared. intros H. runs_step. runs_step; [by runs_solve|].
  match goal with H : runs (path_exists _) _ _ |- _ => apply path_absent in H as Ha end.
  apply worktree_gone_said in H. split; [eapply absent_extends, Ha; auto with seen|].
  intros w Hw. eapply absent_extends; [|by apply H]. auto with seen.
Qed.

Lemma deregister_absent_step past s e expected actions :
  cn_identity c = Some expected -> stored past s e ->
  always permitted past (deregister_absent c index expected actions s)
    (fun _ sa => length (rc_entries sa.1) = n).
Proof.
  intros Hi H. unfold deregister_absent.
  apply always_sbind_ok. eapply always_mono, persist_action_step, stored_draft, H.
  clear past s H. intros past [s [a|err]] [Hl Hs]; [|done]. destruct Hs as [-> H].
  assert (Hp : pending DEREGISTER_PENDING (resolver_only_actions actions)
                 (progress_entry c e (resolver_only_actions actions)))
    by (split; apply with_pending_has).
  revert H Hp. generalize (resolver_only_actions actions).
  intros actions' H Hp. apply always_sbind_ok. eapply always_mono, release_trust_step, H.
  clear past s H Hl. intros past [s [a|err]] [Hl Hs]; [|done]. destruct Hs as (e1 & H & Hp1).
  apply always_sbind_ok. eapply always_mono, registrations_step, H.
  clear past s H Hl. intros past [s [a1|err]] [Hl Hs]; [|done]. destruct Hs as (e2 & H & Hp2).
  specialize (Hp2 _ (Hp1 _ Hp)) as [_ Hp2].
  apply always_call. intros r. split.
  - eapply stored_authority; [done|done|]. split; [done|]. right. by rewrite Hi.
  - by destruct r.
Qed.

Lemma resolver_only_step past s e expected :
  cn_resolver_only c = true -> cn_identity c = Some expected -> begun past s e ->
  always permitted past (execute_resolver_only c index expected s)
    (fun _ sa => length (rc_entries sa.1) = n).
Proof.
  intros Hr Hi H. unfold execute_resolver_only. apply merge_step. unfold resolver_only_steps.
  destruct (cn_recovery_receipt c) eqn:Hrec; cbn [negb]; [|apply H].
  assert (Hin : inert (resource_reappeared c)) by (unfold resource_reappeared; inert_solve).
  apply always_inert; [apply permitted_inert|done|]. intros t [] R; [apply H|].
  pose proof (begun_inert _ _ _ _ _ _ Hin R H) as H1.
  apply resource_reappeared_said in R as [Ha Hw].
  apply always_call. intros known. split; [apply permitted_inert; reflexivity|].
  destruct (bool_decide (known = Some expected)) eqn:Hk; cbn [negb]; [|apply H].
  apply bool_decide_eq_true in Hk as ->.
  apply always_get. destruct (negb _); [apply H|].
  assert (Hs : stored ((past ++ t) ++ [did (ResolverGet (ai_agent_name expected)) (Some expected)])%list
                 s e).
  { apply begun_stored.
    - destruct H1 as (? & ? & ? & ? & ? & ?). split_and!; try done. by rewrite last_persist_other.
    - unfold disposal_checked. rewrite Hr. split; [done|].
      split; [eapply absent_extends, Ha; auto with seen|].
      split; [intros w Ew; eapply absent_extends; [|by apply Hw]; auto with seen|].
      exists expected. split; [done|]. apply seen_r. by left. }
  clear H H1 Ha Hw Hin. revert Hs. generalize (re_actions (entry_at c index s)) as actions.
  generalize ((past ++ t) ++ [did (ResolverGet (ai_agent_name expected)) (Some expected)])%list as p.
  clear past t. intros past actions H. by eapply deregister_absent_step.
Qed.

Lemma execute_candidate_step past s e :
  begun past s e ->
  always permitted past (execute_candidate svc c index s) (fun _ sa => length (rc_entries sa.1) = n).
Proof.
  intros H. unfold execute_candidate. destruct (cn_identity c) as [expected|] eqn:Hi; [|apply H].
  destruct (cn_resolver_only c) eqn:Hr; [by eapply resolver_only_step|].
  apply always_sbind. eapply (always_mono _ _ _ (fun past sa => length (rc_entries sa.1) = n
    /\ match sa.2 with Ok _ => stored past sa.1 e | Err _ => True end)).
  - intros past' [s' [[]|err]] [Hl Hs]; [|exact Hl]. exact (execute_destructive_step Hr _ _ _ Hs).
  - case_bool_decide as Hp; [by apply validate_recovered_said|].
    apply validate_candidate_said; try done. destruct (cn_recovered_provenance c); [|done].
    destruct Hp. by eexists.
Qed.

(** A put and a persist, as [run_candidate] begins and ends. *)
Lemma put_persist_step past s e (Q : trace -> CleanupReceipt * result unit string -> Prop) :
  (forall past r, last_persist past = Some (set_entry index e s, r) ->
                  Q past (set_entry index e s, r)) ->
  always permitted past (persist_receipt (set_entry index e s)) Q.
Proof. intros H r. split; [apply permitted_persist|]. apply H. by rewrite last_persist_snoc. Qed.

Lemma remote_opt_in_local e :
  (fun b => ba_status (be_local b)) <$> re_branch (normalize_remote_opt_in c e)
  = (fun b => ba_status (be_local b)) <$> re_branch e.
Proof.
  unfold normalize_remote_opt_in. destruct (re_branch e) as [b|] eqn:E; [|by rewrite E].
  destruct (cn_delete_remote_branch c), (ba_status (be_remote b)), (cn_branch c); cbn;
    by rewrite ?E.
Qed.

Lemma local_opt_in_preserves e : preserves (re_branch (normalize_local_opt_in c e)).
Proof.
  intros Hp. specialize (Hplan Hp). unfold normalize_local_opt_in. rewrite Hp.
  destruct (re_branch e) as [b|] eqn:E; [|by rewrite E].
  destruct (branch_action_is_pending_or_planned (Some (ba_status (be_local b)))) eqn:El.
  - destruct (cn_branch c); [exact Hplan|done].
  - by rewrite E.
Qed.

Lemma in_progress_preserves e : preserves (re_branch (in_progress_entry c e)).
Proof.
  intros Hp. unfold in_progress_entry. rewrite remote_opt_in_local. by apply local_opt_in_preserves.
Qed.

Lemma in_progress_fields e :
  re_status (in_progress_entry c e) = InProgress
  /\ re_agent_name (in_progress_entry c e) = cn_agent_name c.
Proof.
  unfold in_progress_entry, normalize_remote_opt_in, normalize_local_opt_in.
  repeat (case_match; try done).
Qed.

Lemma run_candidate_step past s :
  length (rc_entries s) = n ->
  always permitted past (run_candidate svc c index s) (fun _ sa => length (rc_entries sa.1) = n).
Proof.
  intros Hl. unfold run_candidate. apply always_get, always_put, always_sbind_ok.
  set (e := in_progress_entry c _). apply put_persist_step. intros past' r Hp.
  assert (Hl' : length (rc_entries (set_entry index e s)) = n) by (cbn; by rewrite length_insert).
  destruct r as [[]|err]; [|exact Hl']. apply always_sbind.
  eapply always_mono, execute_candidate_step.
  - intros past'' [s' e'] Hl''. cbn [fst snd] in *. apply always_put.
    destruct (is_progress_persistence_failure e').
    + cbn. by rewrite length_insert.
    + apply put_persist_step. intros ? ? _. cbn. by rewrite length_insert.
  - split_and!; [done|cbn; apply list_lookup_insert_eq; lia|apply in_progress_preserves|done|..];
      apply in_progress_fields.
Qed.

Lemma plan_candidate_step past s :
  length (rc_entries s) = n ->
  always permitted past (plan_candidate svc c index s) (fun _ sa => length (rc_entries sa.1) = n).
Proof.
  intros Hl. unfold plan_candidate. apply always_get.
  destruct (is_cleanable (cn_decision c)); cbn [negb].
  - case_bool_decide; [exact Hl|by apply run_candidate_step].
  - apply always_put. cbn. by rewrite length_insert.
Qed.
End candidate.
