(* ===== verification/CleanupSpec.v ===== *)
(** * Verified cleanup: what a cleanup may remove

    The theorems about a whole dry run or apply: every call that removes
    something was authorised by the request, made for a candidate of the plan
    whose identity, liveness and worktree were checked in the same run, and
    recorded in a stored receipt before it was made; and what a resumed receipt
    keeps. *)

From stdpp Require Import gmap pretty.
From S2P Require Import Prelude RustStr ReviewTypes MutexRegistry Effects.
From S2P Require Import CleanupDecision CleanupCalls CleanupInspect CleanupReceipts.
From S2P Require Import CleanupCandidate CleanupExec CleanupService CleanupChecks.
From S2P Require Import CleanupDiscover CleanupDiscoverSpec CleanupSteps.
Local Open Scope string_scope.

(** ** The plan *)

Section plan.
Context (svc : Service) (request : CleanupRequest).

(** A candidate asks for what the request asks for. *)
Definition as_requested (c : CleanupCandidate) : Prop :=
  cn_delete_remote_branch c = cr_delete_remote_branch request
  /\ cn_allow_no_pr c = cr_allow_no_pr request
  /\ cn_discard_dirty c = cr_discard_dirty request
  /\ cn_preserve_unique_commits c = cr_preserve_unique_commits request
  /\ preserves c (cn_branch c).

Lemma branch_evidence_preserves local remote pr ic decision :
  ic_preserve_unique_commits ic = true ->
  branch_action_is_pending_or_planned
    ((fun b => ba_status (be_local b)) <$> branch_evidence local remote pr ic decision) = false.
Proof.
  intros Hp. unfold branch_evidence.
  destruct (match lo_local_branch local with Some b => _ | None => _ end) as [b|]; [|done]. cbn.
  unfold planned_local_action. rewrite Hp.
  destruct (decision_reason decision); [|done]. by destruct (ic_delete_remote_branch ic).
Qed.

Lemma inspected_as_requested observed target current r t c :
  runs (inspect_candidate svc r (inspection_context request observed target current)) t c ->
  as_requested c.
Proof.
  unfold inspect_candidate. intros H. repeat runs_step. unfold as_requested.
  split_and!; [reflexivity..|]. intros Hp. by apply branch_evidence_preserves.
Qed.

Lemma inspected_all observed target current l t cs :
  runs (inspect_all svc (inspection_context request observed target current) l) t cs ->
  Forall as_requested cs.
Proof.
  revert t cs. induction l as [|r l IH]; intros t cs H; cbn [inspect_all] in H; runs_step; [done|].
  runs_step. apply runs_ret in H as [-> <-].
  match goal with H : runs (inspect_candidate _ _ _) _ _ |- _ => apply inspected_as_requested in H end.
  constructor; [done|]. by eapply IH.
Qed.

Lemma refused_as_requested reason c b :
  as_requested c -> preserves c b -> as_requested (with_refusal reason c b).
Proof. intros (H1 & H2 & H3 & H4 & H5) Hb. by split_and!. Qed.

Lemma refuse_absent_as_requested c : as_requested c -> as_requested (refuse_absent_remote c).
Proof.
  intros H. apply refused_as_requested; [done|]. destruct H as (_ & _ & _ & _ & H). intros Hp.
  specialize (H Hp). by destruct (cn_branch c).
Qed.

Lemma refuse_unproven_as_requested l t l' :
  Forall as_requested l -> runs (refuse_all_unproven (cr_delete_remote_branch request) l) t (Ok l') ->
  Forall as_requested l'.
Proof.
  intros Hl. revert t l'. induction Hl as [|c l Hc Hl IH]; intros t l' H;
    cbn [refuse_all_unproven] in H; repeat runs_step; [done|].
  constructor; [|by eapply IH].
  match goal with H : runs (refuse_unproven_absent_remote _ _) _ _ |- _ =>
    unfold refuse_unproven_absent_remote in H; revert H end.
  destruct (_ || _ || _); [by intros [_ [= <-]]%runs_ret|].
  intros H'. repeat runs_step. case_match; [done|by apply refuse_absent_as_requested].
Qed.

Lemma duplicates_as_requested l :
  Forall as_requested l -> Forall as_requested (refuse_duplicate_branches l).
Proof.
  intros Hl. apply Forall_map, (Forall_impl _ _ _ Hl). intros c Hc. unfold refuse_duplicate.
  by repeat case_match.
Qed.

Lemma plan_as_requested t p :
  runs (plan svc request) t (Ok p) ->
  validate request = Ok tt /\ Forall as_requested (pl_candidates p).
Proof.
  unfold plan. intros H. destruct (validate request) as [[]|]; [|by runs_solve]. split; [done|].
  repeat runs_step. apply duplicates_as_requested.
  eapply refuse_unproven_as_requested; [|done]. by eapply inspected_all.
Qed.
End plan.

(** ** Planning and reporting remove nothing *)

Section inert_service.
Context (svc : Service).

Lemma inspect_candidate_inert r ic : inert (inspect_candidate svc r ic).
Proof.
  unfold inspect_candidate, observe_resource, observe_worktree, observe_existing_worktree,
    observe_recovered, inspect_local_branch, inspect_remote_branch, inspect_pull_request,
    inspect_merge_reachability, candidate_liveness. inert_solve.
Qed.
Lemma inspect_all_inert ic l : inert (inspect_all svc ic l).
Proof.
  pose proof inspect_candidate_inert. induction l; cbn [inspect_all]; inert_solve; auto.
Qed.
Lemma refuse_all_inert b l : inert (refuse_all_unproven b l).
Proof.
  induction l; cbn [refuse_all_unproven]; [exact I|].
  unfold refuse_unproven_absent_remote, has_prior_remote_deletion_proof. inert_solve; auto.
Qed.
Lemma plan_inert request : inert (plan svc request).
Proof.
  pose proof inspect_all_inert. pose proof refuse_all_inert.
  unfold plan, observe_repository, observe_target. inert_solve; auto.
Qed.
Lemma any_generated_inert l : inert (any_generated_config l).
Proof. induction l; cbn [any_generated_config]; inert_solve; auto. Qed.
Lemma dry_run_entries_inert l : inert (dry_run_entries l).
Proof.
  pose proof any_generated_inert. induction l; cbn [dry_run_entries]; unfold dry_run_candidate;
    inert_solve; auto.
Qed.
Lemma dry_run_receipt_inert p : inert (dry_run_receipt p).
Proof. pose proof dry_run_entries_inert. unfold dry_run_receipt. inert_solve; auto. Qed.
Lemma reconcile_inert l : inert (reconcile_entries l).
Proof. induction l; cbn [reconcile_entries]; unfold reconcile_entry; inert_solve; auto. Qed.
Lemma resume_or_create_inert p t n : inert (resume_or_create_receipt p t n).
Proof. pose proof reconcile_inert. unfold resume_or_create_receipt. inert_solve; auto. Qed.
End inert_service.

#[export] Hint Resolve plan_inert dry_run_receipt_inert resume_or_create_inert : inert.

(** ** The receipt has an entry for every candidate *)

Lemma reconcile_length l t l' : runs (reconcile_entries l) t l' -> length l' = length l.
Proof.
  revert t l'. induction l as [|e l IH]; intros t l' H; cbn [reconcile_entries] in H;
    repeat runs_step; [done|]. cbn. f_equal. by eapply IH.
Qed.

Lemma resumed_length p target n t r :
  runs (resume_or_create_receipt p target n) t (Ok r) ->
  length (pl_candidates p) <= length (rc_entries r).
Proof.
  unfold resume_or_create_receipt. intros H. runs_step. runs_step; repeat runs_step.
  - match goal with H : runs (reconcile_entries _) _ _ |- _ => apply reconcile_length in H as E end.
    cbn. rewrite E. cbn. rewrite length_app, length_map. lia.
  - cbn. by rewrite length_map.
Qed.

(** ** Applying *)

Section apply.
Context (svc : Service) (request : CleanupRequest).

(** A removal of a candidate of the plan. *)
Definition permitted_of (l : list CleanupCandidate) (past : trace) (e : event reply) : Prop :=
  destructive (projT1 e) = true ->
  exists i c, l !! i = Some c /\ is_cleanable (cn_decision c) = true
    /\ journalled c i past (projT1 e) /\ authority svc c past (projT1 e).

Lemma permitted_of_inert l past e : inert_call (projT1 e) = true -> permitted_of l past e.
Proof. intros H Hd. unfold inert_call in H. by rewrite Hd in H. Qed.

Lemma plan_candidate_of l i c past s n :
  l !! i = Some c -> as_requested request c -> i < n -> length (rc_entries s) = n ->
  always (permitted_of l) past (plan_candidate svc c i s) (fun _ sa => length (rc_entries sa.1) = n).
Proof.
  intros Hi (_ & _ & _ & _ & Hp) Hn Hl. destruct (is_cleanable (cn_decision c)) eqn:Hc.
  - eapply always_strengthen, plan_candidate_step; try done.
    intros past' e He Hd. exists i, c. destruct (He Hd). by split_and!.
  - unfold plan_candidate. rewrite Hc. cbn. by rewrite length_insert.
Qed.

Lemma execute_candidates_of l rest i past s n :
  (forall j, rest !! j = l !! (i + j)) -> Forall (as_requested request) rest ->
  i + length rest <= n -> length (rc_entries s) = n ->
  always (permitted_of l) past (execute_candidates svc i rest s) (fun _ _ => True).
Proof.
  revert i past s. induction rest as [|c rest IH]; intros i past s Hrest Hall Hn Hl; [done|].
  cbn [execute_candidates]. apply Forall_cons in Hall as [Hc Hall]. apply always_sbind_ok.
  eapply always_mono, (plan_candidate_of l i c past s n); try done.
  - intros past' [s' [[]|err]] Hl'; [|done]. apply IH; try done.
    + intros j. rewrite Nat.add_succ_comm. exact (Hrest (S j)).
    + cbn in Hn. lia.
  - rewrite <- (Nat.add_0_r i). by rewrite <- Hrest.
  - cbn in Hn. lia.
Qed.

(** What [ok] of the programs on no state. *)
Lemma always_then_inert {A B} ok past (p : IO A) (f : A -> IO B) Q :
  (forall past e, inert_call (projT1 e) = true -> ok past e) -> inert p ->
  (forall t a, runs p t a -> always ok (past ++ t)%list (f a) Q) ->
  always ok past (pbind p f) Q.
Proof. intros Hok Hp Hf. apply always_bind. by apply (always_only _ inert_call). Qed.

Definition no_result {A} : trace -> A -> Prop := fun _ _ => True.

Lemma execute_receipt_of p past r :
  Forall (as_requested request) (pl_candidates p) ->
  length (pl_candidates p) <= length (rc_entries r) ->
  always (permitted_of (pl_candidates p)) past (execute_receipt svc p r) no_result.
Proof.
  intros Hall Hl. unfold execute_receipt. apply always_bind.
  eapply always_mono, execute_candidates_of; [|by intros j|done|exact Hl|done].
  intros past' [s [[]|err]] _; [|done]. intros now.
  split; [by apply permitted_of_inert|]. intros res. split; [done|]. by destruct res as [[]|].
Qed.

Definition permitted_here (past : trace) (e : event reply) : Prop :=
  destructive (projT1 e) = true ->
  validate request = Ok tt
  /\ exists i c, as_requested request c /\ is_cleanable (cn_decision c) = true
       /\ journalled c i past (projT1 e) /\ authority svc c past (projT1 e).

Lemma permitted_here_inert past e : inert_call (projT1 e) = true -> permitted_here past e.
Proof. intros H Hd. unfold inert_call in H. by rewrite Hd in H. Qed.

Lemma apply_locked_of past : always permitted_here past (apply_locked svc request) no_result.
Proof.
  unfold apply_locked. apply always_then_inert; [apply permitted_here_inert|by split|].
  intros t now _. unfold pbind_ok at 1.
  apply always_then_inert; [apply permitted_here_inert|auto with inert|].
  intros t' [p|err] R; [|done]. apply plan_as_requested in R as [Hv Hall].
  unfold pbind_ok at 1. apply always_then_inert; [apply permitted_here_inert|auto with inert|].
  intros t'' [r|err] R; [|done]. apply resumed_length in R.
  unfold pbind_ok. intros res. split; [done|]. destruct res as [[]|err]; [|done].
  eapply always_strengthen, execute_receipt_of; [|done|done].
  intros past' e He Hd. split; [done|]. destruct (He Hd) as (i & c & Hi & Hc & Hj & Ha).
  exists i, c. split; [by eapply Forall_lookup_1|done].
Qed.

Lemma run_of : always (fun past e => (destructive (projT1 e) = true -> cr_apply request = true)
                                     /\ permitted_here past e)
                 [] (run svc request) no_result.
Proof.
  unfold run. destruct (cr_apply request) eqn:Ha.
  - eapply (always_strengthen permitted_here); [done|]. unfold apply.
    destruct (validate request) as [[]|]; [|done].
    apply always_then_inert; [apply permitted_here_inert|by split|]. intros t lock _.
    destruct (am_acquired lock); [|done]. cbn [negb]. apply always_bind.
    eapply always_mono, apply_locked_of. intros past r _.
    apply always_then_inert; [apply permitted_here_inert|by split|]. done.
  - eapply (always_strengthen (fun _ e => destructive (projT1 e) = false)).
    { intros past e E. unfold permitted_here. by rewrite E. }
    unfold pbind_ok at 1. apply always_then_inert; [|auto with inert|].
    { intros past e E. unfold inert_call in E. by apply andb_true_iff in E as [?%negb_true_iff _]. }
    intros t [p|err] _; [|done]. apply always_then_inert; [|auto with inert|].
    { intros past e E. unfold inert_call in E. by apply andb_true_iff in E as [?%negb_true_iff _]. }
    intros t' r _ res. split; [done|]. by destruct res as [[]|].
Qed.

(** The same of a run. *)
Lemma removal_permitted t r t1 e t2 :
  runs (run svc request) t r -> t = (t1 ++ e :: t2)%list -> destructive (projT1 e) = true ->
  cr_apply request = true /\ permitted_here t1 e.
Proof.
  intros R -> Hd. destruct (always_runs _ _ _ _ _ _ run_of R) as [_ H].
  destruct (H t1 e t2 eq_refl) as [Ha Hp]. split; [by apply Ha|exact Hp].
Qed.
End apply.

(** ** What a removal shows *)

(** Overrides name their target. *)
Lemma overrides_named request :
  validate request = Ok tt ->
  cr_allow_no_pr request || cr_discard_dirty request || cr_preserve_unique_commits request
    || cr_delete_remote_branch request = true ->
  is_Some (cr_target request).
Proof.
  unfold validate. intros H Ho. rewrite Ho in H. destruct (cr_sweep request); cbn in H.
  - rewrite andb_true_r in H. by destruct (bool_decide _).
  - result_cases. case_bool_decide; [done|]. by simplify_eq/=.
Qed.

Section removals.
Context (svc : Service) (request : CleanupRequest) (t : trace) (r : result CleanupReceipt string).
Context (t1 t2 : trace) (R : runs (run svc request) t r).
Let project_dir := sv_project_dir svc.


Lemma push_authority dir args res :
  t = (t1 ++ did (Git dir args) res :: t2)%list -> head args = Some "push" ->
  validate request = Ok tt
  /\ exists c, as_requested request c /\ dir = project_dir /\ remote_authority svc c t1 args.
Proof.
  intros E Hh. assert (Hd : destructive (Git dir args) = true).
  { cbn. destruct args as [|a args]; [done|]. cbn in Hh. by simplify_eq. }
  destruct (removal_permitted _ _ _ _ _ _ _ R E Hd) as [Ha Hp].
  destruct (Hp Hd) as (Hv & i & c & Hc & _ & _ & _ & _ & Hdir & Hau). split; [done|].
  exists c. split; [done|]. split; [done|]. destruct Hau as [H|(_ & b & sha & -> & _)]; done.
Qed.

Lemma update_ref_authority dir args res :
  t = (t1 ++ did (Git dir args) res :: t2)%list -> head args = Some "update-ref" ->
  exists c, as_requested request c /\ dir = project_dir /\ local_authority svc c t1 args.
Proof.
  intros E Hh. assert (Hd : destructive (Git dir args) = true).
  { cbn. destruct args as [|a args]; [done|]. cbn in Hh. by simplify_eq. }
  destruct (removal_permitted _ _ _ _ _ _ _ R E Hd) as [Ha Hp].
  destruct (Hp Hd) as (Hv & i & c & Hc & _ & _ & _ & _ & Hdir & Hau).
  exists c. split; [done|]. split; [done|]. by destruct Hau as [(_ & b & sha & -> & _)|H].
Qed.

(** The pull request, or the verified absence of one, that a remote deletion
    rests on. *)
Definition deletion_evidence (repository : RepositoryIdentity) (branch sha : string) : Prop :=
  (exists pr, seen t1 (FindPullRequestsByHead (ri_owner repository) (ri_repo repository) branch)
                (Ok [pr]) /\ cp_head_sha pr = Some sha)
  \/ seen t1 (FindPullRequestsByHead (ri_owner repository) (ri_repo repository) branch) (Ok [])
     /\ cr_allow_no_pr request = true.

Lemma expected_sha_evidence c repository branch sha :
  as_requested request c -> pull_request_verified svc c t1 repository branch ->
  remote_expected_sha c = Ok sha -> deletion_evidence repository branch sha.
Proof.
  intros (_ & Ha & _) Hp He. unfold remote_expected_sha, option_context in He.
  destruct Hp as [(pr & Hs & Epr & _)|(Hs & Hal & Epr)]; [left|right].
  - exists pr. split; [done|]. rewrite Epr in He. cbn in He. rewrite andb_false_r in He.
    destruct (cp_head_sha pr) as [s|]; cbn in He; [|done]. destruct (str_is_empty s); [done|].
    by simplify_eq/=.
  - split; [done|]. by rewrite <- Ha.
Qed.


(** A local branch is deleted only when unique commits are not to be
    preserved, at the head it was seen to have, in no worktree's use, and it is
    not the base branch, not a protected name and not the one checked out. *)
Theorem local_deletion_is_authorised dir args res :
  t = (t1 ++ did (Git dir args) res :: t2)%list -> head args = Some "update-ref" ->
  cr_preserve_unique_commits request = false /\ dir = project_dir
  /\ exists repository branch sha,
       args = ["update-ref"; "-d"; head_ref branch; sha]
       /\ seen t1 GetRepositoryIdentity (Ok repository)
       /\ branch_head t1 project_dir branch sha /\ not_checked_out svc t1 branch
       /\ unprotected svc t1 repository branch.
Proof.
  intros E Hh. destruct (update_ref_authority _ _ _ E Hh)
    as (c & (_ & _ & _ & Hpr & _) & Hdir & Hp & b & sha & Ea & _ & Eh & Hb & Hn & _).
  split; [by rewrite <- Hpr|]. split; [done|].
  destruct Hb as (ev & _ & _ & Hs & _ & _ & _ & Hu & Hl).
  exists (rb_repository b), (rb_branch b), sha. split_and!; try done. by apply Hl.
Qed.


(** A directory is removed recursively only in two cases: it is the agent
    directory of an agent whose identity still agrees and which is proven dead;
    or the resource is a residual recovered from evidence, whose agent has no
    window, no resolver record and no agent directory, and which is a managed
    worktree path holding nothing but ExoMonad's files (or is gone). *)
Theorem directory_removal_is_authorised p res :
  t = (t1 ++ did (RemoveDirAll p) res :: t2)%list ->
  exists c ident, as_requested request c /\ cn_identity c = Some ident
    /\ (cn_recovered_provenance c = None /\ p = cn_agent_dir c
           /\ seen t1 (ReadIdentityFile p) (FileParsed ident)
           /\ seen t1 (ResolverGet (ai_agent_name ident)) (Some ident) /\ proven_dead svc t1 p
        \/ (p = cn_agent_dir c \/ cn_worktree_path c = Some p) /\ residual_unchanged svc c t1 ident).
Proof.
  intros E. assert (Hd : destructive (RemoveDirAll p) = true) by done.
  destruct (removal_permitted _ _ _ _ _ _ _ R E Hd) as [Ha Hp].
  destruct (Hp Hd) as (_ & i & c & Hreq & _ & _ & Hc & Hr & Hw). clear Hp.
  unfold disposal_checked in Hc. rewrite Hr in Hc. destruct Hc as (ident & Hi & Hc).
  exists c, ident. do 2 (split; [done|]). case_bool_decide as Hrec.
  - right. split; [|done]. by destruct Hw as [?|[? _]]; [left|right].
  - left. destruct (cn_recovered_provenance c); [destruct Hrec; by eexists|].
    destruct Hc as [(H1 & H2 & H3) _]. destruct Hw as [->|[_ [? [=]]]]. by split_and!.
Qed.
End removals.

(** ** The decision *)

(** What a cleanable candidate needs, as the refusals of [decision.rs] say it. *)
Definition identity_acceptable (c : DecisionContext) : Prop :=
  dc_identity_error c = None
  /\ forall ident, dc_identity c = Some ident ->
       ai_ledger_owned ident = false /\ ai_topology ident <> Unspecified
       /\ dc_identity_drift c = false.
Definition state_acceptable (c : DecisionContext) : Prop :=
  dc_liveness c = Dead
  /\ (dc_dirty c = Some false \/ dc_dirty c = Some true /\ dc_discard_dirty c = true)
  /\ dc_protected c = false
  /\ (dc_resolver_only c = true -> dc_recovery_receipt c = true).
Definition pull_request_acceptable (c : DecisionContext) (recovered : bool)
    (ident : AgentIdentityRecord) (repository : RepositoryIdentity) (pr : CleanupPullRequest)
  : Prop :=
  (cp_merged pr = true \/ recovered = true /\ closed_unmerged pr = true)
  /\ cp_base_ref pr = ri_base_branch repository /\ cp_head_ref pr = ai_birth_branch ident
  /\ is_Some (filled (cp_head_sha pr)) /\ dc_target_error c = None
  /\ (closed_unmerged pr = true \/ dc_merge_commit_reachable c = Some (Ok true))
  /\ dc_head_matches_pull_request c <> Some false
  /\ dc_remote_head_matches_pull_request c <> Some false.
Definition ownership_acceptable (c : DecisionContext) (recovered : bool) : Prop :=
  exists ident, dc_identity c = Some ident
    /\ (ai_topology ident <> WorktreePerAgent
        \/ exists repository, dc_repository c = Some repository
             /\ dc_remote_error c = None /\ dc_pr_error c = None
             /\ match dc_pull_request c with
                | None => dc_allow_no_pr c = true
                | Some pr => pull_request_acceptable c recovered ident repository pr
                end).

Lemma reject_identity_none c : reject_identity c = None <-> identity_acceptable c.
Proof.
  unfold reject_identity, identity_acceptable.
  destruct (dc_identity_error c); [split; [done|by intros [? _]]|].
  destruct (dc_identity c) as [i|]; cbn; [|split; [by split|done]].
  destruct (ai_ledger_owned i) eqn:E1; [split; [done|intros [_ H]; destruct (H i eq_refl); congruence]|].
  case_bool_decide; [split; [done|intros [_ H']; by destruct (H' i eq_refl) as (_ & ? & _)]|].
  destruct (dc_identity_drift c); [split; [done|intros [_ H']; by destruct (H' i eq_refl) as (_ & _ & ?)]|].
  split; [|done]. intros _. split; [done|]. intros ? [= <-]. done.
Qed.

Lemma reject_state_none c :
  reject_liveness c = None /\ reject_candidate_state c = None <-> state_acceptable c.
Proof.
  unfold reject_liveness, reject_candidate_state, reject_dirty, state_acceptable.
  destruct (dc_liveness c), (dc_dirty c) as [[]|], (dc_discard_dirty c), (dc_protected c),
    (dc_resolver_only c), (dc_recovery_receipt c); cbn; naive_solver.
Qed.

Lemma head_mismatch_none c :
  default Cleanable (reject_head_mismatch c) = Cleanable <->
  dc_head_matches_pull_request c <> Some false /\ dc_remote_head_matches_pull_request c <> Some false.
Proof. unfold reject_head_mismatch. repeat case_bool_decide; naive_solver. Qed.

Lemma pull_request_cleanable c recovered ident repository pr :
  pull_request_safety_decision c ident repository pr recovered = Cleanable <->
  pull_request_acceptable c recovered ident repository pr.
Proof.
  unfold pull_request_safety_decision, pull_request_acceptable.
  assert (Hm : negb (cp_merged pr || recovered && closed_unmerged pr) = false <->
               cp_merged pr = true \/ recovered = true /\ closed_unmerged pr = true).
  { rewrite negb_false_iff, orb_true_iff, andb_true_iff. done. }
  destruct (negb (cp_merged pr || _)); [split; [done|by intros [H%Hm _]]|].
  apply proj1 in Hm. specialize (Hm eq_refl).
  destruct (String.eqb_spec (cp_base_ref pr) (ri_base_branch repository)); cbn [negb];
    [|split; [done|by intros (_ & ? & _)]].
  destruct (String.eqb_spec (cp_head_ref pr) (ai_birth_branch ident)); cbn [negb];
    [|split; [done|by intros (_ & _ & ? & _)]].
  destruct (cp_head_sha pr) as [sha|]; cbn; [|split; [done|intros (_ & _ & _ & [? [=]] & _)]].
  destruct (str_is_empty sha); [split; [done|intros (_ & _ & _ & [? [=]] & _)]|].
  destruct (dc_target_error c); [split; [done|by intros (_ & _ & _ & _ & ? & _)]|].
  destruct (closed_unmerged pr) eqn:Ec; [rewrite head_mismatch_none; naive_solver|].
  destruct (dc_merge_commit_reachable c) as [[[]|]|]; [rewrite head_mismatch_none|..]; naive_solver.
Qed.

Lemma ownership_cleanable c recovered :
  pull_request_decision c recovered = Cleanable <-> ownership_acceptable c recovered.
Proof.
  unfold pull_request_decision, ownership_acceptable.
  destruct (dc_identity c) as [i|]; [|split; [done|by intros (? & [=] & _)]].
  case_bool_decide as Ht; cbn [negb].
  2:{ split; [|done]. intros _. exists i. split; [done|by left]. }
  destruct (dc_repository c) as [repo|];
    [|split; [done|by intros (? & [= <-] & [?|(? & [=] & _)])]].
  destruct (dc_remote_error c);
    [split; [done|by intros (? & [= <-] & [?|(? & _ & [=] & _)])]|].
  destruct (dc_pr_error c);
    [split; [done|by intros (? & [= <-] & [?|(? & _ & _ & [=] & _)])]|].
  transitivity (match dc_pull_request c with
                | None => dc_allow_no_pr c = true
                | Some pr => pull_request_acceptable c recovered i repo pr
                end).
  - destruct (dc_pull_request c) as [pr|]; [apply pull_request_cleanable|].
    by destruct (dc_allow_no_pr c).
  - split.
    + intros H. exists i. split; [done|]. right. by exists repo.
    + by intros (? & [= <-] & [?|(? & [= <-] & _ & _ & H)]).
Qed.

(** C24. A candidate is cleanable exactly when nothing of [decision.rs] refuses
    it: its identity is sound, not owned by a ledger and has not drifted, it is
    dead, its worktree is clean or its changes may be discarded, its branch is
    not protected, a resolver-only record has a receipt to resume, and a
    worktree agent's branch is owned by a merged pull request (a closed one for a
    recovered residual) whose base, head, head commits and merge commit all
    agree, or by none and the request allows that. *)
Theorem cleanable_exactly_when c recovered :
  candidate_decision_for_recovery c recovered = Cleanable <->
  identity_acceptable c /\ state_acceptable c
  /\ (dc_resolver_only c = true \/ ownership_acceptable c recovered).
Proof.
  rewrite <- reject_identity_none, <- reject_state_none, <- ownership_cleanable.
  unfold candidate_decision_for_recovery. split.
  - destruct (reject_identity c) eqn:E1.
    { intros ->. unfold reject_identity in E1. destruct (dc_identity_error c); [done|].
      destruct (dc_identity c); cbn in E1; [|done]. by repeat case_match. }
    destruct (reject_liveness c) eqn:E2.
    { intros ->. unfold reject_liveness in E2. by case_match. }
    destruct (reject_candidate_state c) eqn:E3.
    { intros ->. unfold reject_candidate_state, reject_dirty in E3.
      destruct (dc_dirty c) as [[]|], (dc_discard_dirty c), (dc_protected c),
        (dc_resolver_only c && negb (dc_recovery_receipt c)); done. }
    intros H. split; [done|]. split; [done|]. destruct (dc_resolver_only c); [by left|by right].
  - intros (-> & (-> & ->) & [->|H]); [done|]. by destruct (dc_resolver_only c).
Qed.

(** ** Resuming a receipt *)

Lemma find_indexed_lookup {A} f k (l : list A) i x :
  find_indexed f k l = Some (i, x) -> k <= i /\ l !! (i - k) = Some x.
Proof.
  revert k. induction l as [|y l IH]; intros k H; cbn in H; [done|].
  destruct (f y); [simplify_eq; rewrite Nat.sub_diag; split; [lia|done]|].
  apply IH in H as [Hk H]. split; [lia|]. replace (i - k) with (S (i - S k)) by lia. done.
Qed.

Lemma unmatched_spec matched k l j e :
  l !! j = Some e -> matched (k + j) = false -> is_kept e = true -> In e (unmatched matched k l).
Proof.
  revert k j. induction l as [|x l IH]; intros k j Hl Hm Hk; [done|]. cbn [unmatched].
  apply in_app_iff. destruct j as [|j].
  - left. cbn in Hl. simplify_eq. rewrite Nat.add_0_r in Hm. rewrite Hm, Hk. by left.
  - right. eapply IH; [done| |done]. by rewrite Nat.add_succ_comm.
Qed.

Definition marked_resumed (e : CleanupReceiptEntry) : CleanupReceiptEntry :=
  entry_with_actions (re_actions e ++ [RESUMED_CLEANUP_ACTION])%list e.

(** A resumed receipt loses nothing an interrupted run left open: every
    entry that is in progress, failed or cleaned is in it, with its branch
    evidence, its claimed trust and its actions, to which at most the mark of
    the resumption was added. *)
Theorem resume_keeps_entries plan previous e :
  In e (rc_entries previous) -> is_kept e = true ->
  exists e', In e' (rc_entries (resume_receipt plan previous))
             /\ (e' = e \/ e' = marked_resumed e /\ is_open e = true).
Proof.
  intros He Hk. apply list_elem_of_In, list_elem_of_lookup in He as [j Hj]. cbn [resume_receipt rc_entries].
  destruct (is_matched (pl_candidates plan) (rc_entries previous) j) eqn:Em.
  - unfold is_matched in Em. apply existsb_exists in Em as (c & Hc & Ec).
    apply bool_decide_eq_true in Ec.
    destruct (find_previous c (rc_entries previous)) as [[i x]|] eqn:Ef; [|done]. cbn in Ec. simplify_eq.
    unfold find_previous in Ef. pose proof (find_indexed_lookup _ _ _ _ _ Ef) as [_ Hx].
    rewrite Nat.sub_0_r in Hx. simplify_eq.
    exists (resume_entry (rc_entries previous) c). split; [apply in_app_iff; left; by apply in_map|].
    unfold resume_entry, find_previous. rewrite Ef.
    destruct (is_open e); [|by left]. cbn. by destruct (has_action _ _); [left|right].
  - exists e. split; [|by left]. apply in_app_iff. right. by eapply unmatched_spec.
Qed.

(** ** The lock *)

(** An apply does nothing before it holds the cleanup lock and gives it back
    on every path: its first call asks for the lock; without the lock it makes
    no other call and fails; with it, its last call releases the identifier it
    was given, whatever failed in between. *)
Theorem apply_is_bracketed svc request t r :
  runs (apply svc request) t r ->
  t = [] /\ validate request <> Ok tt
  \/ exists lock t',
       t = did (AcquireLock (lock_resource (sv_project_dir svc)) LOCK_AGENT LOCK_INTENT) lock :: t'
       /\ if am_acquired lock
          then exists body released,
                 t' = (body ++ [did (ReleaseLock (lock_resource (sv_project_dir svc))
                                       (am_lock_id lock)) released])%list
                 /\ runs (apply_locked svc request) body r
          else t' = [] /\ is_ok r = false.
Proof.
  unfold apply. intros H. destruct (validate request) as [[]|]; [right|left].
  - runs_step. match type of H with runs (if negb (am_acquired ?l) then _ else _) _ _ => exists l end.
    eexists. split; [reflexivity|]. destruct (am_acquired _); cbn [negb] in H.
    + runs_step. runs_step. apply runs_ret in H as [-> <-].
      match goal with H : runs (apply_locked _ _) ?b _ |- _ => exists b end.
      eexists. split; [reflexivity|done].
    + apply runs_ret in H as [-> <-]. done.
  - apply runs_ret in H as [-> <-]. done.
Qed.

(** The lock does not keep two cleanups apart: every cleanup asks as the
    holder [LOCK_AGENT], and the registry answers a holder that it has the lock.
    A second apply that asks while the first holds the lock is granted it at
    once, with the first one's identifier; when either of them finishes, its
    release frees the lock of the other. *)
Theorem cleanups_share_the_lock now now' uuid uuid' resource reg :
  locks reg !! resource = None ->
  let '(held, first) := acquire_fast now uuid resource LOCK_AGENT LOCK_INTENT LOCK_ESTIMATE reg in
  let '(reg', second) := acquire_fast now' uuid' resource LOCK_AGENT LOCK_INTENT LOCK_ESTIMATE held in
  first = Some {| am_acquired := true; am_lock_id := uuid; am_holder_intent := LOCK_INTENT |}
  /\ second = first /\ reg' = held
  /\ locks <$> release_lock resource uuid held = Some (locks reg).
Proof.
  intros Hfree. unfold acquire_fast. rewrite Hfree. cbn. rewrite lookup_insert_eq. cbn.
  split; [done|]. split; [done|]. split; [done|]. unfold release_lock. cbn.
  rewrite lookup_insert_eq. cbn. rewrite String.eqb_refl. cbn. f_equal.
  rewrite delete_insert_eq. by apply delete_id.
Qed.
