(* ===== verification/GitEvidence.v ===== *)
(** * Git locks: data, calls, the evidence and its encoding

    First the data and the calls all parts share.  Then the structures that are written to the event log, with what
    [#[derive(Serialize, Deserialize)]] makes of them as [serde_json::Value]s.
    A decoded structure is an object with all its fields, whatever else it has,
    or the array of its fields. *)

From stdpp Require Import pretty.
From S2P Require Import Prelude RustStr JsonValue Paths Effects.

(** * Git locks: data and calls

    The data of [services/git_mutation.rs], [git_lock_owner.rs],
    [git_lock_recovery.rs] and [git_legacy_lock.rs], and the calls these files
    make: file metadata, open files, advisory locks, [/proc], [git rev-parse], the
    clock, and the append to the event log.  Every call may be answered by a world
    that has changed since the one before. *)

Local Open Scope string_scope.

(** ** The file system *)

(** [io::ErrorKind], with what it prints. *)
Inductive io_error :=
| NotFound | AlreadyExists | PermissionDenied | InvalidInput | OtherError (text : string).
#[export] Instance io_error_eq_dec : EqDecision io_error.
Proof. solve_decision. Defined.
Definition error_kind (e : io_error) : string :=
  match e with
  | NotFound => "entity not found"
  | AlreadyExists => "entity already exists"
  | PermissionDenied => "permission denied"
  | InvalidInput => "invalid input parameter"
  | OtherError text => text
  end.

Inductive FileKind := RegularFile | Directory | Symlink | OtherFile.
#[export] Instance FileKind_eq_dec : EqDecision FileKind.
Proof. solve_decision. Defined.
Record Metadata := {
  md_kind : FileKind;
  md_dev : Z;
  md_ino : Z;
  md_len : Z;
  md_mtime : Z;
  md_mtime_nsec : Z;
  md_ctime : Z;
  md_ctime_nsec : Z
}.
#[export] Instance Metadata_eq_dec : EqDecision Metadata.
Proof. solve_decision. Defined.
Definition is_symlink (m : Metadata) : bool := bool_decide (md_kind m = Symlink).
Definition is_file (m : Metadata) : bool := bool_decide (md_kind m = RegularFile).
Definition is_directory (m : Metadata) : bool := bool_decide (md_kind m = Directory).

(** The device and inode, and with them everything a change of the content or the
    name touches. *)
Definition same_inode (a b : Metadata) : bool :=
  (md_dev a =? md_dev b)%Z && (md_ino a =? md_ino b)%Z.
Definition same_times (a b : Metadata) : bool :=
  (md_len a =? md_len b)%Z && (md_mtime a =? md_mtime b)%Z
  && (md_mtime_nsec a =? md_mtime_nsec b)%Z && (md_ctime a =? md_ctime b)%Z
  && (md_ctime_nsec a =? md_ctime_nsec b)%Z.
Definition same_file (a b : Metadata) : bool := same_inode a b && same_times a b.

Definition handle := Z.
Inductive LockReply := Locked | LockBusy | LockFailed (error : string).
(** [killpg] without a signal. *)
Inductive KillReply := KillDelivered | KillForbidden | KillNoGroup | KillFailed (error : string).
(** A spawned [git rev-parse]; the output is [None] when it is not UTF-8. *)
Inductive RevParsed := RevSpawnError (e : io_error) | RevExit (code : option Z) (stdout : option string).

(** ** Calls and answers

    [Exhausted] is no call of the program: it marks where a loop that waits is no
    longer followed. *)

Inductive call :=
| EnvIndexFile
| RevParse (dir : PathBuf) (args : list string) (index_override : option string)
| Canonicalize (p : PathBuf)
| IsDir (p : PathBuf)
| PathExists (p : PathBuf)
| SymlinkMetadata (p : PathBuf)
| FollowMetadata (p : PathBuf)
| CreateDir (p : PathBuf)
| ReadDir (p : PathBuf)
| ReadToString (p : PathBuf)
| OpenLease (p : PathBuf)
| OpenRead (p : PathBuf)
| OpenDirectory (p : PathBuf)
| Fstat (h : handle)
| ReadFile (h : handle)
| TryLockExclusive (h : handle)
| TryLockShared (h : handle)
| SetLen (h : handle) (len : Z)
| SeekStart (h : handle)
| WriteAll (h : handle) (bytes : string)
| SyncData (h : handle)
| SyncAll (h : handle)
| RenameNoReplace (source_dir : handle) (source : string) (target_dir : handle) (target : string)
| KillGroup (group : Z)
| ProcessId
| Now
| Sleep (nanos : Z)
| Exhausted
| AppendEvent (event_type agent : string) (data : json).

Definition reply (c : call) : Type :=
  match c with
  | EnvIndexFile => option string
  | RevParse _ _ _ => RevParsed
  | Canonicalize _ => result PathBuf io_error
  | IsDir _ | PathExists _ => bool
  | SymlinkMetadata _ | FollowMetadata _ | Fstat _ => result Metadata io_error
  | CreateDir _ => result unit io_error
  | ReadDir _ => result (list (result string io_error)) io_error
  | ReadToString _ => result string io_error
  | OpenLease _ | OpenRead _ | OpenDirectory _ => result handle io_error
  | ReadFile _ => (list string * option io_error)%type
  | TryLockExclusive _ | TryLockShared _ => LockReply
  | SetLen _ _ | SeekStart _ | WriteAll _ _ | SyncData _ | SyncAll _ => result unit io_error
  | RenameNoReplace _ _ _ _ => result unit io_error
  | KillGroup _ => KillReply
  | ProcessId => Z
  | Now => Z
  | Sleep _ | Exhausted => unit
  | AppendEvent _ _ _ => option string
  end.

Definition IO (A : Type) : Type := prog reply A.
Notation call_world := (@perform call reply).

(** ** Errors *)

Inductive GitMutationError :=
| Uncertain (path : PathBuf) (reason : string)
| Busy (resource : string) (path : PathBuf) (waited_ms : Z)
| InvalidOperationId.

Definition display_error (e : GitMutationError) : string :=
  match e with
  | Uncertain path reason => "Git mutation readiness is uncertain for " ++ display path ++ ": " ++ reason
  | Busy resource path waited_ms =>
      "Git mutation lease for " ++ resource ++ " remained busy at " ++ display path
      ++ " for " ++ pretty waited_ms ++ "ms"
  | InvalidOperationId => "Git operation identity must be 1–128 printable non-space ASCII characters"
  end.

(** ** Paths and leases *)

Record GitMutationPaths := {
  worktree_root : PathBuf;
  git_dir : PathBuf;
  common_git_dir : PathBuf;
  index_file : PathBuf;
  index_lock_file : PathBuf;
  index_lease_file : PathBuf;
  refs_lease_file : PathBuf
}.
#[export] Instance GitMutationPaths_eq_dec : EqDecision GitMutationPaths.
Proof. solve_decision. Defined.

Inductive GitMutationResource := SharedRefs | Index.
#[export] Instance GitMutationResource_eq_dec : EqDecision GitMutationResource.
Proof. solve_decision. Defined.

Definition lease_path (r : GitMutationResource) (paths : GitMutationPaths) : PathBuf :=
  match r with SharedRefs => refs_lease_file paths | Index => index_lease_file paths end.
Definition label (r : GitMutationResource) : string :=
  match r with SharedRefs => "shared Git refs" | Index => "worktree index" end.

Record GitMutationLease := {
  le_lock : handle;
  le_paths : GitMutationPaths;
  le_resource : GitMutationResource;
  le_operation_id : string;
  le_index_override : option string
}.

Local Open Scope string_scope.

(** ** Decoding *)

Definition fields (names : list string) (j : json) : option (list json) :=
  match j with
  | JObj m => mapM (fun k => obj_get k m) names
  | JArr l => if Nat.eqb (length l) (length names) then Some l else None
  | _ => None
  end.

Definition as_bool (j : json) : option bool := match j with JBool b => Some b | _ => None end.
Definition in_u32 (n : Z) : bool := ((0 <=? n) && (n <=? u32_max))%Z.
Definition as_u32 (j : json) : option Z :=
  n ← as_u64 j; if in_u32 n then Some n else None.
Definition as_path (j : json) : option PathBuf := parse_path <$> as_str j.
(** [Path]s are written as their text. *)
Definition JPath (p : PathBuf) : json := JStr (display p).

(** [Value::get]. *)
Definition member (k : string) (j : json) : option json := m ← as_object j; obj_get k m.
Definition member_str (k : string) (j : json) : option string := v ← member k j; as_str v.
Definition member_u64 (k : string) (j : json) : option Z := v ← member k j; as_u64 v.
Definition member_u32 (k : string) (j : json) : option Z := v ← member k j; as_u32 v.

(** ** Processes, locks and index files *)

Record ManagedProcessIdentity := { mp_pid : Z; mp_start_time_ticks : Z }.
#[export] Instance ManagedProcessIdentity_eq_dec : EqDecision ManagedProcessIdentity.
Proof. solve_decision. Defined.
Definition process_names : list string := ["pid"; "start_time_ticks"].
Definition process_fields (p : ManagedProcessIdentity) : list (string * json) :=
  [("pid", JNum (mp_pid p)); ("start_time_ticks", JNum (mp_start_time_ticks p))].
Definition process_json (p : ManagedProcessIdentity) : json := jobj (process_fields p).
Definition process_of_json (j : json) : option ManagedProcessIdentity :=
  match fields process_names j with
  | Some [pid; ticks] =>
      pid ← as_u32 pid; ticks ← as_u64 ticks;
      Some {| mp_pid := pid; mp_start_time_ticks := ticks |}
  | _ => None
  end.

Record NativeGitLockSnapshot := {
  nl_device : Z;
  nl_inode : Z;
  nl_size : Z;
  nl_modified_seconds : Z;
  nl_modified_nanoseconds : Z;
  nl_changed_seconds : Z;
  nl_changed_nanoseconds : Z;
  nl_contents_sha256 : string
}.
#[export] Instance NativeGitLockSnapshot_eq_dec : EqDecision NativeGitLockSnapshot.
Proof. solve_decision. Defined.
Definition file_names : list string :=
  ["device"; "inode"; "size"; "modified_seconds"; "modified_nanoseconds"; "changed_seconds";
   "changed_nanoseconds"; "contents_sha256"].
Definition lock_fields (s : NativeGitLockSnapshot) : list (string * json) :=
  [("device", JNum (nl_device s)); ("inode", JNum (nl_inode s)); ("size", JNum (nl_size s));
   ("modified_seconds", JNum (nl_modified_seconds s));
   ("modified_nanoseconds", JNum (nl_modified_nanoseconds s));
   ("changed_seconds", JNum (nl_changed_seconds s));
   ("changed_nanoseconds", JNum (nl_changed_nanoseconds s));
   ("contents_sha256", JStr (nl_contents_sha256 s))].
Definition lock_json (s : NativeGitLockSnapshot) : json := jobj (lock_fields s).
Definition lock_of_json (j : json) : option NativeGitLockSnapshot :=
  match fields file_names j with
  | Some [dev; ino; len; ms; mn; cs; cn; sha] =>
      dev ← as_u64 dev; ino ← as_u64 ino; len ← as_u64 len;
      ms ← as_i64 ms; mn ← as_i64 mn; cs ← as_i64 cs; cn ← as_i64 cn; sha ← as_str sha;
      Some {| nl_device := dev; nl_inode := ino; nl_size := len; nl_modified_seconds := ms;
              nl_modified_nanoseconds := mn; nl_changed_seconds := cs;
              nl_changed_nanoseconds := cn; nl_contents_sha256 := sha |}
  | _ => None
  end.
Definition snapshot_of (m : Metadata) (contents_sha256 : string) : NativeGitLockSnapshot :=
  {| nl_device := md_dev m; nl_inode := md_ino m; nl_size := md_len m;
     nl_modified_seconds := md_mtime m; nl_modified_nanoseconds := md_mtime_nsec m;
     nl_changed_seconds := md_ctime m; nl_changed_nanoseconds := md_ctime_nsec m;
     nl_contents_sha256 := contents_sha256 |}.

(** The same file content under the same inode; the change time moves with a
    rename. *)
Definition same_quarantined_inode (a b : NativeGitLockSnapshot) : bool :=
  (nl_device a =? nl_device b)%Z && (nl_inode a =? nl_inode b)%Z && (nl_size a =? nl_size b)%Z
  && (nl_modified_seconds a =? nl_modified_seconds b)%Z
  && (nl_modified_nanoseconds a =? nl_modified_nanoseconds b)%Z
  && String.eqb (nl_contents_sha256 a) (nl_contents_sha256 b).

Record GitFileFingerprint := {
  gf_device : Z;
  gf_inode : Z;
  gf_size : Z;
  gf_modified_seconds : Z;
  gf_modified_nanoseconds : Z;
  gf_changed_seconds : Z;
  gf_changed_nanoseconds : Z;
  gf_contents_sha256 : string
}.
#[export] Instance GitFileFingerprint_eq_dec : EqDecision GitFileFingerprint.
Proof. solve_decision. Defined.
Definition fingerprint_fields (s : GitFileFingerprint) : list (string * json) :=
  [("device", JNum (gf_device s)); ("inode", JNum (gf_inode s)); ("size", JNum (gf_size s));
   ("modified_seconds", JNum (gf_modified_seconds s));
   ("modified_nanoseconds", JNum (gf_modified_nanoseconds s));
   ("changed_seconds", JNum (gf_changed_seconds s));
   ("changed_nanoseconds", JNum (gf_changed_nanoseconds s));
   ("contents_sha256", JStr (gf_contents_sha256 s))].
Definition fingerprint_json (s : GitFileFingerprint) : json := jobj (fingerprint_fields s).
Definition fingerprint_of_json (j : json) : option GitFileFingerprint :=
  match fields file_names j with
  | Some [dev; ino; len; ms; mn; cs; cn; sha] =>
      dev ← as_u64 dev; ino ← as_u64 ino; len ← as_u64 len;
      ms ← as_i64 ms; mn ← as_i64 mn; cs ← as_i64 cs; cn ← as_i64 cn; sha ← as_str sha;
      Some {| gf_device := dev; gf_inode := ino; gf_size := len; gf_modified_seconds := ms;
              gf_modified_nanoseconds := mn; gf_changed_seconds := cs;
              gf_changed_nanoseconds := cn; gf_contents_sha256 := sha |}
  | _ => None
  end.

(** ** Proofs of ownership and their audit *)

Record ManagedNativeLockProof := {
  pf_schema_version : Z;
  pf_operation_id_sha256 : string;
  pf_worktree_root : string;
  pf_worktree_root_sha256 : string;
  pf_git_dir : string;
  pf_git_dir_sha256 : string;
  pf_common_git_dir : string;
  pf_common_git_dir_sha256 : string;
  pf_index_file : string;
  pf_index_file_sha256 : string;
  pf_index_lock_file : string;
  pf_index_lock_file_sha256 : string;
  pf_index_lease_file_sha256 : string;
  pf_owner : ManagedProcessIdentity;
  pf_lock : NativeGitLockSnapshot
}.
#[export] Instance ManagedNativeLockProof_eq_dec : EqDecision ManagedNativeLockProof.
Proof. solve_decision. Defined.
Definition proof_names : list string :=
  ["schema_version"; "operation_id_sha256"; "worktree_root"; "worktree_root_sha256"; "git_dir";
   "git_dir_sha256"; "common_git_dir"; "common_git_dir_sha256"; "index_file"; "index_file_sha256";
   "index_lock_file"; "index_lock_file_sha256"; "index_lease_file_sha256"; "owner"; "lock"].
Definition proof_json (p : ManagedNativeLockProof) : json :=
  jobj [("schema_version", JNum (pf_schema_version p));
        ("operation_id_sha256", JStr (pf_operation_id_sha256 p));
        ("worktree_root", JStr (pf_worktree_root p));
        ("worktree_root_sha256", JStr (pf_worktree_root_sha256 p));
        ("git_dir", JStr (pf_git_dir p)); ("git_dir_sha256", JStr (pf_git_dir_sha256 p));
        ("common_git_dir", JStr (pf_common_git_dir p));
        ("common_git_dir_sha256", JStr (pf_common_git_dir_sha256 p));
        ("index_file", JStr (pf_index_file p)); ("index_file_sha256", JStr (pf_index_file_sha256 p));
        ("index_lock_file", JStr (pf_index_lock_file p));
        ("index_lock_file_sha256", JStr (pf_index_lock_file_sha256 p));
        ("index_lease_file_sha256", JStr (pf_index_lease_file_sha256 p));
        ("owner", process_json (pf_owner p)); ("lock", lock_json (pf_lock p))].
Definition proof_of_json (j : json) : option ManagedNativeLockProof :=
  match fields proof_names j with
  | Some [version; op; wr; wrd; gd; gdd; cd; cdd; ix; ixd; lk; lkd; lsd; owner; lock] =>
      version ← as_u32 version; op ← as_str op; wr ← as_str wr; wrd ← as_str wrd;
      gd ← as_str gd; gdd ← as_str gdd; cd ← as_str cd; cdd ← as_str cdd;
      ix ← as_str ix; ixd ← as_str ixd; lk ← as_str lk; lkd ← as_str lkd; lsd ← as_str lsd;
      owner ← process_of_json owner; lock ← lock_of_json lock;
      Some {| pf_schema_version := version; pf_operation_id_sha256 := op; pf_worktree_root := wr;
              pf_worktree_root_sha256 := wrd; pf_git_dir := gd; pf_git_dir_sha256 := gdd;
              pf_common_git_dir := cd; pf_common_git_dir_sha256 := cdd; pf_index_file := ix;
              pf_index_file_sha256 := ixd; pf_index_lock_file := lk;
              pf_index_lock_file_sha256 := lkd; pf_index_lease_file_sha256 := lsd;
              pf_owner := owner; pf_lock := lock |}
  | _ => None
  end.

Record QuarantineAuditData := {
  qa_schema_version : Z;
  qa_proof_event_id : string;
  qa_proof : ManagedNativeLockProof;
  qa_quarantine_file : string
}.
#[export] Instance QuarantineAuditData_eq_dec : EqDecision QuarantineAuditData.
Proof. solve_decision. Defined.
Definition audit_names : list string :=
  ["schema_version"; "proof_event_id"; "proof"; "quarantine_file"].
Definition audit_json (a : QuarantineAuditData) : json :=
  jobj [("schema_version", JNum (qa_schema_version a));
        ("proof_event_id", JStr (qa_proof_event_id a)); ("proof", proof_json (qa_proof a));
        ("quarantine_file", JStr (qa_quarantine_file a))].
Definition audit_of_json (j : json) : option QuarantineAuditData :=
  match fields audit_names j with
  | Some [version; id; proof; file] =>
      version ← as_u32 version; id ← as_str id; proof ← proof_of_json proof; file ← as_str file;
      Some {| qa_schema_version := version; qa_proof_event_id := id; qa_proof := proof;
              qa_quarantine_file := file |}
  | _ => None
  end.

Record QuarantineReceiptData := {
  qr_schema_version : Z;
  qr_proof_event_id : string;
  qr_intent_event_id : string;
  qr_proof : ManagedNativeLockProof;
  qr_quarantine_file : string;
  qr_quarantined_lock : NativeGitLockSnapshot
}.
#[export] Instance QuarantineReceiptData_eq_dec : EqDecision QuarantineReceiptData.
Proof. solve_decision. Defined.
Definition receipt_names : list string :=
  ["schema_version"; "proof_event_id"; "intent_event_id"; "proof"; "quarantine_file";
   "quarantined_lock"].
Definition receipt_json (r : QuarantineReceiptData) : json :=
  jobj [("schema_version", JNum (qr_schema_version r));
        ("proof_event_id", JStr (qr_proof_event_id r));
        ("intent_event_id", JStr (qr_intent_event_id r)); ("proof", proof_json (qr_proof r));
        ("quarantine_file", JStr (qr_quarantine_file r));
        ("quarantined_lock", lock_json (qr_quarantined_lock r))].
Definition receipt_of_json (j : json) : option QuarantineReceiptData :=
  match fields receipt_names j with
  | Some [version; id; intent; proof; file; lock] =>
      version ← as_u32 version; id ← as_str id; intent ← as_str intent;
      proof ← proof_of_json proof; file ← as_str file; lock ← lock_of_json lock;
      Some {| qr_schema_version := version; qr_proof_event_id := id; qr_intent_event_id := intent;
              qr_proof := proof; qr_quarantine_file := file; qr_quarantined_lock := lock |}
  | _ => None
  end.

(** [GitLockRecoveryReceipt]. *)
Record GitLockRecoveryReceipt := {
  gr_proof_event_id : string;
  gr_intent_event_id : string;
  gr_receipt_event_id : string;
  gr_quarantine_file : string;
  gr_lock : NativeGitLockSnapshot
}.
#[export] Instance GitLockRecoveryReceipt_eq_dec : EqDecision GitLockRecoveryReceipt.
Proof. solve_decision. Defined.

(** ** What survives the log *)

Definition process_fits (p : ManagedProcessIdentity) : Prop :=
  (0 <= mp_pid p <= u32_max /\ 0 <= mp_start_time_ticks p <= u64_max)%Z.
Definition lock_fits (s : NativeGitLockSnapshot) : Prop :=
  (0 <= nl_device s <= u64_max /\ 0 <= nl_inode s <= u64_max /\ 0 <= nl_size s <= u64_max
   /\ in_i64 (nl_modified_seconds s) /\ in_i64 (nl_modified_nanoseconds s)
   /\ in_i64 (nl_changed_seconds s) /\ in_i64 (nl_changed_nanoseconds s))%Z.
Definition fingerprint_fits (s : GitFileFingerprint) : Prop :=
  (0 <= gf_device s <= u64_max /\ 0 <= gf_inode s <= u64_max /\ 0 <= gf_size s <= u64_max
   /\ in_i64 (gf_modified_seconds s) /\ in_i64 (gf_modified_nanoseconds s)
   /\ in_i64 (gf_changed_seconds s) /\ in_i64 (gf_changed_nanoseconds s))%Z.
Definition proof_fits (p : ManagedNativeLockProof) : Prop :=
  (0 <= pf_schema_version p <= u32_max)%Z /\ process_fits (pf_owner p) /\ lock_fits (pf_lock p).

Lemma as_u64_num n : (0 <= n <= u64_max)%Z -> as_u64 (JNum n) = Some n.
Proof. intros [H1 H2]. cbn. by rewrite (proj2 (Z.leb_le _ _) H1), (proj2 (Z.leb_le _ _) H2). Qed.
Lemma as_i64_num n : in_i64 n -> as_i64 (JNum n) = Some n.
Proof. intros [H1 H2]. cbn. by rewrite (proj2 (Z.leb_le _ _) H1), (proj2 (Z.leb_le _ _) H2). Qed.
Lemma as_u32_num n : (0 <= n <= u32_max)%Z -> as_u32 (JNum n) = Some n.
Proof.
  intros H. unfold as_u32, in_u32. rewrite as_u64_num; [|unfold u64_max, u32_max in *; lia]. cbn.
  by rewrite (proj2 (Z.leb_le _ _) (proj1 H)), (proj2 (Z.leb_le _ _) (proj2 H)).
Qed.

(** Decode a structure that was just written: its fields are found by
    computation. *)
Ltac decode_fields f :=
  unfold f at 1;
  match goal with |- context [fields ?names ?j] =>
    let r := eval vm_compute in (fields names j) in
    replace (fields names j) with r by (vm_compute; reflexivity)
  end; cbn -[as_u32 as_u64 as_i64].

Lemma process_roundtrip p : process_fits p -> process_of_json (process_json p) = Some p.
Proof.
  intros [H1 H2]. destruct p as [pid ticks]. decode_fields process_of_json.
  by rewrite as_u32_num; cbn -[as_u64]; [rewrite as_u64_num|].
Qed.
Lemma lock_roundtrip s : lock_fits s -> lock_of_json (lock_json s) = Some s.
Proof.
  intros (?&?&?&?&?&?&?). destruct s. decode_fields lock_of_json.
  repeat (rewrite as_u64_num by done; cbn -[as_u64 as_i64]).
  repeat (rewrite as_i64_num by done; cbn -[as_i64]). done.
Qed.
Lemma fingerprint_roundtrip s : fingerprint_fits s -> fingerprint_of_json (fingerprint_json s) = Some s.
Proof.
  intros (?&?&?&?&?&?&?). destruct s. decode_fields fingerprint_of_json.
  repeat (rewrite as_u64_num by done; cbn -[as_u64 as_i64]).
  repeat (rewrite as_i64_num by done; cbn -[as_i64]). done.
Qed.

Lemma proof_roundtrip p : proof_fits p -> proof_of_json (proof_json p) = Some p.
Proof.
  intros (Hv & Ho%process_roundtrip & Hl%lock_roundtrip). destruct p. cbn in Ho, Hl |- *.
  unfold proof_json. cbn -[jobj process_json lock_json].
  generalize dependent (process_json pf_owner0). generalize dependent (lock_json pf_lock0).
  intros jl Hl jo Ho. decode_fields proof_of_json.
  rewrite as_u32_num by done. cbn. rewrite Ho. cbn. by rewrite Hl.
Qed.
Lemma audit_roundtrip a :
  (0 <= qa_schema_version a <= u32_max)%Z -> proof_fits (qa_proof a) ->
  audit_of_json (audit_json a) = Some a.
Proof.
  intros Hv Hp%proof_roundtrip. destruct a. cbn in Hp, Hv |- *.
  unfold audit_json. cbn -[jobj proof_json]. generalize dependent (proof_json qa_proof0).
  intros jp Hp. decode_fields audit_of_json. rewrite as_u32_num by done. cbn. by rewrite Hp.
Qed.
Lemma receipt_roundtrip r :
  (0 <= qr_schema_version r <= u32_max)%Z -> proof_fits (qr_proof r) ->
  lock_fits (qr_quarantined_lock r) -> receipt_of_json (receipt_json r) = Some r.
Proof.
  intros Hv Hp%proof_roundtrip Hl%lock_roundtrip. destruct r. cbn in Hp, Hl, Hv |- *.
  unfold receipt_json. cbn -[jobj proof_json lock_json].
  generalize dependent (proof_json qr_proof0). generalize dependent (lock_json qr_quarantined_lock0).
  intros jl Hl jp Hp. decode_fields receipt_of_json. rewrite as_u32_num by done.
  cbn. rewrite Hp. cbn. by rewrite Hl.
Qed.
