(* ===== verification/GitPoll.v ===== *)
(** * Git locks: waiting

    The three loops that wait for a lock try, look at the clock, sleep and try
    again until a deadline.  Under a clock that does not go back and that sleeping
    moves, they end: the rounds of [retry_until] are enough. *)

From S2P Require Import Prelude Effects GitEvidence.

Definition trace := list (event reply).
Definition millis (n : Z) : Z := (n * 1000000)%Z.

(** One round: a result, or the reason to wait. *)
Fixpoint poll {A B} (fuel : nat) (interval deadline : Z) (attempt : IO (A + B)) (on_timeout : B -> IO A)
  : IO A :=
  (do r <- attempt;
   match r with
   | inl a => Ret a
   | inr b =>
       do now <- call_world Now;
       if (now <? deadline)%Z then
         match fuel with
         | O => do _ <- call_world Exhausted; on_timeout b
         | S fuel =>
             do now <- call_world Now;
             do _ <- call_world (Sleep (Z.min interval (Z.max 0 (deadline - now))));
             poll fuel interval deadline attempt on_timeout
         end
       else on_timeout b
   end)%prog.

Definition rounds (interval wait : Z) : nat := S (Z.to_nat (wait / interval)).

(** [let deadline = Instant::now() + wait; loop { ... }]; [on_timeout] also gets the
    time at the start. *)
Definition retry_until {A B} (interval wait : Z) (attempt : IO (A + B)) (on_timeout : Z -> B -> IO A)
  : IO A :=
  (do started <- call_world Now;
   poll (rounds interval wait) interval (started + wait)%Z attempt (on_timeout started))%prog.

(** ** A clock *)

(** The times read do not go back, and a sleep lasts. *)
Definition tick (low : Z) (e : event reply) : Z :=
  match e with
  | existT c r =>
      match c return reply c -> Z with
      | Now => fun r => r
      | Sleep d => fun _ => low + Z.max 0 d
      | _ => fun _ => low
      end r
  end%Z.
Definition on_time (low : Z) (e : event reply) : Prop := (low <= tick low e)%Z.
Fixpoint clock_ok (low : Z) (t : trace) : Prop :=
  match t with
  | [] => True
  | e :: t => on_time low e /\ clock_ok (tick low e) t
  end.
Definition later (low : Z) (t : trace) : Z := foldl tick low t.

Lemma clock_ok_app low t t' : clock_ok low (t ++ t')%list <-> clock_ok low t /\ clock_ok (later low t) t'.
Proof.
  revert low. induction t as [|e t IH]; intros low; cbn; [tauto|]. rewrite IH. tauto.
Qed.
Lemma later_ge low t : clock_ok low t -> (low <= later low t)%Z.
Proof.
  revert low. induction t as [|e t IH]; intros low; cbn; [lia|]. intros [H1 H2%IH].
  unfold on_time, later in *. lia.
Qed.

(** A program that is followed to its end whenever the clock runs. *)
Definition followed (t : trace) : Prop := ~ seen t Exhausted tt.
Definition punctual {A} (p : IO A) : Prop :=
  forall low t a, runs p t a -> clock_ok low t -> followed t.

Lemma followed_app t t' : followed t -> followed t' -> followed (t ++ t')%list.
Proof. unfold followed. rewrite seen_app. tauto. Qed.

Lemma punctual_ret {A} (a : A) : punctual (Ret a).
Proof. intros low t b [-> _]%runs_ret _ H. exact H. Qed.
Lemma punctual_bind {A B} (p : IO A) (f : A -> IO B) :
  punctual p -> (forall a, punctual (f a)) -> punctual (pbind p f).
Proof.
  intros Hp Hf low t b (t1 & a & t2 & -> & H1 & H2)%runs_bind_inv [C1 C2]%clock_ok_app.
  apply followed_app; [by eapply Hp|by eapply Hf].
Qed.
Lemma punctual_bind_ok {A B E} (p : IO (result A E)) (f : A -> IO (result B E)) :
  punctual p -> (forall a, punctual (f a)) -> punctual (pbind_ok p f).
Proof. intros Hp Hf. apply punctual_bind; [done|]. intros [a|e]; [done|apply punctual_ret]. Qed.
Lemma punctual_map_error {A E E'} (f : E -> E') (p : IO (result A E)) :
  punctual p -> punctual (map_error f p).
Proof. intros Hp. apply punctual_bind; [done|]. intros ?. apply punctual_ret. Qed.

Lemma punctual_call c : c <> Exhausted -> punctual (call_world c).
Proof.
  intros Hc low t r R _ H. apply (@runs_call call reply c) in R. subst.
  destruct H as [H|[]]. apply Hc. by apply (f_equal (@projT1 _ _)) in H.
Qed.

Section poll.
Context {A B : Type} (interval deadline : Z) (attempt : IO (A + B)) (on_timeout : B -> IO A).
Context (Hi : (0 < interval)%Z) (Ha : punctual attempt) (Hg : forall b, punctual (on_timeout b)).

Lemma poll_punctual fuel low t a :
  runs (poll fuel interval deadline attempt on_timeout) t a -> clock_ok low t ->
  (deadline - low <= Z.of_nat fuel * interval)%Z -> followed t.
Proof.
  revert low t. induction fuel as [|fuel IH]; intros low t R C Hd; cbn in R.
  all: apply runs_bind_inv in R as (t1 & r & t2 & -> & H1 & R); apply clock_ok_app in C as [C1 C].
  all: apply followed_app; [by eapply Ha|]; apply later_ge in C1.
  all: destruct r as [a'|b]; [by apply runs_ret in R as [-> _]; intros []|].
  all: apply runs_inv in R as (now & t3 & -> & R); destruct C as [Hn C]; cbn in Hn, C.
  all: apply (followed_app [_]); [by intros [[=]|[]]|].
  all: destruct (now <? deadline)%Z eqn:E; [|by eapply Hg].
  - apply Z.ltb_lt in E. unfold on_time in Hn. cbn in Hn. lia.
  - apply runs_inv in R as (now' & t4 & -> & R). destruct C as [Hn' C]. cbn in Hn', C.
    apply runs_inv in R as (u & t5 & -> & R). destruct C as [_ C]. cbn in C.
    apply (followed_app [_; _]); [by intros [[=]|[[=]|[]]]|].
    eapply IH; [exact R|exact C|]. unfold on_time in Hn, Hn'. cbn in Hn, Hn'. nia.
Qed.
End poll.

(** A clock that advances ends every loop that waits. *)
Lemma retry_until_punctual {A B} interval wait (attempt : IO (A + B)) on_timeout :
  (0 < interval)%Z -> (0 <= wait)%Z -> punctual attempt ->
  (forall started b, punctual (on_timeout started b)) ->
  punctual (retry_until interval wait attempt on_timeout).
Proof.
  intros Hi Hw Ha Hg low t a R C. apply runs_inv in R as (started & t' & -> & R).
  destruct C as [_ C]. apply (followed_app [_]); [by intros [[=]|[]]|].
  eapply poll_punctual; [exact Hi|exact Ha|apply Hg|exact R|exact C|].
  cbn. unfold rounds. pose proof (Z.div_mod wait interval). pose proof (Z.mod_pos_bound wait interval Hi).
  assert (0 <= wait / interval)%Z by (apply Z.div_pos; lia). nia.
Qed.

(** What comes out of a loop comes from its last round: a result, or giving up when
    the deadline has passed. *)
Section result.
Context {A B : Type} (interval deadline : Z) (attempt : IO (A + B)) (on_timeout : B -> IO A).

Definition gave_up (t : trace) (a : A) : Prop :=
  exists b, performed t attempt (inr b) /\ performed t (on_timeout b) a
    /\ (seen t Exhausted tt \/ exists now, seen t Now now /\ (deadline <= now)%Z).

Lemma gave_up_r t t' a : gave_up t' a -> gave_up (t ++ t')%list a.
Proof.
  intros (b & H1 & H2 & [H3|(now & H3 & Hn)]); exists b; (split; [by apply performed_r|]);
    (split; [by apply performed_r|]); [left; by apply seen_r|right].
  exists now. split; [by apply seen_r|done].
Qed.

Lemma poll_result fuel t a :
  runs (poll fuel interval deadline attempt on_timeout) t a ->
  performed t attempt (inl a) \/ gave_up t a.
Proof.
  revert t. induction fuel as [|fuel IH]; intros t R; cbn in R.
  all: apply runs_bind_inv in R as (t1 & [a'|b] & t2 & -> & H1 & R);
    [apply runs_ret in R as [-> ->]; left; by apply performed_l, performed_here|].
  all: apply runs_inv in R as (now & t3 & -> & R).
  all: destruct (now <? deadline)%Z eqn:E;
    [|right; exists b; split; [by apply performed_l, performed_here|];
      split; [by apply performed_r, (performed_r [_]), performed_here|right]; exists now;
      split; [by apply seen_r, seen_here|by apply Z.ltb_ge]].
  - apply runs_inv in R as (u & t4 & -> & R). right. exists b.
    split; [by apply performed_l, performed_here|].
    split; [by apply performed_r, (performed_r [_; _]), performed_here|left].
    apply seen_r. right. left. by destruct u.
  - apply runs_inv in R as (now' & t4 & -> & R). apply runs_inv in R as (u & t5 & -> & R).
    apply IH in R as [R|R]; [left; by apply performed_r, (performed_r [_; _; _])|].
    right. by apply gave_up_r, (gave_up_r [_; _; _]).
Qed.
End result.

(** Every round of a loop is allowed, and so is giving up. *)
Lemma allowed_retry {A B} ok past i w (attempt : IO (A + B)) on_timeout :
  (forall past, ok past (did Exhausted tt) /\ (forall now, ok past (did Now now))
                /\ forall n u, ok past (did (Sleep n) u)) ->
  (forall past, allowed ok past attempt) -> (forall past s b, allowed ok past (on_timeout s b)) ->
  allowed ok past (retry_until i w attempt on_timeout).
Proof.
  intros Hk Ha Hg started. split; [apply Hk|].
  generalize (past ++ [did Now started])%list. generalize (rounds i w). clear past.
  induction n as [|n IH]; intros past; cbn.
  all: apply always_bind; eapply always_mono; [|apply Ha]; intros past' [a|b] _; [exact I|].
  all: intros now; (split; [apply Hk|]); destruct (now <? started + w)%Z; [|apply Hg].
  - intros []. split; [apply Hk|apply Hg].
  - intros now'. split; [apply Hk|]. intros u. split; [apply Hk|apply IH].
Qed.

Create HintDb punctual discriminated.
#[export] Hint Resolve punctual_ret : punctual.

(** Down the structure of a program to its loops. *)
Ltac punctual_step :=
  match goal with
  | |- punctual (pbind _ _) => apply punctual_bind; [|intros ?]
  | |- punctual (pbind_ok _ _) => apply punctual_bind_ok; [|intros ?]
  | |- punctual (map_error _ _) => apply punctual_map_error
  | |- punctual (Ret _) => apply punctual_ret
  | |- punctual (lift _) => apply punctual_ret
  | |- punctual (call_world ?c) => by apply (punctual_call c)
  | |- punctual (match ?x with _ => _ end) => destruct x
  end.
Ltac punctual_solve := repeat first [progress (auto with punctual nocore) | punctual_step].
