(* ===== verification/GitLedger.v ===== *)
(** * Git locks: reading the ledger

    [services/git_recovery_ledger.rs]: the recovery events of some types, read
    under the shared append lock, with every file checked before and after.  Lines
    of other types only have to be JSON objects. *)

From stdpp Require Import pretty.
From S2P Require Import Prelude RustStr JsonValue SqlTable Ledger Paths Effects GitEvidence GitPoll.
Local Open Scope string_scope.

Record GitRecoveryEvent := { ge_event_id : string; ge_event_type : string; ge_data : json }.
#[export] Instance GitRecoveryEvent_eq_dec : EqDecision GitRecoveryEvent.
Proof. solve_decision. Defined.

Definition MAX_EVENT_BYTES : Z := (16 * 1024 * 1024)%Z.
Definition LOCK_POLL : Z := millis 10.
(** [Duration::from_secs(2)]. *)
Definition LEDGER_WAIT : Z := millis 2000.

(** ** One line *)

Definition event_identity (object : list (string * json)) : result string string :=
  let primary := v ← obj_get "event_id" object; as_str v in
  let alias := v ← obj_get "id" object; as_str v in
  match (match primary with Some id => Some id | None => alias end) with
  | Some id =>
      if str_is_empty id then Err "Git recovery event has no durable event identity"
      else match primary, alias with
           | Some p, Some a =>
               if String.eqb p a then Ok id
               else Err "Git recovery event has conflicting event identity aliases"
           | _, _ => Ok id
           end
  | None => Err "Git recovery event has no durable event identity"
  end.

(** The type of a line, [None] when it has none. *)
Definition event_type_of (object : list (string * json)) : result (option string) string :=
  match obj_get "type" object, obj_get "event_type" object with
  | Some (JStr l), Some (JStr r) =>
      if String.eqb l r then Ok (Some l)
      else Err "TL ledger event has conflicting type aliases"
  | Some (JStr value), _ => Ok (Some value)
  | _, Some (JStr value) => Ok (Some value)
  | None, None => Ok None
  | _, _ => Err "TL ledger event type is malformed"
  end.

Definition select_event (selected_types : list string) (document : json)
  : result (option GitRecoveryEvent) string :=
  match as_object document with
  | None => Err "TL ledger event is not a JSON object"
  | Some object =>
      let? event_type := event_type_of object in
      match event_type with
      | None => Ok None
      | Some event_type =>
          if bool_decide (event_type ∈ selected_types) then
            let? event_id := event_identity object in
            match obj_get "data" object with
            | Some (JObj m) =>
                Ok (Some {| ge_event_id := event_id; ge_event_type := event_type;
                            ge_data := JObj m |})
            | _ => Err "Git recovery ledger event has malformed data"
            end
          else Ok None
      end
  end.

(** ** One segment *)

Section ledger.
Context `{JsonText}.

Definition read_line (selected_types : list string) (line : string)
  : result (option GitRecoveryEvent) string :=
  match json_from_string line with
  | None => Err "TL ledger contains malformed JSON evidence"
  | Some document => select_event selected_types document
  end.

(** A line with its newline, within the limit. *)
Definition bounded (bytes : Z) : result unit string :=
  ensure (bytes <=? MAX_EVENT_BYTES)%Z "TL ledger event exceeds the recovery read limit".

Definition push (selected : list GitRecoveryEvent) (e : option GitRecoveryEvent)
  : list GitRecoveryEvent :=
  match e with Some e => (selected ++ [e])%list | None => selected end.

(** The pieces between newlines; the last one is not terminated, and is where a
    failing read stops. *)
Fixpoint read_pieces (selected_types pieces : list string) (stopped : option io_error)
    (selected : list GitRecoveryEvent) : result (list GitRecoveryEvent) string :=
  match pieces with
  | [] => Ok selected
  | [rest] =>
      let? _ := bounded (str_len rest) in
      match stopped with
      | Some e => Err ("cannot read TL ledger segment: " ++ error_kind e)
      | None =>
          if str_is_empty rest then Ok selected
          else let? e := read_line selected_types rest in Ok (push selected e)
      end
  | line :: pieces =>
      let? _ := bounded (str_len line + 1) in
      let? e := read_line selected_types line in
      read_pieces selected_types pieces stopped (push selected e)
  end.

Definition read_lines_of (selected_types : list string) (reads : list string * option io_error)
    (selected : list GitRecoveryEvent) : result (list GitRecoveryEvent) string :=
  read_pieces selected_types (split_char LF (String.concat "" reads.1)) reads.2 selected.

Local Open Scope prog_scope.

Definition read_segment (segment : PathBuf) (selected_types : list string)
    (selected : list GitRecoveryEvent) : IO (result (list GitRecoveryEvent) string) :=
  do? before <- map_error (fun e => "cannot inspect ledger segment: " ++ error_kind e)
                  (call_world (SymlinkMetadata segment));
  require (negb (is_symlink before || negb (is_file before)))
    "TL ledger segment is not a regular file"
  (do? file <- map_error (fun e => "cannot open ledger segment: " ++ error_kind e)
                 (call_world (OpenRead segment));
   do? opened <- map_error (fun e => "cannot inspect opened ledger segment: " ++ error_kind e)
                   (call_world (Fstat file));
   require (same_file before opened) "TL ledger segment changed while opening"
   (do reads <- call_world (ReadFile file);
    do? selected <- lift (read_lines_of selected_types reads selected);
    do? after <- map_error (fun e => "ledger segment changed while reading: " ++ error_kind e)
                   (call_world (SymlinkMetadata segment));
    do? opened_after <- map_error (fun e => "cannot recheck opened ledger segment: " ++ error_kind e)
                          (call_world (Fstat file));
    require (same_file before after && same_file opened opened_after)
      "TL ledger segment changed while reading recovery evidence"
    (Ret (Ok selected)))).

(** ** The directory *)

Definition entry_names (entries : list (result string io_error)) : list string :=
  omap result_to_option entries.

Definition read_segment_paths (segments_dir : PathBuf) : IO (result (list PathBuf) string) :=
  do? entries <- map_error (fun e => "cannot enumerate TL ledger segments: " ++ error_kind e)
                   (call_world (ReadDir segments_dir));
  let names := insertion_sort String.leb (List.filter is_segment (entry_names entries)) in
  Ret (Ok (map (fun name => path_sub segments_dir [name]) names)).

(** A try of the lock: held, an error, or busy. *)
Definition try_shared (file : handle) : IO (result handle string + unit) :=
  do r <- call_world (TryLockShared file);
  Ret (match r with
       | Locked => inl (Ok file)
       | LockBusy => inr tt
       | LockFailed error => inl (Err ("cannot acquire shared TL ledger read lock: " ++ error))
       end).

Definition acquire_existing_shared_ledger_lock (segments_dir : PathBuf) (wait : Z)
  : IO (result (option handle) string) :=
  let path := path_sub segments_dir [".append.lock"] in
  do found <- call_world (SymlinkMetadata path);
  match found with
  | Err NotFound =>
      do? paths <- read_segment_paths segments_dir;
      match paths with
      | [] => Ret (Ok None)
      | _ => Ret (Err "TL ledger append lock is missing; process history is uncertain")
      end
  | Err e => Ret (Err ("cannot inspect TL ledger append lock: " ++ error_kind e))
  | Ok before =>
      require (negb (is_symlink before || negb (is_file before)))
        "TL ledger append lock is not a regular file"
      (do? file <- map_error (fun e => "cannot open TL ledger append lock: " ++ error_kind e)
                     (call_world (OpenRead path));
       do? opened <- map_error (fun e => "cannot inspect opened TL ledger append lock: " ++ error_kind e)
                       (call_world (Fstat file));
       do? current <- map_error (fun e => "TL ledger append lock changed: " ++ error_kind e)
                        (call_world (SymlinkMetadata path));
       require (same_file before opened && same_file before current)
         "TL ledger append lock changed while opening"
       (do? lock <- retry_until LOCK_POLL wait (try_shared file)
                      (fun _ _ => Ret (Err "shared TL ledger append lock remained busy"));
        Ret (Ok (Some lock))))
  end.

Fixpoint read_segments (segments : list PathBuf) (selected_types : list string)
    (selected : list GitRecoveryEvent) : IO (result (list GitRecoveryEvent) string) :=
  match segments with
  | [] => Ret (Ok selected)
  | segment :: segments =>
      do? selected <- read_segment segment selected_types selected;
      read_segments segments selected_types selected
  end.

(** [read_git_recovery_events] is this on [event_log.ledger().segments_dir()]. *)
Definition read_git_recovery_events_at (segments_dir : PathBuf) (selected_types : list string)
    (wait : Z) : IO (result (list GitRecoveryEvent) string) :=
  do found <- call_world (SymlinkMetadata segments_dir);
  match found with
  | Err NotFound => Ret (Ok [])
  | Err e => Ret (Err ("cannot inspect TL ledger directory: " ++ error_kind e))
  | Ok metadata =>
      require (negb (is_symlink metadata || negb (is_directory metadata)))
        "TL ledger segments path is not a regular directory"
      (do? _ <- acquire_existing_shared_ledger_lock segments_dir wait;
       do? segments <- read_segment_paths segments_dir;
       do? selected <- read_segments segments selected_types [];
       do? current <- map_error (fun e => "TL ledger directory changed while reading: " ++ error_kind e)
                        (call_world (SymlinkMetadata segments_dir));
       require (same_file metadata current)
         "TL ledger directory changed while reading recovery evidence"
       (Ret (Ok selected)))
  end.
End ledger.
