(* ===== verification/GitMutation.v ===== *)
(** * Git locks: paths and leases

    [services/git_mutation.rs]: the paths of a worktree's Git metadata, resolved
    through [git rev-parse] and checked, and the advisory leases on the shared
    references and on the index.  The platform is Linux. *)

From stdpp Require Import pretty.
From S2P Require Import Prelude RustStr JsonValue SqlTable Paths.
From S2P Require Import Effects GitEvidence GitPoll.
Local Open Scope string_scope.
Local Open Scope prog_scope.

Definition LEASE_DIRECTORY : string := "exomonad-mutation".
Definition LEASE_SCHEMA_VERSION : Z := 1.
Definition LEASE_POLL_INTERVAL : Z := millis 20.

Definition uncertain {A} (p : PathBuf) (reason : string) : result A GitMutationError :=
  Err (Uncertain p reason).
(** [map_err] of an [io::Error] that prints its kind. *)
Definition or_uncertain {A} (p : PathBuf) (what : string) (m : IO (result A io_error))
  : IO (result A GitMutationError) :=
  map_error (fun e => Uncertain p (what ++ " (" ++ error_kind e ++ ")")) m.

(** ** Checks of paths *)

Definition canonical_directory (p : PathBuf) (what : string) : IO (result PathBuf GitMutationError) :=
  do? canonical <- or_uncertain p ("cannot resolve " ++ what) (call_world (Canonicalize p));
  do dir <- call_world (IsDir canonical);
  require dir (Uncertain p (what ++ " is not a directory")) (Ret (Ok canonical)).

Definition reject_symlink (p : PathBuf) (what : string) : IO (result unit GitMutationError) :=
  do? metadata <- or_uncertain p ("cannot inspect " ++ what) (call_world (SymlinkMetadata p));
  require (negb (is_symlink metadata)) (Uncertain p (what ++ " is a symlink")) (Ret (Ok tt)).

Definition reject_optional_symlink (p : PathBuf) (what : string) : IO (result unit GitMutationError) :=
  do found <- call_world (SymlinkMetadata p);
  Ret (match found with
       | Ok metadata => if is_symlink metadata then uncertain p (what ++ " is a symlink") else Ok tt
       | Err NotFound => Ok tt
       | Err e => uncertain p ("cannot inspect " ++ what ++ " (" ++ error_kind e ++ ")")
       end).

Definition debug_code (code : option Z) : string :=
  match code with Some c => "Some(" ++ pretty c ++ ")" | None => "None" end.

Definition git_path_args (argument : string) : list string :=
  ["rev-parse"; "--path-format=absolute"]
  ++ (if String.eqb argument "--git-path index" then ["--git-path"; "index"] else [argument]).

Definition git_path (worktree : PathBuf) (argument : string) (index_override : option string)
  : IO (result string GitMutationError) :=
  do output <- call_world (RevParse worktree (git_path_args argument) index_override);
  Ret (match output with
       | RevSpawnError e => uncertain worktree ("cannot inspect Git paths (" ++ error_kind e ++ ")")
       | RevExit (Some 0%Z) (Some stdout) => Ok (str_trim stdout)
       | RevExit (Some 0%Z) None => uncertain worktree "git rev-parse returned a non-UTF-8 path"
       | RevExit code _ =>
           uncertain worktree ("git rev-parse " ++ argument ++ " failed (exit " ++ debug_code code ++ ")")
       end).

Definition absolute_from (base p : PathBuf) : PathBuf :=
  if pb_absolute p then p else path_join base p.

Definition canonicalize_leaf_parent (p : PathBuf) (what : string)
  : IO (result PathBuf GitMutationError) :=
  require (pb_absolute p) (Uncertain p "Git returned a non-absolute index path")
  match path_parent p with
  | None => Ret (uncertain p (what ++ " has no parent directory"))
  | Some parent =>
      do? parent <- or_uncertain parent ("cannot resolve " ++ what ++ " parent")
                      (call_world (Canonicalize parent));
      Ret (match path_file_name p with
           | None => uncertain p (what ++ " has no file name")
           | Some name => Ok (path_sub parent [name])
           end)
  end.

Definition validate_index_ownership (worktree git_dir common_git_dir index_file : PathBuf)
  : result unit GitMutationError :=
  if path_starts_with index_file worktree || path_starts_with index_file git_dir
     || path_starts_with index_file common_git_dir
  then Ok tt
  else uncertain index_file "active index is outside the managed worktree and its Git directories".

Section mutation.
Context `{Sha256} `{JsonText}.

(** SHA-256 of the path's text. *)
Definition path_digest (p : PathBuf) : string := sha256_hex (display p).

(** ** Resolution *)

Section safety.
Context (managed_worktree : PathBuf).

Definition managed_roots (worktree : PathBuf) (index_override : option string)
  : IO (result (PathBuf * PathBuf) GitMutationError) :=
  do? managed_root <- canonical_directory managed_worktree "managed worktree";
  let root := absolute_from managed_root worktree in
  do? _ <- reject_symlink root "worktree path";
  do? root <- canonical_directory root "worktree";
  do? managed_top <- git_path managed_root "--show-toplevel" None;
  do? managed_top <- canonical_directory (parse_path managed_top) "managed repository root";
  require (bool_decide (managed_top = managed_root))
    (Uncertain managed_root "configured path is not a worktree root")
  (do? root_top <- git_path root "--show-toplevel" index_override;
   do? root_top <- canonical_directory (parse_path root_top) "Git worktree root";
   require (bool_decide (root_top = root)) (Uncertain root "requested path is not the worktree root")
   (Ret (Ok (managed_root, root)))).

Definition shared_git_dir (managed_root root : PathBuf) (index_override : option string)
  : IO (result PathBuf GitMutationError) :=
  do? common <- git_path root "--git-common-dir" index_override;
  do? common <- canonical_directory (parse_path common) "common Git directory";
  do? managed_common <- git_path managed_root "--git-common-dir" None;
  do? managed_common <- canonical_directory (parse_path managed_common) "managed common Git directory";
  require (bool_decide (common = managed_common))
    (Uncertain root "worktree belongs to a different common Git directory") (Ret (Ok common)).

Definition resolve_paths_with_index_override (worktree : PathBuf) (index_override : option string)
  : IO (result GitMutationPaths GitMutationError) :=
  do? roots <- managed_roots worktree index_override;
  let '(managed_root, root) := roots in
  do? common_git_dir <- shared_git_dir managed_root root index_override;
  do? git_dir <- git_path root "--absolute-git-dir" index_override;
  do? git_dir <- canonical_directory (parse_path git_dir) "worktree Git directory";
  do? raw_index <- git_path root "--git-path index" index_override;
  do? index_file <- canonicalize_leaf_parent (parse_path raw_index) "active Git index";
  do? _ <- lift (validate_index_ownership root git_dir common_git_dir index_file);
  do? _ <- reject_optional_symlink index_file "active Git index";
  let index_lock_file := append_suffix index_file ".lock" in
  do? _ <- reject_optional_symlink index_lock_file "native Git index lock";
  let lease_dir := path_sub common_git_dir [LEASE_DIRECTORY] in
  do? _ <- reject_optional_symlink lease_dir "Git mutation lease directory";
  let index_lease_file := path_sub lease_dir ["index-" ++ path_digest index_file ++ ".lease"] in
  let refs_lease_file := path_sub common_git_dir [LEASE_DIRECTORY; "refs.lease"] in
  do? _ <- reject_optional_symlink refs_lease_file "shared refs lease";
  Ret (Ok {| worktree_root := root; git_dir := git_dir; common_git_dir := common_git_dir;
             index_file := index_file; index_lock_file := index_lock_file;
             index_lease_file := index_lease_file; refs_lease_file := refs_lease_file |}).

Definition resolve_paths (worktree : PathBuf) : IO (result GitMutationPaths GitMutationError) :=
  do override_value <- call_world EnvIndexFile;
  resolve_paths_with_index_override worktree override_value.

(** ** The lease file *)

Definition unsafe_directory (m : Metadata) : bool := is_symlink m || negb (is_directory m).

Definition create_lease_directory (p : PathBuf) : IO (result unit GitMutationError) :=
  do created <- call_world (CreateDir p);
  match created with
  | Ok tt => Ret (Ok tt)
  | Err AlreadyExists =>
      do? metadata <- or_uncertain p "cannot verify concurrent lease directory"
                        (call_world (SymlinkMetadata p));
      require (negb (unsafe_directory metadata))
        (Uncertain p "concurrent lease-directory creation produced an unsafe path") (Ret (Ok tt))
  | Err e => Ret (uncertain p ("cannot create mutation lease directory (" ++ error_kind e ++ ")"))
  end.

Definition ensure_safe_lease_directory (p : PathBuf) : IO (result unit GitMutationError) :=
  do found <- call_world (SymlinkMetadata p);
  do? _ <- match found with
           | Ok metadata =>
               if is_symlink metadata then Ret (uncertain p "mutation lease directory is a symlink")
               else if negb (is_directory metadata)
                    then Ret (uncertain p "mutation lease path is not a directory")
                    else Ret (Ok tt)
           | Err NotFound => create_lease_directory p
           | Err e => Ret (uncertain p ("cannot inspect mutation lease directory ("
                                        ++ error_kind e ++ ")"))
           end;
  do? canonical <- or_uncertain p "cannot verify lease directory" (call_world (Canonicalize p));
  require (bool_decide (canonical = p))
    (Uncertain p "mutation lease directory path changed during inspection") (Ret (Ok tt)).

Definition verify_open_path (file : handle) (p : PathBuf) : IO (result unit GitMutationError) :=
  do? file_metadata <- or_uncertain p "cannot inspect opened lease" (call_world (Fstat file));
  do? path_metadata <- or_uncertain p "lease path changed" (call_world (SymlinkMetadata p));
  require (negb (negb (is_file file_metadata) || is_symlink path_metadata))
    (Uncertain p "mutation lease is not a regular file")
  (require (same_inode file_metadata path_metadata)
     (Uncertain p "mutation lease inode changed during inspection")
   (Ret (Ok tt))).

Definition open_lease_file (p : PathBuf) : IO (result handle GitMutationError) :=
  do? _ <- reject_optional_symlink p "mutation lease file";
  do? file <- or_uncertain p "cannot open mutation lease" (call_world (OpenLease p));
  do? _ <- verify_open_path file p;
  Ret (Ok file).

(** The twentieth field after the command's name, which is in parentheses. *)
Definition stat_start_time (stat : string) : option Z :=
  r ← rsplit_once ")" stat; field ← nth_error (split_whitespace r.2) 19; parse_u64 field.

Definition proc_stat_path (root : PathBuf) (pid : Z) : PathBuf := path_sub root [pretty pid; "stat"].
Definition proc_root : PathBuf := {| pb_absolute := true; pb_components := ["proc"] |}.

Definition process_start_identity (pid : Z) : IO (option Z) :=
  do! stat <- ok_or_none (call_world (ReadToString (proc_stat_path proc_root pid)));
  Ret (stat_start_time stat).

(** The record as [serde_json::to_vec] writes it, fields in order. *)
Definition lease_record_text (paths : GitMutationPaths) (resource : GitMutationResource)
    (operation_id : string) (pid : Z) (start : option Z) : string :=
  json_to_string (JObj
    [("schema_version", JNum LEASE_SCHEMA_VERSION);
     ("operation_id_sha256", JStr (sha256_hex operation_id)); ("resource", JStr (label resource));
     ("resource_sha256", JStr (path_digest (lease_path resource paths))); ("owner_pid", JNum pid);
     ("owner_start_identity", jopt JNum start)]).

Definition write_lease_record (lock : handle) (paths : GitMutationPaths)
    (resource : GitMutationResource) (operation_id : string) : IO (result unit GitMutationError) :=
  do pid <- call_world ProcessId;
  do id <- call_world ProcessId;
  do start <- process_start_identity id;
  or_uncertain (lease_path resource paths) "cannot persist lease identity"
    (do? _ <- call_world (SetLen lock 0);
     do? _ <- call_world (SeekStart lock);
     do? _ <- call_world (WriteAll lock (lease_record_text paths resource operation_id pid start));
     call_world (SyncData lock)).

(** ** Acquisition *)

Definition validate_operation_id (operation_id : string) : result unit GitMutationError :=
  ensure (negb (str_is_empty operation_id || (128 <? str_len operation_id)%Z
                || negb (all_chars is_ascii_graphic operation_id))) InvalidOperationId.

(** What happens once the lock is held: the path still names the locked file and
    the metadata paths are the ones the lease was asked for. *)
Definition complete_lease (lock : handle) (paths : GitMutationPaths) (resource : GitMutationResource)
    (operation_id : string) (index_override : option string)
  : IO (result GitMutationLease GitMutationError) :=
  do? _ <- verify_open_path lock (lease_path resource paths);
  do? refreshed <- resolve_paths_with_index_override (worktree_root paths) index_override;
  require (bool_decide (refreshed = paths))
    (Uncertain (worktree_root paths) "Git metadata paths changed while acquiring the mutation lease")
  (do? _ <- write_lease_record lock paths resource operation_id;
   Ret (Ok {| le_lock := lock; le_paths := paths; le_resource := resource;
              le_operation_id := operation_id; le_index_override := index_override |})).

Definition try_lease (paths : GitMutationPaths) (resource : GitMutationResource)
    (operation_id : string) (index_override : option string)
  : IO (result GitMutationLease GitMutationError + unit) :=
  let p := lease_path resource paths in
  do file <- open_lease_file p;
  match file with
  | Err e => Ret (inl (Err e))
  | Ok file =>
      do r <- call_world (TryLockExclusive file);
      match r with
      | Locked => do r <- complete_lease file paths resource operation_id index_override; Ret (inl r)
      | LockBusy => Ret (inr tt)
      | LockFailed error => Ret (inl (uncertain p error))
      end
  end.

Definition lease_directory (paths : GitMutationPaths) (resource : GitMutationResource) : PathBuf :=
  match path_parent (lease_path resource paths) with Some d => d | None => git_dir paths end.

Definition lease_busy (paths : GitMutationPaths) (resource : GitMutationResource) (started : Z)
    (_ : unit) : IO (result GitMutationLease GitMutationError) :=
  do now <- call_world Now;
  Ret (Err (Busy (label resource) (lease_path resource paths)
              (Z.max 0 (now - started) / 1000000)%Z)).

Definition acquire_resolved (paths : GitMutationPaths) (resource : GitMutationResource)
    (operation_id : string) (wait : Z) (index_override : option string)
  : IO (result GitMutationLease GitMutationError) :=
  do? _ <- ensure_safe_lease_directory (lease_directory paths resource);
  retry_until LEASE_POLL_INTERVAL wait (try_lease paths resource operation_id index_override)
    (lease_busy paths resource).

Definition acquire_with_index_override (worktree : PathBuf) (resource : GitMutationResource)
    (operation_id : string) (wait : Z) (index_override : option string)
  : IO (result GitMutationLease GitMutationError) :=
  do? _ <- lift (validate_operation_id operation_id);
  do? paths <- resolve_paths_with_index_override worktree index_override;
  acquire_resolved paths resource operation_id wait index_override.

Definition acquire (worktree : PathBuf) (resource : GitMutationResource) (operation_id : string)
    (wait : Z) : IO (result GitMutationLease GitMutationError) :=
  do override_value <- call_world EnvIndexFile;
  acquire_with_index_override worktree resource operation_id wait override_value.

(** The derived order: the shared references before the index. *)
Definition resource_le (a b : GitMutationResource) : bool :=
  match a, b with Index, SharedRefs => false | _, _ => true end.
(** [dedup] of a [Vec]. *)
Fixpoint dedup {A} `{EqDecision A} (l : list A) : list A :=
  match l with
  | x :: (y :: _) as l' => if bool_decide (x = y) then dedup l' else x :: dedup l'
  | _ => l
  end.
Definition lock_order (resources : list GitMutationResource) : list GitMutationResource :=
  dedup (insertion_sort resource_le resources).

Fixpoint acquire_all (paths : GitMutationPaths) (resources : list GitMutationResource)
    (operation_id : string) (deadline : Z) (index_override : option string)
    (leases : list GitMutationLease) : IO (result (list GitMutationLease) GitMutationError) :=
  match resources with
  | [] => Ret (Ok leases)
  | resource :: resources =>
      do now <- call_world Now;
      do? lease <- acquire_resolved paths resource operation_id (Z.max 0 (deadline - now)) index_override;
      acquire_all paths resources operation_id deadline index_override (leases ++ [lease])%list
  end.

Definition acquire_set_with_index_override (worktree : PathBuf)
    (resources : list GitMutationResource) (operation_id : string) (wait : Z)
    (index_override : option string) : IO (result (list GitMutationLease) GitMutationError) :=
  do? _ <- lift (validate_operation_id operation_id);
  do? paths <- resolve_paths_with_index_override worktree index_override;
  do started <- call_world Now;
  acquire_all paths (lock_order resources) operation_id (started + wait)%Z index_override [].

Definition acquire_set (worktree : PathBuf) (resources : list GitMutationResource)
    (operation_id : string) (wait : Z) : IO (result (list GitMutationLease) GitMutationError) :=
  do override_value <- call_world EnvIndexFile;
  acquire_set_with_index_override worktree resources operation_id wait override_value.
End safety.
End mutation.
