(* ===== verification/GitOwner.v ===== *)
(** * Git locks: who holds a lock

    [services/git_lock_owner.rs]: the snapshot of a native lock file, what [/proc]
    says of a process, and the durable proof that a managed process held one lock
    inode open. *)

From stdpp Require Import pretty.
From S2P Require Import Prelude RustStr JsonValue Paths.
From S2P Require Import Effects GitEvidence GitPoll GitLedger GitMutation.
Local Open Scope string_scope.
Local Open Scope prog_scope.

Definition PROOF_SCHEMA_VERSION : Z := 2.
Definition LOCK_EVIDENCE_MAX_BYTES : Z := (16 * 1024 * 1024)%Z.
Definition LOCK_HELD_EVENT : string := "git.native_lock.held".

Record RecordedManagedNativeLockProof := {
  rp_event_id : string;
  rp_proof : ManagedNativeLockProof
}.

(** ** The lock file *)

Definition verify_same_inode (p : PathBuf) (expected observed : Metadata)
  : result unit GitMutationError :=
  let? _ := ensure (same_inode expected observed)
              (Uncertain p "native lock inode changed during inspection") in
  ensure (same_times expected observed)
    (Uncertain p "native lock metadata changed during inspection").

Section owner.
Context `{Sha256} `{JsonText}.

(** The reads until the end of the file, each counted against the limit. *)
Fixpoint bytes_within {E} (limit read : Z) (too_large : E) (reads : list string) : result Z E :=
  match reads with
  | [] => Ok read
  | chunk :: reads =>
      let read := (read + str_len chunk)%Z in
      let? _ := ensure (read <=? limit)%Z too_large in
      bytes_within limit read too_large reads
  end.

Definition hash_file (p : PathBuf) (reads : list string * option io_error)
  : result string GitMutationError :=
  let? _ := bytes_within LOCK_EVIDENCE_MAX_BYTES 0
              (Uncertain p "native lock exceeds the evidence size limit") reads.1 in
  match reads.2 with
  | Some e => uncertain p ("cannot read native lock (" ++ error_kind e ++ ")")
  | None => Ok (sha256_hex (String.concat "" reads.1))
  end.

Definition snapshot_lock (p : PathBuf) : IO (result NativeGitLockSnapshot GitMutationError) :=
  do? before <- or_uncertain p "cannot inspect native lock" (call_world (SymlinkMetadata p));
  require (negb (is_symlink before || negb (is_file before)))
    (Uncertain p "native lock is not a regular file")
  (require (md_len before <=? LOCK_EVIDENCE_MAX_BYTES)%Z
     (Uncertain p "native lock exceeds the evidence size limit")
   (do? file <- or_uncertain p "cannot open native lock" (call_world (OpenRead p));
    do? opened <- or_uncertain p "cannot inspect native lock inode" (call_world (Fstat file));
    do? _ <- lift (verify_same_inode p before opened);
    do reads <- call_world (ReadFile file);
    do? contents_sha256 <- lift (hash_file p reads);
    do? after <- or_uncertain p "cannot recheck native lock" (call_world (Fstat file));
    do? current <- or_uncertain p "native lock path changed" (call_world (SymlinkMetadata p));
    do? _ <- lift (verify_same_inode p before after);
    do? _ <- lift (verify_same_inode p before current);
    require (negb (negb (md_len before =? md_len after)%Z || negb (md_len before =? md_len current)%Z))
      (Uncertain p "native lock changed while being fingerprinted")
    (Ret (Ok (snapshot_of before contents_sha256))))).

Definition native_lock_is_absent (p : PathBuf) : IO bool :=
  do found <- call_world (SymlinkMetadata p);
  Ret (match found with Err NotFound => true | _ => false end).

(** ** Processes *)

Section procfs.
Context (root : PathBuf).

Definition process_is_zombie (pid : Z) : IO (result bool string) :=
  do? stat <- map_error (fun e => "cannot inspect process identity (" ++ error_kind e ++ ")")
                (call_world (ReadToString (proc_stat_path root pid)));
  Ret (match rsplit_once ")" stat with
       | None => Err "process identity record is malformed"
       | Some (_, fields) =>
           Ok (match split_whitespace fields with
               | state :: _ => String.eqb state "Z" || String.eqb state "X"
               | [] => false
               end)
       end).

Definition start_time_ticks (pid : Z) : IO (result (option Z) string) :=
  do stat <- call_world (ReadToString (proc_stat_path root pid));
  Ret (match stat with
       | Err NotFound => Ok None
       | Err e => Err ("cannot inspect process identity (" ++ error_kind e ++ ")")
       | Ok stat =>
           match stat_start_time stat with
           | Some ticks => Ok (Some ticks)
           | None => Err "process identity record is malformed; lock ownership is uncertain"
           end
       end).

Fixpoint any_descriptor (fd_dir : PathBuf) (device inode : Z) (entries : list (result string io_error))
  : IO (result bool string) :=
  match entries with
  | [] => Ret (Ok false)
  | Err e :: _ => Ret (Err ("cannot enumerate managed process descriptors (" ++ error_kind e ++ ")"))
  | Ok name :: entries =>
      do metadata <- call_world (FollowMetadata (path_sub fd_dir [name]));
      match metadata with
      | Err NotFound => any_descriptor fd_dir device inode entries
      | Err e => Ret (Err ("cannot inspect managed process descriptor (" ++ error_kind e ++ ")"))
      | Ok metadata =>
          if (md_dev metadata =? device)%Z && (md_ino metadata =? inode)%Z then Ret (Ok true)
          else any_descriptor fd_dir device inode entries
      end
  end.

Definition holds_inode (pid device inode : Z) : IO (result bool string) :=
  let fd_dir := path_sub root [pretty pid; "fd"] in
  let unreadable e : IO (result bool string) :=
    Ret (Err ("cannot inspect managed process descriptors (" ++ error_kind e ++ ")")) in
  do entries <- call_world (ReadDir fd_dir);
  match entries with
  | Ok entries => any_descriptor fd_dir device inode entries
  | Err NotFound => Ret (Ok false)
  | Err PermissionDenied =>
      do? zombie <- process_is_zombie pid;
      if zombie then Ret (Ok false) else unreadable PermissionDenied
  | Err e => unreadable e
  end.

Definition i32_max : Z := (2 ^ 31 - 1)%Z.
Definition process_group_exists (process_group_id : Z) : IO (result bool string) :=
  require (process_group_id <=? i32_max)%Z "managed process group ID is out of range"
  (do r <- call_world (KillGroup process_group_id);
   Ret (match r with
        | KillDelivered | KillForbidden => Ok true
        | KillNoGroup => Ok false
        | KillFailed error => Err ("cannot inspect managed process group (" ++ error ++ ")")
        end)).

(** ** The proof *)

Definition capture_managed_process_identity (pid : Z)
  : IO (result ManagedProcessIdentity GitMutationError) :=
  do? ticks <- map_error (Uncertain proc_root) (start_time_ticks pid);
  Ret (match ticks with
       | None => uncertain proc_root "managed process exited before identity capture"
       | Some ticks => Ok {| mp_pid := pid; mp_start_time_ticks := ticks |}
       end).

Definition verify_process_identity (owner : ManagedProcessIdentity) (lock_path : PathBuf)
  : IO (result unit GitMutationError) :=
  do? current <- map_error (Uncertain lock_path) (start_time_ticks (mp_pid owner));
  require (bool_decide (current = Some (mp_start_time_ticks owner)))
    (Uncertain lock_path "managed process is absent or its PID was reused") (Ret (Ok tt)).

Section log.
(** [event_log.dir()] and [event_log.ledger().segments_dir()]. *)
Context (log_dir segments_dir : PathBuf).

Definition read_git_recovery_events (selected_types : list string) : IO (result (list GitRecoveryEvent) string) :=
  read_git_recovery_events_at segments_dir selected_types LEDGER_WAIT.

(** [find_map] over the records of one type with these data. *)
Definition matching_event (event_type : string) (data : json) (records : list GitRecoveryEvent)
  : option string :=
  ge_event_id <$> find (fun r => String.eqb (ge_event_type r) event_type
                                 && bool_decide (ge_data r = data)) records.

Definition find_proof_event (proof : json) : IO (result (option string) GitMutationError) :=
  do? records <- map_error (fun _ => Uncertain log_dir "cannot inspect prior native lock proof events")
                   (read_git_recovery_events [LOCK_HELD_EVENT]);
  Ret (Ok (matching_event LOCK_HELD_EVENT proof records)).

Definition append_proof_once (proof : json) : IO (result string GitMutationError) :=
  do? found <- find_proof_event proof;
  match found with
  | Some event_id => Ret (Ok event_id)
  | None =>
      do appended <- call_world (AppendEvent LOCK_HELD_EVENT "git-mutation" proof);
      match appended with
      | Some event_id => Ret (Ok event_id)
      | None =>
          do? found <- find_proof_event proof;
          Ret (option_context found
                 (Uncertain log_dir "native lock proof could not be durably recorded in the event ledger"))
      end
  end.

Definition lock_proof (lease : GitMutationLease) (owner : ManagedProcessIdentity)
    (lock : NativeGitLockSnapshot) : ManagedNativeLockProof :=
  let paths := le_paths lease in
  {| pf_schema_version := PROOF_SCHEMA_VERSION;
     pf_operation_id_sha256 := sha256_hex (le_operation_id lease);
     pf_worktree_root := display (worktree_root paths);
     pf_worktree_root_sha256 := path_digest (worktree_root paths);
     pf_git_dir := display (git_dir paths); pf_git_dir_sha256 := path_digest (git_dir paths);
     pf_common_git_dir := display (common_git_dir paths);
     pf_common_git_dir_sha256 := path_digest (common_git_dir paths);
     pf_index_file := display (index_file paths);
     pf_index_file_sha256 := path_digest (index_file paths);
     pf_index_lock_file := display (index_lock_file paths);
     pf_index_lock_file_sha256 := path_digest (index_lock_file paths);
     pf_index_lease_file_sha256 := path_digest (index_lease_file paths);
     pf_owner := owner; pf_lock := lock |}.

(** The first snapshot: [None] when the lock is gone. *)
Definition current_lock (p : PathBuf) : IO (result (option NativeGitLockSnapshot) GitMutationError) :=
  do lock <- snapshot_lock p;
  match lock with
  | Ok lock => Ret (Ok (Some lock))
  | Err error =>
      do absent <- native_lock_is_absent p;
      if absent then Ret (Ok None) else Ret (Err error)
  end.

Definition try_record_proof_with (lease : GitMutationLease) (owner : ManagedProcessIdentity)
  : IO (result (option RecordedManagedNativeLockProof) GitMutationError) :=
  let lock_file := index_lock_file (le_paths lease) in
  require (bool_decide (le_resource lease = Index))
    (Uncertain lock_file "native index lock proof requires the matching index mutation lease")
  (do? _ <- verify_process_identity owner lock_file;
   do? lock <- current_lock lock_file;
   match lock with
   | None => Ret (Ok None)
   | Some lock =>
       do? holds <- map_error (Uncertain lock_file)
                      (holds_inode (mp_pid owner) (nl_device lock) (nl_inode lock));
       if negb holds then Ret (Ok None)
       else
         do? _ <- verify_process_identity owner lock_file;
         do? again <- snapshot_lock lock_file;
         require (bool_decide (again = lock))
           (Uncertain lock_file "native lock changed while process ownership was being recorded")
         (let proof := lock_proof lease owner lock in
          do? event_id <- append_proof_once (proof_json proof);
          Ret (Ok (Some {| rp_event_id := event_id; rp_proof := proof |})))
   end).

Definition record_proof_with (lease : GitMutationLease) (owner : ManagedProcessIdentity)
  : IO (result RecordedManagedNativeLockProof GitMutationError) :=
  do? recorded <- try_record_proof_with lease owner;
  Ret (option_context recorded
         (Uncertain (index_lock_file (le_paths lease))
            "managed process does not hold the current native lock inode open")).

Definition record_managed_native_lock_proof (lease : GitMutationLease) (child_id : Z)
    (owner : ManagedProcessIdentity) : IO (result RecordedManagedNativeLockProof GitMutationError) :=
  require (child_id =? mp_pid owner)%Z
    (Uncertain (index_lock_file (le_paths lease))
       "process identity does not belong to the managed child handle")
  (record_proof_with lease owner).
End log.
End procfs.
End owner.
