(* ===== verification/GitRecovery.v ===== *)
(** * Git locks: quarantine of a proven lock

    [services/git_lock_recovery.rs]: under the index lease, a native lock that a
    managed process left behind is moved to the quarantine directory, with an
    intent and a receipt in the event log. *)

From stdpp Require Import pretty.
From S2P Require Import Prelude RustStr JsonValue Paths.
From S2P Require Import Effects GitEvidence GitPoll GitLedger GitMutation GitOwner.
Local Open Scope string_scope.
Local Open Scope prog_scope.

Definition QUARANTINE_DIRECTORY : string := "quarantine".
Definition QUARANTINE_CAPACITY : nat := 64.
Definition QUARANTINE_POLL : Z := millis 25.
Definition QUARANTINE_INTENT_EVENT : string := "git.native_lock.quarantine_intent".
Definition QUARANTINED_EVENT : string := "git.native_lock.quarantined".
Definition RECOVERY_SCHEMA_VERSION : Z := 1.
Definition STARTED : string := "git.process.started".

Inductive NativeLockRecoveryVerdict :=
| Clear
| BusyLock (path : PathBuf) (owners : list ManagedProcessIdentity) (reason : string)
| Recovered (receipt : GitLockRecoveryReceipt)
| UncertainLock (path : PathBuf) (reason : string).

Record ManagedProcessScope := { sc_owner : ManagedProcessIdentity; sc_process_group_id : Z }.
Record LocatedProof := {
  lp_event_id : string;
  lp_proof : ManagedNativeLockProof;
  lp_scope : ManagedProcessScope
}.

Section recovery.
Context `{Sha256} `{JsonText}.

(** ** Evidence *)

Definition proof_matches_paths (proof : ManagedNativeLockProof) (paths : GitMutationPaths) : bool :=
  String.eqb (pf_worktree_root proof) (display (worktree_root paths))
  && String.eqb (pf_worktree_root_sha256 proof) (path_digest (worktree_root paths))
  && String.eqb (pf_git_dir proof) (display (git_dir paths))
  && String.eqb (pf_git_dir_sha256 proof) (path_digest (git_dir paths))
  && String.eqb (pf_common_git_dir proof) (display (common_git_dir paths))
  && String.eqb (pf_common_git_dir_sha256 proof) (path_digest (common_git_dir paths))
  && String.eqb (pf_index_file proof) (display (index_file paths))
  && String.eqb (pf_index_file_sha256 proof) (path_digest (index_file paths))
  && String.eqb (pf_index_lock_file proof) (display (index_lock_file paths))
  && String.eqb (pf_index_lock_file_sha256 proof) (path_digest (index_lock_file paths))
  && String.eqb (pf_index_lease_file_sha256 proof) (path_digest (index_lease_file paths)).

(** A string member with this value. *)
Definition names (k : string) (value : string) (j : json) : bool :=
  bool_decide (member_str k j = Some value).

(** The record of a start for this operation and lock: its process group. *)
Definition started_scope (paths : GitMutationPaths) (proof : ManagedNativeLockProof) (data : json)
  : result (option ManagedProcessScope) string :=
  if negb (names "index_lock_file" (display (index_lock_file paths)) data
           && names "operation_id_sha256" (pf_operation_id_sha256 proof) data)
  then Ok None
  else
    let? process_id := option_context (member_u32 "process_id" data)
                         "matching managed process record has no valid PID" in
    let? ticks := option_context (member_u64 "process_start_identity" data)
                    "matching managed process record has no start identity" in
    let? group := option_context (member_u32 "process_group_id" data)
                    "matching managed process record has no process-group identity" in
    let? _ := ensure ((process_id =? mp_pid (pf_owner proof))%Z
                      && (ticks =? mp_start_time_ticks (pf_owner proof))%Z
                      && (group =? process_id)%Z
                      && names "worktree_root" (display (worktree_root paths)) data
                      && names "git_dir" (display (git_dir paths)) data
                      && names "common_git_dir" (display (common_git_dir paths)) data
                      && names "index_file" (display (index_file paths)) data)
                "matching managed process scope conflicts with native lock proof" in
    Ok (Some {| sc_owner := pf_owner proof; sc_process_group_id := group |}).

(** A loop over records that pushes what it selects and stops at an error. *)
Definition push_some {A} (l : list A) (o : option A) : list A :=
  match o with Some a => (l ++ [a])%list | None => l end.
Definition collect_some {A} (f : GitRecoveryEvent -> result (option A) string)
    (records : list GitRecoveryEvent) : result (list A) string :=
  try_fold (fun found r => let? a := f r in Ok (push_some found a)) [] records.

Definition scopes_in (paths : GitMutationPaths) (proof : ManagedNativeLockProof)
    (records : list GitRecoveryEvent) : result (list ManagedProcessScope) string :=
  collect_some (fun r => started_scope paths proof (ge_data r)) records.

(** The record of a held lock that names this lock file: its proof, when it is of
    this snapshot. *)
Definition held_proof (paths : GitMutationPaths) (snapshot : NativeGitLockSnapshot) (data : json)
  : result (option ManagedNativeLockProof) string :=
  if negb (names "index_lock_file" (display (index_lock_file paths)) data) then Ok None
  else
    let? version := option_context (member_u64 "schema_version" data)
                      "native lock ownership event has no supported schema" in
    let? _ := ensure (version =? PROOF_SCHEMA_VERSION)%Z
                "native lock ownership event uses an unsupported proof version" in
    let? proof := option_context (proof_of_json data) "native lock ownership event is malformed" in
    Ok (if proof_matches_paths proof paths && bool_decide (pf_lock proof = snapshot)
        then Some proof else None).

Definition intent_data (proof : ManagedNativeLockProof) (file : string)
    (proof_event_id : string) : QuarantineAuditData :=
  {| qa_schema_version := RECOVERY_SCHEMA_VERSION; qa_proof_event_id := proof_event_id;
     qa_proof := proof; qa_quarantine_file := file |}.

Definition quarantine_dir (paths : GitMutationPaths) : PathBuf :=
  path_sub (common_git_dir paths) ["exomonad-mutation"; QUARANTINE_DIRECTORY].
Definition quarantine_name (proof_event_id : string) : string := sha256_hex proof_event_id ++ ".lock".
Definition quarantine_path (paths : GitMutationPaths) (proof_event_id : string) : PathBuf :=
  path_sub (common_git_dir paths)
    ["exomonad-mutation"; QUARANTINE_DIRECTORY; quarantine_name proof_event_id].

Definition recovery_result (receipt_event_id : string) (audit : QuarantineReceiptData)
  : GitLockRecoveryReceipt :=
  {| gr_proof_event_id := qr_proof_event_id audit; gr_intent_event_id := qr_intent_event_id audit;
     gr_receipt_event_id := receipt_event_id; gr_quarantine_file := qr_quarantine_file audit;
     gr_lock := pf_lock (qr_proof audit) |}.

Section procfs.
Context (root segments_dir : PathBuf).

Definition read_recovery (selected_types : list string) : IO (result (list GitRecoveryEvent) string) :=
  read_git_recovery_events segments_dir selected_types.

Definition matching_process_scope (paths : GitMutationPaths) (proof : ManagedNativeLockProof)
  : IO (result ManagedProcessScope string) :=
  do? records <- read_recovery [STARTED];
  do? matches <- lift (scopes_in paths proof records);
  Ret (match matches with
       | [scope] => Ok scope
       | _ => Err "native lock proof has no unique durable supervised process scope"
       end).

Fixpoint located_proofs (paths : GitMutationPaths) (snapshot : NativeGitLockSnapshot)
    (records : list GitRecoveryEvent) (found : list LocatedProof)
  : IO (result (list LocatedProof) string) :=
  match records with
  | [] => Ret (Ok found)
  | record :: records =>
      do? proof <- lift (held_proof paths snapshot (ge_data record));
      match proof with
      | None => located_proofs paths snapshot records found
      | Some proof =>
          do? scope <- matching_process_scope paths proof;
          located_proofs paths snapshot records
            (found ++ [{| lp_event_id := ge_event_id record; lp_proof := proof; lp_scope := scope |}])%list
      end
  end.

Definition matching_proof (paths : GitMutationPaths) (snapshot : NativeGitLockSnapshot)
  : IO (result (option LocatedProof) string) :=
  do? records <- read_recovery [LOCK_HELD_EVENT];
  do? matches <- located_proofs paths snapshot records [];
  Ret (match matches with
       | [] => Ok None
       | [proof] => Ok (Some proof)
       | _ => Err "multiple durable owners claim the same native lock inode"
       end).

Definition managed_scope_active (scope : ManagedProcessScope) : IO (result bool string) :=
  do? current <- start_time_ticks root (mp_pid (sc_owner scope));
  if bool_decide (current = Some (mp_start_time_ticks (sc_owner scope))) then Ret (Ok true)
  else process_group_exists (sc_process_group_id scope).

(** ** The audit *)

Definition find_audit_event (event_type : string) (data : json) (p : PathBuf)
  : IO (result (option string) string) :=
  do? records <- map_error (fun _ => "cannot inspect lock recovery audit at " ++ debug_str (display p))
                   (read_recovery [event_type]);
  Ret (Ok (matching_event event_type data records)).

Definition append_audit_once (event_type : string) (data : json) (p : PathBuf)
  : IO (result string string) :=
  do? found <- find_audit_event event_type data p;
  match found with
  | Some event_id => Ret (Ok event_id)
  | None =>
      do appended <- call_world (AppendEvent event_type "git-mutation" data);
      match appended with
      | Some event_id => Ret (Ok event_id)
      | None =>
          do? found <- find_audit_event event_type data p;
          Ret (option_context found
                 "lock recovery audit append failed and no durable event can be recovered")
      end
  end.

(** Verdicts of the checks: [Err] ends the function with the verdict. *)
Definition or_verdict {A E} (f : E -> NativeLockRecoveryVerdict) (p : IO (result A E))
  : IO (result A NativeLockRecoveryVerdict) := map_error f p.
Definition verdict_of (p : IO (result NativeLockRecoveryVerdict NativeLockRecoveryVerdict))
  : IO NativeLockRecoveryVerdict :=
  do r <- p; Ret (match r with Ok v => v | Err v => v end).

Definition verify_proof_event (proof_event_id : string) (expected : ManagedNativeLockProof)
    (p : PathBuf) : IO (result unit NativeLockRecoveryVerdict) :=
  do? records <- or_verdict (fun _ => UncertainLock p
                   "cannot verify the ownership proof linked by lock recovery")
                   (read_recovery [LOCK_HELD_EVENT]);
  Ret (match List.filter (fun r => String.eqb (ge_event_id r) proof_event_id) records with
       | [record] =>
           match proof_of_json (ge_data record) with
           | None => Err (UncertainLock p "referenced native lock ownership proof is malformed")
           | Some proof =>
               ensure (bool_decide (proof = expected)) (UncertainLock p
                 "referenced native lock ownership proof differs from recovery evidence")
           end
       | _ => Err (UncertainLock p
                "lock recovery references a missing or ambiguous ownership proof event")
       end).

Definition still_active : string :=
  "the recorded managed Git process or a supervised helper is still active".

Definition verify_quarantined_owner (scope : ManagedProcessScope) (p : PathBuf)
  : IO (result unit NativeLockRecoveryVerdict) :=
  do? active <- or_verdict (UncertainLock p) (managed_scope_active scope);
  Ret (if active then Err (BusyLock p [sc_owner scope] still_active) else Ok tt).

(** ** The move *)

Definition check_quarantine_capacity (directory target : PathBuf) : IO (result unit string) :=
  do exists_ <- call_world (PathExists target);
  require (negb exists_) "quarantine target already exists"
  (do? entries <- map_error (fun e => "cannot inspect quarantine capacity (" ++ error_kind e ++ ")")
                    (call_world (ReadDir directory));
   require (negb (QUARANTINE_CAPACITY <=? length entries)%nat)
     "native lock quarantine reached its bounded 64-entry capacity" (Ret (Ok tt))).

Definition open_directory_nofollow (p : PathBuf) : IO (result handle io_error) :=
  do? canonical <- call_world (Canonicalize p);
  require (bool_decide (canonical = p)) InvalidInput
  (do? before <- call_world (SymlinkMetadata p);
   require (negb (is_symlink before || negb (is_directory before))) InvalidInput
   (do? file <- call_world (OpenDirectory p);
    do? opened <- call_world (Fstat file);
    do? current <- call_world (SymlinkMetadata p);
    do? canonical <- call_world (Canonicalize p);
    require (bool_decide (canonical = p) && same_inode before opened && same_inode before current)
      (OtherError "other error") (Ret (Ok file)))).

Definition parent_and_file (p : PathBuf) : result (PathBuf * string) io_error :=
  let? parent := option_context (path_parent p) InvalidInput in
  let? name := option_context (path_file_name p) InvalidInput in
  Ok (parent, name).

Definition atomic_move_lock (source target : PathBuf) (expected : NativeGitLockSnapshot)
  : IO (result unit io_error) :=
  do? source_name <- lift (parent_and_file source);
  do? target_name <- lift (parent_and_file target);
  do? source_dir <- open_directory_nofollow source_name.1;
  do? target_dir <- open_directory_nofollow target_name.1;
  do? current <- map_error (fun _ => OtherError "other error") (snapshot_lock source);
  require (bool_decide (current = expected)) (OtherError "other error")
  (do? _ <- call_world (RenameNoReplace source_dir source_name.2 target_dir target_name.2);
   do? _ <- call_world (SyncAll source_dir);
   call_world (SyncAll target_dir)).

Section safety.
Context (managed_worktree : PathBuf) (lease : GitMutationLease).
Let paths := le_paths lease.
Let lock_file := index_lock_file paths.

Definition validate_current_paths : IO (result unit GitMutationError) :=
  do? current <- resolve_paths_with_index_override managed_worktree (worktree_root paths)
                   (le_index_override lease);
  require (bool_decide (current = paths))
    (Uncertain (worktree_root paths) "Git metadata paths changed after mutation lease acquisition")
    (Ret (Ok tt)).

Definition revalidate_before_quarantine (proof : ManagedNativeLockProof) : IO (result unit string) :=
  do? _ <- map_error (fun _ => "Git worktree or active index changed before lock quarantine")
             validate_current_paths;
  do? current <- map_error (fun _ => "native lock disappeared or changed before quarantine")
                   (snapshot_lock lock_file);
  require (bool_decide (current = pf_lock proof) && (nl_size current =? 0)%Z)
    "native lock no longer matches the empty proven inode"
  (do? matches <- map_error (fun reason => "cannot revalidate ownership evidence (" ++ reason ++ ")")
                    (matching_proof paths current);
   match matches with
   | None => Ret (Err "durable lock ownership evidence changed before quarantine")
   | Some found =>
       require (bool_decide (lp_proof found = proof))
         "durable lock ownership evidence changed before quarantine"
       (do? active <- map_error
                        (fun _ => "managed process scope cannot be revalidated before quarantine")
                        (managed_scope_active (lp_scope found));
        require (negb active) "the managed process or a supervised helper is still active"
          (Ret (Ok tt)))
   end).

(** The moved file and its receipt. *)
Definition verify_moved (proof : ManagedNativeLockProof) (file : PathBuf) (differs : string)
  : IO (result NativeGitLockSnapshot NativeLockRecoveryVerdict) :=
  do? snapshot <- or_verdict (fun e => UncertainLock file (display_error e)) (snapshot_lock file);
  require (same_quarantined_inode (pf_lock proof) snapshot) (UncertainLock file differs)
    (Ret (Ok snapshot)).

Definition append_receipt (receipt : QuarantineReceiptData)
  : IO (result NativeLockRecoveryVerdict NativeLockRecoveryVerdict) :=
  do? event_id <- or_verdict (UncertainLock lock_file)
                    (append_audit_once QUARANTINED_EVENT (receipt_json receipt) lock_file);
  Ret (Ok (Recovered (recovery_result event_id receipt))).

Definition receipt_of (audit : QuarantineAuditData) (intent_event_id : string)
    (quarantined_lock : NativeGitLockSnapshot) : QuarantineReceiptData :=
  {| qr_schema_version := RECOVERY_SCHEMA_VERSION; qr_proof_event_id := qa_proof_event_id audit;
     qr_intent_event_id := intent_event_id; qr_proof := qa_proof audit;
     qr_quarantine_file := qa_quarantine_file audit; qr_quarantined_lock := quarantined_lock |}.

Definition move_failed (file : PathBuf) (e : io_error) : NativeLockRecoveryVerdict :=
  match e with
  | AlreadyExists => UncertainLock file "quarantine target already exists while source lock remains"
  | e => UncertainLock lock_file
           ("cannot atomically quarantine proven native lock (" ++ error_kind e ++ ")")
  end.

Definition lock_vanished : IO (result unit NativeLockRecoveryVerdict) :=
  do found <- call_world (SymlinkMetadata lock_file);
  Ret (match found with
       | Ok _ => Err (UncertainLock lock_file
           "a new native index lock appeared immediately after quarantine; retry init after its owner exits")
       | Err NotFound => Ok tt
       | Err e => Err (UncertainLock lock_file
           ("cannot recheck native lock after quarantine (" ++ error_kind e ++ ")"))
       end).

Definition quarantine_proven_lock (located : LocatedProof)
  : IO (result NativeLockRecoveryVerdict NativeLockRecoveryVerdict) :=
  let dir := quarantine_dir paths in
  do? _ <- or_verdict (fun e => UncertainLock dir (display_error e)) (ensure_safe_lease_directory dir);
  let file := quarantine_path paths (lp_event_id located) in
  do? _ <- or_verdict (UncertainLock dir) (check_quarantine_capacity dir file);
  let audit := intent_data (lp_proof located) (display file) (lp_event_id located) in
  do? intent_event_id <- or_verdict (UncertainLock lock_file)
        (append_audit_once QUARANTINE_INTENT_EVENT (audit_json audit) lock_file);
  do? _ <- or_verdict (UncertainLock lock_file) (revalidate_before_quarantine (qa_proof audit));
  do? _ <- or_verdict (move_failed file) (atomic_move_lock lock_file file (pf_lock (qa_proof audit)));
  do? _ <- lock_vanished;
  do? quarantined_lock <- verify_moved (qa_proof audit) file
                            "quarantined lock changed during atomic move";
  do? _ <- verify_quarantined_owner (lp_scope located) file;
  append_receipt (receipt_of audit intent_event_id quarantined_lock).

(** ** A lock that is not there *)

Definition verify_quarantine_receipt (event_id : string) (audit : QuarantineReceiptData)
  : IO (result NativeLockRecoveryVerdict NativeLockRecoveryVerdict) :=
  let expected := quarantine_path paths (qr_proof_event_id audit) in
  require (String.eqb (qr_quarantine_file audit) (display expected))
    (UncertainLock lock_file "quarantine receipt names an unexpected target path")
  (do? _ <- verify_proof_event (qr_proof_event_id audit) (qr_proof audit) lock_file;
   let intent := intent_data (qr_proof audit) (qr_quarantine_file audit) (qr_proof_event_id audit) in
   do? found <- or_verdict (UncertainLock lock_file)
                  (find_audit_event QUARANTINE_INTENT_EVENT (audit_json intent) lock_file);
   require (bool_decide (found = Some (qr_intent_event_id audit)))
     (UncertainLock lock_file "quarantine receipt has no matching durable intent")
   (do? snapshot <- or_verdict (fun e => UncertainLock expected (display_error e))
                      (snapshot_lock expected);
    require (bool_decide (snapshot = qr_quarantined_lock audit)
             && same_quarantined_inode (pf_lock (qr_proof audit)) snapshot)
      (UncertainLock expected "quarantined lock differs from its retained receipt")
    (do? scope <- or_verdict (UncertainLock expected)
                    (matching_process_scope paths (qr_proof audit));
     do? _ <- verify_quarantined_owner scope expected;
     Ret (Ok (Recovered (recovery_result event_id audit)))))).

Definition complete_interrupted_quarantine (intent_event_id : string) (audit : QuarantineAuditData)
  : IO (result NativeLockRecoveryVerdict NativeLockRecoveryVerdict) :=
  let expected := quarantine_path paths (qa_proof_event_id audit) in
  require (String.eqb (qa_quarantine_file audit) (display expected))
    (UncertainLock lock_file "quarantine intent names an unexpected target path")
  (do? _ <- verify_proof_event (qa_proof_event_id audit) (qa_proof audit) lock_file;
   do? quarantined_lock <- verify_moved (qa_proof audit) expected
                             "interrupted quarantine target differs from its proof";
   do? scope <- or_verdict (UncertainLock expected) (matching_process_scope paths (qa_proof audit));
   do? _ <- verify_quarantined_owner scope expected;
   append_receipt (receipt_of audit intent_event_id quarantined_lock)).

(** The newest record of a type whose proof is of these paths; a malformed one on
    the way ends the search. *)
Fixpoint newest_audit {A} (event_type : string) (decode : json -> option A)
    (proof_of : A -> ManagedNativeLockProof) (newest_first : list GitRecoveryEvent)
  : option (option (string * A)) :=
  match newest_first with
  | [] => Some None
  | record :: older =>
      if String.eqb (ge_event_type record) event_type then
        match decode (ge_data record) with
        | None => None
        | Some audit =>
            if proof_matches_paths (proof_of audit) paths then Some (Some (ge_event_id record, audit))
            else newest_audit event_type decode proof_of older
        end
      else newest_audit event_type decode proof_of older
  end.

Definition reconcile_absent_lock : IO (result NativeLockRecoveryVerdict NativeLockRecoveryVerdict) :=
  do? records <- or_verdict (fun e => UncertainLock lock_file
                   ("cannot inspect prior lock recovery events: " ++ debug_str e))
                   (read_recovery [QUARANTINED_EVENT; QUARANTINE_INTENT_EVENT]);
  match newest_audit QUARANTINED_EVENT receipt_of_json qr_proof (rev records) with
  | None => Ret (Err (UncertainLock lock_file "quarantine receipt is malformed"))
  | Some (Some (event_id, audit)) => verify_quarantine_receipt event_id audit
  | Some None =>
      match newest_audit QUARANTINE_INTENT_EVENT audit_of_json qa_proof (rev records) with
      | None => Ret (Err (UncertainLock lock_file "quarantine intent is malformed"))
      | Some (Some (event_id, audit)) => complete_interrupted_quarantine event_id audit
      | Some None => Ret (Ok Clear)
      end
  end.

(** ** Reconciliation *)

Definition reconcile_present_lock : IO (result NativeLockRecoveryVerdict NativeLockRecoveryVerdict) :=
  do? snapshot <- or_verdict (fun e => UncertainLock lock_file (display_error e))
                    (snapshot_lock lock_file);
  do? proof <- or_verdict (UncertainLock lock_file) (matching_proof paths snapshot);
  match proof with
  | None => Ret (Err (UncertainLock lock_file
      "no durable managed-process proof matches this lock inode and Git path binding"))
  | Some proof =>
      do? active <- or_verdict (UncertainLock lock_file) (managed_scope_active (lp_scope proof));
      require (negb active) (BusyLock lock_file [pf_owner (lp_proof proof)] still_active)
      (require (nl_size snapshot =? 0)%Z (UncertainLock lock_file
         "managed lock evidence is nonempty; automatic quarantine preserves its contents")
       (quarantine_proven_lock proof))
  end.

Definition reconcile_once : IO (result NativeLockRecoveryVerdict NativeLockRecoveryVerdict) :=
  do found <- call_world (SymlinkMetadata lock_file);
  match found with
  | Ok metadata =>
      require (negb (is_symlink metadata)) (UncertainLock lock_file "native index lock is a symlink")
        reconcile_present_lock
  | Err NotFound => reconcile_absent_lock
  | Err e => Ret (Err (UncertainLock lock_file
               ("cannot inspect native index lock (" ++ error_kind e ++ ")")))
  end.

Definition is_busy (v : NativeLockRecoveryVerdict) : bool :=
  match v with BusyLock _ _ _ => true | _ => false end.

Definition reconcile_round : IO (NativeLockRecoveryVerdict + NativeLockRecoveryVerdict) :=
  do valid <- validate_current_paths;
  match valid with
  | Err error => Ret (inl (UncertainLock lock_file (display_error error)))
  | Ok tt =>
      do verdict <- verdict_of reconcile_once;
      Ret (if is_busy verdict then inr verdict else inl verdict)
  end.

Definition reconcile_with_inspector (wait : Z) : IO NativeLockRecoveryVerdict :=
  if bool_decide (le_resource lease = Index) then
    retry_until QUARANTINE_POLL wait reconcile_round (fun _ verdict => Ret verdict)
  else Ret (UncertainLock lock_file "native lock recovery requires the index lease").
End safety.
End procfs.
End recovery.
