(* ===== verification/GitLegacy.v ===== *)
(** * Git locks: recovery of a lock without an owner

    [services/git_legacy_lock.rs]: a lock no managed process can be shown to have
    made is inspected, its evidence is fingerprinted, and it is quarantined when an
    operator repeats that fingerprint and says that all writers have stopped. *)

From stdpp Require Import pretty.
From S2P Require Import Prelude RustStr JsonValue SqlTable Paths.
From S2P Require Import Effects GitEvidence GitPoll GitLedger GitMutation GitOwner GitRecovery.
Local Open Scope string_scope.
Local Open Scope prog_scope.

Definition LEGACY_INTENT_EVENT : string := "git.native_lock.legacy_recovery_intent".
Definition LEGACY_RECOVERED_EVENT : string := "git.native_lock.legacy_recovered".
Definition LEGACY_SCHEMA_VERSION : Z := 1.
Definition INDEX_EVIDENCE_MAX_BYTES : Z := (2 * 1024 * 1024 * 1024)%Z.
Definition FINISHED : string := "git.process.finished".

(** ** Data *)

Inductive LegacyManagedActivity :=
| ActivityClear (inspected_event_ids : list string)
| ActivityActive (processes : list ManagedProcessIdentity)
| ActivityUncertain (reason : string).
#[export] Instance LegacyManagedActivity_eq_dec : EqDecision LegacyManagedActivity.
Proof. solve_decision. Defined.

Record LegacyGitLockInspection := {
  in_schema_version : Z;
  in_worktree_root : PathBuf;
  in_git_dir : PathBuf;
  in_common_git_dir : PathBuf;
  in_index_file : PathBuf;
  in_index_lock_file : PathBuf;
  in_index : GitFileFingerprint;
  in_lock : option NativeGitLockSnapshot;
  in_managed_activity : LegacyManagedActivity;
  in_matching_managed_proof : bool;
  in_recovery_fingerprint : option string;
  in_quarantine_file : option PathBuf;
  in_operator_scope : string
}.
#[export] Instance LegacyGitLockInspection_eq_dec : EqDecision LegacyGitLockInspection.
Proof. solve_decision. Defined.

Record LegacyGitLockRecoveryReceipt := {
  lr_recovery_fingerprint : string;
  lr_intent_event_id : string;
  lr_receipt_event_id : string;
  lr_quarantine_file : PathBuf;
  lr_original_lock : NativeGitLockSnapshot;
  lr_index : GitFileFingerprint
}.
Record LegacyGitLockApplyResult := {
  ar_receipt : LegacyGitLockRecoveryReceipt;
  ar_already_applied : bool
}.

Record LegacyRecoveryData := {
  ld_schema_version : Z;
  ld_recovery_fingerprint : string;
  ld_writer_stopped_authorization : bool;
  ld_actor : ManagedProcessIdentity;
  ld_worktree_root : PathBuf;
  ld_git_dir : PathBuf;
  ld_common_git_dir : PathBuf;
  ld_index_file : PathBuf;
  ld_index_lock_file : PathBuf;
  ld_index : GitFileFingerprint;
  ld_original_lock : NativeGitLockSnapshot;
  ld_quarantine_file : PathBuf
}.
#[export] Instance LegacyRecoveryData_eq_dec : EqDecision LegacyRecoveryData.
Proof. solve_decision. Defined.

Definition legacy_names : list string :=
  ["schema_version"; "recovery_fingerprint"; "writer_stopped_authorization"; "actor";
   "worktree_root"; "git_dir"; "common_git_dir"; "index_file"; "index_lock_file"; "index";
   "original_lock"; "quarantine_file"].
Definition legacy_fields (d : LegacyRecoveryData) : list (string * json) :=
  [("schema_version", JNum (ld_schema_version d));
   ("recovery_fingerprint", JStr (ld_recovery_fingerprint d));
   ("writer_stopped_authorization", JBool (ld_writer_stopped_authorization d));
   ("actor", process_json (ld_actor d)); ("worktree_root", JPath (ld_worktree_root d));
   ("git_dir", JPath (ld_git_dir d)); ("common_git_dir", JPath (ld_common_git_dir d));
   ("index_file", JPath (ld_index_file d)); ("index_lock_file", JPath (ld_index_lock_file d));
   ("index", fingerprint_json (ld_index d)); ("original_lock", lock_json (ld_original_lock d));
   ("quarantine_file", JPath (ld_quarantine_file d))].
Definition legacy_json (d : LegacyRecoveryData) : json := jobj (legacy_fields d).
Definition legacy_of_json (j : json) : option LegacyRecoveryData :=
  match fields legacy_names j with
  | Some [version; fp; auth; actor; wr; gd; cd; ix; lk; index; lock; file] =>
      version ← as_u32 version; fp ← as_str fp; auth ← as_bool auth;
      actor ← process_of_json actor; wr ← as_path wr; gd ← as_path gd; cd ← as_path cd;
      ix ← as_path ix; lk ← as_path lk; index ← fingerprint_of_json index;
      lock ← lock_of_json lock; file ← as_path file;
      Some {| ld_schema_version := version; ld_recovery_fingerprint := fp;
              ld_writer_stopped_authorization := auth; ld_actor := actor; ld_worktree_root := wr;
              ld_git_dir := gd; ld_common_git_dir := cd; ld_index_file := ix;
              ld_index_lock_file := lk; ld_index := index; ld_original_lock := lock;
              ld_quarantine_file := file |}
  | _ => None
  end.

Inductive InterruptedLegacyRecovery :=
| NotInterrupted
| Pending (intent_event_id : string) (data : LegacyRecoveryData)
| Quarantined (receipt : LegacyGitLockRecoveryReceipt).

Record ProcessScope := {
  ps_owner : ManagedProcessIdentity;
  ps_process_group_id : Z;
  ps_operation_hash : string
}.

(** ** Recorded processes *)

Definition required_u32 (value : json) (key : string) : result Z string :=
  option_context (member_u32 key value) ("relevant managed process record has no valid " ++ key).

Definition event_is_relevant_to_lock (data : json) (paths : GitMutationPaths) : bool :=
  names "index_lock_file" (display (index_lock_file paths)) data
  || names "common_git_dir" (display (common_git_dir paths)) data
     && names "worktree_root" (display (worktree_root paths)) data.

Definition parse_process_scope (data : json) (paths : GitMutationPaths)
  : result ProcessScope string :=
  let? process_id := required_u32 data "process_id" in
  let? ticks := option_context (member_u64 "process_start_identity" data)
                  "relevant managed process record has no start identity" in
  let? group := required_u32 data "process_group_id" in
  let? operation_hash := option_context
      (hash ← member_str "operation_id_sha256" data;
       if (str_len hash =? 64)%Z then Some hash else None)
      "relevant managed process record has no operation identity" in
  let? _ := ensure ((group =? process_id)%Z
                    && names "worktree_root" (display (worktree_root paths)) data
                    && names "git_dir" (display (git_dir paths)) data
                    && names "common_git_dir" (display (common_git_dir paths)) data
                    && names "index_file" (display (index_file paths)) data
                    && names "index_lock_file" (display (index_lock_file paths)) data)
              "relevant managed process record conflicts with canonical Git paths" in
  Ok {| ps_owner := {| mp_pid := process_id; mp_start_time_ticks := ticks |};
        ps_process_group_id := group; ps_operation_hash := operation_hash |}.

(** Whether the process has its one record of an end; its result is not used. *)
Definition matching_finish (records : list GitRecoveryEvent) (scope : ProcessScope)
    (start_event_id : string) : result bool string :=
  match List.filter (fun r => String.eqb (ge_event_type r) FINISHED
                              && names "operation_id_sha256" (ps_operation_hash scope) (ge_data r))
          records with
  | [] => Ok false
  | [finish] =>
      let data := ge_data finish in
      if bool_decide (member_u32 "process_id" data = Some (mp_pid (ps_owner scope)))
         && bool_decide (member_u64 "process_start_identity" data
                         = Some (mp_start_time_ticks (ps_owner scope)))
         && bool_decide (member_u32 "process_group_id" data = Some (ps_process_group_id scope))
      then Ok true
      else Err "managed process terminal record conflicts with its start identity"
  | _ => Err ("managed process " ++ start_event_id ++ " has multiple terminal records")
  end.

Definition process_le (a b : ManagedProcessIdentity) : bool :=
  (mp_pid a <? mp_pid b)%Z
  || (mp_pid a =? mp_pid b)%Z && (mp_start_time_ticks a <=? mp_start_time_ticks b)%Z.

Definition same_metadata (a b : Metadata) : bool := same_file a b.

Definition fingerprint_of (m : Metadata) (contents_sha256 : string) : GitFileFingerprint :=
  {| gf_device := md_dev m; gf_inode := md_ino m; gf_size := md_len m;
     gf_modified_seconds := md_mtime m; gf_modified_nanoseconds := md_mtime_nsec m;
     gf_changed_seconds := md_ctime m; gf_changed_nanoseconds := md_ctime_nsec m;
     gf_contents_sha256 := contents_sha256 |}.

Definition validate_fingerprint (value : string) : result unit string :=
  ensure ((str_len value =? 64)%Z && all_chars is_hex_digit value)
    "expected fingerprint must be a 64-character hexadecimal SHA-256 value".

Definition same_lock_inode (expected actual : NativeGitLockSnapshot) : bool :=
  same_quarantined_inode expected actual.

Definition snapshot_is_missing (error : GitMutationError) : bool :=
  match error with
  | Uncertain _ reason => contains_str "No such file" reason || contains_str "not found" reason
  | _ => false
  end.

Definition OPERATOR_SCOPE : string :=
  "Recorded ExoMonad process scopes are checked by PID/start identity and process group. A host-wide external-process census is not performed; --writers-stopped is the operator authorization for other repository writers.".

Section legacy.
Context `{Sha256} `{JsonText}.

(** ** The fingerprint *)

Definition activity_fields (a : LegacyManagedActivity) : list (string * json) :=
  match a with
  | ActivityClear ids =>
      [("status", JStr "clear"); ("inspected_event_ids", JArr (map JStr ids))]
  | ActivityActive processes =>
      [("status", JStr "active"); ("processes", JArr (map (fun p => JObj (process_fields p)) processes))]
  | ActivityUncertain reason => [("status", JStr "uncertain"); ("reason", JStr reason)]
  end.

(** The bytes of [serde_json::to_vec], with the members in the order of the
    structures. *)
Definition payload_text (paths : GitMutationPaths) (index : GitFileFingerprint)
    (lock : NativeGitLockSnapshot) (activity : LegacyManagedActivity) (matching_managed_proof : bool)
  : string :=
  json_to_string (JObj
    [("schema_version", JNum LEGACY_SCHEMA_VERSION); ("worktree_root", JPath (worktree_root paths));
     ("git_dir", JPath (git_dir paths)); ("common_git_dir", JPath (common_git_dir paths));
     ("index_file", JPath (index_file paths)); ("index_lock_file", JPath (index_lock_file paths));
     ("index", JObj (fingerprint_fields index)); ("lock", JObj (lock_fields lock));
     ("activity", JObj (activity_fields activity));
     ("matching_managed_proof", JBool matching_managed_proof)]).

Definition recovery_fingerprint (paths : GitMutationPaths) (index : GitFileFingerprint)
    (lock : NativeGitLockSnapshot) (activity : LegacyManagedActivity) (matching_managed_proof : bool)
  : string :=
  sha256_hex (payload_text paths index lock activity matching_managed_proof).

Definition fingerprint_file (p : PathBuf) : IO (result GitFileFingerprint string) :=
  do? before <- map_error (fun e => "cannot inspect index file: " ++ error_kind e)
                  (call_world (SymlinkMetadata p));
  require (negb (is_symlink before || negb (is_file before)
                 || (INDEX_EVIDENCE_MAX_BYTES <? md_len before)%Z))
    "active Git index is not a supported regular file"
  (do? file <- map_error (fun e => "cannot open index file: " ++ error_kind e)
                 (call_world (OpenRead p));
   do? opened <- map_error (fun e => "cannot inspect opened index: " ++ error_kind e)
                   (call_world (Fstat file));
   require (same_metadata before opened) "active Git index changed while opening"
   (do reads <- call_world (ReadFile file);
    do? bytes <- lift (bytes_within INDEX_EVIDENCE_MAX_BYTES 0
                         "active Git index exceeds the evidence size limit" reads.1);
    do? _ <- lift (match reads.2 with
                   | Some e => Err ("cannot read index file: " ++ error_kind e)
                   | None => Ok tt
                   end);
    do? after <- map_error (fun e => "cannot recheck opened index: " ++ error_kind e)
                   (call_world (Fstat file));
    do? current <- map_error (fun e => "active Git index path changed: " ++ error_kind e)
                     (call_world (SymlinkMetadata p));
    require (same_metadata before after && same_metadata before current
             && (bytes =? md_len before)%Z)
      "active Git index changed while fingerprinting"
    (Ret (Ok (fingerprint_of before (sha256_hex (String.concat "" reads.1))))))).

(** ** Inspection *)

Section procfs.
Context (root : PathBuf).

Fixpoint activity_of (paths : GitMutationPaths) (records started : list GitRecoveryEvent)
    (inspected : list string) (active : list ManagedProcessIdentity)
  : IO (result LegacyManagedActivity string) :=
  match started with
  | [] =>
      let active := dedup (insertion_sort process_le active) in
      Ret (Ok (match active with
               | [] => ActivityClear inspected
               | _ => ActivityActive active
               end))
  | record :: started =>
      if negb (event_is_relevant_to_lock (ge_data record) paths)
      then activity_of paths records started inspected active
      else
        let inspected := (inspected ++ [ge_event_id record])%list in
        do? scope <- lift (parse_process_scope (ge_data record) paths);
        do? _ <- lift (matching_finish records scope (ge_event_id record));
        do ticks <- start_time_ticks root (mp_pid (ps_owner scope));
        match ticks with
        | Err reason => Ret (Ok (ActivityUncertain reason))
        | Ok current =>
            if bool_decide (current = Some (mp_start_time_ticks (ps_owner scope)))
            then activity_of paths records started inspected (active ++ [ps_owner scope])%list
            else
              do group <- process_group_exists (ps_process_group_id scope);
              match group with
              | Err reason => Ret (Ok (ActivityUncertain reason))
              | Ok true => activity_of paths records started inspected (active ++ [ps_owner scope])%list
              | Ok false => activity_of paths records started inspected active
              end
        end
  end.

Section ledger.
Context (segments_dir : PathBuf).

Definition inspect_managed_activity (paths : GitMutationPaths)
  : IO (result LegacyManagedActivity string) :=
  do? records <- read_recovery segments_dir [STARTED; FINISHED];
  activity_of paths records (List.filter (fun r => String.eqb (ge_event_type r) STARTED) records) [] [].

(** One record of a held lock. *)
Definition held_by_process (paths : GitMutationPaths) (snapshot : NativeGitLockSnapshot) (data : json)
  : result bool string :=
  if negb (names "index_lock_file" (display (index_lock_file paths)) data) then Ok false
  else
    let? version := option_context (member_u64 "schema_version" data)
                      "native lock ownership event has no schema version" in
    let? _ := ensure (version =? 2)%Z
      "native lock ownership event has an unsupported schema; legacy apply is blocked" in
    let? proof := option_context (proof_of_json data) "native lock ownership event is malformed" in
    Ok (proof_matches_paths proof paths && bool_decide (pf_lock proof = snapshot)).

Fixpoint any_held (paths : GitMutationPaths) (snapshot : NativeGitLockSnapshot)
    (records : list GitRecoveryEvent) : result bool string :=
  match records with
  | [] => Ok false
  | record :: records =>
      let? held := held_by_process paths snapshot (ge_data record) in
      if held then Ok true else any_held paths snapshot records
  end.

Definition has_matching_managed_proof (paths : GitMutationPaths) (snapshot : NativeGitLockSnapshot)
  : IO (result bool string) :=
  do? records <- read_recovery segments_dir [LOCK_HELD_EVENT];
  lift (any_held paths snapshot records).

Definition inspect_lock (p : PathBuf) : IO (result (option NativeGitLockSnapshot) string) :=
  do found <- call_world (SymlinkMetadata p);
  match found with
  | Ok metadata =>
      require (negb (is_symlink metadata || negb (is_file metadata)))
        "native index lock is not a regular file"
      (do? lock <- map_error display_error (snapshot_lock p); Ret (Ok (Some lock)))
  | Err NotFound => Ret (Ok None)
  | Err e => Ret (Err ("cannot inspect native index lock: " ++ error_kind e))
  end.

Definition legacy_quarantine_file (common_git_dir : PathBuf) (fingerprint : string) : PathBuf :=
  path_sub common_git_dir
    ["exomonad-mutation"; QUARANTINE_DIRECTORY; "legacy-" ++ fingerprint ++ ".lock"].

Section safety.
Context (managed_worktree worktree : PathBuf).

Definition legacy_paths : IO (result GitMutationPaths string) :=
  map_error display_error (resolve_paths_with_index_override managed_worktree worktree None).

Definition inspect_legacy_git_lock_with : IO (result LegacyGitLockInspection string) :=
  do? paths <- legacy_paths;
  do? index <- fingerprint_file (index_file paths);
  do? lock <- inspect_lock (index_lock_file paths);
  do? matching <- match lock with
                  | Some lock => has_matching_managed_proof paths lock
                  | None => Ret (Ok false)
                  end;
  do? activity <- inspect_managed_activity paths;
  let fingerprint := (fun lock => recovery_fingerprint paths index lock activity matching) <$> lock in
  Ret (Ok {| in_schema_version := LEGACY_SCHEMA_VERSION; in_worktree_root := worktree_root paths;
             in_git_dir := git_dir paths; in_common_git_dir := common_git_dir paths;
             in_index_file := index_file paths; in_index_lock_file := index_lock_file paths;
             in_index := index; in_lock := lock; in_managed_activity := activity;
             in_matching_managed_proof := matching; in_recovery_fingerprint := fingerprint;
             in_quarantine_file := legacy_quarantine_file (common_git_dir paths) <$> fingerprint;
             in_operator_scope := OPERATOR_SCOPE |}).

(** ** Eligibility *)

Definition ensure_eligible (inspection : LegacyGitLockInspection) (expected : string)
  : result unit string :=
  let? _ := ensure (bool_decide (in_recovery_fingerprint inspection = Some expected))
              "legacy recovery fingerprint is stale; inspect the lock again" in
  let? _ := ensure (bool_decide (is_Some (in_lock inspection)))
              "native index lock is absent and no matching recovery receipt exists" in
  let? _ := ensure (negb (in_matching_managed_proof inspection))
    "this lock has managed ownership proof; retry init for automatic managed recovery" in
  match in_managed_activity inspection with
  | ActivityClear _ => Ok tt
  | ActivityActive _ =>
      Err "an active recorded ExoMonad Git process or helper prevents legacy recovery"
  | ActivityUncertain reason => Err ("managed process activity is uncertain: " ++ reason)
  end.

Definition current_actor : IO (result ManagedProcessIdentity string) :=
  do pid <- call_world ProcessId;
  do? ticks <- start_time_ticks root pid;
  Ret (match ticks with
       | Some ticks => Ok {| mp_pid := pid; mp_start_time_ticks := ticks |}
       | None => Err "current operator process identity is unavailable"
       end).

Definition new_recovery_data (inspection : LegacyGitLockInspection) (fingerprint : string)
    (writers_stopped : bool) (original_lock : NativeGitLockSnapshot)
  : IO (result LegacyRecoveryData string) :=
  do? actor <- current_actor;
  Ret (match in_quarantine_file inspection with
       | None => Err "recovery quarantine target is unavailable"
       | Some file =>
           Ok {| ld_schema_version := LEGACY_SCHEMA_VERSION; ld_recovery_fingerprint := fingerprint;
                 ld_writer_stopped_authorization := writers_stopped; ld_actor := actor;
                 ld_worktree_root := in_worktree_root inspection; ld_git_dir := in_git_dir inspection;
                 ld_common_git_dir := in_common_git_dir inspection;
                 ld_index_file := in_index_file inspection;
                 ld_index_lock_file := in_index_lock_file inspection; ld_index := in_index inspection;
                 ld_original_lock := original_lock; ld_quarantine_file := file |}
       end).

Definition validate_pending_intent (inspection : LegacyGitLockInspection) (fingerprint : string)
    (data : LegacyRecoveryData) : result unit string :=
  match in_lock inspection with
  | None => Err "authorized legacy lock is missing; inspect the repository again"
  | Some lock =>
      ensure (String.eqb (ld_recovery_fingerprint data) fingerprint
              && ld_writer_stopped_authorization data
              && bool_decide (ld_index data = in_index inspection)
              && bool_decide (ld_original_lock data = lock)
              && bool_decide (Some (ld_quarantine_file data) = in_quarantine_file inspection))
        "pending legacy recovery intent does not match current fingerprinted evidence"
  end.

(** ** Intents and receipts in the log *)

Definition verify_authorized_intent (intents : list GitRecoveryEvent) (data : LegacyRecoveryData)
    (intent_event_id : string) : result unit string :=
  let? _ := ensure ((ld_schema_version data =? LEGACY_SCHEMA_VERSION)%Z
                    && ld_writer_stopped_authorization data)
              "legacy recovery intent lacks supported operator authorization" in
  let? _ := validate_fingerprint (ld_recovery_fingerprint data) in
  match List.filter (fun r => String.eqb (ge_event_id r) intent_event_id) intents with
  | [intent] =>
      let? intent := option_context (legacy_of_json (ge_data intent))
                       "legacy recovery intent is malformed" in
      ensure (bool_decide (intent = data))
        "legacy recovery receipt conflicts with its operator intent"
  | _ => Err "legacy recovery receipt has no unique matching operator intent"
  end.

Definition recovery_receipt (receipt_event_id intent_event_id : string) (data : LegacyRecoveryData)
  : LegacyGitLockRecoveryReceipt :=
  {| lr_recovery_fingerprint := ld_recovery_fingerprint data; lr_intent_event_id := intent_event_id;
     lr_receipt_event_id := receipt_event_id; lr_quarantine_file := ld_quarantine_file data;
     lr_original_lock := ld_original_lock data; lr_index := ld_index data |}.

Definition same_roots (data : LegacyRecoveryData) (paths : GitMutationPaths) : bool :=
  bool_decide (ld_worktree_root data = worktree_root paths)
  && bool_decide (ld_git_dir data = git_dir paths)
  && bool_decide (ld_common_git_dir data = common_git_dir paths).
Definition same_index_paths (data : LegacyRecoveryData) (paths : GitMutationPaths) : bool :=
  bool_decide (ld_index_file data = index_file paths)
  && bool_decide (ld_index_lock_file data = index_lock_file paths).

(** One record of a finished recovery, checked against its intent whether it is
    the one searched or not. *)
Definition completed_receipt (intents : list GitRecoveryEvent) (fingerprint : string)
    (paths : GitMutationPaths) (record : GitRecoveryEvent)
  : result (option LegacyGitLockRecoveryReceipt) string :=
  let? intent_event_id := option_context (member_str "intent_event_id" (ge_data record))
                            "legacy recovery receipt has no intent event ID" in
  let? data := option_context (legacy_of_json (ge_data record))
                 "legacy Git lock recovery receipt is malformed" in
  let? _ := verify_authorized_intent intents data intent_event_id in
  Ok (if String.eqb (ld_recovery_fingerprint data) fingerprint && same_roots data paths
         && same_index_paths data paths
      then Some (recovery_receipt (ge_event_id record) intent_event_id data) else None).

Definition find_completed_receipt (fingerprint : string) (paths : GitMutationPaths)
  : IO (result (option LegacyGitLockRecoveryReceipt) string) :=
  do? records <- read_recovery segments_dir [LEGACY_RECOVERED_EVENT];
  do? intents <- read_recovery segments_dir [LEGACY_INTENT_EVENT];
  lift (let? matches := collect_some (completed_receipt intents fingerprint paths) records in
        match matches with
        | [] => Ok None
        | [receipt] => Ok (Some receipt)
        | _ => Err "duplicate legacy recovery receipts exist for this fingerprint"
        end).

Definition matching_intent (fingerprint : string) (paths : GitMutationPaths) (r : GitRecoveryEvent)
  : result (option (string * LegacyRecoveryData)) string :=
  let? data := option_context (legacy_of_json (ge_data r)) "legacy recovery intent is malformed" in
  Ok (if String.eqb (ld_recovery_fingerprint data) fingerprint && same_roots data paths
      then Some (ge_event_id r, data) else None).
Definition matching_intents (fingerprint : string) (paths : GitMutationPaths)
    (records : list GitRecoveryEvent) : result (list (string * LegacyRecoveryData)) string :=
  collect_some (matching_intent fingerprint paths) records.

(** Everything but the actor. *)
Definition with_actor (actor : ManagedProcessIdentity) (d : LegacyRecoveryData) : LegacyRecoveryData :=
  {| ld_schema_version := ld_schema_version d; ld_recovery_fingerprint := ld_recovery_fingerprint d;
     ld_writer_stopped_authorization := ld_writer_stopped_authorization d; ld_actor := actor;
     ld_worktree_root := ld_worktree_root d; ld_git_dir := ld_git_dir d;
     ld_common_git_dir := ld_common_git_dir d; ld_index_file := ld_index_file d;
     ld_index_lock_file := ld_index_lock_file d; ld_index := ld_index d;
     ld_original_lock := ld_original_lock d; ld_quarantine_file := ld_quarantine_file d |}.
Definition same_recovery_operation (a b : LegacyRecoveryData) : bool :=
  bool_decide (a = with_actor (ld_actor a) b).

Definition validate_matching_intents (records : list GitRecoveryEvent)
    (matching : list (string * LegacyRecoveryData)) (selected : LegacyRecoveryData)
  : result unit string :=
  try_fold (fun _ '(event_id, data) =>
    let? _ := verify_authorized_intent records data event_id in
    ensure (same_recovery_operation selected data)
      "conflicting legacy recovery intents claim the same fingerprint") tt matching.

Definition validate_intent_paths (data : LegacyRecoveryData) (paths : GitMutationPaths)
  : result unit string :=
  ensure (same_roots data paths && same_index_paths data paths
          && bool_decide (path_parent (ld_quarantine_file data) = Some (quarantine_dir paths))
          && bool_decide (path_file_name (ld_quarantine_file data)
                          = Some ("legacy-" ++ ld_recovery_fingerprint data ++ ".lock")))
    "legacy recovery intent does not match canonical Git paths".

Definition legacy_receipt_json (data : LegacyRecoveryData) (intent_event_id : string) : json :=
  jobj (legacy_fields data ++ [("intent_event_id", JStr intent_event_id)]).

Definition append_recovery_receipt (data : LegacyRecoveryData) (intent_event_id : string) (p : PathBuf)
  : IO (result LegacyGitLockRecoveryReceipt string) :=
  do? receipt_event_id <- append_audit_once segments_dir LEGACY_RECOVERED_EVENT
                            (legacy_receipt_json data intent_event_id) p;
  Ret (Ok (recovery_receipt receipt_event_id intent_event_id data)).

(** ** An interrupted recovery *)

Definition ensure_no_managed_activity (paths : GitMutationPaths) : IO (result unit string) :=
  do? activity <- inspect_managed_activity paths;
  Ret (match activity with
       | ActivityClear _ => Ok tt
       | ActivityActive _ =>
           Err "an active recorded ExoMonad Git process or helper prevents interrupted recovery"
       | ActivityUncertain reason =>
           Err ("managed process activity is uncertain during interrupted recovery: " ++ reason)
       end).

Definition validate_interrupted_quarantine (paths : GitMutationPaths) (data : LegacyRecoveryData)
  : IO (result unit string) :=
  do found <- call_world (SymlinkMetadata (index_lock_file paths));
  match found with
  | Ok _ => Ret (Err
      "native index lock remains after interrupted quarantine; recovery receipt withheld")
  | Err NotFound =>
      do? current_index <- fingerprint_file (index_file paths);
      require (bool_decide (current_index = ld_index data))
        "active Git index changed since legacy recovery was authorized" (Ret (Ok tt))
  | Err e => Ret (Err ("cannot verify native index lock was quarantined: " ++ error_kind e))
  end.

Definition complete_interrupted_recovery (fingerprint : string) (paths : GitMutationPaths)
  : IO (result InterruptedLegacyRecovery string) :=
  do? records <- read_recovery segments_dir [LEGACY_INTENT_EVENT];
  do? matching <- lift (matching_intents fingerprint paths records);
  match matching with
  | [] => Ret (Ok NotInterrupted)
  | (intent_id, data) :: _ =>
      do? _ <- lift (validate_matching_intents records matching data);
      do? _ <- lift (validate_intent_paths data paths);
      do? current <- legacy_paths;
      require (bool_decide (current = paths))
        "Git paths changed since legacy recovery was authorized"
      (do? _ <- ensure_no_managed_activity paths;
       do quarantined <- snapshot_lock (ld_quarantine_file data);
       match quarantined with
       | Ok quarantined =>
           require (same_lock_inode (ld_original_lock data) quarantined)
             "interrupted legacy quarantine differs from its intent"
           (do? _ <- validate_interrupted_quarantine paths data;
            do? receipt <- append_recovery_receipt data intent_id (ld_index_lock_file data);
            Ret (Ok (Quarantined receipt)))
       | Err error =>
           Ret (if snapshot_is_missing error then Ok (Pending intent_id data)
                else Err ("cannot inspect interrupted legacy quarantine target: "
                          ++ display_error error))
       end)
  end.

(** ** Applying *)

Definition verify_applied_receipt (receipt : LegacyGitLockRecoveryReceipt)
    (index_file index_lock_file : PathBuf) (already_applied : bool)
  : IO (result LegacyGitLockApplyResult string) :=
  do? quarantined <- map_error (fun e => "retained legacy lock receipt cannot be verified: "
                                         ++ display_error e)
                       (snapshot_lock (lr_quarantine_file receipt));
  require (same_lock_inode (lr_original_lock receipt) quarantined)
    "retained legacy lock differs from its durable recovery receipt"
  (do found <- call_world (SymlinkMetadata index_lock_file);
   do? _ <- match found with
            | Ok _ =>
                do? current <- map_error (fun e => "cannot verify retained legacy recovery lock: "
                                                   ++ display_error e)
                                 (snapshot_lock index_lock_file);
                require (negb (same_lock_inode (lr_original_lock receipt) current))
                  "retained legacy recovery receipt is unsafe while its original native index lock remains"
                  (Ret (Ok tt))
            | Err NotFound => Ret (Ok tt)
            | Err e => Ret (Err ("cannot verify retained legacy recovery removed the native lock: "
                                 ++ error_kind e))
            end;
   do? index <- fingerprint_file index_file;
   require (bool_decide (index = lr_index receipt))
     "retained legacy recovery receipt has stale Git index evidence"
     (Ret (Ok {| ar_receipt := receipt; ar_already_applied := already_applied |}))).

(** The authorised operation: a pending intent or a new one. *)
Definition authorise (interrupted : InterruptedLegacyRecovery) (before : LegacyGitLockInspection)
    (expected_fingerprint : string) (writers_stopped : bool) (lock : NativeGitLockSnapshot)
  : IO (result (LegacyRecoveryData * string) string) :=
  match interrupted with
  | Pending intent_event_id data =>
      do? _ <- lift (validate_pending_intent before expected_fingerprint data);
      Ret (Ok (data, intent_event_id))
  | NotInterrupted =>
      do? data <- new_recovery_data before expected_fingerprint writers_stopped lock;
      do? intent_event_id <- append_audit_once segments_dir LEGACY_INTENT_EVENT (legacy_json data)
                               (in_index_lock_file before);
      Ret (Ok (data, intent_event_id))
  | Quarantined _ => Ret (Err "interrupted legacy recovery state changed unexpectedly")
  end.

(** The second inspection must repeat the first one. *)
Definition confirm_inspection (lease_paths : GitMutationPaths) (before : LegacyGitLockInspection)
    (expected_fingerprint : string) : IO (result unit string) :=
  do? current <- map_error (fun e => "Git path revalidation failed: " ++ display_error e)
                   (resolve_paths_with_index_override managed_worktree worktree None);
  require (bool_decide (current = lease_paths))
    "Git paths changed after acquiring the index mutation lease"
  (do? after <- inspect_legacy_git_lock_with;
   do? _ <- lift (ensure_eligible after expected_fingerprint);
   require (bool_decide (after = before))
     "legacy lock recovery evidence changed after dry-run; inspect again for a new fingerprint"
     (Ret (Ok tt))).

Definition quarantine_legacy_lock (lease_paths : GitMutationPaths)
    (interrupted : InterruptedLegacyRecovery) (expected_fingerprint : string) (writers_stopped : bool)
  : IO (result LegacyGitLockApplyResult string) :=
  do? before <- inspect_legacy_git_lock_with;
  do? _ <- lift (ensure_eligible before expected_fingerprint);
  do? lock <- lift (option_context (in_lock before) "native index lock disappeared");
  do? target <- lift (option_context (in_quarantine_file before)
                        "recovery quarantine target is unavailable");
  do? target_dir <- lift (option_context (path_parent target) "quarantine target has no parent");
  do? _ <- map_error display_error (ensure_safe_lease_directory target_dir);
  do? _ <- check_quarantine_capacity target_dir target;
  do? intent <- authorise interrupted before expected_fingerprint writers_stopped lock;
  let '(data, intent_event_id) := intent in
  do? _ <- confirm_inspection lease_paths before expected_fingerprint;
  do? _ <- map_error (fun e => "cannot quarantine approved native lock: " ++ error_kind e)
             (atomic_move_lock (in_index_lock_file before) target lock);
  do? moved <- map_error display_error (snapshot_lock target);
  require (same_lock_inode lock moved)
    "quarantined lock differs from the approved inode and content"
  (do? receipt <- append_recovery_receipt data intent_event_id (in_index_lock_file before);
   verify_applied_receipt receipt (in_index_file before) (in_index_lock_file before) false).

Definition apply_legacy_git_lock (expected_fingerprint : string) (writers_stopped : bool) (wait : Z)
  : IO (result LegacyGitLockApplyResult string) :=
  require writers_stopped "explicit --writers-stopped authorization is required"
  (do? _ <- lift (validate_fingerprint expected_fingerprint);
   do? paths <- legacy_paths;
   do? completed <- find_completed_receipt expected_fingerprint paths;
   match completed with
   | Some receipt => verify_applied_receipt receipt (index_file paths) (index_lock_file paths) true
   | None =>
       let operation_id := "legacy-lock-" ++ String.substring 0 32 expected_fingerprint in
       do? lease <- map_error display_error
                      (acquire_with_index_override managed_worktree worktree Index operation_id wait None);
       require (bool_decide (le_paths lease = paths))
         "Git index path changed before acquiring the legacy recovery lease"
       (do? interrupted <- complete_interrupted_recovery expected_fingerprint paths;
        match interrupted with
        | Quarantined receipt =>
            verify_applied_receipt receipt (index_file paths) (index_lock_file paths) true
        | pending =>
            quarantine_legacy_lock (le_paths lease) pending expected_fingerprint writers_stopped
        end)
   end).
End safety.
End ledger.
End procfs.
End legacy.
