(* ===== verification/GitChecks.v ===== *)
(** * Git locks: what the checks observe

    What a run of a check with a good result has seen: the evidence that a process
    is gone, that the ledger holds a proof of ownership or an audit record, and how
    [atomic_move_lock] comes to rename; before that, which programs only look and
    which never rename. *)

From S2P Require Import Prelude RustStr JsonValue Paths Effects GitEvidence GitPoll GitLedger.
From S2P Require Import GitMutation GitOwner GitRecovery GitLegacy.

(** * Git locks: programs that only look

    Which programs of the Git-lock services leave the world as it is, which of them
    never rename, and that every one of them ends under a running clock. *)

(** Calls that change no file and no log. *)
Definition observes (c : call) : bool :=
  match c with
  | CreateDir _ | OpenLease _ | SetLen _ _ | SeekStart _ | WriteAll _ _ | SyncData _ | SyncAll _
  | RenameNoReplace _ _ _ _ | AppendEvent _ _ _ => false
  | _ => true
  end.
(** Calls that do not move a file. *)
Definition keeps_names (c : call) : bool :=
  match c with RenameNoReplace _ _ _ _ => false | _ => true end.

Lemma observes_keeps c : observes c = true -> keeps_names c = true.
Proof. by destruct c. Qed.

(** [always] with [retry_until] in the program. *)

Lemma only_poll {A B} kind fuel i d (attempt : IO (A + B)) on_timeout :
  kind Now = true -> (forall n, kind (Sleep n) = true) -> kind Exhausted = true ->
  only kind attempt -> (forall b, only kind (on_timeout b)) ->
  only kind (poll fuel i d attempt on_timeout).
Proof.
  intros Hn Hs He Ha Hg. induction fuel as [|fuel IH]; cbn.
  all: apply only_bind; [done|]; intros [a|b]; [done|]; split; [done|]; intros now.
  all: destruct (now <? d)%Z; [|apply Hg].
  - by split.
  - split; [done|]. intros now'. split; [apply Hs|]. done.
Qed.
Lemma only_retry {A B} kind i w (attempt : IO (A + B)) on_timeout :
  kind Now = true -> (forall n, kind (Sleep n) = true) -> kind Exhausted = true ->
  only kind attempt -> (forall s b, only kind (on_timeout s b)) ->
  only kind (retry_until i w attempt on_timeout).
Proof. intros. split; [done|]. intros s. by apply only_poll. Qed.

Create HintDb observes discriminated.

Ltac observe_step :=
  match goal with
  | |- only _ (or_uncertain _ _ _) => apply only_map_error
  | |- only _ (or_verdict _ _) => apply only_map_error
  | |- only _ (retry_until _ _ _ _) => apply only_retry; [done|done|done| |intros ? ?]
  | |- only _ (let _ := _ in _) => cbv zeta
  end.
Ltac observe_solve :=
  repeat first [progress (auto with observes nocore) | only_step | observe_step].

Section programs.
Context `{Sha256} `{JsonText}.
Notation looks := (only observes).

(** ** Paths and the ledger *)

Lemma canonical_directory_observes p w : looks (canonical_directory p w).
Proof. unfold canonical_directory. observe_solve. Qed.
Lemma reject_symlink_observes p w : looks (reject_symlink p w).
Proof. unfold reject_symlink. observe_solve. Qed.
Lemma reject_optional_symlink_observes p w : looks (reject_optional_symlink p w).
Proof. unfold reject_optional_symlink. observe_solve. Qed.
Lemma git_path_observes w a o : looks (git_path w a o).
Proof. unfold git_path. observe_solve. Qed.
Lemma canonicalize_leaf_parent_observes p w : looks (canonicalize_leaf_parent p w).
Proof. unfold canonicalize_leaf_parent. observe_solve. Qed.
#[local] Hint Resolve canonical_directory_observes reject_symlink_observes
  reject_optional_symlink_observes git_path_observes canonicalize_leaf_parent_observes : observes.

Lemma resolve_paths_observes m w o : looks (resolve_paths_with_index_override m w o).
Proof.
  unfold resolve_paths_with_index_override, managed_roots, shared_git_dir. observe_solve.
Qed.

Lemma read_segment_observes s ty sel : looks (read_segment s ty sel).
Proof. unfold read_segment. observe_solve. Qed.
Lemma read_segments_observes ss ty sel : looks (read_segments ss ty sel).
Proof.
  revert sel. induction ss as [|s ss IH]; intros sel; cbn [read_segments]; [done|].
  apply only_bind_ok; [apply read_segment_observes|apply IH].
Qed.
Lemma read_segment_paths_observes d : looks (read_segment_paths d).
Proof. unfold read_segment_paths. observe_solve. Qed.
#[local] Hint Resolve read_segments_observes read_segment_paths_observes : observes.
Lemma ledger_lock_observes d w : looks (acquire_existing_shared_ledger_lock d w).
Proof. unfold acquire_existing_shared_ledger_lock, try_shared. observe_solve. Qed.
#[local] Hint Resolve ledger_lock_observes : observes.
Lemma read_events_observes d ty w : looks (read_git_recovery_events_at d ty w).
Proof. unfold read_git_recovery_events_at. observe_solve. Qed.

(** ** Locks and processes *)

Lemma snapshot_lock_observes p : looks (snapshot_lock p).
Proof. unfold snapshot_lock. observe_solve. Qed.
Lemma start_time_ticks_observes r pid : looks (start_time_ticks r pid).
Proof. unfold start_time_ticks. observe_solve. Qed.
Lemma process_group_exists_observes g : looks (process_group_exists g).
Proof. unfold process_group_exists. observe_solve. Qed.
Lemma fingerprint_file_observes p : looks (fingerprint_file p).
Proof. unfold fingerprint_file. observe_solve. Qed.
#[local] Hint Resolve resolve_paths_observes read_events_observes snapshot_lock_observes
  start_time_ticks_observes process_group_exists_observes fingerprint_file_observes : observes.

Lemma any_descriptor_observes d dev ino es : looks (any_descriptor d dev ino es).
Proof. induction es as [|[n|e] es IH]; cbn [any_descriptor]; [done| |done]. observe_solve. Qed.
Lemma holds_inode_observes r pid dev ino : looks (holds_inode r pid dev ino).
Proof.
  unfold holds_inode, process_is_zombie. pose proof any_descriptor_observes. observe_solve.
Qed.
Lemma managed_scope_active_observes r s : looks (managed_scope_active r s).
Proof. unfold managed_scope_active. observe_solve. Qed.
Lemma read_recovery_observes d ty : looks (read_recovery d ty).
Proof. apply read_events_observes. Qed.
#[local] Hint Resolve read_recovery_observes managed_scope_active_observes : observes.
Lemma matching_process_scope_observes d p pf : looks (matching_process_scope d p pf).
Proof. unfold matching_process_scope. observe_solve. Qed.
Lemma located_proofs_observes d p s rs found : looks (located_proofs d p s rs found).
Proof.
  revert found. induction rs as [|r rs IH]; intros found; cbn [located_proofs]; [done|].
  pose proof matching_process_scope_observes. observe_solve.
Qed.
Lemma matching_proof_observes d p s : looks (matching_proof d p s).
Proof. unfold matching_proof. pose proof located_proofs_observes. observe_solve. Qed.
Lemma find_audit_event_observes d ty j p : looks (find_audit_event d ty j p).
Proof. unfold find_audit_event. observe_solve. Qed.
Lemma verify_proof_event_observes d i e p : looks (verify_proof_event d i e p).
Proof. unfold verify_proof_event. observe_solve. Qed.
Lemma verify_quarantined_owner_observes r s p : looks (verify_quarantined_owner r s p).
Proof. unfold verify_quarantined_owner. observe_solve. Qed.
Lemma open_directory_observes p : looks (open_directory_nofollow p).
Proof. unfold open_directory_nofollow. observe_solve. Qed.
Lemma check_capacity_observes d t : looks (check_quarantine_capacity d t).
Proof. unfold check_quarantine_capacity. observe_solve. Qed.
#[local] Hint Resolve matching_process_scope_observes matching_proof_observes
  find_audit_event_observes verify_proof_event_observes verify_quarantined_owner_observes
  open_directory_observes check_capacity_observes : observes.

Lemma validate_current_paths_observes m l : looks (validate_current_paths m l).
Proof. unfold validate_current_paths. observe_solve. Qed.
#[local] Hint Resolve validate_current_paths_observes : observes.
Lemma revalidate_observes r d m l pf : looks (revalidate_before_quarantine r d m l pf).
Proof. unfold revalidate_before_quarantine. observe_solve. Qed.
Lemma verify_moved_observes pf f w : looks (verify_moved pf f w).
Proof. unfold verify_moved. observe_solve. Qed.
Lemma lock_vanished_observes l : looks (lock_vanished l).
Proof. unfold lock_vanished. observe_solve. Qed.
#[local] Hint Resolve revalidate_observes verify_moved_observes lock_vanished_observes : observes.
Lemma verify_receipt_observes r d l i a : looks (verify_quarantine_receipt r d l i a).
Proof. unfold verify_quarantine_receipt. observe_solve. Qed.

(** ** Inspection *)

Lemma activity_of_observes r p rs st ins act : looks (activity_of r p rs st ins act).
Proof.
  revert ins act. induction st as [|s st IH]; intros ins act; cbn [activity_of]; [done|]. observe_solve.
Qed.
Lemma inspect_managed_activity_observes r d p : looks (inspect_managed_activity r d p).
Proof. unfold inspect_managed_activity. pose proof activity_of_observes. observe_solve. Qed.
#[local] Hint Resolve inspect_managed_activity_observes : observes.
Lemma inspect_observes r d m w : looks (inspect_legacy_git_lock_with r d m w).
Proof.
  unfold inspect_legacy_git_lock_with, legacy_paths, inspect_lock, has_matching_managed_proof.
  observe_solve.
Qed.
Lemma find_completed_receipt_observes d f p : looks (find_completed_receipt d f p).
Proof. unfold find_completed_receipt. observe_solve. Qed.
#[local] Hint Resolve inspect_observes : observes.
Lemma confirm_inspection_observes r d m w lp b f : looks (confirm_inspection r d m w lp b f).
Proof. unfold confirm_inspection. observe_solve. Qed.
Lemma verify_applied_receipt_observes rc i l a : looks (verify_applied_receipt rc i l a).
Proof. unfold verify_applied_receipt. observe_solve. Qed.
End programs.

#[export] Hint Resolve resolve_paths_observes read_events_observes read_recovery_observes
  snapshot_lock_observes start_time_ticks_observes process_group_exists_observes
  fingerprint_file_observes holds_inode_observes managed_scope_active_observes
  matching_process_scope_observes matching_proof_observes find_audit_event_observes
  verify_proof_event_observes verify_quarantined_owner_observes open_directory_observes
  check_capacity_observes validate_current_paths_observes revalidate_observes
  verify_moved_observes lock_vanished_observes verify_receipt_observes
  inspect_managed_activity_observes inspect_observes find_completed_receipt_observes
  confirm_inspection_observes verify_applied_receipt_observes canonical_directory_observes
  reject_symlink_observes reject_optional_symlink_observes : observes.

(** ** Programs that write, but move nothing *)

Create HintDb keeps discriminated.
#[export] Hint Extern 1 (only keeps_names _) =>
  apply (only_mono observes); [exact observes_keeps|solve [auto with observes nocore]] : keeps.
Ltac keeps_solve :=
  repeat first [progress (auto with keeps nocore) | only_step | observe_step].

Section keeping.
Context `{Sha256} `{JsonText}.
Notation keeps := (only keeps_names).

Lemma append_audit_once_keeps d ty j p : keeps (append_audit_once d ty j p).
Proof. unfold append_audit_once. keeps_solve. Qed.
Lemma ensure_safe_keeps p : keeps (ensure_safe_lease_directory p).
Proof. unfold ensure_safe_lease_directory, create_lease_directory. keeps_solve. Qed.
#[local] Hint Resolve append_audit_once_keeps ensure_safe_keeps : keeps.
Lemma append_receipt_keeps d l r : keeps (append_receipt d l r).
Proof. unfold append_receipt. keeps_solve. Qed.
#[local] Hint Resolve append_receipt_keeps : keeps.
Lemma complete_quarantine_keeps r d l i a : keeps (complete_interrupted_quarantine r d l i a).
Proof. unfold complete_interrupted_quarantine. keeps_solve. Qed.
#[local] Hint Resolve complete_quarantine_keeps : keeps.
Lemma reconcile_absent_keeps r d l : keeps (reconcile_absent_lock r d l).
Proof. unfold reconcile_absent_lock. keeps_solve. Qed.

Lemma verify_open_path_keeps h p : keeps (verify_open_path h p).
Proof. unfold verify_open_path. keeps_solve. Qed.
Lemma open_lease_keeps p : keeps (open_lease_file p).
Proof. unfold open_lease_file. pose proof verify_open_path_keeps. keeps_solve. Qed.
Lemma write_lease_keeps h p r o : keeps (write_lease_record h p r o).
Proof. unfold write_lease_record, process_start_identity. keeps_solve. Qed.
#[local] Hint Resolve verify_open_path_keeps open_lease_keeps write_lease_keeps : keeps.
Lemma try_lease_keeps m p r o i : keeps (try_lease m p r o i).
Proof. unfold try_lease, complete_lease. keeps_solve. Qed.
#[local] Hint Resolve try_lease_keeps : keeps.
Lemma acquire_resolved_keeps m p r o w i : keeps (acquire_resolved m p r o w i).
Proof. unfold acquire_resolved, lease_busy. keeps_solve. Qed.
#[local] Hint Resolve acquire_resolved_keeps : keeps.
Lemma acquire_keeps m w r o wait i : keeps (acquire_with_index_override m w r o wait i).
Proof. unfold acquire_with_index_override. keeps_solve. Qed.

Lemma legacy_paths_keeps m w : keeps (legacy_paths m w).
Proof. unfold legacy_paths. keeps_solve. Qed.
Lemma append_recovery_receipt_keeps d dt i p : keeps (append_recovery_receipt d dt i p).
Proof. unfold append_recovery_receipt. keeps_solve. Qed.
#[local] Hint Resolve legacy_paths_keeps append_recovery_receipt_keeps : keeps.
Lemma complete_recovery_keeps r d m w f p : keeps (complete_interrupted_recovery r d m w f p).
Proof.
  unfold complete_interrupted_recovery, ensure_no_managed_activity, validate_interrupted_quarantine.
  keeps_solve.
Qed.
Lemma authorise_keeps r d x b f ws l : keeps (authorise r d x b f ws l).
Proof. unfold authorise, new_recovery_data, current_actor. keeps_solve. Qed.
End keeping.

#[export] Hint Resolve append_audit_once_keeps ensure_safe_keeps append_receipt_keeps
  complete_quarantine_keeps reconcile_absent_keeps acquire_resolved_keeps acquire_keeps
  legacy_paths_keeps append_recovery_receipt_keeps complete_recovery_keeps authorise_keeps : keeps.

Local Open Scope string_scope.

Ltac git_step :=
  match goal with
  | H : runs (map_error _ _) _ (Ok _) |- _ => apply runs_map_error_ok in H; runs_calls
  | H : runs (or_uncertain _ _ _) _ (Ok _) |- _ => apply runs_map_error_ok in H; runs_calls
  | H : runs (or_verdict _ _) _ (Ok _) |- _ => apply runs_map_error_ok in H; runs_calls
  | H : runs (lift _) _ _ |- _ => apply runs_lift in H as [-> H]
  | _ => runs_step
  end.
Ltac git_solve := repeat first [git_step | case_result].

(** ** Errors of one kind *)

Definition refuses {A E} (P : E -> Prop) (p : IO (result A E)) : Prop :=
  forall t e, runs p t (Err e) -> P e.

Lemma refuses_bind_ok {A B E} (P : E -> Prop) (p : IO (result A E)) (f : A -> IO (result B E)) :
  refuses P p -> (forall a, refuses P (f a)) -> refuses P (pbind_ok p f).
Proof.
  intros Hp Hf t e (t1 & [a|e'] & t2 & -> & R1 & R2)%runs_bind_ok_inv; [by eapply Hf|].
  destruct R2 as [_ [= ->]]. by eapply Hp.
Qed.
Lemma refuses_bind {A B E} (P : E -> Prop) (p : IO A) (f : A -> IO (result B E)) :
  (forall a, refuses P (f a)) -> refuses P (pbind p f).
Proof. intros Hf t e (t1 & a & t2 & -> & R1 & R2)%runs_bind_inv. by eapply Hf. Qed.
Lemma refuses_map_error {A E E'} (P : E' -> Prop) (f : E -> E') (p : IO (result A E)) :
  (forall e, P (f e)) -> refuses P (map_error f p).
Proof. intros Hf. apply refuses_bind. intros [a|e] t e' [_ ?]%runs_ret; by simplify_eq. Qed.
Lemma refuses_require {A E} (P : E -> Prop) b e (k : IO (result A E)) :
  P e -> refuses P k -> refuses P (require b e k).
Proof. intros He Hk. destruct b; [done|]. intros t e' [_ ?]%runs_ret. by simplify_eq. Qed.
Lemma refuses_ret {A E} (P : E -> Prop) (r : result A E) :
  match r with Ok _ => True | Err e => P e end -> refuses P (Ret r).
Proof. intros Hr t e [_ Hre]%runs_ret. by subst r. Qed.

(** Down the structure of a program to its errors. *)
Ltac refuses_step :=
  match goal with
  | |- refuses _ (pbind_ok _ _) => apply refuses_bind_ok; [|intros ?]
  | |- refuses _ (pbind _ _) => apply refuses_bind; intros ?
  | |- refuses _ (map_error _ _) => apply refuses_map_error; intros ?
  | |- refuses _ (or_verdict _ _) => apply refuses_map_error; intros ?
  | |- refuses _ (require _ _ _) => apply refuses_require
  | |- refuses _ (Ret _) => apply refuses_ret
  | |- refuses _ (match ?x with _ => _ end) => destruct x
  | |- context [match ?x with _ => _ end] =>
      lazymatch x with context [match _ with _ => _ end] => fail | _ => destruct x end
  end.
Ltac refuses_solve := repeat first [done | refuses_step].

Lemma allowed_map_error {A E E'} ok t (f : E -> E') (p : IO (result A E)) :
  allowed ok t p -> allowed ok t (map_error f p).
Proof. intros Hp. apply allowed_bind; [done|]. intros. exact I. Qed.

Lemma push_fold_in {A} (f : GitRecoveryEvent -> result (option A) string) rs found out :
  try_fold (fun found r => let? a := f r in Ok (push_some found a)) found rs = Ok out ->
  forall x, In x out -> In x found \/ exists r, In r rs /\ f r = Ok (Some x).
Proof.
  revert found. induction rs as [|r rs IH]; intros found; cbn [try_fold].
  - intros [= ->] x Hx. by left.
  - destruct (f r) as [[a|]|e] eqn:E; [| |done]; intros F x Hx.
    + destruct (IH _ F x Hx) as [Hin|(r' & ? & ?)]; [|right; exists r'; cbn; auto].
      apply in_app_or in Hin as [Hin|[<-|[]]]; [by left|]. right. exists r. cbn. auto.
    + destruct (IH _ F x Hx) as [Hin|(r' & ? & ?)]; [by left|right; exists r'; cbn; auto].
Qed.
Lemma collect_some_in {A} (f : GitRecoveryEvent -> result (option A) string) rs out :
  collect_some f rs = Ok out -> forall x, In x out -> exists r, In r rs /\ f r = Ok (Some x).
Proof. intros E x Hx. by destruct (push_fold_in _ _ _ _ E x Hx). Qed.

Section checks.
Context `{SHA : Sha256} `{TEXT : JsonText}.

(** ** Processes *)

Section procfs.
Context (root segments_dir : PathBuf).

(** [/proc] had no such process, or one that started at another time. *)
Definition process_gone (t : trace) (p : ManagedProcessIdentity) : Prop :=
  exists r, seen t (ReadToString (proc_stat_path root (mp_pid p))) r
    /\ (r = Err NotFound
        \/ exists stat ticks, r = Ok stat /\ stat_start_time stat = Some ticks
                              /\ ticks <> mp_start_time_ticks p).
Definition scope_gone (t : trace) (s : ManagedProcessScope) : Prop :=
  process_gone t (sc_owner s) /\ seen t (KillGroup (sc_process_group_id s)) KillNoGroup.

Lemma process_gone_l t t' p : process_gone t p -> process_gone (t ++ t')%list p.
Proof. intros (r & Hs & Hr). exists r. split; [by apply seen_l|done]. Qed.
Lemma process_gone_r t t' p : process_gone t' p -> process_gone (t ++ t')%list p.
Proof. intros (r & Hs & Hr). exists r. split; [by apply seen_r|done]. Qed.
Lemma scope_gone_l t t' s : scope_gone t s -> scope_gone (t ++ t')%list s.
Proof. intros [H1 H2]. split; [by apply process_gone_l|by apply seen_l]. Qed.
Lemma scope_gone_r t t' s : scope_gone t' s -> scope_gone (t ++ t')%list s.
Proof. intros [H1 H2]. split; [by apply process_gone_r|by apply seen_r]. Qed.

Lemma start_time_said pid t cur :
  runs (start_time_ticks root pid) t (Ok cur) ->
  exists r, seen t (ReadToString (proc_stat_path root pid)) r
    /\ (r = Err NotFound /\ cur = None
        \/ exists stat ticks, r = Ok stat /\ stat_start_time stat = Some ticks /\ cur = Some ticks).
Proof.
  unfold start_time_ticks. intros R. git_solve; eexists; (split; [apply seen_here|]); eauto 10.
Qed.

Lemma process_group_said g t : runs (process_group_exists g) t (Ok false) -> seen t (KillGroup g) KillNoGroup.
Proof. unfold process_group_exists. intros R. git_solve. apply seen_here. Qed.

Lemma managed_scope_gone s t : runs (managed_scope_active root s) t (Ok false) -> scope_gone t s.
Proof.
  unfold managed_scope_active. intros R. git_step. git_step; [by git_solve|].
  apply process_group_said in R. split; [apply process_gone_l|by apply seen_r].
  match goal with H : runs (start_time_ticks _ _) _ _ |- _ =>
    apply start_time_said in H as (r & Hs & Hr) end.
  exists r. split; [done|]. destruct Hr as [[-> ->]|(stat & ticks & -> & Hst & ->)]; [by left|right].
  exists stat, ticks. split; [done|]. split; [done|]. intros ->. by apply bool_decide_eq_false in Heqb.
Qed.

(** ** The ledger *)

Definition ledger_says (t : trace) (types : list string) (records : list GitRecoveryEvent) : Prop :=
  performed t (read_recovery segments_dir types) (Ok records).

(** An event is in the log: its append was answered, or it was read back. *)
Definition durable (t : trace) (event_type : string) (data : json) (event_id : string) : Prop :=
  seen t (AppendEvent event_type "git-mutation" data) (Some event_id)
  \/ exists records, ledger_says t [event_type] records
       /\ In {| ge_event_id := event_id; ge_event_type := event_type; ge_data := data |} records.

Lemma durable_l t t' ty d i : durable t ty d i -> durable (t ++ t')%list ty d i.
Proof.
  intros [Hs|(rs & Hr & Hi)]; [left; by apply seen_l|right]. exists rs. split; [by apply performed_l|done].
Qed.
Lemma durable_r t t' ty d i : durable t' ty d i -> durable (t ++ t')%list ty d i.
Proof.
  intros [Hs|(rs & Hr & Hi)]; [left; by apply seen_r|right]. exists rs. split; [by apply performed_r|done].
Qed.

Lemma matching_event_in ty d rs i :
  matching_event ty d rs = Some i ->
  In {| ge_event_id := i; ge_event_type := ty; ge_data := d |} rs.
Proof.
  unfold matching_event. intros H. destruct (find _ rs) as [r|] eqn:E; [|done].
  apply find_some in E as [Hin [Ht Hd]%andb_true_iff]. injection H as <-.
  apply String.eqb_eq in Ht as <-. apply bool_decide_eq_true in Hd as <-. by destruct r.
Qed.

Lemma matching_event_none ty d rs i :
  matching_event ty d rs = None ->
  ~ In {| ge_event_id := i; ge_event_type := ty; ge_data := d |} rs.
Proof.
  unfold matching_event. destruct (find _ rs) eqn:E; [done|]. intros _ Hin.
  eapply find_none in E; [|exact Hin]. cbn in E.
  by rewrite String.eqb_refl, bool_decide_eq_true_2 in E.
Qed.

Lemma find_audit_said ty d p t o :
  runs (find_audit_event segments_dir ty d p) t (Ok o) ->
  exists records, ledger_says t [ty] records /\ o = matching_event ty d records.
Proof.
  unfold find_audit_event. intros R. git_step. git_step. apply runs_ret in R as [-> [= <-]].
  eexists. rewrite app_nil_r. split; [by apply performed_here|done].
Qed.

Lemma find_audit_durable ty d p t i :
  runs (find_audit_event segments_dir ty d p) t (Ok (Some i)) -> durable t ty d i.
Proof.
  intros (rs & Hl & E)%find_audit_said. right. exists rs. split; [done|]. by apply matching_event_in.
Qed.

Lemma append_audit_durable ty d p t i :
  runs (append_audit_once segments_dir ty d p) t (Ok i) -> durable t ty d i.
Proof.
  unfold append_audit_once. intros R. git_step. git_step.
  - git_solve. rewrite app_nil_r. by eapply find_audit_durable.
  - git_step. git_step; [|].
    + git_solve. left. apply seen_r, seen_here.
    + git_step. git_solve. unfold option_context in *. case_match; simplify_eq.
      rewrite app_nil_r. apply durable_r, durable_r. by eapply find_audit_durable.
Qed.

(** ** Proofs of ownership *)

(** The matching proofs among the records, as one pass. *)
Definition held_record (paths : GitMutationPaths) (snapshot : NativeGitLockSnapshot)
    (r : GitRecoveryEvent) : result (option (string * ManagedNativeLockProof)) string :=
  let? p := held_proof paths snapshot (ge_data r) in Ok ((fun p => (ge_event_id r, p)) <$> p).
Definition held_in (paths : GitMutationPaths) (snapshot : NativeGitLockSnapshot)
    (records : list GitRecoveryEvent) : result (list (string * ManagedNativeLockProof)) string :=
  collect_some (held_record paths snapshot) records.

(** The ledger has one matching proof, every record that names the lock being
    readable; and one start of its process. *)
Definition owner_recorded (t : trace) (paths : GitMutationPaths) (snapshot : NativeGitLockSnapshot)
    (lp : LocatedProof) : Prop :=
  (exists records, ledger_says t [LOCK_HELD_EVENT] records
     /\ held_in paths snapshot records = Ok [(lp_event_id lp, lp_proof lp)])
  /\ exists records, ledger_says t [STARTED] records
       /\ scopes_in paths (lp_proof lp) records = Ok [lp_scope lp].

Lemma owner_recorded_l t t' p s l : owner_recorded t p s l -> owner_recorded (t ++ t')%list p s l.
Proof.
  intros [(r1 & H1 & E1) (r2 & H2 & E2)].
  split; [exists r1|exists r2]; (split; [by apply performed_l|done]).
Qed.
Lemma owner_recorded_r t t' p s l : owner_recorded t' p s l -> owner_recorded (t ++ t')%list p s l.
Proof.
  intros [(r1 & H1 & E1) (r2 & H2 & E2)].
  split; [exists r1|exists r2]; (split; [by apply performed_r|done]).
Qed.

Lemma process_scope_said paths proof t s :
  runs (matching_process_scope segments_dir paths proof) t (Ok s) ->
  exists records, ledger_says t [STARTED] records /\ scopes_in paths proof records = Ok [s].
Proof.
  unfold matching_process_scope. intros R. git_solve. eexists. rewrite !app_nil_r.
  split; [by apply performed_here|done].
Qed.

Definition pair_of (lp : LocatedProof) : string * ManagedNativeLockProof :=
  (lp_event_id lp, lp_proof lp).

Lemma located_proofs_said paths s rs found t lps :
  runs (located_proofs segments_dir paths s rs found) t (Ok lps) ->
  exists new, lps = (found ++ new)%list
    /\ try_fold (fun found r => let? a := held_record paths s r in Ok (push_some found a))
         (map pair_of found) rs = Ok (map pair_of lps)
    /\ Forall (fun lp => exists t1 t2 t3, t = (t1 ++ t2 ++ t3)%list
          /\ runs (matching_process_scope segments_dir paths (lp_proof lp)) t2 (Ok (lp_scope lp))) new.
Proof.
  revert found t. induction rs as [|r rs IH]; intros found t R; cbn [located_proofs] in R.
  - git_solve. exists []. rewrite app_nil_r. by split_and!.
  - git_step. git_step. cbn [try_fold app]. unfold held_record at 1.
    match goal with Hh : held_proof _ _ _ = Ok ?a |- _ => rewrite Hh; destruct a as [pf|] end.
    + git_step. apply IH in R as (new & -> & E & F).
      rewrite map_app in E. rewrite <- app_assoc in E |- *.
      eexists (_ :: new). split; [reflexivity|]. split; [exact E|]. constructor.
      * eexists [], _, _. split; [reflexivity|eassumption].
      * eapply List.Forall_impl; [|exact F]. intros lp (t1 & t2 & t3 & -> & R').
        eexists (_ ++ t1)%list, t2, t3. split; [|exact R']. rewrite <- app_assoc. reflexivity.
    + by apply IH in R.
Qed.

Lemma matching_proof_said paths s t lp :
  runs (matching_proof segments_dir paths s) t (Ok (Some lp)) -> owner_recorded t paths s lp.
Proof.
  unfold matching_proof. intros R. git_step. git_step. git_step. case_match; [done|].
  case_match; simplify_eq. rewrite app_nil_r.
  match goal with Hh : runs (located_proofs _ _ _ _ _) _ _ |- _ =>
    apply located_proofs_said in Hh as (new & E & Ef & F) end.
  cbn in E. subst new. apply Forall_cons_1 in F as [(t1 & t2 & t3 & E & R) _].
  split.
  - eexists. split; [by apply performed_l, performed_here|exact Ef].
  - apply process_scope_said in R as (rs & Hs & Hr). exists rs. split; [|done].
    subst. by apply performed_r, performed_r, performed_l.
Qed.

(** Every matching proof found is of the snapshot and of the paths. *)
Lemma held_proof_fits paths s j p :
  held_proof paths s j = Ok (Some p) ->
  pf_lock p = s /\ proof_matches_paths p paths = true /\ proof_of_json j = Some p.
Proof.
  unfold held_proof. case_match; [done|]. case_match; [|done]. case_match; [|done].
  destruct (proof_of_json j) as [q|]; [|done]. cbn. case_match eqn:E; [|done].
  apply andb_true_iff in E as [E1 E2%bool_decide_eq_true]. intros [= ->]. done.
Qed.

Lemma owner_recorded_fits t paths s lp :
  owner_recorded t paths s lp ->
  pf_lock (lp_proof lp) = s /\ proof_matches_paths (lp_proof lp) paths = true.
Proof.
  intros [(rs & _ & E) _]. destruct (collect_some_in _ _ _ E _ (or_introl eq_refl)) as (r & _ & Hh).
  unfold held_record in Hh. destruct (held_proof _ _ _) as [[p|]|] eqn:Ep; try done.
  injection Hh as _ <-. by apply held_proof_fits in Ep as (? & ? & _).
Qed.
End procfs.

(** ** The move *)

Lemma open_directory_said p t h :
  runs (open_directory_nofollow p) t (Ok h) -> seen t (OpenDirectory p) (Ok h).
Proof. unfold open_directory_nofollow. intros R. git_solve. auto 10 with seen. Qed.

(** The handles and names of a rename are those of these paths. *)
Definition moves (source target : PathBuf) (t : trace) (source_dir : handle) (source_name : string)
    (target_dir : handle) (target_name : string) : Prop :=
  (exists d, path_parent source = Some d /\ path_file_name source = Some source_name
             /\ seen t (OpenDirectory d) (Ok source_dir))
  /\ exists d, path_parent target = Some d /\ path_file_name target = Some target_name
                /\ seen t (OpenDirectory d) (Ok target_dir).

Lemma moves_r source target t t' a b c d :
  moves source target t' a b c d -> moves source target (t ++ t')%list a b c d.
Proof.
  intros [(d1 & ? & ? & ?) (d2 & ? & ? & ?)].
  split; [exists d1|exists d2]; (split; [done|]; split; [done|by apply seen_r]).
Qed.

Lemma parent_and_file_said p d n :
  parent_and_file p = Ok (d, n) -> path_parent p = Some d /\ path_file_name p = Some n.
Proof.
  unfold parent_and_file. destruct (path_parent p); [|done]. cbn.
  destruct (path_file_name p); [|done]. cbn. by intros [= -> ->].
Qed.

Lemma atomic_move_allowed (ok : trace -> event reply -> Prop) past source target expected :
  (forall past e, keeps_names (projT1 e) = true -> ok past e) ->
  (forall t a b c d r, moves source target t a b c d -> performed t (snapshot_lock source) (Ok expected) ->
     ok (past ++ t)%list (did (RenameNoReplace a b c d) r)) ->
  allowed ok past (atomic_move_lock source target expected).
Proof.
  intros Hk Hm. unfold atomic_move_lock. apply (allowed_after_ok keeps_names); [done|exact I|].
  intros t1 [d1 n1] [-> [Hd1 Hn1]%parent_and_file_said]%runs_lift. rewrite app_nil_r.
  apply (allowed_after_ok keeps_names); [done|exact I|].
  intros t2 [d2 n2] [-> [Hd2 Hn2]%parent_and_file_said]%runs_lift. rewrite app_nil_r.
  apply (allowed_after_ok keeps_names); [done|by auto with keeps|].
  intros t3 sh Rs%open_directory_said.
  apply (allowed_after_ok keeps_names); [done|by auto with keeps|].
  intros t4 th Rt%open_directory_said.
  apply (allowed_after_ok keeps_names); [done|apply only_map_error; auto with keeps|].
  intros t5 cur Rc%runs_map_error_ok. rewrite <- !app_assoc.
  destruct (bool_decide (cur = expected)) eqn:E; cbn [require]; [|exact I].
  apply bool_decide_eq_true in E as ->. intros r. split.
  - apply Hm; [split|].
    + exists d1. split; [done|]. split; [done|]. by auto with seen.
    + exists d2. split; [done|]. split; [done|]. by auto with seen.
    + by auto with seen.
  - destruct r as [u|e]; [|exact I]. intros [u'|e]; (split; [by apply Hk|]); [|exact I].
    intros r. split; [by apply Hk|exact I].
Qed.
End checks.

#[export] Hint Resolve scope_gone_l scope_gone_r durable_l durable_r owner_recorded_l
  owner_recorded_r : seen.
