(* ===== verification/GitRecoverySpec.v ===== *)
(** * Git locks: what a recovery needs and leaves

    Every move of a native lock is covered by evidence seen in the same run; each
    verdict says what was seen; the audit records an operation once. *)

From S2P Require Import Prelude RustStr JsonValue Paths Effects.
From S2P Require Import GitEvidence GitPoll GitLedger GitMutation GitOwner GitRecovery.
From S2P Require Import GitChecks.
Local Open Scope string_scope.

Section spec.
Context `{SHA : Sha256} `{TEXT : JsonText}.
Context (root segments_dir managed_worktree : PathBuf) (lease : GitMutationLease).
Let paths := le_paths lease.
Let lock_file := index_lock_file paths.

(** ** The move of a lock *)

(** What was seen after the intent was recorded: the paths are still the lease's,
    the lock is still the empty file of the proof, and its owner and the owner's
    process group are gone. *)
Definition revalidated (t : trace) (proof : ManagedNativeLockProof) : Prop :=
  performed t (resolve_paths_with_index_override managed_worktree (worktree_root paths)
                 (le_index_override lease)) (Ok paths)
  /\ performed t (snapshot_lock lock_file) (Ok (pf_lock proof))
  /\ nl_size (pf_lock proof) = 0%Z
  /\ exists lp, lp_proof lp = proof
       /\ owner_recorded segments_dir t paths (pf_lock proof) lp
       /\ scope_gone root t (lp_scope lp).

Lemma revalidated_l t t' p : revalidated t p -> revalidated (t ++ t')%list p.
Proof.
  intros (H1 & H2 & H3 & lp & Hp & H4 & H5). split; [by apply performed_l|].
  split; [by apply performed_l|]. split; [done|]. exists lp. split; [done|].
  split; [by apply owner_recorded_l|by apply scope_gone_l].
Qed.

Definition intent_of (lp : LocatedProof) : QuarantineAuditData :=
  intent_data (lp_proof lp) (display (quarantine_path paths (lp_event_id lp))) (lp_event_id lp).

Definition move_is_proven (past : trace) (source_dir : handle) (source : string)
    (target_dir : handle) (target : string) : Prop :=
  exists lp intent_event_id before after,
    past = (before ++ after)%list
    /\ moves lock_file (quarantine_path paths (lp_event_id lp)) past source_dir source target_dir target
    /\ owner_recorded segments_dir before paths (pf_lock (lp_proof lp)) lp
    /\ scope_gone root before (lp_scope lp)
    /\ durable segments_dir before QUARANTINE_INTENT_EVENT (audit_json (intent_of lp)) intent_event_id
    /\ revalidated after (lp_proof lp).

Definition move_ok (past : trace) (e : event reply) : Prop :=
  forall a b c d, projT1 e = RenameNoReplace a b c d -> move_is_proven past a b c d.

Lemma kept_ok past e : keeps_names (projT1 e) = true -> move_ok past e.
Proof. intros Hk a b c d E. by rewrite E in Hk. Qed.

Lemma revalidate_said proof t :
  runs (revalidate_before_quarantine root segments_dir managed_worktree lease proof) t (Ok tt) ->
  revalidated t proof.
Proof.
  unfold revalidate_before_quarantine, validate_current_paths. intros R. git_solve. bools.
  rewrite !app_nil_r. split; [by auto with seen|]. split; [by auto with seen|]. split; [done|].
  eexists. split; [reflexivity|]. split.
  - apply owner_recorded_r, owner_recorded_r, owner_recorded_l. by apply matching_proof_said.
  - apply scope_gone_r, scope_gone_r, scope_gone_r. by apply managed_scope_gone.
Qed.

Lemma quarantine_moves past lp t a b c d :
  owner_recorded segments_dir past paths (pf_lock (lp_proof lp)) lp ->
  scope_gone root past (lp_scope lp) ->
  forall intent_event_id,
  durable segments_dir past QUARANTINE_INTENT_EVENT (audit_json (intent_of lp)) intent_event_id ->
  revalidated t (lp_proof lp) ->
  moves lock_file (quarantine_path paths (lp_event_id lp)) (past ++ t)%list a b c d ->
  move_is_proven (past ++ t)%list a b c d.
Proof. intros. by exists lp, intent_event_id, past, t. Qed.

(** Through calls that move nothing. *)
Ltac keep_on := apply (allowed_after_ok keeps_names); [exact kept_ok|apply only_map_error; auto with keeps|].

Lemma quarantine_allowed past lp :
  owner_recorded segments_dir past paths (pf_lock (lp_proof lp)) lp ->
  scope_gone root past (lp_scope lp) ->
  allowed move_ok past (quarantine_proven_lock root segments_dir managed_worktree lease lp).
Proof.
  intros Ho Hs. unfold quarantine_proven_lock, or_verdict. cbv zeta.
  keep_on. intros t1 _ _. keep_on. intros t2 _ _.
  keep_on. intros t3 intent Hi%runs_map_error_ok%append_audit_durable.
  keep_on. intros t4 [] Hr%runs_map_error_ok%revalidate_said.
  apply allowed_bind_ok; [apply allowed_map_error, atomic_move_allowed; [exact kept_ok|]|].
  - intros t5 a b c d r Hm _ a' b' c' d' [= <- <- <- <-]. rewrite <- (app_assoc _ t4 t5).
    eapply quarantine_moves.
    + by do 3 apply owner_recorded_l.
    + by do 3 apply scope_gone_l.
    + apply durable_r, Hi.
    + by apply revalidated_l.
    + by apply moves_r, moves_r.
  - intros t5 []. eapply (allowed_only keeps_names); [exact kept_ok|]. keeps_solve.
Qed.

Lemma reconcile_once_allowed past :
  allowed move_ok past (reconcile_once root segments_dir managed_worktree lease).
Proof.
  unfold reconcile_once. apply (allowed_after keeps_names); [exact kept_ok|by split|]. intros t0 found _.
  destruct found as [m|e]; [|destruct e; try exact I].
  - destruct (is_symlink m); [exact I|]. cbn [negb require]. unfold reconcile_present_lock, or_verdict.
    keep_on. intros t1 s _. keep_on. intros t2 [lp|] Rp%runs_map_error_ok; [|exact I].
    keep_on. intros t3 [] Ra%runs_map_error_ok; [exact I|]. cbn [negb require].
    destruct (nl_size s =? 0)%Z; [|exact I]. cbn [require].
    apply matching_proof_said in Rp. apply managed_scope_gone in Ra.
    pose proof (owner_recorded_fits _ _ _ _ _ Rp) as [E _].
    apply quarantine_allowed; [rewrite E; by apply owner_recorded_l, owner_recorded_r|].
    by apply scope_gone_r.
  - eapply (allowed_only keeps_names); [exact kept_ok|auto with keeps].
Qed.

Lemma reconcile_allowed wait past :
  allowed move_ok past (reconcile_with_inspector root segments_dir managed_worktree lease wait).
Proof.
  unfold reconcile_with_inspector. case_match; [|exact I]. apply allowed_retry; [| |done].
  - intros past'. split; [by apply kept_ok|]. split; intros; by apply kept_ok.
  - intros past'. unfold reconcile_round. apply (allowed_after keeps_names); [exact kept_ok| |].
    { auto with keeps. }
    intros t [[]|e] _; [|exact I]. unfold verdict_of.
    apply allowed_bind; [apply allowed_bind; [apply reconcile_once_allowed|]|]; intros; exact I.
Qed.

(** C6. A native index lock is moved only on proof: in every run of
    [reconcile_native_index_lock], whatever the world answers, a rename is of the
    lock file into the quarantine under the name of the proof's event; the ledger
    had exactly one matching proof, of this inode and these paths, and one start of
    its process; the process and its group were seen gone; the intent was durable;
    and after that the paths, the empty lock, the proof and the absence of the
    process were all seen again. *)
Theorem native_lock_moves_are_proven wait t v :
  runs (reconcile_with_inspector root segments_dir managed_worktree lease wait) t v ->
  forall past a b c d r rest,
    t = (past ++ did (RenameNoReplace a b c d) r :: rest)%list -> move_is_proven past a b c d.
Proof.
  intros R past a b c d r rest E.
  destruct (always_runs _ _ _ _ _ _ (reconcile_allowed wait []) R) as [_ Hok].
  by apply (Hok _ _ _ E a b c d).
Qed.

(** ** Verdicts *)

(** The record is of this receipt: written by this run, or read and decoded. *)
Definition records_receipt (j : json) (r : QuarantineReceiptData) : Prop :=
  j = receipt_json r \/ receipt_of_json j = Some r.

(** A recovery that is complete: its receipt is in the log, the quarantined file
    was seen with the content and inode of the proof, and the owner was seen gone. *)
Definition recovery_complete (t : trace) (receipt : GitLockRecoveryReceipt) : Prop :=
  exists data audit snapshot scope,
    receipt = recovery_result (gr_receipt_event_id receipt) audit
    /\ records_receipt data audit
    /\ (durable segments_dir t QUARANTINED_EVENT data (gr_receipt_event_id receipt)
        \/ exists records,
             ledger_says segments_dir t [QUARANTINED_EVENT; QUARANTINE_INTENT_EVENT] records
             /\ In {| ge_event_id := gr_receipt_event_id receipt; ge_event_type := QUARANTINED_EVENT;
                      ge_data := data |} records)
    /\ performed t (snapshot_lock (quarantine_path paths (qr_proof_event_id audit))) (Ok snapshot)
    /\ same_quarantined_inode (pf_lock (qr_proof audit)) snapshot = true
    /\ qr_quarantined_lock audit = snapshot
    /\ scope_gone root t scope /\ sc_owner scope = pf_owner (qr_proof audit).

Lemma newest_audit_in {A} ty (decode : json -> option A) proof_of rs i a :
  newest_audit lease ty decode proof_of rs = Some (Some (i, a)) ->
  exists data, In {| ge_event_id := i; ge_event_type := ty; ge_data := data |} rs
    /\ decode data = Some a /\ proof_matches_paths (proof_of a) paths = true.
Proof.
  induction rs as [|r rs IH]; cbn [newest_audit]; [done|].
  destruct (String.eqb (ge_event_type r) ty) eqn:E.
  - destruct (decode (ge_data r)) as [b|] eqn:D; [|done]. case_match.
    + intros [= <- <-]. exists (ge_data r). apply String.eqb_eq in E as <-. split; [|done].
      left. by destruct r.
    + intros (d & ? & ?)%IH. exists d. split; [by right|done].
  - intros (d & ? & ?)%IH. exists d. split; [by right|done].
Qed.

Lemma newest_audit_none {A} ty (decode : json -> option A) proof_of rs e :
  newest_audit lease ty decode proof_of rs = Some None -> In e rs -> ge_event_type e = ty ->
  exists a, decode (ge_data e) = Some a /\ proof_matches_paths (proof_of a) paths = false.
Proof.
  induction rs as [|r rs IH]; cbn [newest_audit]; [done|]. intros E [->|Hin] Ht.
  - rewrite Ht, String.eqb_refl in E. destruct (decode (ge_data e)) as [a|]; [|done].
    exists a. split; [done|]. by case_match.
  - apply IH; [|done..]. repeat case_match; by simplify_eq.
Qed.

Lemma scopes_owner proof rs out s :
  scopes_in paths proof rs = Ok out -> In s out -> sc_owner s = pf_owner proof.
Proof.
  intros E Hs. destruct (collect_some_in _ _ _ E _ Hs) as (r & _ & Er).
  unfold started_scope in Er. repeat (case_match; try done). by simplify_eq.
Qed.

Lemma process_scope_owner proof t s :
  runs (matching_process_scope segments_dir paths proof) t (Ok s) -> sc_owner s = pf_owner proof.
Proof.
  intros (rs & _ & E)%process_scope_said. eapply scopes_owner; [exact E|by left].
Qed.

Lemma append_receipt_said r t v :
  runs (append_receipt segments_dir lease r) t (Ok v) ->
  exists i, v = Recovered (recovery_result i r) /\ durable segments_dir t QUARANTINED_EVENT (receipt_json r) i.
Proof.
  unfold append_receipt. intros R. git_step. git_step. git_step. eexists. split; [reflexivity|].
  rewrite app_nil_r. by eapply append_audit_durable.
Qed.

Lemma verify_moved_said proof file w t s :
  runs (verify_moved proof file w) t (Ok s) ->
  performed t (snapshot_lock file) (Ok s) /\ same_quarantined_inode (pf_lock proof) s = true.
Proof. unfold verify_moved. intros R. git_solve. rewrite app_nil_r. split; [by auto with seen|done]. Qed.

Lemma verify_owner_said s file t :
  runs (verify_quarantined_owner root s file) t (Ok tt) -> scope_gone root t s.
Proof.
  unfold verify_quarantined_owner. intros R. git_step. git_step. destruct a; [by git_solve|].
  git_solve. rewrite app_nil_r. by apply managed_scope_gone.
Qed.

Lemma recovery_complete_l t t' r : recovery_complete t r -> recovery_complete (t ++ t')%list r.
Proof.
  intros (d & a & s & sc & ? & ? & Hd & ? & ? & ? & ? & ?). exists d, a, s, sc.
  split_and!; try done; [|by apply performed_l|by apply scope_gone_l].
  destruct Hd as [Hd|(rs & ? & ?)]; [left; by apply durable_l|right].
  exists rs. split; [by apply performed_l|done].
Qed.
Lemma recovery_complete_r t t' r : recovery_complete t' r -> recovery_complete (t ++ t')%list r.
Proof.
  intros (d & a & s & sc & ? & ? & Hd & ? & ? & ? & ? & ?). exists d, a, s, sc.
  split_and!; try done; [|by apply performed_r|by apply scope_gone_r].
  destruct Hd as [Hd|(rs & ? & ?)]; [left; by apply durable_r|right].
  exists rs. split; [by apply performed_r|done].
Qed.

(** The end of both ways to write a receipt. *)
Lemma receipt_written t audit intent s scope v :
  performed t (snapshot_lock (quarantine_path paths (qa_proof_event_id audit))) (Ok s) ->
  same_quarantined_inode (pf_lock (qa_proof audit)) s = true ->
  scope_gone root t scope -> sc_owner scope = pf_owner (qa_proof audit) ->
  performed t (append_receipt segments_dir lease (receipt_of audit intent s)) (Ok v) ->
  exists r, v = Recovered r /\ recovery_complete t r.
Proof.
  intros Hp Hs Hg Ho (t1 & t2 & t3 & -> & (i & -> & Hd)%append_receipt_said).
  eexists. split; [reflexivity|].
  exists (receipt_json (receipt_of audit intent s)), (receipt_of audit intent s), s, scope.
  split_and!; try done; [by left|left]. by apply durable_r, durable_l.
Qed.

Lemma complete_interrupted_said i audit t v :
  runs (complete_interrupted_quarantine root segments_dir lease i audit) t (Ok v) ->
  exists r, v = Recovered r /\ recovery_complete t r.
Proof.
  unfold complete_interrupted_quarantine. intros R. git_solve.
  match goal with H : runs (verify_moved _ _ _) _ _ |- _ => apply verify_moved_said in H as [Hp Hs] end.
  match goal with H : runs (verify_quarantined_owner _ _ _) _ (Ok ?u) |- _ =>
    destruct u; apply verify_owner_said in H end.
  match goal with H : runs (matching_process_scope _ _ _) _ _ |- _ => apply process_scope_owner in H end.
  eapply (receipt_written _ audit); [|exact Hs| |eassumption|]; eauto 10 with seen.
Qed.

Lemma verify_receipt_said i audit data t v records :
  In {| ge_event_id := i; ge_event_type := QUARANTINED_EVENT; ge_data := data |} records ->
  receipt_of_json data = Some audit ->
  runs (verify_quarantine_receipt root segments_dir lease i audit) t (Ok v) ->
  forall past, ledger_says segments_dir past [QUARANTINED_EVENT; QUARANTINE_INTENT_EVENT] records ->
  exists r, v = Recovered r /\ recovery_complete (past ++ t)%list r.
Proof.
  intros Hin Hd. unfold verify_quarantine_receipt. intros R past Hl. git_solve. bools.
  match goal with H : runs (verify_quarantined_owner _ _ _) _ (Ok ?u) |- _ =>
    destruct u; apply verify_owner_said in H end.
  match goal with H : runs (matching_process_scope _ _ _) _ _ |- _ => apply process_scope_owner in H end.
  eexists. split; [reflexivity|]. exists data, audit, (qr_quarantined_lock audit). eexists.
  split; [done|]. split; [by right|]. split.
  { right. exists records. split; [by apply performed_l|done]. }
  split; [auto 10 with seen|]. split; [done|]. split; [done|]. split; [|eassumption]. auto 10 with seen.
Qed.

Lemma quarantine_said past lp t v :
  owner_recorded segments_dir past paths (pf_lock (lp_proof lp)) lp ->
  runs (quarantine_proven_lock root segments_dir managed_worktree lease lp) t (Ok v) ->
  exists r, v = Recovered r /\ recovery_complete t r.
Proof.
  intros [_ (rs & _ & Es)]. unfold quarantine_proven_lock. intros R. git_solve.
  match goal with H : runs (verify_moved _ _ _) _ _ |- _ => apply verify_moved_said in H as [Hp Hs] end.
  match goal with H : runs (verify_quarantined_owner _ _ _) _ (Ok ?u) |- _ =>
    destruct u; apply verify_owner_said in H end.
  eapply (receipt_written _ (intent_of lp)); [|exact Hs| | |]; eauto 12 with seen.
  eapply scopes_owner; [exact Es|by left].
Qed.

Definition setback (v : NativeLockRecoveryVerdict) : Prop :=
  match v with Clear | Recovered _ => False | _ => True end.

Lemma append_receipt_refuses r : refuses setback (append_receipt segments_dir lease r).
Proof. unfold append_receipt. refuses_solve. Qed.
Lemma verify_proof_refuses i e p : refuses setback (verify_proof_event segments_dir i e p).
Proof. unfold verify_proof_event, ensure. refuses_solve. Qed.
Lemma verify_moved_refuses pf f w : refuses setback (verify_moved pf f w).
Proof. unfold verify_moved. refuses_solve. Qed.
Lemma verify_owner_refuses s p : refuses setback (verify_quarantined_owner root s p).
Proof. unfold verify_quarantined_owner. refuses_solve. Qed.
Lemma lock_vanished_refuses : refuses setback (lock_vanished lease).
Proof. unfold lock_vanished. refuses_solve. Qed.

Lemma verify_receipt_refuses i a : refuses setback (verify_quarantine_receipt root segments_dir lease i a).
Proof.
  unfold verify_quarantine_receipt.
  pose proof verify_proof_refuses; pose proof verify_owner_refuses. refuses_solve.
Qed.
Lemma complete_refuses i a : refuses setback (complete_interrupted_quarantine root segments_dir lease i a).
Proof.
  unfold complete_interrupted_quarantine. pose proof verify_proof_refuses;
  pose proof verify_owner_refuses; pose proof verify_moved_refuses; pose proof append_receipt_refuses.
  refuses_solve.
Qed.
Lemma move_failed_setback f e : setback (move_failed lease f e).
Proof. by destruct e. Qed.
Lemma quarantine_refuses lp :
  refuses setback (quarantine_proven_lock root segments_dir managed_worktree lease lp).
Proof.
  unfold quarantine_proven_lock. pose proof move_failed_setback; pose proof lock_vanished_refuses;
  pose proof verify_owner_refuses; pose proof verify_moved_refuses; pose proof append_receipt_refuses.
  cbv zeta. refuses_solve.
Qed.
Lemma reconcile_once_refuses :
  refuses setback (reconcile_once root segments_dir managed_worktree lease).
Proof.
  unfold reconcile_once, reconcile_present_lock, reconcile_absent_lock.
  pose proof quarantine_refuses; pose proof complete_refuses; pose proof verify_receipt_refuses.
  refuses_solve.
Qed.

(** A verdict that is no setback came out of one round. *)
Lemma verdict_from_round wait t v :
  ~ setback v ->
  runs (reconcile_with_inspector root segments_dir managed_worktree lease wait) t v ->
  performed t (reconcile_once root segments_dir managed_worktree lease) (Ok v).
Proof.
  intros Hv. unfold reconcile_with_inspector. destruct (bool_decide _);
    [|by intros [_ <-]%runs_ret; destruct Hv].
  intros (started & t' & -> & R)%runs_inv. apply (performed_r [_]).
  assert (Hround : forall r, performed t' (reconcile_round root segments_dir managed_worktree lease) r ->
            r = inl v \/ r = inr v ->
            performed t' (reconcile_once root segments_dir managed_worktree lease) (Ok v)).
  { intros r (t1 & t2 & t3 & -> & Rr) Er. apply performed_r, performed_l.
    unfold reconcile_round in Rr. apply runs_bind_inv in Rr as (t4 & [[]|e] & t5 & -> & _ & Rr).
    2: { apply runs_ret in Rr as [_ <-]. destruct Er as [[= <-]|[=]]. by destruct Hv. }
    apply runs_bind_inv in Rr as (t6 & w & t7 & -> & Rw & [-> <-]%runs_ret).
    assert (w = v) as -> by (destruct (is_busy w); destruct Er as [[=]|[=]]; done).
    unfold verdict_of in Rw. apply runs_bind_inv in Rw as (t8 & [u|u] & t9 & -> & Rw & [-> <-]%runs_ret).
    - apply performed_r, performed_l, performed_l. by apply performed_here.
    - by apply reconcile_once_refuses in Rw. }
  apply poll_result in R as [R|(b & R & Rb & _)]; [by eapply Hround; [|left]|].
  apply performed_seen with (P := fun _ => b = v) in Rb; [|done|done|by intros ? [_ ->]%runs_ret].
  subst b. by eapply Hround; [|right].
Qed.

Lemma reconcile_once_said t v :
  runs (reconcile_once root segments_dir managed_worktree lease) t (Ok v) ->
  (exists r, v = Recovered r /\ recovery_complete t r)
  \/ v = Clear /\ seen t (SymlinkMetadata lock_file) (Err NotFound)
     /\ exists records,
          ledger_says segments_dir t [QUARANTINED_EVENT; QUARANTINE_INTENT_EVENT] records
          /\ newest_audit lease QUARANTINED_EVENT receipt_of_json qr_proof (rev records) = Some None
          /\ newest_audit lease QUARANTINE_INTENT_EVENT audit_of_json qa_proof (rev records) = Some None.
Proof.
  unfold reconcile_once. intros R. apply runs_bind_inv in R as (t0 & [m|e] & t' & -> & R0 & R);
    apply (@runs_call call reply _) in R0; subst t0.
  - left. git_step. unfold reconcile_present_lock in R. git_solve.
    match goal with H : runs (matching_proof _ _ _) _ _ |- _ => apply matching_proof_said in H end.
    match goal with H : owner_recorded _ _ _ _ _ |- _ =>
      pose proof (owner_recorded_fits _ _ _ _ _ H) as [Ef _]; rewrite <- Ef in H;
      eapply quarantine_said in R; [|exact H] end.
    destruct R as (r & -> & Hr). exists r. split; [done|]. by do 4 apply recovery_complete_r.
  - destruct e; try by git_solve. unfold reconcile_absent_lock in R. git_step. git_step.
    match goal with H : runs (read_recovery _ _) _ (Ok ?rs) |- _ => rename H into Rl; rename rs into records end.
    destruct (newest_audit lease QUARANTINED_EVENT _ _ _) as [[[i audit]|]|] eqn:E1; [| |by git_solve].
    + left. apply newest_audit_in in E1 as (data & Hin%in_rev & Hd & _).
      destruct (verify_receipt_said i audit data _ v records Hin Hd R _ (performed_here _ _ _ Rl))
        as (r & -> & Hr). exists r. split; [done|]. by apply recovery_complete_r.
    + destruct (newest_audit lease QUARANTINE_INTENT_EVENT _ _ _) as [[[i audit]|]|] eqn:E2;
        [| |by git_solve].
      * left. apply complete_interrupted_said in R as (r & -> & Hr). exists r. split; [done|].
        by apply recovery_complete_r, recovery_complete_r.
      * right. apply runs_ret in R as [-> [= ->]]. split; [done|]. split; [apply seen_l, seen_here|].
        exists records. split; [by apply performed_r, performed_l, performed_here|done].
Qed.

(** C8. A recovery that is reported is complete: in every run whose verdict is
    [Recovered], the receipt it names is in the log, the quarantined file was seen
    with the inode, size, times and content of the proof's lock, and the owner and
    its process group were seen gone. *)
Theorem reported_recoveries_are_complete wait t r :
  runs (reconcile_with_inspector root segments_dir managed_worktree lease wait) t (Recovered r) ->
  recovery_complete t r.
Proof.
  intros (t1 & t2 & t3 & -> & R)%verdict_from_round; [|by intros []].
  apply recovery_complete_r, recovery_complete_l.
  by apply reconcile_once_said in R as [(r' & [= <-] & Hr)|[[=] _]].
Qed.

(** [Clear] says more than that there is no lock: in every run with that
    verdict the lock file was seen absent, and the log had no quarantine, finished
    or begun, of a lock of these paths.  After one recovery it is never again the
    verdict while the log keeps the receipt. *)
Theorem clear_means_never_quarantined wait t :
  runs (reconcile_with_inspector root segments_dir managed_worktree lease wait) t Clear ->
  seen t (SymlinkMetadata lock_file) (Err NotFound)
  /\ exists records,
       ledger_says segments_dir t [QUARANTINED_EVENT; QUARANTINE_INTENT_EVENT] records
       /\ forall e, In e records ->
            (ge_event_type e = QUARANTINED_EVENT -> exists audit,
               receipt_of_json (ge_data e) = Some audit
               /\ proof_matches_paths (qr_proof audit) paths = false)
            /\ (ge_event_type e = QUARANTINE_INTENT_EVENT -> exists audit,
               audit_of_json (ge_data e) = Some audit
               /\ proof_matches_paths (qa_proof audit) paths = false).
Proof.
  intros (t1 & t2 & t3 & -> & R)%verdict_from_round; [|by intros []].
  apply reconcile_once_said in R as [(r & [=] & _)|(_ & Hs & rs & Hl & E1 & E2)].
  split; [by apply seen_r, seen_l|]. exists rs. split; [by apply performed_r, performed_l|].
  intros e Hin%in_rev. split; intros Ht; by eapply newest_audit_none.
Qed.

(** A receipt hides every later interruption: when the log has a receipt of
    these paths, a run on an absent lock writes nothing to the log, so a quarantine
    that was begun later and interrupted after its move never gets its receipt; the
    verdict can only be the old recovery. *)
Theorem receipt_hides_interruption t r :
  runs (reconcile_absent_lock root segments_dir lease) t r ->
  exists past rest answer,
    t = (past ++ rest)%list
    /\ runs (read_recovery segments_dir [QUARANTINED_EVENT; QUARANTINE_INTENT_EVENT]) past answer
    /\ forall records receipt_id audit, answer = Ok records ->
         newest_audit lease QUARANTINED_EVENT receipt_of_json qr_proof (rev records)
           = Some (Some (receipt_id, audit)) ->
         (forall e, In e t -> observes (projT1 e) = true)
         /\ forall receipt, r = Ok (Recovered receipt) -> receipt = recovery_result receipt_id audit.
Proof.
  unfold reconcile_absent_lock. intros (past & [records|e] & rest & -> & Rr & R)%runs_bind_ok_inv.
  all: apply runs_bind_inv in Rr as (p1 & answer & p2 & -> & Rr & [-> Ea]%runs_ret); rewrite app_nil_r.
  all: exists p1, rest, answer; split; [done|]; split; [done|]; intros rs id audit -> E; simplify_eq.
  rewrite E in R. split.
  - intros e [Hin|Hin]%in_app_or; [eapply (only_runs observes); [|exact Rr|exact Hin]|
      eapply (only_runs observes); [|exact R|exact Hin]]; auto with observes.
  - intros receipt ->. unfold verify_quarantine_receipt in R. by git_solve.
Qed.

(** The wait is kept: a run that reports the lock busy has looked at the clock
    after the whole wait, unless it is no longer followed. *)
Theorem busy_only_after_the_wait wait t p owners reason :
  runs (reconcile_with_inspector root segments_dir managed_worktree lease wait) t
    (BusyLock p owners reason) ->
  exists started, seen t Now started
    /\ (seen t Exhausted tt \/ exists now, seen t Now now /\ (started + wait <= now)%Z).
Proof.
  unfold reconcile_with_inspector. destruct (bool_decide _); [|by intros [_ [=]]%runs_ret].
  intros (started & t' & -> & R)%runs_inv. exists started. split; [by left|].
  apply poll_result in R as [(t1 & t2 & t3 & -> & R)|(b & _ & _ & [Hs|(now & Hs & Hn)])].
  - unfold reconcile_round in R. apply runs_bind_inv in R as (t4 & [[]|e] & t5 & -> & _ & R);
      [|by apply runs_ret in R as [_ [=]]].
    apply runs_bind_inv in R as (t6 & w & t7 & -> & _ & [_ E]%runs_ret).
    destruct (is_busy w) eqn:Ew; [done|]. by injection E as ->.
  - left. by right.
  - right. exists now. split; [by right|done].
Qed.

(** ** The audit *)

Definition appends (t : trace) : list call :=
  List.filter (fun c => negb (observes c)) (map (@projT1 _ _) t).

Lemma only_appends {A} (p : IO A) t a : only observes p -> runs p t a -> appends t = [].
Proof.
  intros Hp R. assert (Ha : forall e, In e t -> observes (projT1 e) = true)
    by (intros e; exact (only_runs _ _ _ _ e Hp R)).
  clear Hp R. unfold appends. induction t as [|e t IH]; [done|]. cbn.
  rewrite (Ha e (or_introl eq_refl)). apply IH. intros e' ?. apply Ha. by right.
Qed.
Lemma appends_app t t' : appends (t ++ t')%list = (appends t ++ appends t')%list.
Proof. unfold appends. by rewrite map_app, List.filter_app. Qed.

(** An operation is recorded once: [append_audit_once] returns only the id of an
    event with exactly these data that is in the log; it appends at most once, and
    only after a complete read of the log that did not have the event. *)
Theorem audit_is_recorded_once event_type data p t r :
  runs (append_audit_once segments_dir event_type data p) t r ->
  (forall event_id, r = Ok event_id -> durable segments_dir t event_type data event_id)
  /\ (appends t = []
      \/ appends t = [AppendEvent event_type "git-mutation" data]
         /\ exists records, ledger_says segments_dir t [event_type] records
              /\ forall event_id,
                   ~ In {| ge_event_id := event_id; ge_event_type := event_type; ge_data := data |} records).
Proof.
  intros R. split; [intros i ->; by eapply append_audit_durable|]. unfold append_audit_once in R.
  apply runs_bind_ok_inv in R as (t1 & [[i|]|e] & t2 & -> & R1 & R).
  - apply runs_ret in R as [-> _]. left. rewrite app_nil_r. eapply only_appends, R1. auto with observes.
  - right. apply runs_inv in R as (answer & t3 & -> & R).
    assert (appends t3 = []) as E3.
    { destruct answer; [by apply runs_ret in R as [-> _]|]. eapply only_appends, R. observe_solve. }
    rewrite appends_app, (only_appends _ _ _ (find_audit_event_observes _ _ _ _) R1). cbn [appends].
    split; [by unfold appends in *; cbn; rewrite E3|].
    apply find_audit_said in R1 as (rs & Hl & E). exists rs. split; [by apply performed_l|].
    intros event_id. by apply matching_event_none.
  - destruct R as [-> _]. left. rewrite app_nil_r. eapply only_appends, R1. auto with observes.
Qed.
End spec.
