(* ===== verification/GitSpec.v ===== *)
(** * Git locks: what a snapshot and a proof say

    The start time is read whatever the name of the process, a snapshot is of one
    unchanged file, a proof is recorded only of a lock its owner was seen to hold,
    and recovery accepts what was recorded.  Then what a read of the ledger and the
    acquisition of leases promise. *)

From stdpp Require Import pretty.
From stdpp Require Import sorting.
From S2P Require Import Prelude RustStr JsonValue Paths Effects GitEvidence GitPoll GitLedger.
From S2P Require Import GitMutation GitOwner GitRecovery GitChecks SqlTable Ledger.

Local Open Scope string_scope.

#[local] Arguments String.append !_ _ / : simpl nomatch.
#[local] Arguments strip_white_space : simpl never.

(** ** [/proc/<pid>/stat] *)

(** A word of printable ASCII without a closing parenthesis. *)
Definition plain_char (c : ascii) : bool := is_ascii_graphic c && negb (Ascii.eqb c ")").
Definition plain_word (w : string) : bool := negb (str_is_empty w) && all_chars plain_char w.

Lemma white_pieces_word w s fuel :
  all_chars plain_char w = true ->
  white_pieces (String.length w + fuel) (w ++ s)
  = let '(p, ps) := white_pieces fuel s in (w ++ p, ps).
Proof.
  induction w as [|c w IH]; cbn; [by destruct (white_pieces fuel s)|].
  intros [[Hc _]%andb_true_iff Hw]%andb_true_iff.
  rewrite graphic_not_space, IH by done.
  by destruct (white_pieces fuel s).
Qed.

Lemma space_is_space s : strip_white_space (String " " s) = Some s.
Proof. reflexivity. Qed.

(** The words, a space before each, and the end of the line. *)
Fixpoint stat_fields (ws : list string) : string :=
  match ws with
  | [] => String LF ""
  | w :: ws => " " ++ w ++ stat_fields ws
  end.

Lemma stat_fields_pieces ws :
  forallb plain_word ws = true ->
  white_pieces (String.length (stat_fields ws)) (stat_fields ws) = ("", (ws ++ [""])%list).
Proof.
  induction ws as [|w ws IH]; [reflexivity|]. cbn [forallb stat_fields].
  intros [[_ Hw]%andb_true_iff Hws]%andb_true_iff. cbn [String.length white_pieces String.append].
  rewrite space_is_space, str_length_app, white_pieces_word, IH by done. cbn. by rewrite str_app_nil_r.
Qed.

Lemma stat_fields_split ws :
  forallb plain_word ws = true -> split_whitespace (stat_fields ws) = ws.
Proof.
  intros Hws. unfold split_whitespace. rewrite stat_fields_pieces by done.
  cbn [List.filter str_is_empty String.eqb negb]. rewrite List.filter_app. cbn. rewrite app_nil_r.
  induction ws as [|w ws IH]; [done|]. cbn in *. apply andb_true_iff in Hws as [[Hw _]%andb_true_iff Hws].
  by rewrite Hw, IH.
Qed.

Lemma plain_no_paren w : all_chars plain_char w = true -> str_contains ")" w = false.
Proof.
  induction w as [|c w IH]; [done|]. cbn. intros [[_ Hc%negb_true_iff]%andb_true_iff Hw]%andb_true_iff.
  by rewrite Hc, IH.
Qed.
Lemma stat_fields_no_paren ws : forallb plain_word ws = true -> str_contains ")" (stat_fields ws) = false.
Proof.
  induction ws as [|w ws IH]; [done|]. cbn [forallb stat_fields].
  intros [[_ Hw]%andb_true_iff Hws]%andb_true_iff.
  rewrite !str_contains_app, (plain_no_paren w), IH by done. done.
Qed.

Lemma plain_digits w : all_digits w = true -> w <> "" -> plain_word w = true.
Proof.
  intros Hd Hne. unfold plain_word. apply andb_true_iff. split.
  - destruct w; [done|reflexivity].
  - clear Hne. induction w as [|c w IH]; [done|]. cbn in *. apply andb_true_iff in Hd as [Hc Hd].
    rewrite IH, andb_true_r by done. apply digit_cases in Hc. by destruct_or!; subst c.
Qed.
Lemma pretty_nonempty z : (0 <= z <= u64_max)%Z -> pretty z <> "".
Proof. intros Hz E. pose proof (parse_u64_pretty z Hz) as P. by rewrite E in P. Qed.

(** The start time of a process is read whatever its name: in a line of
    [/proc/<pid>/stat] the name stands between parentheses and may itself contain
    parentheses, spaces and line breaks; the time is the twentieth field after it. *)
Theorem start_time_is_read pid name before ticks after :
  length before = 19 -> forallb plain_word before = true -> forallb plain_word after = true ->
  (0 <= ticks <= u64_max)%Z ->
  stat_start_time (pid ++ " (" ++ name ++ String ")" (stat_fields (before ++ pretty ticks :: after)))
  = Some ticks.
Proof.
  intros Hl Hb Ha Ht. assert (Hw : forallb plain_word (before ++ pretty ticks :: after)%list = true).
  { rewrite forallb_app. cbn [forallb]. rewrite Hb, Ha, andb_true_r. cbn.
    apply plain_digits; [apply pretty_digits; lia|by apply pretty_nonempty]. }
  unfold stat_start_time.
  replace (pid ++ " (" ++ name ++ String ")" (stat_fields (before ++ pretty ticks :: after)))
    with ((pid ++ " (" ++ name) ++ String ")" (stat_fields (before ++ pretty ticks :: after)))
    by (by rewrite !str_app_assoc).
  rewrite rsplit_once_last by (by apply stat_fields_no_paren). cbn [mbind option_bind snd].
  rewrite stat_fields_split, nth_error_app2, Hl by (done || lia). cbn.
  by apply parse_u64_pretty.
Qed.

Section owner.
Context `{SHA : Sha256} `{TEXT : JsonText}.

(** ** Snapshots *)

Lemma verify_same_inode_ok p a b u : verify_same_inode p a b = Ok u -> same_file a b = true.
Proof.
  unfold verify_same_inode, ensure, same_file. destruct (same_inode a b); [|done].
  by destruct (same_times a b).
Qed.

(** The snapshot is of a file that was the same before and after its content was
    read, under the path and behind the handle. *)
Definition snapshot_observed (p : PathBuf) (t : trace) (s : NativeGitLockSnapshot) : Prop :=
  exists before file chunks earlier later opened after current,
    t = (earlier ++ did (ReadFile file) (chunks, None) :: later)%list
    /\ seen earlier (SymlinkMetadata p) (Ok before) /\ md_kind before = RegularFile
    /\ seen earlier (OpenRead p) (Ok file)
    /\ seen earlier (Fstat file) (Ok opened) /\ same_file before opened = true
    /\ seen later (Fstat file) (Ok after) /\ same_file before after = true
    /\ seen later (SymlinkMetadata p) (Ok current) /\ same_file before current = true
    /\ s = snapshot_of before (sha256_hex (String.concat "" chunks)).

(** A snapshot is of one file: in every run of [snapshot_lock] that returns one,
    the path named a regular file whose device, inode, size and times were the same
    before and after its content was read, through the path and through the opened
    file, and the digest is of that content. *)
Theorem snapshot_is_of_one_file p t s :
  runs (snapshot_lock p) t (Ok s) -> snapshot_observed p t s.
Proof.
  unfold snapshot_lock, hash_file, uncertain. intros R. git_solve.
  repeat match goal with H : verify_same_inode _ _ _ = Ok _ |- _ =>
    apply verify_same_inode_ok in H end.
  match goal with H : negb (is_symlink ?m || _) = true |- _ =>
    apply negb_true_iff, orb_false_iff in H as [_ H]; apply negb_false_iff, bool_decide_eq_true in H end.
  match goal with |- snapshot_observed _ ([?e1] ++ [?e2] ++ [?e3] ++ [] ++ [did _ ?x] ++ ?l)%list
                       (snapshot_of ?m _) =>
    destruct x as [chunks e]; simplify_eq/=;
    exists m; eexists; exists chunks, [e1; e2; e3]; do 4 eexists; split; [reflexivity|] end.
  repeat (split; [first [eassumption|by repeat first [left; reflexivity|right]]|]). done.
Qed.

(** ** The record of a held lock *)

Context (root log_dir segments_dir : PathBuf).

Definition process_running (t : trace) (p : ManagedProcessIdentity) : Prop :=
  exists stat, seen t (ReadToString (proc_stat_path root (mp_pid p))) (Ok stat)
    /\ stat_start_time stat = Some (mp_start_time_ticks p).
Definition holds_open (t : trace) (p : ManagedProcessIdentity) (lock : NativeGitLockSnapshot) : Prop :=
  exists name m,
    seen t (FollowMetadata (path_sub (path_sub root [pretty (mp_pid p); "fd"]) [name])) (Ok m)
    /\ md_dev m = nl_device lock /\ md_ino m = nl_inode lock.

Lemma identity_verified owner p t :
  runs (verify_process_identity root owner p) t (Ok tt) -> process_running t owner.
Proof.
  unfold verify_process_identity. intros R. git_step. git_step. git_step. git_step. bools.
  match goal with H : runs (start_time_ticks _ _) _ _ |- _ =>
    apply start_time_said in H as (r & Hs & [[_ [=]]|(stat & ticks & -> & Hst & [= <-])]) end.
  exists stat. split; [|done]. by apply seen_l.
Qed.

Lemma any_descriptor_said d dev ino es t :
  runs (any_descriptor d dev ino es) t (Ok true) ->
  exists name m, seen t (FollowMetadata (path_sub d [name])) (Ok m) /\ md_dev m = dev /\ md_ino m = ino.
Proof.
  revert t. induction es as [|[name|e] es IH]; intros t R; cbn [any_descriptor] in R; try by git_solve.
  apply runs_call_inv in R as ([m|e] & t' & -> & R).
  - destruct (_ && _) eqn:E.
    + bools. exists name, m. split; [apply seen_here|done].
    + apply IH in R as (n & m' & Hs & ?). exists n, m'. split; [by right|done].
  - destruct e; try by git_solve. apply IH in R as (n & m' & Hs & ?). exists n, m'. split; [by right|done].
Qed.

Lemma holds_inode_said p lock t :
  runs (holds_inode root (mp_pid p) (nl_device lock) (nl_inode lock)) t (Ok true) -> holds_open t p lock.
Proof.
  unfold holds_inode. cbv zeta. intros ([es|e] & t' & -> & R)%runs_call_inv.
  - apply any_descriptor_said in R as (n & m & Hs & ?). exists n, m. split; [by right|done].
  - destruct e; try by git_solve.
Qed.

Lemma append_proof_durable data t i :
  runs (append_proof_once log_dir segments_dir data) t (Ok i) ->
  durable segments_dir t LOCK_HELD_EVENT data i.
Proof.
  assert (Hf : forall t i, runs (find_proof_event log_dir segments_dir data) t (Ok (Some i)) ->
    durable segments_dir t LOCK_HELD_EVENT data i).
  { clear. unfold find_proof_event. intros t i R. git_step. git_step. git_step. right. eexists.
    rewrite app_nil_r. split; [by apply performed_here|by apply matching_event_in]. }
  unfold append_proof_once. intros R. apply runs_bind_ok_inv in R as (t1 & [[j|]|e] & t2 & -> & R1 & R).
  - apply runs_ret in R as [-> [= ->]]. rewrite app_nil_r. by apply Hf.
  - apply runs_call_inv in R as ([j|] & t3 & -> & R).
    + apply runs_ret in R as [-> [= ->]]. left. apply seen_r, seen_here.
    + apply durable_r, (durable_r _ [_]).
      apply runs_bind_ok_inv in R as (t4 & [[j|]|e] & t5 & -> & R4 & R); [|by apply runs_ret in R as [_ [=]]|by destruct R].
      apply runs_ret in R as [-> [= ->]]. rewrite app_nil_r. by apply Hf.
  - by destruct R.
Qed.

Lemma lock_proof_matches lease owner lock : proof_matches_paths (lock_proof lease owner lock) (le_paths lease) = true.
Proof. unfold proof_matches_paths, lock_proof. cbn. by rewrite !String.eqb_refl. Qed.

(** Recovery finds in a recorded proof what was recorded. *)
Lemma recorded_is_held lease owner lock :
  proof_fits (lock_proof lease owner lock) ->
  held_proof (le_paths lease) lock (proof_json (lock_proof lease owner lock))
  = Ok (Some (lock_proof lease owner lock)).
Proof.
  intros Hf. unfold held_proof.
  assert (names "index_lock_file" (display (index_lock_file (le_paths lease)))
            (proof_json (lock_proof lease owner lock)) = true) as ->.
  { apply bool_decide_eq_true. reflexivity. }
  cbn [negb]. change (member_u64 "schema_version" _) with (Some 2%Z). cbn [option_context ensure].
  rewrite proof_roundtrip by done. cbn. by rewrite lock_proof_matches, bool_decide_eq_true_2.
Qed.

(** A proof is recorded only of what was seen: in every run that records one,
    the lease is on the index, the owner was running with its start time and held
    the inode of the lock open, it was still running and the lock unchanged
    afterwards, and the record is in the log; recovery under the same paths accepts
    that record as a proof for that lock. *)
Theorem recorded_proofs_are_observed lease owner t r :
  runs (try_record_proof_with root log_dir segments_dir lease owner) t (Ok (Some r)) ->
  let lock_file := index_lock_file (le_paths lease) in
  le_resource lease = Index
  /\ exists lock t1 t2 t3 t4 t5 t6,
       t = (t1 ++ t2 ++ t3 ++ t4 ++ t5 ++ t6)%list
       /\ process_running t1 owner
       /\ performed t2 (snapshot_lock lock_file) (Ok lock)
       /\ holds_open t3 owner lock
       /\ process_running t4 owner
       /\ performed t5 (snapshot_lock lock_file) (Ok lock)
       /\ durable segments_dir t6 LOCK_HELD_EVENT (proof_json (rp_proof r)) (rp_event_id r)
       /\ rp_proof r = lock_proof lease owner lock
       /\ (proof_fits (rp_proof r) ->
            held_proof (le_paths lease) lock (proof_json (rp_proof r)) = Ok (Some (rp_proof r))).
Proof.
  unfold try_record_proof_with. cbv zeta. intros R. git_step.
  apply runs_bind_ok_inv in R as (t1 & [[]|e] & t' & -> & R1 & R); [|by destruct R].
  apply runs_bind_ok_inv in R as (t2 & [[lock|]|e] & t'' & -> & R2 & R); [|by apply runs_ret in R as [_ [=]]|by destruct R].
  apply runs_bind_ok_inv in R as (t3 & [[]|e] & t4' & -> & R3 & R); cbn [negb] in R;
    [apply runs_map_error_ok in R3|by apply runs_ret in R as [_ [=]]|by destruct R].
  apply runs_bind_ok_inv in R as (t4 & [[]|e] & t5' & -> & R4 & R); [|by destruct R].
  apply runs_bind_ok_inv in R as (t5 & [again|e] & t6 & -> & R5 & R); [|by destruct R].
  git_step. bools. git_step. git_step. split; [done|].
  exists lock, t1, t2, t3, t4, t5. eexists. split; [reflexivity|].
  split; [by eapply identity_verified|]. split.
  { unfold current_lock in R2. apply runs_bind_inv in R2 as (u & [l|e] & u' & -> & R2 & R2').
    - apply runs_ret in R2' as [-> [= ->]]. by apply performed_l, performed_here.
    - git_step. by case_match; git_solve. }
  split; [by apply holds_inode_said|]. split; [by eapply identity_verified|].
  split; [by apply performed_here|]. split; [|split; [done|]].
  - apply durable_l. by eapply append_proof_durable.
  - intros Hf. by apply recorded_is_held.
Qed.
End owner.

(** * Git locks: what a read of the ledger returns

    A read that succeeds returns the selected events of every line of every
    segment, in order; a line it cannot read makes it fail. *)

Local Open Scope string_scope.

Section ledger.
Context `{TEXT : JsonText}.

(** The lines of a file: the pieces between newlines, but for an empty last one. *)
Fixpoint live_lines (pieces : list string) : list string :=
  match pieces with
  | [] => []
  | [rest] => if str_is_empty rest then [] else [rest]
  | line :: pieces => line :: live_lines pieces
  end.
Definition file_lines (content : string) : list string := live_lines (split_char LF content).

(** The selected events of some lines. *)
Definition events_of (types lines : list string) : result (list GitRecoveryEvent) string :=
  let? parsed := collect (read_line types) lines in Ok (omap id parsed).

Lemma collect_app {A B E} (f : A -> result B E) l1 l2 :
  collect f (l1 ++ l2)%list
  = (let? ys := collect f l1 in let? zs := collect f l2 in Ok (ys ++ zs)%list).
Proof.
  induction l1 as [|x l1 IH]; cbn; [by destruct (collect f l2)|].
  destruct (f x); [|done]. rewrite IH. by destruct (collect f l1); [destruct (collect f l2)|].
Qed.

Lemma events_of_app types l1 l2 :
  events_of types (l1 ++ l2)
  = (let? es := events_of types l1 in let? fs := events_of types l2 in Ok (es ++ fs)%list).
Proof.
  unfold events_of. rewrite collect_app. destruct (collect _ l1); [|done].
  destruct (collect _ l2); [|done]. by rewrite omap_app.
Qed.

Lemma push_omap selected e : push selected e = (selected ++ omap id [e])%list.
Proof. destruct e; cbn; [done|]. by rewrite app_nil_r. Qed.

Lemma read_pieces_events types pieces stopped selected out :
  pieces <> [] -> read_pieces types pieces stopped selected = Ok out ->
  stopped = None
  /\ exists es, events_of types (live_lines pieces) = Ok es /\ out = (selected ++ es)%list.
Proof.
  intros Hne. revert selected Hne. induction pieces as [|line pieces IH]; intros selected Hne R; [done|].
  destruct pieces as [|next pieces]; cbn [read_pieces live_lines] in *.
  - destruct (bounded _); [|done]. destruct stopped; [done|]. split; [done|].
    destruct (str_is_empty line).
    + exists []. split; [done|]. by rewrite app_nil_r; injection R.
    + destruct (read_line types line) as [e|] eqn:E; [|done]. injection R as <-.
      exists (omap id [e]). unfold events_of. cbn [collect]. rewrite E. split; [done|]. apply push_omap.
  - destruct (bounded (str_len line + 1)); [|done]. destruct (read_line types line) as [e|] eqn:E; [|done].
    apply IH in R as (-> & es & Ee & ->); [|done]. split; [done|].
    exists (omap id [e] ++ es)%list. split.
    + change (line :: ?l) with ([line] ++ l)%list. rewrite events_of_app. unfold events_of at 1.
      cbn [collect]. by rewrite E, Ee.
    + by rewrite push_omap, app_assoc.
Qed.

(** A file was opened under this name and read to its end. *)
Definition file_read (t : trace) (p : PathBuf) (content : string) : Prop :=
  exists h chunks, seen t (OpenRead p) (Ok h) /\ seen t (ReadFile h) (chunks, None)
    /\ content = String.concat "" chunks.

Lemma file_read_l t t' p c : file_read t p c -> file_read (t ++ t')%list p c.
Proof. intros (h & ch & ? & ? & ?). exists h, ch. auto with seen. Qed.
Lemma file_read_r t t' p c : file_read t' p c -> file_read (t ++ t')%list p c.
Proof. intros (h & ch & ? & ? & ?). exists h, ch. auto with seen. Qed.

Lemma read_segment_events p types selected t out :
  runs (read_segment p types selected) t (Ok out) ->
  exists content es, file_read t p content
    /\ events_of types (file_lines content) = Ok es /\ out = (selected ++ es)%list.
Proof.
  unfold read_segment. intros R. git_solve.
  match goal with H : read_lines_of _ ?x _ = _ |- _ =>
    destruct x as [chunks e]; apply read_pieces_events in H as (Es & es & He & ->);
    [|apply split_char_ne] end.
  cbn in Es. subst e. eexists _, es. split; [|done]. eexists _, chunks.
  split; [auto 10 with seen|]. split; [auto 10 with seen|done].
Qed.

Lemma read_segments_events ps types selected t out :
  runs (read_segments ps types selected) t (Ok out) ->
  exists contents es, Forall2 (file_read t) ps contents
    /\ events_of types (concat (map file_lines contents)) = Ok es /\ out = (selected ++ es)%list.
Proof.
  revert selected t. induction ps as [|p ps IH]; intros selected t R; cbn [read_segments] in R.
  - git_solve. exists [], []. rewrite app_nil_r. by split_and!.
  - git_step. apply IH in R as (contents & es & F & E & ->).
    match goal with H : runs (read_segment _ _ _) _ _ |- _ =>
      apply read_segment_events in H as (content & es' & Hr & E' & ->) end.
    exists (content :: contents), (es' ++ es)%list. split_and!.
    + constructor; [by apply file_read_l|]. eapply Forall2_impl; [exact F|]. intros. by apply file_read_r.
    + cbn [map concat]. by rewrite events_of_app, E', E.
    + by rewrite app_assoc.
Qed.

Definition segment_names (entries : list (result string io_error)) : list string :=
  insertion_sort String.leb (List.filter is_segment (entry_names entries)).

(** The shared lock is held, or there is nothing to lock. *)
Definition ledger_locked (t : trace) (dir : PathBuf) : Prop :=
  (exists h, seen t (OpenRead (path_sub dir [".append.lock"])) (Ok h)
             /\ seen t (TryLockShared h) Locked)
  \/ seen t (SymlinkMetadata (path_sub dir [".append.lock"])) (Err NotFound)
     /\ exists entries, seen t (ReadDir dir) (Ok entries) /\ segment_names entries = [].

Lemma ledger_locked_l t t' d : ledger_locked t d -> ledger_locked (t ++ t')%list d.
Proof.
  intros [(h & ? & ?)|(? & es & ? & ?)]; [left; exists h|right; split; [|exists es]]; auto with seen.
Qed.
Lemma ledger_locked_r t t' d : ledger_locked t' d -> ledger_locked (t ++ t')%list d.
Proof.
  intros [(h & ? & ?)|(? & es & ? & ?)]; [left; exists h|right; split; [|exists es]]; auto with seen.
Qed.

Lemma try_shared_said file t h :
  performed t (try_shared file) (inl (Ok h)) -> seen t (TryLockShared file) Locked.
Proof.
  intros (t1 & t2 & t3 & -> & (r & t' & -> & [-> E]%runs_ret)%runs_call_inv).
  destruct r; try done. apply seen_r, seen_here.
Qed.

Lemma ledger_lock_said dir wait t o :
  runs (acquire_existing_shared_ledger_lock dir wait) t (Ok o) -> ledger_locked t dir.
Proof.
  unfold acquire_existing_shared_ledger_lock. intros R.
  apply runs_call_inv in R as ([m|e] & t' & -> & R).
  - left. git_solve. exists a. split; [right; apply seen_l, seen_here|].
    match goal with H : runs (retry_until _ _ _ _) _ _ |- _ =>
      apply runs_inv in H as (started & t' & -> & [Hl|(b & _ & Hg & _)]%poll_result) end.
    + apply try_shared_said in Hl. do 4 (apply (seen_r [_])). by apply seen_l, (seen_r [_]).
    + destruct Hg as (? & ? & ? & ? & [_ [=]]%runs_ret).
  - destruct e; try by git_solve. right. split; [apply seen_here|].
    unfold read_segment_paths in R. git_solve.
    match goal with H : map _ ?l = [] |- exists _, seen (_ :: ([did _ (Ok ?es)] ++ _) ++ _) _ _ /\ _ =>
      exists es; split; [right; apply seen_l, seen_l, seen_here|]; by apply map_eq_nil in H end.
Qed.

End ledger.

(** * Git locks: what resolved paths and leases promise *)

Local Open Scope string_scope.

Section mutation.
Context `{SHA : Sha256} `{TEXT : JsonText}.
Context (managed_worktree : PathBuf).

(** ** Paths *)

Definition git_told (t : trace) (dir : PathBuf) (argument : string) (override : option string)
    (text : string) : Prop :=
  exists out, seen t (RevParse dir (git_path_args argument) override) (RevExit (Some 0%Z) (Some out))
    /\ text = str_trim out.
Definition canonical (t : trace) (p c : PathBuf) : Prop :=
  seen t (Canonicalize p) (Ok c) /\ seen t (IsDir c) true.
Definition not_symlink (t : trace) (p : PathBuf) : Prop :=
  exists r, seen t (SymlinkMetadata p) r
    /\ (r = Err NotFound \/ exists m, r = Ok m /\ is_symlink m = false).

Lemma git_told_l t t' d a o x : git_told t d a o x -> git_told (t ++ t')%list d a o x.
Proof. intros (out & ? & ?). exists out. auto with seen. Qed.
Lemma git_told_r t t' d a o x : git_told t' d a o x -> git_told (t ++ t')%list d a o x.
Proof. intros (out & ? & ?). exists out. auto with seen. Qed.
Lemma canonical_l t t' p c : canonical t p c -> canonical (t ++ t')%list p c.
Proof. intros []. split; auto with seen. Qed.
Lemma canonical_r t t' p c : canonical t' p c -> canonical (t ++ t')%list p c.
Proof. intros []. split; auto with seen. Qed.
Lemma not_symlink_l t t' p : not_symlink t p -> not_symlink (t ++ t')%list p.
Proof. intros (r & ? & ?). exists r. auto with seen. Qed.
Lemma not_symlink_r t t' p : not_symlink t' p -> not_symlink (t ++ t')%list p.
Proof. intros (r & ? & ?). exists r. auto with seen. Qed.
#[local] Hint Resolve git_told_l git_told_r canonical_l canonical_r not_symlink_l not_symlink_r : seen.

Lemma git_path_said dir a o t x : runs (git_path dir a o) t (Ok x) -> git_told t dir a o x.
Proof.
  unfold git_path. intros (r & t' & -> & [-> E]%runs_ret)%runs_call_inv.
  destruct r as [e|[[| |]|] [out|]]; try done. injection E as <-. exists out. split; [apply seen_here|done].
Qed.
Lemma canonical_directory_said p w t c : runs (canonical_directory p w) t (Ok c) -> canonical t p c.
Proof.
  unfold canonical_directory. intros R. git_solve. split; auto 10 with seen.
Qed.
Lemma reject_symlink_said p w t u : runs (reject_symlink p w) t (Ok u) -> not_symlink t p.
Proof.
  unfold reject_symlink. intros R. git_solve. bools. eexists. split; [apply seen_here|]. right. eauto.
Qed.
Lemma reject_optional_said p w t u : runs (reject_optional_symlink p w) t (Ok u) -> not_symlink t p.
Proof.
  unfold reject_optional_symlink. intros (r & t' & -> & [-> E]%runs_ret)%runs_call_inv.
  exists r. split; [apply seen_here|]. destruct r as [m|[]]; try done; [right|by left].
  exists m. split; [done|]. by destruct (is_symlink m).
Qed.

Lemma leaf_parent_said p w t f :
  runs (canonicalize_leaf_parent p w) t (Ok f) ->
  exists d name c, path_parent p = Some d /\ path_file_name p = Some name
    /\ seen t (Canonicalize d) (Ok c) /\ f = path_sub c [name].
Proof.
  unfold canonicalize_leaf_parent. intros R. git_step. destruct (path_parent p) as [d|]; [|by git_solve].
  git_step. git_step. apply runs_ret in R as [-> E]. destruct (path_file_name p) as [n|]; [|done].
  injection E as <-. exists d, n, a. split; [done|]. split; [done|]. split; [|done]. auto with seen.
Qed.

Lemma ownership_said w g c i u :
  validate_index_ownership w g c i = Ok u ->
  path_starts_with i w = true \/ path_starts_with i g = true \/ path_starts_with i c = true.
Proof.
  unfold validate_index_ownership. destruct (path_starts_with i w); [auto|].
  destruct (path_starts_with i g); [auto|]. by destruct (path_starts_with i c); [auto|].
Qed.

(** Resolved paths belong to the managed repository: in every run that returns
    them, the root is a worktree root by Git's own answer, its common Git directory
    is the one Git gives for the managed worktree, the index is inside the root or
    one of the two Git directories, none of the files a lock or lease will be
    taken on is a symbolic link, and the lease files are determined by the common
    directory and by the index. *)
Theorem resolved_paths_are_managed worktree override t paths :
  runs (resolve_paths_with_index_override managed_worktree worktree override) t (Ok paths) ->
  (exists managed_root common managed_common top,
     canonical t managed_worktree managed_root
     /\ git_told t (worktree_root paths) "--show-toplevel" override top
     /\ canonical t (parse_path top) (worktree_root paths)
     /\ git_told t (worktree_root paths) "--git-common-dir" override common
     /\ canonical t (parse_path common) (common_git_dir paths)
     /\ git_told t managed_root "--git-common-dir" None managed_common
     /\ canonical t (parse_path managed_common) (common_git_dir paths))
  /\ (path_starts_with (index_file paths) (worktree_root paths) = true
      \/ path_starts_with (index_file paths) (git_dir paths) = true
      \/ path_starts_with (index_file paths) (common_git_dir paths) = true)
  /\ not_symlink t (index_file paths) /\ not_symlink t (index_lock_file paths)
  /\ not_symlink t (refs_lease_file paths)
  /\ not_symlink t (path_sub (common_git_dir paths) [LEASE_DIRECTORY])
  /\ index_lock_file paths = append_suffix (index_file paths) ".lock"
  /\ refs_lease_file paths = path_sub (common_git_dir paths) [LEASE_DIRECTORY; "refs.lease"]
  /\ index_lease_file paths
     = path_sub (path_sub (common_git_dir paths) [LEASE_DIRECTORY])
         ["index-" ++ path_digest (index_file paths) ++ ".lease"].
Proof.
  unfold resolve_paths_with_index_override, managed_roots, shared_git_dir. intros R. git_solve. bools.
  repeat match goal with
  | H : runs (git_path _ _ _) _ _ |- _ => apply git_path_said in H
  | H : runs (canonical_directory _ _) _ _ |- _ => apply canonical_directory_said in H
  | H : runs (reject_optional_symlink _ _) _ _ |- _ => apply reject_optional_said in H
  | H : validate_index_ownership _ _ _ _ = _ |- _ => apply ownership_said in H
  end. cbn. split.
  - do 4 eexists. do 6 (split; [eauto 30 with seen nocore|]). eauto 30 with seen nocore.
  - split; [done|]. repeat (split; [first [reflexivity|auto 30 with seen nocore]|]). reflexivity.
Qed.

(** ** Leases *)

Definition lease_held (t : trace) (lease : GitMutationLease) : Prop :=
  let p := lease_path (le_resource lease) (le_paths lease) in
  exists before after opened named,
    t = (before ++ did (TryLockExclusive (le_lock lease)) Locked :: after)%list
    /\ seen before (OpenLease p) (Ok (le_lock lease))
    /\ seen after (Fstat (le_lock lease)) (Ok opened) /\ seen after (SymlinkMetadata p) (Ok named)
    /\ same_inode opened named = true
    /\ performed after (resolve_paths_with_index_override managed_worktree
                          (worktree_root (le_paths lease)) (le_index_override lease))
         (Ok (le_paths lease)).

Lemma try_lease_said paths r op o t lease :
  runs (try_lease managed_worktree paths r op o) t (inl (Ok lease)) ->
  lease_held t lease /\ le_resource lease = r /\ le_paths lease = paths
  /\ le_operation_id lease = op /\ le_index_override lease = o.
Proof.
  unfold try_lease. intros R.
  apply runs_bind_inv in R as (t1 & [h|e] & t2 & -> & R1 & R); [|by apply runs_ret in R as [_ [=]]].
  apply runs_call_inv in R as (l & t3 & -> & R). destruct l; try by apply runs_ret in R as [_ [=]].
  apply runs_bind_inv in R as (t4 & c & t5 & -> & R4 & [-> [= ->]]%runs_ret).
  unfold complete_lease, verify_open_path in R4. git_solve. bools. cbn. split; [|done].
  unfold open_lease_file in R1. git_solve. eexists _, _, _, _.
  split; [reflexivity|]. cbn. split; [auto 10 with seen|]. split; [by left|]. split; [right; by left|].
  split; [done|]. do 2 apply (performed_r [_]). rewrite app_nil_r. by apply performed_l, performed_here.
Qed.

Lemma lease_held_l t t' l : lease_held t l -> lease_held (t ++ t')%list l.
Proof.
  intros (b & a & o & n & -> & ? & ? & ? & ? & ?). exists b, (a ++ t')%list, o, n.
  rewrite <- app_assoc. split_and!; auto with seen.
Qed.
Lemma lease_held_r t t' l : lease_held t' l -> lease_held (t ++ t')%list l.
Proof.
  intros (b & a & o & n & -> & ? & ? & ? & ? & ?). exists (t ++ b)%list, a, o, n.
  rewrite app_assoc. split_and!; auto with seen.
Qed.

Lemma acquire_resolved_said paths r op w o t lease :
  runs (acquire_resolved managed_worktree paths r op w o) t (Ok lease) ->
  lease_held t lease /\ le_resource lease = r /\ le_paths lease = paths
  /\ le_operation_id lease = op /\ le_index_override lease = o.
Proof.
  unfold acquire_resolved. intros R. git_step.
  apply runs_inv in R as (started & t' & -> & [(t1 & t2 & t3 & -> & R)|(b & _ & (t1 & t2 & t3 & -> & R) & _)]%poll_result).
  - apply try_lease_said in R as [R ?]. split; [|done].
    by apply lease_held_r, (lease_held_r [_]), lease_held_r, lease_held_l.
  - unfold lease_busy in R. by git_solve.
Qed.

(** The derived order has at most one of each, the shared references first. *)
Lemma insertion_sort_resources rs :
  exists m n, insertion_sort resource_le rs = (repeat SharedRefs m ++ repeat Index n)%list
    /\ (m = 0 <-> SharedRefs ∉ rs) /\ (n = 0 <-> Index ∉ rs).
Proof.
  induction rs as [|r rs (m & n & E & Hm & Hn)]; [exists 0, 0; cbn; split_and!; set_solver|].
  unfold insertion_sort in *. cbn [fold_right]. rewrite E. destruct r.
  - exists (S m), n. split; [by destruct m, n|].
    split; [split; [done|intros H; destruct H; by left]|]. rewrite Hn. set_solver.
  - exists m, (S n). split; [clear; induction m as [|m IH]; cbn; [by destruct n|by rewrite IH]|].
    split; [rewrite Hm; set_solver|split; [done|intros H; destruct H; by left]].
Qed.

Lemma dedup_repeat {A} `{EqDecision A} (x : A) n l :
  head l <> Some x -> dedup (repeat x (S n) ++ l)%list = x :: dedup l.
Proof.
  intros Hl. induction n as [|n IH].
  - cbn. destruct l as [|y l]; [done|]. rewrite bool_decide_eq_false_2; [done|]. intros ->. by apply Hl.
  - cbn in *. by rewrite bool_decide_eq_true_2.
Qed.

Lemma lock_order_canonical rs :
  lock_order rs = List.filter (fun r => bool_decide (r ∈ rs)) [SharedRefs; Index].
Proof.
  unfold lock_order. destruct (insertion_sort_resources rs) as (m & n & -> & Hm & Hn). cbn.
  assert (Hi : dedup (repeat Index n) = if bool_decide (Index ∈ rs) then [Index] else []).
  { destruct n as [|n]; [by rewrite bool_decide_eq_false_2 by (by apply Hn)|].
    rewrite bool_decide_eq_true_2 by (destruct (decide (Index ∈ rs)) as [|E]; [done|by apply Hn in E]).
    rewrite <- (app_nil_r (repeat Index (S n))). by rewrite dedup_repeat. }
  destruct m as [|m].
  - rewrite (bool_decide_eq_false_2 (SharedRefs ∈ rs)) by (by apply Hm). exact Hi.
  - rewrite (bool_decide_eq_true_2 (SharedRefs ∈ rs))
      by (destruct (decide (SharedRefs ∈ rs)) as [|E]; [done|by apply Hm in E]).
    rewrite dedup_repeat, Hi; [done|by destruct n].
Qed.

(** The leases of a set, each taken in its own part of the run. *)
Definition taken_in_order (t : trace) (leases : list GitMutationLease) : Prop :=
  exists parts rest, t = (concat parts ++ rest)%list
    /\ Forall2 (fun lease part => lease_held part lease) leases parts.

Lemma acquire_all_said paths rs op d o acc t leases :
  runs (acquire_all managed_worktree paths rs op d o acc) t (Ok leases) ->
  exists new, leases = (acc ++ new)%list /\ map le_resource new = rs /\ taken_in_order t new
    /\ Forall (fun l => le_paths l = paths /\ le_operation_id l = op /\ le_index_override l = o) new.
Proof.
  revert acc t. induction rs as [|r rs IH]; intros acc t R; cbn [acquire_all] in R.
  - apply runs_ret in R as [-> [= <-]]. exists []. rewrite app_nil_r. split_and!; try done. by exists [], [].
  - apply runs_call_inv in R as (now & t1 & -> & R).
    apply runs_bind_ok_inv in R as (t2 & [lease|e] & t3 & -> & R2 & R); [|by destruct R].
    apply IH in R as (new & -> & Er & (parts & rest & -> & F) & Hall).
    apply acquire_resolved_said in R2 as (Hh & <- & ? & ? & ?).
    exists (lease :: new). rewrite <- app_assoc. split_and!; [done|by cbn; rewrite Er| |by constructor].
    exists ((did Now now :: t2) :: parts), rest. split; [cbn; by rewrite <- app_assoc|].
    constructor; [by apply (lease_held_r [_])|done].
Qed.

(** C21. A set of leases is taken in one global order: in every run of
    [acquire_set] that returns leases, there is exactly one lease for each
    requested resource, the shared references before the index, each was locked in
    its own part of the run in that order, and for each the opened file was still
    the one under the lease path and the metadata paths were resolved again to the
    same paths after the lock was held. *)
Theorem leases_are_taken_in_order worktree resources op wait o t leases :
  runs (acquire_set_with_index_override managed_worktree worktree resources op wait o) t (Ok leases) ->
  map le_resource leases = List.filter (fun r => bool_decide (r ∈ resources)) [SharedRefs; Index]
  /\ (exists before after, t = (before ++ after)%list /\ taken_in_order after leases)
  /\ exists paths, Forall (fun l => le_paths l = paths /\ le_operation_id l = op) leases
                   /\ performed t (resolve_paths_with_index_override managed_worktree worktree o) (Ok paths).
Proof.
  unfold acquire_set_with_index_override. intros R. git_step. git_step. git_step.
  apply runs_call_inv in R as (now & t1 & -> & R).
  apply acquire_all_said in R as (new & -> & Er & Ht & F). rewrite <- lock_order_canonical.
  split; [done|]. split.
  - eexists (_ ++ [_])%list, _. split; [by rewrite <- app_assoc|exact Ht].
  - eexists. split; [eapply Forall_impl; [exact F|]; intros l (E1 & E2 & _); exact (conj E1 E2)|]. auto 10 with seen.
Qed.
End mutation.
