(* ===== verification/GitLegacySpec.v ===== *)
(** * Git locks: what an operator's recovery needs and leaves *)

From stdpp Require Import pretty.
From S2P Require Import Prelude RustStr JsonValue SqlTable Paths Effects.
From S2P Require Import GitEvidence GitPoll GitLedger GitMutation GitOwner GitRecovery GitLegacy.
From S2P Require Import GitChecks.
Local Open Scope string_scope.

Section spec.
Context `{SHA : Sha256} `{TEXT : JsonText}.
Context (root segments_dir managed_worktree worktree : PathBuf).

Notation inspect := (inspect_legacy_git_lock_with root segments_dir managed_worktree worktree).

(** ** Recorded processes *)

Lemma dedup_nil {A} `{EqDecision A} (l : list A) : dedup l = [] -> l = [].
Proof.
  induction l as [|x [|y l] IH]; [done|done|]. cbn [dedup]. case_match; [|done].
  intros E. by apply IH in E.
Qed.

(** Every recorded start that concerns the lock is of a process that is gone. *)
Definition recorded_processes_gone (t : trace) (paths : GitMutationPaths)
    (started : list GitRecoveryEvent) : Prop :=
  Forall (fun r => event_is_relevant_to_lock (ge_data r) paths = true ->
    exists scope, parse_process_scope (ge_data r) paths = Ok scope
      /\ process_gone root t (ps_owner scope)
      /\ seen t (KillGroup (ps_process_group_id scope)) KillNoGroup) started.

Lemma processes_gone_r t t' paths rs :
  recorded_processes_gone t' paths rs -> recorded_processes_gone (t ++ t')%list paths rs.
Proof.
  intros F. eapply Forall_impl; [exact F|]. intros r Hr (s & ? & ? & ?)%Hr.
  exists s. split; [done|]. split; [by apply process_gone_r|by apply seen_r].
Qed.

Lemma activity_clear_gone paths records started ins act t ids :
  runs (activity_of root paths records started ins act) t (Ok (ActivityClear ids)) ->
  act = [] /\ recorded_processes_gone t paths started.
Proof.
  revert ins act t. induction started as [|r started IH]; intros ins act t R; cbn [activity_of] in R.
  - apply runs_ret in R as [-> [= E]]. split; [|constructor].
    destruct (dedup _) eqn:Ed; [|done]. apply dedup_nil, (f_equal head), insertion_sort_nil in Ed. done.
  - destruct (event_is_relevant_to_lock (ge_data r) paths) eqn:Er; cbn [negb] in R.
    2: { apply IH in R as [? F]. split; [done|]. constructor; [by rewrite Er|done]. }
    apply runs_bind_ok_inv in R as (t1 & [scope|e] & t2 & -> & [-> Es]%runs_lift & R); [|by destruct R].
    apply runs_bind_ok_inv in R as (t3 & [fin|e] & t4 & -> & [-> _]%runs_lift & R); [|by destruct R].
    apply runs_bind_inv in R as (t5 & [cur|e] & t6 & -> & R5 & R); [|by apply runs_ret in R as [_ [=]]].
    destruct (bool_decide _) eqn:Ec; [apply IH in R as [E _]; by destruct act|].
    apply runs_bind_inv in R as (t7 & [[]|e] & t8 & -> & R7 & R); [| |by apply runs_ret in R as [_ [=]]].
    { apply IH in R as [E _]. by destruct act. }
    apply IH in R as [-> F]. split; [done|]. cbn. constructor.
    + intros _. exists scope. split; [done|]. apply process_group_said in R7.
      apply start_time_said in R5 as (x & Hs & Hx). split; [apply process_gone_l|by auto with seen].
      exists x. split; [done|]. destruct Hx as [[-> ->]|(st & ticks & -> & Hst & ->)]; [by left|right].
      exists st, ticks. split; [done|]. split; [done|]. intros ->. by apply bool_decide_eq_false in Ec.
    + by apply processes_gone_r, processes_gone_r.
Qed.

Lemma inspect_activity_gone paths t ids :
  runs (inspect_managed_activity root segments_dir paths) t (Ok (ActivityClear ids)) ->
  exists records, ledger_says segments_dir t [STARTED; FINISHED] records
    /\ recorded_processes_gone t paths
         (List.filter (fun r => String.eqb (ge_event_type r) STARTED) records).
Proof.
  unfold inspect_managed_activity. intros R. git_step. apply activity_clear_gone in R as [_ F].
  eexists. split; [by apply performed_l, performed_here|]. by apply processes_gone_r.
Qed.

(** ** An inspection *)

(** What an inspection that is fit for recovery has seen. *)
Definition fit_for_recovery (t : trace) (i : LegacyGitLockInspection) (fingerprint : string)
    (lock : NativeGitLockSnapshot) : Prop :=
  in_recovery_fingerprint i = Some fingerprint /\ in_lock i = Some lock
  /\ performed t (snapshot_lock (in_index_lock_file i)) (Ok lock)
  /\ performed t (fingerprint_file (in_index_file i)) (Ok (in_index i))
  /\ exists paths ids records,
       in_index_lock_file i = index_lock_file paths /\ in_common_git_dir i = common_git_dir paths
       /\ fingerprint = recovery_fingerprint paths (in_index i) lock (ActivityClear ids) false
       /\ performed t (has_matching_managed_proof segments_dir paths lock) (Ok false)
       /\ ledger_says segments_dir t [STARTED; FINISHED] records
       /\ recorded_processes_gone t paths
            (List.filter (fun r => String.eqb (ge_event_type r) STARTED) records).

Lemma eligible_inspection fingerprint i t :
  runs inspect t (Ok i) -> ensure_eligible i fingerprint = Ok tt ->
  exists lock, fit_for_recovery t i fingerprint lock
    /\ in_quarantine_file i = Some (legacy_quarantine_file (in_common_git_dir i) fingerprint).
Proof.
  unfold inspect_legacy_git_lock_with. intros R E.
  apply runs_bind_ok_inv in R as (t1 & [paths|e] & t2 & -> & R1 & R); [|by destruct R].
  apply runs_bind_ok_inv in R as (t3 & [index|e] & t4 & -> & R3 & R); [|by destruct R].
  apply runs_bind_ok_inv in R as (t5 & [lock|e] & t6 & -> & R5 & R); [|by destruct R].
  apply runs_bind_ok_inv in R as (t7 & [matching|e] & t8 & -> & R7 & R); [|by destruct R].
  apply runs_bind_ok_inv in R as (t9 & [activity|e] & t10 & -> & R9 & R); [|by destruct R].
  apply runs_ret in R as [-> [= <-]]. unfold ensure_eligible in E. cbn in E.
  destruct lock as [lock|]; [|done]. cbn in E. unfold ensure in E.
  destruct (bool_decide _) eqn:Ef in E; [|done]. bools. injection Ef as Ef.
  destruct matching; [done|]. cbn in E. destruct activity as [ids| |]; try done.
  apply inspect_activity_gone in R9 as (records & Hl & Hg).
  exists lock. cbn. split; [|by rewrite Ef]. split; [by rewrite Ef|]. split; [done|]. split.
  { unfold inspect_lock in R5. apply runs_call_inv in R5 as ([m|x] & t' & -> & R5).
    - git_solve. cbn. auto 10 with seen.
    - destruct x; by git_solve. }
  split; [auto 10 with seen|]. exists paths, ids, records. split; [done|]. split; [done|].
  split; [by rewrite Ef|]. split; [auto 10 with seen|].
  split; [by repeat first [done|apply performed_l, Hl|apply performed_r]|].
  apply processes_gone_r, processes_gone_r, processes_gone_r, processes_gone_r. by rewrite app_nil_r.
Qed.

(** ** Intents *)

(** An operator's intent is in the log with these data. *)
Definition intent_recorded (t : trace) (intent_event_id : string) (data : LegacyRecoveryData) : Prop :=
  durable segments_dir t LEGACY_INTENT_EVENT (legacy_json data) intent_event_id
  \/ exists records r, ledger_says segments_dir t [LEGACY_INTENT_EVENT] records /\ In r records
       /\ ge_event_id r = intent_event_id /\ legacy_of_json (ge_data r) = Some data.
Definition authorised (data : LegacyRecoveryData) (fingerprint : string) : Prop :=
  ld_writer_stopped_authorization data = true /\ ld_recovery_fingerprint data = fingerprint.

Lemma intent_recorded_l t t' i d : intent_recorded t i d -> intent_recorded (t ++ t')%list i d.
Proof.
  intros [Hd|(rs & r & Hl & ?)]; [left; by apply durable_l|right].
  exists rs, r. split; [by apply performed_l|done].
Qed.
Lemma intent_recorded_r t t' i d : intent_recorded t' i d -> intent_recorded (t ++ t')%list i d.
Proof.
  intros [Hd|(rs & r & Hl & ?)]; [left; by apply durable_r|right].
  exists rs, r. split; [by apply performed_r|done].
Qed.

Lemma verify_authorized_said intents data i :
  verify_authorized_intent intents data i = Ok tt ->
  ld_writer_stopped_authorization data = true
  /\ exists r, In r intents /\ ge_event_id r = i /\ legacy_of_json (ge_data r) = Some data.
Proof.
  unfold verify_authorized_intent, ensure, validate_fingerprint. intros E.
  destruct (_ =? _)%Z; [|done]. cbn in E. destruct (ld_writer_stopped_authorization data); [|done].
  split; [done|]. destruct (_ && _); [|done].
  destruct (List.filter _ intents) as [|r [|]] eqn:Ef; try done.
  destruct (legacy_of_json (ge_data r)) as [d|] eqn:Ed; [|done]. cbn in E.
  destruct (bool_decide _) eqn:Eb; [|done]. bools. exists r.
  assert (Hin : In r (List.filter (fun r => String.eqb (ge_event_id r) i) intents)) by (rewrite Ef; by left).
  apply filter_In in Hin as [Hin Ei]. by apply String.eqb_eq in Ei.
Qed.

Lemma validate_matching_said records matching selected i d :
  validate_matching_intents records matching selected = Ok tt -> In (i, d) matching ->
  verify_authorized_intent records d i = Ok tt.
Proof.
  unfold validate_matching_intents. generalize tt at 1 as u.
  induction matching as [|[i' d'] m IH]; intros u E; cbn [try_fold] in E; [done|].
  destruct (verify_authorized_intent records d' i') as [[]|] eqn:Ev; [|done].
  destruct (ensure _ _) as [u'|]; [|done].
  intros [[= -> ->]|Hin]; [done|]. by apply (IH u').
Qed.

Lemma interrupted_said fingerprint paths t i d :
  runs (complete_interrupted_recovery root segments_dir managed_worktree worktree fingerprint paths) t
    (Ok (Pending i d)) ->
  intent_recorded t i d /\ authorised d fingerprint.
Proof.
  unfold complete_interrupted_recovery. intros R.
  apply runs_bind_ok_inv in R as (t1 & [records|e] & t2 & -> & R1 & R); [|by destruct R].
  apply runs_bind_ok_inv in R as (t3 & [matching|e] & t4 & -> & [-> Em]%runs_lift & R); [|by destruct R].
  destruct matching as [|[i' d'] matching]; [by git_solve|].
  apply runs_bind_ok_inv in R as (t5 & [[]|e] & t6 & -> & [-> Ev]%runs_lift & R); [|by destruct R].
  assert (i' = i /\ d' = d) as [-> ->].
  { clear Ev. by git_solve. }
  apply validate_matching_said with (i := i) (d := d) in Ev; [|by left].
  apply verify_authorized_said in Ev as (Ha & r & Hin & Hi & Hd). split.
  - right. exists records, r. split; [by apply performed_l, performed_here|done].
  - split; [done|]. destruct (collect_some_in _ _ _ Em (i, d)) as (r' & _ & Er); [by left|].
    unfold matching_intent in Er. destruct (option_context _ _) as [dd|]; [|done].
    destruct (_ && _) eqn:Eb in Er; [|done]. bools. by injection Er as _ ->.
Qed.

Lemma authorise_said interrupted before fingerprint ws lock t data i :
  runs (authorise root segments_dir interrupted before fingerprint ws lock) t (Ok (data, i)) ->
  ws = true -> in_lock before = Some lock ->
  (forall i d, interrupted = Pending i d -> authorised d fingerprint) ->
  authorised data fingerprint
  /\ ld_original_lock data = lock /\ ld_index data = in_index before
  /\ (durable segments_dir t LEGACY_INTENT_EVENT (legacy_json data) i
      \/ interrupted = Pending i data).
Proof.
  intros R -> Hl Hp. unfold authorise in R. destruct interrupted as [|i' d'|]; [| |by git_solve].
  - apply runs_bind_ok_inv in R as (t1 & [d|e] & t2 & -> & R1 & R); [|by destruct R].
    apply runs_bind_ok_inv in R as (t3 & [j|e] & t4 & -> & R3 & R); [|by destruct R].
    apply runs_ret in R as [-> [= -> ->]]. unfold new_recovery_data in R1.
    apply runs_bind_ok_inv in R1 as (t5 & [a|e] & t6 & -> & _ & R1); [|by destruct R1].
    apply runs_ret in R1 as [-> E]. destruct (in_quarantine_file before); [|done].
    injection E as <-. cbn. split; [done|]. split; [done|]. split; [done|]. left.
    apply durable_r. rewrite app_nil_r. by eapply append_audit_durable.
  - apply runs_bind_ok_inv in R as (t1 & [[]|e] & t2 & -> & [-> E]%runs_lift & R); [|by destruct R].
    apply runs_ret in R as [-> [= -> ->]]. split; [by eapply Hp|].
    unfold validate_pending_intent, ensure in E. rewrite Hl in E.
    destruct (_ && _) eqn:Eb in E; [|done]. bools. split; [done|]. split; [done|by right].
Qed.

(** ** The move *)

Definition legacy_move_is_authorised (fingerprint : string) (wait : Z) (past : trace)
    (source_dir : handle) (source : string) (target_dir : handle) (target : string) : Prop :=
  exists i lock lease data intent_event_id before after,
    past = (before ++ after)%list
    /\ moves (in_index_lock_file i) (legacy_quarantine_file (in_common_git_dir i) fingerprint) past
         source_dir source target_dir target
    /\ performed before (acquire_with_index_override managed_worktree worktree Index
                          ("legacy-lock-" ++ String.substring 0 32 fingerprint) wait None) (Ok lease)
    /\ fit_for_recovery before i fingerprint lock
    /\ intent_recorded before intent_event_id data /\ authorised data fingerprint
    /\ ld_original_lock data = lock /\ ld_index data = in_index i
    /\ performed after (resolve_paths_with_index_override managed_worktree worktree None)
         (Ok (le_paths lease))
    /\ fit_for_recovery after i fingerprint lock.

Definition legacy_move_ok (fingerprint : string) (wait : Z) (past : trace) (e : event reply) : Prop :=
  forall a b c d, projT1 e = RenameNoReplace a b c d ->
    legacy_move_is_authorised fingerprint wait past a b c d.

Lemma legacy_kept_ok fp wait past e : keeps_names (projT1 e) = true -> legacy_move_ok fp wait past e.
Proof. intros Hk a b c d E. by rewrite E in Hk. Qed.

Lemma fit_l t t' i fp l : fit_for_recovery t i fp l -> fit_for_recovery (t ++ t')%list i fp l.
Proof.
  intros (? & ? & ? & ? & paths & ids & records & ? & ? & ? & ? & Hl & Hg).
  do 2 (split; [done|]). do 2 (split; [by apply performed_l|]).
  exists paths, ids, records. do 3 (split; [done|]). split; [by apply performed_l|].
  split; [by apply performed_l|]. eapply Forall_impl; [exact Hg|].
  intros r Hr (s & ? & ? & ?)%Hr. exists s. split; [done|]. split; [by apply process_gone_l|by apply seen_l].
Qed.
Lemma fit_r t t' i fp l : fit_for_recovery t' i fp l -> fit_for_recovery (t ++ t')%list i fp l.
Proof.
  intros (? & ? & ? & ? & paths & ids & records & ? & ? & ? & ? & Hl & Hg).
  do 2 (split; [done|]). do 2 (split; [by apply performed_r|]).
  exists paths, ids, records. do 3 (split; [done|]). split; [by apply performed_r|].
  split; [by apply performed_r|]. by apply processes_gone_r.
Qed.

Lemma confirm_said lease_paths before fingerprint lock t :
  runs (confirm_inspection root segments_dir managed_worktree worktree lease_paths before fingerprint)
    t (Ok tt) -> in_lock before = Some lock ->
  performed t (resolve_paths_with_index_override managed_worktree worktree None) (Ok lease_paths)
  /\ fit_for_recovery t before fingerprint lock.
Proof.
  unfold confirm_inspection. intros R El.
  apply runs_bind_ok_inv in R as (t1 & [cur|e] & t2 & -> & R1 & R); [|by destruct R].
  apply runs_map_error_ok in R1. git_step. bools.
  apply runs_bind_ok_inv in R as (t3 & [after|e] & t4 & -> & R3 & R); [|by destruct R].
  apply runs_bind_ok_inv in R as (t5 & [[]|e] & t6 & -> & [-> E]%runs_lift & R); [|by destruct R].
  git_solve. bools. split; [by apply performed_l, performed_here|].
  apply eligible_inspection with (fingerprint := fingerprint) in R3 as (lock' & Hf & _); [|done].
  assert (lock' = lock) as -> by (destruct Hf as (_ & E' & _); congruence).
  by apply fit_r, fit_l.
Qed.

Ltac keep_legacy :=
  apply (allowed_after_ok keeps_names); [exact (legacy_kept_ok _ _)|by keeps_solve|].

Lemma quarantine_legacy_allowed fingerprint wait past lease interrupted :
  performed past (acquire_with_index_override managed_worktree worktree Index
                    ("legacy-lock-" ++ String.substring 0 32 fingerprint) wait None) (Ok lease) ->
  (forall i d, interrupted = Pending i d -> intent_recorded past i d /\ authorised d fingerprint) ->
  allowed (legacy_move_ok fingerprint wait) past
    (quarantine_legacy_lock root segments_dir managed_worktree worktree (le_paths lease) interrupted
       fingerprint true).
Proof.
  intros Hlease Hp. unfold quarantine_legacy_lock.
  keep_legacy. intros t1 i Ri. keep_legacy. intros t2 [] [-> Ee]%runs_lift.
  apply eligible_inspection with (fingerprint := fingerprint) in Ri as (lock & Hf & Eq); [|done].
  pose proof Hf as (_ & El & _). rewrite El, Eq.
  keep_legacy. intros t3 l [-> [= <-]]%runs_lift. keep_legacy. intros t4 target [-> [= <-]]%runs_lift.
  keep_legacy. intros t5 d [-> Hd]%runs_lift. keep_legacy. intros t6 _ _. keep_legacy. intros t7 _ _.
  keep_legacy. intros t8 [data intent] Ra.
  apply authorise_said in Ra as (Hau & Hlk & Hix & Hin); [|done|done|intros ?? E; exact (proj2 (Hp _ _ E))].
  keep_legacy. intros t9 [] Rc. eapply confirm_said in Rc as [Hres Hfit]; [|exact El].
  apply allowed_bind_ok.
  - apply allowed_map_error, atomic_move_allowed; [exact (legacy_kept_ok _ _)|].
    intros t10 a b c e r Hm _ a' b' c' e' [= <- <- <- <-]. rewrite !app_nil_r.
    rewrite <- (app_assoc _ t9 t10).
    eexists i, lock, lease, data, intent, _, _. split; [reflexivity|].
    split; [by apply moves_r, moves_r|]. split; [by do 4 apply performed_l|].
    split; [by do 3 apply fit_l; apply fit_r|]. split.
    { destruct Hin as [Hin|Hin]; [apply intent_recorded_r; by left|].
      do 4 apply intent_recorded_l. exact (proj1 (Hp _ _ Hin)). }
    do 3 (split; [done|]). split; [by apply performed_l|by apply fit_l].
  - intros t10 _. eapply (allowed_only keeps_names); [exact (legacy_kept_ok _ _)|]. by keeps_solve.
Qed.

Lemma apply_allowed fingerprint ws wait past :
  allowed (legacy_move_ok fingerprint wait) past
    (apply_legacy_git_lock root segments_dir managed_worktree worktree fingerprint ws wait).
Proof.
  unfold apply_legacy_git_lock. destruct ws; [|exact I]. cbn [require].
  keep_legacy. intros t1 _ _. keep_legacy. intros t2 paths _. keep_legacy. intros t3 [receipt|] _.
  { eapply (allowed_only keeps_names); [exact (legacy_kept_ok _ _)|]. auto with keeps. }
  cbv zeta. keep_legacy. intros t4 lease Rl%runs_map_error_ok.
  destruct (bool_decide (le_paths lease = paths)); [|exact I]. cbn [require].
  keep_legacy. intros t5 interrupted Ri.
  assert (Hq : forall x, interrupted = x -> (forall r, x <> Quarantined r) ->
    allowed (legacy_move_ok fingerprint wait) (((((past ++ t1) ++ t2) ++ t3) ++ t4) ++ t5)%list
      (quarantine_legacy_lock root segments_dir managed_worktree worktree (le_paths lease) x
         fingerprint true)).
  { intros x <- _. apply quarantine_legacy_allowed; [by apply performed_l, performed_r, performed_here|].
    intros i d ->. apply interrupted_said in Ri as [Hi Ha]. split; [by apply intent_recorded_r|done]. }
  destruct interrupted as [|i d|r]; [by apply Hq|by apply Hq|].
  eapply (allowed_only keeps_names); [exact (legacy_kept_ok _ _)|]. auto with keeps.
Qed.

(** C7. A lock without an owner is moved only on an operator's word: in every run of
    [apply_legacy_git_lock], a rename is of the lock file into the quarantine under
    the repeated fingerprint; the operator said that writers have stopped; the index
    lease was taken; the lock, the index, the absence of a managed proof and of
    every recorded process were seen under that fingerprint, before and again after
    an intent with that authorisation, lock and index was in the log. *)
Theorem legacy_moves_are_authorised fingerprint ws wait t r :
  runs (apply_legacy_git_lock root segments_dir managed_worktree worktree fingerprint ws wait) t r ->
  forall past a b c d x rest,
    t = (past ++ did (RenameNoReplace a b c d) x :: rest)%list ->
    ws = true /\ legacy_move_is_authorised fingerprint wait past a b c d.
Proof.
  intros R past a b c d x rest E. split.
  - destruct ws; [done|]. apply runs_ret in R as [-> _]. by destruct past.
  - destruct (always_runs _ _ _ _ _ _ (apply_allowed fingerprint ws wait []) R) as [_ Hok].
    by apply (Hok _ _ _ E a b c d).
Qed.

(** ** Receipts *)

(** What was seen of a recovery when it is reported. *)
Definition recovery_verified (t : trace) (receipt : LegacyGitLockRecoveryReceipt)
    (index_file index_lock_file : PathBuf) : Prop :=
  (exists q, performed t (snapshot_lock (lr_quarantine_file receipt)) (Ok q)
             /\ same_lock_inode (lr_original_lock receipt) q = true)
  /\ (seen t (SymlinkMetadata index_lock_file) (Err NotFound)
      \/ exists current, performed t (snapshot_lock index_lock_file) (Ok current)
                         /\ same_lock_inode (lr_original_lock receipt) current = false)
  /\ performed t (fingerprint_file index_file) (Ok (lr_index receipt)).

Lemma recovery_verified_r t t' r i l : recovery_verified t' r i l -> recovery_verified (t ++ t')%list r i l.
Proof.
  intros ((q & ? & ?) & Hl & ?). split; [exists q; by auto with seen|]. split; [|by auto with seen].
  destruct Hl as [?|(c & ? & ?)]; [left|right; exists c]; by auto with seen.
Qed.

Lemma verify_applied_said receipt ixf lkf already t r :
  runs (verify_applied_receipt receipt ixf lkf already) t (Ok r) ->
  r = {| ar_receipt := receipt; ar_already_applied := already |}
  /\ recovery_verified t receipt ixf lkf.
Proof.
  unfold verify_applied_receipt. intros R.
  apply runs_bind_ok_inv in R as (t1 & [q|e] & t2 & -> & R1 & R); [|by destruct R].
  apply runs_map_error_ok in R1. git_step. apply runs_call_inv in R as (found & t3 & -> & R).
  apply runs_bind_ok_inv in R as (t4 & [[]|e] & t5 & -> & R4 & R); [|by destruct R].
  apply runs_bind_ok_inv in R as (t6 & [ix|e] & t7 & -> & R6 & R); [|by destruct R].
  git_step. bools. apply runs_ret in R as [-> [= <-]]. split; [done|]. split.
  { exists q. split; [by auto with seen|done]. }
  split; [|by auto 10 with seen]. destruct found as [m|[]]; try by git_solve.
  - right. git_solve. bools. eexists. split; [|eassumption]. by auto 10 with seen.
  - left. by auto with seen.
Qed.

Definition receipt_in_log (t : trace) (receipt : LegacyGitLockRecoveryReceipt) : Prop :=
  exists data, ld_writer_stopped_authorization data = true
    /\ receipt = recovery_receipt (lr_receipt_event_id receipt) (lr_intent_event_id receipt) data
    /\ (durable segments_dir t LEGACY_RECOVERED_EVENT
          (legacy_receipt_json data (lr_intent_event_id receipt)) (lr_receipt_event_id receipt)
        \/ exists records e, ledger_says segments_dir t [LEGACY_RECOVERED_EVENT] records /\ In e records
             /\ ge_event_id e = lr_receipt_event_id receipt
             /\ member_str "intent_event_id" (ge_data e) = Some (lr_intent_event_id receipt)
             /\ legacy_of_json (ge_data e) = Some data).

Lemma receipt_in_log_r t t' r : receipt_in_log t' r -> receipt_in_log (t ++ t')%list r.
Proof.
  intros (d & ? & ? & H). exists d. do 2 (split; [done|]).
  destruct H as [?|(rs & e & ? & ?)]; [left; by apply durable_r|right].
  exists rs, e. split; [by apply performed_r|done].
Qed.
Lemma receipt_in_log_l t t' r : receipt_in_log t r -> receipt_in_log (t ++ t')%list r.
Proof.
  intros (d & ? & ? & H). exists d. do 2 (split; [done|]).
  destruct H as [?|(rs & e & ? & ?)]; [left; by apply durable_l|right].
  exists rs, e. split; [by apply performed_l|done].
Qed.

Lemma append_receipt_in_log data i p t r :
  runs (append_recovery_receipt segments_dir data i p) t (Ok r) ->
  ld_writer_stopped_authorization data = true -> receipt_in_log t r.
Proof.
  unfold append_recovery_receipt. intros R Ha.
  apply runs_bind_ok_inv in R as (t1 & [j|e] & t2 & -> & R1 & R); [|by destruct R].
  apply runs_ret in R as [-> [= <-]]. exists data. split; [done|]. split; [done|]. left. cbn.
  rewrite app_nil_r. by eapply append_audit_durable.
Qed.

Lemma find_completed_said fingerprint paths t r :
  runs (find_completed_receipt segments_dir fingerprint paths) t (Ok (Some r)) -> receipt_in_log t r.
Proof.
  unfold find_completed_receipt. intros R.
  apply runs_bind_ok_inv in R as (t1 & [records|e] & t2 & -> & R1 & R); [|by destruct R].
  apply runs_bind_ok_inv in R as (t3 & [intents|e] & t4 & -> & R3 & R); [|by destruct R].
  apply runs_lift in R as [-> R]. destruct (collect_some _ _) as [[|x [|]]|] eqn:E; try done.
  injection R as ->. destruct (collect_some_in _ _ _ E r) as (ev & Hin & Ev); [by left|].
  unfold completed_receipt in Ev. destruct (member_str _ _) as [i|] eqn:Ei; [|done]. cbn in Ev.
  destruct (legacy_of_json (ge_data ev)) as [d|] eqn:Ed; [|done]. cbn in Ev.
  destruct (verify_authorized_intent _ _ _) as [[]|] eqn:Ea; [|done].
  destruct (_ && _) in Ev; [|done]. injection Ev as <-.
  apply verify_authorized_said in Ea as [Ha _]. exists d. split; [done|]. split; [done|]. right.
  exists records, ev. split; [by apply performed_l, performed_here|done].
Qed.

Definition resolved (t : trace) (paths : GitMutationPaths) : Prop :=
  performed t (resolve_paths_with_index_override managed_worktree worktree None) (Ok paths).

Lemma inspection_paths t i :
  runs inspect t (Ok i) ->
  exists paths, resolved t paths /\ in_index_file i = index_file paths
    /\ in_index_lock_file i = index_lock_file paths.
Proof.
  unfold inspect_legacy_git_lock_with. intros R.
  apply runs_bind_ok_inv in R as (t1 & [paths|e] & t2 & -> & R1 & R); [|by destruct R].
  exists paths. apply runs_map_error_ok in R1. split; [by apply performed_l, performed_here|].
  repeat (apply runs_bind_ok_inv in R as (? & [?|?] & ? & -> & _ & R); [|by destruct R]).
  by apply runs_ret in R as [_ [= <-]].
Qed.

(** A recovery of the lock of these paths, complete and seen. *)
Definition recovery_reported (t : trace) (receipt : LegacyGitLockRecoveryReceipt) : Prop :=
  receipt_in_log t receipt
  /\ exists paths, resolved t paths
       /\ recovery_verified t receipt (index_file paths) (index_lock_file paths).

Lemma recovery_reported_r t t' r : recovery_reported t' r -> recovery_reported (t ++ t')%list r.
Proof.
  intros [? (p & ? & ?)]. split; [by apply receipt_in_log_r|]. exists p.
  split; [by apply performed_r|by apply recovery_verified_r].
Qed.

Lemma quarantine_legacy_said lease_paths interrupted fingerprint ws t r :
  (forall i d, interrupted = Pending i d -> ld_writer_stopped_authorization d = true) -> ws = true ->
  runs (quarantine_legacy_lock root segments_dir managed_worktree worktree lease_paths interrupted
          fingerprint ws) t (Ok r) ->
  recovery_reported t (ar_receipt r) /\ ar_already_applied r = false.
Proof.
  intros Hp Hws. unfold quarantine_legacy_lock. intros R.
  apply runs_bind_ok_inv in R as (t1 & [i|e] & t2 & -> & R1 & R); [|by destruct R].
  apply inspection_paths in R1 as (paths & Hr & Ei & El).
  do 6 (apply runs_bind_ok_inv in R as (? & [?|?] & ? & -> & _ & R); [|by destruct R]).
  apply runs_bind_ok_inv in R as (t3 & [[data intent]|e] & t4 & -> & R3 & R); [|by destruct R].
  assert (Ha : ld_writer_stopped_authorization data = true).
  { unfold authorise, new_recovery_data in R3. destruct interrupted as [|j d|]; [| |by git_solve].
    - git_solve. done.
    - apply runs_bind_ok_inv in R3 as (? & [?|?] & ? & -> & _ & R3); [|by destruct R3].
      apply runs_ret in R3 as [_ [= <- _]]. by eapply Hp. }
  do 3 (apply runs_bind_ok_inv in R as (? & [?|?] & ? & -> & _ & R); [|by destruct R]).
  git_step. apply runs_bind_ok_inv in R as (t5 & [receipt|e] & t6 & -> & R5 & R); [|by destruct R].
  apply append_receipt_in_log in R5; [|done]. apply verify_applied_said in R as [-> Hv]. cbn.
  split; [|done]. split.
  - repeat first [exact (receipt_in_log_l _ _ _ R5)|apply receipt_in_log_r].
  - exists paths. split; [by apply performed_l|]. rewrite <- Ei, <- El.
    by repeat first [exact Hv|apply recovery_verified_r].
Qed.

Lemma interrupted_quarantined fingerprint paths t r :
  runs (complete_interrupted_recovery root segments_dir managed_worktree worktree fingerprint paths) t
    (Ok (Quarantined r)) -> receipt_in_log t r.
Proof.
  unfold complete_interrupted_recovery. intros R.
  apply runs_bind_ok_inv in R as (t1 & [records|e] & t2 & -> & R1 & R); [|by destruct R].
  apply runs_bind_ok_inv in R as (t3 & [matching|e] & t4 & -> & [-> Em]%runs_lift & R); [|by destruct R].
  destruct matching as [|[i' d'] matching]; [by git_solve|].
  apply runs_bind_ok_inv in R as (t5 & [[]|e] & t6 & -> & [-> Ev]%runs_lift & R); [|by destruct R].
  apply validate_matching_said with (i := i') (d := d') in Ev; [|by left].
  apply verify_authorized_said in Ev as (Ha & _).
  do 2 (apply runs_bind_ok_inv in R as (? & [?|?] & ? & -> & _ & R); [|by destruct R]).
  git_step. apply runs_bind_ok_inv in R as (? & [?|?] & ? & -> & _ & R); [|by destruct R].
  apply runs_bind_inv in R as (? & [?|?] & ? & -> & _ & R); [|by destruct (snapshot_is_missing _); git_solve].
  git_step. apply runs_bind_ok_inv in R as (? & [?|?] & ? & -> & _ & R); [|by destruct R].
  apply runs_bind_ok_inv in R as (t7 & [r'|?] & t8 & -> & R7 & R); [|by destruct R].
  apply runs_ret in R as [-> [= ->]]. apply append_receipt_in_log in R7; [|done].
  repeat first [exact (receipt_in_log_l _ _ _ R7)|apply receipt_in_log_r].
Qed.

Lemma reported t1 t2 t3 paths receipt :
  resolved t1 paths -> receipt_in_log t2 receipt ->
  recovery_verified t3 receipt (index_file paths) (index_lock_file paths) ->
  recovery_reported (t1 ++ t2 ++ t3)%list receipt.
Proof.
  intros Hr Hl Hv. split; [by apply receipt_in_log_r, receipt_in_log_l|]. exists paths.
  split; [by apply performed_l|by do 2 apply recovery_verified_r].
Qed.

(** C9. A recovery that is reported is verified: in every run of
    [apply_legacy_git_lock] with a good result the operator had said that writers
    have stopped, the receipt is in the log with that authorisation, the quarantined
    file was seen with the inode, times and content of the original lock, the
    original lock is gone from its path, and the index is the one of the receipt. *)
Theorem applied_recoveries_are_verified fingerprint ws wait t r :
  runs (apply_legacy_git_lock root segments_dir managed_worktree worktree fingerprint ws wait) t (Ok r) ->
  ws = true /\ recovery_reported t (ar_receipt r).
Proof.
  unfold apply_legacy_git_lock. destruct ws; [|by intros [_ [=]]%runs_ret]. cbn [require]. intros R.
  split; [done|].
  apply runs_bind_ok_inv in R as (t1 & [[]|e] & t2 & -> & _ & R); [|by destruct R].
  apply runs_bind_ok_inv in R as (t3 & [paths|e] & t4 & -> & R3 & R); [|by destruct R].
  apply runs_map_error_ok in R3.
  assert (Hr : resolved t3 paths) by by apply performed_here.
  apply runs_bind_ok_inv in R as (t5 & [completed|e] & t6 & -> & R5 & R); [|by destruct R].
  destruct completed as [receipt|].
  { apply find_completed_said in R5. apply verify_applied_said in R as [-> Hv].
    by apply recovery_reported_r, (reported t3 t5 t6 paths). }
  cbv zeta in R. apply runs_bind_ok_inv in R as (t7 & [lease|e] & t8 & -> & _ & R); [|by destruct R].
  destruct (bool_decide _); [|by git_solve]. cbn [require] in R.
  apply runs_bind_ok_inv in R as (t9 & [interrupted|e] & t10 & -> & R9 & R); [|by destruct R].
  assert (Hq : (forall r, interrupted <> Quarantined r) ->
    runs (quarantine_legacy_lock root segments_dir managed_worktree worktree (le_paths lease) interrupted
            fingerprint true) t10 (Ok r) -> recovery_reported t10 (ar_receipt r)).
  { intros _ Rq. eapply quarantine_legacy_said in Rq; [by destruct Rq| |done].
    intros i d ->. by apply interrupted_said in R9 as [_ [Ha _]]. }
  destruct interrupted as [|i d|receipt].
  - by do 5 apply recovery_reported_r; apply Hq.
  - by do 5 apply recovery_reported_r; apply Hq.
  - apply interrupted_quarantined in R9. apply verify_applied_said in R as [-> Hv].
    apply recovery_reported_r. rewrite (app_assoc t5), (app_assoc t3).
    apply (reported _ t9 t10 paths); [by apply performed_l|done|done].
Qed.
(** ** The evidence in the log *)

Definition legacy_fits (d : LegacyRecoveryData) : Prop :=
  (0 <= ld_schema_version d <= u32_max)%Z /\ process_fits (ld_actor d) /\ fingerprint_fits (ld_index d)
  /\ lock_fits (ld_original_lock d)
  /\ Forall normal_path [ld_worktree_root d; ld_git_dir d; ld_common_git_dir d; ld_index_file d;
                         ld_index_lock_file d; ld_quarantine_file d].

Lemma as_path_json p : normal_path p -> as_path (JPath p) = Some p.
Proof. intros H. unfold as_path, JPath. cbn. by rewrite parse_display. Qed.

(** The members that are read are the ones of the written object, whatever is written
    beside them. *)
Lemma legacy_of_fields d j :
  fields legacy_names j = Some (map snd (legacy_fields d)) -> legacy_fits d -> legacy_of_json j = Some d.
Proof.
  intros E (Hv & Ha%process_roundtrip & Hi%fingerprint_roundtrip & Hl%lock_roundtrip & Hp).
  destruct d. cbn in Hv, Ha, Hi, Hl, Hp.
  unfold legacy_of_json. rewrite E. cbn -[as_u32 as_path process_json fingerprint_json lock_json
    process_of_json fingerprint_of_json lock_of_json JPath].
  rewrite as_u32_num by done. rewrite Ha, Hi, Hl.
  repeat match goal with H : Forall normal_path (_ :: _) |- _ => apply Forall_cons in H as [? H] end.
  cbn -[as_path JPath]. repeat (rewrite as_path_json by done; cbn -[as_path JPath]). done.
Qed.

(** C40. The evidence is read back as it was written: a proof of ownership, an intent
    and a receipt of a quarantine, and an intent and a receipt of a recovery an
    operator authorised (the receipt is the intent with one more member) come back
    from their JSON form with every field, as long as the numbers have the widths of
    the source's types and the paths are canonical. *)
Theorem evidence_is_read_back proof audit receipt data intent_event_id :
  proof_fits proof -> qa_proof audit = proof -> qr_proof receipt = proof ->
  (0 <= qa_schema_version audit <= u32_max)%Z -> (0 <= qr_schema_version receipt <= u32_max)%Z ->
  lock_fits (qr_quarantined_lock receipt) -> legacy_fits data ->
  proof_of_json (proof_json proof) = Some proof
  /\ audit_of_json (audit_json audit) = Some audit
  /\ receipt_of_json (receipt_json receipt) = Some receipt
  /\ legacy_of_json (legacy_json data) = Some data
  /\ legacy_of_json (legacy_receipt_json data intent_event_id) = Some data
  /\ member_str "intent_event_id" (legacy_receipt_json data intent_event_id) = Some intent_event_id.
Proof.
  intros Hp <- Hr Ha Hrv Hl Hd. split; [by apply proof_roundtrip|]. split; [by apply audit_roundtrip|].
  split; [by apply receipt_roundtrip; [|rewrite Hr|]|].
  destruct data. split; [|split]; [| |by vm_compute].
  - apply legacy_of_fields; [by vm_compute|done].
  - apply legacy_of_fields; [by vm_compute|done].
Qed.
End spec.
