(* ===== verification/GitTermination.v ===== *)
(** * Git locks: every operation ends

    The waits are the only loops of the Git-lock services without a bound in their
    data; under a clock that advances each ends, so no run of an operation is left
    unfinished. *)

From S2P Require Import Prelude RustStr JsonValue Paths Effects.
From S2P Require Import GitEvidence GitPoll GitLedger GitMutation GitOwner GitRecovery GitLegacy.

Ltac punctual_more :=
  match goal with
  | |- punctual (require _ _ _) => unfold require
  | |- punctual (ok_or_none _) => unfold ok_or_none
  | |- punctual (pbind_some _ _) => unfold pbind_some
  | |- punctual (or_uncertain _ _ _) => apply punctual_map_error
  | |- punctual (or_verdict _ _) => apply punctual_map_error
  | |- punctual (let _ := _ in _) => cbv zeta
  | |- punctual (retry_until _ _ _ _) => apply retry_until_punctual; [done|try lia| |intros ? ?]
  end.
Ltac ends := repeat first [progress (auto with punctual nocore) | punctual_step | punctual_more].

Section ends.
Context `{SHA : Sha256} `{TEXT : JsonText}.

(** ** Paths, the ledger, snapshots *)

Lemma canonical_directory_ends p w : punctual (canonical_directory p w).
Proof. unfold canonical_directory. ends. Qed.
Lemma git_path_ends w a o : punctual (git_path w a o).
Proof. unfold git_path. ends. Qed.
#[local] Hint Resolve canonical_directory_ends git_path_ends : punctual.
Lemma resolve_paths_ends m w o : punctual (resolve_paths_with_index_override m w o).
Proof.
  unfold resolve_paths_with_index_override, managed_roots, shared_git_dir, reject_symlink,
    reject_optional_symlink, canonicalize_leaf_parent. ends.
Qed.
Lemma read_segment_ends s ty sel : punctual (read_segment s ty sel).
Proof. unfold read_segment. ends. Qed.
Lemma read_segments_ends ss ty sel : punctual (read_segments ss ty sel).
Proof.
  revert sel. induction ss as [|s ss IH]; intros sel; cbn [read_segments]; [by ends|].
  apply punctual_bind_ok; [apply read_segment_ends|apply IH].
Qed.
#[local] Hint Resolve read_segments_ends : punctual.
Lemma ledger_lock_ends d w : (0 <= w)%Z -> punctual (acquire_existing_shared_ledger_lock d w).
Proof.
  intros Hw. unfold acquire_existing_shared_ledger_lock, try_shared, read_segment_paths. ends.
Qed.
Lemma read_recovery_ends d ty : punctual (read_recovery d ty).
Proof.
  assert (Hl := ledger_lock_ends d LEDGER_WAIT ltac:(done)).
  unfold read_recovery, read_git_recovery_events, read_git_recovery_events_at, read_segment_paths.
  ends.
Qed.
Lemma snapshot_lock_ends p : punctual (snapshot_lock p).
Proof. unfold snapshot_lock. ends. Qed.
Lemma fingerprint_file_ends p : punctual (fingerprint_file p).
Proof. unfold fingerprint_file. ends. Qed.
Lemma start_time_ticks_ends r pid : punctual (start_time_ticks r pid).
Proof. unfold start_time_ticks. ends. Qed.
Lemma process_group_exists_ends g : punctual (process_group_exists g).
Proof. unfold process_group_exists. ends. Qed.
#[local] Hint Resolve resolve_paths_ends read_recovery_ends snapshot_lock_ends fingerprint_file_ends
  start_time_ticks_ends process_group_exists_ends : punctual.

(** ** The lease *)

Lemma verify_open_path_ends h p : punctual (verify_open_path h p).
Proof. unfold verify_open_path. ends. Qed.
#[local] Hint Resolve verify_open_path_ends : punctual.
Lemma ensure_safe_ends p : punctual (ensure_safe_lease_directory p).
Proof. unfold ensure_safe_lease_directory, create_lease_directory. ends. Qed.
Lemma try_lease_ends m p r o i : punctual (try_lease m p r o i).
Proof.
  unfold try_lease, open_lease_file, reject_optional_symlink, complete_lease, write_lease_record,
    process_start_identity. ends.
Qed.
#[local] Hint Resolve ensure_safe_ends try_lease_ends : punctual.
Lemma acquire_resolved_ends m p r o w i : (0 <= w)%Z -> punctual (acquire_resolved m p r o w i).
Proof. intros Hw. unfold acquire_resolved, lease_busy. ends. Qed.
Lemma acquire_ends m w r o wait i :
  (0 <= wait)%Z -> punctual (acquire_with_index_override m w r o wait i).
Proof.
  intros Hw. assert (Ha := fun p => acquire_resolved_ends m p r o wait i Hw).
  unfold acquire_with_index_override. ends.
Qed.
Lemma acquire_all_ends m p rs o d i ls : punctual (acquire_all m p rs o d i ls).
Proof.
  revert ls. induction rs as [|r rs IH]; intros ls; cbn [acquire_all]; [by ends|].
  apply punctual_bind; [by apply punctual_call|intros now].
  apply punctual_bind_ok; [apply acquire_resolved_ends; lia|intros l; apply IH].
Qed.
Lemma acquire_set_ends m w rs o wait : punctual (acquire_set m w rs o wait).
Proof.
  assert (Ha := acquire_all_ends). unfold acquire_set, acquire_set_with_index_override. ends.
Qed.

(** ** Managed recovery *)

Lemma any_descriptor_ends d dev ino es : punctual (any_descriptor d dev ino es).
Proof. induction es as [|[n|e] es IH]; cbn [any_descriptor]; by ends. Qed.
#[local] Hint Resolve any_descriptor_ends : punctual.
Lemma holds_inode_ends r pid dev ino : punctual (holds_inode r pid dev ino).
Proof. unfold holds_inode, process_is_zombie. ends. Qed.
Lemma managed_scope_active_ends r s : punctual (managed_scope_active r s).
Proof. unfold managed_scope_active. ends. Qed.
Lemma matching_process_scope_ends d p pf : punctual (matching_process_scope d p pf).
Proof. unfold matching_process_scope. ends. Qed.
#[local] Hint Resolve holds_inode_ends managed_scope_active_ends matching_process_scope_ends : punctual.
Lemma located_proofs_ends d p s rs found : punctual (located_proofs d p s rs found).
Proof. revert found. induction rs as [|r rs IH]; intros found; cbn [located_proofs]; by ends. Qed.
#[local] Hint Resolve located_proofs_ends : punctual.
Lemma matching_proof_ends d p s : punctual (matching_proof d p s).
Proof. unfold matching_proof. ends. Qed.
Lemma append_audit_ends d ty j p : punctual (append_audit_once d ty j p).
Proof. unfold append_audit_once, find_audit_event. ends. Qed.
Lemma find_audit_ends d ty j p : punctual (find_audit_event d ty j p).
Proof. unfold find_audit_event. ends. Qed.
Lemma open_directory_ends p : punctual (open_directory_nofollow p).
Proof. unfold open_directory_nofollow. ends. Qed.
#[local] Hint Resolve matching_proof_ends append_audit_ends find_audit_ends open_directory_ends : punctual.
Lemma atomic_move_ends a b s : punctual (atomic_move_lock a b s).
Proof. unfold atomic_move_lock. ends. Qed.
Lemma check_capacity_ends d t : punctual (check_quarantine_capacity d t).
Proof. unfold check_quarantine_capacity. ends. Qed.
Lemma verify_proof_event_ends d i e p : punctual (verify_proof_event d i e p).
Proof. unfold verify_proof_event. ends. Qed.
Lemma verify_quarantined_owner_ends r s p : punctual (verify_quarantined_owner r s p).
Proof. unfold verify_quarantined_owner. ends. Qed.
Lemma validate_current_ends m l : punctual (validate_current_paths m l).
Proof. unfold validate_current_paths. ends. Qed.
#[local] Hint Resolve atomic_move_ends check_capacity_ends verify_proof_event_ends
  verify_quarantined_owner_ends validate_current_ends : punctual.
Lemma quarantine_ends r d m l pf : punctual (quarantine_proven_lock r d m l pf).
Proof.
  unfold quarantine_proven_lock, revalidate_before_quarantine, lock_vanished, verify_moved,
    append_receipt. ends.
Qed.
#[local] Hint Resolve quarantine_ends : punctual.
Lemma reconcile_absent_ends r d l : punctual (reconcile_absent_lock r d l).
Proof.
  unfold reconcile_absent_lock, verify_quarantine_receipt, complete_interrupted_quarantine,
    verify_moved, append_receipt. ends.
Qed.
Lemma reconcile_present_ends r d m l : punctual (reconcile_present_lock r d m l).
Proof. unfold reconcile_present_lock. ends. Qed.
#[local] Hint Resolve reconcile_absent_ends reconcile_present_ends : punctual.
Lemma reconcile_round_ends r d m l : punctual (reconcile_round r d m l).
Proof. unfold reconcile_round, verdict_of, reconcile_once. ends. Qed.
#[local] Hint Resolve reconcile_round_ends : punctual.
Lemma reconcile_ends r d m l wait :
  (0 <= wait)%Z -> punctual (reconcile_with_inspector r d m l wait).
Proof. intros Hw. unfold reconcile_with_inspector. ends. Qed.

(** ** Legacy recovery *)

Lemma activity_of_ends r p rs st ins act : punctual (activity_of r p rs st ins act).
Proof. revert ins act. induction st as [|s st IH]; intros ins act; cbn [activity_of]; by ends. Qed.
#[local] Hint Resolve activity_of_ends : punctual.
Lemma inspect_activity_ends r d p : punctual (inspect_managed_activity r d p).
Proof. unfold inspect_managed_activity. ends. Qed.
#[local] Hint Resolve inspect_activity_ends : punctual.
Lemma inspect_ends r d m w : punctual (inspect_legacy_git_lock_with r d m w).
Proof.
  unfold inspect_legacy_git_lock_with, legacy_paths, inspect_lock, has_matching_managed_proof. ends.
Qed.
Lemma verify_applied_ends rc i l a : punctual (verify_applied_receipt rc i l a).
Proof. unfold verify_applied_receipt. ends. Qed.
#[local] Hint Resolve inspect_ends verify_applied_ends : punctual.
Lemma complete_recovery_ends r d m w f p : punctual (complete_interrupted_recovery r d m w f p).
Proof.
  unfold complete_interrupted_recovery, ensure_no_managed_activity, validate_interrupted_quarantine,
    legacy_paths, append_recovery_receipt. ends.
Qed.
Lemma quarantine_legacy_ends r d m w lp x f ws : punctual (quarantine_legacy_lock r d m w lp x f ws).
Proof.
  unfold quarantine_legacy_lock, authorise, new_recovery_data, current_actor, confirm_inspection,
    append_recovery_receipt. ends.
Qed.
#[local] Hint Resolve complete_recovery_ends quarantine_legacy_ends : punctual.
Lemma apply_ends r d m w f ws wait :
  (0 <= wait)%Z -> punctual (apply_legacy_git_lock r d m w f ws wait).
Proof.
  intros Hw. assert (Ha := fun o => acquire_ends m w Index o wait None Hw).
  unfold apply_legacy_git_lock, legacy_paths, find_completed_receipt. ends.
Qed.
Lemma record_proof_ends r log d l o : punctual (record_proof_with r log d l o).
Proof.
  assert (Hr := read_recovery_ends d). unfold read_recovery in Hr.
  unfold record_proof_with, try_record_proof_with, verify_process_identity, current_lock,
    native_lock_is_absent, append_proof_once, find_proof_event. ends.
Qed.

(** Against every world the program comes to a result, and when the clock runs its
    loops were followed to their ends. *)
Definition settles {A} (p : IO A) : Prop :=
  forall world low, exists t a, answer world [] p = (t, a) /\ runs p t a
    /\ (clock_ok low t -> followed t).

Lemma punctual_settles {A} (p : IO A) : punctual p -> settles p.
Proof.
  intros Hp world low. destruct (answer_runs world [] p) as (t & E & R).
  destruct (answer world [] p) as [t' a]. cbn in *. subst t'. exists t, a.
  split; [done|]. split; [done|]. exact (Hp low t a R).
Qed.

(** C20. Every wait ends: whatever the world answers, lock reconciliation, the legacy
    recovery, the acquisition of a set of leases and the recording of a proof come
    to a result; and as long as the clock does not go back and a sleep lasts as long
    as it says, the rounds given to the loops are enough: none is cut short. *)
Theorem waiting_ends root segments log managed worktree lease fingerprint ws resources operation owner
    wait :
  (0 <= wait)%Z ->
  settles (reconcile_with_inspector root segments managed lease wait)
  /\ settles (apply_legacy_git_lock root segments managed worktree fingerprint ws wait)
  /\ settles (acquire_set managed worktree resources operation wait)
  /\ settles (record_proof_with root log segments lease owner).
Proof.
  intros Hw. repeat split; apply punctual_settles.
  - by apply reconcile_ends.
  - by apply apply_ends.
  - apply acquire_set_ends.
  - apply record_proof_ends.
Qed.
End ends.
