(* ===== verification/Lineage.v ===== *)
(** * Lineage of an aggregate

    [services/aggregate_lineage.rs]: the host recomputes, from the Git objects of
    the owner's worktree, that every completed child commit is in the history of an
    approved aggregate, as an ancestor or by its patch, and compares the digest of
    that proof with the one of the approval.  A run of it, and what acceptance
    means. *)

From stdpp Require Import pretty sorting.
From S2P Require Import Prelude RustStr JsonValue SqlTable Effects.
Local Open Scope string_scope.
Local Open Scope prog_scope.

Definition MAX_LINEAGE_COMMITS : nat := 256.
Definition MAX_AGGREGATE_COMMITS : Z := 2000.

(** ** Calls

    [git] in the repository and [git patch-id --stable] fed with a patch.  The
    output is the bytes; [utf8] says that they are UTF-8. *)

Inductive GitReply :=
| GitTimedOut
| GitNotStarted
| GitExited (code : option Z) (stdout : string) (utf8 : bool).
Inductive PatchReply :=
| PatchFailed (reason : string)
| PatchExited (code : option Z) (stdout : string).

Inductive call :=
| RunGit (args : list string)
| RunPatchId (patch : string).
Definition reply (c : call) : Type :=
  match c with RunGit _ => GitReply | RunPatchId _ => PatchReply end.
Definition IO (A : Type) : Type := prog reply A.
Notation call_git := (@perform call reply).

Record Output := { out_code : option Z; out_stdout : string; out_utf8 : bool }.
(** [status.success()]. *)
Definition success (code : option Z) : bool := bool_decide (code = Some 0%Z).

Definition run_git (arguments : list string) : IO (result Output string) :=
  do r <- call_git (RunGit arguments);
  Ret (match r with
       | GitTimedOut => Err "Git lineage command timed out"
       | GitNotStarted => Err "Git lineage command could not start"
       | GitExited code stdout utf8 =>
           Ok {| out_code := code; out_stdout := stdout; out_utf8 := utf8 |}
       end).

(** [.context(...)]. *)
Definition context {A} (text : string) (p : IO (result A string)) : IO (result A string) :=
  map_error (fun _ => text) p.

Definition successful_text (arguments : list string) : IO (result string string) :=
  do? output <- run_git arguments;
  require (success (out_code output)) "Git command failed during aggregate lineage verification"
  (require (out_utf8 output) "Git returned non-UTF-8 aggregate lineage evidence"
   (Ret (Ok (str_trim (out_stdout output))))).

(** ** Identifiers *)

Definition is_lower_hex (c : ascii) : bool :=
  is_hex_digit c && negb ((65 <=? nat_of_ascii c)%nat && (nat_of_ascii c <=? 90)%nat).
Definition validate_object_id (value label : string) : result unit string :=
  ensure (((str_len value =? 40)%Z || (str_len value =? 64)%Z) && all_chars is_lower_hex value)
    (label ++ " is not a full lowercase Git object ID").
Definition validate_digest (value : string) : result unit string :=
  ensure ((str_len value =? 64)%Z && all_chars is_lower_hex value)
    "aggregate lineage proof digest is malformed".

(** ** Patches *)

Definition commit_parent (commit : string) : IO (result string string) :=
  context "aggregate commit parent is unavailable"
    (successful_text ["rev-parse"; "--verify"; commit ++ "^1"]).

(** The first word of the first line that has one. *)
Definition patch_identity (stdout : string) : option string :=
  head (flat_map (fun line => match split_whitespace line with w :: _ => [w] | [] => [] end)
          (lines stdout)).

Definition patch_id (parent commit : string) : IO (result (option string) string) :=
  do? patch <- run_git ["diff"; "--binary"; "--no-ext-diff"; parent; commit];
  require (success (out_code patch)) "Git could not read a commit patch for lineage verification"
  (do output <- call_git (RunPatchId (out_stdout patch));
   Ret (match output with
        | PatchFailed reason => Err reason
        | PatchExited code stdout =>
            let? _ := ensure (success code) "Git patch-id failed during lineage verification" in
            match patch_identity stdout with
            | None => Ok None
            | Some word =>
                let? _ := ensure ((str_len word =? 40)%Z && all_chars is_hex_digit word)
                            "Git returned a malformed patch identity" in
                Ok (Some word)
            end
        end)).

(** The loop over the history; a second match ends it. *)
Fixpoint equivalents (source_patch : string) (commits matches : list string)
  : IO (result (list string) string) :=
  match commits with
  | [] => Ret (Ok matches)
  | commit :: commits =>
      do? parent <- commit_parent commit;
      do? patch <- patch_id parent commit;
      let matches := if bool_decide (patch = Some source_patch) then (matches ++ [commit])%list
                     else matches in
      require (negb (1 <? length matches)%nat)
        "aggregate history contains ambiguous patch-equivalent child commits"
        (equivalents source_patch commits matches)
  end.

Definition range (base head : string) : string := base ++ ".." ++ head.
Definition parse_count (text : string) : result Z string :=
  option_context (parse_u64 text) "aggregate history count is malformed".
(** [is_empty] lines do not count. *)
Definition history_lines (history : string) : list string :=
  List.filter (fun line => negb (str_is_empty line)) (lines history).

Definition find_patch_equivalent_commit (receipt_commit aggregate_head : string)
  : IO (result string string) :=
  do? source_parent <- context "rebased child commit's source parent is unavailable"
                         (successful_text ["rev-parse"; "--verify"; receipt_commit ++ "^1"]);
  do? common_base <- context "child and aggregate histories have no available common base"
                       (successful_text ["merge-base"; source_parent; aggregate_head]);
  do? source_patch <- patch_id source_parent receipt_commit;
  do? source_patch <- lift (option_context source_patch
                              "completed child commit has no verifiable patch");
  do? text <- context "aggregate history could not be enumerated"
                (successful_text ["rev-list"; "--count"; range common_base aggregate_head]);
  do? count <- lift (parse_count text);
  require (negb (MAX_AGGREGATE_COMMITS <? count)%Z)
    "aggregate history exceeds the bounded rebase verification limit"
  (do? history <- context "aggregate history could not be read"
                    (successful_text ["rev-list";
                       "--max-count=" ++ pretty (MAX_AGGREGATE_COMMITS + 1)%Z;
                       range common_base aggregate_head]);
   let commits := history_lines history in
   require (Z.of_nat (length commits) =? count)%Z
     "aggregate history changed during lineage verification"
   (do? matches <- equivalents source_patch commits [];
    Ret (option_context (head matches)
           "aggregate history does not contain the completed child patch"))).

(** ** The relation of one commit *)

Record CommitRelation := {
  aggregate_commit : string;
  receipt_commit : string;
  relation : string
}.

Definition verify_commit_relation (receipt_commit aggregate_head : string)
  : IO (result (string * string) string) :=
  do? ancestry <- run_git ["merge-base"; "--is-ancestor"; receipt_commit; aggregate_head];
  if success (out_code ancestry) then Ret (Ok (receipt_commit, "ancestor"))
  else
    require (bool_decide (out_code ancestry = Some 1%Z))
      "Git could not determine aggregate commit ancestry"
    (do? aggregate_commit <- find_patch_equivalent_commit receipt_commit aggregate_head;
     Ret (Ok (aggregate_commit, "patch_equivalent_rebase"))).

(** [BTreeSet] of the texts: sorted, without repetition. *)
Definition btree_set (l : list string) : list string := insertion_sort String.leb (remove_dups l).

Definition commit_arg (sha kind : string) : string := sha ++ "^{" ++ kind ++ "}".

Fixpoint relate (commits : list string) (aggregate_head : string) (relations : list CommitRelation)
  : IO (result (list CommitRelation) string) :=
  match commits with
  | [] => Ret (Ok relations)
  | commit :: commits =>
      do? _ <- lift (validate_object_id commit "completed child commit");
      do? resolved <- context ("completed child commit " ++ commit ++ " is unavailable")
                        (successful_text ["rev-parse"; "--verify"; commit_arg commit "commit"]);
      require (String.eqb resolved commit) "Git resolved a different completed child commit"
      (do? r <- verify_commit_relation commit aggregate_head;
       relate commits aggregate_head
         (relations ++ [{| aggregate_commit := r.1; receipt_commit := commit; relation := r.2 |}])%list)
  end.

(** ** The proof *)

Definition relation_json (r : CommitRelation) : json :=
  JObj [("aggregate_commit", JStr (aggregate_commit r)); ("receipt_commit", JStr (receipt_commit r));
        ("relation", JStr (relation r))].
Definition proof_json (aggregate_head_sha tree_sha : string) (relations : list CommitRelation) : json :=
  JObj [("aggregate_head_sha", JStr aggregate_head_sha); ("aggregate_tree_sha", JStr tree_sha);
        ("relations", JArr (map relation_json relations))].

Section lineage.
Context `{Sha256} `{JsonText}.

Definition observed_digest (aggregate_head_sha tree_sha : string) (relations : list CommitRelation)
  : string := sha256_hex (json_to_string (proof_json aggregate_head_sha tree_sha relations)).

(** [verify_parent_aggregate_lineage] is this with a bound of 60 seconds. *)
Definition verify_parent_aggregate_lineage_inner
    (aggregate_head_sha expected_tree_sha : string) (receipt_commits : list string)
    (expected_proof_digest : string) : IO (result unit string) :=
  do? _ <- lift (validate_object_id aggregate_head_sha "aggregate head");
  do? _ <- lift (validate_object_id expected_tree_sha "aggregate head tree");
  do? _ <- lift (validate_digest expected_proof_digest);
  require (negb (Nat.eqb (length receipt_commits) 0
                 || (MAX_LINEAGE_COMMITS <? length receipt_commits)%nat))
    "aggregate approval has missing or excessive lineage commits"
  (do? root <- context "aggregate owner worktree is not a Git repository"
                 (successful_text ["rev-parse"; "--show-toplevel"]);
   require (negb (str_is_empty root)) "aggregate owner worktree is not a Git repository"
   (do? resolved_head <- context "aggregate head is unavailable in its owner worktree"
       (successful_text ["rev-parse"; "--verify"; commit_arg aggregate_head_sha "commit"]);
    require (String.eqb resolved_head aggregate_head_sha)
      "Git resolved a different aggregate head than the approval receipt"
    (do? tree_sha <- context "aggregate head tree is unavailable"
        (successful_text ["rev-parse"; "--verify"; commit_arg aggregate_head_sha "tree"]);
     require (String.eqb tree_sha expected_tree_sha)
       "aggregate Git tree differs from the approved watcher tree"
     (do? relations <- relate (btree_set receipt_commits) aggregate_head_sha [];
      require (String.eqb (observed_digest aggregate_head_sha tree_sha relations) expected_proof_digest)
        "aggregate Git lineage proof differs from the durable approval receipt"
        (Ret (Ok tt)))))).
End lineage.

(** ** What a run has seen *)

Definition trace := list (event reply).

(** Git answered a question about the repository. *)
Definition git_answer (t : trace) (args : list string) (text : string) : Prop :=
  exists stdout, seen t (RunGit args) (GitExited (Some 0%Z) stdout true) /\ text = str_trim stdout.
(** The patch between two commits has this identity. *)
Definition has_patch (t : trace) (parent commit id : string) : Prop :=
  exists patch utf8 stdout,
    seen t (RunGit ["diff"; "--binary"; "--no-ext-diff"; parent; commit])
      (GitExited (Some 0%Z) patch utf8)
    /\ seen t (RunPatchId patch) (PatchExited (Some 0%Z) stdout)
    /\ patch_identity stdout = Some id /\ str_len id = 40%Z.
(** The patch of a commit against its parent. *)
Definition patch_of (t : trace) (commit : string) (x : option string) : Prop :=
  exists parent, git_answer t ["rev-parse"; "--verify"; commit ++ "^1"] parent
    /\ performed t (patch_id parent commit) (Ok x).

Lemma git_answer_l t t' a x : git_answer t a x -> git_answer (t ++ t')%list a x.
Proof. intros (o & H & ->). exists o. by eauto with seen. Qed.
Lemma git_answer_r t t' a x : git_answer t' a x -> git_answer (t ++ t')%list a x.
Proof. intros (o & H & ->). exists o. by eauto with seen. Qed.
Lemma has_patch_l t t' p c i : has_patch t p c i -> has_patch (t ++ t')%list p c i.
Proof. intros (a & u & o & ? & ? & ? & ?). exists a, u, o. by eauto 10 with seen. Qed.
Lemma has_patch_r t t' p c i : has_patch t' p c i -> has_patch (t ++ t')%list p c i.
Proof. intros (a & u & o & ? & ? & ? & ?). exists a, u, o. by eauto 10 with seen. Qed.
Lemma patch_of_l t t' c x : patch_of t c x -> patch_of (t ++ t')%list c x.
Proof. intros (p & H & ?). exists p. split; [by apply git_answer_l|by apply performed_l]. Qed.
Lemma patch_of_r t t' c x : patch_of t' c x -> patch_of (t ++ t')%list c x.
Proof. intros (p & H & ?). exists p. split; [by apply git_answer_r|by apply performed_r]. Qed.
#[local] Hint Resolve git_answer_l git_answer_r has_patch_l has_patch_r patch_of_l patch_of_r : seen.

Lemma run_git_said args t o :
  runs (run_git args) t (Ok o) -> t = [did (RunGit args) (GitExited (out_code o) (out_stdout o) (out_utf8 o))].
Proof. unfold run_git. intros R. runs_solve. done. Qed.

Lemma successful_text_said args t x : runs (successful_text args) t (Ok x) -> git_answer t args x.
Proof.
  unfold successful_text. intros R.
  apply runs_bind_ok_inv in R as (t1 & [[code out u]|e] & t2 & -> & R1 & R); [|by destruct R].
  apply run_git_said in R1 as ->. cbn in *. runs_solve. unfold success in *. bools.
  eexists. split; [by left|done].
Qed.

Lemma context_said {A} text (p : IO (result A string)) t x : runs (context text p) t (Ok x) -> runs p t (Ok x).
Proof. apply runs_map_error_ok. Qed.

Lemma patch_id_said parent commit t x :
  runs (patch_id parent commit) t (Ok (Some x)) -> has_patch t parent commit x.
Proof.
  unfold patch_id. intros R.
  apply runs_bind_ok_inv in R as (t1 & [[code out u]|e] & t2 & -> & R1 & R); [|by destruct R].
  apply run_git_said in R1 as ->. cbn in *. runs_step.
  apply runs_inv in R as (output & t3 & -> & R). apply runs_ret in R as [-> E].
  destruct output as [reason|code' stdout]; [done|]. unfold ensure, success in *.
  case_bool_decide; [|done]. destruct (patch_identity stdout) as [w|] eqn:Ew; [|done].
  destruct (_ && _) eqn:Eb; [|done]. simplify_eq. bools. exists out, u, stdout. split; [by left|].
  split; [by right; left|done].
Qed.

(** ** The search for a patch *)

Lemma equivalents_said source commits matches t out :
  runs (equivalents source commits matches) t (Ok out) ->
  exists xs, Forall2 (patch_of t) commits xs
    /\ out = (matches ++ map fst (List.filter (fun cx => bool_decide (cx.2 = Some source)) (zip commits xs)))%list
    /\ (length matches <= 1 -> length out <= 1).
Proof.
  revert matches t. induction commits as [|c cs IH]; intros ms t R; cbn [equivalents] in R.
  { apply runs_ret in R as [-> [= ->]]. exists []. split; [constructor|].
    cbn. by rewrite app_nil_r. }
  apply runs_bind_ok_inv in R as (t1 & [parent|e] & t2 & -> & R1 & R); [|by destruct R].
  apply context_said, successful_text_said in R1.
  apply runs_bind_ok_inv in R as (t3 & [x|e] & t4 & -> & R3 & R); [|by destruct R].
  apply runs_require_inv in R as [[Hl R]|(_ & _ & ?)]; [|done]. apply negb_true_iff, Nat.ltb_ge in Hl.
  apply IH in R as (xs & Hxs & -> & Hlen). exists (x :: xs). split.
  - constructor.
    + exists parent. split; [by apply git_answer_l|by apply performed_r, performed_l, performed_here].
    + eapply Forall2_impl; [exact Hxs|]. intros. by do 2 apply patch_of_r.
  - split; [|by intros _; apply Hlen]. cbn. case_bool_decide; [|done]. by rewrite <- app_assoc.
Qed.

(** The only commit of the history with this patch. *)
Definition only_equivalent (t : trace) (history : list string) (commit patch : string) : Prop :=
  exists before after, history = (before ++ commit :: after)%list
    /\ (exists parent, git_answer t ["rev-parse"; "--verify"; commit ++ "^1"] parent
                       /\ has_patch t parent commit patch)
    /\ Forall (fun other => exists x, patch_of t other x /\ x <> Some patch) (before ++ after).

Lemma single_equivalent t source commits xs c :
  Forall2 (patch_of t) commits xs ->
  map fst (List.filter (fun cx => bool_decide (cx.2 = Some source)) (zip commits xs)) = [c] ->
  only_equivalent t commits c source.
Proof.
  intros Hf. induction Hf as [|c' x cs xs Hx Hf IH]; [done|]. cbn. case_bool_decide as E.
  - cbn. intros [= -> Hn]. exists [], cs. split; [done|]. split.
    + subst x. destruct Hx as (p & Hp & Hr). exists p. split; [done|].
      destruct Hr as (t1 & t2 & t3 & -> & R). by apply has_patch_r, has_patch_l, patch_id_said.
    + cbn. clear IH. induction Hf as [|c' y cs ys Hy Hf IH]; [constructor|]. cbn in Hn.
      case_bool_decide; [done|]. constructor; [by exists y|by apply IH].
  - intros (before & after & -> & Hc & Ho)%IH. exists (c' :: before), after.
    split; [done|]. split; [done|]. constructor; [by exists x|done].
Qed.

(** ** Acceptance *)

Definition related (t : trace) (aggregate_head : string) (r : CommitRelation) : Prop :=
  let c := receipt_commit r in
  relation r = "ancestor" /\ aggregate_commit r = c
  /\ (exists stdout utf8,
        seen t (RunGit ["merge-base"; "--is-ancestor"; c; aggregate_head])
          (GitExited (Some 0%Z) stdout utf8))
  \/ relation r = "patch_equivalent_rebase"
  /\ exists parent base patch history,
       git_answer t ["rev-parse"; "--verify"; c ++ "^1"] parent
       /\ git_answer t ["merge-base"; parent; aggregate_head] base
       /\ has_patch t parent c patch
       /\ git_answer t ["rev-list"; "--max-count=2001"; range base aggregate_head] history
       /\ (Z.of_nat (length (history_lines history)) <= 2000)%Z
       /\ only_equivalent t (history_lines history) (aggregate_commit r) patch.

Lemma related_l t t' h r : related t h r -> related (t ++ t')%list h r.
Proof.
  intros [(? & ? & o & u & ?)|(? & p & b & x & hs & ? & ? & ? & ? & ? & l1 & l2 & E & (q & ? & ?) & Ho)].
  - left. split; [done|]. split; [done|]. exists o, u. by apply seen_l.
  - right. split; [done|]. exists p, b, x, hs. do 5 (split; [by eauto with seen|]).
    exists l1, l2. split; [done|]. split; [exists q; by eauto with seen|].
    eapply Forall_impl; [exact Ho|]. intros c (y & ? & ?). exists y. by eauto with seen.
Qed.
Lemma related_r t t' h r : related t' h r -> related (t ++ t')%list h r.
Proof.
  intros [(? & ? & o & u & ?)|(? & p & b & x & hs & ? & ? & ? & ? & ? & l1 & l2 & E & (q & ? & ?) & Ho)].
  - left. split; [done|]. split; [done|]. exists o, u. by apply seen_r.
  - right. split; [done|]. exists p, b, x, hs. do 5 (split; [by eauto with seen|]).
    exists l1, l2. split; [done|]. split; [exists q; by eauto with seen|].
    eapply Forall_impl; [exact Ho|]. intros c (y & ? & ?). exists y. by eauto with seen.
Qed.

Lemma find_equivalent_said c head t agg :
  runs (find_patch_equivalent_commit c head) t (Ok agg) ->
  related t head {| aggregate_commit := agg; receipt_commit := c; relation := "patch_equivalent_rebase" |}.
Proof.
  unfold find_patch_equivalent_commit. intros R.
  apply runs_bind_ok_inv in R as (t1 & [parent|e] & t2 & -> & R1 & R); [|by destruct R].
  apply context_said, successful_text_said in R1.
  apply runs_bind_ok_inv in R as (t3 & [base|e] & t4 & -> & R3 & R); [|by destruct R].
  apply context_said, successful_text_said in R3.
  apply runs_bind_ok_inv in R as (t5 & [patch|e] & t6 & -> & R5 & R); [|by destruct R].
  apply runs_bind_ok_inv in R as (t7 & [source|e] & t8 & -> & [-> E]%runs_lift & R); [|by destruct R].
  destruct patch as [patch|]; [|done]. injection E as <-. apply patch_id_said in R5.
  apply runs_bind_ok_inv in R as (t9 & [text|e] & t10 & -> & _ & R); [|by destruct R].
  apply runs_bind_ok_inv in R as (t11 & [count|e] & t12 & -> & [-> _]%runs_lift & R); [|by destruct R].
  apply runs_require_inv in R as [[Hc R]|(_ & _ & ?)]; [|done].
  apply negb_true_iff, Z.ltb_ge in Hc.
  apply runs_bind_ok_inv in R as (t13 & [history|e] & t14 & -> & R13 & R); [|by destruct R].
  apply context_said, successful_text_said in R13.
  apply runs_require_inv in R as [[Hl%Z.eqb_eq R]|(_ & _ & ?)]; [|done].
  apply runs_bind_ok_inv in R as (t15 & [matches|e] & t16 & -> & R15 & R); [|by destruct R].
  apply runs_ret in R as [-> E]. destruct matches as [|m ms]; [done|]. injection E as ->.
  apply equivalents_said in R15 as (xs & Hf & Hm & Hlen). destruct ms; [|cbn in Hlen; lia].
  symmetry in Hm. apply (single_equivalent _ _ _ _ _ Hf) in Hm. right. split; [done|].
  exists parent, base, patch, history. cbn. rewrite !app_nil_r. do 4 (split; [by eauto 12 with seen|]).
  split; [unfold MAX_AGGREGATE_COMMITS in Hc; lia|].
  destruct Hm as (l1 & l2 & E & (q & Hq & Hp) & Ho). exists l1, l2. split; [done|].
  split; [exists q; by eauto 12 with seen|].
  eapply Forall_impl; [exact Ho|]. intros o (y & Hy & ?). exists y. by eauto 12 with seen.
Qed.

Lemma relation_said c head t r :
  runs (verify_commit_relation c head) t (Ok r) ->
  related t head {| aggregate_commit := r.1; receipt_commit := c; relation := r.2 |}.
Proof.
  unfold verify_commit_relation. intros R.
  apply runs_bind_ok_inv in R as (t1 & [[code out u]|e] & t2 & -> & R1 & R); [|by destruct R].
  apply run_git_said in R1 as ->. cbn [out_code out_stdout out_utf8] in *. unfold success in R.
  case_bool_decide; subst.
  - apply runs_ret in R as [-> [= <-]]. left. split; [done|]. split; [done|]. exists out, u. by left.
  - apply runs_require_inv in R as [[_ R]|(_ & _ & ?)]; [|done].
    apply runs_bind_ok_inv in R as (t3 & [agg|e] & t4 & -> & R3 & R); [|by destruct R].
    apply runs_ret in R as [-> [= <-]]. rewrite app_nil_r. by apply (related_r [_]), find_equivalent_said.
Qed.

Lemma relate_said commits head rs t out :
  runs (relate commits head rs) t (Ok out) ->
  exists new, out = (rs ++ new)%list /\ map receipt_commit new = commits /\ Forall (related t head) new
    /\ Forall (fun c => validate_object_id c "completed child commit" = Ok tt
                        /\ git_answer t ["rev-parse"; "--verify"; commit_arg c "commit"] c) commits.
Proof.
  revert rs t. induction commits as [|c cs IH]; intros rs t R; cbn [relate] in R.
  { apply runs_ret in R as [-> [= ->]]. exists []. rewrite app_nil_r. by repeat split. }
  apply runs_bind_ok_inv in R as (t1 & [[]|e] & t2 & -> & [-> Hv]%runs_lift & R); [|by destruct R].
  apply runs_bind_ok_inv in R as (t3 & [c'|e] & t4 & -> & R3 & R); [|by destruct R].
  apply context_said, successful_text_said in R3.
  apply runs_require_inv in R as [[->%String.eqb_eq R]|(_ & _ & ?)]; [|done].
  apply runs_bind_ok_inv in R as (t5 & [r|e] & t6 & -> & R5 & R); [|by destruct R].
  apply relation_said in R5.
  apply IH in R as (new & -> & <- & Hr & Hc). cbn.
  exists ({| aggregate_commit := r.1; receipt_commit := c; relation := r.2 |} :: new).
  split; [by rewrite <- app_assoc|]. split; [done|]. split.
  - constructor; [by apply related_r, related_l|]. eapply Forall_impl; [exact Hr|].
    intros x Hx. by do 2 apply related_r.
  - constructor; [by split; [|apply git_answer_l]|]. eapply Forall_impl; [exact Hc|].
    intros x [? Hx]. split; [done|]. by do 2 apply git_answer_r.
Qed.

Lemma btree_set_elem l c : In c (btree_set l) <-> In c l.
Proof.
  unfold btree_set. rewrite <- !list_elem_of_In, (insertion_sort_perm _ _). apply elem_of_remove_dups.
Qed.

(** C17. An aggregate is accepted only on its lineage: in every run that accepts, the
    head, its tree and every completed child commit (at least one, at most 256, all
    full lowercase object ids) were resolved by Git to themselves; for every child
    commit, each taken once in order, Git said that it is an ancestor of the head,
    or its patch is the patch of exactly one commit of the history since their
    common base, which has at most 2000 commits; and the digest of exactly these
    relations is the one of the approval. *)
Theorem accepted_aggregate_is_covered `{Sha256} `{JsonText} head tree receipts digest t :
  runs (verify_parent_aggregate_lineage_inner head tree receipts digest) t (Ok tt) ->
  1 <= length receipts <= MAX_LINEAGE_COMMITS
  /\ git_answer t ["rev-parse"; "--verify"; commit_arg head "commit"] head
  /\ git_answer t ["rev-parse"; "--verify"; commit_arg head "tree"] tree
  /\ exists relations,
       map receipt_commit relations = btree_set receipts
       /\ (forall c, In c receipts -> exists r, In r relations /\ receipt_commit r = c)
       /\ Forall (related t head) relations
       /\ Forall (fun c => git_answer t ["rev-parse"; "--verify"; commit_arg c "commit"] c) receipts
       /\ observed_digest head tree relations = digest.
Proof.
  unfold verify_parent_aggregate_lineage_inner. intros R.
  do 3 (apply runs_bind_ok_inv in R as (? & [[]|?] & ? & -> & [-> _]%runs_lift & R); [|by destruct R]).
  apply runs_require_inv in R as [[Hn R]|(_ & _ & ?)]; [|done]. apply negb_true_iff, orb_false_iff in Hn.
  destruct Hn as [Hn%Nat.eqb_neq Hm%Nat.ltb_ge].
  apply runs_bind_ok_inv in R as (t1 & [root|e] & t2 & -> & _ & R); [|by destruct R]. runs_step.
  apply runs_bind_ok_inv in R as (t3 & [h|e] & t4 & -> & R3 & R); [|by destruct R].
  apply context_said, successful_text_said in R3.
  apply runs_require_inv in R as [[->%String.eqb_eq R]|(_ & _ & ?)]; [|done].
  apply runs_bind_ok_inv in R as (t5 & [tr|e] & t6 & -> & R5 & R); [|by destruct R].
  apply context_said, successful_text_said in R5.
  apply runs_require_inv in R as [[->%String.eqb_eq R]|(_ & _ & ?)]; [|done].
  apply runs_bind_ok_inv in R as (t7 & [rs|e] & t8 & -> & R7 & R); [|by destruct R].
  apply runs_require_inv in R as [[Hd%String.eqb_eq R]|(_ & _ & ?)]; [|done].
  apply runs_ret in R as [-> _]. apply relate_said in R7 as (new & -> & Hmap & Hrel & Hcom).
  rewrite app_nil_r. cbn in *. split; [lia|]. do 2 (split; [by eauto 12 with seen|]).
  exists new. split; [done|]. split; [|split; [|split]].
  - intros c Hc. apply btree_set_elem in Hc. rewrite <- Hmap in Hc. apply in_map_iff in Hc as (r & ? & ?).
    by exists r.
  - eapply Forall_impl; [exact Hrel|]. intros r Hr. by do 3 apply related_r.
  - apply Forall_forall. intros c Hc. apply list_elem_of_In, btree_set_elem, list_elem_of_In in Hc.
    rewrite Forall_forall in Hcom. destruct (Hcom c Hc) as [_ Hg]. by do 3 apply git_answer_r.
  - done.
Qed.

(** ** A repository

    Two completed commits: an ancestor of the head, and one that was rebased, whose
    patch is the one of the second of two commits of the history. *)
Definition sha_of (c : ascii) : string := String.string_of_list_ascii (repeat c 40).
Definition scene_head : string := sha_of "a".
Definition scene_tree : string := sha_of "b".
Definition scene_merged : string := sha_of "1".
Definition scene_rebased : string := sha_of "2".
Definition scene_other : string := sha_of "3".
Definition scene_copy : string := sha_of "4".
Definition scene_base : string := sha_of "0".
Definition newline : string := String "010"%char "".

Definition length_digest (s : string) : string :=
  String.string_of_list_ascii (repeat (ascii_of_nat (48 + String.length s mod 10)) 64).
Definition scene_sha : Sha256 := {| sha256_hex := length_digest |}.

Definition said (text : string) : GitReply := GitExited (Some 0%Z) (text ++ newline) true.
Definition scene_git (args : list string) : GitReply :=
  match args with
  | ["rev-parse"; "--show-toplevel"] => said "/r"
  | ["rev-parse"; "--verify"; name] =>
      if String.eqb name (commit_arg scene_head "commit") then said scene_head
      else if String.eqb name (commit_arg scene_head "tree") then said scene_tree
      else if String.eqb name (commit_arg scene_merged "commit") then said scene_merged
      else if String.eqb name (commit_arg scene_rebased "commit") then said scene_rebased
      else said scene_base
  | ["merge-base"; "--is-ancestor"; c; _] =>
      GitExited (Some (if String.eqb c scene_merged then 0 else 1)%Z) "" true
  | ["merge-base"; _; _] => said scene_base
  | ["diff"; _; _; _; commit] =>
      GitExited (Some 0%Z) (if String.eqb commit scene_other then "x" else "y") true
  | ["rev-list"; "--count"; _] => said "2"
  | ["rev-list"; _; _] => said (scene_other ++ newline ++ scene_copy)
  | _ => GitNotStarted
  end.
Definition scene_world (past : trace) (c : call) : reply c :=
  match c with
  | RunGit args => scene_git args
  | RunPatchId patch =>
      PatchExited (Some 0%Z) (sha_of (if String.eqb patch "x" then "c" else "d") ++ " " ++ scene_base)
  end.
Definition scene_relations : list CommitRelation :=
  [{| aggregate_commit := scene_merged; receipt_commit := scene_merged; relation := "ancestor" |};
   {| aggregate_commit := scene_copy; receipt_commit := scene_rebased;
      relation := "patch_equivalent_rebase" |}].
Definition scene_run (digest : string) : list (event reply) * result unit string :=
  answer scene_world [] (verify_parent_aggregate_lineage_inner (H := scene_sha) (H0 := bits_json_text)
    scene_head scene_tree [scene_rebased; scene_merged; scene_rebased] digest).
Definition scene_digest : string :=
  observed_digest (H := scene_sha) (H0 := bits_json_text) scene_head scene_tree scene_relations.

Lemma accepted_aggregate_is_covered_witness :
  (scene_run scene_digest).2 = Ok tt /\ length (scene_run scene_digest).1 = 19
  /\ map receipt_commit scene_relations = btree_set [scene_rebased; scene_merged; scene_rebased]
  /\ (scene_run (sha_of "5" ++ "555555555555555555555555")).2
     = Err "aggregate Git lineage proof differs from the durable approval receipt"
  /\ exists relations, map receipt_commit relations = btree_set [scene_rebased; scene_merged; scene_rebased]
       /\ Forall (related (scene_run scene_digest).1 scene_head) relations.
Proof.
  assert (E : (scene_run scene_digest).2 = Ok tt) by (vm_compute; reflexivity).
  split; [exact E|]. split; [vm_compute; reflexivity|]. split; [vm_compute; reflexivity|].
  split; [vm_compute; reflexivity|].
  unfold scene_run in E |- *. destruct (answer_runs scene_world [] (verify_parent_aggregate_lineage_inner
    (H := scene_sha) (H0 := bits_json_text) scene_head scene_tree
    [scene_rebased; scene_merged; scene_rebased] scene_digest)) as (t & Et & R).
  cbn [app] in Et. rewrite E in R. rewrite Et.
  destruct (accepted_aggregate_is_covered (H := scene_sha) (H0 := bits_json_text)
    scene_head scene_tree [scene_rebased; scene_merged; scene_rebased] scene_digest t R)
    as (_ & _ & _ & rs & Hm & _ & Hr & _).
  exists rs. by split.
Defined.
