(* ===== verification/ReviewPolicy.v ===== *)
(** * When a pull request needs a second reviewer

    [services/review_policy.rs] and [services/complexity_classifier.rs]: the policy
    with its defaults and its file, and the classification of a diff by its size, its
    paths and its text.  [classify] is the classification as a function of what Git
    printed; the theorems relate the runs to it. *)

From stdpp Require Import gmap strings pretty.
From S2P Require Import Prelude RustStr Effects.
Local Open Scope string_scope.
Local Open Scope prog_scope.

(** ** Policy *)

Inductive CiGate := Auto | On | Off.
Definition enabled (gate : CiGate) (ci_source_configured : bool) : bool :=
  match gate with Auto => ci_source_configured | On => true | Off => false end.
Record CiPolicy := { gate : CiGate }.
Definition CiPolicy_default : CiPolicy := {| gate := Auto |}.

Record ReviewPolicy := {
  min_review_rounds : Z;
  reviewer_max_rounds : Z;
  review_freshness_window_secs : Z;
  external_review_threshold : Z;
  external_review_paths : list string;
  reviewer_max_wait_seconds : Z;
  reviewer_max_rate_limit_retries : Z;
  require_second_reviewer_complexity : bool;
  complexity_line_threshold : Z;
  ci : CiPolicy;
  max_leaf_session_seconds : Z;
  max_reviewer_session_seconds : Z
}.

Definition ReviewPolicy_default : ReviewPolicy := {|
  min_review_rounds := 1;
  reviewer_max_rounds := 5;
  review_freshness_window_secs := 1200;
  external_review_threshold := 300;
  external_review_paths := ["proto/**"; "rust/exomonad-core/src/handlers/**"];
  reviewer_max_wait_seconds := 1200;
  reviewer_max_rate_limit_retries := 2;
  require_second_reviewer_complexity := false;
  complexity_line_threshold := 500;
  ci := CiPolicy_default;
  max_leaf_session_seconds := 3600;
  max_reviewer_session_seconds := 600 |}.
Definition standard : ReviewPolicy := ReviewPolicy_default.

(** The keys of the file, each of which may be missing. *)
Record PolicyTable := {
  t_min_review_rounds : option Z;
  t_reviewer_max_rounds : option Z;
  t_review_freshness_window_secs : option Z;
  t_external_review_threshold : option Z;
  t_external_review_paths : option (list string);
  t_reviewer_max_wait_seconds : option Z;
  t_reviewer_max_rate_limit_retries : option Z;
  t_require_second_reviewer_complexity : option bool;
  t_complexity_line_threshold : option Z;
  t_ci : option (option CiGate);
  t_max_leaf_session_seconds : option Z;
  t_max_reviewer_session_seconds : option Z
}.
Definition empty_table : PolicyTable :=
  {| t_min_review_rounds := None; t_reviewer_max_rounds := None; t_review_freshness_window_secs := None;
     t_external_review_threshold := None; t_external_review_paths := None;
     t_reviewer_max_wait_seconds := None; t_reviewer_max_rate_limit_retries := None;
     t_require_second_reviewer_complexity := None; t_complexity_line_threshold := None; t_ci := None;
     t_max_leaf_session_seconds := None; t_max_reviewer_session_seconds := None |}.

(** A missing key is taken from [ReviewPolicy::default()]; [external_review_paths] has
    a [serde(default)] of its own, which is the empty list. *)
Definition policy_of_table (t : PolicyTable) : ReviewPolicy :=
  let d := ReviewPolicy_default in {|
  min_review_rounds := default (min_review_rounds d) (t_min_review_rounds t);
  reviewer_max_rounds := default (reviewer_max_rounds d) (t_reviewer_max_rounds t);
  review_freshness_window_secs :=
    default (review_freshness_window_secs d) (t_review_freshness_window_secs t);
  external_review_threshold := default (external_review_threshold d) (t_external_review_threshold t);
  external_review_paths := default [] (t_external_review_paths t);
  reviewer_max_wait_seconds := default (reviewer_max_wait_seconds d) (t_reviewer_max_wait_seconds t);
  reviewer_max_rate_limit_retries :=
    default (reviewer_max_rate_limit_retries d) (t_reviewer_max_rate_limit_retries t);
  require_second_reviewer_complexity :=
    default (require_second_reviewer_complexity d) (t_require_second_reviewer_complexity t);
  complexity_line_threshold := default (complexity_line_threshold d) (t_complexity_line_threshold t);
  ci := match t_ci t with
        | None => ci d
        | Some g => {| gate := default (gate CiPolicy_default) g |}
        end;
  max_leaf_session_seconds := default (max_leaf_session_seconds d) (t_max_leaf_session_seconds t);
  max_reviewer_session_seconds :=
    default (max_reviewer_session_seconds d) (t_max_reviewer_session_seconds t) |}.

Definition set_max_rounds (p : ReviewPolicy) (rounds : Z) : ReviewPolicy := {|
  min_review_rounds := min_review_rounds p;
  reviewer_max_rounds := rounds;
  review_freshness_window_secs := review_freshness_window_secs p;
  external_review_threshold := external_review_threshold p;
  external_review_paths := external_review_paths p;
  reviewer_max_wait_seconds := reviewer_max_wait_seconds p;
  reviewer_max_rate_limit_retries := reviewer_max_rate_limit_retries p;
  require_second_reviewer_complexity := require_second_reviewer_complexity p;
  complexity_line_threshold := complexity_line_threshold p;
  ci := ci p;
  max_leaf_session_seconds := max_leaf_session_seconds p;
  max_reviewer_session_seconds := max_reviewer_session_seconds p |}.
Definition with_reviewer_max_rounds (p : ReviewPolicy) (rounds : option Z) : result ReviewPolicy string :=
  match rounds with
  | None => Ok p
  | Some rounds =>
      let? _ := ensure (negb (rounds =? 0)%Z) "reviewer_max_rounds must be at least 1, got 0" in
      Ok (set_max_rounds p rounds)
  end.

Definition pattern_matches_path (prefix path : string) : bool :=
  match strip_prefix prefix path with Some _ => true | None => false end.
Definition pattern_triggers (path pattern : string) : bool :=
  match strip_suffix "**" pattern with
  | Some prefix => pattern_matches_path prefix path
  | None => contains_str pattern path
  end.
Definition path_triggers_external_review (p : ReviewPolicy) (path : string) : bool :=
  match external_review_paths p with
  | [] => false
  | patterns => existsb (pattern_triggers path) patterns
  end.
Definition lines_trigger_external_review (p : ReviewPolicy) (lines_changed : Z) : bool :=
  (external_review_threshold p <? lines_changed)%Z.

(** ** Calls *)

Inductive GitReply :=
| GitNotStarted (reason : string)
| GitExited (success : bool) (stdout stderr : string).
Inductive call :=
| PolicyExists
| ReadPolicy
| RunGit (args : list string).
Definition reply (c : call) : Type :=
  match c with PolicyExists => bool | ReadPolicy => result string string | RunGit _ => GitReply end.
Definition IO (A : Type) : Type := prog reply A.
Notation perform_call := (@perform call reply).

(** [toml::from_str] as far as the keys of the policy. *)
Class PolicyToml := { policy_table : string -> option PolicyTable }.

Definition load `{PolicyToml} : IO (result ReviewPolicy string) :=
  do exists_ <- perform_call PolicyExists;
  if negb exists_ then Ret (Ok ReviewPolicy_default)
  else
    do? data <- map_error (fun _ => "Failed to read .exo/review-policy.toml") (perform_call ReadPolicy);
    Ret (match policy_table data with
         | Some t => Ok (policy_of_table t)
         | None => Err "Failed to parse review-policy.toml"
         end).
Definition load_with_reviewer_max_rounds `{PolicyToml} (rounds : option Z)
  : IO (result ReviewPolicy string) :=
  do? policy <- load;
  Ret (with_reviewer_max_rounds policy rounds).

(** ** Reports *)

Inductive PatternTrigger :=
| StateMachine (count : Z)
| Concurrency (count : Z)
| PromptDesign
| CrossCutting (patterns_found : list string)
| Validation (count : Z).
Definition trigger_name (t : PatternTrigger) : string :=
  match t with
  | StateMachine _ => "state-machine"
  | Concurrency _ => "concurrency"
  | PromptDesign => "prompt-design"
  | CrossCutting _ => "cross-cutting"
  | Validation _ => "validation"
  end.

Inductive SecondReviewerRecommendation :=
| Pass
| PathMatch (matching_files : list string)
| Threshold (lines_changed threshold : Z)
| MultipleTriggers (matching_files : list string) (lines_changed : Z)
| PatternMatch (triggers : list PatternTrigger).

Record ComplexityReport := {
  total_lines_changed : Z;
  external_review_path_matches : list string;
  report_triggers : list PatternTrigger;
  recommendation : SecondReviewerRecommendation
}.

Definition needs_second_reviewer (r : ComplexityReport) : bool :=
  match recommendation r with Pass => false | _ => true end.

Definition trigger_names (l : list PatternTrigger) : string := join_str ", " (map trigger_name l).
Definition recommendation_text (r : SecondReviewerRecommendation) : string :=
  match r with
  | Pass => "No second reviewer needed"
  | PathMatch _ => "Second reviewer required (path policy)"
  | Threshold n t =>
      "Second reviewer required (" ++ pretty n ++ " lines > " ++ pretty t ++ " threshold)"
  | MultipleTriggers _ _ => "Second reviewer required (multiple triggers)"
  | PatternMatch l => "Second reviewer required (pattern triggers: " ++ trigger_names l ++ ")"
  end.
Definition summary (r : ComplexityReport) : string :=
  let matches := external_review_path_matches r in
  join_str "; "
    ([(pretty (total_lines_changed r) ++ " lines changed")%string]
     ++ match matches with
        | [] => []
        | _ => [(pretty (Z.of_nat (length matches)) ++ " sensitive path(s) matched: "
                 ++ join_str ", " matches)%string]
        end
     ++ match report_triggers r with
        | [] => []
        | l => [("pattern(s) matched: " ++ trigger_names l)%string]
        end
     ++ [recommendation_text (recommendation r)])%list.

(** ** What Git printed *)

Definition TAB : ascii := ascii_of_nat 9.
Definition u64_add (a b : Z) : Z := ((a + b) mod 2 ^ 64)%Z.

(** The three sums of the loop over the lines. *)
Fixpoint numstat_lines (ls : list string) (added removed : Z) (files : list string)
  : Z * Z * list string :=
  match ls with
  | [] => (added, removed, files)
  | line :: ls =>
      match split_char TAB line with
      | a :: r :: f :: _ =>
          numstat_lines ls (u64_add added (default 0%Z (parse_u64 a)))
            (u64_add removed (default 0%Z (parse_u64 r))) (files ++ [f])%list
      | _ => numstat_lines ls added removed files
      end
  end.
(** The additions wrap, as in a release build. *)
Definition parse_numstat_output (output : string) : Z * list string :=
  let '(added, removed, files) := numstat_lines (lines output) 0 0 [] in
  (u64_add added removed, files).

(** [text.matches(p).count()]: occurrences that do not overlap. *)
Fixpoint occurrences_fuel (fuel : nat) (p text : string) : Z :=
  match fuel with
  | O => 0
  | S fuel =>
      match split_once_str p text with
      | Some (_, rest) => 1 + occurrences_fuel fuel p rest
      | None => 0
      end
  end.
Definition occurrences (p text : string) : Z := occurrences_fuel (S (String.length text)) p text.
Definition count_matches (text : string) (patterns : list string) : Z :=
  fold_right (fun p n => occurrences p text + n)%Z 0%Z patterns.

Definition KEYWORDS : list string := ["pub fn "; "pub struct "; "pub enum "; "pub trait "].
Definition ends_name (c : ascii) (s : string) : bool :=
  Ascii.eqb c "(" || Ascii.eqb c "<" || Ascii.eqb c "{"
  || match strip_white_space (String c s) with Some _ => true | None => false end.
(** The first piece of [split]. *)
Fixpoint item_name (s : string) : string :=
  match s with
  | EmptyString => EmptyString
  | String c s' => if ends_name c s' then EmptyString else String c (item_name s')
  end.
(** The name a keyword finds in a trimmed line. *)
Definition declared (trimmed keyword : string) : option string :=
  rest ← strip_prefix keyword trimmed;
  let name := item_name rest in
  if str_is_empty name then None else Some name.

Definition count_one (counts : gmap string Z) (name : string) : gmap string Z :=
  <[name := (default 0 (counts !! name) + 1)%Z]> counts.
Definition count_line (counts : gmap string Z) (line : string) : gmap string Z :=
  let trimmed := str_trim line in
  fold_left (fun counts keyword =>
      match declared trimmed keyword with Some name => count_one counts name | None => counts end)
    KEYWORDS counts.
Definition declaration_counts (ls : list string) : gmap string Z := fold_left count_line ls ∅.
(** In the order of the map. *)
Definition count_cross_cutting (diff : string) : list string :=
  map fst (List.filter (fun nc => (3 <=? nc.2)%Z) (map_to_list (declaration_counts (lines diff)))).

Definition STATE_PATTERNS : list string := ["enum\s+\w+State"; "state_machine|StateMachine|Fsm"].
Definition CONCURRENCY_PATTERNS : list string :=
  ["tokio::spawn"; "async\s+fn\s+.*\bMutex"; "async\s+fn\s+.*\bRwLock"; "rayon::"; "async_std"].
Definition PROMPT_PATTERNS : list string := ["prompts"; ".v0.md"; ".v1.md"; ".v2.md"; ".claude/"].
Definition VALIDATION_PATTERNS : list string := ["invariant"; "must_hold"; "assert_eq!"].

Definition is_prompt_file (f : string) : bool := existsb (fun p => contains_str p f) PROMPT_PATTERNS.
Definition counted (f : Z -> PatternTrigger) (n : Z) : list PatternTrigger :=
  if (0 <? n)%Z then [f n] else [].

(** ** Classification *)

Definition branch_range (base head : string) : string := base ++ ".." ++ head.

Definition run_git_diff_stat (base head : string) : IO (result string string) :=
  do r <- perform_call (RunGit ["diff"; branch_range base head; "--numstat"]);
  Ret (match r with
       | GitNotStarted reason => Err reason
       | GitExited true stdout _ => Ok stdout
       | GitExited false _ stderr => Err ("git diff --numstat failed: " ++ str_trim stderr)
       end).

Definition get_changed_files (base head : string) : IO (result (list string) string) :=
  do r <- perform_call (RunGit ["diff"; branch_range base head; "--name-only"]);
  Ret (match r with
       | GitNotStarted reason => Err reason
       | GitExited true stdout _ => Ok (List.filter (fun l => negb (str_is_empty l)) (lines stdout))
       | GitExited false _ _ => Ok []
       end).

Definition run_pattern_analysis (base head : string) : IO (result (list PatternTrigger) string) :=
  do r <- perform_call (RunGit ["diff"; branch_range base head]);
  match r with
  | GitNotStarted reason => Ret (Err reason)
  | GitExited false _ _ => Ret (Ok [])
  | GitExited true diff _ =>
      do? prompt_files_changed <- get_changed_files base head;
      Ret (Ok (counted StateMachine (count_matches diff STATE_PATTERNS)
               ++ counted Concurrency (count_matches diff CONCURRENCY_PATTERNS)
               ++ (if existsb is_prompt_file prompt_files_changed then [PromptDesign] else [])
               ++ counted Validation (count_matches diff VALIDATION_PATTERNS)
               ++ match count_cross_cutting diff with [] => [] | found => [CrossCutting found] end)%list)
  end.

Definition recommend (p : ReviewPolicy) (triggers : list PatternTrigger) (matches : list string)
    (total : Z) : SecondReviewerRecommendation :=
  let large := lines_trigger_external_review p total in
  match triggers, matches with
  | _ :: _, _ => PatternMatch triggers
  | [], _ :: _ => if large then MultipleTriggers matches total else PathMatch matches
  | [], [] => if large then Threshold total (external_review_threshold p) else Pass
  end.

Definition classify_complexity (base head : string) (policy : ReviewPolicy)
  : IO (result ComplexityReport string) :=
  do? diff_output <- run_git_diff_stat base head;
  let '(total_lines, changed_files) := parse_numstat_output diff_output in
  let external_matches := List.filter (path_triggers_external_review policy) changed_files in
  do? pattern_triggers <- run_pattern_analysis base head;
  Ret (Ok {| total_lines_changed := total_lines;
             external_review_path_matches := external_matches;
             report_triggers := pattern_triggers;
             recommendation := recommend policy pattern_triggers external_matches total_lines |}).

Definition count_changed_lines (base head : string) : IO (result Z string) :=
  do? diff_output <- run_git_diff_stat base head;
  Ret (Ok (parse_numstat_output diff_output).1).

(** ** Counting *)

Lemma split_once_str_shorter p s before rest :
  p <> "" -> split_once_str p s = Some (before, rest) -> String.length rest < String.length s.
Proof.
  intros Hp E. apply split_once_str_Some in E. subst s. rewrite !str_length_app.
  destruct p; [done|cbn; lia].
Qed.

Lemma occurrences_fuel_nonneg fuel p text : (0 <= occurrences_fuel fuel p text)%Z.
Proof.
  revert text. induction fuel as [|fuel IH]; intros text; cbn; [lia|].
  destruct (split_once_str p text) as [[? rest]|]; [specialize (IH rest); lia|lia].
Qed.

Lemma occurrences_positive p text : (0 < occurrences p text)%Z <-> contains_str p text = true.
Proof.
  unfold occurrences, contains_str. cbn [occurrences_fuel].
  destruct (split_once_str p text) as [[? rest]|]; [|split; [lia|done]].
  pose proof (occurrences_fuel_nonneg (String.length text) p rest). split; [done|lia].
Qed.

Lemma occurrences_nonneg p text : (0 <= occurrences p text)%Z.
Proof. apply occurrences_fuel_nonneg. Qed.
Lemma count_matches_cons text p ps :
  count_matches text (p :: ps) = (occurrences p text + count_matches text ps)%Z.
Proof. reflexivity. Qed.

Lemma count_matches_nonneg text ps : (0 <= count_matches text ps)%Z.
Proof.
  induction ps as [|p ps IH]; [done|]. rewrite count_matches_cons. pose proof (occurrences_nonneg p text). lia.
Qed.

Lemma count_matches_positive text ps :
  (0 < count_matches text ps)%Z <-> exists p, In p ps /\ contains_str p text = true.
Proof.
  induction ps as [|p ps IH]; [split; [cbn; lia|by intros (? & [] & _)]|].
  rewrite count_matches_cons. pose proof (count_matches_nonneg text ps).
  pose proof (occurrences_positive p text) as Hp. pose proof (occurrences_nonneg p text).
  split.
  - intros Hs. destruct (contains_str p text) eqn:E; [exists p; by split; [left|]|].
    destruct IH as [IH _]. destruct IH as (q & ? & ?); [|exists q; by split; [right|]].
    destruct (Z.eq_dec (occurrences p text) 0) as [E0|]; [lia|]. assert (Ho : (0 < occurrences p text)%Z) by lia.
    apply Hp in Ho. congruence.
  - intros (q & [->|Hq] & Hc); [apply Hp in Hc; lia|].
    assert (0 < count_matches text ps)%Z by (apply IH; by exists q). lia.
Qed.

(** Any fuel above the length gives the same count. *)
Lemma occurrences_fuel_enough p text fuel fuel' : p <> "" ->
  String.length text < fuel -> String.length text < fuel' ->
  occurrences_fuel fuel p text = occurrences_fuel fuel' p text.
Proof.
  intros Hp. revert text fuel'. induction fuel as [|fuel IH]; intros text [|fuel'] Hf Hf'; try lia.
  cbn [occurrences_fuel]. destruct (split_once_str p text) as [[b rest]|] eqn:E; [|done].
  apply split_once_str_shorter in E; [|done]. by rewrite (IH rest fuel') by lia.
Qed.

(** The equation of [str::matches]: one occurrence, then the rest behind it. *)
Lemma occurrences_equation p text : p <> "" ->
  occurrences p text = match split_once_str p text with
                       | Some (_, rest) => (1 + occurrences p rest)%Z
                       | None => 0%Z
                       end.
Proof.
  intros Hp. unfold occurrences at 1. cbn [occurrences_fuel].
  destruct (split_once_str p text) as [[b rest]|] eqn:E; [|done].
  apply split_once_str_shorter in E; [|done]. f_equal. by apply occurrences_fuel_enough; [|lia|lia].
Qed.

(** ** Declarations *)

Definition declares (name : string) (lk : string * string) : bool :=
  bool_decide (declared (str_trim lk.1) lk.2 = Some name).
(** The lines with the keyword that declares the name. *)
Definition declarations (name : string) (ls : list string) : list (string * string) :=
  List.filter (declares name) (list_prod ls KEYWORDS).

Lemma count_one_lookup counts n name :
  default 0%Z (count_one counts n !! name)
  = (default 0 (counts !! name) + if bool_decide (Some n = Some name) then 1 else 0)%Z.
Proof.
  unfold count_one. case_bool_decide as E.
  - injection E as ->. by rewrite lookup_insert_eq.
  - rewrite lookup_insert_ne by congruence. lia.
Qed.

Lemma count_keywords_lookup line ks counts name :
  default 0%Z (fold_left (fun counts keyword =>
      match declared (str_trim line) keyword with Some n => count_one counts n | None => counts end)
    ks counts !! name)
  = (default 0 (counts !! name)
     + Z.of_nat (length (List.filter (declares name) (map (pair line) ks))))%Z.
Proof.
  revert counts. induction ks as [|k ks IH]; intros counts; cbn [fold_left map List.filter]; [cbn; lia|].
  rewrite IH. unfold declares at 2. cbn [fst snd].
  destruct (declared (str_trim line) k) as [n|]; [rewrite count_one_lookup|].
  - case_bool_decide; cbn [length]; lia.
  - rewrite bool_decide_eq_false_2 by done. lia.
Qed.

Lemma declaration_counts_lookup ls name :
  default 0%Z (declaration_counts ls !! name) = Z.of_nat (length (declarations name ls)).
Proof.
  unfold declaration_counts, declarations.
  assert (H : forall counts, default 0%Z (fold_left count_line ls counts !! name)
    = (default 0 (counts !! name) + Z.of_nat (length (List.filter (declares name) (list_prod ls KEYWORDS))))%Z).
  { induction ls as [|l ls IH]; intros counts; [cbn; lia|]. cbn [fold_left list_prod]. rewrite IH.
    rewrite List.filter_app, length_app. unfold count_line at 1. cbv zeta. rewrite count_keywords_lookup.
    change (fun y => (l, y)) with (@pair string string l). lia. }
  rewrite H. by rewrite lookup_empty.
Qed.

Lemma count_cross_cutting_spec diff name :
  In name (count_cross_cutting diff) <-> 3 <= length (declarations name (lines diff)).
Proof.
  pose proof (declaration_counts_lookup (lines diff) name) as E. unfold count_cross_cutting.
  rewrite in_map_iff. split.
  - intros ([n c] & <- & [Hin Hc%Z.leb_le]%filter_In). cbn in *.
    apply list_elem_of_In, elem_of_map_to_list in Hin. rewrite Hin in E. cbn in E. lia.
  - intros H. destruct (declaration_counts (lines diff) !! name) as [c|] eqn:Ec; cbn in E; [|lia].
    exists (name, c). split; [done|]. apply filter_In. split; [|apply Z.leb_le; cbn; lia].
    by apply list_elem_of_In, elem_of_map_to_list.
Qed.

(** A line of a diff that was added or removed, headers included. *)
Definition is_changed (line : string) : bool :=
  match line with
  | String c _ => Ascii.eqb c "+" || Ascii.eqb c "-"
  | EmptyString => false
  end.

Lemma changed_not_declared line keyword :
  is_changed line = true -> In keyword KEYWORDS -> declared (str_trim line) keyword = None.
Proof.
  intros Hc Hk. destruct line as [|c s]; [done|]. cbn [is_changed] in Hc.
  apply orb_true_iff in Hc.
  assert (E : exists s', str_trim (String c s) = String c s').
  { unfold str_trim, trim_start. cbn [String.length trim_start_fuel].
    destruct Hc as [->%Ascii.eqb_eq| ->%Ascii.eqb_eq]; cbn [strip_white_space]; by eexists. }
  destruct E as [s' ->]. unfold declared. cbn in Hk.
  destruct Hc as [->%Ascii.eqb_eq| ->%Ascii.eqb_eq]; by intuition subst.
Qed.

Definition context_lines (diff : string) : list string :=
  List.filter (fun line => negb (is_changed line)) (lines diff).

Lemma declarations_unchanged name ls :
  declarations name ls = declarations name (List.filter (fun line => negb (is_changed line)) ls).
Proof.
  unfold declarations. induction ls as [|l ls IH]; [done|]. cbn [list_prod List.filter].
  rewrite List.filter_app, IH. destruct (is_changed l) eqn:E; cbn [negb].
  - replace (List.filter _ (map _ KEYWORDS)) with (@nil (string * string)); [done|]. symmetry.
    assert (H : forall k, In k KEYWORDS -> declares name (l, k) = false).
    { intros k Hk. unfold declares. cbn [fst snd]. by rewrite changed_not_declared. }
    revert H. generalize KEYWORDS. intros ks. induction ks as [|k ks IHk]; intros H; [done|]. cbn.
    rewrite H by by left. apply IHk. intros k' Hk'. apply H. by right.
  - cbn [list_prod]. by rewrite List.filter_app.
Qed.

(** The cross-cutting trigger counts only context: a name is reported exactly when
    at least three lines of the diff that are neither added nor removed declare it,
    so adding or removing any number of declarations reports nothing. *)
Theorem cross_cutting_counts_context diff name :
  In name (count_cross_cutting diff) <-> 3 <= length (declarations name (context_lines diff)).
Proof. rewrite count_cross_cutting_spec, declarations_unchanged. done. Qed.

(** ** What [git diff --numstat] prints *)

(** A counted file, or a binary one. *)
Record NumstatEntry := { counts : option (Z * Z); file : string }.
Definition numstat_field (n : option Z) : string := from_option pretty "-" n.
Definition numstat_line (e : NumstatEntry) : string :=
  numstat_field (option_map fst (counts e)) ++ String TAB (numstat_field (option_map snd (counts e))
    ++ String TAB (file e)).
Definition print_numstat (es : list NumstatEntry) : string :=
  fold_right (fun e s => numstat_line e ++ String LF s) "" es.
Definition added_of (es : list NumstatEntry) : Z :=
  fold_right (fun e n => default 0 (option_map fst (counts e)) + n)%Z 0%Z es.
Definition removed_of (es : list NumstatEntry) : Z :=
  fold_right (fun e n => default 0 (option_map snd (counts e)) + n)%Z 0%Z es.
(** Git quotes a name with a tab or a line feed; a carriage return at the end of the
    name would be taken for the end of the line. *)
Definition printable (e : NumstatEntry) : Prop :=
  str_contains TAB (file e) = false /\ str_contains LF (file e) = false
  /\ str_contains CR (file e) = false
  /\ match counts e with
     | Some (a, r) => (0 <= a <= u64_max /\ 0 <= r <= u64_max)%Z
     | None => True
     end.

Lemma digits_without c s : is_digit c = false -> all_digits s = true -> str_contains c s = false.
Proof.
  intros Hc. induction s as [|a s IH]; [done|]. cbn. intros [Ha Hs]%andb_true_iff.
  rewrite (IH Hs), orb_false_r. apply Ascii.eqb_neq. congruence.
Qed.

Lemma numstat_field_without c n :
  is_digit c = false -> c <> "-"%char -> match n with Some z => (0 <= z)%Z | None => True end ->
  str_contains c (numstat_field n) = false.
Proof.
  intros Hc Hd. destruct n as [z|]; cbn [numstat_field from_option].
  - intros Hz. by apply digits_without, pretty_digits.
  - intros _. cbn [str_contains]. rewrite orb_false_r. by apply Ascii.eqb_neq.
Qed.

Lemma numstat_line_without c e :
  printable e -> is_digit c = false -> c <> "-"%char -> c <> TAB -> str_contains c (file e) = false ->
  str_contains c (numstat_line e) = false.
Proof.
  intros (_ & _ & _ & Hn) Hc Hd Ht Hf. unfold numstat_line.
  rewrite str_contains_app. cbn [str_contains]. rewrite str_contains_app. cbn [str_contains].
  rewrite Hf, !numstat_field_without; try done; [|by destruct (counts e) as [[? ?]|]; cbn; lia..].
  assert (E : Ascii.eqb TAB c = false) by by apply Ascii.eqb_neq. by rewrite E.
Qed.

Lemma lines_numstat es : Forall printable es -> lines (print_numstat es) = map numstat_line es.
Proof.
  unfold lines. induction es as [|e es IH]; [done|]. intros [He Hes]%Forall_cons.
  cbn [print_numstat fold_right map]. fold (print_numstat es). pose proof He as (_ & Hl & Hr & _).
  rewrite split_char_app by (by apply numstat_line_without). rewrite <- IH by done.
  pose proof (split_char_ne LF (print_numstat es)).
  destruct (split_char LF (print_numstat es)) as [|p ps]; [done|]. cbn [terminated]. f_equal.
  unfold strip_cr. assert (N : str_contains CR (numstat_line e) = false) by by apply numstat_line_without.
  apply rsplit_once_None in N. by rewrite N.
Qed.

Lemma numstat_line_fields e : printable e ->
  split_char TAB (numstat_line e)
  = [numstat_field (option_map fst (counts e)); numstat_field (option_map snd (counts e)); file e].
Proof.
  intros (Ht & _ & _ & Hn). unfold numstat_line.
  rewrite !split_char_app; [|apply numstat_field_without; try done; by destruct (counts e) as [[? ?]|]; cbn; lia..].
  by rewrite split_char_no_sep.
Qed.

Lemma numstat_field_read n :
  match n with Some z => (0 <= z <= u64_max)%Z | None => True end ->
  default 0%Z (parse_u64 (numstat_field n)) = default 0%Z n.
Proof. destruct n as [z|]; [|done]. intros Hz. cbn [numstat_field from_option]. by rewrite parse_u64_pretty. Qed.

Lemma u64_add_assoc a b c : u64_add (u64_add a b) c = u64_add a (b + c).
Proof. unfold u64_add. rewrite Zplus_mod_idemp_l. f_equal. lia. Qed.

Lemma numstat_lines_print es a r fs :
  Forall printable es ->
  numstat_lines (map numstat_line es) a r fs
  = (fold_left u64_add (map (fun e => default 0%Z (option_map fst (counts e))) es) a,
     fold_left u64_add (map (fun e => default 0%Z (option_map snd (counts e))) es) r,
     fs ++ map file es)%list.
Proof.
  revert a r fs. induction es as [|e es IH]; intros a r fs; [by rewrite app_nil_r|].
  intros [He Hes]%Forall_cons. cbn [map numstat_lines fold_left]. rewrite numstat_line_fields by done.
  pose proof He as (_ & _ & _ & Hn).
  rewrite !numstat_field_read by (destruct (counts e) as [[? ?]|]; cbn; lia || done).
  rewrite IH by done. by rewrite <- app_assoc.
Qed.

Lemma fold_u64_add (l : list Z) a :
  (fold_left u64_add l a mod 2 ^ 64)%Z = ((a + fold_right Z.add 0 l) mod 2 ^ 64)%Z.
Proof.
  revert a. induction l as [|x l IH]; intros a; cbn [fold_left fold_right]; [by rewrite Z.add_0_r|].
  rewrite IH. unfold u64_add. rewrite Zplus_mod_idemp_l. f_equal. lia.
Qed.

(** The size is the sum of all additions and deletions modulo 2^64. *)
Lemma numstat_is_read es :
  Forall printable es ->
  parse_numstat_output (print_numstat es)
  = (((added_of es + removed_of es) mod 2 ^ 64)%Z, map file es).
Proof.
  intros He. unfold parse_numstat_output. rewrite lines_numstat, numstat_lines_print by done.
  cbn [app]. f_equal.
  assert (Hf : forall (f : NumstatEntry -> Z), fold_right (fun e n => f e + n)%Z 0%Z es
                 = fold_right Z.add 0%Z (map f es)) by (intros f; induction es as [|? ? IH]; cbn; [done|];
                   rewrite IH; [done|by inversion He]).
  unfold added_of, removed_of. rewrite !Hf. clear Hf.
  pose proof (fold_u64_add (map (fun e => default 0%Z (option_map fst (counts e))) es) 0) as Ha.
  pose proof (fold_u64_add (map (fun e => default 0%Z (option_map snd (counts e))) es) 0) as Hr.
  unfold u64_add at 1. rewrite Zplus_mod, Ha, Hr, <- Zplus_mod. done.
Qed.

(** ** Classification *)

(** The texts one of which has to be in the diff: they are searched as they are
    written. *)
Definition TEXT_PATTERNS : list string :=
  (STATE_PATTERNS ++ CONCURRENCY_PATTERNS ++ VALIDATION_PATTERNS)%list.

Lemma counted_some f text ps :
  counted f (count_matches text ps) <> [] <-> exists p, In p ps /\ contains_str p text = true.
Proof.
  rewrite <- count_matches_positive. unfold counted.
  case_match eqn:E; [apply Z.ltb_lt in E; by split|apply Z.ltb_ge in E; split; [done|lia]].
Qed.

Lemma recommend_pass p triggers matches total :
  recommend p triggers matches total <> Pass
  <-> (external_review_threshold p < total)%Z \/ matches <> [] \/ triggers <> [].
Proof.
  unfold recommend, lines_trigger_external_review. rewrite <- Z.ltb_lt.
  destruct triggers, matches, (_ <? _)%Z; intuition done.
Qed.

Lemma needs_iff r : needs_second_reviewer r = true <-> recommendation r <> Pass.
Proof. unfold needs_second_reviewer. by destruct (recommendation r). Qed.

Lemma filter_nonempty {A} (f : A -> bool) l : List.filter f l <> [] <-> exists x, In x l /\ f x = true.
Proof.
  split.
  - destruct (List.filter f l) as [|x xs] eqn:E; [done|]. intros _. exists x. apply filter_In.
    rewrite E. by left.
  - intros (x & Hx) E. apply filter_In in Hx. by rewrite E in Hx.
Qed.

Lemma app_ne_nil {A} (l l' : list A) : (l ++ l')%list <> [] <-> l <> [] \/ l' <> [].
Proof. destruct l; cbn; [|intuition done]. intuition done. Qed.

Lemma prompt_files_iff names :
  existsb is_prompt_file (List.filter (fun l => negb (str_is_empty l)) (lines names)) = true
  <-> exists f, In f (lines names) /\ is_prompt_file f = true.
Proof.
  rewrite existsb_exists. split; intros (f & Hf & Hp); exists f; (split; [|done]).
  - by apply filter_In in Hf as [? _].
  - apply filter_In. split; [done|]. destruct (String.eqb_spec f ""); [by subst|].
    unfold str_is_empty. by apply negb_true_iff, String.eqb_neq.
Qed.

(** What a diff and the names of its files trigger. *)
Definition triggers_on (diff : string) (names : GitReply) : Prop :=
  (exists pat, In pat TEXT_PATTERNS /\ contains_str pat diff = true)
  \/ (exists name, 3 <= length (declarations name (context_lines diff)))
  \/ exists stdout stderr f, names = GitExited true stdout stderr
       /\ In f (lines stdout) /\ is_prompt_file f = true.

Lemma patterns_split text :
  (exists pat, In pat TEXT_PATTERNS /\ contains_str pat text = true)
  <-> (exists p, In p STATE_PATTERNS /\ contains_str p text = true)
      \/ (exists p, In p CONCURRENCY_PATTERNS /\ contains_str p text = true)
      \/ (exists p, In p VALIDATION_PATTERNS /\ contains_str p text = true).
Proof.
  unfold TEXT_PATTERNS. split.
  - intros (p & [H|[H|H]%in_app_iff]%in_app_iff & ?); eauto 6.
  - intros [(p & ? & ?)|[(p & ? & ?)|(p & ? & ?)]]; exists p; (split; [|done]); rewrite !in_app_iff; auto.
Qed.

#[local] Opaque count_matches count_cross_cutting.
Lemma analysis_said base head t triggers :
  runs (run_pattern_analysis base head) t (Ok triggers) ->
  (exists out err, t = [did (RunGit ["diff"; branch_range base head]) (GitExited false out err)]
                   /\ triggers = [])
  \/ exists diff err names,
       t = [did (RunGit ["diff"; branch_range base head]) (GitExited true diff err);
            did (RunGit ["diff"; branch_range base head; "--name-only"]) names]
       /\ (triggers <> [] <-> triggers_on diff names).
Proof.
  unfold run_pattern_analysis. intros (r & t' & -> & R)%runs_call_inv. destruct r as [?|[] diff err].
  - by apply runs_ret in R as [_ ?].
  - right. apply runs_bind_ok_inv in R as (t1 & [files|e] & t2 & -> & R1 & R); [|by destruct R].
    apply runs_ret in R as [-> [= <-]]. unfold get_changed_files in R1.
    apply runs_call_inv in R1 as (names & t3 & -> & R1). apply runs_ret in R1 as [-> E].
    exists diff, err, names. split; [done|].
    assert (Hp : existsb is_prompt_file files = true
                 <-> exists stdout stderr f, names = GitExited true stdout stderr
                      /\ In f (lines stdout) /\ is_prompt_file f = true).
    { destruct names as [?|[] out e]; [done| |]; simplify_eq/=; [rewrite prompt_files_iff; naive_solver|].
      split; [done|naive_solver]. }
    unfold triggers_on. rewrite <- Hp, patterns_split, !app_ne_nil.
    rewrite !counted_some. clear Hp.
    assert (Hx : match count_cross_cutting diff with [] => [] | found => [CrossCutting found] end <> []
                 <-> exists name, 3 <= length (declarations name (context_lines diff))).
    { unfold context_lines. setoid_rewrite <- declarations_unchanged.
      setoid_rewrite <- count_cross_cutting_spec. destruct (count_cross_cutting diff) as [|x xs]; split; try done; [by intros [? []]|].
      intros _. exists x. by left. }
    rewrite Hx. assert (Hq : (if existsb is_prompt_file files then [PromptDesign] else []) <> []
                             <-> existsb is_prompt_file files = true)
      by by destruct (existsb is_prompt_file files).
    rewrite Hq. tauto.
  - left. apply runs_ret in R as [-> [= <-]]. by exists diff, err.
Qed.


(** ** Policy *)

(** What the policy of a session is: without a file the defaults, with a file its
    keys over the defaults, and then the explicit cap on reviews, which is never
    zero; a file that names no paths has none, not the default ones, so no path asks
    for a second reviewer. *)
Theorem policy_of_session `{PolicyToml} rounds t p :
  runs (load_with_reviewer_max_rounds rounds) t (Ok p) ->
  (t = [did PolicyExists false] /\ p = from_option (set_max_rounds ReviewPolicy_default) ReviewPolicy_default rounds
   \/ exists data table,
        t = [did PolicyExists true; did ReadPolicy (Ok data)] /\ policy_table data = Some table
        /\ p = from_option (set_max_rounds (policy_of_table table)) (policy_of_table table) rounds
        /\ (t_external_review_paths table = None ->
            forall f, path_triggers_external_review p f = false))
  /\ rounds <> Some 0%Z.
Proof.
  unfold load_with_reviewer_max_rounds, load. intros R.
  apply runs_bind_ok_inv in R as (t1 & [q|e] & t2 & -> & R1 & R); [|by destruct R].
  apply runs_ret in R as [-> R]. rewrite app_nil_r.
  assert (Hr : rounds <> Some 0%Z /\ p = from_option (set_max_rounds q) q rounds).
  { destruct rounds as [z|]; cbn in R; [|by simplify_eq]. unfold ensure in R.
    destruct (Z.eqb_spec z 0); [done|]. cbn in R. split; [congruence|by simplify_eq]. }
  destruct Hr as [Hr ->]. split; [|done].
  apply runs_call_inv in R1 as (b & t3 & -> & R1). destruct b; cbn [negb] in R1.
  - right. apply runs_bind_ok_inv in R1 as (t4 & [data|e] & t5 & -> & R4 & R1); [|by destruct R1].
    apply runs_map_error_ok in R4. apply (runs_call (reply := reply) ReadPolicy) in R4 as ->. apply runs_ret in R1 as [-> E].
    destruct (policy_table data) as [table|] eqn:Et; [|done].
    assert (q = policy_of_table table) as -> by congruence.
    exists data, table. do 3 (split; [done|]). intros Hn f. unfold path_triggers_external_review.
    replace (external_review_paths _) with (@nil string); [done|].
    destruct rounds; cbn; by rewrite Hn.
  - left. apply runs_ret in R1 as [-> [= <-]]. done.
Qed.

(** ** A small diff

    It adds a state machine and an async function on a mutex, and three declarations
    of one name: nothing is triggered.  With the three declarations as context, the
    name is. *)
Definition line_of (s : string) : string := s ++ String LF "".
Definition scene_diff (mark : string) : string :=
  line_of "+enum DoorState { Open }" ++ line_of "+async fn f(m: Mutex<u8>) {}"
  ++ line_of (mark ++ "pub fn run(a: u8)") ++ line_of (mark ++ "pub fn run<T>()")
  ++ line_of (mark ++ "pub struct run {").
Definition scene_world (diff_ok : bool) (mark : string) (past : list (event reply)) (c : call) : reply c :=
  match c with
  | PolicyExists => true
  | ReadPolicy => Ok "reviewer_max_rounds = 2"
  | RunGit [_; _] => GitExited diff_ok (scene_diff mark) ""
  | RunGit [_; _; "--numstat"] =>
      GitExited true (print_numstat [{| counts := Some (10, 5)%Z; file := "src/main.rs" |};
                                     {| counts := None; file := "logo.png" |}]) ""
  | RunGit _ => GitExited true (line_of "src/main.rs" ++ line_of "logo.png") ""
  end.
Definition scene_run (diff_ok : bool) (mark : string)
  : list (event reply) * result ComplexityReport string :=
  answer (scene_world diff_ok mark) [] (classify_complexity "main" "work" ReviewPolicy_default).
Definition scene_report (triggers : list PatternTrigger) (r : SecondReviewerRecommendation) :=
  {| total_lines_changed := 15; external_review_path_matches := []; report_triggers := triggers;
     recommendation := r |}.


Definition scene_toml : PolicyToml := {|
  policy_table data :=
    if String.eqb data "reviewer_max_rounds = 2" then
      Some {| t_min_review_rounds := None; t_reviewer_max_rounds := Some 2%Z;
              t_review_freshness_window_secs := None; t_external_review_threshold := None;
              t_external_review_paths := None; t_reviewer_max_wait_seconds := None;
              t_reviewer_max_rate_limit_retries := None; t_require_second_reviewer_complexity := None;
              t_complexity_line_threshold := None; t_ci := None; t_max_leaf_session_seconds := None;
              t_max_reviewer_session_seconds := None |}
    else None |}.
Definition scene_policy (rounds : option Z) : list (event reply) * result ReviewPolicy string :=
  answer (scene_world true "+") [] (load_with_reviewer_max_rounds (H := scene_toml) rounds).

Lemma policy_of_session_witness :
  (exists p, (scene_policy (Some 4%Z)).2 = Ok p /\ reviewer_max_rounds p = 4%Z
             /\ external_review_threshold p = 300%Z
             /\ path_triggers_external_review p "proto/x.proto" = false)
  /\ path_triggers_external_review ReviewPolicy_default "proto/x.proto" = true
  /\ (scene_policy (Some 0%Z)).2 = Err "reviewer_max_rounds must be at least 1, got 0".
Proof.
  split; [|by split; vm_compute].
  destruct (answer_runs (scene_world true "+") [] (load_with_reviewer_max_rounds (H := scene_toml) (Some 4%Z)))
    as (t & Et & R).
  unfold scene_policy. destruct (snd (answer _ _ _)) as [p|e] eqn:E; [|vm_compute in E; discriminate].
  exists p. split; [reflexivity|].
  assert (E' := E). vm_compute in E'. injection E' as Ep.
  destruct (policy_of_session (H := scene_toml) (Some 4%Z) t p R) as [[[Ht _]|(d & tb & _ & Htb & _ & Hn)] _].
  - exfalso. rewrite Ht in Et. apply (f_equal length) in Et. vm_compute in Et. discriminate.
  - split; [by subst p|]. split; [by subst p|]. apply Hn. cbn in Htb.
    destruct (String.eqb d _); [by injection Htb as <-|done].
Defined.
