(* ===== verification/Resilience.v ===== *)
(** * Retries and the health of a service

    [services/resilience.rs]: the delays between attempts, the bounded retry of a
    call, and the tracker that counts failures in a row.  A call that is retried may
    answer anything; the tracker is shared by threads that interleave at its atomic
    operations.  The registry of supervisors is the Module [Supervisor]. *)

From stdpp Require Import gmap strings.
From S2P Require Import Prelude Effects.
Local Open Scope prog_scope.

(** ** Delays

    A [Duration] is its nanoseconds: 64-bit seconds and less than a second.  Its
    product with a number panics outside that range. *)

Definition Duration := Z.
Definition DURATION_MAX : Duration := ((2 ^ 64 - 1) * 1000000000 + 999999999)%Z.
Definition is_duration (d : Duration) : Prop := (0 <= d <= DURATION_MAX)%Z.
Definition is_u32 (n : Z) : Prop := (0 <= n <= u32_max)%Z.
Definition duration_mul (d : Duration) (n : Z) : option Duration :=
  if (d * n <=? DURATION_MAX)%Z then Some (d * n)%Z else None.
Definition duration_saturating_mul (d : Duration) (n : Z) : Duration := Z.min (d * n) DURATION_MAX.
Definition u32_add (a b : Z) : Z := ((a + b) mod 2 ^ 32)%Z.
(** [checked_shl]: only a shift of 32 or more is refused. *)
Definition u32_checked_shl (n by_ : Z) : option Z :=
  if (by_ <? 32)%Z then Some (Z.shiftl n by_ mod 2 ^ 32)%Z else None.

Inductive Backoff :=
| Fixed (d : Duration)
| Linear (initial : Duration)
| Exponential (initial max : Duration).

(** [None] is a panic. *)
Definition delay (b : Backoff) (attempt : Z) : option Duration :=
  match b with
  | Fixed d => Some d
  | Linear initial => duration_mul initial (u32_add attempt 1)
  | Exponential initial max =>
      let d := duration_saturating_mul initial (default u32_max (u32_checked_shl 1 attempt)) in
      Some (Z.min d max)
  end.

Definition backoff_ok (b : Backoff) : Prop :=
  match b with
  | Fixed d | Linear d => is_duration d
  | Exponential initial max => is_duration initial /\ is_duration max
  end.

(** ** Retry *)

Section retry.
Context {T E : Type}.

Record RetryPolicy := {
  max_attempts : Z;
  backoff : Backoff;
  should_retry : E -> bool
}.
Definition always_retry (e : E) : bool := true.
Definition RetryPolicy_new (max_attempts : Z) (backoff : Backoff) : RetryPolicy :=
  {| max_attempts := max_attempts; backoff := backoff; should_retry := always_retry |}.
Definition filtered (max_attempts : Z) (backoff : Backoff) (should_retry : E -> bool) : RetryPolicy :=
  {| max_attempts := max_attempts; backoff := backoff; should_retry := should_retry |}.

(** The operation, and the sleep between two attempts. *)
Inductive call := Try | Sleep (d : Duration).
Definition reply (c : call) : Type := match c with Try => result T E | Sleep _ => unit end.

Inductive outcome := Returned (r : result T E) | Panicked | OutOfFuel.

Fixpoint retry_from (fuel : nat) (policy : RetryPolicy) (attempt : Z) : prog reply outcome :=
  match fuel with
  | O => Ret OutOfFuel
  | S fuel =>
      do r <- @perform call reply Try;
      match r with
      | Ok v => Ret (Returned (Ok v))
      | Err e =>
          if (u32_add attempt 1 <? max_attempts policy)%Z && should_retry policy e then
            match delay (backoff policy) attempt with
            | None => Ret Panicked
            | Some d =>
                do _ <- @perform call reply (Sleep d);
                retry_from fuel policy (u32_add attempt 1)
            end
          else Ret (Returned (Err e))
      end
  end.

(** The loop makes at most [max_attempts] rounds, and one when that is 0. *)
Definition retry (policy : RetryPolicy) : prog reply outcome :=
  retry_from (S (Z.to_nat (max_attempts policy))) policy 0.
End retry.
Arguments RetryPolicy E : clear implicits.
Arguments outcome T E : clear implicits.
Arguments reply T E c : clear implicits.

(** ** Health

    The counter is one 32-bit atomic; between the increment of a report of failure,
    the recovery and the reset other threads may take steps. *)

Inductive phase := Idle | Recovering | Resetting.
Record HealthTracker := {
  consecutive_failures : Z;
  threads : list phase;
  recoveries : nat
}.
Definition HealthTracker_new (n : nat) : HealthTracker :=
  {| consecutive_failures := 0; threads := replicate n Idle; recoveries := 0 |}.

Section health.
Context (threshold : Z).

Definition set_phase (h : HealthTracker) (i : nat) (p : phase) (failures : Z) (n : nat) : HealthTracker :=
  {| consecutive_failures := failures; threads := <[i := p]> (threads h); recoveries := n |}.

(** [fetch_add] and the comparison with the value it returned. *)
Definition fail_at (h : HealthTracker) (i : nat) : HealthTracker :=
  let prev := consecutive_failures h in
  set_phase h i (if (threshold <=? u32_add prev 1)%Z then Recovering else Idle) (u32_add prev 1)
    (recoveries h).
Definition recover_at (h : HealthTracker) (i : nat) : HealthTracker :=
  set_phase h i Resetting (consecutive_failures h) (S (recoveries h)).
Definition reset_at (h : HealthTracker) (i : nat) : HealthTracker := set_phase h i Idle 0 (recoveries h).

(** One atomic step of a thread. *)
Inductive action := Fail | Recover | Reset | Succeed.
Inductive hstep (h : HealthTracker) : nat * action -> HealthTracker -> Prop :=
| step_fail i : threads h !! i = Some Idle -> hstep h (i, Fail) (fail_at h i)
| step_recover i : threads h !! i = Some Recovering -> hstep h (i, Recover) (recover_at h i)
| step_reset i : threads h !! i = Some Resetting -> hstep h (i, Reset) (reset_at h i)
| step_succeed i : threads h !! i = Some Idle -> hstep h (i, Succeed) (reset_at h i).

Inductive hsteps (h : HealthTracker) : list (nat * action) -> HealthTracker -> Prop :=
| hsteps_nil : hsteps h [] h
| hsteps_snoc l a h' h'' : hsteps h l h' -> hstep h' a h'' -> hsteps h (l ++ [a])%list h''.

(** One thread alone: the two reports as they run without others. *)
Definition report_success (h : HealthTracker) : HealthTracker := reset_at h 0.
Definition report_failure (h : HealthTracker) : HealthTracker :=
  let h1 := fail_at h 0 in
  if (threshold <=? u32_add (consecutive_failures h) 1)%Z then reset_at (recover_at h1 0) 0 else h1.
Definition failure_count (h : HealthTracker) : Z := consecutive_failures h.
End health.

(** ** What retries do *)

(** The delay of an exponential backoff: doubled until the 32nd attempt, then
    constant, and never above the cap. *)
Definition growth (attempt : Z) : Z := if (attempt <? 32)%Z then (2 ^ attempt)%Z else u32_max.

Lemma growth_shl attempt : is_u32 attempt -> default u32_max (u32_checked_shl 1 attempt) = growth attempt.
Proof.
  intros [H _]. unfold u32_checked_shl, growth. destruct (Z.ltb_spec attempt 32); [|done]. cbn [default id].
  rewrite Z.shiftl_1_l. apply Z.mod_small. split; [apply Z.pow_nonneg; lia|]. by apply Z.pow_lt_mono_r.
Qed.

Lemma growth_mono a b : (0 <= a <= b)%Z -> (0 < growth a <= growth b)%Z.
Proof.
  intros H. unfold growth, u32_max. assert (0 < 2 ^ a)%Z by (apply Z.pow_pos_nonneg; lia).
  destruct (Z.ltb_spec a 32), (Z.ltb_spec b 32); try lia.
  - split; [done|]. apply Z.pow_le_mono_r; lia.
  - assert (2 ^ a < 2 ^ 32)%Z by (apply Z.pow_lt_mono_r; lia). lia.
Qed.

Lemma exponential_delay initial max attempt :
  backoff_ok (Exponential initial max) -> is_u32 attempt ->
  delay (Exponential initial max) attempt = Some (Z.min (initial * growth attempt) max).
Proof.
  intros [_ Hm] Ha. cbn [delay]. rewrite growth_shl by done. unfold duration_saturating_mul, is_duration in *.
  f_equal. lia.
Qed.

(** Every delay there is, is a duration; only a linear backoff can fail to have one,
    and exactly when the product leaves the range; the delays never shrink. *)
Lemma delays_in_range b attempt :
  backoff_ok b -> is_u32 attempt -> (attempt < u32_max)%Z ->
  match delay b attempt with
  | Some d => is_duration d
              /\ match b with Exponential _ max => (d <= max)%Z | _ => True end
              /\ (forall next d', (attempt <= next < u32_max)%Z -> delay b next = Some d' -> (d <= d')%Z)
  | None => exists initial, b = Linear initial /\ (DURATION_MAX < initial * (attempt + 1))%Z
  end.
Proof.
  intros Hb Ha Hl. unfold is_u32 in Ha.
  assert (Hadd : forall n, (0 <= n < u32_max)%Z -> u32_add n 1 = (n + 1)%Z)
    by (intros n Hn; apply Z.mod_small; unfold u32_max in Hn; lia).
  destruct b as [d|initial|initial max].
  - cbn. split; [done|]. split; [done|]. intros next d' _ [= <-]. lia.
  - cbn [delay]. unfold duration_mul. rewrite Hadd by lia. cbn in Hb. unfold is_duration in *.
    destruct (Z.leb_spec (initial * (attempt + 1)) DURATION_MAX).
    + split; [split; [nia|done]|]. split; [done|]. intros next d' Hn. rewrite Hadd by lia.
      case_match; [|done]. intros [= <-]. nia.
    + exists initial. by split.
  - rewrite exponential_delay by done. destruct Hb as [Hi Hm]. unfold is_duration in *.
    pose proof (growth_mono attempt attempt). split; [split; [nia|lia]|]. split; [lia|].
    intros next d' Hn. rewrite exponential_delay; [|done|by split; lia]. intros [= <-].
    pose proof (growth_mono attempt next). nia.
Qed.

Section retried.
Context {T E : Type}.
Implicit Types policy : RetryPolicy E.

(** Failed attempts that were retried, each with its sleep. *)
Inductive attempts policy : Z -> list E -> list (event (reply T E)) -> Prop :=
| attempts_nil i : attempts policy i [] []
| attempts_cons i e es d t :
    should_retry policy e = true -> delay (backoff policy) i = Some d -> attempts policy (i + 1) es t ->
    attempts policy i (e :: es) (did (reply := reply T E) Try (Err e) :: did (reply := reply T E) (Sleep d) tt :: t).

(** How the loop ends with the answer to the attempt [n], counted from 0. *)
Definition ends policy (n : Z) (last : result T E) (o : outcome T E) : Prop :=
  match last with
  | Ok v => o = Returned (Ok v)
  | Err e =>
      o = Returned (Err e) /\ ((max_attempts policy <= n + 1)%Z \/ should_retry policy e = false)
      \/ o = Panicked /\ (n + 1 < max_attempts policy)%Z /\ should_retry policy e = true
         /\ delay (backoff policy) n = None
  end.

Lemma retry_from_said policy fuel n t o :
  is_u32 (max_attempts policy) -> (0 <= n)%Z -> (n < Z.max 1 (max_attempts policy))%Z ->
  (max_attempts policy <= n + Z.of_nat fuel)%Z -> fuel <> 0 ->
  runs (retry_from fuel policy n) t o ->
  exists es t0 last, t = (t0 ++ [did (reply := reply T E) Try last])%list /\ attempts policy n es t0
    /\ (n + Z.of_nat (length es) < Z.max 1 (max_attempts policy))%Z
    /\ ends policy (n + Z.of_nat (length es)) last o.
Proof.
  intros Hm. revert n t. induction fuel as [|fuel IH]; intros n t Hn Hlt Hf Hz R; [done|]. clear Hz.
  cbn [retry_from] in R. apply runs_call_inv in R as (r & t' & -> & R).
  assert (Ha : u32_add n 1 = (n + 1)%Z) by (apply Z.mod_small; unfold is_u32, u32_max in Hm; lia).
  destruct r as [v|e].
  { apply runs_ret in R as [-> <-]. exists [], [], (Ok v). split; [done|]. split; [constructor|].
    cbn. split; [lia|done]. }
  rewrite Ha in R. destruct (Z.ltb_spec (n + 1) (max_attempts policy)) as [Hl|Hl]; cbn [andb] in R.
  2: { apply runs_ret in R as [-> <-]. exists [], [], (Err e). split; [done|]. split; [constructor|].
       cbn. split; [lia|]. left. split; [done|]. left. lia. }
  destruct (should_retry policy e) eqn:Er.
  2: { apply runs_ret in R as [-> <-]. exists [], [], (Err e). split; [done|]. split; [constructor|].
       cbn. split; [lia|]. left. split; [done|]. by right. }
  destruct (delay (backoff policy) n) as [d|] eqn:Ed.
  - apply runs_call_inv in R as ([] & t1 & -> & R). apply IH in R; [|lia..].
    destruct R as (es & t0 & last & -> & Hes & Hb & He). exists (e :: es), (did (reply := reply T E) Try (Err e)
      :: did (reply := reply T E) (Sleep d) tt :: t0), last.
    split; [done|]. split; [by constructor|]. cbn [length].
    replace (n + Z.of_nat (S (length es)))%Z with (n + 1 + Z.of_nat (length es))%Z by lia. by split.
  - apply runs_ret in R as [-> <-]. exists [], [], (Err e). split; [done|]. split; [constructor|].
    cbn. rewrite Z.add_0_r. split; [lia|]. by right.
Qed.

(** C33. Retries are bounded and end: a run of [retry] is some failed attempts, all with
    an error that may be retried and each followed by the sleep of its number, and one
    last attempt; there are at least one and at most [max_attempts] of them (one when
    that is 0); the answer of the last is returned, a failure only when the attempts
    are used up or the error may not be retried; the loop never runs on, and panics
    only where the delay is out of range. *)
Theorem retries_are_bounded policy t (o : outcome T E) :
  is_u32 (max_attempts policy) ->
  runs (retry policy) t o ->
  exists es t0 last,
    t = (t0 ++ [did (reply := reply T E) Try last])%list
    /\ attempts policy 0 es t0
    /\ (1 <= Z.of_nat (S (length es)) <= Z.max 1 (max_attempts policy))%Z
    /\ ends policy (Z.of_nat (length es)) last o.
Proof.
  intros Hm R. apply retry_from_said in R; [|done|lia..].
  destruct R as (es & t0 & last & -> & Hes & Hb & He). exists es, t0, last. repeat split; done || lia.
Qed.
End retried.

(** ** What the tracker does *)

Section tracked.
Context (threshold : Z) (Ht : (0 < threshold <= u32_max)%Z).
Notation steps := (hsteps threshold).

(** The failures since the counter was last stored to. *)
Definition streak_step (n : Z) (a : nat * action) : Z :=
  match a.2 with Fail => (n + 1)%Z | Recover => n | Reset | Succeed => 0%Z end.
Definition streak (l : list (nat * action)) : Z := fold_left streak_step l 0%Z.
Definition recovered (l : list (nat * action)) : nat :=
  length (List.filter (fun a => match a.2 with Recover => true | _ => false end) l).

(** The thread's own report reached the threshold, and it has done nothing since. *)
Definition due (l : list (nat * action)) (i : nat) : Prop :=
  exists l0 l1, l = (l0 ++ (i, Fail) :: l1)%list /\ Forall (fun a => a.1 <> i) l1
    /\ (threshold <= streak (l0 ++ [(i, Fail)]))%Z.

Lemma streak_snoc l a : streak (l ++ [a]) = streak_step (streak l) a.
Proof. unfold streak. by rewrite fold_left_app. Qed.
Lemma recovered_snoc l a :
  recovered (l ++ [a]) = recovered l + match a.2 with Recover => 1 | _ => 0 end.
Proof. unfold recovered. rewrite List.filter_app, length_app. by destruct a as [? []]. Qed.
Lemma streak_nonneg l : (0 <= streak l)%Z.
Proof.
  induction l as [|[i a] l IH] using rev_ind; [done|]. rewrite streak_snoc. destruct a; cbn; lia.
Qed.

Lemma due_snoc l i a : a.1 <> i -> due l i -> due (l ++ [a]) i.
Proof.
  intros Ha (l0 & l1 & -> & Hl & Hs). exists l0, (l1 ++ [a])%list.
  split; [by rewrite <- app_assoc|]. split; [|done]. apply Forall_app. split; [done|by repeat constructor].
Qed.

(** A step of one thread leaves what the others are due to do. *)
Lemma due_insert l (ts : list phase) a p q j :
  (forall i, ts !! i = Some Recovering -> due l i) -> ts !! a.1 = Some q ->
  (p = Recovering -> due (l ++ [a]) a.1) ->
  <[a.1 := p]> ts !! j = Some Recovering -> due (l ++ [a]) j.
Proof.
  intros Hd Hq Hp Hj. destruct (decide (a.1 = j)) as [<-|Hne].
  - rewrite list_lookup_insert_eq in Hj by by eapply lookup_lt_Some. apply Hp. congruence.
  - rewrite list_lookup_insert_ne in Hj by done. apply due_snoc; [done|by apply Hd].
Qed.

(** The invariant: the counter is the streak, a thread that is about to recover is due,
    and while the counter is at the threshold some thread will reset it. *)
Record tracked (l : list (nat * action)) (h : HealthTracker) : Prop := {
  counter_streak : consecutive_failures h = (streak l mod 2 ^ 32)%Z;
  recoveries_counted : recoveries h = recovered l;
  recovering_due : forall i, threads h !! i = Some Recovering -> due l i;
  reset_pending : (threshold <= consecutive_failures h)%Z ->
                  exists i p, threads h !! i = Some p /\ p <> Idle
}.

Lemma tracked_step l h a h' : tracked l h -> hstep threshold h a h' -> tracked (l ++ [a]) h'.
Proof.
  intros [Hc Hr Hd Hp] Hs. inversion Hs as [i Hi|i Hi|i Hi|i Hi]; subst.
  - assert (Hadd : u32_add (consecutive_failures h) 1 = (streak (l ++ [(i, Fail)]) mod 2 ^ 32)%Z)
      by (rewrite streak_snoc, Hc; unfold u32_add; by rewrite Zplus_mod_idemp_l).
    constructor; cbn [fail_at set_phase consecutive_failures threads recoveries].
    + done.
    + rewrite Hr, recovered_snoc. cbn. lia.
    + intros j Hj. eapply (due_insert _ _ (i, Fail) _ _ j Hd Hi); [|exact Hj]. intros Hw.
      destruct (Z.leb_spec threshold (u32_add (consecutive_failures h) 1)); [|done].
      exists l, []. split; [done|]. split; [constructor|]. pose proof (streak_nonneg (l ++ [(i, Fail)])).
      pose proof (Z.mod_le (streak (l ++ [(i, Fail)])) (2 ^ 32)). cbn [fst]. lia.
    + intros Hle. exists i, Recovering. split; [|done].
      rewrite list_lookup_insert_eq by by eapply lookup_lt_Some.
      by replace (threshold <=? _)%Z with true by (symmetry; by apply Z.leb_le).
  - constructor; cbn [recover_at set_phase consecutive_failures threads recoveries].
    + by rewrite streak_snoc.
    + rewrite Hr, recovered_snoc. cbn. lia.
    + intros j Hj. by eapply (due_insert _ _ (i, _) _ _ j Hd Hi); [|exact Hj].
    + intros _. exists i, Resetting. split; [|done].
      by rewrite list_lookup_insert_eq by by eapply lookup_lt_Some.
  - constructor; cbn [reset_at set_phase consecutive_failures threads recoveries].
    + by rewrite streak_snoc.
    + rewrite Hr, recovered_snoc. cbn. lia.
    + intros j Hj. by eapply (due_insert _ _ (i, _) _ _ j Hd Hi); [|exact Hj].
    + lia.
  - constructor; cbn [reset_at set_phase consecutive_failures threads recoveries].
    + by rewrite streak_snoc.
    + rewrite Hr, recovered_snoc. cbn. lia.
    + intros j Hj. by eapply (due_insert _ _ (i, _) _ _ j Hd Hi); [|exact Hj].
    + lia.
Qed.

Lemma tracked_steps n l h : steps (HealthTracker_new n) l h -> tracked l h.
Proof.
  induction 1 as [|l a h' h'' _ IH Hs]; [|by eapply tracked_step; [exact IH|]].
  constructor; cbn; try done; [|lia]. intros i Hi. apply lookup_replicate in Hi. by destruct Hi.
Qed.

Lemma hsteps_split h0 l1 a l2 h :
  steps h0 (l1 ++ a :: l2) h -> exists h1 h2, steps h0 l1 h1 /\ hstep threshold h1 a h2.
Proof.
  revert h. induction l2 as [|b l2 IH] using rev_ind; intros h Hs.
  - inversion Hs as [E|l a' h' h'' Hl Ha E]; [by destruct l1|]. apply app_inj_tail in E as [-> ->].
    by exists h', h.
  - inversion Hs as [E|l a' h' h'' Hl Ha E]; [by destruct l1|].
    replace (l1 ++ a :: l2 ++ [b])%list with ((l1 ++ a :: l2) ++ [b])%list in E by by rewrite <- app_assoc.
    apply app_inj_tail in E as [-> _]. by eapply IH.
Qed.

(** Recovery follows failures in a row, however the threads interleave: a thread
    recovers only after a report of its own that brought the failures since the last
    reset to the threshold, and each such step runs the recovery once; when no thread
    is in the middle of a report the counter is below the threshold. *)
Theorem recovery_follows_failures n l h :
  steps (HealthTracker_new n) l h ->
  (forall l1 i l2, l = (l1 ++ (i, Recover) :: l2)%list -> due l1 i)
  /\ recoveries h = recovered l
  /\ (Forall (fun p => p = Idle) (threads h) -> (consecutive_failures h < threshold)%Z).
Proof.
  intros Hs. pose proof (tracked_steps _ _ _ Hs) as [_ Hr _ Hp]. split; [|split; [done|]].
  - intros l1 i l2 ->. apply hsteps_split in Hs as (h1 & h2 & H1 & H2).
    apply (recovering_due _ _ (tracked_steps _ _ _ H1)). by inversion H2.
  - intros Hi. destruct (Z.lt_ge_cases (consecutive_failures h) threshold) as [|Hge]; [done|].
    destruct (Hp Hge) as (i & p & Hl & Hne). rewrite Forall_lookup in Hi. by apply Hi in Hl.
Qed.

(** ** One thread *)

Definition fresh (failures : Z) (n : nat) : HealthTracker :=
  {| consecutive_failures := failures; threads := [Idle]; recoveries := n |}.

Lemma report_failure_fresh failures n :
  (0 <= failures < threshold)%Z ->
  report_failure threshold (fresh failures n)
  = if (failures + 1 =? threshold)%Z then fresh 0 (S n) else fresh (failures + 1) n.
Proof.
  intros Hf. unfold report_failure. cbn [consecutive_failures fresh].
  assert (Ha : u32_add failures 1 = (failures + 1)%Z) by (apply Z.mod_small; unfold u32_max in Ht; lia).
  unfold fail_at. cbn [consecutive_failures fresh]. rewrite Ha.
  destruct (Z.eqb_spec (failures + 1) threshold) as [->|].
  - by rewrite Z.leb_refl.
  - destruct (Z.leb_spec threshold (failures + 1)); [lia|done].
Qed.

(** The calls of one report are steps of its thread. *)
Lemma report_failure_steps h :
  threads h !! 0 = Some Idle ->
  exists l, hsteps threshold h l (report_failure threshold h) /\ Forall (fun a => a.1 = 0) l.
Proof.
  intros Hi. pose proof (lookup_lt_Some _ _ _ Hi) as Hl. unfold report_failure.
  destruct (threshold <=? u32_add (consecutive_failures h) 1)%Z eqn:E.
  - exists (([] ++ [(0, Fail)]) ++ [(0, Recover)] ++ [(0, Reset)])%list. split; [|by repeat constructor].
    rewrite app_assoc. econstructor; [econstructor; [econstructor; [constructor|by constructor]|]|].
    + constructor. cbn. rewrite E. by apply list_lookup_insert_eq.
    + constructor. cbn. apply list_lookup_insert_eq. by rewrite length_insert.
  - exists ([] ++ [(0, Fail)])%list. split; [|by repeat constructor].
    econstructor; [constructor|by constructor].
Qed.

(** Without other threads every [threshold]-th failure in a row recovers, and the
    counter holds the failures since. *)
Theorem every_threshold_recovers (k : nat) :
  let h := Nat.iter k (report_failure threshold) (HealthTracker_new 1) in
  failure_count h = (Z.of_nat k mod threshold)%Z
  /\ Z.of_nat (recoveries h) = (Z.of_nat k / threshold)%Z
  /\ failure_count (report_success h) = 0%Z.
Proof.
  assert (H : exists failures n, Nat.iter k (report_failure threshold) (HealthTracker_new 1) = fresh failures n
    /\ (0 <= failures < threshold)%Z /\ Z.of_nat k = (threshold * Z.of_nat n + failures)%Z).
  { induction k as [|k (failures & n & E & Hf & Hk)]; [exists 0%Z, 0; repeat split; lia|].
    cbn [Nat.iter nat_rect]. unfold Nat.iter in E. rewrite E, report_failure_fresh by done.
    destruct (Z.eqb_spec (failures + 1) threshold).
    - exists 0%Z, (S n). repeat split; [lia..|]. nia.
    - exists (failures + 1)%Z, n. repeat split; lia. }
  destruct H as (failures & n & -> & Hf & Hk). cbv zeta. unfold failure_count. cbn [fresh consecutive_failures recoveries].
  split; [|split; [|done]].
  - rewrite Hk. by rewrite Z.add_comm, Z.mul_comm, Z_mod_plus_full, Z.mod_small.
  - rewrite Hk. rewrite Z.mul_comm, Z.div_add_l, Z.div_small by lia. lia.
Qed.
End tracked.

(** ** Examples *)

Definition flaky (past : list (event (reply Z bool))) (c : call) : reply Z bool c :=
  match c with
  | Try => if (length past <? 4)%nat then Err true else Ok 99%Z
  | Sleep _ => tt
  end.
Definition scene_backoff : Backoff := Exponential 500000000%Z 600000000%Z.
Definition flaky_run (n : Z) : list (event (reply Z bool)) * outcome Z bool :=
  answer flaky [] (retry (filtered n scene_backoff (fun e => e))).

Lemma retries_are_bounded_witness :
  (flaky_run 3).2 = Returned (Ok 99%Z) /\ (flaky_run 2).2 = Returned (Err true)
  /\ exists es t0, (flaky_run 3).1 = (t0 ++ [did (reply := reply Z bool) Try (Ok 99%Z)])%list
       /\ attempts (filtered 3 scene_backoff (fun e => e)) 0 es t0.
Proof.
  assert (E : (flaky_run 3).2 = Returned (Ok 99%Z)) by (vm_compute; reflexivity).
  split; [exact E|]. split; [vm_compute; reflexivity|]. unfold flaky_run in E |- *.
  destruct (answer_runs flaky [] (retry (filtered 3 scene_backoff (fun e => e))))
    as (t & Et & R).
  rewrite E in R. cbn [app] in Et. rewrite Et.
  destruct (retries_are_bounded (filtered 3 scene_backoff (fun e => e)) t
    (Returned (Ok 99%Z))) as (es & t0 & last & Hl & Ha & _ & He); [by split|exact R|].
  exists es, t0. split; [|exact Ha]. destruct last as [v|e]; cbn in He; [by injection He as <-|].
  destruct He as [[He _]|[He _]]; discriminate.
Defined.

Lemma recovery_follows_failures_witness :
  exists h, hsteps 2 (HealthTracker_new 3) [(0, Fail); (1, Fail); (1, Recover); (0, Fail); (1, Reset)] h
    /\ recoveries h = 1 /\ due 2 [(0, Fail); (1, Fail)] 1.
Proof.
  assert (H : hsteps 2 (HealthTracker_new 3) [(0, Fail); (1, Fail); (1, Recover); (0, Fail); (1, Reset)]
    (reset_at (fail_at 2 (recover_at (fail_at 2 (fail_at 2 (HealthTracker_new 3) 0) 1) 1) 0) 1)).
  { repeat (eapply (hsteps_snoc _ _ [_]) || eapply (hsteps_snoc _ _ []) || eapply (hsteps_snoc _ _ [_; _])
      || eapply (hsteps_snoc _ _ [_; _; _]) || eapply (hsteps_snoc _ _ [_; _; _; _]));
      [constructor|constructor; reflexivity..]. }
  eexists. split; [exact H|].
  destruct (recovery_follows_failures 2 ltac:(split; [lia|by vm_compute]) 3 _ _ H) as (Hd & Hr & _).
  split; [exact Hr|]. exact (Hd [(0, Fail); (1, Fail)] 1 [(0, Fail); (1, Reset)] eq_refl).
Defined.

Lemma every_threshold_recovers_witness :
  let h := Nat.iter 7 (report_failure 3) (HealthTracker_new 1) in
  failure_count h = 1%Z /\ Z.of_nat (recoveries h) = 2%Z.
Proof.
  destruct (every_threshold_recovers 3 ltac:(split; [lia|by vm_compute]) 7) as (H1 & H2 & _).
  split; [exact H1|exact H2].
Defined.

(** * Supervisors of agents

    [services/supervisor_registry.rs]: who supervises a child, by the branch it was
    born on.  The map is behind a mutex that every operation holds throughout, so a
    history is a sequence of whole operations.  The specification keeps no map: it
    answers from the history. *)
Module Supervisor.
Record SupervisorInfo := { supervisor : string; team : string }.
Notation SupervisorRegistry := (gmap string SupervisorInfo) (only parsing).
Definition SupervisorRegistry_new : SupervisorRegistry := ∅.

Definition register (map : SupervisorRegistry) (children : list string) (info : SupervisorInfo)
  : SupervisorRegistry :=
  fold_left (fun map child => <[child := info]> map) children map.
Definition lookup (map : SupervisorRegistry) (birth_branch : string) : option SupervisorInfo :=
  map !! birth_branch.
Definition deregister (map : SupervisorRegistry) (children : list string) : SupervisorRegistry :=
  fold_left (fun map child => delete child map) children map.

Inductive operation :=
| Register (children : list string) (info : SupervisorInfo)
| Deregister (children : list string).
Definition execute (map : SupervisorRegistry) (o : operation) : SupervisorRegistry :=
  match o with
  | Register children info => register map children info
  | Deregister children => deregister map children
  end.
Definition children_of (o : operation) : list string :=
  match o with Register children _ | Deregister children => children end.
Definition info_of (o : operation) : option SupervisorInfo :=
  match o with Register _ info => Some info | Deregister _ => None end.

(** The last operation that names the child decides. *)
Definition supervisor_in (history : list operation) (child : string) : option SupervisorInfo :=
  o ← head (List.filter (fun o => bool_decide (child ∈ children_of o)) (rev history));
  info_of o.

Lemma execute_lookup map o child :
  lookup (execute map o) child
  = if bool_decide (child ∈ children_of o) then info_of o else lookup map child.
Proof.
  unfold lookup. destruct o as [cs info|cs]; cbn [execute children_of info_of]; revert map;
    (induction cs as [|c cs IH]; intros map; cbn [register deregister fold_left];
     [by rewrite bool_decide_eq_false_2 by apply not_elem_of_nil|]).
  - unfold register in IH. rewrite IH. destruct (decide (c = child)) as [->|Hne].
    + rewrite lookup_insert_eq, (bool_decide_eq_true_2 (child ∈ child :: cs)) by by left.
      by case_bool_decide.
    + rewrite lookup_insert_ne by done. do 2 case_bool_decide; set_solver.
  - unfold deregister in IH. rewrite IH. destruct (decide (c = child)) as [->|Hne].
    + rewrite lookup_delete_eq, (bool_decide_eq_true_2 (child ∈ child :: cs)) by by left.
      by case_bool_decide.
    + rewrite lookup_delete_ne by done. do 2 case_bool_decide; set_solver.
Qed.

(** The registry answers what the last operation that names the child said. *)
Lemma registry_answers_last history child :
  lookup (fold_left execute history SupervisorRegistry_new) child = supervisor_in history child.
Proof.
  unfold supervisor_in. induction history as [|o history IH] using rev_ind; [done|].
  rewrite fold_left_app, rev_app_distr. cbn [fold_left rev app List.filter]. rewrite execute_lookup, IH.
  by case_bool_decide.
Qed.
End Supervisor.
