(* ===== verification/ApprovalReceipt.v ===== *)
(** * Receipts of parent approvals

    [handlers/merge_pr/aggregate_approval/receipt.rs]: the text of a JSON value as
    Python's [json.dumps(sort_keys=True, separators=(",", ":"))] writes it, the
    digests that are taken of it, and the reading and checking of the receipt of an
    approval.  With [serde_json::Value::pointer], which the checks around it use. *)

From stdpp Require Import pretty.
From S2P Require Import Prelude RustStr JsonValue SqlTable.
Local Open Scope string_scope.

(** ** Canonical text *)

Definition hex_digit (n : Z) : ascii :=
  ascii_of_nat (if (n <? 10)%Z then 48 + Z.to_nat n else 87 + Z.to_nat n).
Definition write_hex_escape (value : Z) : string :=
  "\u" ++ String.string_of_list_ascii
    (map (fun shift => hex_digit (Z.land (Z.shiftr value shift) 15)) [12; 8; 4; 0]%Z).
Definition write_python_unicode_escape (scalar : Z) : string :=
  if (scalar <=? 65535)%Z then write_hex_escape scalar
  else
    let adjusted := (scalar - 65536)%Z in
    write_hex_escape (55296 + Z.shiftr adjusted 10) ++ write_hex_escape (56320 + Z.land adjusted 1023).
(** One character by its scalar value. *)
Definition write_python_char (scalar : Z) : string :=
  if (scalar =? 34)%Z then String "\" (String quote_char "")
  else if (scalar =? 92)%Z then "\\"
  else if (scalar =? 8)%Z then "\b"
  else if (scalar =? 12)%Z then "\f"
  else if (scalar =? 10)%Z then "\n"
  else if (scalar =? 13)%Z then "\r"
  else if (scalar =? 9)%Z then "\t"
  else if ((scalar <=? 31) || (127 <? scalar))%Z then write_python_unicode_escape scalar
  else String (ascii_of_nat (Z.to_nat scalar)) "".

(** [str::chars]: the scalar values of a UTF-8 text. *)
Definition byte (c : ascii) : Z := Z.of_nat (nat_of_ascii c).
Fixpoint chars (s : string) : list Z :=
  match s with
  | EmptyString => []
  | String a s1 =>
      if (byte a <? 128)%Z then byte a :: chars s1
      else match s1 with
      | EmptyString => []
      | String b s2 =>
          if (byte a <? 224)%Z then ((byte a - 192) * 64 + (byte b - 128))%Z :: chars s2
          else match s2 with
          | EmptyString => []
          | String c s3 =>
              if (byte a <? 240)%Z then
                ((byte a - 224) * 4096 + (byte b - 128) * 64 + (byte c - 128))%Z :: chars s3
              else match s3 with
              | EmptyString => []
              | String d s4 =>
                  ((byte a - 240) * 262144 + (byte b - 128) * 4096 + (byte c - 128) * 64
                   + (byte d - 128))%Z :: chars s4
              end
          end
      end
  end.
Definition quoted (body : string) : string := String quote_char (body ++ String quote_char "").
Definition write_python_string (value : string) : string :=
  quoted (fold_right (fun c s => write_python_char c ++ s) "" (chars value)).

(** Items with a comma between them. *)
Definition with_commas (l : list string) : string := join_char "," l.

(** The members by key. *)
Definition sort_entries (m : list (string * string)) : list (string * string) :=
  insertion_sort (fun a b => String.leb a.1 b.1) m.

Fixpoint write_python_canonical_json (value : json) : string :=
  match value with
  | JNull => "null"
  | JBool true => "true"
  | JBool false => "false"
  | JNum n => pretty n
  | JStr s => write_python_string s
  | JArr values => "[" ++ with_commas (map write_python_canonical_json values) ++ "]"
  | JObj entries =>
      "{" ++ with_commas
        (map (fun kv => write_python_string kv.1 ++ ":" ++ kv.2)
           (sort_entries (map (fun kv => (kv.1, write_python_canonical_json kv.2)) entries)))
      ++ "}"
  end.

(** [Map::remove]. *)
Definition obj_remove (k : string) (m : list (string * json)) : list (string * json) :=
  List.filter (fun kv => negb (String.eqb kv.1 k)) m.

Section digests.
Context `{Sha256}.

Definition canonical_digest (value : json) : string := sha256_hex (write_python_canonical_json value).
Definition manifest_digest (manifest : list (string * json)) : string :=
  canonical_digest (JObj (obj_remove "digest" manifest)).
Definition canonical_receipt_id (value : json) : result string string :=
  let? identity := option_context (as_object value) "aggregate approval receipt is not an object" in
  Ok (canonical_digest (JObj (obj_remove "created_at" (obj_remove "receipt_id" identity)))).
End digests.

(** ** Pointers *)

(** [value.replace('~', "~0").replace('/', "~1")]. *)
Fixpoint replace_char (c : ascii) (by_ s : string) : string :=
  match s with
  | EmptyString => EmptyString
  | String a s => if Ascii.eqb a c then by_ ++ replace_char c by_ s else String a (replace_char c by_ s)
  end.
Definition escape_json_pointer (value : string) : string :=
  replace_char "/" "~1" (replace_char "~" "~0" value).

(** [token.replace("~1", "/").replace("~0", "~")]. *)
Fixpoint replace_pair (a b by_ : ascii) (s : string) : string :=
  match s with
  | EmptyString => EmptyString
  | String x s1 =>
      match s1 with
      | String y s2 =>
          if Ascii.eqb x a && Ascii.eqb y b then String by_ (replace_pair a b by_ s2)
          else String x (replace_pair a b by_ s1)
      | EmptyString => s
      end
  end.
Definition unescape_token (token : string) : string :=
  replace_pair "~" "0" "~" (replace_pair "~" "1" "/" token).

Definition parse_index (s : string) : option nat :=
  match s with
  | String c rest =>
      if Ascii.eqb c "+" || (Ascii.eqb c "0" && negb (str_is_empty rest)) then None
      else option_map Z.to_nat (parse_u64 s)
  | EmptyString => None
  end.
Definition descend (value : option json) (token : string) : option json :=
  v ← value;
  match v with
  | JObj m => obj_get (unescape_token token) m
  | JArr l => i ← parse_index (unescape_token token); nth_error l i
  | _ => None
  end.
(** [Value::pointer]. *)
Definition pointer (path : string) (value : json) : option json :=
  match path with
  | EmptyString => Some value
  | String c rest =>
      if Ascii.eqb c "/" then fold_left descend (split_char "/" rest) (Some value) else None
  end.

(** ** The receipt *)

Record ParentApprovalReceipt := {
  receipt_id : string;
  policy_mode : string;
  parent_run_id : string;
  parent_scope_path : list string;
  parent_manifest_scope_id : option string;
  candidate_key : string;
  child_run_id : option string;
  child_manifest_node_id : option string;
  child_manifest_scope_id : option string;
  child_scope_id : option string;
  legacy_identity : bool;
  parent_agent_id : string;
  parent_branch : string;
  repository_url : string;
  plan_manifest_digest : string;
  plan_manifest_revision : Z;
  approval_policy_digest : string;
  child_manifest_digest : string;
  pr_number : Z;
  head_sha : string;
  head_tree_sha : string;
  base_sha : string;
  patch_digest : string;
  merge_tree_sha : string;
  ci_status : string;
  readiness_receipt_digest : string;
  lineage_proof_digest : string;
  lineage_commit_shas : list string;
  reviewed_leaf_ids : list string;
  created_at : string;
  supersedes_receipt_id : option string
}.

Definition common_fields : list string :=
  ["receipt_id"; "policy_mode"; "parent_run_id"; "parent_scope_path"; "parent_agent_id"; "parent_branch";
   "repository_url"; "plan_manifest_digest"; "plan_manifest_revision"; "approval_policy_digest";
   "child_manifest_digest"; "pr_number"; "head_sha"; "head_tree_sha"; "base_sha"; "patch_digest";
   "merge_tree_sha"; "ci_status"; "readiness_receipt_digest"; "lineage_proof_digest";
   "lineage_commit_shas"; "reviewed_leaf_ids"; "created_at"; "supersedes_receipt_id"].
Definition expected_fields : list string :=
  ("parent_manifest_scope_id" :: "candidate_key" :: "child_run_id" :: "child_manifest_node_id"
   :: "child_manifest_scope_id" :: common_fields)%list.
Definition legacy_fields : list string := "child_scope_id" :: common_fields.
Definition same_set (l l' : list string) : bool :=
  forallb (fun x => existsb (String.eqb x) l') l && forallb (fun x => existsb (String.eqb x) l) l'.

(** [serde_json::from_value] field by field; a field of an [Option] may be missing. *)
Definition field_str (m : list (string * json)) (k : string) : option string := v ← obj_get k m; as_str v.
Definition field_u64 (m : list (string * json)) (k : string) : option Z := v ← obj_get k m; as_u64 v.
Definition field_opt (m : list (string * json)) (k : string) : option (option string) :=
  match obj_get k m with
  | None | Some JNull => Some None
  | Some (JStr s) => Some (Some s)
  | Some _ => None
  end.
Definition field_strs (m : list (string * json)) (k : string) : option (list string) :=
  v ← obj_get k m; l ← as_array v; mapM as_str l.

Definition receipt_of_object (m : list (string * json)) (legacy : bool) : option ParentApprovalReceipt :=
  id ← field_str m "receipt_id"; mode ← field_str m "policy_mode"; run ← field_str m "parent_run_id";
  path ← field_strs m "parent_scope_path"; pscope ← field_opt m "parent_manifest_scope_id";
  key ← field_str m "candidate_key"; crun ← field_opt m "child_run_id";
  cnode ← field_opt m "child_manifest_node_id"; cscope ← field_opt m "child_manifest_scope_id";
  old ← field_opt m "child_scope_id"; agent ← field_str m "parent_agent_id";
  branch ← field_str m "parent_branch"; url ← field_str m "repository_url";
  plan ← field_str m "plan_manifest_digest"; rev ← field_u64 m "plan_manifest_revision";
  policy ← field_str m "approval_policy_digest"; child ← field_str m "child_manifest_digest";
  pr ← field_u64 m "pr_number"; head ← field_str m "head_sha"; tree ← field_str m "head_tree_sha";
  base ← field_str m "base_sha"; patch ← field_str m "patch_digest"; mtree ← field_str m "merge_tree_sha";
  ci ← field_str m "ci_status"; ready ← field_str m "readiness_receipt_digest";
  lineage ← field_str m "lineage_proof_digest"; commits ← field_strs m "lineage_commit_shas";
  leaves ← field_strs m "reviewed_leaf_ids"; created ← field_str m "created_at";
  supersedes ← field_opt m "supersedes_receipt_id";
  Some {| receipt_id := id; policy_mode := mode; parent_run_id := run; parent_scope_path := path;
          parent_manifest_scope_id := pscope; candidate_key := key; child_run_id := crun;
          child_manifest_node_id := cnode; child_manifest_scope_id := cscope; child_scope_id := old;
          legacy_identity := legacy; parent_agent_id := agent; parent_branch := branch;
          repository_url := url; plan_manifest_digest := plan; plan_manifest_revision := rev;
          approval_policy_digest := policy; child_manifest_digest := child; pr_number := pr;
          head_sha := head; head_tree_sha := tree; base_sha := base; patch_digest := patch;
          merge_tree_sha := mtree; ci_status := ci; readiness_receipt_digest := ready;
          lineage_proof_digest := lineage; lineage_commit_shas := commits; reviewed_leaf_ids := leaves;
          created_at := created; supersedes_receipt_id := supersedes |}.

(** ** Checks *)

Definition is_lower_hex (c : ascii) : bool :=
  let n := nat_of_ascii c in
  is_digit c || (97 <=? n)%nat && (n <=? 102)%nat.
Definition valid_git_sha (value : string) : bool :=
  ((str_len value =? 40)%Z || (str_len value =? 64)%Z) && all_chars is_lower_hex value.
Definition valid_sha256 (value : string) : bool := (str_len value =? 64)%Z && all_chars is_lower_hex value.
Fixpoint is_sorted_unique (values : list string) : bool :=
  match values with
  | a :: (b :: _) as rest => String.ltb a b && is_sorted_unique rest
  | _ => true
  end.

Definition blank_opt (o : option string) : bool := from_option is_blank true o.
Definition required_texts (r : ParentApprovalReceipt) : list string :=
  [receipt_id r; parent_run_id r; parent_agent_id r; parent_branch r; repository_url r;
   plan_manifest_digest r; approval_policy_digest r; child_manifest_digest r; head_sha r;
   head_tree_sha r; base_sha r; patch_digest r; merge_tree_sha r; readiness_receipt_digest r;
   lineage_proof_digest r; created_at r].
Definition has_empty_field (r : ParentApprovalReceipt) : bool :=
  existsb is_blank (required_texts r)
  || (negb (legacy_identity r)
      && existsb blank_opt [parent_manifest_scope_id r; Some (candidate_key r); child_run_id r;
                            child_manifest_node_id r; child_manifest_scope_id r])
  || (legacy_identity r && blank_opt (child_scope_id r)).
Definition is_mergeable_ci (status : string) : bool :=
  String.eqb status "success" || String.eqb status "neutral".
Definition violates_contract (r : ParentApprovalReceipt) : bool :=
  negb (String.eqb (policy_mode r) "parent")
  || (plan_manifest_revision r =? 0)%Z
  || (pr_number r =? 0)%Z
  || negb (is_mergeable_ci (ci_status r))
  || Nat.eqb (length (lineage_commit_shas r)) 0
  || negb (forallb valid_git_sha (lineage_commit_shas r))
  || negb (is_sorted_unique (lineage_commit_shas r))
  || existsb is_blank (reviewed_leaf_ids r)
  || negb (is_sorted_unique (reviewed_leaf_ids r))
  || negb (bool_decide (last (parent_scope_path r) = Some (parent_run_id r)))
  || (negb (legacy_identity r)
      && (negb (bool_decide (child_run_id r = Some (candidate_key r)))
          || negb (bool_decide (child_manifest_node_id r = child_manifest_scope_id r)))).

(** The first text of a list that fails its check gives the error. *)
Definition check_all (ok : string -> bool) (error : string -> string) (l : list (string * string))
  : result unit string :=
  try_fold (fun _ nv => ensure (ok nv.2) (error nv.1)) tt l.
Definition shas_of (r : ParentApprovalReceipt) : list (string * string) :=
  [("head", head_sha r); ("head tree", head_tree_sha r); ("base", base_sha r);
   ("merge tree", merge_tree_sha r)].
Definition digests_of (r : ParentApprovalReceipt) : list (string * string) :=
  [("receipt", receipt_id r); ("plan manifest", plan_manifest_digest r);
   ("approval policy", approval_policy_digest r); ("child manifest", child_manifest_digest r);
   ("patch", patch_digest r); ("readiness", readiness_receipt_digest r);
   ("lineage", lineage_proof_digest r)].

Section receipts.
Context `{Sha256}.

Definition validate_receipt (r : ParentApprovalReceipt) (original : json) : result unit string :=
  let? _ := ensure (negb (has_empty_field r))
              "aggregate approval receipt contains an empty required field" in
  let? _ := ensure (negb (violates_contract r))
              "aggregate approval receipt violates its parent-mode evidence contract" in
  let? _ := check_all valid_git_sha (fun name => "aggregate approval " ++ name ++ " SHA is malformed")
              (shas_of r) in
  let? _ := check_all valid_sha256 (fun name => "aggregate approval " ++ name ++ " digest is malformed")
              (digests_of r) in
  let? id := canonical_receipt_id original in
  ensure (bool_decide ((m ← as_object original; field_str m "receipt_id") = Some id))
    "aggregate approval receipt ID does not match its content".

Definition parse_receipt (value : json) : result ParentApprovalReceipt string :=
  let? object := option_context (as_object value) "aggregate approval receipt must be an object" in
  let actual := map fst object in
  let legacy := same_set actual legacy_fields in
  let? _ := ensure (same_set actual expected_fields || legacy)
              "aggregate approval receipt has missing or unknown fields" in
  let? normalized :=
    if legacy then
      let? scope := option_context (field_str object "child_scope_id")
                      "legacy aggregate approval child scope is malformed" in
      Ok (obj_insert "candidate_key" (JStr scope) object)
    else Ok object in
  let? receipt := option_context (receipt_of_object normalized legacy)
                    "aggregate approval receipt fields are malformed" in
  let? _ := validate_receipt receipt value in
  Ok receipt.
End receipts.

(** ** The canonical text determines the value *)

(** A Rust text: its characters are scalar values, encoded in UTF-8. *)
Definition is_scalar (c : Z) : Prop := (0 <= c < 55296 \/ 57344 <= c <= 1114111)%Z.
Definition byte_text (l : list Z) : string := bytes_str (map Z.to_nat l).
Definition utf8_char (c : Z) : string :=
  if (c <? 128)%Z then byte_text [c]
  else if (c <? 2048)%Z then byte_text [192 + c / 64; 128 + c mod 64]%Z
  else if (c <? 65536)%Z then byte_text [224 + c / 4096; 128 + c / 64 mod 64; 128 + c mod 64]%Z
  else byte_text [240 + c / 262144; 128 + c / 4096 mod 64; 128 + c / 64 mod 64; 128 + c mod 64]%Z.
Definition utf8 (l : list Z) : string := fold_right (fun c s => utf8_char c ++ s) "" l.
Definition valid_text (s : string) : Prop := utf8 (chars s) = s /\ Forall is_scalar (chars s).

(** A reader of one written character. *)
Definition hex_value (c : ascii) : Z :=
  let n := byte c in if (n <? 58)%Z then (n - 48)%Z else (n - 87)%Z.
Definition read_hex4 (s : string) : option (Z * string) :=
  match s with
  | String a (String b (String c (String d rest))) =>
      Some (hex_value a * 4096 + hex_value b * 256 + hex_value c * 16 + hex_value d, rest)%Z
  | _ => None
  end.
Definition read_unicode (s : string) : option (Z * string) :=
  '(first, rest) ← read_hex4 s;
  if ((55296 <=? first) && (first <? 56320))%Z then
    match rest with
    | String _ (String _ rest) =>
        '(second, rest) ← read_hex4 rest; Some (65536 + (first - 55296) * 1024 + (second - 56320), rest)%Z
    | _ => None
    end
  else Some (first, rest).
Definition read_char (s : string) : option (Z * string) :=
  match s with
  | String a rest =>
      if Ascii.eqb a "\" then
        match rest with
        | String b rest =>
            if Ascii.eqb b "u" then read_unicode rest
            else if Ascii.eqb b "b" then Some (8%Z, rest)
            else if Ascii.eqb b "f" then Some (12%Z, rest)
            else if Ascii.eqb b "n" then Some (10%Z, rest)
            else if Ascii.eqb b "r" then Some (13%Z, rest)
            else if Ascii.eqb b "t" then Some (9%Z, rest)
            else Some (byte b, rest)
        | EmptyString => None
        end
      else Some (byte a, rest)
  | EmptyString => None
  end.

Lemma hex_digit_value n : (0 <= n < 16)%Z -> hex_value (hex_digit n) = n.
Proof.
  intros H. assert (Hn : In n (map Z.of_nat (seq 0 16))).
  { apply in_map_iff. exists (Z.to_nat n). split; [lia|]. apply in_seq. lia. }
  cbn in Hn. by repeat (destruct Hn as [<-|Hn]; [reflexivity|]).
Qed.

Lemma nibble value shift : (0 <= shift)%Z ->
  Z.land (Z.shiftr value shift) 15 = (value / 2 ^ shift mod 16)%Z.
Proof.
  intros H. change 15%Z with (Z.ones 4). rewrite Z.land_ones by lia. by rewrite Z.shiftr_div_pow2.
Qed.

Lemma read_hex_escape v rest : (0 <= v < 65536)%Z ->
  exists t, write_hex_escape v ++ rest = String "\" (String "u" t) /\ read_hex4 t = Some (v, rest).
Proof.
  intros H. unfold write_hex_escape. cbn [map]. rewrite !nibble by lia. eexists. split; [reflexivity|].
  cbn [String.string_of_list_ascii String.append read_hex4]. rewrite !hex_digit_value by (apply Z.mod_pos_bound; lia).
  do 2 f_equal. change (2 ^ 12)%Z with 4096%Z. change (2 ^ 8)%Z with 256%Z. change (2 ^ 4)%Z with 16%Z.
  change (2 ^ 0)%Z with 1%Z. Z.to_euclidean_division_equations. lia.
Qed.

Lemma read_unicode_escape c rest : is_scalar c ->
  exists t, write_python_unicode_escape c ++ rest = String "\" (String "u" t)
            /\ read_unicode t = Some (c, rest).
Proof.
  intros Hc. unfold write_python_unicode_escape, is_scalar in *. destruct (Z.leb_spec c 65535).
  - destruct (read_hex_escape c rest) as (t & E & R); [lia|]. exists t. split; [done|].
    unfold read_unicode. rewrite R. cbn [mbind option_bind].
    by replace ((55296 <=? c)%Z && (c <? 56320)%Z) with false by (destruct (Z.leb_spec 55296 c), (Z.ltb_spec c 56320); cbn; lia || done).
  - set (a := (c - 65536)%Z). assert (Ha : (0 <= a < 1048576)%Z) by lia.
    assert (Hs : Z.shiftr a 10 = (a / 1024)%Z) by by rewrite Z.shiftr_div_pow2.
    assert (Hl : Z.land a 1023 = (a mod 1024)%Z) by (change 1023%Z with (Z.ones 10); by rewrite Z.land_ones).
    rewrite Hs, Hl, str_app_assoc.
    assert (Hq : (0 <= a / 1024 < 1024)%Z) by (split; [apply Z.div_pos; lia|apply Z.div_lt_upper_bound; lia]).
    pose proof (Z.mod_pos_bound a 1024 ltac:(lia)) as Hm.
    destruct (read_hex_escape (56320 + a mod 1024) rest) as (t2 & E2 & R2); [lia|].
    rewrite E2. destruct (read_hex_escape (55296 + a / 1024) (String "\" (String "u" t2))) as (t & E & R); [lia|].
    exists t. split; [done|]. unfold read_unicode. rewrite R. cbn [mbind option_bind].
    replace ((55296 <=? 55296 + a / 1024)%Z && (55296 + a / 1024 <? 56320)%Z) with true
      by (symmetry; apply andb_true_iff; split; [apply Z.leb_le|apply Z.ltb_lt]; lia).
    rewrite R2. cbn [mbind option_bind]. do 2 f_equal. pose proof (Z.div_mod a 1024). lia.
Qed.

Lemma byte_ascii n : (0 <= n < 256)%Z -> byte (ascii_of_nat (Z.to_nat n)) = n.
Proof. intros H. unfold byte. rewrite nat_ascii_embedding by lia. lia. Qed.

(** What one character is written as, and how it is read. *)
Lemma read_write_char c rest : is_scalar c -> read_char (write_python_char c ++ rest) = Some (c, rest).
Proof.
  intros Hc. unfold write_python_char.
  do 7 (match goal with |- context [(c =? ?n)%Z] => destruct (Z.eqb_spec c n) as [->|?]; [reflexivity|] end).
  destruct ((c <=? 31)%Z || (127 <? c)%Z) eqn:E.
  - destruct (read_unicode_escape c rest Hc) as (t & -> & R). exact R.
  - apply orb_false_iff in E as [E1%Z.leb_gt E2%Z.ltb_ge].
    assert (Hb : byte (ascii_of_nat (Z.to_nat c)) = c) by (apply byte_ascii; lia).
    set (a := ascii_of_nat (Z.to_nat c)) in *. change (String a "" ++ rest) with (String a rest).
    unfold read_char. destruct (Ascii.eqb_spec a "\") as [Ea|]; [|by rewrite Hb].
    rewrite Ea in Hb. vm_compute in Hb. lia.
Qed.

Lemma write_char_not_quote c : is_scalar c -> exists a s, write_python_char c = String a s /\ a <> quote_char.
Proof.
  intros Hc. unfold write_python_char.
  do 7 (match goal with |- context [(c =? ?n)%Z] => destruct (Z.eqb_spec c n) as [->|?]; [by do 2 eexists|] end).
  destruct ((c <=? 31)%Z || (127 <? c)%Z) eqn:E.
  - destruct (read_unicode_escape c "" Hc) as (t & E' & _). rewrite str_app_nil_r in E'. by eexists _, _.
  - apply orb_false_iff in E as [E1%Z.leb_gt E2%Z.ltb_ge]. eexists _, _. split; [done|]. intros Eq.
    assert (Hb : byte (ascii_of_nat (Z.to_nat c)) = c) by (apply byte_ascii; lia). rewrite Eq in Hb.
    vm_compute in Hb. lia.
Qed.


Definition written (l : list Z) : string := fold_right (fun c s => write_python_char c ++ s) "" l.

Lemma written_inj l l' r r' :
  Forall is_scalar l -> Forall is_scalar l' ->
  written l ++ String quote_char r = written l' ++ String quote_char r' -> l = l' /\ r = r'.
Proof.
  intros Hl. revert l'. induction Hl as [|c l Hc Hl IH]; intros l' Hl' E.
  - destruct Hl' as [|c' l' Hc' Hl']; cbn [written fold_right] in E; [by injection E|].
    destruct (write_char_not_quote c' Hc') as (a & s & Ew & Ha). rewrite Ew, !str_cons_app in E.
    injection E as E _. congruence.
  - destruct Hl' as [|c' l' Hc' Hl'].
    { destruct (write_char_not_quote c Hc) as (a & s & Ew & Ha). cbn [written fold_right] in E.
      rewrite Ew, !str_cons_app in E. injection E as E _. congruence. }
    cbn [written fold_right] in E. fold (written l) (written l') in E. rewrite !str_app_assoc in E.
    apply (f_equal read_char) in E. rewrite !read_write_char in E by done. injection E as -> E.
    by apply IH in E as [-> ->].
Qed.

Lemma write_string_inj s s' r r' :
  valid_text s -> valid_text s' ->
  write_python_string s ++ r = write_python_string s' ++ r' -> s = s' /\ r = r'.
Proof.
  intros [Hs Hc] [Hs' Hc'] E. unfold write_python_string, quoted in E. rewrite !str_cons_app in E.
  injection E as E. rewrite !str_app_assoc, !str_cons_app in E.
  apply (written_inj _ _ _ _ Hc Hc') in E as [El Er]. split; [|exact Er]. by rewrite <- Hs, El.
Qed.

(** The values [serde_json] holds: a map has its keys in order. *)
#[warnings="-register-all"]
Inductive canonical : json -> Prop :=
| canonical_null : canonical JNull
| canonical_bool b : canonical (JBool b)
| canonical_num n : canonical (JNum n)
| canonical_str s : valid_text s -> canonical (JStr s)
| canonical_arr l : Forall canonical l -> canonical (JArr l)
| canonical_obj m :
    is_sorted_unique (map fst m) = true -> Forall valid_text (map fst m) -> Forall canonical (map snd m) ->
    canonical (JObj m).

(** *** Numbers *)

Lemma pretty_go_nonempty n s : s <> "" -> pretty_N_go n s <> "".
Proof.
  revert s. induction n as [n IH] using (well_founded_induction N.lt_wf_0). intros s Hs.
  destruct (decide (n = 0)%N) as [->|Hne]; [by rewrite pretty_N_go_0|].
  rewrite pretty_N_go_step by lia. apply IH; [apply N.div_lt; lia|done].
Qed.
Lemma pretty_N_nonempty (n : N) : pretty n <> "".
Proof.
  unfold pretty, pretty_N. destruct (decide _) as [|Hn]; [done|].
  rewrite pretty_N_go_step by lia. by apply pretty_go_nonempty.
Qed.

(** A sign and digits. *)
Lemma number_text (n : Z) : exists sign c s,
  pretty n = sign ++ String c s /\ (sign = "" \/ sign = "-") /\ all_digits (String c s) = true.
Proof.
  assert (Hd : forall m : N, exists c s, pretty m = String c s /\ all_digits (String c s) = true).
  { intros m. pose proof (pretty_digits (Z.of_N m) ltac:(lia)) as H. rewrite pretty_Z_nat, N2Z.id in H by lia.
    pose proof (pretty_N_nonempty m). destruct (pretty m) as [|c s]; [done|]. by exists c, s. }
  destruct n as [|p|p].
  - exists "", "0"%char, "". by split; [|split; [left|]].
  - destruct (Hd (N.pos p)) as (c & s & E & H). exists "", c, s. split; [exact E|]. by split; [left|].
  - destruct (Hd (N.pos p)) as (c & s & E & H). exists "-", c, s. split; [|by split; [right|]].
    change (pretty (Z.neg p)) with ("-" ++ pretty (N.pos p)). by rewrite E.
Qed.

(** What may follow a value. *)
Definition ends_value (r : string) : Prop :=
  match r with EmptyString => True | String c _ => is_digit c = false end.

Lemma digits_prefix a b r r' :
  all_digits a = true -> all_digits b = true -> ends_value r -> ends_value r' ->
  a ++ r = b ++ r' -> a = b /\ r = r'.
Proof.
  revert b. induction a as [|x a IH]; intros b Ha Hb Hr Hr' E.
  - destruct b as [|y b]; [done|]. assert (E' : r = String y (b ++ r')) by exact E. subst r.
    cbn in Hr, Hb. by rewrite Hr in Hb.
  - cbn in Ha. apply andb_true_iff in Ha as [Hx Ha]. destruct b as [|y b].
    { assert (E' : String x (a ++ r) = r') by exact E. subst r'. cbn in Hr'. congruence. }
    cbn in Hb. apply andb_true_iff in Hb as [Hy Hb]. rewrite !str_cons_app in E. injection E as -> E.
    by apply IH in E as [-> ->].
Qed.

Lemma digit_not_dash c s : all_digits (String c s) = true -> c <> "-"%char.
Proof. cbn. intros [H _]%andb_true_iff ->. by vm_compute in H. Qed.

Lemma number_inj (n m : Z) r r' :
  ends_value r -> ends_value r' -> pretty n ++ r = pretty m ++ r' -> n = m /\ r = r'.
Proof.
  intros Hr Hr' E.
  destruct (number_text n) as (sn & c & s & En & Hsn & Hn), (number_text m) as (sm & c' & s' & Em & Hsm & Hm).
  assert (Es : sn = sm).
  { rewrite En, Em in E. pose proof (digit_not_dash _ _ Hn). pose proof (digit_not_dash _ _ Hm).
    destruct Hsn as [->| ->], Hsm as [->| ->]; try done; exfalso.
    - assert (E' : String c (s ++ r) = String "-" (String c' s' ++ r')) by exact E. congruence.
    - assert (E' : String "-" (String c s ++ r) = String c' (s' ++ r')) by exact E. congruence. }
  subst sm. rewrite En, Em, !str_app_assoc in E.
  assert (E' : String c s ++ r = String c' s' ++ r')
    by (destruct Hsn as [->| ->]; [exact E|]; by apply (f_equal (fun t => match t with String _ t => t | "" => "" end)) in E).
  apply digits_prefix in E' as [E1 ->]; [|done..]. split; [|done].
  apply (inj pretty). by rewrite En, Em, E1.
Qed.

(** *** Values *)

Definition write := write_python_canonical_json.

(** The first character tells what the value is. *)
Lemma write_head v : exists c s, write v = String c s /\
  match v with
  | JNull => c = "n"%char
  | JBool true => c = "t"%char
  | JBool false => c = "f"%char
  | JNum _ => c = "-"%char \/ is_digit c = true
  | JStr _ => c = quote_char
  | JArr _ => c = "["%char
  | JObj _ => c = "{"%char
  end.
Proof.
  destruct v as [|[]|n|s|l|m]; cbn; try by eexists _, _.
  destruct (number_text n) as (sign & c & s & E & [->| ->] & H); rewrite E; [|by eexists _, _; split; [|left]].
  eexists _, _. split; [reflexivity|right]. cbn in H. by apply andb_true_iff in H as [? _].
Qed.

Definition determined (v : json) : Prop := forall w r r',
  canonical w -> ends_value r -> ends_value r' -> write v ++ r = write w ++ r' -> v = w /\ r = r'.

Lemma with_commas_head {A} (text : A -> string) x l c s :
  text x = String c s -> exists s', with_commas (map text (x :: l)) = String c s'.
Proof. intros E. unfold with_commas. destruct l; cbn [map join_char]; rewrite E; by eexists. Qed.

(** Items with commas up to a closing bracket. *)
Lemma items_inj {A} (text : A -> string) (ok : A -> Prop) (close : ascii) l l' r r' :
  is_digit close = false -> close <> ","%char ->
  (forall x, ok x -> exists c s, text x = String c s /\ c <> close) ->
  Forall (fun x => forall y r r', ok y -> ends_value r -> ends_value r' ->
            text x ++ r = text y ++ r' -> x = y /\ r = r') l ->
  Forall ok l -> Forall ok l' ->
  with_commas (map text l) ++ String close r = with_commas (map text l') ++ String close r' ->
  l = l' /\ r = r'.
Proof.
  intros Hd Hc Hhead Hdet. revert l'. induction Hdet as [|x l Hx Hdet IH]; intros l' Hl Hl' E.
  - destruct l' as [|y l']; [cbn in E; by injection E|]. apply Forall_cons in Hl' as [Hy _]. exfalso.
    destruct (Hhead y Hy) as (c & s & Et & Hne). destruct (with_commas_head text y l' c s Et) as [s' Es].
    rewrite Es in E. assert (E' : String close r = String c (s' ++ String close r')) by exact E. congruence.
  - apply Forall_cons in Hl as [Hox Hl]. destruct l' as [|y l'].
    { exfalso. destruct (Hhead x Hox) as (c & s & Et & Hne).
      destruct (with_commas_head text x l c s Et) as [s' Es]. rewrite Es in E.
      assert (E' : String c (s' ++ String close r) = String close r') by exact E. congruence. }
    apply Forall_cons in Hl' as [Hoy Hl'].
    assert (Hcm : is_digit "," = false) by done.
    destruct l as [|x2 l], l' as [|y2 l']; unfold with_commas in E;
      cbn [map join_char] in E; rewrite ?str_app_assoc, ?str_cons_app in E;
      apply Hx in E as [-> E]; try done; injection E as E; [by subst|congruence|congruence|].
    apply (IH (y2 :: l')) in E as [E ->]; [|done..]. by rewrite E.
Qed.

Definition entry_text (kv : string * json) : string := write_python_string kv.1 ++ ":" ++ write kv.2.

Lemma ltb_leb a b : String.ltb a b = true -> String.leb a b = true.
Proof. unfold String.ltb, String.leb. by destruct (String.compare a b). Qed.

Lemma sort_entries_sorted (m : list (string * string)) :
  is_sorted_unique (map fst m) = true -> sort_entries m = m.
Proof.
  unfold sort_entries, insertion_sort. induction m as [|[k v] m IH]; [done|]. intros H. cbn [fold_right].
  rewrite IH by (destruct m as [|[k' v'] m]; [done|]; cbn in H; by apply andb_true_iff in H as [_ ?]).
  destruct m as [|[k' v'] m]; [done|]. cbn in H. apply andb_true_iff in H as [Hk _]. cbn [sorted_insert fst].
  by rewrite (ltb_leb _ _ Hk).
Qed.

Lemma write_object m : is_sorted_unique (map fst m) = true ->
  write (JObj m) = "{" ++ with_commas (map entry_text m) ++ "}".
Proof.
  intros H. unfold write. cbn [write_python_canonical_json]. rewrite sort_entries_sorted.
  - rewrite map_map. done.
  - rewrite map_map. cbn [fst]. exact H.
Qed.

Lemma write_array l : write (JArr l) = "[" ++ with_commas (map write l) ++ "]".
Proof. reflexivity. Qed.

Lemma head_not_close close v :
  In close ["]"; "}"]%char -> exists c s, write v = String c s /\ c <> close.
Proof.
  intros Hc. destruct (write_head v) as (c & s & E & Hh). exists c, s. split; [done|]. intros ->.
  destruct Hc as [<-|[<-|[]]]; destruct v as [|[]|n|s'|l|m]; try done; by destruct Hh.
Qed.

Lemma entry_determined kv :
  determined kv.2 -> valid_text kv.1 -> forall kv' r r',
  valid_text kv'.1 /\ canonical kv'.2 -> ends_value r -> ends_value r' ->
  entry_text kv ++ r = entry_text kv' ++ r' -> kv = kv' /\ r = r'.
Proof.
  destruct kv as [k v]. cbn. intros Hv Hk [k' v'] r r' [Hk' Hc'] Hr Hr' E. cbn in *. unfold entry_text in E.
  cbn [fst snd] in E. rewrite !str_app_assoc in E. apply write_string_inj in E as [-> E]; [|done..].
  assert (E' : write v ++ r = write v' ++ r')
    by by apply (f_equal (fun t => match t with String _ t => t | "" => "" end)) in E.
  by apply Hv in E' as [-> ->].
Qed.

(** Values of different kinds begin differently. *)
Lemma same_kind v w r r' : write v ++ r = write w ++ r' ->
  match v, w with
  | JNull, JNull | JNum _, JNum _ | JStr _, JStr _ | JArr _, JArr _ | JObj _, JObj _ => True
  | JBool b, JBool b' => b = b'
  | _, _ => False
  end.
Proof.
  destruct (write_head v) as (c & s & Ev & Hv), (write_head w) as (c' & s' & Ew & Hw). rewrite Ev, Ew, !str_cons_app.
  intros [= -> _].
  destruct v as [|[]|?|?|?|?], w as [|[]|?|?|?|?]; try done; subst; try done; try (by destruct Hv); by destruct Hw.
Qed.

(** Equal texts up to what follows come from equal values. *)
Lemma write_determined v : canonical v -> determined v.
Proof.
  induction v as [|b|n|s|l IH|m IH] using json_ind'; intros Hv w r r' Hw Hr Hr' E; pose proof (same_kind _ _ _ _ E) as K.
  - destruct w; try done. split; [done|]. by injection E.
  - destruct w as [|b'| | | |]; try done. subst b'. split; [done|]. by destruct b; injection E.
  - destruct w as [| |m| | |]; try done. by apply number_inj in E as [-> ->].
  - destruct w as [| | |s'| |]; try done. inversion Hv; inversion Hw; subst.
    by apply write_string_inj in E as [-> ->].
  - destruct w as [| | | |l'|]; try done. inversion Hv as [| | | |? Hl|]; inversion Hw as [| | | |? Hl'|]; subst.
    rewrite !write_array, !str_app_assoc in E.
    assert (E' : with_commas (map write l) ++ String "]" r = with_commas (map write l') ++ String "]" r')
      by by apply (f_equal (fun t => match t with String _ t => t | "" => "" end)) in E.
    apply (items_inj write canonical) in E' as [-> ->]; try done.
    + intros x _. apply head_not_close. by left.
    + eapply Forall_impl; [exact (proj2 (Forall_and _ _) (conj IH Hl))|]. intros x [Hx Hcx] y q q'. by apply Hx.
  - destruct w as [| | | | |m']; try done.
    inversion Hv as [| | | | |? Hs Hk Hc]; inversion Hw as [| | | | |? Hs' Hk' Hc']; subst.
    rewrite !write_object, !str_app_assoc in E by done.
    assert (E' : with_commas (map entry_text m) ++ String "}" r = with_commas (map entry_text m') ++ String "}" r')
      by by apply (f_equal (fun t => match t with String _ t => t | "" => "" end)) in E.
    assert (Hok : forall m : list (string * json), Forall valid_text (map fst m) -> Forall canonical (map snd m) ->
              Forall (fun kv => valid_text kv.1 /\ canonical kv.2) m).
    { intros m0 H1 H2. rewrite Forall_fmap in H1. rewrite Forall_fmap in H2. by apply Forall_and. }
    apply (items_inj entry_text (fun kv => valid_text kv.1 /\ canonical kv.2)) in E' as [-> ->]; try done.
    + intros x _. eexists _, _. split; [reflexivity|done].
    + eapply Forall_impl; [exact (proj2 (Forall_and _ _) (conj IH (Hok m Hk Hc)))|]. intros kv (Hx & Hk1 & Hc1).
      apply entry_determined; [by apply Hx|done].
    + by apply Hok.
    + by apply Hok.
Qed.

Lemma ltb_lt a b : String.ltb a b = true <-> String.leb a b = true /\ a <> b.
Proof.
  unfold String.ltb, String.leb. pose proof (String.compare_eq_iff a b) as E.
  destruct (String.compare a b) eqn:C; split; try done.
  - intros [_ Hn]. by destruct Hn; apply E.
  - intros _. split; [done|]. intros ->. by rewrite str_compare_refl in C.
  - by intros [? _].
Qed.

Lemma ltb_trans a b c : String.ltb a b = true -> String.ltb b c = true -> String.ltb a c = true.
Proof.
  rewrite !ltb_lt. intros [Hab Hn] [Hbc Hm]. split; [by eapply leb_trans|]. intros ->.
  apply Hn, String.leb_antisym; done.
Qed.

(** Below every later text. *)
Lemma sorted_unique_cons a l :
  is_sorted_unique (a :: l) = true
  <-> Forall (fun b => String.ltb a b = true) l /\ is_sorted_unique l = true.
Proof.
  revert a. induction l as [|b l IH]; intros a; [by split; [repeat constructor|]|].
  change (is_sorted_unique (a :: b :: l)) with (String.ltb a b && is_sorted_unique (b :: l)).
  rewrite andb_true_iff. split.
  - intros [Hab Hs]. split; [|done]. constructor; [done|]. apply IH in Hs as [Hb _].
    eapply Forall_impl; [exact Hb|]. intros c Hc. by eapply ltb_trans.
  - intros [H ?]. by apply Forall_cons in H as [? _].
Qed.

Lemma filter_sorted_unique (f : string * json -> bool) m :
  is_sorted_unique (map fst m) = true -> is_sorted_unique (map fst (List.filter f m)) = true.
Proof.
  induction m as [|[k v] m IH]; [done|]. cbn [map fst]. rewrite sorted_unique_cons. intros [Hk Hs].
  cbn [List.filter]. destruct (f (k, v)); [|by apply IH]. cbn [map fst]. rewrite sorted_unique_cons.
  split; [|by apply IH]. apply Forall_forall. intros x Hx. rewrite Forall_forall in Hk. apply Hk.
  apply list_elem_of_In, in_map_iff in Hx as (kv & <- & Hin). apply filter_In in Hin as [Hin _].
  apply list_elem_of_In, in_map_iff. by exists kv.
Qed.

Lemma obj_remove_canonical k m : canonical (JObj m) -> canonical (JObj (obj_remove k m)).
Proof.
  inversion 1 as [| | | | |? Hs Hk Hc]; subst. unfold obj_remove.
  assert (Hf : forall (P : string * json -> Prop) f, Forall P m -> Forall P (List.filter f m)).
  { intros P f HP. apply Forall_forall. intros x Hx. rewrite Forall_forall in HP. apply HP.
    apply list_elem_of_In in Hx. apply filter_In in Hx as [Hx _]. by apply list_elem_of_In. }
  rewrite Forall_fmap in Hk. rewrite Forall_fmap in Hc.
  constructor; [by apply filter_sorted_unique| |]; rewrite Forall_fmap; by apply Hf.
Qed.

Lemma obj_get_remove k k' m : k <> k' -> obj_get k (obj_remove k' m) = obj_get k m.
Proof.
  intros Hne. induction m as [|[x v] m IH]; [done|]. cbn [obj_remove List.filter fst]. fold (obj_remove k' m).
  destruct (String.eqb_spec x k') as [->|]; cbn [negb obj_get]; rewrite IH; [|done].
  by destruct (String.eqb_spec k k').
Qed.

Lemma obj_get_key k m v : obj_get k m = Some v -> k ∈ map fst m.
Proof.
  induction m as [|[x w] m IH]; [done|]. cbn [obj_get map fst]. rewrite elem_of_cons.
  destruct (String.eqb_spec k x) as [->|]; [by left|]. intros E. right. by apply IH.
Qed.
Lemma obj_get_removed k m : obj_get k (obj_remove k m) = None.
Proof.
  destruct (obj_get k (obj_remove k m)) as [v|] eqn:E; [|done]. apply obj_get_key in E.
  apply list_elem_of_In, in_map_iff in E as ([x w] & <- & Hin). apply filter_In in Hin as [_ Hx].
  cbn [fst] in Hx. by rewrite String.eqb_refl in Hx.
Qed.

(** The first key of a sorted object is below every other key. *)
Lemma obj_get_below k v m x w :
  is_sorted_unique (map fst ((k, v) :: m)) = true -> obj_get x m = Some w -> String.ltb k x = true.
Proof.
  cbn [map fst]. rewrite sorted_unique_cons, Forall_forall. intros [H _] E. by apply H, (obj_get_key _ _ w).
Qed.

(** A sorted object is determined by its members. *)
Lemma sorted_ext m m' :
  is_sorted_unique (map fst m) = true -> is_sorted_unique (map fst m') = true ->
  (forall k, obj_get k m = obj_get k m') -> m = m'.
Proof.
  revert m'. induction m as [|[k v] m IH]; intros [|[k' v'] m'] Hs Hs' E; [done| | |].
  - specialize (E k'). cbn [obj_get] in E. by rewrite String.eqb_refl in E.
  - specialize (E k). cbn [obj_get] in E. by rewrite String.eqb_refl in E.
  - assert (Ek := E k). assert (Ek' := E k'). cbn [obj_get] in Ek, Ek'.
    rewrite String.eqb_refl in Ek. rewrite String.eqb_refl in Ek'.
    assert (k = k') as <-.
    { destruct (String.eqb_spec k k') as [|Hne]; [done|].
      destruct (String.eqb_spec k' k) as [|_]; [done|]. symmetry in Ek.
      pose proof (obj_get_below _ _ _ _ _ Hs' Ek) as H1. pose proof (obj_get_below _ _ _ _ _ Hs Ek') as H2.
      apply ltb_lt in H1 as [H1 _]. apply ltb_lt in H2 as [H2 _]. by apply String.leb_antisym. }
    rewrite String.eqb_refl in Ek. injection Ek as <-. f_equal.
    apply IH; [by apply sorted_unique_cons in Hs as [_ ?]|by apply sorted_unique_cons in Hs' as [_ ?]|].
    intros x. specialize (E x). cbn [obj_get] in E.
    destruct (String.eqb_spec x k) as [Ex|_]; [|exact E]. rewrite Ex. clear E Ex.
    assert (Hn : forall m0, is_sorted_unique (map fst ((k, v) :: m0)) = true -> obj_get k m0 = None).
    { intros m0 H. destruct (obj_get k m0) as [w|] eqn:Ew; [|done].
      by apply (obj_get_below _ _ _ _ _ H), ltb_lt in Ew as [_ ?]. }
    by rewrite !Hn.
Qed.

(** What a receipt's id is of. *)
Definition identity_of (m : list (string * json)) : list (string * json) :=
  obj_remove "created_at" (obj_remove "receipt_id" m).
Lemma identity_of_canonical m : canonical (JObj m) -> canonical (JObj (identity_of m)).
Proof. intros H. by do 2 apply obj_remove_canonical. Qed.
Lemma identity_of_get k m : k <> "receipt_id" -> k <> "created_at" -> obj_get k (identity_of m) = obj_get k m.
Proof. intros Hr Hc. unfold identity_of. by rewrite !obj_get_remove. Qed.
Lemma identity_of_ext m m' :
  canonical (JObj m) -> canonical (JObj m') ->
  identity_of m = identity_of m'
  <-> (forall k, k <> "receipt_id" -> k <> "created_at" -> obj_get k m = obj_get k m').
Proof.
  intros Hm Hm'. split.
  - intros E k Hr Hc. by rewrite <- (identity_of_get k m), <- (identity_of_get k m'), E.
  - intros E. apply identity_of_canonical in Hm. apply identity_of_canonical in Hm'.
    inversion Hm; inversion Hm'; subst. apply sorted_ext; [done..|]. intros k.
    destruct (decide (k = "created_at")) as [->|Hc]; [by unfold identity_of; rewrite !obj_get_removed|].
    destruct (decide (k = "receipt_id")) as [->|Hr];
      [by unfold identity_of; rewrite !(obj_get_remove "receipt_id" "created_at"), !obj_get_removed by done|].
    rewrite !identity_of_get by done. by apply E.
Qed.

(** C11. The id of a receipt binds its content: it is the SHA-256 of a text, and two
    receipts have the same text exactly when they agree in every member but the id
    itself and the time of creation, nested values and member names included. *)
Theorem receipt_id_binds_content `{Sha256} v w id id' :
  canonical v -> canonical w ->
  canonical_receipt_id v = Ok id -> canonical_receipt_id w = Ok id' ->
  exists m m' x y,
    v = JObj m /\ w = JObj m' /\ id = sha256_hex x /\ id' = sha256_hex y
    /\ (x = y <-> forall k, k <> "receipt_id" -> k <> "created_at" -> obj_get k m = obj_get k m').
Proof.
  intros Hv Hw. unfold canonical_receipt_id, canonical_digest.
  destruct v as [| | | | |m]; try done. destruct w as [| | | | |m']; try done.
  cbn [as_object option_context]. fold (identity_of m) (identity_of m'). intros [= <-] [= <-].
  exists m, m', (write (JObj (identity_of m))), (write (JObj (identity_of m'))).
  do 4 (split; [done|]). rewrite <- identity_of_ext by done. split; [|by intros ->].
  intros E. destruct (write_determined (JObj (identity_of m)) (identity_of_canonical _ Hv)
                        (JObj (identity_of m')) "" "") as [Ei _];
    [by apply identity_of_canonical|done|done|by rewrite E|]. by injection Ei.
Qed.

(** The character that Python's encoder also escapes. *)
Example delete_is_written_raw : write_python_char 127 = String (ascii_of_nat 127) "".
Proof. reflexivity. Qed.

Lemma ascii_valid s : all_chars (fun c => (nat_of_ascii c <? 128)%nat) s = true -> valid_text s.
Proof.
  unfold valid_text. induction s as [|a s IH]; [by split; [|constructor]|]. cbn [all_chars].
  intros [Ha Hs]%andb_true_iff. apply Nat.ltb_lt in Ha. apply IH in Hs as [Hu Hc].
  assert (Hb : (byte a <? 128)%Z = true) by (apply Z.ltb_lt; unfold byte; lia).
  cbn [chars]. rewrite Hb. split; [|constructor; [unfold is_scalar, byte; lia|done]].
  cbn [utf8 fold_right]. fold (utf8 (chars s)). rewrite Hu. unfold utf8_char. rewrite Hb. unfold byte_text, byte.
  cbn [map bytes_str fold_right]. by rewrite Nat2Z.id, ascii_nat_embedding.
Qed.

Definition sample_receipt (created : string) : json :=
  JObj [("created_at", JStr created); ("pr_number", JNum 7); ("receipt_id", JStr "r")].
Definition sample_sha : Sha256 := {| sha256_hex := fun s => s |}.
Definition sample_id : string :=
  write_python_canonical_json (JObj [("pr_number", JNum 7)]).

Lemma sample_canonical created : valid_text created -> canonical (sample_receipt created).
Proof.
  intros H. constructor; [reflexivity| |].
  - do 3 (constructor; [by apply ascii_valid|]). constructor.
  - constructor; [by constructor|]. constructor; [constructor|]. constructor; [|constructor].
    constructor. by apply ascii_valid.
Qed.

Lemma receipt_id_binds_content_witness :
  canonical_receipt_id (H := sample_sha) (sample_receipt "monday") = Ok sample_id
  /\ canonical_receipt_id (H := sample_sha) (sample_receipt "friday") = Ok sample_id
  /\ exists m m' x y,
       sample_receipt "monday" = JObj m /\ sample_receipt "friday" = JObj m'
       /\ sample_id = @sha256_hex sample_sha x /\ sample_id = @sha256_hex sample_sha y
       /\ (x = y <-> forall k, k <> "receipt_id" -> k <> "created_at" -> obj_get k m = obj_get k m').
Proof.
  assert (E1 : canonical_receipt_id (H := sample_sha) (sample_receipt "monday") = Ok sample_id)
    by (vm_compute; reflexivity).
  assert (E2 : canonical_receipt_id (H := sample_sha) (sample_receipt "friday") = Ok sample_id)
    by (vm_compute; reflexivity).
  split; [exact E1|]. split; [exact E2|].
  refine (@receipt_id_binds_content sample_sha (sample_receipt "monday") (sample_receipt "friday") sample_id
            sample_id _ _ E1 E2); by apply sample_canonical, ascii_valid.
Defined.
