(* ===== verification/Approval.v ===== *)
(** * Parent approval of an aggregate

    [handlers/merge_pr/aggregate_approval.rs] with [scope.rs] and [plan.rs]: the
    controller of a parent scope may merge an aggregate pull request with a receipt in
    the checkpoint of its scope.  The host checks the receipt against the checkpoints
    of all the scopes from the root, the accepted plan, the caller's identity and the
    repository; a pull request that some checkpoint declares an aggregate is refused
    without one.  The checks are functions of the JSON values; reading the checkpoints
    is a program. *)

From stdpp Require Import pretty.
From S2P Require Import Prelude RustStr Paths JsonValue Effects Publication ReviewTypes Lineage.
From S2P Require Import ApprovalReceipt.
Local Open Scope string_scope.
Local Open Scope prog_scope.

(** ** Calls

    The calls of a merge: files of the TL loop, the agent resolver, Git, the forge,
    the lineage check with its deadline, the log and the session memory. *)

(** [fs::symlink_metadata]: what is at the path itself. *)
Inductive PathKind := RegularFile | SymbolicLink | OtherKind.
(** An entry of a directory, or the error of reading it. *)
Inductive ScanEntry := EntryFailed | Entry (path : PathBuf) (is_dir : option bool).
Record AgentIdentity := {
  identity_branch : string;
  identity_ledger_owned : bool;
  identity_slice_id : option string
}.
Record ForgejoPullRequest := {
  head_ref : string;
  base_ref : string;
  state : string;
  merged : bool;
  pr_head_sha : option string
}.
(** The publication ledger and the identities at the time of the check. *)
Record PublicationState := {
  published : option RawPublishedHeadsFile;
  owners : string -> option OwnerIdentity;
  invocations : string -> option string
}.
Inductive CommandReply := NotStarted (reason : string) | Exited (success : bool) (stdout stderr : string).
Inductive MergeReply := MergeDone | MergeRefused (reason : string) | MergeTimedOut.

Inductive call :=
| Canonicalize (path : PathBuf)
| PathExists (path : PathBuf)
| IsDir (path : PathBuf)
| LinkMetadata (path : PathBuf)
| ReadFile (path : PathBuf)
| ReadDir (path : PathBuf)
| ResolveAgent (name : string)
| GetRepositoryUrl (dir : PathBuf)
| GetRepoInfo (dir : PathBuf)
| GetPullRequest (owner repo : string) (number : Z)
| ReadPublications
| RunCommand (dir : PathBuf) (args : list string)
| GetCommitStatus (owner repo head : string)
| MergePullRequest (owner repo : string) (number : Z) (method head : string)
| LineageCall (dir : PathBuf) (c : Lineage.call)
| LineageDeadline
| AppendLog (event agent : string) (data : json)
| CaptureMemory (summary : string) (metadata : json).
Definition reply (c : call) : Type :=
  match c with
  | Canonicalize _ => option PathBuf
  | PathExists _ | IsDir _ | LineageDeadline => bool
  | LinkMetadata _ => option PathKind
  | ReadFile _ => option string
  | ReadDir _ => option (list ScanEntry)
  | ResolveAgent _ => option AgentIdentity
  | GetRepositoryUrl _ => result string string
  | GetRepoInfo _ => result (string * string) string
  | GetPullRequest _ _ _ => result ForgejoPullRequest string
  | ReadPublications => PublicationState
  | RunCommand _ _ => CommandReply
  | GetCommitStatus _ _ _ => result CIStatus string
  | MergePullRequest _ _ _ _ _ => MergeReply
  | LineageCall _ c => Lineage.reply c
  | AppendLog _ _ _ | CaptureMemory _ _ => unit
  end.
Definition IO (A : Type) : Type := prog reply A.
Notation ask := (@perform call reply).

(** ** Reading values *)

Definition jget (k : string) (v : json) : option json := m ← as_object v; obj_get k m.
Definition jobject (k : string) (v : json) : option (list (string * json)) := x ← jget k v; as_object x.
Definition ostr (k : string) (m : list (string * json)) : option string := x ← obj_get k m; as_str x.
Definition oobject (k : string) (m : list (string * json)) : option (list (string * json)) :=
  x ← obj_get k m; as_object x.
Definition jstr (k : string) (v : json) : option string := x ← jget k v; as_str x.
Definition pointer_str (path : string) (v : json) : option string := x ← pointer path v; as_str x.
(** The objects of an array member; nothing when there is no array. *)
Definition node_objects (m : list (string * json)) : list (list (string * json)) :=
  omap as_object (default [] (x ← obj_get "nodes" m; as_array x)).

Definition coordinate (path : string) : string :=
  "required aggregate approval coordinate " ++ path ++ " is missing".
Definition non_blank_text (o : option json) : option string :=
  v ← o; s ← as_str v; if is_blank s then None else Some s.
Definition string_at (value : json) (path : string) : result string string :=
  option_context (non_blank_text (pointer path value)) (coordinate path).
Definition string_value (value : option json) (name : string) : result string string :=
  option_context (non_blank_text value) (coordinate name).
Definition number_field (m : list (string * json)) (name : string) : result Z string :=
  option_context (field_u64 m name) (coordinate name).

Definition differs (a b : string) : bool := negb (String.eqb a b).
(** [string_value(..)? != expected]. *)
Definition value_differs (value : option json) (name expected : string) : result bool string :=
  let? s := string_value value name in Ok (differs s expected).
(** A chain of conditions with [||] and [?]: the first that holds or fails decides. *)
Fixpoint any_of (l : list (result bool string)) : result bool string :=
  match l with
  | [] => Ok false
  | Err e :: _ => Err e
  | Ok true :: _ => Ok true
  | Ok false :: l => any_of l
  end.
Definition refuse_if (l : list (result bool string)) (error : string) : result unit string :=
  let? b := any_of l in ensure (negb b) error.

(** ** References *)

Record AggregateApprovalReference := {
  ref_receipt_id : string;
  ref_parent_run_id : string;
  ref_parent_scope_path : list string;
  ref_candidate_key : string;
  ref_controller_epoch : string
}.

Definition unsafe_segment (s : string) : bool :=
  str_is_empty s || str_contains "/" s || str_contains "\" s || String.eqb s "." || String.eqb s "..".
Definition validate_reference (r : AggregateApprovalReference) : result (list string) string :=
  let? _ := ensure (negb (is_blank (ref_receipt_id r) || is_blank (ref_parent_run_id r)
                          || is_blank (ref_candidate_key r) || is_blank (ref_controller_epoch r)
                          || negb (bool_decide (last (ref_parent_scope_path r)
                                                = Some (ref_parent_run_id r)))))
    "aggregate approval reference is incomplete or has inconsistent scope coordinates" in
  let? _ := ensure (negb (existsb unsafe_segment (ref_parent_scope_path r)))
    "aggregate approval reference contains an unsafe scope path segment" in
  Ok (ref_parent_scope_path r).

(** ** Checkpoints *)

Definition RUN_FILENAME : string := "run.json".
Definition ACTIVE_MERGE_LIFECYCLES : list string := ["INTEGRATION_VALIDATED"; "MERGING"].

Section approval.
Context `{Sha256} `{JsonText} (project_dir : PathBuf).

Definition expect {A} (c : IO (option A)) (error : string) : IO (result A string) :=
  do r <- c; Ret (option_context r error).

Definition read_json (path : PathBuf) : IO (result json string) :=
  do? kind <- expect (ask (LinkMetadata path)) ("could not inspect checkpoint " ++ display path);
  require (match kind with RegularFile => true | _ => false end) "TL checkpoint is not a regular file"
  (do? content <- expect (ask (ReadFile path)) ("could not read checkpoint " ++ display path);
   Ret (option_context (json_from_string content) ("TL checkpoint " ++ display path ++ " is malformed"))).

Definition loop_root : PathBuf := path_sub project_dir [".exo"; "tl-loop"].
Definition read_scope_checkpoint (scope_path : list string) : IO (result json string) :=
  do? root <- expect (ask (Canonicalize loop_root)) "aggregate approval parent TL state is unavailable";
  let path := fold_left (fun p segment => path_join p (parse_path segment)) scope_path root in
  do? scope_dir <- expect (ask (Canonicalize path))
                     "aggregate approval parent scope checkpoint is unavailable";
  require (path_starts_with scope_dir root) "aggregate approval scope path escapes the TL state directory"
    (read_json (path_sub scope_dir [RUN_FILENAME])).

(** The receipts of a candidate in order: each supersedes the one before it, and the
    active one is the last. *)
Fixpoint select_receipt (history : list json) (reference : AggregateApprovalReference)
    (prior : option string) : result (option ParentApprovalReceipt) string :=
  match history with
  | [] => Ok None
  | value :: history =>
      let? receipt := parse_receipt value in
      let? _ := ensure (String.eqb (candidate_key receipt) (ref_candidate_key reference)
                        && bool_decide (supersedes_receipt_id receipt = prior))
        "aggregate approval history has a broken scope or supersession link" in
      if String.eqb (receipt_id receipt) (ref_receipt_id reference) then
        match history with
        | [] => Ok (Some receipt)
        | _ => Err "aggregate approval receipt was superseded by a later decision"
        end
      else select_receipt history reference (Some (receipt_id receipt))
  end.

Definition candidate_pointer (key : string) : string :=
  "/integration/candidates/" ++ escape_json_pointer key.
Definition candidate_of (state : json) (key : string) : option (list (string * json)) :=
  v ← pointer (candidate_pointer key) state; as_object v.

Definition active_receipt (state : json) (reference : AggregateApprovalReference)
  : result ParentApprovalReceipt string :=
  let? candidate := option_context (candidate_of state (ref_candidate_key reference))
    "aggregate approval candidate is absent from its parent RunStore" in
  let? _ := ensure (bool_decide (ostr "active_aggregate_approval_id" candidate
                                 = Some (ref_receipt_id reference)))
    "aggregate approval reference is not the active parent decision" in
  let? history := option_context (v ← obj_get "aggregate_approval_receipts" candidate; as_array v)
    "aggregate approval history is missing or malformed" in
  let? _ := ensure (negb (Nat.eqb (length history) 0)) "aggregate approval history is empty" in
  let? selected := select_receipt history reference None in
  let? selected := option_context selected
    "active aggregate approval receipt is not retained in history" in
  let? _ := ensure (negb (legacy_identity selected))
    "legacy aggregate approval must be renewed from the accepted manifest" in
  Ok selected.

(** ** Scope *)

Definition validate_parent_scope (state : json) (reference : AggregateApprovalReference)
    (receipt : ParentApprovalReceipt) (caller_agent_id caller_branch : string) : result unit string :=
  let? run_id := string_at state "/run_id" in
  let? depth := option_context (v ← jget "depth" state; as_u64 v)
    "parent RunStore depth is missing or malformed" in
  let? expected_path_length :=
    option_context (if (depth <? u64_max)%Z then Some (depth + 1)%Z else None)
      "parent RunStore depth is outside the supported range" in
  let? controller_epoch := string_at state "/controller_epoch" in
  refuse_if
    [Ok (differs run_id (ref_parent_run_id reference));
     Ok (negb (expected_path_length =? Z.of_nat (length (ref_parent_scope_path reference)))%Z);
     Ok (differs controller_epoch (ref_controller_epoch reference));
     Ok (differs (parent_run_id receipt) (ref_parent_run_id reference));
     Ok (negb (bool_decide (parent_scope_path receipt = ref_parent_scope_path reference)));
     Ok (differs (candidate_key receipt) (ref_candidate_key reference));
     Ok (differs (parent_agent_id receipt) caller_agent_id);
     Ok (differs (parent_branch receipt) caller_branch);
     (let? owner := string_at state "/owner_branch" in Ok (differs owner (parent_branch receipt)))]
    "aggregate approval caller or parent scope does not match the current RunStore".

Definition validate_repository (state : json) (receipt : ParentApprovalReceipt) (current : string)
  : result unit string :=
  let? stored := option_context (pointer_str "/repository_identity/remote_url" state)
    "parent RunStore has no canonical repository identity" in
  ensure (String.eqb stored (repository_url receipt) && String.eqb current (repository_url receipt))
    "aggregate approval repository identity differs from current repository evidence".

Definition LEGACY : string := "legacy aggregate approval must be renewed from the accepted manifest".
Definition NO_MANIFEST : string := "parent RunStore has no accepted plan manifest".

Definition identity_matches (manifest : list (string * json)) (manifest_scope : string)
    (receipt : ParentApprovalReceipt) (caller_branch : string) (identity : AgentIdentity) : bool :=
  identity_ledger_owned identity
  && String.eqb (identity_branch identity) (parent_branch receipt)
  && String.eqb caller_branch (parent_branch receipt)
  && (if bool_decide (ostr "role" manifest = Some "root")
      then bool_decide (identity_slice_id identity = None)
      else bool_decide (identity_slice_id identity = Some manifest_scope)).

Definition validate_parent_identity (state : json) (receipt : ParentApprovalReceipt)
    (caller_agent_id caller_branch : string) : IO (result unit string) :=
  require (negb (str_is_empty caller_agent_id)) "aggregate approval caller identity is malformed"
  (do? identity <- expect (ask (ResolveAgent caller_agent_id))
                     "aggregate approval caller has no durable agent identity";
   Ret (let? manifest := option_context (jobject "plan_manifest" state) NO_MANIFEST in
        let? manifest_scope := string_value (obj_get "scope_id" manifest) "plan manifest scope" in
        let? receipt_parent_scope := option_context (parent_manifest_scope_id receipt) LEGACY in
        let? _ := ensure (String.eqb manifest_scope receipt_parent_scope)
          "aggregate approval parent manifest scope differs from the accepted plan" in
        ensure (identity_matches manifest manifest_scope receipt caller_branch identity)
          "aggregate approval caller is not the ledger-owned controller for this parent scope")).

(** ** The scopes from the root *)

Definition validate_scope_checkpoint_identity (checkpoint : json) (expected_run_id : string)
    (expected_depth : Z) (expected_repository : string) : result unit string :=
  ensure (bool_decide (jstr "run_id" checkpoint = Some expected_run_id)
          && bool_decide ((v ← jget "depth" checkpoint; as_u64 v) = Some expected_depth)
          && bool_decide (pointer_str "/repository_identity/remote_url" checkpoint
                          = Some expected_repository))
    "runtime parent path, depth, or repository differs from its checkpoint".

Definition validate_manifest_digest (manifest : list (string * json)) : result unit string :=
  let? stored := option_context (ostr "digest" manifest)
    "accepted scope manifest digest is missing" in
  ensure (valid_sha256 stored && String.eqb (manifest_digest manifest) stored)
    "accepted scope manifest digest is malformed or inconsistent".

Definition validate_root (checkpoint : json) (root_id repository : string) : result unit string :=
  let? _ := validate_scope_checkpoint_identity checkpoint root_id 0 repository in
  let? manifest := option_context (jobject "plan_manifest" checkpoint)
    "root scope has no accepted plan manifest" in
  let? _ := validate_manifest_digest manifest in
  ensure (bool_decide (ostr "scope_id" manifest = Some root_id)
          && match obj_get "parent_scope_id" manifest with None | Some JNull => true | Some _ => false end
          && bool_decide (ostr "role" manifest = Some "root"))
    "aggregate parent scope path does not begin at its accepted root manifest".

(** A node of a plan that declares a nested controller. *)
Definition is_sub_tl (name : string) (node : list (string * json)) : bool :=
  bool_decide (ostr "kind" node = Some "sub_tl") && bool_decide (ostr "name" node = Some name).

(** What the parent's accepted manifest declares of a child scope: its id, the parent
    scope and the digest of its manifest. *)
Record Declaration := { d_node_id : string; d_parent_scope : string; d_digest : string }.

Definition declared_child (checkpoint : json) (child_run_id : string) : result Declaration string :=
  let? parent := option_context (jobject "plan_manifest" checkpoint)
    "aggregate ancestor has no accepted plan manifest" in
  let? parent_scope := option_context (ostr "scope_id" parent)
    "aggregate ancestor manifest scope is missing" in
  let? _ := validate_manifest_digest parent in
  let? _ := ensure (bool_decide (ostr "owned_branch" parent = jstr "owner_branch" checkpoint))
    "aggregate ancestor branch differs from its accepted manifest" in
  let expected_node_id := parent_scope ++ "/sub_tl/" ++ child_run_id in
  let? node := option_context (find (is_sub_tl child_run_id) (node_objects parent))
    "aggregate runtime scope is not declared by its accepted parent" in
  let? _ := ensure (bool_decide (ostr "node_id" node = Some expected_node_id)
                    && bool_decide (ostr "parent_id" node = Some parent_scope))
    "aggregate ancestor declaration has conflicting canonical node identity" in
  let? child := option_context (items ← oobject "child_manifests" parent; oobject expected_node_id items)
    "accepted ancestor manifest lacks its declared child manifest" in
  let? digest := option_context (ostr "child_manifest_digest" node)
    "accepted ancestor declaration lacks its child manifest digest" in
  let indexed := items ← oobject "child_manifest_digests" parent; ostr expected_node_id items in
  let? _ := ensure (bool_decide (ostr "scope_id" child = Some expected_node_id)
                    && bool_decide (ostr "parent_scope_id" child = Some parent_scope)
                    && bool_decide (ostr "owned_branch" child = ostr "owned_branch" node)
                    && bool_decide (indexed = Some digest)
                    && String.eqb (manifest_digest child) digest
                    && bool_decide (ostr "digest" child = Some digest))
    "accepted ancestor child manifest does not match its exact declaration" in
  Ok {| d_node_id := expected_node_id; d_parent_scope := parent_scope; d_digest := digest |}.

(** The child's own checkpoint has the manifest its parent declared. *)
Definition bound_child (checkpoint : json) (child_run_id : string) (depth : Z) (repository : string)
    (d : Declaration) : result unit string :=
  let? _ := validate_scope_checkpoint_identity checkpoint child_run_id depth repository in
  let? manifest := option_context (jobject "plan_manifest" checkpoint)
    "nested parent checkpoint has no accepted plan manifest" in
  ensure (bool_decide (jstr "run_id" checkpoint = Some child_run_id)
          && bool_decide (ostr "scope_id" manifest = Some (d_node_id d))
          && bool_decide (ostr "parent_scope_id" manifest = Some (d_parent_scope d))
          && String.eqb (manifest_digest manifest) (d_digest d)
          && bool_decide (ostr "owned_branch" manifest = jstr "owner_branch" checkpoint))
    "nested parent checkpoint differs from its accepted ancestor binding".

(** The loop from the root: [visited] is the path so far, which ends with the scope of
    [checkpoint]; the last scope's checkpoint is the current state. *)
Fixpoint walk_scopes (current_state : json) (repository : string) (visited : list string)
    (parent_id : string) (checkpoint : json) (rest : list string) : IO (result unit string) :=
  match rest with
  | [] => Ret (Ok tt)
  | child :: rest =>
      let depth := Z.of_nat (length visited) in
      let child_prefix := (visited ++ [child])%list in
      do? _ <- lift (validate_scope_checkpoint_identity checkpoint parent_id (depth - 1) repository);
      do? d <- lift (declared_child checkpoint child);
      do? checkpoint <- match rest with
                        | [] => Ret (Ok current_state)
                        | _ => read_scope_checkpoint child_prefix
                        end;
      do? _ <- lift (bound_child checkpoint child depth repository d);
      walk_scopes current_state repository child_prefix child checkpoint rest
  end.

Definition current_binding (current_state : json) (receipt : ParentApprovalReceipt) : result unit string :=
  let? manifest := option_context (jobject "plan_manifest" current_state) NO_MANIFEST in
  let? scope := option_context (parent_manifest_scope_id receipt) LEGACY in
  ensure (bool_decide (ostr "scope_id" manifest = Some scope)
          && String.eqb (manifest_digest manifest) (plan_manifest_digest receipt))
    "parent manifest identity is not proven by the runtime scope ancestry".

Definition validate_parent_manifest_lineage (scope_path : list string) (current_state : json)
    (receipt : ParentApprovalReceipt) : IO (result unit string) :=
  match scope_path with
  | [] => Ret (Err "aggregate approval reference is incomplete or has inconsistent scope coordinates")
  | root_id :: rest =>
      do? checkpoint <- read_scope_checkpoint [root_id];
      do? _ <- lift (validate_root checkpoint root_id (repository_url receipt));
      do? _ <- walk_scopes current_state (repository_url receipt) [root_id] root_id checkpoint rest;
      Ret (current_binding current_state receipt)
  end.

(** ** The plan and the candidate *)

Definition aggregate_leaf_ids (child : list (string * json)) : list string :=
  omap (ostr "node_id") (List.filter (fun leaf => bool_decide (ostr "kind" leaf = Some "leaf"))
                           (node_objects child)).

Definition validate_child_manifest_binding (parent node : list (string * json))
    (receipt : ParentApprovalReceipt) : result unit string :=
  let? node_id := string_value (obj_get "node_id" node) "aggregate node ID" in
  let? _ := ensure (bool_decide ((digests ← oobject "child_manifest_digests" parent; ostr node_id digests)
                                 = Some (ApprovalReceipt.child_manifest_digest receipt)))
    "aggregate child digest is not indexed by the accepted parent manifest" in
  let? child := option_context (manifests ← oobject "child_manifests" parent; oobject node_id manifests)
    "accepted parent manifest is missing the child declaration" in
  let? child_scope := option_context (child_manifest_scope_id receipt)
    "legacy aggregate approval has no canonical child scope identity" in
  let? parent_scope := option_context (parent_manifest_scope_id receipt)
    "legacy aggregate approval has no canonical parent scope identity" in
  let? _ := refuse_if
    [value_differs (obj_get "scope_id" child) "child manifest scope" child_scope;
     value_differs (obj_get "parent_scope_id" child) "child parent scope" parent_scope;
     (let? branch := string_value (obj_get "owned_branch" child) "child manifest branch" in
      value_differs (obj_get "owned_branch" node) "aggregate head branch" branch);
     Ok (differs (manifest_digest child) (ApprovalReceipt.child_manifest_digest receipt))]
    "aggregate child manifest is inconsistent with its accepted parent binding" in
  ensure (forallb (fun leaf => existsb (String.eqb leaf) (aggregate_leaf_ids child))
            (reviewed_leaf_ids receipt))
    "aggregate approval cites a leaf outside the accepted child manifest".

(** [integration_contract]: the parent approves, a pull request is required, and nobody
    else reviews. *)
Definition check_contract (contract : list (string * json)) : result unit string :=
  let? _ := ensure (match obj_get "aggregate_approval_mode" contract with
                    | None => true
                    | Some mode => bool_decide (as_str mode = Some "parent")
                    end)
    "accepted plan does not authorize parent aggregate approval mode" in
  let? required := match obj_get "aggregate_pr_required" contract with
                   | None => Ok true
                   | Some (JBool required) => Ok required
                   | Some _ => Err "accepted aggregate PR policy is malformed"
                   end in
  ensure (required && match obj_get "aggregate_review_owner" contract with
                      | None => true
                      | Some owner => bool_decide (as_str owner = Some "none")
                      end)
    "accepted plan does not authorize parent approval for this aggregate".

Definition policy_value (receipt : ParentApprovalReceipt) (child_digest : string)
    (contract : list (string * json)) : json :=
  jobj [("approval_mode", JStr "parent");
        ("parent_manifest_digest", JStr (plan_manifest_digest receipt));
        ("parent_manifest_revision", JNum (plan_manifest_revision receipt));
        ("child_manifest_digest", JStr child_digest);
        ("integration_contract", JObj contract)].

(** The candidate has the evidence of the receipt. *)
Definition candidate_differs (candidate : list (string * json)) (receipt : ParentApprovalReceipt)
    (pr : Z) (child_run_id head_branch : string) : list (result bool string) :=
  [Ok (negb (existsb (String.eqb (default "" (ostr "lifecycle" candidate))) ACTIVE_MERGE_LIFECYCLES));
   (let? n := number_field candidate "aggregate_pr_number" in Ok (negb (n =? pr_number receipt)%Z));
   Ok (negb (pr_number receipt =? pr)%Z);
   value_differs (obj_get "aggregate_head_sha" candidate) "aggregate head SHA" (head_sha receipt);
   value_differs (obj_get "head_sha" candidate) "validated head SHA" (head_sha receipt);
   value_differs (obj_get "aggregate_patch_digest" candidate) "aggregate patch digest" (patch_digest receipt);
   value_differs (obj_get "patch_digest" candidate) "validated patch digest" (patch_digest receipt);
   value_differs (obj_get "validated_base_sha" candidate) "validated base SHA" (base_sha receipt);
   value_differs (obj_get "merge_tree_sha" candidate) "validated merge tree" (merge_tree_sha receipt);
   value_differs (obj_get "ci_status" candidate) "validated CI status" (ApprovalReceipt.ci_status receipt);
   value_differs (obj_get "integration_owner_run_id" candidate) "aggregate owner run" child_run_id;
   value_differs (obj_get "integration_owner_branch" candidate) "aggregate owner branch" head_branch].

Definition validate_plan_and_candidate (state : json) (receipt : ParentApprovalReceipt) (pr : Z)
  : result (string * string) string :=
  let? parent_scope := option_context (parent_manifest_scope_id receipt) LEGACY in
  let? child_run := option_context (child_run_id receipt)
    "legacy aggregate approval has no canonical child run identity" in
  let? child_node := option_context (child_manifest_node_id receipt)
    "legacy aggregate approval has no canonical child node identity" in
  let? manifest := option_context (jobject "plan_manifest" state) NO_MANIFEST in
  let? stored := string_value (obj_get "digest" manifest) "plan manifest digest" in
  let? _ := refuse_if
    [Ok (negb (valid_sha256 stored)); Ok (differs (manifest_digest manifest) stored);
     Ok (differs stored (plan_manifest_digest receipt));
     Ok (negb (bool_decide (field_u64 manifest "manifest_revision" = Some (plan_manifest_revision receipt))));
     value_differs (obj_get "scope_id" manifest) "plan manifest scope" parent_scope]
    "aggregate approval does not match the accepted plan manifest revision" in
  let? role := string_value (obj_get "role" manifest) "plan manifest role" in
  let? _ := refuse_if
    [Ok (negb (String.eqb role "root" || String.eqb role "non_root"));
     value_differs (obj_get "owned_branch" manifest) "parent manifest branch" (parent_branch receipt)]
    "aggregate approval parent role or branch differs from the accepted manifest" in
  let? nodes := option_context (v ← obj_get "nodes" manifest; as_array v)
    "accepted plan manifest has no node declarations" in
  let? node := option_context (find (is_sub_tl child_run) (omap as_object nodes))
    "aggregate approval child is not a declared sub-TL" in
  let? _ := refuse_if
    [Ok (differs (candidate_key receipt) child_run);
     value_differs (obj_get "node_id" node) "aggregate manifest node ID" child_node;
     Ok (differs child_node (parent_scope ++ "/sub_tl/" ++ child_run));
     value_differs (obj_get "parent_id" node) "aggregate manifest parent ID" parent_scope]
    "aggregate candidate key and canonical manifest declaration do not agree" in
  let? contract := option_context (oobject "integration_contract" node)
    "aggregate plan node has no integration contract" in
  let? _ := check_contract contract in
  let? head_branch := string_value (obj_get "owned_branch" node) "aggregate head branch" in
  let? child_digest := string_value (obj_get "child_manifest_digest" node) "child manifest digest" in
  let? _ := ensure (String.eqb child_digest (ApprovalReceipt.child_manifest_digest receipt))
    "aggregate approval child manifest differs from the accepted plan binding" in
  let? _ := validate_child_manifest_binding manifest node receipt in
  let? _ := ensure (String.eqb (canonical_digest (policy_value receipt child_digest contract))
                      (approval_policy_digest receipt))
    "aggregate approval policy digest differs from the accepted plan policy" in
  let? candidate := option_context (candidate_of state (candidate_key receipt))
    "aggregate approval candidate is missing from the parent RunStore" in
  let? _ := refuse_if (candidate_differs candidate receipt pr child_run head_branch)
    "aggregate approval evidence differs from the active integration candidate" in
  let? worktree := string_value (obj_get "integration_owner_worktree" candidate)
    "aggregate owner worktree" in
  Ok (head_branch, worktree).

(** ** The owner's worktree *)

Definition resolve_aggregate_worktree (recorded_path : string) : IO (result PathBuf string) :=
  do? root <- expect (ask (Canonicalize project_dir)) "aggregate project workspace is unavailable";
  let recorded := parse_path recorded_path in
  require (negb (str_is_empty recorded_path || existsb (String.eqb "..") (pb_components recorded)))
    "aggregate owner worktree path is empty or escapes its workspace"
  (do? canonical <- expect (ask (Canonicalize (path_join root recorded)))
                      "aggregate owner worktree is unavailable";
   require (path_starts_with canonical root) "aggregate owner worktree is outside its declared workspace"
   (do is_dir <- ask (IsDir canonical);
    require is_dir "aggregate owner worktree is outside its declared workspace" (Ret (Ok canonical)))).

(** ** The approval *)

Record VerifiedParentApproval := {
  va_reference : AggregateApprovalReference;
  va_receipt_id : string;
  va_repository_url : string;
  va_aggregate_worktree : PathBuf;
  va_parent_branch : string;
  va_head_branch : string;
  va_pr_number : Z;
  va_head_sha : string;
  va_head_tree_sha : string;
  va_base_sha : string;
  va_patch_digest : string;
  va_merge_tree_sha : string;
  va_ci_status : string;
  va_lineage_proof_digest : string;
  va_lineage_commit_shas : list string
}.

Definition verified_approval (reference : AggregateApprovalReference) (receipt : ParentApprovalReceipt)
    (head_branch : string) (worktree : PathBuf) : VerifiedParentApproval := {|
  va_reference := reference;
  va_receipt_id := receipt_id receipt;
  va_repository_url := repository_url receipt;
  va_aggregate_worktree := worktree;
  va_parent_branch := parent_branch receipt;
  va_head_branch := head_branch;
  va_pr_number := ApprovalReceipt.pr_number receipt;
  va_head_sha := ApprovalReceipt.head_sha receipt;
  va_head_tree_sha := head_tree_sha receipt;
  va_base_sha := ApprovalReceipt.base_sha receipt;
  va_patch_digest := patch_digest receipt;
  va_merge_tree_sha := merge_tree_sha receipt;
  va_ci_status := ApprovalReceipt.ci_status receipt;
  va_lineage_proof_digest := lineage_proof_digest receipt;
  va_lineage_commit_shas := lineage_commit_shas receipt |}.

Definition validate_parent_approval (reference : AggregateApprovalReference) (pr : Z)
    (current_repository_url caller_agent_id caller_branch : string)
  : IO (result VerifiedParentApproval string) :=
  do? scope_path <- lift (validate_reference reference);
  do? state <- read_scope_checkpoint scope_path;
  do? receipt <- lift (active_receipt state reference);
  do? _ <- lift (validate_parent_scope state reference receipt caller_agent_id caller_branch);
  do? _ <- validate_parent_manifest_lineage scope_path state receipt;
  do? _ <- lift (validate_repository state receipt current_repository_url);
  do? _ <- validate_parent_identity state receipt caller_agent_id caller_branch;
  do? plan <- lift (validate_plan_and_candidate state receipt pr);
  do? worktree <- resolve_aggregate_worktree plan.2;
  Ret (Ok (verified_approval reference receipt plan.1 worktree)).

Definition compare_field (name supplied accepted : string) : result unit string :=
  ensure (negb (is_blank supplied || differs supplied accepted))
    ("aggregate approval request " ++ name ++ " does not match its durable receipt").
Definition validate_request_compare (approval : option VerifiedParentApproval)
    (expected_base expected_head expected_patch expected_merge_tree : string) : result unit string :=
  match approval with
  | None => Ok tt
  | Some a =>
      let? _ := compare_field "base" expected_base (va_base_sha a) in
      let? _ := compare_field "head" expected_head (va_head_sha a) in
      let? _ := compare_field "patch digest" expected_patch (va_patch_digest a) in
      compare_field "merge tree" expected_merge_tree (va_merge_tree_sha a)
  end.

(** ** Pull requests that need an approval *)

Definition aggregate_nodes (manifest : list (string * json)) : list string :=
  omap (ostr "name") (List.filter (fun node => bool_decide (ostr "kind" node = Some "sub_tl"))
                        (node_objects manifest)).
(** The checkpoint declares the pull request the aggregate of a nested scope. *)
Definition declares_aggregate (checkpoint : json) (pr : Z) (current_repository_url : string) : bool :=
  match jobject "plan_manifest" checkpoint with
  | None => false
  | Some manifest =>
      let repository := pointer_str "/repository_identity/remote_url" checkpoint in
      let candidates := default [] (v ← pointer "/integration/candidates" checkpoint; as_object v) in
      existsb (fun kv =>
          existsb (String.eqb kv.1) (aggregate_nodes manifest)
          && bool_decide ((v ← jget "aggregate_pr_number" kv.2; as_u64 v) = Some pr)
          && match repository with None => true | Some url => String.eqb url current_repository_url end)
        candidates
  end.

Definition needs_reference (pr : Z) : string :=
  "aggregate PR #" ++ pretty pr ++ " requires its active parent-approval receipt reference".
Definition inspect_unreferenced_candidate (checkpoint_path : PathBuf) (pr : Z)
    (current_repository_url : string) : IO (result unit string) :=
  do present <- ask (PathExists checkpoint_path);
  if negb present then Ret (Ok tt)
  else
    do? checkpoint <- read_json checkpoint_path;
    Ret (ensure (negb (declares_aggregate checkpoint pr current_repository_url)) (needs_reference pr)).

Definition MAX_SCAN_DEPTH : nat := 32.
Definition MAX_SCAN_VISITS : Z := 20000.

(** The loop over the entries; the new directories in order. *)
Fixpoint scan_entries (entries : list ScanEntry) (depth : nat) : result (list (PathBuf * nat)) string :=
  match entries with
  | [] => Ok []
  | EntryFailed :: _ | Entry _ None :: _ => Err "could not read an entry of a TL scope directory"
  | Entry path (Some is_dir) :: entries =>
      let? found := scan_entries entries depth in
      Ok (if is_dir then (path, S depth) :: found else found)
  end.

(** The stack of directories, its top first; the bound on the visits ends it. *)
Fixpoint scan_scopes (fuel : nat) (pending : list (PathBuf * nat)) (visited : Z) (pr : Z)
    (current_repository_url : string) : IO (result unit string) :=
  match fuel with
  | O => Ret (Err "out of fuel")
  | S fuel =>
      match pending with
      | [] => Ret (Ok tt)
      | (directory, depth) :: pending =>
          require (negb ((MAX_SCAN_DEPTH <? depth)%nat || (MAX_SCAN_VISITS <? visited)%Z))
            "could not classify merge: TL scope scan exceeded its safety bound"
          (do? _ <- inspect_unreferenced_candidate (path_sub directory [RUN_FILENAME]) pr
                      current_repository_url;
           do? entries <- expect (ask (ReadDir directory))
                            ("could not inspect TL scope directory " ++ display directory);
           do? found <- lift (scan_entries entries depth);
           scan_scopes fuel (rev found ++ pending)%list (visited + 1) pr current_repository_url)
      end
  end.
Definition SCAN_FUEL : nat := Z.to_nat (MAX_SCAN_VISITS + 3).

Definition reject_unreferenced_aggregate (pr : Z) (current_repository_url : string)
  : IO (result unit string) :=
  do present <- ask (PathExists loop_root);
  if negb present then Ret (Ok tt)
  else scan_scopes SCAN_FUEL [(loop_root, 0)] 0 pr current_repository_url.
End approval.
