(* ===== verification/ApprovalSpec.v ===== *)
(** * What an approval proves

    A reference that is accepted names the last receipt of its candidate, whose id is
    the digest of its content and whose evidence is the candidate's; the caller is the
    controller of the scope; the scope descends from the root by accepted manifests.
    A merge without a reference has looked into every checkpoint of the TL state. *)

From stdpp Require Import pretty.
From S2P Require Import Prelude RustStr Paths JsonValue Effects Publication ReviewTypes Lineage.
From S2P Require Import ApprovalReceipt Approval.
Local Open Scope string_scope.
Local Open Scope prog_scope.

Implicit Types t : list (event reply).

(** ** Checks that passed *)

Lemma option_context_ok {A E} (o : option A) (e : E) a : option_context o e = Ok a -> o = Some a.
Proof. by destruct o as [x|]; [intros [= ->]|]. Qed.

(** One [let?] of a check that passed. *)
Ltac let_step :=
  match goal with
  | H : match ?c with Ok _ => _ | Err _ => _ end = Ok _ |- _ => destruct c as [?|?] eqn:?; [|discriminate H]
  | H : ensure _ _ = Ok _ |- _ => apply ensure_Ok in H
  | H : option_context _ _ = Ok _ |- _ => apply option_context_ok in H
  | H : Ok _ = Ok _ |- _ => injection H as H; subst
  | u : unit |- _ => destruct u
  end.

Lemma any_of_false l : any_of l = Ok false -> Forall (fun r => r = Ok false) l.
Proof. induction l as [|[[]|e] l IH]; cbn; try done. intros H. constructor; [done|by apply IH]. Qed.
Lemma refuse_if_ok l e u : refuse_if l e = Ok u -> Forall (fun r => r = Ok false) l.
Proof.
  unfold refuse_if. destruct (any_of l) as [b|] eqn:E; [|done]. intros H%ensure_Ok.
  apply any_of_false. by destruct b.
Qed.
Lemma differs_false a b : Ok (A := bool) (E := string) (differs a b) = Ok false -> a = b.
Proof. unfold differs. by destruct (String.eqb_spec a b). Qed.
Lemma negb_decide_false (b : bool) : Ok (A := bool) (E := string) (negb b) = Ok false -> b = true.
Proof. by destruct b. Qed.

Lemma string_value_ok o n s : string_value o n = Ok s -> o = Some (JStr s) /\ is_blank s = false.
Proof.
  unfold string_value, non_blank_text. intros H. repeat let_step.
  destruct o as [[| | |x| |]|]; try done. cbn in H. destruct (is_blank x) eqn:E; [done|]. by injection H as ->.
Qed.
Lemma value_differs_false o n s : value_differs o n s = Ok false -> o = Some (JStr s).
Proof.
  unfold value_differs. destruct (string_value o n) as [x|] eqn:E; [|done]. intros ->%differs_false.
  by apply string_value_ok in E as [? _].
Qed.
Lemma string_at_ok v p s : string_at v p = Ok s -> pointer p v = Some (JStr s).
Proof. intros H. by apply (string_value_ok (pointer p v) p) in H as [? _]. Qed.

(** Every condition of a [refuse_if]. *)
Ltac conditions H :=
  apply refuse_if_ok in H; repeat (apply Forall_cons in H as [?C H]); clear H;
  repeat match goal with
  | C : Ok (differs _ _) = Ok false |- _ => apply differs_false in C
  | C : Ok (negb _) = Ok false |- _ => apply negb_decide_false in C
  | C : value_differs _ _ _ = Ok false |- _ => apply value_differs_false in C
  end.

Section specs.
Context `{SHA : Sha256} `{TEXT : JsonText} (project_dir : PathBuf).

(** ** Receipts *)

Lemma receipt_of_object_id m legacy r :
  receipt_of_object m legacy = Some r -> field_str m "receipt_id" = Some (receipt_id r).
Proof.
  unfold receipt_of_object. intros (id & -> & E)%bind_Some.
  repeat (apply bind_Some in E as (? & _ & E)). by injection E as <-.
Qed.

Lemma check_all_ok ok error l u : check_all ok error l = Ok u -> Forall (fun nv => ok nv.2 = true) l.
Proof.
  unfold check_all. destruct u. generalize tt at 1. induction l as [|nv l IH]; intros v H; [constructor|].
  cbn [try_fold] in H. destruct (ensure _ _) as [u|] eqn:E; [|done]. apply ensure_Ok in E.
  constructor; [done|by eapply IH].
Qed.

Lemma normalized_id object legacy normalized :
  (if legacy : bool
   then let? scope := option_context (field_str object "child_scope_id")
                        "legacy aggregate approval child scope is malformed" in
        Ok (obj_insert "candidate_key" (JStr scope) object)
   else Ok object) = Ok normalized ->
  field_str normalized "receipt_id" = field_str object "receipt_id".
Proof.
  destruct legacy; [|by intros [= ->]]. destruct (field_str object "child_scope_id") as [scope|]; [|done].
  cbn [option_context]. intros [= <-]. unfold field_str. by rewrite obj_get_insert.
Qed.

Lemma parse_receipt_ok value receipt :
  parse_receipt value = Ok receipt ->
  canonical_receipt_id value = Ok (receipt_id receipt)
  /\ violates_contract receipt = false
  /\ Forall (fun nv => valid_git_sha nv.2 = true) (shas_of receipt)
  /\ Forall (fun nv => valid_sha256 nv.2 = true) (digests_of receipt).
Proof.
  unfold parse_receipt. destruct (as_object value) as [object|] eqn:Eo; [|done]. cbn [option_context].
  destruct (ensure _ _) as [?|]; [|done].
  match goal with |- match ?c with _ => _ end = _ -> _ => destruct c as [normalized|] eqn:En; [|done] end.
  destruct (receipt_of_object normalized _) as [r|] eqn:Er; [|done]. cbn [option_context].
  destruct (validate_receipt r value) as [?|] eqn:Ev; [|done]. intros [= <-].
  apply receipt_of_object_id in Er. apply normalized_id in En. unfold validate_receipt in Ev.
  repeat let_step. bools. split; [|split; [done|split; by eapply check_all_ok]].
  rewrite Eo in *. cbn [mbind option_bind] in *. congruence.
Qed.

(** The supersession links of a history up to the receipt that is taken. *)
Lemma select_receipt_ok history reference prior receipt :
  select_receipt history reference prior = Ok (Some receipt) ->
  receipt_id receipt = ref_receipt_id reference /\ candidate_key receipt = ref_candidate_key reference
  /\ (exists value, last history = Some value /\ parse_receipt value = Ok receipt)
  /\ exists receipts, mapM (fun v => result_to_option (parse_receipt v)) history = Some receipts
       /\ map supersedes_receipt_id receipts
          = (prior :: map (fun r => Some (receipt_id r)) (removelast receipts))%list.
Proof.
  revert prior. induction history as [|value history IH]; intros prior; [done|]. cbn [select_receipt].
  destruct (parse_receipt value) as [r|] eqn:Ep; [|done].
  destruct (ensure _ _) as [[]|] eqn:Ee; [|done]. apply ensure_Ok in Ee. bools.
  destruct (String.eqb_spec (receipt_id r) (ref_receipt_id reference)) as [Ei|Ei].
  - destruct history as [|v h]; [|done]. intros [= <-]. split; [done|]. split; [done|].
    split; [by exists value|]. exists [r]. cbn. by rewrite Ep.
  - intros Hr. apply IH in Hr as (? & ? & (v & Hl & Hv) & rs & Hm & Hs). split; [done|]. split; [done|].
    split; [exists v; split; [|done]; by destruct history|].
    exists (r :: rs). cbn. rewrite Ep. cbn. rewrite Hm. split; [done|].
    destruct rs as [|r' rs]; [done|]. cbn in Hs |- *. by rewrite Hs.
Qed.

(** ** Descent from the root *)

(** What a checkpoint says of itself. *)
Definition identified (cp : json) (run_id : string) (depth : Z) (repository : string) : Prop :=
  jstr "run_id" cp = Some run_id
  /\ (v ← jget "depth" cp; as_u64 v) = Some depth
  /\ pointer_str "/repository_identity/remote_url" cp = Some repository.

(** The manifest of a root: it carries its own digest and has no parent. *)
Definition is_root (cp : json) (run_id repository : string) : Prop :=
  identified cp run_id 0 repository
  /\ exists manifest,
       jobject "plan_manifest" cp = Some manifest
       /\ ostr "digest" manifest = Some (manifest_digest manifest)
       /\ ostr "scope_id" manifest = Some run_id /\ ostr "role" manifest = Some "root"
       /\ (obj_get "parent_scope_id" manifest = None \/ obj_get "parent_scope_id" manifest = Some JNull).

(** The accepted manifest [parent] of [cp] declares the child as a nested controller and
    contains the child's manifest under its digest. *)
Definition declares (cp : json) (child scope digest : string) : Prop :=
  exists parent node content,
    let id := scope ++ "/sub_tl/" ++ child in
    jobject "plan_manifest" cp = Some parent /\ ostr "scope_id" parent = Some scope
    /\ ostr "digest" parent = Some (manifest_digest parent)
    /\ ostr "owned_branch" parent = jstr "owner_branch" cp
    /\ In node (node_objects parent) /\ ostr "kind" node = Some "sub_tl" /\ ostr "name" node = Some child
    /\ ostr "node_id" node = Some id /\ ostr "parent_id" node = Some scope
    /\ ostr "child_manifest_digest" node = Some digest
    /\ (digests ← oobject "child_manifest_digests" parent; ostr id digests) = Some digest
    /\ (contents ← oobject "child_manifests" parent; oobject id contents) = Some content
    /\ manifest_digest content = digest /\ ostr "digest" content = Some digest
    /\ ostr "scope_id" content = Some id /\ ostr "parent_scope_id" content = Some scope
    /\ ostr "owned_branch" content = ostr "owned_branch" node.

(** The checkpoint of the child has a manifest with that digest, for that scope. *)
Definition bound_to (cp : json) (child scope digest : string) : Prop :=
  exists manifest,
    jobject "plan_manifest" cp = Some manifest /\ manifest_digest manifest = digest
    /\ ostr "scope_id" manifest = Some (scope ++ "/sub_tl/" ++ child)
    /\ ostr "parent_scope_id" manifest = Some scope
    /\ ostr "owned_branch" manifest = jstr "owner_branch" cp.

(** From the checkpoint of the scope [visited] ends with, down to the last one, each
    scope is declared by the accepted manifest of the one above and has that manifest. *)
Inductive descends (repository : string) : list string -> json -> list string -> json -> Prop :=
| descends_here visited cp : descends repository visited cp [] cp
| descends_child visited cp child cp' rest bottom scope digest :
    declares cp child scope digest ->
    identified cp' child (Z.of_nat (length visited)) repository ->
    bound_to cp' child scope digest ->
    descends repository (visited ++ [child]) cp' rest bottom ->
    descends repository visited cp (child :: rest) bottom.

Lemma identity_ok cp run_id depth repository u :
  validate_scope_checkpoint_identity cp run_id depth repository = Ok u -> identified cp run_id depth repository.
Proof. unfold validate_scope_checkpoint_identity. intros H. repeat let_step. bools. by split. Qed.
Lemma manifest_digest_ok manifest u :
  validate_manifest_digest manifest = Ok u -> ostr "digest" manifest = Some (manifest_digest manifest).
Proof. unfold validate_manifest_digest. intros H. repeat let_step. bools. congruence. Qed.

Lemma validate_root_ok cp root_id repository u :
  validate_root cp root_id repository = Ok u -> is_root cp root_id repository.
Proof.
  unfold validate_root. intros H. repeat let_step. bools.
  match goal with H : validate_scope_checkpoint_identity _ _ _ _ = Ok _ |- _ => apply identity_ok in H end.
  match goal with H : validate_manifest_digest _ = Ok _ |- _ => apply manifest_digest_ok in H end.
  split; [done|]. eexists. split_and!; try done.
  destruct (obj_get "parent_scope_id" _) as [[]|]; try done; [by right|by left].
Qed.

Lemma declared_child_ok cp child d :
  declared_child cp child = Ok d ->
  declares cp child (d_parent_scope d) (d_digest d)
  /\ d_node_id d = d_parent_scope d ++ "/sub_tl/" ++ child.
Proof.
  unfold declared_child. intros H. repeat let_step. bools.
  match goal with H : validate_manifest_digest _ = Ok _ |- _ => apply manifest_digest_ok in H end.
  match goal with H : find _ _ = Some _ |- _ => apply find_some in H as [Hin Hk] end.
  unfold is_sub_tl in Hk. bools. split; [|done]. cbn [d_parent_scope d_digest].
  eexists _, _, _. cbv zeta. by split_and!.
Qed.

Lemma bound_child_ok cp child depth repository d u :
  d_node_id d = d_parent_scope d ++ "/sub_tl/" ++ child ->
  bound_child cp child depth repository d = Ok u ->
  identified cp child depth repository /\ bound_to cp child (d_parent_scope d) (d_digest d).
Proof.
  intros Ei. unfold bound_child. rewrite Ei. intros H. repeat let_step. bools.
  match goal with H : validate_scope_checkpoint_identity _ _ _ _ = Ok _ |- _ => apply identity_ok in H end.
  split; [done|]. eexists. by split_and!.
Qed.

Lemma walk_scopes_descends state repository visited id cp rest t :
  runs (walk_scopes project_dir state repository visited id cp rest) t (Ok tt) ->
  exists bottom, descends repository visited cp rest bottom /\ (rest <> [] -> bottom = state).
Proof.
  revert visited id cp t. induction rest as [|child rest IH]; intros visited id cp t R; cbn [walk_scopes] in R.
  { exists cp. split; [constructor|done]. }
  apply runs_bind_ok_inv in R as (t1 & [?|?] & t2 & -> & _ & R); [|by destruct R].
  apply runs_bind_ok_inv in R as (t3 & [d|?] & t4 & -> & [-> Ed]%runs_lift & R); [|by destruct R].
  apply runs_bind_ok_inv in R as (t5 & [cp'|?] & t6 & -> & R5 & R); [|by destruct R].
  apply runs_bind_ok_inv in R as (t7 & [[]|?] & t8 & -> & [-> Eb]%runs_lift & R); [|by destruct R].
  apply declared_child_ok in Ed as [Ed En]. apply (bound_child_ok _ _ _ _ _ _ En) in Eb as [Ei Eb].
  apply IH in R as (bottom & Hd & Hb). exists bottom.
  split; [by econstructor|]. intros _. destruct rest as [|child' rest]; [|by apply Hb].
  inversion Hd; subst. apply runs_ret in R5 as [_ E]. by injection E.
Qed.

(** C10. The scope of an accepted approval descends from its root: the checkpoint of the
    root has a root manifest, and every scope below, down to the approving one, is a
    nested controller of the accepted manifest above it, which contains the child's
    manifest under its digest, and is bound to its own checkpoint; the digests are
    those of the manifests, and the approving scope's manifest is the receipt's. *)
Theorem approval_descends_from_root scope_path state receipt t :
  runs (validate_parent_manifest_lineage project_dir scope_path state receipt) t (Ok tt) ->
  exists root_id rest root bottom manifest,
    scope_path = root_id :: rest
    /\ performed t (read_scope_checkpoint project_dir [root_id]) (Ok root)
    /\ is_root root root_id (repository_url receipt)
    /\ descends (repository_url receipt) [root_id] root rest bottom
    /\ (rest <> [] -> bottom = state)
    /\ jobject "plan_manifest" state = Some manifest
    /\ manifest_digest manifest = plan_manifest_digest receipt
    /\ ostr "scope_id" manifest = parent_manifest_scope_id receipt.
Proof.
  unfold validate_parent_manifest_lineage. destruct scope_path as [|root_id rest]; [by intros [_ ?]%runs_ret|].
  intros R. apply runs_bind_ok_inv in R as (t1 & [root|?] & t2 & -> & R1 & R); [|by destruct R].
  apply runs_bind_ok_inv in R as (t3 & [[]|?] & t4 & -> & [-> Er]%runs_lift & R); [|by destruct R].
  apply runs_bind_ok_inv in R as (t5 & [[]|?] & t6 & -> & R5 & R); [|by destruct R].
  apply walk_scopes_descends in R5 as (bottom & Hd & Hb). apply runs_ret in R as [-> E].
  apply validate_root_ok in Er.
  unfold current_binding in E. repeat let_step. bools.
  match goal with M : jobject _ _ = Some ?m |- _ => exists root_id, rest, root, bottom, m end.
  split_and!; try done; [by eauto with seen|congruence].
Qed.

(** ** The candidate *)

(** The active candidate of the checkpoint has the evidence of the receipt. *)
Definition candidate_evidence (state : json) (receipt : ParentApprovalReceipt) (n : Z) (head_branch : string)
  : Prop :=
  exists candidate,
    candidate_of state (candidate_key receipt) = Some candidate
    /\ (exists lifecycle, In lifecycle ACTIVE_MERGE_LIFECYCLES /\ ostr "lifecycle" candidate = Some lifecycle)
    /\ field_u64 candidate "aggregate_pr_number" = Some n
    /\ Forall (fun kv => obj_get kv.1 candidate = Some (JStr kv.2))
        [("aggregate_head_sha", ApprovalReceipt.head_sha receipt); ("head_sha", ApprovalReceipt.head_sha receipt);
         ("aggregate_patch_digest", patch_digest receipt); ("patch_digest", patch_digest receipt);
         ("validated_base_sha", ApprovalReceipt.base_sha receipt);
         ("merge_tree_sha", merge_tree_sha receipt); ("ci_status", ApprovalReceipt.ci_status receipt);
         ("integration_owner_run_id", candidate_key receipt); ("integration_owner_branch", head_branch)].

Lemma lifecycle_active o :
  existsb (String.eqb (default "" o)) ACTIVE_MERGE_LIFECYCLES = true ->
  exists lifecycle, In lifecycle ACTIVE_MERGE_LIFECYCLES /\ o = Some lifecycle.
Proof.
  intros (l & Hl & E%String.eqb_eq)%existsb_exists. exists l. split; [done|].
  destruct o as [s|]; cbn in E; subst; [done|]. by destruct Hl as [E|[E|[]]].
Qed.

Lemma candidate_differs_ok state candidate receipt n head_branch e u :
  candidate_of state (candidate_key receipt) = Some candidate ->
  refuse_if (candidate_differs candidate receipt n (candidate_key receipt) head_branch) e = Ok u ->
  n = ApprovalReceipt.pr_number receipt /\ candidate_evidence state receipt n head_branch.
Proof.
  intros Hc H. unfold candidate_differs in H. conditions H.
  match goal with C : existsb _ _ = true |- _ => apply lifecycle_active in C end.
  match goal with C : match number_field _ _ with _ => _ end = _ |- _ =>
    destruct (number_field _ _) as [m|] eqn:Em; [|discriminate C]; apply negb_decide_false in C end.
  unfold number_field in Em. apply option_context_ok in Em.
  repeat match goal with C : (_ =? _)%Z = true |- _ => apply Z.eqb_eq in C end. subst m n.
  split; [done|]. exists candidate. split; [done|]. split; [done|]. split; [done|]. by repeat constructor.
Qed.

Lemma plan_and_candidate_ok state receipt n head_branch worktree :
  validate_plan_and_candidate state receipt n = Ok (head_branch, worktree) ->
  n = ApprovalReceipt.pr_number receipt /\ candidate_evidence state receipt n head_branch
  /\ exists manifest node contract,
       jobject "plan_manifest" state = Some manifest
       /\ manifest_digest manifest = plan_manifest_digest receipt
       /\ In node (node_objects manifest) /\ is_sub_tl (candidate_key receipt) node = true
       /\ ostr "owned_branch" node = Some head_branch
       /\ oobject "integration_contract" node = Some contract /\ check_contract contract = Ok tt
       /\ canonical_digest (policy_value receipt (ApprovalReceipt.child_manifest_digest receipt) contract)
          = approval_policy_digest receipt.
Proof.
  unfold validate_plan_and_candidate. intros Hv. repeat let_step.
  match goal with C : refuse_if (candidate_differs _ _ _ _ _) _ = _ |- _ => rename C into Cc end.
  match goal with C : refuse_if [Ok (differs (candidate_key _) _); _; _; _] _ = _ |- _ => conditions C end.
  subst. eapply candidate_differs_ok in Cc as [En Hc]; [|done]. split; [done|]. split; [done|].
  match goal with C : refuse_if [Ok (negb (valid_sha256 _)); _; _; _; _] _ = _ |- _ => conditions C end. subst.
  match goal with F : find _ _ = Some _ |- _ => apply find_some in F as [Fi Fs] end.
  repeat match goal with S : string_value _ _ = Ok _ |- _ => apply string_value_ok in S as [S _] end. bools.
  eexists _, _, _. split; [done|]. split; [congruence|]. split; [|split; [exact Fs|]].
  - unfold node_objects. by match goal with N : _ ≫= _ = Some ?l |- _ => rewrite N end.
  - split; [|split; [done|split; [done|congruence]]]. unfold ostr.
    by match goal with S : obj_get "owned_branch" _ = _ |- _ => rewrite S end.
Qed.

Lemma active_receipt_ok state reference receipt :
  active_receipt state reference = Ok receipt ->
  receipt_id receipt = ref_receipt_id reference /\ candidate_key receipt = ref_candidate_key reference
  /\ exists candidate history value,
       candidate_of state (candidate_key receipt) = Some candidate
       /\ ostr "active_aggregate_approval_id" candidate = Some (receipt_id receipt)
       /\ obj_get "aggregate_approval_receipts" candidate = Some (JArr history)
       /\ last history = Some value /\ parse_receipt value = Ok receipt.
Proof.
  unfold active_receipt. intros Ha. repeat let_step. bools.
  match goal with S : select_receipt _ _ _ = _ |- _ =>
    apply select_receipt_ok in S as (Ei & Ek & (value & Hl & Hp) & _) end.
  split; [done|]. split; [done|]. rewrite Ek.
  match goal with C : candidate_of _ _ = Some ?c |- _ => exists c end.
  match goal with C : _ ≫= _ = Some ?l |- _ => exists l, value; apply bind_Some in C as ([] & ? & ?); simplify_eq/= end.
  split_and!; try done. congruence.
Qed.

Lemma parent_scope_ok state reference receipt agent branch u :
  validate_parent_scope state reference receipt agent branch = Ok u ->
  parent_agent_id receipt = agent /\ parent_branch receipt = branch
  /\ parent_scope_path receipt = ref_parent_scope_path reference
  /\ pointer "/owner_branch" state = Some (JStr branch).
Proof.
  unfold validate_parent_scope. intros Hv. repeat let_step. conditions Hv. bools.
  match goal with C : match string_at _ _ with _ => _ end = _ |- _ =>
    destruct (string_at state "/owner_branch") as [o|] eqn:Eo; [apply differs_false in C|discriminate C] end.
  apply string_at_ok in Eo. split_and!; try done; congruence.
Qed.

(** C5. An accepted approval is the controller's own: the checkpoint of the scope named
    by the reference has a candidate whose active receipt is the last of its history,
    with the id that its content digests to and evidence that keeps the contract of
    parent mode; the caller is the agent of the receipt on its branch, registered as
    the ledger-owned controller of that branch; the repository is the receipt's; the
    pull request and every piece of evidence are those of the active candidate; the
    scope descends from its root; and what the merge is given is the receipt's. *)
Theorem approval_is_proven reference n url agent branch t a :
  runs (validate_parent_approval project_dir reference n url agent branch) t (Ok a) ->
  exists state receipt value identity,
    performed t (read_scope_checkpoint project_dir (ref_parent_scope_path reference)) (Ok state)
    /\ (exists candidate history,
          candidate_of state (ref_candidate_key reference) = Some candidate
          /\ obj_get "aggregate_approval_receipts" candidate = Some (JArr history)
          /\ last history = Some value)
    /\ parse_receipt value = Ok receipt
    /\ canonical_receipt_id value = Ok (ref_receipt_id reference)
    /\ violates_contract receipt = false
    /\ agent = parent_agent_id receipt /\ branch = parent_branch receipt
    /\ url = repository_url receipt
    /\ seen t (ResolveAgent agent) (Some identity)
    /\ identity_ledger_owned identity = true /\ identity_branch identity = branch
    /\ n = ApprovalReceipt.pr_number receipt
    /\ candidate_evidence state receipt n (va_head_branch a)
    /\ performed t (validate_parent_manifest_lineage project_dir (ref_parent_scope_path reference) state receipt)
         (Ok tt)
    /\ a = verified_approval reference receipt (va_head_branch a) (va_aggregate_worktree a).
Proof.
  unfold validate_parent_approval. intros R.
  apply runs_bind_ok_inv in R as (t1 & [path|?] & t2 & -> & [-> Ep]%runs_lift & R); [|by destruct R].
  assert (path = ref_parent_scope_path reference) as ->
    by (unfold validate_reference in Ep; repeat let_step; done).
  apply runs_bind_ok_inv in R as (t3 & [state|?] & t4 & -> & R3 & R); [|by destruct R].
  apply runs_bind_ok_inv in R as (t5 & [receipt|?] & t6 & -> & [-> Ea]%runs_lift & R); [|by destruct R].
  apply runs_bind_ok_inv in R as (t7 & [[]|?] & t8 & -> & [-> Es]%runs_lift & R); [|by destruct R].
  apply runs_bind_ok_inv in R as (t9 & [[]|?] & t10 & -> & R9 & R); [|by destruct R].
  apply runs_bind_ok_inv in R as (t11 & [[]|?] & t12 & -> & [-> Er]%runs_lift & R); [|by destruct R].
  apply runs_bind_ok_inv in R as (t13 & [[]|?] & t14 & -> & R13 & R); [|by destruct R].
  apply runs_bind_ok_inv in R as (t15 & [[hb wt]|?] & t16 & -> & [-> El]%runs_lift & R); [|by destruct R].
  apply runs_bind_ok_inv in R as (t17 & [w|?] & t18 & -> & R17 & R); [|by destruct R].
  apply runs_ret in R as [-> [= <-]]. cbn [va_head_branch va_aggregate_worktree verified_approval fst].
  apply active_receipt_ok in Ea as (Ei & Ek & candidate & history & value & Hc & _ & Hh & Hl & Hp).
  apply parent_scope_ok in Es as (<- & <- & _ & _).
  apply plan_and_candidate_ok in El as (En & Hcand & _).
  unfold validate_repository in Er. repeat let_step. bools.
  unfold validate_parent_identity in R13. apply runs_require_inv in R13 as [[_ R13]|(_ & _ & ?)]; [|done].
  apply runs_bind_ok_inv in R13 as (t19 & [identity|?] & t20 & -> & R19 & R13); [|by destruct R13].
  apply runs_bind_inv in R19 as (t21 & who & t22 & -> & Rw & [-> Ew%option_context_ok]%runs_ret).
  runs_calls. apply runs_ret in R13 as [-> Em]. repeat let_step.
  match goal with M : identity_matches _ _ _ _ _ = true |- _ => unfold identity_matches in M end. bools.
  pose proof (parse_receipt_ok _ _ Hp) as (Hid & Hcon & _).
  exists state, receipt, value, identity. rewrite <- Ei, <- Ek.
  split_and!; try done; [by eauto 10 with seen|by exists candidate, history|by eauto 14 with seen|by eauto 14 with seen].
Qed.

(** ** The scan for aggregates *)

(** A directory was listed, and its checkpoint, if it has one, declares nothing. *)
Definition scanned t (n : Z) (url : string) (dir : PathBuf) : Prop :=
  (exists entries, seen t (ReadDir dir) (Some entries))
  /\ (seen t (PathExists (path_sub dir [RUN_FILENAME])) false
      \/ exists content checkpoint,
           seen t (ReadFile (path_sub dir [RUN_FILENAME])) (Some content)
           /\ json_from_string content = Some checkpoint
           /\ declares_aggregate checkpoint n url = false).

Lemma scanned_l t t' n url d : scanned t n url d -> scanned (t ++ t')%list n url d.
Proof.
  intros [(es & ?) [?|(c & j & ? & ? & ?)]]; (split; [exists es; by eauto with seen|]);
    [left|right; exists c, j]; by eauto with seen.
Qed.
Lemma scanned_r t t' n url d : scanned t' n url d -> scanned (t ++ t')%list n url d.
Proof.
  intros [(es & ?) [?|(c & j & ? & ? & ?)]]; (split; [exists es; by eauto with seen|]);
    [left|right; exists c, j]; by eauto with seen.
Qed.

Lemma expect_said {A} (p : IO (option A)) e t a : runs (expect p e) t (Ok a) -> runs p t (Some a).
Proof.
  intros (t1 & o & t2 & -> & R & [-> E%option_context_ok]%runs_ret)%runs_bind_inv.
  subst o. by rewrite app_nil_r.
Qed.

Lemma read_json_said path t j :
  runs (read_json path) t (Ok j) ->
  exists content, seen t (ReadFile path) (Some content) /\ json_from_string content = Some j.
Proof.
  unfold read_json. intros R.
  apply runs_bind_ok_inv in R as (t1 & [kind|?] & t2 & -> & _ & R); [|by destruct R].
  apply runs_require_inv in R as [[_ R]|(_ & _ & ?)]; [|done].
  apply runs_bind_ok_inv in R as (t3 & [content|?] & t4 & -> & R3 & R); [|by destruct R].
  apply expect_said in R3. runs_calls. apply runs_ret in R as [-> E%option_context_ok].
  exists content. split; [by eauto with seen|done].
Qed.

Lemma inspected path n url t :
  runs (inspect_unreferenced_candidate path n url) t (Ok tt) ->
  seen t (PathExists path) false
  \/ exists content checkpoint,
       seen t (ReadFile path) (Some content) /\ json_from_string content = Some checkpoint
       /\ declares_aggregate checkpoint n url = false.
Proof.
  unfold inspect_unreferenced_candidate. intros R.
  apply runs_bind_inv in R as (t1 & present & t2 & -> & R1 & R). runs_calls.
  destruct present; cbn [negb] in R; [right|left; by left].
  apply runs_bind_ok_inv in R as (t3 & [checkpoint|?] & t4 & -> & R3 & R); [|by destruct R].
  apply read_json_said in R3 as (content & Hs & Hj). apply runs_ret in R as [-> E%ensure_Ok]. bools.
  exists content, checkpoint. split; [by eauto with seen|done].
Qed.

Lemma scan_entries_found entries depth found path :
  scan_entries entries depth = Ok found -> In (Entry path (Some true)) entries -> In (path, S depth) found.
Proof.
  revert found. induction entries as [|[|p [d|]] entries IH]; intros found; try done. cbn [scan_entries].
  destruct (scan_entries entries depth) as [fs|] eqn:E; [|done]. intros [= <-] [[= -> ->]|Hin]; [by left|].
  destruct d; [right|]; by apply IH.
Qed.

Definition lists_nothing (c : call) : bool := match c with ReadDir _ => false | _ => true end.
Lemma inspect_lists_nothing path n url : only lists_nothing (inspect_unreferenced_candidate path n url).
Proof. unfold inspect_unreferenced_candidate, read_json, expect. by repeat only_step. Qed.

Lemma listing_of dir dir' (es es' : list ScanEntry) :
  did (reply := reply) (ReadDir dir) (Some es) = did (ReadDir dir') (Some es') -> dir' = dir /\ es' = es.
Proof.
  intros E. pose proof (f_equal (@projT1 _ _) E) as E1. injection E1 as <-. split; [done|].
  apply (f_equal (fun e : event reply =>
    match projT1 e as c return reply c -> option (list ScanEntry) with
    | ReadDir _ => fun r => r
    | _ => fun _ => None
    end (projT2 e))) in E. by injection E.
Qed.

Lemma scan_scopes_complete fuel pending visited n url t :
  runs (scan_scopes fuel pending visited n url) t (Ok tt) ->
  (forall d depth, In (d, depth) pending -> scanned t n url d)
  /\ forall dir entries path, seen t (ReadDir dir) (Some entries) -> In (Entry path (Some true)) entries ->
       scanned t n url path.
Proof.
  revert pending visited t. induction fuel as [|fuel IH]; intros pending visited t R; cbn [scan_scopes] in R;
    [by apply runs_ret in R as [_ ?]|].
  destruct pending as [|[dir depth] pending].
  { apply runs_ret in R as [-> _]. split; [by intros ? ? []|by intros ? ? ? []]. }
  apply runs_require_inv in R as [[_ R]|(_ & _ & ?)]; [|done].
  apply runs_bind_ok_inv in R as (t1 & [[]|?] & t2 & -> & R1 & R); [|by destruct R].
  apply runs_bind_ok_inv in R as (t3 & [entries|?] & t4 & -> & R3 & R); [|by destruct R].
  apply runs_bind_ok_inv in R as (t5 & [found|?] & t6 & -> & [-> Ef]%runs_lift & R); [|by destruct R].
  apply expect_said in R3. runs_calls. apply IH in R as [Hp Hc]. cbn [app] in *.
  assert (Hd : scanned (t1 ++ did (ReadDir dir) (Some entries) :: t6) n url dir).
  { apply inspected in R1. split; [exists entries; by eauto with seen|].
    destruct R1 as [?|(c & j & ? & ? & ?)]; [left|right; exists c, j]; by eauto with seen. }
  split.
  - intros d k [[= <- <-]|Hin]; [done|]. apply scanned_r, (scanned_r [_]), (Hp d k), in_app_iff. by right.
  - intros d es p Hs Hin. apply scanned_r. apply seen_app in Hs as [Hs|[Hs|Hs]].
    + by pose proof (only_runs _ _ _ _ _ (inspect_lists_nothing _ _ _) R1 Hs).
    + apply listing_of in Hs as [-> ->]. apply (scanned_r [_]), (Hp p (S depth)), in_app_iff. left.
      apply in_rev. rewrite rev_involutive. by eapply scan_entries_found.
    + by apply (scanned_r [_]), (Hc d es).
Qed.

(** The visits are bounded, so the fuel of the scan never ends it: with any fuel above
    the bound it has the same runs. *)
Lemma scan_fuel_enough fuel fuel' pending visited n url t a :
  (MAX_SCAN_VISITS + 2 - visited <= Z.of_nat fuel)%Z -> (MAX_SCAN_VISITS + 2 - visited <= Z.of_nat fuel')%Z ->
  (visited <= MAX_SCAN_VISITS + 1)%Z ->
  runs (scan_scopes fuel pending visited n url) t a -> runs (scan_scopes fuel' pending visited n url) t a.
Proof.
  revert fuel' pending visited t. induction fuel as [|fuel IH]; intros [|fuel'] pending visited t Hf Hf' Hv;
    [lia|lia|lia|]. cbn [scan_scopes]. destruct pending as [|[dir depth] pending]; [done|].
  destruct (_ || (MAX_SCAN_VISITS <? visited)%Z) eqn:E; [done|].
  apply orb_false_iff in E as [_ E%Z.ltb_ge]. unfold require. cbn [negb].
  do 3 (apply runs_bind_ok_mono; intros ? ?). apply IH; lia.
Qed.

(** C18. A merge without an approval has looked everywhere: a scan that ends well found
    no TL state, or listed its root and every directory below that it was shown, and
    each of them has no checkpoint or one that does not declare the pull request an
    aggregate of the repository. *)
Theorem unreferenced_scan_is_complete n url t :
  runs (reject_unreferenced_aggregate project_dir n url) t (Ok tt) ->
  seen t (PathExists (loop_root project_dir)) false
  \/ scanned t n url (loop_root project_dir)
     /\ forall dir entries path, seen t (ReadDir dir) (Some entries) -> In (Entry path (Some true)) entries ->
          scanned t n url path.
Proof.
  unfold reject_unreferenced_aggregate. intros R.
  apply runs_bind_inv in R as (t1 & present & t2 & -> & R1 & R). runs_calls.
  destruct present; cbn [negb] in R; [right|left; by left].
  apply scan_scopes_complete in R as [Hp Hc]. split.
  - by apply (scanned_r [_]), (Hp _ 0); left.
  - intros d es p [Hs|Hs] Hin; [by apply (f_equal (@projT1 _ _)) in Hs|]. by apply (scanned_r [_]), (Hc d es).
Qed.
End specs.
