(* ===== verification/MergePr.v ===== *)
(** * Merging a pull request

    [services/merge_pr.rs] and [handlers/merge_pr.rs]: the host merges through the
    forge after a compare and swap of what the caller expects with what Git and the
    forge show, and for an aggregate after its parent's approval has been checked
    twice, with the lineage of its commits.  The checks run in the order of the code;
    every early return is an output without success. *)

From stdpp Require Import pretty.
From S2P Require Import Prelude RustStr Paths JsonValue Effects Publication ReviewTypes Lineage.
From S2P Require Import ApprovalReceipt Approval.
Local Open Scope string_scope.
Local Open Scope prog_scope.

Inductive MergeStrategy := Squash | Merge | Rebase.
Definition strategy_str (s : MergeStrategy) : string :=
  match s with Squash => "squash" | Merge => "merge" | Rebase => "rebase" end.
(** Only ASCII letters have the letters of these words as lower case. *)
Definition parse_strategy (s : string) : result MergeStrategy string :=
  let l := to_ascii_lowercase s in
  if String.eqb l "squash" || String.eqb l "" then Ok Squash
  else if String.eqb l "merge" then Ok Merge
  else if String.eqb l "rebase" then Ok Rebase
  else Err ("invalid merge_strategy: " ++ s).

Record MergePROutput := {
  success : bool;
  message : string;
  git_fetched : bool;
  branch_name : string;
  out_head_sha : option string
}.
Record MergeExpectedEvidence := {
  expected_base : option string;
  expected_head : option string;
  expected_patch : option string;
  expected_merge_tree : option string
}.
Record MergeObservedEvidence := {
  ob_base_sha : string;
  ob_head_sha : string;
  ob_patch_digest : string;
  ob_merge_tree_sha : string;
  ob_pr_head_tree_sha : string;
  ob_merge_commit_sha : option string;
  ob_merge_commit_tree_sha : option string
}.
Record PublishedPrEvidence := { pe_base_sha : string; pe_patch_digest : string }.
Record MergeAuthority := {
  caller_agent_id : string;
  caller_branch : string;
  current_repository_url : string;
  parent_approval : option VerifiedParentApproval
}.

(** ** Git *)

Definition run_git (dir : PathBuf) (args : list string) : IO (result string string) :=
  do r <- ask (RunCommand dir args);
  Ret (match r with
       | NotStarted reason => Err reason
       | Exited true stdout _ => Ok (str_trim stdout)
       | Exited false _ stderr => Err ("git " ++ join_str " " args ++ " failed: " ++ str_trim stderr)
       end).
Definition run_git_bytes (dir : PathBuf) (args : list string) : IO (result string string) :=
  do r <- ask (RunCommand dir args);
  Ret (match r with
       | NotStarted reason => Err reason
       | Exited true stdout _ => Ok stdout
       | Exited false _ stderr => Err ("git " ++ join_str " " args ++ " failed: " ++ str_trim stderr)
       end).

Definition non_empty (s : string) : option string := if str_is_empty s then None else Some s.

Definition configured_remote (dir : PathBuf) : IO (result string string) :=
  do configured <- run_git dir ["config"; "--get"; "exomonad.remote"];
  match result_to_option configured ≫= non_empty with
  | Some remote => Ret (Ok remote)
  | None =>
      do? remotes <- run_git dir ["remote"];
      let names := map str_trim (lines remotes) in
      Ret (if existsb (String.eqb "origin") names then Ok "origin"
           else option_context (find (fun r => negb (str_is_empty r)) names)
                  "no git remote is configured")
  end.

Definition authoritative_base_sha (dir : PathBuf) (base : string) : IO (result string string) :=
  do? remote <- configured_remote dir;
  do? _ <- run_git dir ["fetch"; "--prune"; remote];
  run_git dir ["rev-parse"; "--verify"; "refs/remotes/" ++ remote ++ "/" ++ base].

Definition ensure_head_object (dir : PathBuf) (head : string) (pr : option Z) : IO (result unit string) :=
  let object := commit_arg head "commit" in
  do present <- run_git dir ["cat-file"; "-e"; object];
  if is_ok present then Ret (Ok tt)
  else match pr with
  | None => Ret (Err ("pr_head_unreachable: local object " ++ head ++ " is unavailable"))
  | Some n =>
      do? remote <- configured_remote dir;
      let refspec := "refs/pull/" ++ pretty n ++ "/head" in
      do? _ <- map_error (fun error => "pr_head_unreachable: fetch of " ++ refspec ++ " from " ++ remote
                                       ++ " failed: " ++ error)
                 (run_git dir ["fetch"; "--no-tags"; remote; refspec]);
      do present <- run_git dir ["cat-file"; "-e"; object];
      Ret (ensure (is_ok present)
             ("pr_head_unreachable: fetched " ++ refspec ++ ", but local object " ++ head
              ++ " is still absent"))
  end.

Definition commit_tree_sha (dir : PathBuf) (commit : string) : IO (result string string) :=
  do? _ <- run_git dir ["rev-parse"; "--verify"; commit_arg commit "commit"];
  run_git dir ["rev-parse"; "--verify"; commit_arg commit "tree"].

Definition diff_args (base head : string) : list string :=
  ["diff"; "--binary"; "--no-ext-diff"; base ++ "..." ++ head].

Section merge.
Context `{Sha256}.

Definition observe_merge_evidence (dir : PathBuf) (base head : string) (merge_commit : option string)
  : IO (result MergeObservedEvidence string) :=
  do? diff <- run_git_bytes dir (diff_args base head);
  do? merge_tree <- run_git dir ["merge-tree"; "--write-tree"; base; head];
  do? merge_tree_sha <- lift (option_context (hd_error (split_whitespace merge_tree) ≫= non_empty)
                                "git merge-tree returned no tree SHA");
  do? pr_head_tree <- commit_tree_sha dir head;
  let merge_commit := c ← merge_commit; if is_blank c then None else Some c in
  do? merge_commit_tree <- match merge_commit with
                           | Some commit => do? tree <- commit_tree_sha dir commit; Ret (Ok (Some tree))
                           | None => Ret (Ok None)
                           end;
  Ret (Ok {| ob_base_sha := base; ob_head_sha := head; ob_patch_digest := sha256_hex diff;
             ob_merge_tree_sha := merge_tree_sha; ob_pr_head_tree_sha := pr_head_tree;
             ob_merge_commit_sha := merge_commit; ob_merge_commit_tree_sha := merge_commit_tree |}).

Definition observe_pr_evidence (dir : PathBuf) (base_ref head : string)
  : IO (result MergeObservedEvidence string) :=
  do? base <- authoritative_base_sha dir base_ref;
  do? _ <- ensure_head_object dir head None;
  observe_merge_evidence dir base head None.

Definition observe_pr_evidence_for_pr (dir : PathBuf) (base_ref head : string) (pr : Z)
    (merge_commit : option string) : IO (result MergeObservedEvidence string) :=
  do? base <- authoritative_base_sha dir base_ref;
  do? _ <- ensure_head_object dir head (Some pr);
  observe_merge_evidence dir base head merge_commit.

Definition observe_published_pr_evidence (dir : PathBuf) (base_ref head : string) (pr : Z)
  : IO (result PublishedPrEvidence string) :=
  do? base <- authoritative_base_sha dir base_ref;
  do? _ <- ensure_head_object dir head (Some pr);
  do? diff <- run_git_bytes dir (diff_args base head);
  Ret (Ok {| pe_base_sha := base; pe_patch_digest := sha256_hex diff |}).

(** The first expectation that is set and differs. *)
Definition compare_one (c : string * option string * string) : result unit string :=
  let '(label, expected, actual) := c in
  match expected ≫= non_empty with
  | Some value => ensure (String.eqb value actual)
      ("compare_and_swap: expected " ++ label ++ " " ++ value ++ ", found " ++ actual)
  | None => Ok tt
  end.
Definition compare_expected_evidence (expected : MergeExpectedEvidence) (observed : MergeObservedEvidence)
  : result unit string :=
  try_fold (fun _ c => compare_one c) tt
    [("base", expected_base expected, ob_base_sha observed);
     ("head", expected_head expected, ob_head_sha observed);
     ("patch digest", expected_patch expected, ob_patch_digest observed);
     ("merge tree", expected_merge_tree expected, ob_merge_tree_sha observed)].

(** ** Early returns *)

Definition cas_failure (text branch : string) (head : option string) : MergePROutput :=
  {| success := false; message := text; git_fetched := false; branch_name := branch; out_head_sha := head |}.
(** A failure of the call is an output without success. *)
Definition or_fail {A} (p : IO (result A string)) (fail : string -> MergePROutput)
    (k : A -> IO (result MergePROutput string)) : IO (result MergePROutput string) :=
  do r <- p; match r with Ok a => k a | Err error => Ret (Ok (fail error)) end.
Definition or_return (ok : bool) (out : MergePROutput) (k : IO (result MergePROutput string))
  : IO (result MergePROutput string) := if ok then k else Ret (Ok out).

Definition publication_owner (pr_number : Z) (head base sha : string) : IO (result string string) :=
  do s <- ask ReadPublications;
  Ret (verified_current_publication_owner (owners s) (invocations s) (published s) pr_number head base sha).

(** [verify_parent_aggregate_lineage]: the check with its deadline, which may pass while
    a call runs. *)
Fixpoint within_deadline {A} (dir : PathBuf) (p : Lineage.IO (result A string)) : IO (result A string) :=
  match p with
  | Ret a => Ret a
  | Act c k =>
      Act (LineageCall dir c : call) (fun r =>
        do late <- ask LineageDeadline;
        if late then Ret (Err "aggregate Git lineage verification exceeded its 60-second bound")
        else within_deadline dir (k r))
  end.

Context `{JsonText} (project_dir : PathBuf).

Definition coordinates_match (pr : ForgejoPullRequest) (pr_number : Z) (a : VerifiedParentApproval) : bool :=
  (pr_number =? va_pr_number a)%Z && String.eqb (state pr) "open" && negb (merged pr)
  && String.eqb (head_ref pr) (va_head_branch a) && String.eqb (base_ref pr) (va_parent_branch a).
Definition evidence_matches (o : MergeObservedEvidence) (a : VerifiedParentApproval) : bool :=
  String.eqb (ob_base_sha o) (va_base_sha a) && String.eqb (ob_head_sha o) (va_head_sha a)
  && String.eqb (ob_pr_head_tree_sha o) (va_head_tree_sha a)
  && String.eqb (ob_patch_digest o) (va_patch_digest a)
  && String.eqb (ob_merge_tree_sha o) (va_merge_tree_sha a).

(** The approval against the pull request, the caller and the repository. *)
Definition check_coordinates (dir : PathBuf) (pr_number : Z) (pr : ForgejoPullRequest)
    (owner : string) (authority : MergeAuthority) (fail : string -> MergePROutput)
    (k : IO (result MergePROutput string)) : IO (result MergePROutput string) :=
  match parent_approval authority with
  | None => k
  | Some a =>
      or_return (coordinates_match pr pr_number a)
        (fail "aggregate parent approval does not match the current open PR coordinates")
      (or_return (negb (String.eqb owner (caller_agent_id authority)
                        || String.eqb (caller_branch authority) (head_ref pr)))
        (fail "aggregate parent approval cannot be used by the publication owner")
      (or_fail (ask (GetRepositoryUrl dir))
        (fun error => fail ("aggregate repository identity could not be revalidated: " ++ error))
        (fun live =>
           or_return (String.eqb live (va_repository_url a)
                      && String.eqb (current_repository_url authority) (va_repository_url a))
             (fail "aggregate parent approval repository differs from the current repository") k)))
  end.

(** The second check of the approval, right before the merge. *)
Definition revalidate (dir : PathBuf) (owner repo : string) (pr_number : Z) (actual_head : string)
    (observed : MergeObservedEvidence) (authority : MergeAuthority) (a : VerifiedParentApproval)
    (fail : string -> MergePROutput) (k : IO (result MergePROutput string))
  : IO (result MergePROutput string) :=
  or_return (evidence_matches observed a)
    (fail "aggregate parent approval compare evidence changed before merge")
  (or_fail (ask (GetCommitStatus owner repo actual_head))
    (fun error => fail ("aggregate CI evidence could not be revalidated: " ++ error))
    (fun ci =>
  or_return (String.eqb (ci_as_str ci) (va_ci_status a) && is_mergeable_ci (ci_as_str ci))
    (fail ("aggregate CI evidence changed or is not mergeable: " ++ ci_as_str ci))
  (or_fail (ask (GetRepositoryUrl dir))
    (fun error => fail ("aggregate repository identity could not be checked at merge: " ++ error))
    (fun url =>
  or_fail (validate_parent_approval project_dir (va_reference a) pr_number url
             (caller_agent_id authority) (caller_branch authority))
    (fun error => fail ("aggregate parent approval became invalid before merge: " ++ error))
    (fun refreshed =>
  or_return (String.eqb (va_receipt_id refreshed) (va_receipt_id a) && String.eqb url (va_repository_url a))
    (fail "aggregate parent approval or repository changed before merge")
  (or_fail (ask (GetRepositoryUrl (va_aggregate_worktree refreshed)))
    (fun error => fail ("aggregate owner repository could not be revalidated: " ++ error))
    (fun owner_url =>
  or_return (String.eqb owner_url (va_repository_url refreshed))
    (fail "aggregate owner worktree belongs to a different repository")
  (or_fail (within_deadline (va_aggregate_worktree refreshed)
              (verify_parent_aggregate_lineage_inner (va_head_sha refreshed) (va_head_tree_sha refreshed)
                 (va_lineage_commit_shas refreshed) (va_lineage_proof_digest refreshed)))
    (fun error => fail ("aggregate Git lineage could not be revalidated: " ++ error))
    (fun _ => k))))))))).

(** Compare and swap on the evidence, when any of it is expected. *)
Definition check_evidence (dir : PathBuf) (owner repo : string) (pr_number : Z) (pr : ForgejoPullRequest)
    (actual_head : string) (expected : MergeExpectedEvidence) (authority : MergeAuthority)
    (fail : string -> MergePROutput) (k : IO (result MergePROutput string))
  : IO (result MergePROutput string) :=
  if negb (bool_decide (is_Some (expected_base expected)) || bool_decide (is_Some (expected_patch expected))
           || bool_decide (is_Some (expected_merge_tree expected)))
  then k
  else
    or_fail (observe_pr_evidence_for_pr dir (base_ref pr) actual_head pr_number None)
      (fun error => fail ("compare_and_swap: evidence observation failed: " ++ error))
      (fun observed =>
         match compare_expected_evidence expected observed with
         | Err text => Ret (Ok (fail text))
         | Ok _ =>
             match parent_approval authority with
             | None => k
             | Some a => revalidate dir owner repo pr_number actual_head observed authority a fail k
             end
         end).

Definition debug_opt (o : option string) : string :=
  match o with Some s => "Some(" ++ debug_str s ++ ")" | None => "None" end.
Definition MERGE_TIMEOUT_SECS : Z := 120.

(** The merge itself. *)
Definition merge_at_forge (owner repo : string) (pr_number : Z) (strategy : MergeStrategy)
    (actual_head : string) (pr : ForgejoPullRequest) : IO (result MergePROutput string) :=
  let fail text := cas_failure text (head_ref pr) (pr_head_sha pr) in
  do r <- ask (MergePullRequest owner repo pr_number (strategy_str strategy) actual_head);
  Ret (Ok (match r with
           | MergeRefused error => fail ("Forgejo merge failed: " ++ error)
           | MergeTimedOut => fail ("Forgejo merge timed out after " ++ pretty MERGE_TIMEOUT_SECS ++ "s")
           | MergeDone =>
               {| success := true;
                  message := "PR #" ++ pretty pr_number ++ " merged via " ++ strategy_str strategy;
                  git_fetched := false; branch_name := head_ref pr; out_head_sha := pr_head_sha pr |}
           end)).

Definition merge_pr_async (pr_number : Z) (strategy : MergeStrategy) (working_dir : string)
    (expected : MergeExpectedEvidence) (has_forgejo : bool) (authority : MergeAuthority)
  : IO (result MergePROutput string) :=
  let dir := parse_path (if str_is_empty working_dir then "." else working_dir) in
  require has_forgejo "Forgejo client is required for merge_pr"
  (do? info <- ask (GetRepoInfo dir);
   do? pr <- ask (GetPullRequest info.1 info.2 pr_number);
   let fail text := cas_failure text (head_ref pr) (pr_head_sha pr) in
   match pr_head_sha pr with
   | None => Ret (Ok (fail "compare_and_swap: PR has no authoritative head SHA"))
   | Some actual_head =>
       or_fail (publication_owner pr_number (head_ref pr) (base_ref pr) actual_head)
         (fun error => fail ("compare_and_swap: publication ownership verification failed: " ++ error))
         (fun owner =>
       check_coordinates dir pr_number pr owner authority fail
       (or_return (match expected_head expected ≫= non_empty with
                   | Some value => String.eqb value actual_head
                   | None => true
                   end)
          (fail ("compare_and_swap: expected head " ++ default "" (expected_head expected) ++ ", found "
                 ++ debug_opt (pr_head_sha pr)))
       (check_evidence dir info.1 info.2 pr_number pr actual_head expected authority fail
       (merge_at_forge info.1 info.2 pr_number strategy actual_head pr))))
   end).

(** ** The effect *)

Record MergePrRequest := {
  req_pr_number : Z;
  req_strategy : string;
  req_working_dir : string;
  req_expected_base_sha : string;
  req_expected_head_sha : string;
  req_expected_patch_digest : string;
  req_expected_merge_tree_sha : string;
  req_aggregate_approval : option AggregateApprovalReference
}.
Record MergePrResponse := {
  res_success : bool;
  res_message : string;
  res_git_fetched : bool;
  res_branch_name : string;
  res_head_sha : string
}.

Definition expected_of (req : MergePrRequest) : MergeExpectedEvidence := {|
  expected_base := non_empty (req_expected_base_sha req);
  expected_head := non_empty (req_expected_head_sha req);
  expected_patch := non_empty (req_expected_patch_digest req);
  expected_merge_tree := non_empty (req_expected_merge_tree_sha req) |}.

Definition head_sha_finding (head : option string) : json :=
  match head with
  | Some _ => JNull
  | None => JStr "not_available_without_verified_pr_context"
  end.
Definition merged_event (pr_number : Z) (strategy : MergeStrategy) (out : MergePROutput) : json :=
  jobj [("pr_number", JNum pr_number); ("strategy", JStr (strategy_str strategy));
        ("git_fetched", JBool (git_fetched out)); ("head_sha", jopt JStr (out_head_sha out));
        ("head_sha_finding", head_sha_finding (out_head_sha out))].
Definition merge_failed_event (pr_number : Z) (out : MergePROutput) : json :=
  jobj [("pr_number", JNum pr_number); ("error", JStr (message out));
        ("head_sha", jopt JStr (out_head_sha out));
        ("head_sha_finding", head_sha_finding (out_head_sha out))].
Definition capture_summary (pr_number : Z) (strategy status : string) : string :=
  "Merged PR #" ++ pretty pr_number ++ " with " ++ strategy ++ " (" ++ status ++ ")".
Definition capture_metadata (pr_number : Z) (strategy status : string) (fetched : bool) (branch : string)
  : json :=
  jobj [("record_type", JStr "merge_pr"); ("pr_number", JNum pr_number); ("strategy", JStr strategy);
        ("status", JStr status); ("git_fetched", JBool fetched); ("branch", JStr branch)].

Definition log_if (has_log : bool) (event agent : string) (data : json) : IO unit :=
  if has_log then ask (AppendLog event agent data) else Ret tt.

Definition record_outcome (has_log : bool) (agent : string) (pr_number : Z) (strategy : MergeStrategy)
    (out : MergePROutput) : IO unit :=
  if success out then
    do _ <- log_if has_log "pr.merged" agent (merged_event pr_number strategy out);
    ask (CaptureMemory (capture_summary pr_number (strategy_str strategy) "success")
           (capture_metadata pr_number (strategy_str strategy) "success" (git_fetched out)
              (branch_name out)))
  else log_if has_log "pr.merge_failed" agent (merge_failed_event pr_number out).

Definition merge_pr (has_forgejo has_log : bool) (req : MergePrRequest) (agent_name birth_branch : string)
  : IO (result MergePrResponse string) :=
  let pr_number := (req_pr_number req mod 2 ^ 64)%Z in
  do? strategy <- lift (parse_strategy (req_strategy req));
  let dir := parse_path (if str_is_empty (req_working_dir req) then "." else req_working_dir req) in
  do? url <- ask (GetRepositoryUrl dir);
  do? approval <-
    match req_aggregate_approval req with
    | Some reference =>
        do? a <- validate_parent_approval project_dir reference pr_number url agent_name birth_branch;
        Ret (Ok (Some a))
    | None =>
        do? _ <- reject_unreferenced_aggregate project_dir pr_number url;
        Ret (Ok None)
    end;
  do? _ <- lift (validate_request_compare approval (req_expected_base_sha req) (req_expected_head_sha req)
                   (req_expected_patch_digest req) (req_expected_merge_tree_sha req));
  do? out <- merge_pr_async pr_number strategy (req_working_dir req) (expected_of req) has_forgejo
               {| caller_agent_id := agent_name; caller_branch := birth_branch;
                  current_repository_url := url; parent_approval := approval |};
  do _ <- record_outcome has_log agent_name pr_number strategy out;
  Ret (Ok {| res_success := success out; res_message := message out; res_git_fetched := git_fetched out;
             res_branch_name := branch_name out; res_head_sha := default "" (out_head_sha out) |}).
End merge.
