(* ===== verification/MergeSpec.v ===== *)
(** * What a merge has been checked for

    Every call of [MergePullRequest] in a run of the effect comes after the checks its
    arguments need: the lemmas go down the program, each early return ending a run
    that does not merge, and collect what the calls before it have answered. *)

From stdpp Require Import pretty.
From S2P Require Import Prelude RustStr Paths JsonValue Effects Publication PublicationOwnership ReviewTypes.
From S2P Require Import Lineage ApprovalReceipt Approval MergePr.
Local Open Scope string_scope.
Local Open Scope prog_scope.

Definition trace := list (event reply).
Implicit Types t : list (event reply).

(** ** Programs that do not merge *)

Definition quiet (c : call) : bool := match c with MergePullRequest _ _ _ _ _ => false | _ => true end.
(** A run has asked the forge to merge. *)
Definition asked t (owner repo : string) (n : Z) (method head : string) : Prop :=
  exists r : MergeReply, seen t (MergePullRequest owner repo n method head) r.

Create HintDb quiet discriminated.
Ltac quiet_solve := repeat first [progress (auto with quiet nocore) | only_step].

Lemma expect_quiet {A} (c : IO (option A)) e : only quiet c -> only quiet (expect c e).
Proof. intros H. unfold expect. by quiet_solve. Qed.
#[local] Hint Resolve expect_quiet : quiet.

Section specs.
Context `{SHA : Sha256} `{TEXT : JsonText} (project_dir : PathBuf).

Lemma read_json_quiet path : only quiet (read_json path).
Proof. unfold read_json. quiet_solve; by apply expect_quiet. Qed.
#[local] Hint Resolve read_json_quiet : quiet.
Lemma read_scope_checkpoint_quiet path : only quiet (read_scope_checkpoint project_dir path).
Proof. unfold read_scope_checkpoint. quiet_solve; by apply expect_quiet. Qed.
#[local] Hint Resolve read_scope_checkpoint_quiet : quiet.
Lemma walk_scopes_quiet state url visited id cp rest :
  only quiet (walk_scopes project_dir state url visited id cp rest).
Proof.
  revert visited id cp. induction rest as [|child rest IH]; intros; cbn [walk_scopes]; [exact I|].
  repeat first [apply IH | progress (auto with quiet nocore) | only_step].
Qed.
#[local] Hint Resolve walk_scopes_quiet : quiet.
Lemma validate_parent_manifest_lineage_quiet path state receipt :
  only quiet (validate_parent_manifest_lineage project_dir path state receipt).
Proof. unfold validate_parent_manifest_lineage. quiet_solve. Qed.
Lemma validate_parent_identity_quiet state receipt a b :
  only quiet (validate_parent_identity state receipt a b).
Proof. unfold validate_parent_identity. quiet_solve. by apply expect_quiet. Qed.
Lemma resolve_aggregate_worktree_quiet path : only quiet (resolve_aggregate_worktree project_dir path).
Proof. unfold resolve_aggregate_worktree. quiet_solve; by apply expect_quiet. Qed.
#[local] Hint Resolve validate_parent_manifest_lineage_quiet validate_parent_identity_quiet
  resolve_aggregate_worktree_quiet : quiet.
Lemma validate_parent_approval_quiet ref n url a b :
  only quiet (validate_parent_approval project_dir ref n url a b).
Proof. unfold validate_parent_approval. quiet_solve. Qed.

Lemma scan_scopes_quiet fuel pending visited n url : only quiet (scan_scopes fuel pending visited n url).
Proof.
  revert pending visited. induction fuel as [|fuel IH]; intros pending visited; cbn [scan_scopes]; [exact I|].
  destruct pending as [|[d depth] pending]; [exact I|].
  repeat first [apply IH | progress (auto with quiet nocore) | only_step].
  - unfold inspect_unreferenced_candidate. quiet_solve.
  - by apply expect_quiet.
Qed.
#[local] Hint Resolve scan_scopes_quiet : quiet.
Lemma reject_unreferenced_aggregate_quiet n url :
  only quiet (reject_unreferenced_aggregate project_dir n url).
Proof. unfold reject_unreferenced_aggregate. quiet_solve. Qed.

Lemma run_git_quiet dir args : only quiet (run_git dir args).
Proof. unfold run_git. quiet_solve. Qed.
Lemma run_git_bytes_quiet dir args : only quiet (run_git_bytes dir args).
Proof. unfold run_git_bytes. quiet_solve. Qed.
#[local] Hint Resolve run_git_quiet run_git_bytes_quiet : quiet.
Lemma configured_remote_quiet dir : only quiet (configured_remote dir).
Proof. unfold configured_remote. quiet_solve. Qed.
Lemma commit_tree_sha_quiet dir c : only quiet (commit_tree_sha dir c).
Proof. unfold commit_tree_sha. quiet_solve. Qed.
#[local] Hint Resolve configured_remote_quiet commit_tree_sha_quiet : quiet.
Lemma observe_quiet dir base head n mc : only quiet (observe_pr_evidence_for_pr dir base head n mc).
Proof.
  unfold observe_pr_evidence_for_pr, authoritative_base_sha, ensure_head_object, observe_merge_evidence.
  quiet_solve.
Qed.
Lemma publication_owner_quiet n h b s : only quiet (publication_owner n h b s).
Proof. unfold publication_owner. quiet_solve. Qed.
Lemma within_deadline_quiet {A} dir (p : Lineage.IO (result A string)) : only quiet (within_deadline dir p).
Proof. induction p as [a|c k IH]; cbn [within_deadline]; [exact I|]. split; [done|]. intros r. quiet_solve. Qed.
Lemma record_outcome_quiet l a n s out : only quiet (record_outcome l a n s out).
Proof. unfold record_outcome, log_if. quiet_solve. Qed.

(** ** Early returns *)

Lemma asked_app t t' o r n m h : asked (t ++ t')%list o r n m h <-> asked t o r n m h \/ asked t' o r n m h.
Proof.
  split; [intros [x [?|?]%seen_app]; [left|right]; by exists x|].
  intros [[x ?]|[x ?]]; exists x; [by apply seen_l|by apply seen_r].
Qed.

Lemma quiet_never_asks {A} (p : IO A) t a o r n m h : only quiet p -> runs p t a -> ~ asked t o r n m h.
Proof. intros Hq R [x Hx]. by pose proof (only_runs _ _ _ _ _ Hq R Hx). Qed.

Lemma asked_bind {A B} (p : IO A) (f : A -> IO B) t b o r n m h :
  only quiet p -> runs (pbind p f) t b -> asked t o r n m h ->
  exists t1 a t2, t = (t1 ++ t2)%list /\ runs p t1 a /\ runs (f a) t2 b /\ asked t2 o r n m h.
Proof.
  intros Hq (t1 & a & t2 & -> & R1 & R2)%runs_bind_inv [H|H]%asked_app; [|by exists t1, a, t2].
  by eapply quiet_never_asks in H.
Qed.

Lemma asked_bind_ok {A B} (p : IO (result A string)) (f : A -> IO (result B string)) t b o r n m h :
  only quiet p -> runs (pbind_ok p f) t b -> asked t o r n m h ->
  exists t1 a t2, t = (t1 ++ t2)%list /\ runs p t1 (Ok a) /\ runs (f a) t2 b /\ asked t2 o r n m h.
Proof.
  intros Hq R Ha. destruct (asked_bind _ _ _ _ _ _ _ _ _ Hq R Ha) as (t1 & [a|e] & t2 & -> & R1 & R2 & Ha');
    [by exists t1, a, t2|].
  apply runs_ret in R2 as [-> _]. by destruct Ha' as [? []].
Qed.

Lemma asked_or_fail {A} (p : IO (result A string)) fail k t b o r n m h :
  only quiet p -> runs (or_fail p fail k) t b -> asked t o r n m h ->
  exists t1 a t2, t = (t1 ++ t2)%list /\ runs p t1 (Ok a) /\ runs (k a) t2 b /\ asked t2 o r n m h.
Proof.
  intros Hq R Ha. destruct (asked_bind _ _ _ _ _ _ _ _ _ Hq R Ha) as (t1 & [a|e] & t2 & -> & R1 & R2 & Ha');
    [by exists t1, a, t2|].
  apply runs_ret in R2 as [-> _]. by destruct Ha' as [? []].
Qed.

Lemma asked_or_return b out k t x o r n m h :
  runs (or_return b out k) t x -> asked t o r n m h -> b = true /\ runs k t x.
Proof. destruct b; [done|]. intros [-> _]%runs_ret [? []]. Qed.
Lemma asked_require {A} b e (k : IO (result A string)) t x o r n m h :
  runs (require b e k) t x -> asked t o r n m h -> b = true /\ runs k t x.
Proof. destruct b; [done|]. intros [-> _]%runs_ret [? []]. Qed.

(** One step down a run that merges. *)
Ltac asked_step :=
  match goal with
  | R : runs (or_return _ _ _) ?t _, A : asked ?t _ _ _ _ _ |- _ =>
      apply (fun R => asked_or_return _ _ _ _ _ _ _ _ _ _ R A) in R as [? R]
  | R : runs (require _ _ _) ?t _, A : asked ?t _ _ _ _ _ |- _ =>
      apply (fun R => asked_require _ _ _ _ _ _ _ _ _ _ R A) in R as [? R]
  | R : runs (or_fail _ _ _) ?t _, A : asked ?t _ _ _ _ _ |- _ =>
      apply (fun Q R => asked_or_fail _ _ _ _ _ _ _ _ _ _ Q R A) in R as (? & ? & ? & -> & ? & R & ?);
      [clear A|]
  | R : runs (pbind_ok _ _) ?t _, A : asked ?t _ _ _ _ _ |- _ =>
      apply (fun Q R => asked_bind_ok _ _ _ _ _ _ _ _ _ Q R A) in R as (? & ? & ? & -> & ? & R & ?);
      [clear A|]
  end.

(** Calls of the check within its deadline. *)
Lemma lineage_calls {A} dir (p : Lineage.IO (result A string)) t a :
  runs (within_deadline dir p) t (Ok a) ->
  exists t' : list (event Lineage.reply), runs p t' (Ok a)
    /\ forall c r, Effects.seen t' c r -> seen t (LineageCall dir c) r.
Proof.
  revert t. induction p as [b|c k IH]; intros t R; cbn [within_deadline] in R.
  - apply runs_ret in R as [-> ->]. exists []. split; [constructor|by intros c r []].
  - apply runs_inv in R as (r & t1 & -> & R). apply runs_call_inv in R as (late & t2 & -> & R).
    destruct late; [by apply runs_ret in R as [_ ?]|]. apply IH in R as (t' & R & Hs).
    exists (did c r :: t'). split; [by constructor|]. intros c' r' [E|Hin].
    + assert (E' : did (reply := reply) (LineageCall dir c) r = did (LineageCall dir c') r').
      { unfold did in E. by apply (f_equal (fun e : event Lineage.reply =>
          did (reply := reply) (LineageCall dir (projT1 e)) (projT2 e))) in E. }
      by left.
    + right. right. by apply Hs.
Qed.
Definition lineage_accepted t (a : VerifiedParentApproval) : Prop :=
  exists t' : list (event Lineage.reply), runs (verify_parent_aggregate_lineage_inner (va_head_sha a) (va_head_tree_sha a)
                     (va_lineage_commit_shas a) (va_lineage_proof_digest a)) t' (Ok tt)
    /\ forall c r, Effects.seen t' c r -> seen t (LineageCall (va_aggregate_worktree a) c) r.

Lemma asked_coordinates dir n pr ow auth fail k t x o r n' m h :
  runs (check_coordinates dir n pr ow auth fail k) t x -> asked t o r n' m h ->
  exists t1 t2, t = (t1 ++ t2)%list /\ runs k t2 x /\ asked t2 o r n' m h /\
    match parent_approval auth with
    | None => True
    | Some a =>
        coordinates_match pr n a = true /\ ow <> caller_agent_id auth
        /\ caller_branch auth <> head_ref pr
        /\ seen t1 (GetRepositoryUrl dir) (Ok (va_repository_url a))
        /\ current_repository_url auth = va_repository_url a
    end.
Proof.
  unfold check_coordinates. intros R A. destruct (parent_approval auth) as [a|]; [|by exists [], t].
  asked_step. asked_step. asked_step; [|by split].
  asked_step. runs_calls. bools. match goal with H : _ || _ = false |- _ => apply orb_false_iff in H as [? ?] end.
  eexists _, _. split; [done|]. split; [done|]. split; [done|]. split; [done|].
  split; [by apply String.eqb_neq|]. split; [by apply String.eqb_neq|]. by split; [left|].
Qed.

(** What the second check of an approval has established. *)
Definition revalidated t (dir : PathBuf) (o r : string) (n : Z) (head : string)
    (observed : MergeObservedEvidence) (caller branch : string) (a : VerifiedParentApproval) : Prop :=
  exists refreshed ci url,
    evidence_matches observed a = true
    /\ seen t (GetCommitStatus o r head) (Ok ci) /\ ci_as_str ci = va_ci_status a
    /\ (ci = CISuccess \/ ci = CINeutral)
    /\ performed t (validate_parent_approval project_dir (va_reference a) n url caller branch) (Ok refreshed)
    /\ va_receipt_id refreshed = va_receipt_id a /\ url = va_repository_url a
    /\ seen t (GetRepositoryUrl (va_aggregate_worktree refreshed)) (Ok (va_repository_url refreshed))
    /\ lineage_accepted t refreshed.

Lemma lineage_accepted_r t t' a : lineage_accepted t' a -> lineage_accepted (t ++ t')%list a.
Proof. intros (u & R & Hs). exists u. split; [done|]. intros c x H. by apply seen_r, Hs. Qed.
Lemma lineage_accepted_l t t' a : lineage_accepted t a -> lineage_accepted (t ++ t')%list a.
Proof. intros (u & R & Hs). exists u. split; [done|]. intros c x H. by apply seen_l, Hs. Qed.
#[local] Hint Resolve lineage_accepted_l lineage_accepted_r : seen.

Lemma mergeable_cases ci : is_mergeable_ci (ci_as_str ci) = true -> ci = CISuccess \/ ci = CINeutral.
Proof. destruct ci; cbn; intros; auto; discriminate. Qed.

Lemma asked_revalidate dir ow rp n head observed auth a fail k t x o r n' m h :
  runs (revalidate project_dir dir ow rp n head observed auth a fail k) t x -> asked t o r n' m h ->
  exists t1 t2, t = (t1 ++ t2)%list /\ runs k t2 x /\ asked t2 o r n' m h
    /\ revalidated t1 dir ow rp n head observed (caller_agent_id auth) (caller_branch auth) a.
Proof.
  unfold revalidate. intros R A. asked_step. asked_step; [|by split]. asked_step. asked_step; [|by split].
  asked_step; [|by apply validate_parent_approval_quiet]. asked_step. asked_step; [|by split]. asked_step.
  asked_step; [|by apply within_deadline_quiet]. runs_calls. bools.
  match goal with R : runs (within_deadline _ _) _ (Ok ?u) |- _ => destruct u; apply lineage_calls in R end.
  match goal with L : exists t' : list (event Lineage.reply), _ |- _ => change (lineage_accepted x7 x6) in L end.
  match goal with |- context [([?e1] ++ [?e2] ++ ?ta ++ [?e3] ++ ?tl ++ ?rest)%list] =>
    exists ([e1] ++ [e2] ++ ta ++ [e3] ++ tl)%list, rest end.
  split; [by rewrite <- !app_assoc|]. split; [done|]. split; [done|].
  match goal with R : runs (validate_parent_approval _ _ _ _ _ _) _ (Ok ?f) |- _ => exists f end.
  match goal with H : is_mergeable_ci (ci_as_str ?c) = true |- _ => exists c, (va_repository_url a);
    apply mergeable_cases in H end.
  split_and!; eauto 10 with seen.
Qed.

(** An expectation that is not set, or the observed value. *)
Definition meets (expected : option string) (actual : string) : Prop :=
  forall value, expected ≫= non_empty = Some value -> value = actual.
Definition meets_all (expected : MergeExpectedEvidence) (o : MergeObservedEvidence) : Prop :=
  meets (expected_base expected) (ob_base_sha o) /\ meets (expected_head expected) (ob_head_sha o)
  /\ meets (expected_patch expected) (ob_patch_digest o)
  /\ meets (expected_merge_tree expected) (ob_merge_tree_sha o).
Definition expects_evidence (expected : MergeExpectedEvidence) : Prop :=
  is_Some (expected_base expected) \/ is_Some (expected_patch expected)
  \/ is_Some (expected_merge_tree expected).

Lemma compare_one_ok label expected actual : compare_one (label, expected, actual) = Ok tt -> meets expected actual.
Proof.
  unfold compare_one, meets. destruct (expected ≫= non_empty) as [v|]; [|done]. unfold ensure.
  destruct (String.eqb_spec v actual); [|done]. by intros _ w [= <-].
Qed.

Lemma compare_expected_evidence_ok expected o :
  compare_expected_evidence expected o = Ok tt -> meets_all expected o.
Proof.
  unfold compare_expected_evidence. cbn [try_fold].
  destruct (compare_one ("base", _, _)) as [[]|] eqn:E1; [|done].
  destruct (compare_one ("head", _, _)) as [[]|] eqn:E2; [|done].
  destruct (compare_one ("patch digest", _, _)) as [[]|] eqn:E3; [|done].
  destruct (compare_one ("merge tree", _, _)) as [[]|] eqn:E4; [|done].
  intros _. split_and!; by eapply compare_one_ok.
Qed.

(** What was compared before the merge. *)
Definition compared t (dir : PathBuf) (o r : string) (n : Z) (pr : ForgejoPullRequest) (head : string)
    (expected : MergeExpectedEvidence) (auth : MergeAuthority) : Prop :=
  expects_evidence expected ->
  exists observed,
    performed t (observe_pr_evidence_for_pr dir (base_ref pr) head n None) (Ok observed)
    /\ meets_all expected observed
    /\ match parent_approval auth with
       | None => True
       | Some a => revalidated t dir o r n head observed (caller_agent_id auth) (caller_branch auth) a
       end.

Lemma approval_revalidated_r t t' dir o r n head ob c b a :
  revalidated t' dir o r n head ob c b a -> revalidated (t ++ t')%list dir o r n head ob c b a.
Proof.
  intros (f & ci & url & ? & ? & ? & ? & ? & ? & ? & ? & ?). exists f, ci, url. split_and!; eauto 10 with seen.
Qed.
Lemma approval_revalidated_l t t' dir o r n head ob c b a :
  revalidated t dir o r n head ob c b a -> revalidated (t ++ t')%list dir o r n head ob c b a.
Proof.
  intros (f & ci & url & ? & ? & ? & ? & ? & ? & ? & ? & ?). exists f, ci, url. split_and!; eauto 10 with seen.
Qed.
#[local] Hint Resolve approval_revalidated_l approval_revalidated_r : seen.

Lemma asked_evidence dir ow rp n pr head expected auth fail k t x o r n' m h :
  runs (check_evidence project_dir dir ow rp n pr head expected auth fail k) t x -> asked t o r n' m h ->
  exists t1 t2, t = (t1 ++ t2)%list /\ runs k t2 x /\ asked t2 o r n' m h
    /\ compared t1 dir ow rp n pr head expected auth.
Proof.
  unfold check_evidence. intros R A.
  destruct (bool_decide (is_Some (expected_base expected)) || _ || _) eqn:E; cbn [negb] in R.
  - asked_step; [|by apply observe_quiet].
    match goal with R : runs (match compare_expected_evidence _ ?ob with _ => _ end) ?t2 _ |- _ =>
      rename R into R2; rename ob into observed end.
    destruct (compare_expected_evidence expected observed) as [[]|e] eqn:Ec.
    2: { apply runs_ret in R2 as [-> _]. by match goal with A : asked [] _ _ _ _ _ |- _ => destruct A as [? []] end. }
    apply compare_expected_evidence_ok in Ec. destruct (parent_approval auth) as [a|] eqn:Ea.
    + eapply asked_revalidate in R2 as (t3 & t4 & -> & R & A' & Hv); [|done].
      match goal with |- context [(?t1 ++ t3 ++ t4)%list] => exists (t1 ++ t3)%list, t4 end.
      split; [by rewrite app_assoc|]. split; [done|]. split; [done|]. intros _. exists observed.
      rewrite Ea. split; [by eauto with seen|]. split; [done|]. by apply approval_revalidated_r.
    + eexists _, _. split; [done|]. split; [done|]. split; [done|]. intros _. exists observed. rewrite Ea.
      split; [by eauto with seen|]. by split.
  - exists [], t. split; [done|]. split; [done|]. split; [done|]. intros Hx. exfalso.
    rewrite !orb_false_iff, !bool_decide_eq_false in E. destruct Hx as [Hx|[Hx|Hx]]; naive_solver.
Qed.

Definition owner_verified t (n : Z) (pr : ForgejoPullRequest) (head ow : string) : Prop :=
  exists st : PublicationState, seen t ReadPublications st
    /\ verified_current_publication_owner (owners st) (invocations st) (published st) n (head_ref pr)
         (base_ref pr) head = Ok ow.
Definition approval_fits t (dir : PathBuf) (n : Z) (pr : ForgejoPullRequest) (ow : string)
    (auth : MergeAuthority) : Prop :=
  match parent_approval auth with
  | None => True
  | Some a =>
      coordinates_match pr n a = true /\ ow <> caller_agent_id auth /\ caller_branch auth <> head_ref pr
      /\ seen t (GetRepositoryUrl dir) (Ok (va_repository_url a))
      /\ current_repository_url auth = va_repository_url a
  end.
Definition working_path (dir : string) : PathBuf := parse_path (if str_is_empty dir then "." else dir).

Lemma owner_verified_l t t' n pr h ow : owner_verified t n pr h ow -> owner_verified (t ++ t')%list n pr h ow.
Proof. intros (st & ? & ?). exists st. by eauto with seen. Qed.
Lemma owner_verified_r t t' n pr h ow : owner_verified t' n pr h ow -> owner_verified (t ++ t')%list n pr h ow.
Proof. intros (st & ? & ?). exists st. by eauto with seen. Qed.
Lemma approval_fits_l t t' dir n pr ow auth :
  approval_fits t dir n pr ow auth -> approval_fits (t ++ t')%list dir n pr ow auth.
Proof. unfold approval_fits. destruct (parent_approval auth); [|done]. intros (? & ? & ? & ? & ?). by eauto 10 with seen. Qed.
Lemma approval_fits_r t t' dir n pr ow auth :
  approval_fits t' dir n pr ow auth -> approval_fits (t ++ t')%list dir n pr ow auth.
Proof. unfold approval_fits. destruct (parent_approval auth); [|done]. intros (? & ? & ? & ? & ?). by eauto 10 with seen. Qed.
Lemma compared_l t t' dir o r n pr h ex auth :
  compared t dir o r n pr h ex auth -> compared (t ++ t')%list dir o r n pr h ex auth.
Proof.
  intros H Hx. destruct (H Hx) as (ob & ? & ? & Ha). exists ob. split; [by eauto with seen|]. split; [done|].
  destruct (parent_approval auth); by eauto with seen.
Qed.
Lemma compared_r t t' dir o r n pr h ex auth :
  compared t' dir o r n pr h ex auth -> compared (t ++ t')%list dir o r n pr h ex auth.
Proof.
  intros H Hx. destruct (H Hx) as (ob & ? & ? & Ha). exists ob. split; [by eauto with seen|]. split; [done|].
  destruct (parent_approval auth); by eauto with seen.
Qed.
#[local] Hint Resolve owner_verified_l owner_verified_r approval_fits_l approval_fits_r compared_l compared_r : seen.

Lemma asked_merge_at_forge ow rp n strategy head pr t x o r n' m h :
  runs (merge_at_forge ow rp n strategy head pr) t x -> asked t o r n' m h ->
  o = ow /\ r = rp /\ n' = n /\ m = strategy_str strategy /\ h = head.
Proof.
  unfold merge_at_forge. intros (rep & t' & -> & [-> _]%runs_ret)%runs_call_inv [y [E|[]]].
  apply (f_equal (@projT1 _ _)) in E. cbn in E. injection E as -> -> -> -> ->. done.
Qed.

Lemma asked_merge_pr_async n strategy wd expected forge auth t x o r n' m h :
  runs (merge_pr_async project_dir n strategy wd expected forge auth) t x -> asked t o r n' m h ->
  n' = n /\ m = strategy_str strategy /\ exists pr ow,
    seen t (GetRepoInfo (working_path wd)) (Ok (o, r))
    /\ seen t (GetPullRequest o r n) (Ok pr) /\ pr_head_sha pr = Some h
    /\ owner_verified t n pr h ow /\ approval_fits t (working_path wd) n pr ow auth
    /\ meets (expected_head expected) h
    /\ compared t (working_path wd) o r n pr h expected auth.
Proof.
  unfold merge_pr_async. intros R A. asked_step. asked_step; [|by split]. asked_step; [|by split]. runs_calls.
  match goal with R : runs (match pr_head_sha ?p with _ => _ end) _ _ |- _ => rename p into pr; rename R into R2 end.
  destruct (pr_head_sha pr) as [head|] eqn:Eh.
  2: { apply runs_ret in R2 as [-> _]. by match goal with A : asked [] _ _ _ _ _ |- _ => destruct A as [? []] end. }
  asked_step; [|by apply publication_owner_quiet].
  match goal with R : runs (publication_owner _ _ _ _) ?tp (Ok ?u) |- _ =>
    rename u into ow; rename R into Ro; assert (Ho : owner_verified tp n pr head ow) end.
  { unfold publication_owner in Ro. apply runs_call_inv in Ro as (st & t' & -> & [-> E]%runs_ret).
    exists st. split; [by left|done]. }
  eapply asked_coordinates in R2 as (t3 & t4 & -> & R2 & A' & Hf); [|done]. asked_step.
  assert (Hm : meets (expected_head expected) head).
  { intros v Hv. match goal with H : match _ ≫= _ with _ => _ end = true |- _ => rewrite Hv in H;
      by apply String.eqb_eq in H end. }
  eapply asked_evidence in R2 as (t5 & t6 & -> & R2 & A2 & Hc); [|done].
  destruct (asked_merge_at_forge _ _ _ _ _ _ _ _ _ _ _ _ _ R2 A2) as (-> & -> & -> & -> & ->).
  split; [done|]. split; [done|]. exists pr, ow.
  destruct x1 as [o' r']. cbn [fst snd] in *.
  split_and!; eauto 10 with seen.
Qed.

(** What a merge for a request without an approval has been checked for, and with one:
    the approval was proven twice with the same receipt. *)
Definition approved t (dir : PathBuf) (o r : string) (n : Z) (pr : ForgejoPullRequest) (head ow : string)
    (agent branch : string) (req : MergePrRequest) : Prop :=
  match req_aggregate_approval req with
  | None => exists url, seen t (GetRepositoryUrl dir) (Ok url)
             /\ performed t (reject_unreferenced_aggregate project_dir n url) (Ok tt)
  | Some reference =>
      exists a observed,
        performed t (validate_parent_approval project_dir reference n (va_repository_url a) agent branch) (Ok a)
        /\ coordinates_match pr n a = true /\ ow <> agent /\ branch <> head_ref pr
        /\ head = va_head_sha a
        /\ performed t (observe_pr_evidence_for_pr dir (base_ref pr) head n None) (Ok observed)
        /\ revalidated t dir o r n head observed agent branch a
  end.

Lemma compare_field_ok name supplied accepted :
  compare_field name supplied accepted = Ok tt -> is_blank supplied = false /\ supplied = accepted.
Proof.
  unfold compare_field, ensure, differs. destruct (is_blank supplied), (String.eqb_spec supplied accepted); done.
Qed.

Lemma request_compare_ok a b h p m :
  validate_request_compare (Some a) b h p m = Ok tt ->
  is_blank b = false /\ is_blank h = false /\ b = va_base_sha a /\ h = va_head_sha a.
Proof.
  unfold validate_request_compare.
  destruct (compare_field "base" _ _) as [[]|] eqn:E1; [|done].
  destruct (compare_field "head" _ _) as [[]|] eqn:E2; [|done].
  intros _. apply compare_field_ok in E1 as [? ?], E2 as [? ?]. done.
Qed.

Lemma non_empty_not_blank s : is_blank s = false -> non_empty s = Some s.
Proof. intros H. unfold non_empty, str_is_empty. destruct (String.eqb_spec s ""); [by subst|done]. Qed.

Lemma approval_reference ref n url a b t v :
  runs (validate_parent_approval project_dir ref n url a b) t (Ok v) -> va_reference v = ref.
Proof.
  unfold validate_parent_approval. intros R.
  repeat (apply runs_bind_ok_inv in R as (? & [?|?] & ? & _ & _ & R); [|by destruct R]).
  apply runs_ret in R as [_ [= <-]]. done.
Qed.

End specs.
