(* ===== verification/GuidanceScenario.v ===== *)
(** * A run of the durable queue

    One concrete run (enqueue, claim, transport, acknowledge, recover) on the
    rowid-ordered engine, and the instances of the queue's properties at its
    stores; then the inbox. *)

From stdpp Require Import gmap.
From S2P Require Import Prelude RustStr JsonValue SqlTable GuidanceTypes Store Topic.
From S2P Require Import GuidanceQueue GuidanceRows GuidanceSystem GuidanceClaim.
From S2P Require Import GuidanceLifecycle GuidanceEnqueue GuidanceShadow Inbox GuidanceSpec.
From S2P Require Import GuidanceReplay GuidanceReplaySpec InboxSpec.

Local Open Scope string_scope.

#[export] Existing Instance rowid_engine.
#[export] Existing Instance bits_json_text.

(** A log that accepts every event, and a digest that is the identity. *)
#[export] Instance open_sink : EventSink := {| sink_accepts := fun _ _ => true |}.
#[export] Instance plain_digest : Sha256 := {| sha256_hex := fun v => v |}.

Definition db : list string := ["/"; "repo"; ".exo"; "inbox.db"].

(** Identifiers [prefix], [prefixi], [prefixii], ... *)
Fixpoint ids_from (prefix : string) (n : nat) : string :=
  match n with 0%nat => prefix | S n => ids_from (prefix ++ "i") n end.

Definition no_identity : GuidanceIdentity := {|
  gi_run_id := None; gi_session_id := None; gi_invocation_id := None; gi_generation := None;
  gi_runtime := None; gi_harness := None; gi_role := None |}.

Definition item (text : string) : GuidanceItemInput := {|
  in_from_agent := "root"; in_content := text; in_summary := None;
  in_injection_options := JObj [] |}.

Definition request (c : QueueClass) (key : option string) : GuidanceBatchRequest := {|
  req_agent_id := "main.worker"; req_queue_class := c; req_items := [item "a"; item "b"];
  req_identity := no_identity; req_idempotency_key := key; req_source_message_id := None |}.

Definition boundary (p : BoundaryPhase) : BoundaryEvidence := {|
  be_agent_id := "worker"; be_phase := p; be_invocation_id := None; be_generation := None;
  be_correlation_id := None |}.

Definition consumer : GuidanceConsumer := {|
  gc_consumer_id := "c1"; gc_invocation_id := Some "inv"; gc_generation := Some 3%Z |}.

Definition attempt : TransportAttempt := {|
  ta_method := "pane"; ta_outcome := Success; ta_detail := None |}.

Definition evidence : RuntimeAcceptanceEvidence := {|
  ev_batch_id := "q"; ev_agent_id := "worker"; ev_queue_class := "steering";
  ev_item_ids := ["qi"; "qii"]; ev_consumer_id := "c1"; ev_invocation_id := Some "inv";
  ev_generation := Some 3%Z; ev_evidence_kind := RuntimeHook; ev_confidence := Exact;
  ev_correlation_id := None |}.

Definition op_enqueue := OpEnqueue 100 (ids_from "q") (request Steering (Some "k")).
Definition op_follow := OpEnqueue 101 (ids_from "f") (request FollowUp None).
Definition op_claim := OpClaim 110 (boundary WouldStop) consumer 60.
Definition op_transport := OpTransport 120 "q" "c1" attempt.
Definition op_ack := OpAck 130 evidence.

Definition st_new := run_ops [] (empty_store db).
Definition st_queued := run_ops [op_enqueue; op_follow] (empty_store db).
Definition st_leased := run_ops [op_enqueue; op_follow; op_claim] (empty_store db).
Definition st_submitted :=
  run_ops [op_enqueue; op_follow; op_claim; op_transport] (empty_store db).
Definition st_accepted :=
  run_ops [op_enqueue; op_follow; op_claim; op_transport; op_ack] (empty_store db).

(** The row a scenario store holds under an identifier. *)
Definition row_of (s : InboxStore) (id : string) : BatchRow :=
  match sql_first (sql_where (has_id id) (guidance_batches s)) with
  | Some r => r
  | None => new_batch_row 0 "" "" 0 no_identity (request Steering None)
  end.

Example scenario_states :
  map (fun s => map (fun r => (row_batch_id r, row_state r, row_attempt_count r))
                  (guidance_batches s)) [st_queued; st_leased; st_submitted; st_accepted]
  = [ [("q", Pending, 0%Z); ("f", Pending, 0%Z)];
      [("q", Leased, 0%Z); ("f", Pending, 0%Z)];
      [("q", Submitted, 1%Z); ("f", Pending, 0%Z)];
      [("q", Accepted, 1%Z); ("f", Pending, 0%Z)] ].
Proof. vm_compute. reflexivity. Qed.

Lemma row_of_elem s id :
  sql_first (sql_where (has_id id) (guidance_batches s)) = Some (row_of s id) ->
  row_of s id ∈ guidance_batches s /\ row_batch_id (row_of s id) = id.
Proof. apply sql_first_id. Qed.

Ltac scenario_row := apply row_of_elem; vm_compute; reflexivity.

Definition compat_request : GuidanceBatchRequest := {|
  req_agent_id := "main.worker"; req_queue_class := FollowUp; req_items := [item "hello"];
  req_identity := no_identity; req_idempotency_key := None; req_source_message_id := None |}.
Definition compat_enqueued : GuidanceEnqueueResult :=
  match (enqueue_batch_with_compatibility 100 (ids_from "q") compat_request "root" "hello"
           None st_new).2 with
  | Ok res => res
  | Err _ => {| er_batch := batch_of_row (row_of st_new "q") []; er_created := true |}
  end.

(** ** Instances of the properties *)

Lemma st_accepted_step : run_op op_ack st_submitted = st_accepted.
Proof.
  exact (eq_sym (run_ops_snoc [op_enqueue; op_follow; op_claim; op_transport] op_ack
                   (empty_store db))).
Qed.

Lemma claim_succeeds_iff_ready_witness :
  claim_ready 110 (normalize_agent_id "worker") WouldStop
    (recover_rows 110 (guidance_batches st_queued)).
Proof.
  apply (claim_succeeds_iff_ready 110 (boundary WouldStop) consumer 60 st_queued).
  - apply reachable_ok.
  - split; [reflexivity|]. split; [reflexivity|]. intros g [= <-]. done.
  - eexists. vm_compute. reflexivity.
Defined.

(** The batch is claimed, given back and claimed again by a recreated consumer:
    the row keeps the last invocation, the replay the first. *)
Definition second_consumer : GuidanceConsumer := {|
  gc_consumer_id := "c2"; gc_invocation_id := Some "inv2"; gc_generation := Some 4%Z |}.

Example replay_keeps_first_claim :
  let s := run_ops [op_enqueue; op_claim; OpRelease 120 "q" "c1" "restart" 120;
                    OpClaim 130 (boundary WouldStop) second_consumer 60] (empty_store db) in
  gi_invocation_id (row_identity (row_of s "q")) = Some "inv2" /\
  match replay_guidance_batches (ledger s) with
  | Ok p => (b ← p !! "q"; gi_invocation_id (rb_identity b)) = Some "inv"
  | Err _ => False
  end.
Proof. vm_compute. split; reflexivity. Qed.

(** Clearing the inbox deletes the batches, but not for the replay. *)
Example replay_survives_clear :
  let s := (clear_all (run_ops [op_enqueue] (empty_store db))).1 in
  guidance_batches s = [] /\
  match replay_guidance_batches (ledger s) with
  | Ok p => rb_state <$> p !! "q" = Some Pending
  | Err _ => False
  end.
Proof. vm_compute. split; reflexivity. Qed.

(** Both batches are due; steering is handed out. *)
Lemma claim_respects_queue_order_witness :
  exists r, gb_queue_seq
      (match (claim_next 110 (boundary WouldStop) consumer 60 st_queued).2 with
       | Returns (Ok (Some b)) => b
       | _ => batch_of_row (row_of st_queued "f") []
       end) = row_queue_seq r /\ row_queue_class r = Steering.
Proof.
  destruct (claim_respects_queue_order 110 (boundary WouldStop) consumer 60 st_queued
              (claim_next 110 (boundary WouldStop) consumer 60 st_queued).1
              (match (claim_next 110 (boundary WouldStop) consumer 60 st_queued).2 with
               | Returns (Ok (Some b)) => b
               | _ => batch_of_row (row_of st_queued "f") []
               end)) as (r & _ & _ & _ & Ec & Es & _).
  - apply reachable_ok.
  - vm_compute. reflexivity.
  - exists r. split; [exact Es|]. rewrite <- Ec. vm_compute. reflexivity.
Defined.

Lemma claim_is_exclusive_witness :
  exists r, r ∈ guidance_batches st_leased /\ row_lease_expires_at r = Some 170%Z.
Proof.
  destruct (claim_is_exclusive 110 (boundary WouldStop) consumer 60 st_queued
              (claim_next 110 (boundary WouldStop) consumer 60 st_queued).1
              (match (claim_next 110 (boundary WouldStop) consumer 60 st_queued).2 with
               | Returns (Ok (Some b)) => b
               | _ => batch_of_row (row_of st_queued "f") []
               end)) as [(r & Hr & _ & _ & _ & He) _].
  - apply reachable_ok.
  - vm_compute. reflexivity.
  - exists r. split; [exact Hr|exact He].
Defined.

Lemma acknowledge_is_exact_cas_witness :
  exists r, r ∈ guidance_batches st_submitted /\ ack_authorises evidence st_submitted r.
Proof.
  pose proof (acknowledge_is_exact_cas 130 evidence st_submitted) as C.
  destruct (acknowledge_runtime 130 evidence st_submitted) as [s' res] eqn:E.
  apply C; [apply reachable_ok|repeat split; reflexivity|].
  change res with (s', res).2. rewrite <- E. vm_compute. reflexivity.
Defined.

Lemma acknowledge_idempotent_witness :
  acknowledge_runtime 140 evidence (acknowledge_runtime 130 evidence st_submitted).1
  = ((acknowledge_runtime 130 evidence st_submitted).1, Ok AckAlreadyAccepted).
Proof.
  apply (acknowledge_idempotent 130 140 evidence st_submitted).
  - apply reachable_ok.
  - vm_compute. reflexivity.
Defined.

Lemma transport_submits_leased_batch_witness :
  (record_transport_attempt 120 (row_batch_id (row_of st_leased "q")) "c1" attempt st_leased).2
  = Ok 1%Z.
Proof.
  pose proof (transport_submits_leased_batch 120 "c1" attempt st_leased
                (row_of st_leased "q")) as T.
  destruct (record_transport_attempt _ _ _ _ _) as [s' res].
  rewrite bool_decide_eq_true_2 in T by (vm_compute; split; reflexivity).
  destruct T as [-> _]; [apply reachable_ok|scenario_row| |vm_compute; reflexivity].
  split; [reflexivity|]. split; [reflexivity|]. split; [reflexivity|]. discriminate.
Defined.

Lemma release_spends_retry_budget_witness :
  (release_for_retry 130 (row_batch_id (row_of st_submitted "q")) "c1" "later" 200
     st_submitted).2 = Ok Pending.
Proof.
  pose proof (release_spends_retry_budget 130 "c1" "later" 200 st_submitted
                (row_of st_submitted "q")) as T.
  destruct (release_for_retry _ _ _ _ _ _) as [s' res].
  rewrite bool_decide_eq_true_2 in T by (vm_compute; split; reflexivity).
  destruct T as [-> _]; [apply reachable_ok|scenario_row|repeat split; reflexivity|].
  vm_compute. reflexivity.
Defined.

Lemma cancel_is_final_witness :
  (cancel_batch 150 (row_batch_id (row_of st_accepted "q")) "stop" st_accepted).2
  = Ok Accepted.
Proof.
  pose proof (cancel_is_final 150 "stop" st_accepted (row_of st_accepted "q")) as T.
  destruct (cancel_batch _ _ _ _) as [s' res].
  replace (GuidanceState.is_terminal (row_state (row_of st_accepted "q"))) with true in T
    by (vm_compute; reflexivity).
  destruct T as [_ ->]; [apply reachable_ok|scenario_row|vm_compute; reflexivity..].
Defined.

(** The submitted lease (120 + 300) has run out: two seconds of backoff. *)
Lemma recovery_releases_expired_witness :
  map row_available_at (guidance_batches (recover_expired_leases 500 st_submitted).1)
  = [502; 101]%Z.
Proof.
  pose proof (recovery_releases_expired 500 st_submitted) as T.
  destruct (recover_expired_leases 500 st_submitted) as [s' res].
  destruct T as [Eb _]; [apply reachable_ok|]. cbn [fst]. rewrite Eb. vm_compute. reflexivity.
Defined.

Definition enqueue_outcome := enqueue_batch 100 (ids_from "q") (request Steering (Some "k")) st_new.
Definition enqueued : GuidanceEnqueueResult :=
  match enqueue_outcome.2 with
  | Ok res => res
  | Err _ => {| er_batch := batch_of_row (row_of st_new "q") []; er_created := true |}
  end.

Lemma enqueue_appends_batch_witness :
  map it_position (gb_items (er_batch enqueued)) = [0; 1]%Z.
Proof.
  destruct (enqueue_appends_batch 100 (ids_from "q") (request Steering (Some "k")) st_new
    enqueue_outcome.1 enqueued) as [? W].
  - apply reachable_ok.
  - vm_compute. reflexivity.
  - vm_compute. reflexivity.
  - do 13 destruct W as [? W]. rewrite W. reflexivity.
Defined.

Lemma acceptance_needs_exact_evidence_witness :
  row_of st_accepted "q" ∈ guidance_batches st_submitted \/
  exists now ev r, op_ack = OpAck now ev /\ r ∈ guidance_batches st_submitted /\
    row_key (row_of st_accepted "q") = row_key r /\ ack_authorises ev st_submitted r.
Proof.
  apply (acceptance_needs_exact_evidence op_ack st_submitted).
  - apply reachable_ok.
  - rewrite st_accepted_step. scenario_row.
  - vm_compute. reflexivity.
Defined.

Lemma terminal_rows_stable_witness :
  row_of st_accepted "q" ∈ guidance_batches (run_ops [op_claim; OpRecover 900] st_accepted).
Proof.
  apply terminal_rows_stable.
  - apply reachable_ok.
  - scenario_row.
  - vm_compute. reflexivity.
Defined.

Lemma enqueue_key_is_idempotent_witness :
  exists batch, enqueue_batch 900 (ids_from "z") (request Steering (Some "k"))
      (run_ops [op_claim; op_transport] enqueue_outcome.1)
    = (run_ops [op_claim; op_transport] enqueue_outcome.1,
       Ok {| er_batch := batch; er_created := false |}) /\
    gb_batch_id batch = gb_batch_id (er_batch enqueued).
Proof.
  pose proof (enqueue_key_is_idempotent 100 (ids_from "q") (request Steering (Some "k")) st_new
    enqueue_outcome.1 enqueued "k" [op_claim; op_transport] 900 (ids_from "z")
    (request Steering (Some "k"))) as T.
  rewrite bool_decide_eq_true_2 in T by reflexivity.
  apply T; [apply reachable_ok|vm_compute; reflexivity|reflexivity..].
Defined.

(** The lease of [q] (110 + 60) has run out at 500: the claim recovers it,
    finds it waiting for its backoff, and hangs on the connection mutex. *)
Lemma claim_blocks_after_recovery_witness :
  (claim_next 500 (boundary WouldStop) consumer 60 st_leased).2 = Blocks.
Proof.
  destruct (claim_blocks_after_recovery 500 (boundary WouldStop) consumer 60 st_leased)
    as [[_ B] _].
  - apply reachable_ok.
  - split; [reflexivity|]. split; [reflexivity|]. intros g [= <-]. done.
  - reflexivity.
  - apply B. split.
    + intros (_ & _ & Blk & _).
      destruct (Blk eq_refl (recover_row 500 0 (row_of st_leased "q"))) as (r & Hr & _ & Hc & Av).
      * apply elem_of_sql_update. exists (row_of st_leased "q").
        split; [scenario_row|vm_compute; reflexivity].
      * vm_compute; reflexivity.
      * vm_compute; reflexivity.
      * vm_compute; reflexivity.
      * apply elem_of_sql_update in Hr as (r0 & Hr0 & ->).
        assert (r0 = row_of st_leased "q" \/ r0 = row_of st_leased "f") as [-> | ->].
        { vm_compute in Hr0. apply elem_of_cons in Hr0 as [->|Hr0]; [left; reflexivity|].
          apply list_elem_of_singleton in Hr0. right. exact Hr0. }
        -- vm_compute in Av. discriminate Av.
        -- vm_compute in Hc. discriminate Hc.
    + exists (row_of st_leased "q"). split; [scenario_row|].
      split; vm_compute; reflexivity.
Defined.

Lemma compat_enqueue_in_sync_witness :
  exists m c,
    messages (enqueue_batch_with_compatibility 100 (ids_from "q") compat_request "root" "hello"
      None st_new).1 = (messages st_new ++ [m])%list /\
    compare_batch (enqueue_batch_with_compatibility 100 (ids_from "q") compat_request "root"
      "hello" None st_new).1 "q" = Ok c /\ in_sync c = true.
Proof.
  destruct (compat_enqueue_in_sync 100 (ids_from "q") compat_request "root" "hello" None st_new
    (enqueue_batch_with_compatibility 100 (ids_from "q") compat_request "root" "hello" None
       st_new).1 compat_enqueued (item "hello")) as (m & c & Em & _ & _ & _ & _ & Ec & Es).
  - apply reachable_ok.
  - constructor.
  - vm_compute. reflexivity.
  - vm_compute. reflexivity.
  - reflexivity.
  - reflexivity.
  - reflexivity.
  - reflexivity.
  - exists m, c. split; [exact Em|]. split; [exact Ec|exact Es].
Defined.


(** * A run of the inbox

    A concrete mailbox on the rowid-ordered engine, and the instances of the
    inbox properties at its stores. *)

Local Open Scope string_scope.

Definition op_write_1 := OpWrite 10 "root" "main.worker" "one" None.
Definition op_write_2 := OpWrite 20 "root" "worker" "two" (Some "short").
Definition op_write_3 := OpWrite 15 "root" "main" "three" None.

Definition st_mail := run_ops [op_write_1; op_write_2; op_write_3] (empty_store db).

Example mail_recipients :
  map (fun m => (msg_id m, msg_to_agent m)) (messages st_mail)
  = [(1, "worker"); (2, "worker"); (3, "main")]%Z.
Proof. vm_compute. reflexivity. Qed.

Lemma st_mail_ids : messages_ok st_mail.
Proof. apply (bool_decide_unpack _). vm_compute. exact I. Qed.

Lemma st_mail_meta : meta_ok st_mail.
Proof. apply (bool_decide_unpack _). vm_compute. exact I. Qed.

Lemma drain_returns_each_message_once_witness :
  map msg_id (match (drain_unread 30 "worker" st_mail).2 with Ok l => l | Err _ => [] end)
    ≡ₚ map msg_id (List.filter (unread_for (normalize_agent_id "worker")) (messages st_mail)) /\
  unread_count (drain_unread 30 "worker" st_mail).1 "worker" = 0%Z.
Proof.
  destruct (drain_returns_each_message_once 30 40 "worker" st_mail)
    as (found & E & P & _ & _ & U & _); [apply reachable_ok|].
  rewrite E. split; [by apply Permutation_map|exact U].
Defined.

Lemma peek_notifies_once_witness :
  (peek_unnotified 40 "worker" (peek_unnotified 30 "worker" st_mail).1).2 = Ok [] /\
  unread_count (peek_unnotified 30 "worker" st_mail).1 "worker" = unread_count st_mail "worker".
Proof.
  destruct (peek_notifies_once 30 40 "worker" st_mail st_mail_ids)
    as (found & _ & _ & _ & _ & U & N). split; [exact N|apply U].
Defined.

(** Three pokes about message 2: 60, 120, then the cap 200. *)
Lemma poke_backoff_doubles_witness :
  exists m, meta_of (pokes "worker" 2 60 200 ([100; 200] ++ [300])%Z%list st_mail)
                    (normalize_agent_id "worker") = Some m /\
    meta_poke_backoff_secs m = Some 200%Z.
Proof.
  destruct (poke_backoff_doubles "worker" 2 60 200 [100; 200]%Z 300 st_mail)
    as (m & E & _ & _ & B).
  - apply st_mail_meta.
  - unfold u64_max. lia.
  - unfold u64_max. lia.
  - vm_compute. discriminate.
  - exists m. split; [exact E|]. rewrite B. vm_compute. reflexivity.
Defined.

Lemma poke_waits_for_backoff_witness :
  "worker" ∉ map pc_agent_id
    (agents_needing_poke 150 60 (record_poke 100 "worker" 2 60 200 st_mail).1).
Proof.
  intros (c & E & Hc)%list_elem_of_fmap.
  apply (poke_waits_for_backoff 100 150 "worker" 2 60 200 60 st_mail) in Hc.
  - apply Hc. rewrite <- E. vm_compute. reflexivity.
  - apply st_mail_meta.
  - vm_compute. reflexivity.
  - vm_compute. reflexivity.
Defined.

(** A database written before the write site normalised recipients. *)
Definition st_old : InboxStore := set_messages (empty_store db)
  [ {| msg_id := 1; msg_from_agent := "root"; msg_to_agent := "main.worker"; msg_content := "one";
       msg_summary := None; msg_created_at := 10; msg_notified_at := None; msg_read_at := None |};
    {| msg_id := 2; msg_from_agent := "worker"; msg_to_agent := "main"; msg_content := "two";
       msg_summary := None; msg_created_at := 20; msg_notified_at := None; msg_read_at := None |} ].

Lemma migration_canonicalises_recipients_witness :
  map msg_to_agent (messages (migrate st_old)) = ["worker"; "root"] /\
  messages (migrate (migrate st_old)) = messages (migrate st_old).
Proof.
  destruct (migration_canonicalises_recipients st_old) as (E & _ & _ & I).
  - apply (bool_decide_unpack _). vm_compute. exact Logic.I.
  - split; [rewrite E; vm_compute; reflexivity|exact I].
Defined.
