(* ===== verification/TransportScenario.v ===== *)
(** * A run of the transport cache

    A restart: the cache is rebuilt from the durable queue and drained, and the
    instances of the cache's properties; then the publications of one slice. *)

From stdpp Require Import gmap sorting.
From stdpp Require Import gmap.
From S2P Require Import Prelude RustStr JsonValue SqlTable GuidanceTypes Store GuidanceQueue.
From S2P Require Import GuidanceRows GuidanceSystem GuidanceSpec GuidanceScenario TransportCache.
From S2P Require Import TransportCacheSpec TransportRebuild Publication PublicationSpec.
From S2P Require Import PublicationProps PublicationOwnership.

Local Open Scope string_scope.

Definition rebuild (s : InboxStore) (ib : AgentInbox) :=
  rebuild_from_durable_at "worker" "%1" "/repo" claude_default 200 s ib.
Definition cold : AgentInbox := new_inbox DEFAULT_WARNING_THRESHOLD DEFAULT_HARD_CAP.
Definition warm : AgentInbox := (rebuild st_queued cold).1.2.

Definition bodies (ib : AgentInbox) : list (Z * string) :=
  map (fun m => (im_id m, im_body m)) (aq_messages (queue_of "worker" ib)).

Definition two_lines : string := "a" ++ bytes_str [10; 10] ++ "b".

Example rebuild_run :
  (rebuild st_queued cold).2 = Ok 2%Z /\ bodies warm = [(1, two_lines); (2, two_lines)]%Z /\
  (rebuild st_queued warm).2 = Ok 0%Z /\
  structured_key "worker" "MergeReady" "[MERGE READY] PR #7: x" = "structured:worker:MergeReady:7".
Proof. vm_compute. repeat split. Qed.

(** The durable batch stays pending until the runtime accepts it, so the
    rebuild after a successful injection queues it again. *)
Example injected_batch_is_restored :
  match run_inbox_consumer 3 (fun _ => true) 0 "worker" warm with
  | Some (drained, log) =>
      log = [1; 2]%Z /\ bodies drained = [] /\ (rebuild st_queued drained).2 = Ok 2%Z /\
      map im_cache_key (aq_messages (queue_of "worker" (rebuild st_queued drained).1.2))
      = [Some "q"; Some "f"]
  | None => False
  end.
Proof. vm_compute. repeat split. Qed.

Lemma cold_queue : queue_of "worker" cold = empty_queue.
Proof. reflexivity. Qed.

Lemma rebuild_restores_pending_witness :
  exists ib', rebuild st_queued cold = (st_queued, ib', Ok 2%Z) /\
    map im_cache_key (aq_messages (queue_of "worker" ib')) = [Some "q"; Some "f"].
Proof.
  destruct (rebuild_restores_pending db [op_enqueue; op_follow] "worker" "%1" "/repo"
              claude_default 200 cold) as (ib' & msgs & E & Em & Ek & _).
  - rewrite cold_queue. by apply queue_ok_empty.
  - done.
  - vm_compute. discriminate.
  - vm_compute. discriminate.
  - exists ib'. split; [etransitivity; [exact E|]; vm_compute; reflexivity|].
    rewrite Em, map_app, Ek. vm_compute. reflexivity.
Defined.

(** ** Interleavings *)

Definition note (key : string) : InboxMessage :=
  with_cache_key key (new_message "%1" "/repo" "root" "worker" "go" "").
Definition world_1 : world := {|
  w_inbox := (enqueue "worker" (note "k") cold).1; w_tasks := [("worker", AtHead)];
  w_injected := [] |}.
Definition world_2 : world := {|
  w_inbox := (begin_delivery "worker" (w_inbox world_1)).1;
  w_tasks := [("worker", Delivering (with_id 1 (note "k")) 0)]; w_injected := [] |}.
Definition world_3 : world := {|
  w_inbox := w_inbox world_2; w_tasks := [("worker", Delivering (with_id 1 (note "k")) 1)];
  w_injected := [("worker", 1%Z)] |}.

Lemma world_3_reachable : rtc step (init_world DEFAULT_WARNING_THRESHOLD DEFAULT_HARD_CAP) world_3.
Proof.
  eapply rtc_l.
  { eapply (step_enqueue _ "worker" (note "k") (w_inbox world_1)); [vm_compute; reflexivity|done]. }
  eapply (rtc_l _ _ world_2).
  { eapply (step_begin world_1 "worker" (with_id 1 (note "k")) (w_inbox world_2) [] []);
      vm_compute; reflexivity. }
  apply rtc_once. by apply (step_retry world_2 "worker" (with_id 1 (note "k")) 0 [] []).
Qed.

Lemma cache_serialises_delivery_witness :
  head (aq_messages (queue_of "worker" (w_inbox world_3))) = Some (with_id 1 (note "k")) /\
  (count_in 1 (log_of "worker" (w_injected world_3)) <= 8)%Z.
Proof.
  destruct (cache_serialises_delivery DEFAULT_WARNING_THRESHOLD DEFAULT_HARD_CAP world_3 "worker")
    as (_ & _ & _ & _ & _ & Hd & _ & Hc).
  - done.
  - eapply rtc_subrel; [|exact world_3_reachable]. by constructor.
  - split; [apply (Hd _ 1%Z); by left|apply (Hc 1%Z)].
Defined.

Lemma no_message_stranded_witness :
  ("worker", AtHead) ∈ w_tasks world_3 \/
  exists k, ("worker", Delivering (with_id 1 (note "k")) k) ∈ w_tasks world_3.
Proof.
  apply (no_message_stranded DEFAULT_WARNING_THRESHOLD DEFAULT_HARD_CAP world_3 "worker"
           (with_id 1 (note "k")) []).
  - done.
  - exact world_3_reachable.
  - vm_compute. reflexivity.
Defined.

(** Rebuilds start no consumer: without them the theorem above would not hold. *)
Example rebuild_alone_starts_no_consumer :
  exists w, rtc step_or_restore (init_world DEFAULT_WARNING_THRESHOLD DEFAULT_HARD_CAP) w /\
    length (aq_messages (queue_of "worker" (w_inbox w))) = 1%nat /\ w_tasks w = [].
Proof.
  eexists. split; [apply rtc_once; eapply (sr_restore _ "worker" (note "k"))|].
  - vm_compute. reflexivity.
  - done.
  - split; vm_compute; reflexivity.
Qed.

Lemma world_1_queue : queue_ok DEFAULT_HARD_CAP 2 (queue_of "worker" (w_inbox world_1)).
Proof.
  apply (queue_ok_push DEFAULT_HARD_CAP 1 empty_queue _ (note "k")); try done.
  by apply queue_ok_empty.
Qed.

(** A target that never answers: 8 attempts, then the message is abandoned. *)
Lemma consumer_drains_queue_witness :
  exists ib' ns, run_inbox_consumer 2 (fun _ => false) 0 "worker" (w_inbox world_1)
    = Some (ib', concat (zip_with (fun m n => repeat (im_id m) n)
                    (aq_messages (queue_of "worker" (w_inbox world_1))) ns)) /\
    length ns = 1%nat /\ aq_messages (queue_of "worker" ib') = [].
Proof.
  destruct (consumer_drains_queue DEFAULT_HARD_CAP 2 (fun _ => false) 0 "worker" (w_inbox world_1))
    as (ib' & ns & R).
  - exact world_1_queue.
  - reflexivity.
  - exists ib', ns. destruct (R 2%nat) as (E & L & _ & M & _); [vm_compute; lia|].
    split; [exact E|]. split; [exact L|exact M].
Defined.

(** * A run of the publication registry

    One slice published, recreated, republished and abandoned, and the
    instances of the registry's properties on it. *)

Local Open Scope string_scope.

Definition published (sha : string) (invocation : string) : PublishedHead := {|
  ph_pr_number := 7; ph_head_branch := "main.slice"; ph_base_branch := "main";
  ph_head_sha := sha; ph_author_agent := Some "slice"; ph_author_role := Some "dev";
  ph_provenance := LedgerOwned; ph_slice_id := Some "s1"; ph_invocation_id := Some invocation;
  ph_invocation_trigger := None; ph_invocation_runtime := Some "codex"; ph_succession := [] |}.

(** The slice's session is recreated as [inv2]. *)
Definition adoption : PublicationAdoptionRequest := {|
  par_agent_name := "slice"; par_head_branch := "main.slice"; par_base_branch := "main";
  par_slice_id := "s1"; par_pr_number := None; par_head_sha := None;
  par_from := "inv1"; par_to := "inv2" |}.

Definition pub_ops : list pub_op :=
  [PubPublish (published "aaa" "inv1"); PubAdopt 50 adoption].

Lemma published_ok sha invocation : head_ok (published sha invocation).
Proof. split; [by split|constructor]. Qed.

Lemma pub_ops_ok : Forall pub_op_ok pub_ops.
Proof. repeat constructor; done. Qed.

(** The head of the first commit, with its lineage. *)
Definition lineage : InvocationSuccession := {|
  is_from := "inv1"; is_to := "inv2"; is_reason := SessionRecreate; is_recorded_at := 50 |}.
Definition adopted_head : PublishedHead := push_succession (published "aaa" "inv1") lineage.

Lemma registry_stays_consistent_witness :
  exists heads, read_published_heads (run_pubs pub_ops None) = Ok heads /\
    registry_ok heads /\ heads = [adopted_head].
Proof.
  destruct (registry_stays_consistent pub_ops pub_ops_ok) as (heads & E & Hok).
  exists heads. split; [exact E|]. split; [exact Hok|].
  assert (E' : read_published_heads (run_pubs pub_ops None) = Ok [adopted_head])
    by (vm_compute; reflexivity).
  congruence.
Defined.

Lemma one_head_ok h : head_ok h -> registry_ok [h].
Proof.
  intros Hh. constructor.
  - by constructor.
  - apply NoDup_singleton.
  - intros a b ->%list_elem_of_singleton ->%list_elem_of_singleton. done.
  - intros a b ->%list_elem_of_singleton ->%list_elem_of_singleton. done.
Qed.

Lemma registry_roundtrip_witness :
  read_published_heads (write_published_heads [adopted_head]) = Ok [adopted_head].
Proof.
  apply registry_roundtrip, one_head_ok. split; [by split|].
  constructor; [by split|constructor].
Defined.

(** The recreated invocation pushes a new commit; it inherits the lineage. *)
Lemma publish_twice_is_duplicate_witness :
  publish_verified_head (published "bbb" "inv2")
    (publish_verified_head (published "bbb" "inv2") (run_pubs pub_ops None)).1
  = ((publish_verified_head (published "bbb" "inv2") (run_pubs pub_ops None)).1, Ok Duplicate).
Proof.
  apply (publish_twice_is_duplicate pub_ops (published "bbb" "inv2") _ Added).
  - exact pub_ops_ok.
  - apply published_ok.
  - vm_compute. reflexivity.
Defined.

Definition resolver (owner : string) : option OwnerIdentity :=
  if String.eqb owner "slice" then
    Some {| oi_birth_branch := "main.slice"; oi_parent_branch := "main";
            oi_slice_id := Some "s1" |}
  else None.

Lemma verified_owner_has_evidence_witness :
  exists heads p, read_published_heads (run_pubs pub_ops None) = Ok heads /\ p ∈ heads /\
    ph_author_agent p = Some "slice".
Proof.
  destruct (verified_owner_has_evidence resolver (fun _ => Some "inv2") (run_pubs pub_ops None)
    7 "main.slice" "main" "aaa" "slice") as (heads & p & i & E & Hp & _ & Ha & _).
  - vm_compute. reflexivity.
  - exists heads, p. split; [exact E|]. split; [exact Hp|exact Ha].
Defined.

Lemma adoption_transfers_ownership_witness :
  exists h', (adopt_heads 50 adoption [published "aaa" "inv1"]).1 = [h'] /\
    verify_publication_ownership h' None (Some "main.slice") (Some "main") (Some "s1")
      (Some "inv2") = Ok tt.
Proof.
  destruct (adoption_transfers_ownership 50 adoption (published "aaa" "inv1") None
    (Some "main.slice") (Some "main") (Some "s1")) as (h' & E & V & _).
  - vm_compute. reflexivity.
  - vm_compute. reflexivity.
  - exists h'. split; [exact E|exact V].
Defined.

(** The slice's second attempt, as another pull request. *)
Definition with_pr (pr : Z) (h : PublishedHead) : PublishedHead := {|
  ph_pr_number := pr; ph_head_branch := ph_head_branch h; ph_base_branch := ph_base_branch h;
  ph_head_sha := ph_head_sha h; ph_author_agent := ph_author_agent h;
  ph_author_role := ph_author_role h; ph_provenance := ph_provenance h;
  ph_slice_id := ph_slice_id h; ph_invocation_id := ph_invocation_id h;
  ph_invocation_trigger := ph_invocation_trigger h;
  ph_invocation_runtime := ph_invocation_runtime h; ph_succession := ph_succession h |}.

(** The first attempt was abandoned, the second is open. *)
Definition history : list PublishedHead :=
  [published "aaa" "inv1"; with_pr 9 (published "bbb" "inv3")].
Definition abandonment : AbandonedAttempt := {|
  aa_attempt := 1; aa_pr_number := Some 7%Z; aa_head_sha := None;
  aa_invocation_id := Some "inv1" |}.

Lemma live_pr_is_newest_owned_witness :
  exists l1 h l2, history = (l1 ++ h :: l2)%list /\ ph_pr_number h = 9%Z.
Proof.
  pose proof (live_pr_is_newest_owned history "s1" {[7; 9]}%Z [abandonment] eq_refl) as L.
  assert (E : resolve_live_pr_for_slice_with_abandonments history "s1" {[7; 9]}%Z [abandonment]
              = Live 9) by (vm_compute; reflexivity).
  rewrite E in L. destruct L as (l1 & h & l2 & Eh & Ep & _). exists l1, h, l2.
  split; [exact Eh|exact Ep].
Defined.

Lemma abandonment_replay_is_harmless_witness :
  resolve_live_pr_for_slice_with_abandonments history "s1" {[7; 9]}%Z [abandonment; abandonment]
  = resolve_live_pr_for_slice_with_abandonments history "s1" {[7; 9]}%Z [abandonment].
Proof.
  apply abandonment_replay_is_harmless. intros x.
  rewrite elem_of_cons. split; [|by right]. by intros [->|H]; [left|].
Defined.
