(* ===== verification/ReviewScenario.v ===== *)
(** * A run of the review watcher

    One pull request of the slice [TransportScenario] publishes, reviewed and
    built, and the instances of the watcher's properties on it. *)

From stdpp Require Import gmap pretty.
From S2P Require Import Prelude RustStr JsonValue Publication TransportScenario.
From S2P Require Import ReviewTypes ReviewEvents ReviewWatcher.
From S2P Require Import ReviewEventsSpec ReviewWatcherSpec.
Local Open Scope string_scope.

(** ** Polls of one head *)

Definition approval : ForgejoReview := {|
  fr_review_id := Some 11%Z; fr_body := "looks good"; fr_state := Approved;
  fr_author_branch := None; fr_commit_id := Some "aaa"; fr_submitted_at := None;
  fr_author_agent_id := Some "reviewer" |}.

Definition poll (reviews : list ForgejoReview) (ci : CIStatus) (now : Z) : Poll := {|
  po_pr_number := 7; po_sha := "aaa"; po_comments := []; po_reviews := reviews;
  po_ci_status := ci; po_merge_blocked_on_ci := false; po_reviewer_registered := true;
  po_forgejo_review_present := true; po_replay := false; po_branch := "main.slice";
  po_max_wait_seconds := 60; po_now := now; po_now_head := now; po_now_end := now |}.

Definition seconds (n : Z) : Z := (n * nanos_per_second)%Z.

Definition fresh : WatchState := new_watch_state "main.slice" Codex "aaa" CIUnknown 0 0.

(** Approved while the checks run; they fail, recover and the wait runs out. *)
Definition story : list Poll :=
  [poll [approval] CIPending (seconds 1); poll [approval] CIFailure (seconds 2);
   poll [approval] CISuccess (seconds 3); poll [approval] CIFailure (seconds 70);
   poll [approval] CIFailure (seconds 80)].

Definition story_kinds : list (option string) :=
  map kind_of (run_polls story fresh).2.

Example story_announces :
  omap id story_kinds = ["approved"; "ci_triggered"; "ci_blocked"; "timeout"].
Proof. vm_compute. reflexivity. Qed.

Lemma one_notice_per_head_witness :
  Forall (fun ks => notices ks (run_polls story fresh).2 <= 1)%nat
    [["fixes_pushed"; "commits_pushed"]; ["timeout"]; ["ci_blocked"]; ["ci_triggered"]]
  /\ map (fun ks => notices ks (run_polls story fresh).2) [["timeout"]; ["ci_blocked"]]
     = [1; 1]%nat.
Proof.
  split; [|vm_compute; reflexivity].
  apply (one_notice_per_head "aaa" story fresh). repeat (constructor; [by split|]). constructor.
Defined.

Lemma unchanged_pr_stays_quiet_witness :
  let st1 := (compute_pr_actions_with_context (poll [approval] CIFailure (seconds 2)) fresh).1 in
  compute_pr_actions_with_context (poll [approval] CIFailure (seconds 9)) st1 = (st1, []).
Proof.
  cbn zeta.
  assert (E := unchanged_pr_stays_quiet (poll [approval] CIFailure (seconds 2))
                 (poll [approval] CIFailure (seconds 9)) fresh ltac:(by split) eq_refl).
  cbn zeta in E. rewrite E. vm_compute. reflexivity.
Defined.

(** ** Restarts *)

(** The predecessor saw the approval, then the checks fail. *)
Definition approved_state : WatchState :=
  (compute_pr_actions_with_context (poll [approval] CISuccess (seconds 1)) fresh).1.

Lemma restart_repeats_only_ci_witness :
  let st1 := approved_state in
  let p := poll [approval] CISuccess (seconds 1) in
  map kind_of
    (compute_pr_actions_with_context (poll [approval] CISuccess (seconds 9))
       (reload "main.slice" Codex (seconds 8) p default_pr_state st1)).2 = [None; None].
Proof.
  cbn zeta.
  assert (E := restart_repeats_only_ci "main.slice" Codex (seconds 8)
                 (poll [approval] CISuccess (seconds 1)) (poll [approval] CISuccess (seconds 9))
                 default_pr_state fresh ltac:(by split) eq_refl eq_refl).
  cbn zeta in E. fold approved_state in E. rewrite E. vm_compute. reflexivity.
Defined.

(** Without the restart the failure is announced, with it it is not. *)
Definition persisted : WatcherPrState := persisted_pr "aaa" (Some approved_state) default_pr_state.

Lemma restart_forgets_the_block_witness :
  let failing := [poll [approval] CIFailure (seconds 9)] in
  notices ["ci_blocked"] (run_polls failing approved_state).2 = 1%nat
  /\ notices ["ci_blocked"]
       (run_polls failing (restored_state persisted "main.slice" Codex "aaa" (seconds 8))).2 = 0%nat.
Proof.
  cbn zeta. split; [vm_compute; reflexivity|].
  apply (restart_forgets_the_block "aaa" "main.slice" Codex (seconds 8) persisted).
  - split; vm_compute; reflexivity.
  - constructor; [by repeat split|constructor].
Defined.

(** ** Polls of the repository *)

Definition pull_request : ForgejoPullRequest := {|
  fp_number := 7; fp_title := "slice"; fp_body := "Authoring-Agent: slice-codex" ++ LF_str;
  fp_head_ref := "main.slice"; fp_base_ref := "main"; fp_head_sha := Some "aaa" |}.

Definition failed_check (name : string) : ForgejoCommitStatus :=
  {| fs_status := CIFailure; fs_context := Some name |}.

(** The checks of the head fail as those of its base do. *)
Definition forgejo (pull_requests : list ForgejoPullRequest) : Forgejo := {|
  fj_open_pull_requests := Ok pull_requests;
  fj_reviews := fun _ => Ok [ {| fv_id := Some 11%Z; fv_state := "APPROVED"; fv_body := "";
                                 fv_commit_id := Some "aaa"; fv_submitted_at := None;
                                 fv_author_login := Some "bot"; fv_dismissed := false;
                                 fv_stale := false |} ];
  fj_review_comments := fun _ _ => Ok []; fj_reviewer_login := Some "bot";
  fj_commit_status := fun _ => Ok CIFailure;
  fj_commit_statuses := fun _ => Some [failed_check "lint"];
  fj_base_sha := fun _ => Some "base" |}.

Definition env (pull_requests : list ForgejoPullRequest) (branch : string) : Env := {|
  env_forgejo := Some (forgejo pull_requests); env_repo_info := Ok tt;
  env_published_file := write_published_heads [published "aaa" "inv1"];
  env_agents := [("slice", {| ar_agent_type := Codex; ar_birth_branch := branch;
                              ar_parent_branch := "main"; ar_slice_id := Some "s1" |})];
  env_read_invocation := fun _ => Ok (Some {| inv_invocation_id := "inv1"; inv_ended_at := None;
                                              inv_status := Running |});
  env_reviewer_invocation := fun _ _ => Some "reviewer"; env_controller_epoch := None;
  env_ci_gate_enabled := true; env_max_wait_seconds := 60;
  env_instants := fun _ => {| at_new := 0; at_start := 1; at_head := 2; at_end := 3 |};
  env_utc_now := 0; env_reconcile_fault := None; env_evict_fault := None;
  env_persist_fault := None |}.

Definition watcher : Watcher := {| wr_prs := ∅; wr_file := FileAbsent |}.

(** The event types of a poll. *)
Definition effect_name (e : Effect) : string :=
  match e with
  | LogEvent t _ _ => t
  | NotifyEvent _ _ status _ => "notify " ++ status
  | Dispatch b _ _ t _ => t ++ " to " ++ b
  end.
Definition poll_names (e : Env) (w : Watcher) : list string :=
  map effect_name (poll_cycle e w).1.2.

Definition verified : Env := env [pull_request] "main.slice".
Definition first : Watcher := (poll_cycle verified watcher).1.1.

(** The first poll announces the approval and the checks. *)
Example first_poll_announces :
  poll_names verified watcher
  = ["pr.review"; "pr_review to main.slice"; "pr.review"; "pr_review to main.slice";
     "ci_status to main.slice"; "ci.status_changed"; "notify failure"; "agent.task_blocked"].
Proof. vm_compute. reflexivity. Qed.

(** The second poll of the same pull request records the blocked task again. *)
Example blocked_task_is_recorded_again : poll_names verified first = ["agent.task_blocked"].
Proof. vm_compute. reflexivity. Qed.

(** An owner on another branch is not verified. *)
Example unverified_owner_is_reported :
  poll_names (env [pull_request] "main.other") first = ["watcher.ownership_unresolved"].
Proof. vm_compute. reflexivity. Qed.

(** The merged pull request stays in memory. *)
Example merged_pr_is_kept :
  map_size (wr_prs (poll_cycle (env [] "main.slice") first).1.1) = 1%nat
  /\ poll_names (env [] "main.slice") first = [].
Proof. split; vm_compute; reflexivity. Qed.

(** ** The instances on these polls *)

Definition reg : registry :=
  match load_registry_from_forgejo verified FileAbsent with Ok r => r | Err _ => ∅ end.
Definition entry : PrEntry := pr_entry verified default_state_file pull_request.
Definition observation : Observation := {|
  ob_publication := Some (published "aaa" "inv1"); ob_head_sha := "aaa";
  ob_review_state := StateApproved; ob_comments := []; ob_reviews := [approval];
  ob_changes_requested_rounds := 0; ob_ci_status := CISuccess; ob_forgejo_review_present := true;
  ob_ci_block_evidence := None |}.
Definition timed_out : WatchState := set_timed_out fresh.

Lemma timed_out_head_stays_silent_witness :
  compute_pr_actions_with_context (poll_of verified false 7 entry observation [approval]) timed_out
  = (timed_out, []).
Proof.
  assert (E := timed_out_head_stays_silent verified FileAbsent reg 7 entry observation [approval]
                 timed_out ltac:(vm_compute; reflexivity) ltac:(vm_compute; reflexivity) eq_refl
                 eq_refl).
  cbn zeta in E. rewrite E. vm_compute. reflexivity.
Defined.


Lemma merged_sibling_goes_unnoticed_witness :
  Forall (fun e => about_sibling e = false) (poll_cycle (env [] "main.slice") first).1.2
  /\ is_Some (wr_prs (poll_cycle (env [] "main.slice") first).1.1 !! 7%Z).
Proof.
  destruct (proj1 merged_sibling_goes_unnoticed (env [] "main.slice") first) as [E K].
  split; [exact E|]. apply K. vm_compute. by eexists.
Defined.

(** The failure of the story's checks is blamed on the base. *)
Lemma ci_failure_attribution_witness :
  ce_attribution (classify_ci_failure (Some "base") (Some "aaa") (Some [failed_check "lint"])
    (Some [failed_check "lint"])) = BasePreExisting.
Proof.
  apply (proj1 (ci_failure_attribution (Some "base") (Some "aaa") (Some [failed_check "lint"])
    (Some [failed_check "lint"]))).
  exists [failed_check "lint"], [failed_check "lint"]. split; [|split].
  - split; [by exists "base"|by eexists|reflexivity|reflexivity].
  - exists "lint", (failed_check "lint"). split; [by left|done].
  - done.
Defined.
