(* ===== verification/CleanupScenario.v ===== *)
(** * Verified cleanup: runs against a concrete world

    One stale agent with a clean worktree, a merged pull request and a claimed
    hook trust.  The world answers every call; the runs apply the theorems of
    [CleanupSpec] and show what happens when git refuses the local deletion. *)

From stdpp Require Import gmap pretty.
From S2P Require Import Prelude RustStr ReviewTypes MutexRegistry Effects.
From S2P Require Import JsonValue Ledger Publication.
From S2P Require Import CleanupDecision CleanupCalls CleanupInspect CleanupReceipts.
From S2P Require Import CleanupCandidate CleanupExec CleanupService CleanupChecks CleanupSteps.
From S2P Require Import CleanupDiscover CleanupDiscoverSpec CleanupSpec.
Local Open Scope string_scope.

Definition sha : string := "aaaaaaaaaaaaaaaaaaaaaaaaaaaaaaaaaaaaaaaa".
Definition merge_sha : string := "bbbbbbbbbbbbbbbbbbbbbbbbbbbbbbbbbbbbbbbb".
Definition home : path := ["p"].
Definition stale_dir : path := ["p"; ".exo"; "agents"; "stale"].
Definition stale_tree : path := ["p"; ".exo"; "worktrees"; "stale"].

Definition stale_svc : Service :=
  {| sv_project_dir := home; sv_forgejo := true; sv_event_log := false; sv_tmux_session := None |}.

Definition stale : AgentIdentityRecord := {|
  ai_agent_name := "stale"; ai_slug := "stale-slug"; ai_agent_type := Codex;
  ai_birth_branch := "main.stale"; ai_parent_branch := "main";
  ai_working_dir := Relative [".exo"; "worktrees"; "stale"]; ai_display_name := "Stale";
  ai_topology := WorktreePerAgent; ai_model := None; ai_effort := None; ai_ledger_owned := false;
  ai_slice_id := None |}.

Definition stale_repository : RepositoryIdentity := {|
  ri_owner := "o"; ri_repo := "r"; ri_base_branch := "main"; ri_forge_host := "h";
  ri_remote_url := "u"; ri_remote_name := "origin" |}.

Definition stale_pr : CleanupPullRequest := {|
  cp_number := 7; cp_head_ref := "main.stale"; cp_base_ref := "main"; cp_state := "closed";
  cp_merged := true; cp_head_sha := Some sha; cp_merge_commit_sha := Some merge_sha;
  cp_authoring_agent := None; cp_birth_branch := None |}.

Definition stale_claim : CapturedCodexTrust := {|
  ct_agent_dir := stale_tree; ct_config_path := (stale_tree ++ [".codex"; "config.toml"])%list;
  ct_user_config_path := Some ["home"; ".codex"; "config.toml"]; ct_owned_keys := ["k"] |}.

Definition stale_request : CleanupRequest := {|
  cr_target := Some "stale"; cr_sweep := false; cr_apply := true; cr_delete_remote_branch := true;
  cr_reason := None; cr_allow_no_pr := false; cr_discard_dirty := false;
  cr_preserve_unique_commits := false |}.

(** [update_ref]: the exit code of the local deletion. *)
Definition git_world (update_ref : Z) (dir : path) (args : list string) : GitOutput :=
  let said out := GitExit 0 out "" in
  match args with
  | ["branch"; _] => said (if bool_decide (dir = home) then "main" else "main.stale")
  | ["rev-parse"; "--show-toplevel"] => said "/p/.exo/worktrees/stale"
  | "rev-parse" :: _ => said sha
  | "ls-remote" :: _ => said (sha ++ " refs/heads/main.stale")
  | "update-ref" :: _ => GitExit update_ref "" "cannot lock ref"
  | _ => said ""
  end.

Definition removed (past : trace) (p : path) : bool :=
  existsb (fun e => match projT1 e with
                    | RemoveWorkspace q | RemoveDirAll q => bool_decide (p = q)
                    | _ => false
                    end) past.

Definition world (update_ref : Z) (past : trace) (c : call) : reply c :=
  match c with
  | Git dir args => git_world update_ref dir args
  | RemoveWorkspace _ => Ok tt
  | RemoveDirAll _ => Removed
  | SymlinkMetadata p => if removed past p then MetaAbsent else MetaRealDir
  | Exists p => bool_decide (p = stale_tree) || bool_decide (p = stale_dir ++ ["exit_code"])%list
  | IsDir _ => true
  | HasGeneratedCodexConfig p => bool_decide (p = stale_tree)
  | Canonicalize p => Ok p
  | ResidualContentsSafe _ => Ok false
  | ReadIdentityFile _ => FileParsed stale
  | ReadActiveIssue _ => None
  | ReadInvocation _ => InvocationNone
  | ReadRouting _ => Err "no routing"
  | RoutingTargetAlive _ _ | RoutingProcessAlive _ _ => Ok false
  | ListWindows _ => Ok []
  | ResolverGet _ => Some stale
  | ResolverDeregister _ => Ok tt
  | RemoveSyntheticMembers _ _ => Ok tt
  | DeregisterRegistrations _ _ => tt
  | GetRepositoryIdentity => Ok stale_repository
  | FindPullRequestsByHead _ _ _ => Ok [stale_pr]
  | CaptureCodexTrust _ => Ok [stale_claim]
  | ReleaseCodexTrust _ => []
  | PersistReceipt _ => Ok tt
  | ReadReceipts => Ok []
  | ResolverAll => [stale]
  | ListDir p =>
      if bool_decide (p = agents_dir home) || bool_decide (p = worktrees_dir home)
      then Listed [{| de_name := "stale"; de_kind := EntryDir |}] None else ListingAbsent
  | ReadIdentityJson _ => Some stale
  | ReadLedgerEvents => None
  | ReadPublishedHeads => None
  | AcquireLock _ _ intent =>
      {| am_acquired := true; am_lock_id := "lock"; am_holder_intent := intent |}
  | ReleaseLock _ _ => true
  | UnixTimestamp => 100%Z
  | NewUuid => "uuid"
  end.

Definition stale_run (update_ref : Z) :=
  answer (world update_ref) [] (run stale_svc stale_request).


(** ** The run applies the theorems *)

Lemma stale_runs u : runs (run stale_svc stale_request) (stale_run u).1 (stale_run u).2.
Proof.
  unfold stale_run. destruct (answer_runs (world u) [] (run stale_svc stale_request)) as (t & E & R).
  by rewrite E.
Qed.

Lemma cut_at {A} k (l : list A) x : l !! k = Some x -> l = (take k l ++ x :: drop (S k) l)%list.
Proof. intros H. symmetry. by apply take_drop_middle. Qed.

Definition calls_of (t : trace) : list call := map (fun e => projT1 e) t.
Definition before (k : nat) : trace := take k (stale_run 0).1.



Lemma local_deletion_is_authorised_witness :
  let args := ["update-ref"; "-d"; head_ref "main.stale"; sha] in
  (stale_run 0).1 !! 100 = Some (did (Git home args) (GitExit 0 "" "cannot lock ref"))
  /\ exists repository branch sha,
       args = ["update-ref"; "-d"; head_ref branch; sha]
       /\ seen (before 100) GetRepositoryIdentity (Ok repository)
       /\ branch_head (before 100) home branch sha /\ not_checked_out stale_svc (before 100) branch
       /\ unprotected stale_svc (before 100) repository branch.
Proof.
  assert (H : (stale_run 0).1 !! 100
              = Some (did (Git home ["update-ref"; "-d"; head_ref "main.stale"; sha])
                        (GitExit 0 "" "cannot lock ref"))) by (vm_compute; reflexivity).
  destruct (local_deletion_is_authorised _ _ _ _ _ _ (stale_runs 0) _ _ _ (cut_at _ _ _ H) eq_refl)
    as (_ & _ & Hr).
  split; [exact H|exact Hr].
Defined.


Lemma directory_removal_is_authorised_witness :
  (stale_run 0).1 !! 102 = Some (did (RemoveDirAll stale_dir) Removed)
  /\ exists c ident, as_requested stale_request c /\ cn_identity c = Some ident.
Proof.
  assert (H : (stale_run 0).1 !! 102 = Some (did (RemoveDirAll stale_dir) Removed))
    by (vm_compute; reflexivity).
  destruct (directory_removal_is_authorised _ _ _ _ _ _ (stale_runs 0) _ _ (cut_at _ _ _ H))
    as (c & ident & H1 & H2 & _).
  split; [exact H|]. exists c, ident. split; [exact H1|exact H2].
Defined.

Definition stale_apply :=
  answer (world 0) [] (apply stale_svc stale_request).

Lemma stale_applies : runs (apply stale_svc stale_request) stale_apply.1 stale_apply.2.
Proof.
  unfold stale_apply. destruct (answer_runs (world 0) [] (apply stale_svc stale_request)) as (t & E & R).
  by rewrite E.
Qed.

Lemma apply_is_bracketed_witness :
  exists t r, runs (apply stale_svc stale_request) t r
    /\ (t = [] /\ validate stale_request <> Ok tt
        \/ exists lock t',
             t = did (AcquireLock (lock_resource home) LOCK_AGENT LOCK_INTENT) lock :: t'
             /\ if am_acquired lock
                then exists body released,
                       t' = (body ++ [did (ReleaseLock (lock_resource home) (am_lock_id lock))
                                        released])%list
                       /\ runs (apply_locked stale_svc stale_request) body r
                else t' = [] /\ is_ok r = false).
Proof.
  exists stale_apply.1, stale_apply.2. split; [exact stale_applies|].
  exact (apply_is_bracketed _ _ _ _ stale_applies).
Defined.

Lemma cleanups_share_the_lock_witness :
  locks new_registry !! lock_resource home = None
  /\ snd (acquire_fast 2 "u2" (lock_resource home) LOCK_AGENT LOCK_INTENT LOCK_ESTIMATE
            (fst (acquire_fast 1 "u1" (lock_resource home) LOCK_AGENT LOCK_INTENT LOCK_ESTIMATE
                    new_registry)))
     = Some {| am_acquired := true; am_lock_id := "u1"; am_holder_intent := LOCK_INTENT |}.
Proof.
  split; [reflexivity|].
  destruct (cleanups_share_the_lock 1 2 "u1" "u2" (lock_resource home) new_registry eq_refl)
    as (H1 & H2 & _).
  exact (eq_trans H2 H1).
Defined.

(** ** A resumed receipt *)

Definition next_plan : CleanupPlan :=
  match (answer (world 0) [] (plan stale_svc stale_request)).2 with
  | Ok p => p
  | Err _ => make_plan stale_svc stale_request (None, None) None [] "" 0
  end.
(** The receipt as it was stored before the worktree went. *)
Definition interrupted : CleanupReceipt :=
  match last_persist (before 86) with
  | Some (r, _) => r
  | None => in_progress_receipt "" next_plan 0
  end.

Lemma resume_keeps_entries_witness :
  exists e, In e (rc_entries interrupted) /\ is_kept e = true
  /\ exists e', In e' (rc_entries (resume_receipt next_plan interrupted))
        /\ (e' = e \/ e' = marked_resumed e /\ is_open e = true).
Proof.
  assert (H : existsb is_kept (rc_entries interrupted) = true) by (vm_compute; reflexivity).
  destruct (proj1 (existsb_exists _ _) H) as (e & Hi & Hk).
  exists e. split; [exact Hi|]. split; [exact Hk|].
  exact (resume_keeps_entries next_plan interrupted e Hi Hk).
Defined.

(** ** A residual directory *)

Definition lost_svc : Service :=
  {| sv_project_dir := home; sv_forgejo := true; sv_event_log := true; sv_tmux_session := None |}.

Definition lost_event (event_type : string) (data : list (string * json)) : LedgerRecord := {|
  rec_segment := ""; rec_line_number := 0;
  rec_event := new_event "e" "now" event_type (Some "lost-codex") (JObj data) |}.

Definition lost_events : list LedgerRecord :=
  [lost_event "agent.spawned" [("child_agent", JStr "lost-codex"); ("branch", JStr "main.lost");
     ("topology", JStr "worktree_per_agent"); ("agent_type", JStr "codex")];
   lost_event "pr.published" [("pr_number", JNum 9); ("head_branch", JStr "main.lost");
     ("base_branch", JStr "main"); ("head_sha", JStr sha)];
   lost_event "agent.invocation.finished" [("invocation_id", JStr "i1");
     ("outcome", JStr "finished")]].

Definition lost_head : PublishedHead := {|
  ph_pr_number := 9; ph_head_branch := "main.lost"; ph_base_branch := "main"; ph_head_sha := sha;
  ph_author_agent := Some "lost-codex"; ph_author_role := None; ph_provenance := LedgerOwned;
  ph_slice_id := None; ph_invocation_id := Some "i1"; ph_invocation_trigger := None;
  ph_invocation_runtime := None; ph_succession := [] |}.

Definition lost_pr : CleanupPullRequest := {|
  cp_number := 9; cp_head_ref := "main.lost"; cp_base_ref := "main"; cp_state := "closed";
  cp_merged := true; cp_head_sha := Some sha; cp_merge_commit_sha := Some merge_sha;
  cp_authoring_agent := Some "lost-codex"; cp_birth_branch := Some "main.lost" |}.

Definition lost_world (past : trace) (c : call) : reply c :=
  match c with
  | Git _ args =>
      match args with
      | ["rev-parse"; "--show-toplevel"] => GitExit 0 "/p" ""
      | "rev-parse" :: _ => GitExit 0 sha ""
      | "ls-remote" :: _ => GitExit 0 (sha ++ " refs/heads/main.lost") ""
      | _ => GitExit 0 "" ""
      end
  | ResolverAll => []
  | ListDir p =>
      if bool_decide (p = worktrees_dir home)
      then Listed [{| de_name := "lost-codex"; de_kind := EntryDir |}] None else ListingAbsent
  | SymlinkMetadata _ => MetaAbsent
  | ResidualContentsSafe _ => Ok true
  | ReadLedgerEvents => Some lost_events
  | ReadPublishedHeads => Some [lost_head]
  | FindPullRequestsByHead _ _ _ => Ok [lost_pr]
  | c => world 0 past c
  end.

Definition lost_run := answer lost_world [] (discover_resources lost_svc default_request).

Lemma lost_runs :
  runs (discover_resources lost_svc default_request) lost_run.1 lost_run.2.
Proof.
  unfold lost_run. destruct (answer_runs lost_world [] (discover_resources lost_svc default_request))
    as (t & E & R). by rewrite E.
Qed.


(** ** A lost claim *)

Definition entries_of (r : result CleanupReceipt string) : list CleanupReceiptEntry :=
  match r with Ok r => rc_entries r | Err _ => [] end.
Definition stored_claims (t : trace) : list (option (list CapturedCodexTrust)) :=
  omap (fun e => '(r, _) ← persisted e; e ← head (rc_entries r); Some (re_codex_trust e)) t.

Definition is_release (c : call) : bool := match c with ReleaseCodexTrust _ => true | _ => false end.

(** A claim of hook trust can be lost: when git refuses the local deletion
    after the worktree was removed, the claim that was stored before the removal
    is not in the refused entry any more, the trust is never released, and no
    later run resumes the entry: the generated configuration that could prove
    the claim again went with the worktree. *)
Theorem refused_deletion_drops_the_claim :
  removed (stale_run 1).1 stale_tree = true
  /\ In (Some [stale_claim]) (stored_claims (stale_run 1).1)
  /\ map re_status (entries_of (stale_run 1).2) = [Refused]
  /\ map re_codex_trust (entries_of (stale_run 1).2) = [None]
  /\ existsb is_release (calls_of (stale_run 1).1) = false
  /\ Forall (fun e => is_kept e = false) (entries_of (stale_run 1).2).
Proof.
  split; [vm_compute; reflexivity|]. split; [|split; [vm_compute; reflexivity|]].
  - assert (E : existsb (fun o => bool_decide (o = Some [stale_claim])) (stored_claims (stale_run 1).1)
                = true) by (vm_compute; reflexivity).
    apply existsb_exists in E as (o & Ho & E). apply bool_decide_eq_true in E. by subst.
  - split; [vm_compute; reflexivity|]. split; [vm_compute; reflexivity|].
    vm_compute. repeat constructor.
Qed.
