(* ===== verification/GitScenario.v ===== *)
(** * Git locks: runs against a concrete repository

    One worktree at [/r] with an index, perhaps a native lock, a log with the records
    a scene chooses, and one recorded process.  The runs apply the theorems about
    recovery, leases, proofs and the ledger. *)

From stdpp Require Import countable pretty.
From S2P Require Import Prelude RustStr JsonValue SqlTable Ledger Paths Effects.
From S2P Require Import GitEvidence GitPoll GitLedger GitMutation GitOwner GitRecovery GitLegacy.
From S2P Require Import GitChecks GitRecoverySpec GitSpec.
From S2P Require Import GitLegacySpec GitTermination.
Local Open Scope string_scope.

(** ** The codecs *)

(** A digest of 64 hexadecimal digits. *)
Definition digit (n : nat) : ascii := ascii_of_nat (if (n <? 10)%nat then 48 + n else 87 + n).
Definition length_digest (s : string) : string :=
  "00000000000000000000000000000000000000000000000000000000000000"
  ++ String (digit (String.length s / 16 mod 16)) (String (digit (String.length s mod 16)) "").
#[local] Instance scene_sha : Sha256 := {| sha256_hex := length_digest |}.

(** A codec that writes known documents as single letters. *)
Fixpoint letter_of (n : nat) (j : json) (known : list json) : option nat :=
  match known with
  | [] => None
  | k :: known => if bool_decide (j = k) then Some n else letter_of (S n) j known
  end.
Definition letter (n : nat) : string := String (ascii_of_nat (65 + n)) "".

Definition write_known (known : list json) (j : json) : string :=
  match letter_of 0 j known with
  | Some n => if (n <? 20)%nat then letter n else "x" ++ bits_of_pos (encode j)
  | None => "x" ++ bits_of_pos (encode j)
  end.
Definition read_known (known : list json) (s : string) : option json :=
  match s with
  | String "x" rest => decode (pos_of_bits rest)
  | String c EmptyString => nth_error known (nat_of_ascii c - 65)
  | _ => None
  end.

Lemma letter_of_nth n j known m :
  letter_of n j known = Some m -> (n <= m)%nat /\ nth_error known (m - n) = Some j.
Proof.
  revert n. induction known as [|k known IH]; intros n; [done|]. cbn [letter_of].
  case_bool_decide as E; [intros [= <-]; rewrite Nat.sub_diag; subst; by split|].
  intros [Hle Hn]%IH. split; [lia|]. by replace (m - n)%nat with (S (m - S n))%nat by lia.
Qed.

Lemma read_letter known n : (n < 20)%nat -> read_known known (letter n) = nth_error known n.
Proof. intros H. do 20 (destruct n as [|n]; [reflexivity|]). lia. Qed.

Lemma read_write_known known j : read_known known (write_known known j) = Some j.
Proof.
  assert (Hx : read_known known ("x" ++ bits_of_pos (encode j)) = Some j)
    by (transitivity (decode (A := json) (pos_of_bits (bits_of_pos (encode j)))); [reflexivity|];
        rewrite pos_of_bits_of_pos; apply decode_encode).
  unfold write_known. destruct (letter_of 0 j known) as [n|] eqn:E; [|done].
  destruct (n <? 20)%nat eqn:En; [|done]. apply Nat.ltb_lt in En. apply letter_of_nth in E as [_ E].
  rewrite read_letter by done. by rewrite Nat.sub_0_r in E.
Qed.

(** ** The repository *)

Definition at_ (text : string) : PathBuf := parse_path text.
Definition git : PathBuf := at_ "/r/.git".
Definition lock_path : PathBuf := at_ "/r/.git/index.lock".
Definition repo_paths : GitMutationPaths := {|
  worktree_root := at_ "/r"; git_dir := git; common_git_dir := git; index_file := at_ "/r/.git/index";
  index_lock_file := lock_path;
  index_lease_file := path_sub git [LEASE_DIRECTORY; "index-" ++ path_digest (at_ "/r/.git/index") ++ ".lease"];
  refs_lease_file := path_sub git [LEASE_DIRECTORY; "refs.lease"] |}.

Definition file_of (ino : Z) (kind : FileKind) (len : Z) : Metadata := {|
  md_kind := kind; md_dev := 1; md_ino := ino; md_len := len; md_mtime := 5; md_mtime_nsec := 0;
  md_ctime := 6; md_ctime_nsec := 0 |}.
Definition lock_meta : Metadata := file_of 1 RegularFile 0.
Definition owner : ManagedProcessIdentity := {| mp_pid := 42; mp_start_time_ticks := 777 |}.
Definition op_id : string := "op-1".
Definition index_lease : GitMutationLease := {|
  le_lock := 5%Z; le_paths := repo_paths; le_resource := Index; le_operation_id := op_id;
  le_index_override := None |}.
Definition lock_snapshot : NativeGitLockSnapshot := snapshot_of lock_meta (sha256_hex "").
Definition the_proof : ManagedNativeLockProof := lock_proof index_lease owner lock_snapshot.

(** ** The log *)

Definition logged (id event_type : string) (data : json) : json :=
  JObj [("event_id", JStr id); ("type", JStr event_type); ("data", data)].
Definition started_data : json := JObj
  [("index_lock_file", JPath lock_path); ("operation_id_sha256", JStr (sha256_hex op_id));
   ("process_id", JNum 42); ("process_start_identity", JNum 777); ("process_group_id", JNum 42);
   ("worktree_root", JPath (at_ "/r")); ("git_dir", JPath git); ("common_git_dir", JPath git);
   ("index_file", JPath (at_ "/r/.git/index"))].
Definition started_event : json := logged "s1" STARTED started_data.
Definition held_event : json := logged "h1" LOCK_HELD_EVENT (proof_json the_proof).
Definition old_receipt : QuarantineReceiptData := {|
  qr_schema_version := 1; qr_proof_event_id := "h1"; qr_intent_event_id := "i1"; qr_proof := the_proof;
  qr_quarantine_file := display (quarantine_path repo_paths "h1"); qr_quarantined_lock := lock_snapshot |}.
Definition intent_of (id : string) : QuarantineAuditData :=
  intent_data the_proof (display (quarantine_path repo_paths id)) id.
Definition first_intent : json := logged "i1" QUARANTINE_INTENT_EVENT (audit_json (intent_of "h1")).
Definition receipt_event : json := logged "r1" QUARANTINED_EVENT (receipt_json old_receipt).
Definition second_intent : json := logged "i2" QUARANTINE_INTENT_EVENT (audit_json (intent_of "h2")).

Definition known_events : list json :=
  [started_event; held_event; first_intent; receipt_event; second_intent].
#[local] Instance scene_text : JsonText :=
  {| json_to_string := write_known known_events; json_from_string := read_known known_events;
     json_text_roundtrip := read_write_known known_events |}.

(** ** The world *)

Record Scene := {
  sc_lock : bool;       (* there is a native lock *)
  sc_moved : bool;      (* a lock is in the quarantine *)
  sc_alive : bool;      (* the process runs *)
  sc_log : list json    (* the records of the log *)
}.
Definition moved_in (past : list (event reply)) : bool :=
  existsb (fun e => match projT1 e with RenameNoReplace _ _ _ _ => true | _ => false end) past.

Definition in_quarantine (p : PathBuf) : bool :=
  path_starts_with p (quarantine_dir repo_paths) && negb (bool_decide (p = quarantine_dir repo_paths)).
(** The inode a path names; it is also the handle. *)
Definition inode_at (p : PathBuf) : Z :=
  if bool_decide (p = lock_path) || in_quarantine p then 1%Z
  else if bool_decide (p = at_ "/r/.git/index") then 2%Z
  else if bool_decide (p = at_ "/log/.append.lock") then 3%Z
  else if bool_decide (p = at_ "/log/a.jsonl") then 4%Z
  else if bool_decide (p = index_lease_file repo_paths) then 5%Z
  else if bool_decide (p = refs_lease_file repo_paths) then 6%Z
  else if bool_decide (p = at_ "/log") then 7%Z
  else if bool_decide (p = path_sub git [LEASE_DIRECTORY]) then 8%Z
  else if bool_decide (p = quarantine_dir repo_paths) then 9%Z
  else 10%Z.
Definition meta_of (ino : Z) : Metadata :=
  if (ino =? 1)%Z then lock_meta
  else if (ino =? 2)%Z then file_of 2 RegularFile 3
  else if (ino <=? 6)%Z then file_of ino RegularFile 9
  else file_of ino Directory 0.

Definition meta_at (s : Scene) (past : list (event reply)) (p : PathBuf) : result Metadata io_error :=
  let there :=
    if bool_decide (p = lock_path) then sc_lock s && negb (moved_in past)
    else if in_quarantine p then sc_moved s || moved_in past else true in
  if there then Ok (meta_of (inode_at p)) else Err NotFound.

Definition log_text (s : Scene) : string :=
  String.concat "" (map (fun e => write_known known_events e ++ String LF "") (sc_log s)).
Definition proc_stat : string :=
  "42 (git) S 1 42 42 0 -1 4194560 1 2 3 4 5 6 7 8 20 0 1 0 777 1 1".

Definition world (s : Scene) (past : list (event reply)) (c : call) : reply c :=
  match c with
  | EnvIndexFile => None
  | RevParse _ args _ =>
      RevExit (Some 0%Z) (Some (
        if bool_decide ("--show-toplevel" ∈ args) then "/r"
        else if bool_decide ("--git-path" ∈ args) then "/r/.git/index" else "/r/.git"))
  | Canonicalize p => Ok p
  | IsDir _ => true
  | PathExists p => negb (in_quarantine p)
  | SymlinkMetadata p => meta_at s past p
  | FollowMetadata _ => Ok lock_meta
  | CreateDir _ => Err AlreadyExists
  | ReadDir p =>
      if bool_decide (p = at_ "/log") then Ok [Ok "a.jsonl"]
      else if path_starts_with p proc_root then if sc_alive s then Ok [Ok "3"] else Err NotFound
      else Ok []
  | ReadToString p =>
      if sc_alive s || negb (path_starts_with p (path_sub proc_root ["42"])) then Ok proc_stat
      else Err NotFound
  | OpenLease p | OpenRead p | OpenDirectory p => Ok (inode_at p)
  | Fstat h => Ok (meta_of h)
  | ReadFile h =>
      (if (h =? 1)%Z then [] else if (h =? 2)%Z then ["idx"] else [log_text s], None)
  | TryLockExclusive _ | TryLockShared _ => Locked
  | SetLen _ _ | SeekStart _ | WriteAll _ _ | SyncData _ | SyncAll _ => Ok tt
  | RenameNoReplace _ _ _ _ => Ok tt
  | KillGroup _ => KillNoGroup
  | ProcessId => 99%Z
  | Now => 0%Z
  | Sleep _ | Exhausted => tt
  | AppendEvent event_type _ _ => Some ("new " ++ event_type)
  end.

(** The run of a program in a scene. *)
Definition outcome {A} (s : Scene) (p : IO A) := answer (world s) [] p.
Lemma outcome_runs {A} s (p : IO A) : runs p (outcome s p).1 (outcome s p).2.
Proof.
  unfold outcome. destruct (answer_runs (world s) [] p) as (t & E & R). by rewrite E.
Qed.
Lemma outcome_is {A} s (p : IO A) a : (outcome s p).2 = a -> runs p (outcome s p).1 a.
Proof. intros <-. apply outcome_runs. Qed.

Definition log_dir : PathBuf := at_ "/log".
Definition root_dir : PathBuf := at_ "/r".
Definition left_over : Scene :=
  {| sc_lock := true; sc_moved := false; sc_alive := false; sc_log := [started_event; held_event] |}.
Definition reconciled : IO NativeLockRecoveryVerdict :=
  reconcile_with_inspector proc_root log_dir root_dir index_lease 0.
Definition calls_of (t : list (event reply)) : list call := map (fun e => projT1 e) t.

Lemma cut_here {A} k (l : list A) x : l !! k = Some x -> l = (take k l ++ x :: drop (S k) l)%list.
Proof. intros H. symmetry. by apply take_drop_middle. Qed.

(** ** A lock that a managed process left *)

Lemma native_lock_moves_are_proven_witness :
  let t := (outcome left_over reconciled).1 in
  exists target, t !! 168 = Some (did (RenameNoReplace 10%Z "index.lock" 9%Z target) (Ok tt))
    /\ move_is_proven proc_root log_dir root_dir index_lease (take 168 t) 10%Z "index.lock" 9%Z target.
Proof.
  assert (H : (outcome left_over reconciled).1 !! 168
              = Some (did (RenameNoReplace 10%Z "index.lock" 9%Z (quarantine_name "h1")) (Ok tt)))
    by (vm_compute; reflexivity).
  exists (quarantine_name "h1"). split; [exact H|].
  exact (native_lock_moves_are_proven _ _ _ _ _ _ _ (outcome_runs left_over reconciled) _ _ _ _ _ _ _
           (cut_here _ _ _ H)).
Defined.

Definition left_receipt : GitLockRecoveryReceipt := {|
  gr_proof_event_id := "h1"; gr_intent_event_id := "new " ++ QUARANTINE_INTENT_EVENT;
  gr_receipt_event_id := "new " ++ QUARANTINED_EVENT;
  gr_quarantine_file := display (quarantine_path repo_paths "h1"); gr_lock := lock_snapshot |}.
Lemma reported_recoveries_are_complete_witness :
  (outcome left_over reconciled).2 = Recovered left_receipt
  /\ recovery_complete proc_root log_dir index_lease (outcome left_over reconciled).1 left_receipt.
Proof.
  assert (H : (outcome left_over reconciled).2 = Recovered left_receipt) by (vm_compute; reflexivity).
  split; [exact H|]. exact (reported_recoveries_are_complete _ _ _ _ _ _ _ (outcome_is _ _ _ H)).
Defined.

Definition record_intent : IO (result string string) :=
  append_audit_once log_dir QUARANTINE_INTENT_EVENT (audit_json (intent_of "h1")) lock_path.
Lemma audit_is_recorded_once_witness :
  (outcome left_over record_intent).2 = Ok ("new " ++ QUARANTINE_INTENT_EVENT)
  /\ durable log_dir (outcome left_over record_intent).1 QUARANTINE_INTENT_EVENT
       (audit_json (intent_of "h1")) ("new " ++ QUARANTINE_INTENT_EVENT).
Proof.
  assert (H : (outcome left_over record_intent).2 = Ok ("new " ++ QUARANTINE_INTENT_EVENT))
    by (vm_compute; reflexivity).
  split; [exact H|].
  exact (proj1 (audit_is_recorded_once _ _ _ _ _ _ (outcome_is _ _ _ H)) _ eq_refl).
Defined.

Lemma snapshot_is_of_one_file_witness :
  (outcome left_over (snapshot_lock lock_path)).2 = Ok lock_snapshot
  /\ snapshot_observed lock_path (outcome left_over (snapshot_lock lock_path)).1 lock_snapshot.
Proof.
  assert (H : (outcome left_over (snapshot_lock lock_path)).2 = Ok lock_snapshot)
    by (vm_compute; reflexivity).
  split; [exact H|]. exact (snapshot_is_of_one_file _ _ _ (outcome_is _ _ _ H)).
Defined.

Definition read_starts : IO (result (list GitRecoveryEvent) string) :=
  read_git_recovery_events_at log_dir [STARTED] 0.

Definition resolve_repo := resolve_paths_with_index_override root_dir root_dir None.
Lemma resolved_paths_are_managed_witness :
  (outcome left_over resolve_repo).2 = Ok repo_paths
  /\ not_symlink (outcome left_over resolve_repo).1 (index_lock_file repo_paths).
Proof.
  assert (H : (outcome left_over resolve_repo).2 = Ok repo_paths) by (vm_compute; reflexivity).
  split; [exact H|].
  destruct (resolved_paths_are_managed _ _ _ _ _ (outcome_is _ _ _ H)) as (_ & _ & _ & Hl & _).
  exact Hl.
Defined.

(** ** No lock *)

Definition clean : Scene :=
  {| sc_lock := false; sc_moved := false; sc_alive := false; sc_log := [] |}.
Lemma clear_means_never_quarantined_witness :
  (outcome clean reconciled).2 = Clear
  /\ seen (outcome clean reconciled).1 (SymlinkMetadata lock_path) (Err NotFound).
Proof.
  assert (H : (outcome clean reconciled).2 = Clear) by (vm_compute; reflexivity).
  split; [exact H|]. exact (proj1 (clear_means_never_quarantined _ _ _ _ _ _ (outcome_is _ _ _ H))).
Defined.

(** One finished recovery and a later one that was interrupted after its move. *)
Definition interrupted_again : Scene := {| sc_lock := false; sc_moved := true; sc_alive := false;
  sc_log := [started_event; held_event; first_intent; receipt_event; second_intent] |}.
Definition absent_lock := reconcile_absent_lock proc_root log_dir index_lease.
Lemma receipt_hides_interruption_witness :
  (outcome interrupted_again absent_lock).2 = Ok (Recovered (recovery_result "r1" old_receipt))
  /\ exists past rest answer,
       (outcome interrupted_again absent_lock).1 = (past ++ rest)%list
       /\ runs (read_recovery log_dir [QUARANTINED_EVENT; QUARANTINE_INTENT_EVENT]) past answer
       /\ forall records receipt_id audit, answer = Ok records ->
            newest_audit index_lease QUARANTINED_EVENT receipt_of_json qr_proof (rev records)
              = Some (Some (receipt_id, audit)) ->
            (forall e, In e (outcome interrupted_again absent_lock).1 -> observes (projT1 e) = true)
            /\ forall receipt, (outcome interrupted_again absent_lock).2 = Ok (Recovered receipt) ->
                 receipt = recovery_result receipt_id audit.
Proof.
  split; [vm_compute; reflexivity|].
  exact (receipt_hides_interruption _ _ _ _ _ (outcome_runs interrupted_again absent_lock)).
Defined.

Definition two_leases :=
  acquire_set_with_index_override root_dir root_dir [Index; SharedRefs; Index] op_id 0 None.
Lemma leases_are_taken_in_order_witness :
  exists leases, (outcome clean two_leases).2 = Ok leases
    /\ map le_resource leases = [SharedRefs; Index].
Proof.
  assert (H : is_ok (outcome clean two_leases).2 = true) by (vm_compute; reflexivity).
  destruct (outcome clean two_leases).2 as [leases|e] eqn:E; [|discriminate H].
  exists leases. split; [reflexivity|].
  exact (eq_trans (proj1 (leases_are_taken_in_order _ _ _ _ _ _ _ _ (outcome_is _ _ _ E)))
           eq_refl).
Defined.

(** ** A process that holds the lock *)

Definition held : Scene :=
  {| sc_lock := true; sc_moved := false; sc_alive := true; sc_log := [started_event] |}.
Definition record_held := try_record_proof_with proc_root log_dir log_dir index_lease owner.
Definition recorded : RecordedManagedNativeLockProof :=
  {| rp_event_id := "new " ++ LOCK_HELD_EVENT; rp_proof := the_proof |}.
Lemma recorded_proofs_are_observed_witness :
  (outcome held record_held).2 = Ok (Some recorded)
  /\ exists lock t1 t2 t3 t4 t5 t6,
       (outcome held record_held).1 = (t1 ++ t2 ++ t3 ++ t4 ++ t5 ++ t6)%list
       /\ process_running proc_root t1 owner /\ performed t2 (snapshot_lock lock_path) (Ok lock)
       /\ holds_open proc_root t3 owner lock.
Proof.
  assert (H : (outcome held record_held).2 = Ok (Some recorded)) by (vm_compute; reflexivity).
  split; [exact H|].
  destruct (recorded_proofs_are_observed _ _ _ _ _ _ _ (outcome_is _ _ _ H))
    as (_ & lock & t1 & t2 & t3 & t4 & t5 & t6 & E & H1 & H2 & H3 & _).
  exists lock, t1, t2, t3, t4, t5, t6. split; [exact E|]. split; [exact H1|]. split; [exact H2|exact H3].
Defined.

Lemma start_time_is_read_witness :
  stat_start_time ("42" ++ " (" ++ "g) it" ++ String ")"
     (stat_fields (repeat "1" 19 ++ pretty 777%Z :: ["5"]))) = Some 777%Z.
Proof. exact (start_time_is_read "42" "g) it" (repeat "1" 19) 777 ["5"] eq_refl eq_refl eq_refl
                (conj (proj1 (Z.leb_le 0 777) eq_refl) (proj1 (Z.leb_le 777 u64_max) eq_refl))). Defined.

(** ** A lock nobody owns *)

Definition orphan : Scene :=
  {| sc_lock := true; sc_moved := false; sc_alive := false; sc_log := [] |}.
Definition inspected := inspect_legacy_git_lock_with proc_root log_dir root_dir root_dir.
Definition the_fingerprint : string :=
  match (outcome orphan inspected).2 with
  | Ok i => default "" (in_recovery_fingerprint i)
  | Err _ => ""
  end.
Definition applied := apply_legacy_git_lock proc_root log_dir root_dir root_dir the_fingerprint true 0.

Definition legacy_name : string := "legacy-" ++ the_fingerprint ++ ".lock".
Lemma legacy_moves_are_authorised_witness :
  let t := (outcome orphan applied).1 in
  t !! 344 = Some (did (RenameNoReplace 10%Z "index.lock" 9%Z legacy_name) (Ok tt))
  /\ legacy_move_is_authorised proc_root log_dir root_dir root_dir the_fingerprint 0 (take 344 t)
       10%Z "index.lock" 9%Z legacy_name.
Proof.
  assert (H : (outcome orphan applied).1 !! 344
              = Some (did (RenameNoReplace 10%Z "index.lock" 9%Z legacy_name) (Ok tt)))
    by (vm_compute; reflexivity).
  split; [exact H|].
  exact (proj2 (legacy_moves_are_authorised _ _ _ _ _ _ _ _ _ (outcome_runs orphan applied)
                  _ _ _ _ _ _ _ (cut_here _ _ _ H))).
Defined.

Lemma applied_recoveries_are_verified_witness :
  exists r, (outcome orphan applied).2 = Ok r /\ ar_already_applied r = false
    /\ recovery_reported log_dir root_dir root_dir (outcome orphan applied).1 (ar_receipt r).
Proof.
  assert (H : match (outcome orphan applied).2 with
              | Ok r => negb (ar_already_applied r)
              | Err _ => false
              end = true) by (vm_compute; reflexivity).
  destruct (outcome orphan applied).2 as [r|e] eqn:E; [|discriminate H].
  exists r. split; [reflexivity|]. split; [by apply negb_true_iff in H|].
  exact (proj2 (applied_recoveries_are_verified _ _ _ _ _ _ _ _ _ (outcome_is _ _ _ E))).
Defined.

Lemma busy_only_after_the_wait_witness :
  let t := (outcome {| sc_lock := true; sc_moved := false; sc_alive := true;
                       sc_log := [started_event; held_event] |} reconciled).1 in
  exists started, seen t Now started
    /\ (seen t Exhausted tt \/ exists now, seen t Now now /\ (started + 0 <= now)%Z).
Proof.
  intros t.
  assert (H : (outcome {| sc_lock := true; sc_moved := false; sc_alive := true;
                          sc_log := [started_event; held_event] |} reconciled).2
              = BusyLock lock_path [owner] still_active) by (vm_compute; reflexivity).
  exact (busy_only_after_the_wait _ _ _ _ _ _ _ _ _ (outcome_is _ _ _ H)).
Defined.

Lemma waiting_ends_witness :
  (0 <= millis 100)%Z
  /\ settles (reconcile_with_inspector proc_root log_dir root_dir index_lease (millis 100)).
Proof.
  assert (H : (0 <= millis 100)%Z) by (apply Z.leb_le; reflexivity).
  split; [exact H|].
  exact (proj1 (waiting_ends proc_root log_dir log_dir root_dir root_dir index_lease
                  the_fingerprint true [Index] op_id owner (millis 100) H)).
Defined.

(** ** The evidence *)

Definition orphan_data : LegacyRecoveryData := {|
  ld_schema_version := 1; ld_recovery_fingerprint := the_fingerprint;
  ld_writer_stopped_authorization := true; ld_actor := owner; ld_worktree_root := root_dir;
  ld_git_dir := git; ld_common_git_dir := git; ld_index_file := at_ "/r/.git/index";
  ld_index_lock_file := lock_path; ld_index := fingerprint_of (meta_of 2) (sha256_hex "idx");
  ld_original_lock := lock_snapshot; ld_quarantine_file := legacy_quarantine_file git the_fingerprint |}.

Ltac in_range := cbv -[Z.le]; lia.
Lemma lock_snapshot_fits : lock_fits lock_snapshot.
Proof. repeat split; in_range. Qed.
Lemma the_proof_fits : proof_fits the_proof.
Proof. repeat split; in_range. Qed.
Lemma orphan_data_fits : legacy_fits orphan_data.
Proof.
  split; [split; in_range|]. split; [repeat split; in_range|]. split; [repeat split; in_range|].
  split; [exact lock_snapshot_fits|].
  repeat constructor; by vm_compute.
Qed.

Lemma evidence_is_read_back_witness :
  proof_of_json (proof_json the_proof) = Some the_proof
  /\ legacy_of_json (legacy_receipt_json orphan_data "i1") = Some orphan_data.
Proof.
  assert (H1 : (0 <= qa_schema_version (intent_of "h1") <= u32_max)%Z) by (split; in_range).
  assert (H2 : (0 <= qr_schema_version old_receipt <= u32_max)%Z) by (split; in_range).
  destruct (evidence_is_read_back the_proof (intent_of "h1") old_receipt orphan_data "i1"
              the_proof_fits eq_refl eq_refl H1 H2 lock_snapshot_fits orphan_data_fits)
    as (R1 & _ & _ & _ & R2 & _).
  split; [exact R1|exact R2].
Defined.
