(* ===== verification/MergeScenario.v ===== *)
(** * A merge of an approved aggregate

    One root scope [run1] with a nested controller [c1] whose aggregate is pull request
    7 from [main.slice]; its parent's controller [tl] approves and merges it.  The
    runs apply the theorems about approvals and merges. *)

From stdpp Require Import pretty.
From S2P Require Import Prelude RustStr Paths JsonValue Effects Publication PublicationOwnership ReviewTypes.
From S2P Require Import Lineage ApprovalReceipt Approval ApprovalSpec MergePr MergeSpec.
Local Open Scope string_scope.

#[local] Instance scene_sha_instance : Sha256 := Lineage.scene_sha.

Definition project : PathBuf := parse_path "/p".
Definition url : string := "https://forge/o/r".
Definition base : string := sha_of "e".
Definition merge_tree : string := sha_of "f".
Definition strs (l : list (string * string)) : list (string * json) := map (fun kv => (kv.1, JStr kv.2)) l.
Definition sealed (m : list (string * json)) : json :=
  jobj (("digest", JStr (manifest_digest (default [] (as_object (jobj m))))) :: m).

(** ** The plan *)

Definition node_id : string := "run1/sub_tl/c1".
Definition child_manifest : json :=
  sealed (("nodes", JArr [jobj (strs [("kind", "leaf"); ("node_id", "leaf1")])])
        :: strs [("scope_id", node_id); ("parent_scope_id", "run1"); ("owned_branch", "main.slice")]).
Definition child_digest : string := manifest_digest (default [] (as_object child_manifest)).
Definition node : json :=
  jobj (("integration_contract", JObj [])
        :: strs [("kind", "sub_tl"); ("name", "c1"); ("node_id", node_id); ("parent_id", "run1");
                 ("owned_branch", "main.slice"); ("child_manifest_digest", child_digest)]).
Definition manifest : json :=
  sealed ([("manifest_revision", JNum 1); ("nodes", JArr [node]);
           ("child_manifest_digests", JObj [(node_id, JStr child_digest)]);
           ("child_manifests", JObj [(node_id, child_manifest)])]
          ++ strs [("scope_id", "run1"); ("role", "root"); ("owned_branch", "main")])%list.
Definition plan_digest : string := manifest_digest (default [] (as_object manifest)).
Definition policy_digest : string :=
  canonical_digest (jobj [("approval_mode", JStr "parent"); ("parent_manifest_digest", JStr plan_digest);
    ("parent_manifest_revision", JNum 1); ("child_manifest_digest", JStr child_digest);
    ("integration_contract", JObj [])]).

(** ** The receipt *)

Definition patch_sha : string := sha256_hex "patch".
Definition receipt_body (scope digest : string) : list (string * json) :=
  ([("parent_scope_path", JArr [JStr "run1"]); ("plan_manifest_revision", JNum 1); ("pr_number", JNum 7);
    ("lineage_commit_shas", JArr [JStr scene_merged; JStr scene_rebased]);
    ("reviewed_leaf_ids", JArr [JStr "leaf1"]); ("supersedes_receipt_id", JNull)]
   ++ strs [("policy_mode", "parent"); ("parent_run_id", "run1"); ("parent_manifest_scope_id", scope);
            ("candidate_key", "c1"); ("child_run_id", "c1"); ("child_manifest_node_id", node_id);
            ("child_manifest_scope_id", node_id); ("parent_agent_id", "tl"); ("parent_branch", "main");
            ("repository_url", url); ("plan_manifest_digest", digest);
            ("approval_policy_digest", policy_digest); ("child_manifest_digest", child_digest);
            ("head_sha", scene_head); ("head_tree_sha", scene_tree); ("base_sha", base);
            ("patch_digest", patch_sha); ("merge_tree_sha", merge_tree); ("ci_status", "success");
            ("readiness_receipt_digest", sha256_hex "ready");
            ("lineage_proof_digest", @observed_digest _ bits_json_text scene_head scene_tree scene_relations)])%list.
Definition the_id : string := canonical_digest (jobj (receipt_body "run1" plan_digest)).
Definition receipt_json : json :=
  jobj (("receipt_id", JStr the_id) :: ("created_at", JStr "monday") :: receipt_body "run1" plan_digest).

(** ** The checkpoint *)

Definition candidate : json :=
  jobj ([("aggregate_approval_receipts", JArr [receipt_json]); ("aggregate_pr_number", JNum 7)]
        ++ strs [("active_aggregate_approval_id", the_id); ("lifecycle", "MERGING");
                 ("aggregate_head_sha", scene_head); ("head_sha", scene_head);
                 ("aggregate_patch_digest", patch_sha); ("patch_digest", patch_sha);
                 ("validated_base_sha", base); ("merge_tree_sha", merge_tree); ("ci_status", "success");
                 ("integration_owner_run_id", "c1"); ("integration_owner_branch", "main.slice");
                 ("integration_owner_worktree", ".exo/worktrees/slice")])%list.
Definition checkpoint : json :=
  jobj ([("depth", JNum 0); ("plan_manifest", manifest);
         ("repository_identity", JObj [("remote_url", JStr url)]);
         ("integration", JObj [("candidates", JObj [("c1", candidate)])])]
        ++ strs [("run_id", "run1"); ("controller_epoch", "e1"); ("owner_branch", "main")])%list.

(** The checkpoint has a short text; every other document its bits. *)
Definition write_short (j : json) : string :=
  if bool_decide (j = checkpoint) then "A" else json_to_string (JsonText := bits_json_text) j.
Definition read_short (s : string) : option json :=
  if String.eqb s "A" then Some checkpoint else json_from_string (JsonText := bits_json_text) s.
Lemma bits_are_digits p : bits_of_pos p <> "A".
Proof. by destruct p. Qed.
Lemma read_write_short j : read_short (write_short j) = Some j.
Proof.
  unfold read_short, write_short. case_bool_decide as E; [by rewrite E|].
  destruct (String.eqb_spec (json_to_string (JsonText := bits_json_text) j) "A") as [Ea|_];
    [by apply bits_are_digits in Ea|apply (json_text_roundtrip (JsonText := bits_json_text))].
Qed.
#[local] Instance scene_text : JsonText :=
  {| json_to_string := write_short; json_from_string := read_short; json_text_roundtrip := read_write_short |}.

Definition reference : AggregateApprovalReference := {|
  ref_receipt_id := the_id; ref_parent_run_id := "run1"; ref_parent_scope_path := ["run1"];
  ref_candidate_key := "c1"; ref_controller_epoch := "e1" |}.

(** ** The world *)

Definition head_entry : PublishedHead := {|
  ph_pr_number := 7; ph_head_branch := "main.slice"; ph_base_branch := "main"; ph_head_sha := scene_head;
  ph_author_agent := Some "slice"; ph_author_role := Some "dev"; ph_provenance := LedgerOwned;
  ph_slice_id := Some "s1"; ph_invocation_id := Some "inv1"; ph_invocation_trigger := None;
  ph_invocation_runtime := Some "codex"; ph_succession := [] |}.
Definition publications : PublicationState := {|
  published := write_published_heads [head_entry];
  owners := fun owner => if String.eqb owner "slice" then
    Some {| oi_birth_branch := "main.slice"; oi_parent_branch := "main"; oi_slice_id := Some "s1" |} else None;
  invocations := fun _ => Some "inv1" |}.

Definition ok (text : string) : CommandReply := Exited true (text ++ newline) "".
Definition git (args : list string) : CommandReply :=
  match args with
  | "config" :: _ => Exited false "" ""
  | ["remote"] => ok "origin"
  | "fetch" :: _ | "cat-file" :: _ => ok ""
  | ["rev-parse"; _; name] =>
      if String.eqb name (commit_arg scene_head "commit") then ok scene_head
      else if String.eqb name (commit_arg scene_head "tree") then ok scene_tree
      else ok base
  | "diff" :: _ => Exited true "patch" ""
  | "merge-tree" :: _ => ok merge_tree
  | _ => NotStarted "no such command"
  end.
Definition entries (path : PathBuf) : list ScanEntry :=
  if bool_decide (path = loop_root project) then [Entry (path_sub path ["run1"]) (Some true)]
  else [Entry (path_sub path [RUN_FILENAME]) (Some false)].

Definition world (pr : ForgejoPullRequest) (ci : CIStatus) (past : list (event reply)) (c : call) : reply c :=
  match c with
  | Canonicalize path => Some path
  | PathExists path => negb (bool_decide (path = path_sub (loop_root project) [RUN_FILENAME]))
  | IsDir _ => true
  | LinkMetadata _ => Some RegularFile
  | ReadFile _ => Some (json_to_string checkpoint)
  | ReadDir path => Some (entries path)
  | ResolveAgent name =>
      if String.eqb name "tl" then
        Some {| identity_branch := "main"; identity_ledger_owned := true; identity_slice_id := None |}
      else None
  | GetRepositoryUrl _ => Ok url
  | GetRepoInfo _ => Ok ("o", "r")
  | GetPullRequest _ _ _ => Ok pr
  | ReadPublications => publications
  | RunCommand _ args => git args
  | GetCommitStatus _ _ _ => Ok ci
  | MergePullRequest _ _ _ _ _ => MergeDone
  | LineageCall _ c => Lineage.scene_world [] c
  | LineageDeadline => false
  | AppendLog _ _ _ | CaptureMemory _ _ => tt
  end.

Definition pull (head : string) : ForgejoPullRequest := {|
  head_ref := "main.slice"; base_ref := "main"; state := "open"; merged := false; pr_head_sha := Some head |}.
Definition request (approval : option AggregateApprovalReference) : MergePrRequest := {|
  req_pr_number := 7; req_strategy := "Squash"; req_working_dir := "/p"; req_expected_base_sha := base;
  req_expected_head_sha := scene_head; req_expected_patch_digest := patch_sha;
  req_expected_merge_tree_sha := merge_tree; req_aggregate_approval := approval |}.

Definition outcome {A} (pr : ForgejoPullRequest) (ci : CIStatus) (p : IO A) : list (event reply) * A :=
  answer (world pr ci) [] p.
Definition merge_run (pr : ForgejoPullRequest) (ci : CIStatus) (approval : option AggregateApprovalReference)
    (agent : string) : list (event reply) * result MergePrResponse string :=
  outcome pr ci (merge_pr project true true (request approval) agent "main").
Definition refused (r : result MergePrResponse string) : option string :=
  match r with Ok x => if res_success x then None else Some (res_message x) | Err e => Some e end.
Lemma merge_outcome_runs {A} pr ci (p : IO A) : runs p (outcome pr ci p).1 (outcome pr ci p).2.
Proof.
  unfold outcome. destruct (answer_runs (world pr ci) [] p) as (t & E & R). by rewrite E.
Qed.
Lemma lookup_in {A} (l : list A) k x : l !! k = Some x -> In x l.
Proof. intros H. by apply list_elem_of_In, list_elem_of_lookup_2 with k. Qed.

(** ** Merges *)

(** The controller merges its aggregate with the receipt and not without; another agent,
    a pending check or another head is refused. *)
Example merge_outcomes :
  map (fun run => refused run.2)
    [merge_run (pull scene_head) CISuccess (Some reference) "tl";
     merge_run (pull scene_head) CISuccess None "tl";
     merge_run (pull scene_head) CISuccess (Some reference) "slice";
     merge_run (pull scene_head) CIPending (Some reference) "tl"]
  = [None;
     Some "aggregate PR #7 requires its active parent-approval receipt reference";
     Some "aggregate approval caller or parent scope does not match the current RunStore";
     Some "aggregate CI evidence changed or is not mergeable: pending"].
Proof. vm_compute. reflexivity. Qed.

Definition merged_run : list (event reply) * result MergePrResponse string :=
  merge_run (pull scene_head) CISuccess (Some reference) "tl".

(** ** Approvals *)

Definition approval_run : list (event reply) * result VerifiedParentApproval string :=
  outcome (pull scene_head) CISuccess (validate_parent_approval project reference 7 url "tl" "main").
Definition accepted : option VerifiedParentApproval := match approval_run.2 with Ok a => Some a | Err _ => None end.
Lemma approval_runs :
  runs (validate_parent_approval project reference 7 url "tl" "main") approval_run.1 approval_run.2.
Proof.
  exact (merge_outcome_runs (pull scene_head) CISuccess (validate_parent_approval project reference 7 url "tl" "main")).
Qed.
Lemma accepted_is a : accepted = Some a -> approval_run.2 = Ok a.
Proof. unfold accepted. destruct approval_run.2; congruence. Qed.
Lemma one_accepted : is_Some accepted.
Proof. vm_compute. by eexists. Qed.
Lemma approval_is_proven_witness :
  exists a state receipt,
    accepted = Some a
    /\ performed approval_run.1 (read_scope_checkpoint project (ref_parent_scope_path reference)) (Ok state)
    /\ candidate_evidence state receipt 7 (va_head_branch a)
    /\ a = verified_approval reference receipt (va_head_branch a) (va_aggregate_worktree a).
Proof.
  destruct one_accepted as [a Ha]. pose proof approval_runs as R. rewrite (accepted_is a Ha) in R.
  destruct (approval_is_proven project reference 7 url "tl" "main" _ a R)
    as (state & receipt & v & i & Hs & _ & _ & _ & _ & _ & _ & _ & _ & _ & _ & _ & Hc & _ & Hv).
  exists a, state, receipt. split; [exact Ha|]. split; [exact Hs|]. split; [exact Hc|exact Hv].
Defined.

(** The nested controller [c1] as the scope of an approval. *)
Definition child_checkpoint : json :=
  jobj ([("depth", JNum 1); ("plan_manifest", child_manifest);
         ("repository_identity", JObj [("remote_url", JStr url)])]
        ++ strs [("run_id", "c1"); ("controller_epoch", "e2"); ("owner_branch", "main.slice")])%list.
Definition nested_receipt : option ParentApprovalReceipt :=
  receipt_of_object (default [] (as_object (jobj
    (("receipt_id", JStr "r") :: ("created_at", JStr "monday") :: receipt_body node_id child_digest)))) false.
Definition nested_run (receipt : ParentApprovalReceipt) : list (event reply) * result unit string :=
  outcome (pull scene_head) CISuccess
    (validate_parent_manifest_lineage project ["run1"; "c1"] child_checkpoint receipt).
Lemma nested_runs receipt :
  runs (validate_parent_manifest_lineage project ["run1"; "c1"] child_checkpoint receipt)
    (nested_run receipt).1 (nested_run receipt).2.
Proof.
  exact (merge_outcome_runs (pull scene_head) CISuccess
           (validate_parent_manifest_lineage project ["run1"; "c1"] child_checkpoint receipt)).
Qed.
Lemma option_map_some {A B} (f : A -> B) o b : option_map f o = Some b -> exists a, o = Some a /\ f a = b.
Proof. destruct o as [a|]; [|done]. intros [= <-]. by exists a. Qed.
Lemma nested_accepted :
  exists receipt, nested_receipt = Some receipt /\ repository_url receipt = url /\ (nested_run receipt).2 = Ok tt.
Proof.
  assert (H : option_map (fun r => (repository_url r, (nested_run r).2)) nested_receipt = Some (url, Ok tt))
    by (vm_compute; reflexivity).
  destruct (option_map_some _ _ _ H) as (r & Hr & [Hu Hn]%pair_equal_spec).
  exists r. split; [exact Hr|]. split; [exact Hu|exact Hn].
Qed.
Lemma approval_descends_from_root_witness :
  exists receipt root,
    nested_receipt = Some receipt
    /\ (nested_run receipt).2 = Ok tt
    /\ descends url ["run1"] root ["c1"] child_checkpoint.
Proof.
  destruct nested_accepted as (receipt & Hr & Hu & Hok). pose proof (nested_runs receipt) as R. rewrite Hok in R.
  destruct (approval_descends_from_root project ["run1"; "c1"] child_checkpoint receipt _ R)
    as (root_id & rest & root & bottom & m & Ep & _ & _ & Hd & Hb & _).
  injection Ep as <- <-. rewrite Hb in Hd by discriminate. rewrite Hu in Hd.
  exists receipt, root. split; [exact Hr|]. split; [exact Hok|exact Hd].
Defined.

(** Pull request 8 is no aggregate of the checkpoints. *)
Definition scan_run : list (event reply) * result unit string :=
  outcome (pull scene_head) CISuccess (reject_unreferenced_aggregate project 8 url).
Lemma scan_runs : runs (reject_unreferenced_aggregate project 8 url) scan_run.1 scan_run.2.
Proof. exact (merge_outcome_runs (pull scene_head) CISuccess (reject_unreferenced_aggregate project 8 url)). Qed.
Lemma unreferenced_scan_is_complete_witness :
  scan_run.2 = Ok tt
  /\ (seen scan_run.1 (PathExists (loop_root project)) false
      \/ scanned scan_run.1 8 url (loop_root project)
         /\ forall dir entries path,
              seen scan_run.1 (ReadDir dir) (Some entries) -> In (Entry path (Some true)) entries ->
              scanned scan_run.1 8 url path).
Proof.
  assert (H : scan_run.2 = Ok tt) by (vm_compute; reflexivity).
  pose proof scan_runs as R. rewrite H in R.
  split; [exact H|]. exact (unreferenced_scan_is_complete project 8 url _ R).
Defined.
